(* ===== verification/_CoqProject ===== *)
-Q . S2P
Prelude.v
JsString.v
JsRegExp.v
JsNumber.v
JsTime.v
Errors.v
OrchestrationContracts.v
Ownership.v
PlanSchema.v
OrchestrationEngine.v
OrchestrationRuns.v
JsJson.v
JsJsonText.v
JsObject.v
MeshRepo.v
MeshTheorems.v
MeshService.v
MeshServiceTheorems.v
MeshExamples.v
MutationIdempotency.v
MutationTheorems.v
SessionContracts.v
SessionKey.v
InboundEvents.v
Sessions.v
SessionTheorems.v
TranscriptLog.v
TranscriptOutbox.v
TranscriptDrain.v
TranscriptDrainTheorems.v
IngestTables.v
EventIngest.v
EventIngestTheorems.v
IngestExamples.v
ToolGroups.v
ToolPatterns.v
ToolPolicy.v
ToolPolicyTheorems.v
DurableRuns.v
DurableRunTheorems.v
DurablePruning.v
DurableRetries.v
IpAddresses.v
Ipv4Ranges.v
Ipv6Text.v
Ipv6Guard.v
NetworkGuard.v
NetworkGuardTheorems.v
GuardedFetch.v
FileSystem.v
PathLanding.v
PathJail.v
PathJailTheorems.v
ToolWriteGate.v
ToolWriteTheorems.v
OutsideRootWrite.v
OutsideRootWriteTheorems.v
SandboxExamples.v
ShellCommands.v
ShellRisk.v
RiskGates.v
ShellRiskTheorems.v
RemoteActionTokens.v
RemoteActionTokenTheorems.v
Approvals.v
ApprovalTheorems.v
PendingActions.v
ToolRequests.v
ApprovalBypass.v
ApprovalBypassTheorems.v
ApprovalExamples.v
ToolTrust.v
ToolGrants.v
AccessLog.v
AccessDecision.v
AccessTheorems.v
FolderGrants.v
FolderExamples.v
Invocation.v
InvocationTheorems.v
