(* ===== verification/Prelude.v ===== *)
(** * GoatCitadel: a verification of its coordination core

    GoatCitadel is a local-first gateway for AI agents: a TypeScript monorepo
    whose packages (under src/packages) hold the logic and whose apps (under
    src/apps) serve it.  This library models the parts that decide who may do
    what, and exactly once: the orchestration of phased runs, the mesh of nodes
    with its leases and replication, the admission of external mutations, the
    ingest of gateway events into sessions, tables and transcripts, the policy
    that decides which tools an agent may use, the guard of the network those
    tools reach, the sandbox of the files they touch, the gates of the commands
    they start, the approvals that an operator gives, from the request to the
    tool call that runs on it, the tokens by which a remote surface answers an
    approval, and the durable queue of runs with its leases, retries and dead
    letters.  The models are executable functions that follow the source
    statement by statement; the theorems are about those functions.

    ** Parts and files

    The shared ground:
    - Prelude: outcomes, the state monad with rollback and catch, record update,
      tables as finite maps with the SQL statements used (insert or ignore,
      upsert, guarded update and delete, order by, limit), the notion [moves R m]
      that the effect of a method stays in a relation, tactics;
    - JsString, JsRegExp, JsNumber, JsTime, JsJson, JsJsonText,
      JsObject: the strings, regular expressions, numbers, dates, JSON texts and
      objects of the language, with their laws (trim, split, replaceAll,
      ordering; a matcher proved complete for its relation; binary64;
      toISOString and Date.parse round trip, and SQLite's reading of the
      same texts; JSON.stringify and JSON.parse round
      trip; an object as the list of its fields: lookup, set, delete, spread,
      literals, strict equality);
    - Errors: the thrown values (packages/contracts/src/errors.ts).

    Orchestration (packages/orchestration/src, contracts/src/orchestration.ts):
    - OrchestrationContracts: plans, waves, phases, runs;
    - Ownership: ownership-matrix.ts, the path claims of a wave's agents;
    - PlanSchema: plan-schema.ts, the validation of a plan;
    - OrchestrationEngine: engine.ts, createRun, startRun, approvePhase and
      advancePhase with their limits;
    - OrchestrationRuns: histories of runs and their theorems.

    Mesh (packages/storage/src/mesh-repo.ts, mesh-core/src/mesh-service.ts,
    contracts/src/mesh.ts):
    - MeshRepo: the contracts, nodes, leases, session owners, join tokens and
      the replication log, every statement and method;
    - MeshService: the service over the repository, its options and readiness;
    - MeshTheorems, MeshServiceTheorems, MeshExamples.

    Mutation idempotency (packages/storage/src/mutation-idempotency-repo.ts):
    - MutationIdempotency, MutationTheorems.

    Event ingest (packages/gateway-core/src, with its tables in
    packages/storage/src):
    - SessionContracts: contracts/src/session.ts and the message record;
    - SessionKey: session-key.ts;
    - InboundEvents: idempotency-repo.ts;
    - Sessions, SessionTheorems: session-repo.ts;
    - IngestTables: the writes of chat-message-repo.ts,
      cost-ledger-repo.ts and token-cost-ledger.ts;
    - TranscriptLog: transcript-log.ts; TranscriptOutbox:
      transcript-outbox-repo.ts;
    - TranscriptDrain, TranscriptDrainTheorems: flushTranscriptOutboxSession;
    - EventIngest, EventIngestTheorems: event-ingest.ts;
    - IngestExamples.

    Tool policy (packages/contracts/src/tool-groups.ts and policy.ts,
    packages/policy-engine/src, and two services of apps/gateway/src):
    - ToolGroups: tool-groups.ts, the groups an operator can switch off;
    - ToolPatterns: tool-patterns.ts, patterns compiled to regular expressions
      behind a cache, with the reading of those expressions;
    - ToolPolicy, ToolPolicyTheorems: policy-resolver.ts and policy-axes.ts, the
      scheduled and heartbeat profiles of policy.ts, autonomous-turn-policy.ts
      and scheduled-profile-intersection.ts.

    Network guard (packages/policy-engine/src/sandbox/network-guard.ts and
    http-request-policy.ts):
    - IpAddresses: the texts of addresses and their ranges, with the declared
      blocks; Ipv4Ranges, Ipv6Text, Ipv6Guard: their theorems;
    - NetworkGuard: hosts, the allowlist, the egress decision, the guarded
      lookup; NetworkGuardTheorems: its theorems;
    - GuardedFetch: the redirect loop and its policy; at its end a platform with
      the laws, and runs.

    Sandbox (packages/policy-engine/src/sandbox):
    - FileSystem: what the source uses of node:path and node:fs, the second
      over a tree of files, directories and symbolic links;
    - PathLanding: where a path leads through the links, present or not;
    - PathJail, PathJailTheorems: path-jail.ts, the write and the read jail;
    - ToolWriteGate, ToolWriteTheorems: write-root-safety.ts, the places no root
      opens, and tool-write-gate.ts, the gate that every
      write and delete of a tool passes;
    - OutsideRootWrite, OutsideRootWriteTheorems: outside-root-write.ts,
      outside-root-write-policy.ts and contracts/src/outside-root-write.ts, the
      writes that a folder grant or an approval admits;
    - SandboxExamples: file systems on which all of it runs.

    Shell commands (packages/policy-engine/src/sandbox):
    - ShellCommands: shell-command-syntax.ts, the words of
      a command and the operators that are refused;
    - ShellRisk: pattern-utils.ts, shell-risk-gate.ts and windows-shell-risk.ts,
      the risk patterns as regular expressions;
    - RiskGates, ShellRiskTheorems: argument-risk-gate.ts, the checks of the
      shell tools in tool-executor.ts and the two questions that engine.ts puts
      to the gates.

    Approvals (packages/storage/src, packages/policy-engine/src,
    contracts/src/approvals.ts and canonical-json.ts):
    - Approvals, ApprovalTheorems: approval-repo.ts and approval-input-guards.ts,
      the requests that are decided once, and histories of calls;
    - PendingActions: pending-approval-action-repo.ts,
      what is to be done once an approval is given;
    - ToolRequests: the stored request and the one that engine.ts rebuilds from
      it (asToolInvokeRequest), approval-action-secrets.ts, and the trust of
      tool-security.ts;
    - ApprovalBypass, ApprovalBypassTheorems: approval-bypass.ts, and
      executeApprovedAction of engine.ts up to the evaluation of the policy;
    - ToolTrust: the capabilities of tool-security.ts and its rule against
      untrusted content;
    - RemoteActionTokens, RemoteActionTokenTheorems:
      remote-action-token-repo.ts;
    - ApprovalExamples: one request from its approval to its end.

    The access decision (packages/policy-engine/src/engine.ts with the small files
    it reads requests by, contracts/src/citadel-wards.ts and tool-grants.ts):
    - ToolGrants: storage/src/tool-grant-repo.ts, standing permissions and
      denials, with histories of calls;
    - AccessLog: storage/src/tool-access-decision-repo.ts, the recorded decisions
      and the hourly counts over them;
    - AccessDecision: Wards, the target of a remote tool, the policy gates, the
      choice of a grant and its constraints, the structural checks, the reasons
      to ask, evaluateAccessInternal and the callers that record its answer;
    - AccessTheorems: what it guarantees, and the decision at work;
    - FolderGrants, FolderExamples: mintOutsideRootWriteGrant and the other calls
      of engine.ts on grants, with the events of approvals
      (storage/src/approval-event-repo.ts), the details registered in them, and
      tool-executor/outside-root-write-admission.ts; what a minted grant opens;
    - Invocation: invoke and executeApprovedAction of engine.ts with the creation
      of the approval (approval-gate.ts), the use of grants, the run of the tool
      and its records, and own-delivery.ts;
    - InvocationTheorems: how runs follow from decisions, over one call and over
      histories of calls, and invocations at work.

    Durable runs (packages/storage/src/durable-run-repo.ts):
    - DurableRuns: the tables and every method but listRunHistory;
    - DurableRunTheorems: histories of calls, versions, leases, reservations;
    - DurablePruning: the pruning of checkpoints;
    - DurableRetries: retries, dead letters, well-formed tables, examples.

    The parts meet as in the program: the service of the mesh calls its
    repository inside its transactions; ingest calls the repositories of its
    tables inside one transaction and the drain after it; the drain moves rows
    of the outbox into transcript files; the policy resolver calls the patterns
    and the groups, and the profile of a scheduled run is built so that the
    resolver narrows it; the gate of tool writes calls the jail and then the
    safety rules, and the writes outside the roots reach it through the roots
    that a grant adds.  The bypass reads the tables of approvals and of pending
    actions, and its theorems are about the histories of both; the gates of the
    shell tools and the writes outside the roots let pass what it has verified.
    The access decision calls all of these: the resolver and the patterns for
    the policy, the network guard, the jail and the write gate for the structural
    checks, the risk gates, trust and the writes outside the roots, over the
    tables of grants and of earlier decisions.  An invocation makes the decision
    on the tables it finds, asks with an approval and its action, or uses the
    grant and runs the tool; an approved execution verifies the action, decides
    again and settles it.
    The durable queue reads the reservations that other
    repositories write, which its histories let change at any time.

    ** How the code is rendered

    - A call that may throw is an [outcome]; a method over tables or fields is a
      function in the monad [M], which returns the state reached on both exits,
      because a throw does not undo writes; only a transaction does.
    - A table is a finite map from its primary key to the record of its other
      columns.  A query without ORDER BY is read in the map's order, which no
      theorem uses.  The run-time checks of the shape of a row are the typing
      of the row.
    - The clock, randomUUID and SHA-256 are arguments.  No theorem assumes
      anything of the digest: where two payloads are compared, the statement
      compares digests.
    - Strings are over the 256 code units of [ascii]; the semantics of each
      method is the language's on that alphabet.  Date.parse is modelled on the
      format toISOString writes, the only one the program stores; other texts
      parse to NaN.
    - Amounts of money are binary64 numbers, rounded as the hardware does;
      counters, versions and times are integers, which the program keeps far
      below 2^53.  A number inside a JSON text is the literal it is written
      with.  Values cast to INTEGER by SQLite are truncated and clamped to 64
      bits.
    - Third-party code appears as an interface with its documented law: zod's
      object parser in PlanSchema; the URL parser and isIP of the platform in
      NetworkGuard (the class Platform; what node:net promises of isIP is the
      class PlatformLaws, which GuardedFetch shows can hold); the network
      itself is a function that answers each request of GuardedFetch; what the
      Windows risk scan uses of Buffer is the class NodeBuffer; localeCompare is an
      argument wherever the source sorts by it, and no theorem assumes anything
      of it.
    - What the access decision asks of parts that are not modelled are the fields
      of [AccessWorld], of which no theorem assumes anything: the paths of
      artefacts, the hosts that a grant must allow, the checks of Firecrawl
      endpoints, search hosts and browser steps, the Wards of a Citadel, and
      the Gateway's word on writes outside the roots.  Its asynchronous reads of
      one evaluation see one state of the tables, as they do in the transaction
      of an invocation.
    - What an invocation meets is the record [InvokeCall]: the outcome of the tool
      and of the caller's callbacks, the answers of the audit log, new ids, and the
      texts shown to the operator; no theorem assumes anything of them.  The
      fields of a request as the access decision reads them are a function of the
      request.  Each call is one step, so two calls that overlap are not covered.
    - Concurrency: the process is single threaded and a statement or a
      transaction is one step.  Where a method reads and then writes in two
      statements, the model splits it at that point, and the race theorems of
      the mesh interleave two callers there.  In the drain every database or
      file call may succeed, throw before or after its effect, or be the point
      where the process dies.
    - Fuel: [json_parse] runs with twice the length of the text plus two, and
      [json_parse_stringify] shows that this reads back every written text;
      [replace_all] runs with the length of the string, and
      [replace_all_fuel_enough] shows that more changes nothing; [batches] runs
      with the number of ids, enough for [concat_batches]; [fetchAllowlisted]
      runs with its redirect limit plus one, and [fetch_validated] shows that it
      ends; [to_hex] writes four digits, all a group has; a star of a regular
      expression is unrolled at most as often as there are characters left, and
      [rx_run_spec] shows that this finds every match; the Windows risk scan
      recurses three levels deep, the bound of the source.  The file system
      follows at most as many links as its parameter says and then fails, as the
      kernel does; the jail recurses on the names of its path and on
      MAX_SYMLINK_HOPS = 40, the bound of the source.  Everything else is
      structural, so the functions are total.

    ** What the theorems show

    - Orchestration: every history executes a prefix of the plan in order, none
      twice, gated phases only after their approval, within the limits of the
      plan and its waves; calls are accepted in exactly the states the code
      means; a run is always driven to an end; costs add up; plan validation is
      equivalent to its declarative rules; two agents of a wave in which no
      conflict is reported own no path in common, and for plain paths the
      converse holds.
    - Mesh: reachable tables are well formed; a held lease is protected;
      while its row stays, a lease passes to another holder only after it ran
      out, under the next fencing token; races have one winner (and the one race
      that does not); join
      tokens are spent once; the replication log is idempotent and its pages
      tile it; replacing options is atomic and reversible; readiness has an
      exact meaning.
    - Mutations: a dispatched mutation is never dispatched again by another
      caller, stale tokens are fenced off, statuses follow the machine.
    - Ingest: keys tell routes apart; sessions count usage exactly; pages tile
      the listing; a transcript holds each event once whatever fails; a drain
      without faults delivers everything in order; ingest is atomic, its
      redeliveries are duplicates that change nothing, and usage is counted
      once.
    - Tool policy: a pattern means its glob, within length limits and whatever
      the cache holds; the resolver allows exactly what the declared rule
      allows, denies and switched-off groups first; holding groups off removes
      exactly their tools; approvals and read access only get stricter; a
      scheduled run never exceeds its creator, and a heartbeat reads only.
    - Network guard: the IPv4 and IPv6 tests are the declared blocks; patterns are
      wildcards; no host on a reserved name or address, in its usual text, is
      reached but by its explicit loopback or LAN entry, before and after name
      resolution (a spelling that escapes the guard is shown); redirects end, stay allowed, never
      replay a mutation and never carry authority to another origin.
    - Sandbox: a path that a jail accepts leads into one of its roots, through
      whatever links it passes, with the exception of one link form, which is
      shown on a file system; a path of plain names in a root is accepted; a tool write
      never touches a protected place; a write outside the roots is decided by
      the declared rule, and a folder grant is bounded in time and extent.
    - Shell commands: an accepted command is the words between its plain blanks,
      and a quoted command is split back into itself; a risk pattern is found
      where its glob matches between word boundaries; what a shell tool
      starts holds no operator of a shell, no open quote and no pattern that no
      approval covers, and every such command that is not for a Windows shell is
      started, in agreement with the questions the engine asked before; and
      quotes inside a word hide it from the patterns.
    - Approvals: resolving is described on every branch; a decision is final;
      every approved request was approved in time by a call of resolve; the
      bypass holds only for such an approval, an action that is pending and in
      date, and a request that agrees with the stored one in the fields that are
      compared, up to the order of fields; a spent action is never begun again;
      a typed request is rebuilt field by field, but for the snapshot of routed
      context, and goes on to the policy; untrusted sources keep privileged tools out,
      but for the file tools that are shown.
    - The access decision: what runs unasked, exactly; every refusal wins over
      every permission, an active denial and the strictest Ward among them; a
      silent heartbeat never waits for an operator; a grant is used within its
      scope, its time and its hourly limit, and what changes something is
      counted; a one-time grant is spent at most once, and what was revoked or
      spent stays so; the limits of Citadel grants are counted by session, and
      a remote peer does ride the bypass mode, as an example shows; an approval
      opens one folder, the one that was offered and chosen, for a bounded time.
    - Invocations: a tool runs only as a recorded decision admitted it, at most
      once in a call, on the caller's request or on a verified action; what is
      returned is on record; over every history an approval runs one tool but for
      calls that left the action open, because they threw or because their caller
      settles it, and none once it is settled; a one-time grant runs one;
      examples show the lost call, the deferred one,
      a run that is reported as blocked, and a dry run that its approval runs.
    - Remote action tokens: a token is claimed only while it is pending and fresh,
      at most once whatever calls follow but a rewrite of its state; its
      fingerprint alone resumes it.
    - Durable runs: a stale version is refused after any history; a claim grants
      an exclusive lease of the requested length; a retry delays the next claim
      by its delay; a reserved run is held; pruning keeps what it must and
      removes what it may; a dead letter is resolved once; the tables stay well
      formed.

    ** What is not modelled

    The apps (HTTP server and its services other than the two named above, user
    interfaces, native hosts), the admission of native runtimes by the policy
    engine, the sanitised columns of its records and the creation of approvals
    by the Gateway, its record of external side effects, which keeps two calls
    from running one approved action whose resolution they defer, its executor
    and tools but for the checks of the shell tools
    and of writes outside the roots, the cache of guarded connections, the memory and skills packages, the other repositories of the storage package and the schema
    migrations.  In the approvals: the pages by cursor, the lookups by LIKE and
    the join with run linkages, which only read, and the events and audit rows
    beside the calls.  In the sandbox: the rules for Windows paths, permissions, a file
    system that changes during one check, and the preset for temporary folders.
    In the tokens and approvals: the rounding of julianday's floating point, and
    the statements as written for PostgreSQL.  In the modelled files: the history
    pages of durable runs and the Chat task that follows a run bound to a remote
    worker, console output and logging, the quarantine reports of
    malformed columns, the retention scan of transcript files, the read side of
    the cost ledger and of the chat messages, and git worktrees. *)
From stdpp Require Export base tactics decidable option list list_numbers gmap strings fin_maps sorting.
From Stdlib Require Export ZArith Lia Ascii.

Declare Scope goat_scope.
Delimit Scope goat_scope with goat.
#[global] Open Scope Z_scope.
#[global] Open Scope goat_scope.

(** ** Outcomes: a call returns a value or throws

    [outcome E A] is the result of a synchronous call: [Ok a] when it returns
    [a], [Err e] when it throws [e].  stdpp's [mret]/[mbind] give it the
    notation [x ← c; k]. *)

Inductive outcome (E A : Type) : Type :=
  | Ok (a : A)
  | Err (e : E).
Arguments Ok {E A} a.
Arguments Err {E A} e.

#[export] Instance outcome_ret {E} : MRet (outcome E) := λ A a, Ok a.
#[export] Instance outcome_bind {E} : MBind (outcome E) := λ A B f r,
  match r with
  | Ok a => f a
  | Err e => Err e
  end.

Definition is_ok {E A} (r : outcome E A) : bool :=
  match r with Ok _ => true | Err _ => false end.

(** [throw_when b e]: an early [if (b) throw e]. *)
Definition throw_when {E} (b : bool) (e : E) : outcome E unit :=
  if b then Err e else Ok tt.

(** ** Stateful calls

    A method of a class whose fields (or database tables) are [S].  The state
    reached so far is returned on both exits, because a JavaScript throw does
    not undo the writes made before it; only [transaction] does. *)

Definition M (E S A : Type) : Type := S → outcome E A * S.

#[export] Instance M_ret {E S} : MRet (M E S) := λ A a s, (Ok a, s).
#[export] Instance M_bind {E S} : MBind (M E S) := λ A B f m s,
  match m s with
  | (Ok a, s') => f a s'
  | (Err e, s') => (Err e, s')
  end.

Definition throw {E S A} (e : E) : M E S A := λ s, (Err e, s).
Definition gets {E S A} (f : S → A) : M E S A := λ s, (Ok (f s), s).
Definition modify {E S} (f : S → S) : M E S unit := λ s, (Ok tt, f s).
Definition lift {E S A} (r : outcome E A) : M E S A := λ s, (r, s).
Definition guard_throw {E S} (b : bool) (e : E) : M E S unit :=
  lift (throw_when b e).

(** [db.transaction("immediate", f)]: the writes of [f] are kept when it
    returns and rolled back when it throws. *)
Definition transaction {E S A} (m : M E S A) : M E S A := λ s,
  match m s with
  | (Ok a, s') => (Ok a, s')
  | (Err e, _) => (Err e, s)
  end.

(** [try { m } catch { h }]: the writes made before the throw stay. *)
Definition try_catch {E S A} (m : M E S A) (h : E → M E S A) : M E S A := λ s,
  match m s with
  | (Ok a, s') => (Ok a, s')
  | (Err e, s') => h e s'
  end.

(** Run [f] over the elements of a list in order ([for (const x of xs)]). *)
Fixpoint for_each {E S A} (f : A → M E S unit) (xs : list A) : M E S unit :=
  match xs with
  | [] => mret tt
  | x :: xs' => f x ;; for_each f xs'
  end.

(** An operation on one component of a larger state (a repository of the
    storage object, a field of a service). *)
Definition zoom {E S T A} (get : S → T) (set : T → S → S) (m : M E T A) : M E S A :=
  λ s, let '(r, t) := m (get s) in (r, set t s).

Section monad_laws.
Context {E S : Type}.

Lemma M_bind_ret {A B} (a : A) (f : A → M E S B) s :
  (mret a ≫= f) s = f a s.
Proof. reflexivity. Qed.

Lemma M_bind_assoc {A B C} (m : M E S A) (f : A → M E S B) (g : B → M E S C) s :
  ((m ≫= f) ≫= g) s = (m ≫= λ a, f a ≫= g) s.
Proof. unfold mbind, M_bind. by destruct (m s) as [[]]. Qed.

Lemma M_lift_bind {A B} (r : outcome E A) (f : A → M E S B) s :
  (lift r ≫= f) s = match r with Ok a => f a s | Err e => (Err e, s) end.
Proof. by destruct r. Qed.

Lemma bind_run {A B} (m : M E S A) (f : A → M E S B) s a s' :
  m s = (Ok a, s') → (m ≫= f) s = f a s'.
Proof. intros H. unfold mbind, M_bind. by rewrite H. Qed.

Lemma M_gets_bind {A B} (g : S → A) (f : A → M E S B) s : (gets g ≫= f) s = f (g s) s.
Proof. reflexivity. Qed.

(** Inversion of a successful sequence. *)
Lemma M_bind_ok {A B} (m : M E S A) (f : A → M E S B) s b s' :
  (m ≫= f) s = (Ok b, s') ↔
  ∃ a s1, m s = (Ok a, s1) ∧ f a s1 = (Ok b, s').
Proof.
  unfold mbind, M_bind. destruct (m s) as [[a|e] s1]; naive_solver.
Qed.

Lemma M_bind_err {A B} (m : M E S A) (f : A → M E S B) s e s' :
  (m ≫= f) s = (Err e, s') ↔
  m s = (Err e, s') ∨ ∃ a s1, m s = (Ok a, s1) ∧ f a s1 = (Err e, s').
Proof.
  unfold mbind, M_bind. destruct (m s) as [[a|e'] s1]; naive_solver.
Qed.

(** Either exit of a sequence. *)
Lemma M_bind_any {A B} (m : M E S A) (f : A → M E S B) s o s' : (m ≫= f) s = (o, s') →
  (∃ a s1, m s = (Ok a, s1) ∧ f a s1 = (o, s')) ∨ (∃ e, m s = (Err e, s') ∧ o = Err e).
Proof. unfold mbind, M_bind. destruct (m s) as [[a|e] s1]; [left; by exists a, s1|right]. exists e. naive_solver. Qed.

Lemma gets_ok {A} (f : S → A) s a s' :
  gets (E:=E) f s = (Ok a, s') ↔ a = f s ∧ s' = s.
Proof. unfold gets. naive_solver. Qed.

Lemma modify_ok (f : S → S) s u s' :
  modify (E:=E) f s = (Ok u, s') ↔ s' = f s.
Proof. unfold modify. destruct u. naive_solver. Qed.

Lemma guard_throw_ok b (e : E) (s : S) u s' :
  guard_throw b e s = (Ok u, s') ↔ b = false ∧ s' = s.
Proof. unfold guard_throw, lift, throw_when. destruct b, u; naive_solver. Qed.

Lemma transaction_ok {A} (m : M E S A) s a s' :
  transaction m s = (Ok a, s') ↔ m s = (Ok a, s').
Proof. unfold transaction. destruct (m s) as [[]]; naive_solver. Qed.

(** A transaction that throws leaves the state as it was. *)
Lemma transaction_rollback {A} (m : M E S A) s e s' :
  transaction m s = (Err e, s') → s' = s.
Proof. unfold transaction. destruct (m s) as [[]]; naive_solver. Qed.
End monad_laws.

(** ** What a call may do to the state

    [moves R m]: whatever the call returns or throws, it leads from a state to one
    related by the preorder [R], such as "the runs are as they were" or "the
    invariant is kept". *)
Definition moves {E S A} (R : relation S) (m : M E S A) : Prop := ∀ s, R s (m s).2.

Section moves.
Context {E S : Type} (R : relation S) `{!PreOrder R}.

Lemma moves_bind {A B} (m : M E S A) (f : A → M E S B) : moves R m → (∀ a, moves R (f a)) → moves R (m ≫= f).
Proof.
  intros Hm Hf s. unfold mbind, M_bind. specialize (Hm s). destruct (m s) as [[a|e] s']; [|done].
  etrans; [exact Hm|apply Hf].
Qed.
Lemma moves_ret {A} (a : A) : moves R (mret (M := M E S) a). Proof. intros s. reflexivity. Qed.
Lemma moves_lift {A} (r : outcome E A) : moves R (lift r). Proof. intros s. reflexivity. Qed.
Lemma moves_throw {A} (e : E) : moves R (throw (A := A) e). Proof. intros s. reflexivity. Qed.
Lemma moves_gets {A} (f : S → A) : moves R (gets (E := E) f). Proof. intros s. reflexivity. Qed.
Lemma moves_guard b (e : E) : moves R (guard_throw b e). Proof. intros s. reflexivity. Qed.
Lemma moves_transaction {A} (m : M E S A) : moves R m → moves R (transaction m).
Proof. intros Hm s. specialize (Hm s). unfold transaction. destruct (m s) as [[|] s']; [exact Hm|reflexivity]. Qed.
Lemma moves_catch {A} (m : M E S A) (h : E → M E S A) : moves R m → (∀ e, moves R (h e)) → moves R (try_catch m h).
Proof.
  intros Hm Hh s. specialize (Hm s). unfold try_catch. destruct (m s) as [[|e] s']; [exact Hm|]. etrans; [exact Hm|apply Hh].
Qed.
End moves.

(** Reduces [moves R] of a method to its statements. *)
Ltac moves := repeat first
  [ apply moves_bind; [apply _| |intros ?] | apply moves_ret; apply _ | apply moves_lift; apply _ | apply moves_throw; apply _
  | apply moves_gets; apply _ | apply moves_guard; apply _ ].

Lemma outcome_bind_ok {E A B} (r : outcome E A) (f : A → outcome E B) b :
  r ≫= f = Ok b ↔ ∃ a, r = Ok a ∧ f a = Ok b.
Proof. unfold mbind, outcome_bind. destruct r; naive_solver. Qed.

Lemma outcome_bind_ext {E A B} (r : outcome E A) (f g : A → outcome E B) :
  (∀ a, f a = g a) → r ≫= f = r ≫= g.
Proof. intros H. destruct r; [apply H|done]. Qed.

Lemma throw_when_ok {E} b (e : E) u : throw_when b e = Ok u ↔ b = false.
Proof. unfold throw_when. destruct b, u; naive_solver. Qed.

Create Rewrite HintDb outcome.
#[export] Hint Rewrite @M_bind_ok @gets_ok @modify_ok @guard_throw_ok
  @transaction_ok @outcome_bind_ok @throw_when_ok : outcome.

(** ** Record update: [{ ...r, f: v }]

    [eta] rebuilds a record from its projections; the setter of a projection
    [f] replaces the occurrence of [f r] in it. *)

Class Eta (R : Type) := eta : R → R.
Class Setter {R T : Type} (f : R → T) := set_field : T → R → R.
Arguments set_field {R T} f {_} v r /.

Ltac solve_setter :=
  lazymatch goal with
  | |- @Setter ?R ?T ?f =>
      let v := fresh "v" in let r := fresh "r" in
      change (T → R → R); intros v r;
      let e := constr:(eta r) in
      let e := eval hnf in e in
      let p := eval pattern (f r) in e in
      lazymatch p with
      | ?g _ => let b := eval cbv beta in (g v) in exact b
      end
  end.
#[export] Hint Extern 0 (Setter _) => solve_setter : typeclass_instances.

Notation "r <| f := v |>" := (set_field f v r)
  (at level 12, f at level 9, left associativity) : goat_scope.

(** ** Database tables

    A table is the finite map from its primary key to its row.  A prepared
    statement that writes returns how many rows it changed ([changes]). *)

Section tables.
Context {K V : Type} `{Countable K}.
Implicit Types (t : gmap K V) (k : K) (v : V).

(** [INSERT ... ON CONFLICT DO NOTHING]. *)
Definition sql_insert_ignore k v t : Z * gmap K V :=
  match t !! k with
  | Some _ => (0, t)
  | None => (1, <[k := v]> t)
  end.

(** [INSERT ... ON CONFLICT(key) DO UPDATE SET ...]: [upd old new]. *)
Definition sql_upsert (upd : V → V → V) k v t : gmap K V :=
  match t !! k with
  | Some old => <[k := upd old v]> t
  | None => <[k := v]> t
  end.

(** [UPDATE ... SET ... WHERE key = k AND cond]. *)
Definition sql_update (cond : V → bool) (f : V → V) k t : Z * gmap K V :=
  match t !! k with
  | Some v => if cond v then (1, <[k := f v]> t) else (0, t)
  | None => (0, t)
  end.

(** [DELETE ... WHERE key = k AND cond]. *)
Definition sql_delete (cond : V → bool) k t : Z * gmap K V :=
  match t !! k with
  | Some v => if cond v then (1, delete k t) else (0, t)
  | None => (0, t)
  end.

(** [SELECT * ... WHERE cond]: the rows, in no promised order. *)
Definition sql_rows (cond : V → bool) t : list V :=
  List.filter cond (map_to_list t).*2.

Lemma sql_update_changes cond f k t :
  0 < (sql_update cond f k t).1 ↔ ∃ v, t !! k = Some v ∧ cond v = true.
Proof.
  unfold sql_update. destruct (t !! k) as [v|]; simpl.
  - destruct (cond v) eqn:Hc; simpl; split; try lia; [eauto|].
    intros (w & [= <-] & Hw). congruence.
  - split; [lia|]. by intros (? & ? & _).
Qed.

Lemma sql_update_eq cond f k t v :
  t !! k = Some v → cond v = true → sql_update cond f k t = (1, <[k := f v]> t).
Proof. intros Hk Hc. unfold sql_update. by rewrite Hk, Hc. Qed.

Lemma sql_update_other cond f k k' t :
  k ≠ k' → (sql_update cond f k t).2 !! k' = t !! k'.
Proof.
  intros. unfold sql_update. destruct (t !! k); [|done].
  case_match; simpl; [by rewrite lookup_insert_ne|done].
Qed.

Lemma sql_update_lookup cond f k t k' :
  (sql_update cond f k t).2 !! k' =
    if decide (k = k') then (λ v, if cond v then f v else v) <$> t !! k else t !! k'.
Proof.
  unfold sql_update. destruct (decide (k = k')) as [<-|Hne].
  - destruct (t !! k) as [v|] eqn:Hk; simpl; [|done].
    destruct (cond v); simpl; [by rewrite lookup_insert_eq|done].
  - destruct (t !! k) as [v|]; simpl; [|done].
    destruct (cond v); simpl; [by rewrite lookup_insert_ne|done].
Qed.

Lemma sql_upsert_lookup upd k v t k' :
  sql_upsert upd k v t !! k' =
    if decide (k = k') then Some (match t !! k with Some old => upd old v | None => v end) else t !! k'.
Proof.
  unfold sql_upsert. destruct (decide (k = k')) as [<-|Hne]; destruct (t !! k);
    by rewrite ?lookup_insert_eq, ?lookup_insert_ne.
Qed.

Lemma sql_delete_lookup cond k t k' :
  (sql_delete cond k t).2 !! k' =
    if decide (k = k') then v ← t !! k; (if cond v then None else Some v) else t !! k'.
Proof.
  unfold sql_delete. destruct (decide (k = k')) as [<-|Hne].
  - destruct (t !! k) as [v|] eqn:Hk; simpl; [|done].
    destruct (cond v); simpl; [by rewrite lookup_delete_eq|done].
  - destruct (t !! k) as [v|]; simpl; [|done].
    destruct (cond v); simpl; [by rewrite lookup_delete_ne|done].
Qed.

Lemma elem_of_sql_rows cond t v :
  v ∈ sql_rows cond t ↔ cond v = true ∧ ∃ k, t !! k = Some v.
Proof.
  unfold sql_rows. rewrite list_elem_of_In, filter_In, <-list_elem_of_In.
  rewrite list_elem_of_fmap. split.
  - intros [([k w] & -> & Hin) ?]. apply elem_of_map_to_list in Hin. eauto.
  - intros [? [k Hk]]. split; [|done]. exists (k, v).
    by rewrite elem_of_map_to_list.
Qed.
End tables.

(** [ORDER BY]: a stable-by-key sort under a boolean order. *)
Definition order_by {A} (le : A → A → bool) (l : list A) : list A :=
  merge_sort (λ x y, Is_true (le x y)) l.

(** [LIMIT n]: SQLite reads a negative limit as no limit. *)
Definition sql_limit {A} (n : Z) (l : list A) : list A :=
  if n <? 0 then l else take (Z.to_nat n) l.

Lemma order_by_Permutation {A} (le : A → A → bool) l : order_by le l ≡ₚ l.
Proof. apply merge_sort_Permutation. Qed.

Lemma order_by_sorted {A} (le : A → A → bool) l :
  (∀ x y, le x y = true ∨ le y x = true) →
  (∀ x y z, le x y = true → le y z = true → le x z = true) →
  StronglySorted (λ x y, Is_true (le x y)) (order_by le l).
Proof.
  intros Htot Htrans.
  assert (Transitive (λ x y, Is_true (le x y))) by (intros x y z ?%Is_true_true ?%Is_true_true; apply Is_true_true; eauto).
  assert (Total (λ x y, Is_true (le x y))) by (intros x y; rewrite !Is_true_true; auto).
  apply StronglySorted_merge_sort; apply _.
Qed.

(** The sorted list of a part is that part of the sorted list, when the order
    tells the elements apart. *)
Lemma order_by_filter {A} (le : A → A → bool) (p : A → bool) l :
  (∀ x y, le x y = true ∨ le y x = true) →
  (∀ x y z, le x y = true → le y z = true → le x z = true) →
  (∀ x y, x ∈ l → y ∈ l → le x y = true → le y x = true → x = y) →
  order_by le (List.filter p l) = List.filter p (order_by le l).
Proof.
  intros Htot Htrans Hanti.
  assert (Hperm : ∀ l1 l2 : list A, l1 ≡ₚ l2 → List.filter p l1 ≡ₚ List.filter p l2).
  { clear. induction 1; simpl; [done|destruct (p x); [by constructor|done]| |by etrans].
    destruct (p x), (p y); try done. apply perm_swap. }
  assert (Hss : ∀ k, StronglySorted (λ x y, Is_true (le x y)) k →
    StronglySorted (λ x y, Is_true (le x y)) (List.filter p k)).
  { clear. induction 1 as [|x k _ IH Hx]; simpl; [constructor|]. destruct (p x); [|done].
    constructor; [done|]. rewrite Forall_forall in Hx |- *. intros y Hy.
    apply Hx. rewrite list_elem_of_In, filter_In in Hy. apply list_elem_of_In. tauto. }
  apply (StronglySorted_unique_strong (λ x y, Is_true (le x y))).
  - intros x y Hx Hy ?%Is_true_true ?%Is_true_true. apply Hanti; [| |done|done].
    + rewrite order_by_Permutation, list_elem_of_In, filter_In in Hx. apply list_elem_of_In. tauto.
    + rewrite list_elem_of_In, filter_In, <-list_elem_of_In, order_by_Permutation in Hy. tauto.
  - by apply order_by_sorted.
  - by apply Hss, order_by_sorted.
  - rewrite order_by_Permutation. apply Hperm. by rewrite order_by_Permutation.
Qed.

(** Splitting a sorted list at one of its elements. *)
Lemma sorted_split {A} (le lt : A → A → bool) l x :
  (∀ x y, le x y = negb (lt y x)) → (∀ x, lt x x = false) →
  (∀ x y, x ∈ l → y ∈ l → le x y = true → le y x = true → x = y) →
  StronglySorted (λ x y, Is_true (le x y)) l → NoDup l → x ∈ l →
  ∃ l1, l = l1 ++ x :: List.filter (lt x) l.
Proof.
  intros Hle Hirr Hanti Hs. induction Hs as [|y l Hs IH Hy]; intros Hnd Hx; [set_solver|].
  apply NoDup_cons in Hnd as [Hni Hnd]. rewrite Forall_forall in Hy. simpl.
  assert (Hle' : ∀ z, z ∈ l → lt z y = false).
  { intros z Hz. specialize (Hy z Hz). rewrite Is_true_true, Hle, negb_true_iff in Hy. done. }
  apply elem_of_cons in Hx as [->|Hx].
  - exists []. rewrite Hirr. simpl. f_equal. symmetry.
    cut (∀ k, (∀ z, z ∈ k → z ∈ l) → List.filter (lt y) k = k); [intros Hk; by apply Hk|].
    induction k as [|z k IHk]; intros Hk; simpl; [done|].
    replace (lt y z) with true; [f_equal; apply IHk; set_solver|]. symmetry.
    destruct (lt y z) eqn:E; [done|]. exfalso. apply Hni.
    assert (z ∈ l) as Hz by (apply Hk; set_solver).
    rewrite (Hanti y z); [done|set_solver|set_solver| |]; rewrite Hle; [by rewrite (Hle' z Hz)|by rewrite E].
  - rewrite (Hle' x Hx). destruct IH as [l1 Hl1]; [set_solver|done|done|].
    exists (y :: l1). simpl. by f_equal.
Qed.

Lemma elem_of_sql_limit {A} n (l : list A) x : x ∈ sql_limit n l → x ∈ l.
Proof.
  unfold sql_limit. destruct (n <? 0); [done|].
  intros Hx. rewrite <-(take_drop (Z.to_nat n) l). set_solver.
Qed.

(** ** Tactics *)

(** Turn a hypothesis about a successful monadic run into its steps. *)
Ltac inv_run H :=
  autorewrite with outcome in H; simpl in H; destruct_and?; simplify_eq/=.

(** Case analysis on the scrutinees of the goal, closing what is immediate. *)
Ltac case_all := repeat (case_match; simplify_eq/=; try done).

(** Boolean tests to propositions, on both sides. *)
Ltac bools :=
  repeat match goal with
  | H : (_ && _) = true |- _ => apply andb_true_iff in H as [? ?]
  | H : (_ || _) = false |- _ => apply orb_false_iff in H as [? ?]
  | H : negb _ = true |- _ => apply negb_true_iff in H
  | H : negb _ = false |- _ => apply negb_false_iff in H
  | H : bool_decide _ = true |- _ => apply bool_decide_eq_true in H
  | H : bool_decide _ = false |- _ => apply bool_decide_eq_false in H
  | H : (_ =? _)%Z = true |- _ => apply Z.eqb_eq in H
  | H : (_ =? _)%Z = false |- _ => apply Z.eqb_neq in H
  | H : (_ <? _)%Z = true |- _ => apply Z.ltb_lt in H
  | H : (_ <? _)%Z = false |- _ => apply Z.ltb_ge in H
  | H : (_ <=? _)%Z = true |- _ => apply Z.leb_le in H
  | H : (_ <=? _)%Z = false |- _ => apply Z.leb_gt in H
  end.
