(* ===== verification/JsString.v ===== *)
(** * Strings as the JavaScript source uses them

    A JavaScript string is a sequence of UTF-16 code units; here the code units
    are the 256 values of [ascii], i.e. the strings over U+0000..U+00FF.  The
    operations below are the methods of [String.prototype] the modelled code
    calls, on that alphabet. *)
From S2P Require Import Prelude.

#[global] Arguments String.append : simpl nomatch.

(** Characters by name. *)
Definition dquote : ascii := "034"%char.
Definition squote : ascii := "'"%char.
Definition backslash : ascii := "\"%char.
Definition lf : ascii := "010"%char.
Definition cr : ascii := "013"%char.
Definition nul : ascii := "000"%char.

(** Code units that [trim] removes and that [\s] matches: tab, line feed,
    vertical tab, form feed, carriage return, space and no-break space. *)
Definition is_space (c : ascii) : bool :=
  let n := N_of_ascii c in
  (9 <=? n)%N && (n <=? 13)%N || (n =? 32)%N || (n =? 160)%N.

(** Ranges of characters. *)
Definition char_between (lo hi : N) (c : ascii) : bool := ((lo <=? N_of_ascii c) && (N_of_ascii c <=? hi))%N.
(** [[A-Za-z]], [[A-Za-z0-9]] and [\w]. *)
Definition is_letter (c : ascii) : bool := char_between 65 90 c || char_between 97 122 c.
Definition is_alnum (c : ascii) : bool := is_letter c || char_between 48 57 c.
Definition is_word (c : ascii) : bool := is_alnum c || Ascii.eqb c "_".

(** Line terminators, which [.] does not match in a regular expression. *)
Definition is_line_break (c : ascii) : bool :=
  Ascii.eqb c "010"%char || Ascii.eqb c "013"%char.

(** [s.trimStart()]. *)
Fixpoint trim_start (s : string) : string :=
  match s with
  | EmptyString => EmptyString
  | String c s' => if is_space c then trim_start s' else s
  end.

(** [s.trimEnd()]. *)
Fixpoint trim_end (s : string) : string :=
  match s with
  | EmptyString => EmptyString
  | String c s' =>
      match trim_end s' with
      | EmptyString => if is_space c then EmptyString else String c EmptyString
      | t => String c t
      end
  end.

(** [s.trim()]. *)
Definition trim (s : string) : string := trim_end (trim_start s).

(** [Boolean(s)] for a string. *)
Definition truthy (s : string) : bool :=
  match s with EmptyString => false | _ => true end.

(** [Boolean(o)] for a string that may be [undefined]. *)
Definition truthy_opt (o : option string) : bool :=
  match o with Some s => truthy s | None => false end.

(** [c.toLowerCase()] on one code unit. *)
Definition lower_char (c : ascii) : ascii :=
  let n := N_of_ascii c in
  if (65 <=? n)%N && (n <=? 90)%N || (192 <=? n)%N && (n <=? 222)%N && negb (n =? 215)%N
  then ascii_of_N (n + 32) else c.

Fixpoint string_map (f : ascii → ascii) (s : string) : string :=
  match s with
  | EmptyString => EmptyString
  | String c s' => String (f c) (string_map f s')
  end.

(** [s.toLowerCase()]. *)
Definition to_lower (s : string) : string := string_map lower_char s.

(** [input?.trim() || undefined]. *)
Definition trimmed_or_none (s : option string) : option string :=
  match s with Some x => if truthy (trim x) then Some (trim x) else None | None => None end.

Fixpoint string_existsb (f : ascii → bool) (s : string) : bool :=
  match s with
  | EmptyString => false
  | String c s' => f c || string_existsb f s'
  end.

(** The characters of a class, written as a text. *)
Definition is_one_of (cs : string) (c : ascii) : bool := string_existsb (Ascii.eqb c) cs.

Definition string_forallb (f : ascii → bool) (s : string) : bool :=
  negb (string_existsb (λ c, negb (f c)) s).

(** [s.startsWith(p)]. *)
Definition starts_with (p s : string) : bool := String.prefix p s.

(** [s.split(c)] for a one-character separator: never the empty list. *)
Fixpoint split_char (sep : ascii) (s : string) : list string :=
  match s with
  | EmptyString => [EmptyString]
  | String c s' =>
      match split_char sep s' with
      | w :: ws => if Ascii.eqb c sep then EmptyString :: w :: ws else String c w :: ws
      | [] => [String c EmptyString]
      end
  end.

(** [xs.join(sep)]. *)
Fixpoint join (sep : string) (xs : list string) : string :=
  match xs with
  | [] => EmptyString
  | [x] => x
  | x :: xs' => String.append x (String.append sep (join sep xs'))
  end.

(** [s.replaceAll(c, r)] for a one-character pattern. *)
Fixpoint replace_char (c : ascii) (r : string) (s : string) : string :=
  match s with
  | EmptyString => EmptyString
  | String c' s' =>
      if Ascii.eqb c' c then String.append r (replace_char c r s')
      else String c' (replace_char c r s')
  end.

(** [s.slice(n)]: [s] without its first [n] code units. *)
Fixpoint string_drop (n : nat) (s : string) : string :=
  match n, s with
  | O, _ => s
  | S n', EmptyString => EmptyString
  | S n', String _ s' => string_drop n' s'
  end.

(** [s.endsWith(p)]. *)
Definition ends_with (p s : string) : bool :=
  (String.length p <=? String.length s)%nat && bool_decide (string_drop (String.length s - String.length p) s = p).

(** [s.indexOf(p)]; [None] is -1. *)
Fixpoint index_of (p s : string) : option nat :=
  if starts_with p s then Some O
  else match s with
       | EmptyString => None
       | String _ s' => S <$> index_of p s'
       end.

(** [s.slice(0, n)]. *)
Fixpoint string_take (n : nat) (s : string) : string :=
  match n, s with
  | O, _ => EmptyString
  | S n', EmptyString => EmptyString
  | S n', String c s' => String c (string_take n' s')
  end.

(** [s.replaceAll(p, r)] for a non-empty pattern [p]: the leftmost occurrences
    of [p], none overlapping.  Each step drops at least one code unit of the
    [String.length s] there are, so that much fuel is enough. *)
Fixpoint replace_all_fuel (fuel : nat) (p r s : string) : string :=
  match fuel with
  | O => s
  | S fuel' =>
      match s with
      | EmptyString => EmptyString
      | String c s' =>
          if starts_with p s
          then String.append r (replace_all_fuel fuel' p r (string_drop (String.length p) s))
          else String c (replace_all_fuel fuel' p r s')
      end
  end.

Definition replace_all (p r s : string) : string :=
  replace_all_fuel (String.length s) p r s.

(** [[...new Set(xs)]]: the first occurrences. *)
Fixpoint unique (xs : list string) : list string :=
  match xs with
  | [] => []
  | x :: xs' => x :: List.filter (λ y, negb (bool_decide (y = x))) (unique xs')
  end.

(** [s.length], as a JavaScript number. *)
Definition js_length (s : string) : Z := Z.of_nat (String.length s).

(** The order of [a < b] on strings, and of SQLite's BINARY collation: code
    units compared one by one, a proper prefix first. *)
Fixpoint string_ltb (a b : string) : bool :=
  match a, b with
  | _, EmptyString => false
  | EmptyString, String _ _ => true
  | String x a', String y b' =>
      if Ascii.eqb x y then string_ltb a' b' else (N_of_ascii x <? N_of_ascii y)%N
  end.

Definition string_leb (a b : string) : bool := negb (string_ltb b a).

(** ** Laws *)

Lemma trim_end_nil_or_last s :
  trim_end s = EmptyString ∨ ∃ p c, trim_end s = String.append p (String c EmptyString) ∧ is_space c = false.
Proof.
  induction s as [|c s IH]; simpl; [by left|].
  destruct IH as [->|(p & d & -> & Hd)].
  - destruct (is_space c) eqn:?; [by left|]. right. exists EmptyString, c. done.
  - right. destruct p; simpl; [exists (String c EmptyString), d | eexists (String c (String _ p)), d]; done.
Qed.

Lemma trim_end_app_char p c :
  is_space c = false → trim_end (String.append p (String c EmptyString)) = String.append p (String c EmptyString).
Proof.
  intros Hc. induction p as [|x p IH]; simpl; [by rewrite Hc|].
  rewrite IH. by destruct p.
Qed.

Lemma trim_end_idemp s : trim_end (trim_end s) = trim_end s.
Proof.
  destruct (trim_end_nil_or_last s) as [->|(p & c & -> & Hc)]; [done|].
  by apply trim_end_app_char.
Qed.

Lemma trim_start_head s c s' : trim_start s = String c s' → is_space c = false.
Proof.
  induction s as [|d s IH]; simpl; [done|].
  destruct (is_space d) eqn:Hd; [done|]. intros [= -> ->]. done.
Qed.

Lemma trim_start_fix c s : is_space c = false → trim_start (String c s) = String c s.
Proof. simpl. by intros ->. Qed.

Lemma trim_end_head c s : is_space c = false → ∃ s', trim_end (String c s) = String c s'.
Proof. intros Hc. simpl. destruct (trim_end s); [rewrite Hc|]; eauto. Qed.

(** Without blanks there is nothing to trim. *)
Lemma trim_no_space s : string_existsb is_space s = false → trim s = s.
Proof.
  intros H. unfold trim.
  assert (trim_start s = s) as ->. { destruct s; [done|]. cbn in H. apply orb_false_iff in H as [Hc _]. cbn. by rewrite Hc. }
  induction s as [|c s IH]; [done|]. cbn in H |- *. apply orb_false_iff in H as [Hc Hs]. rewrite IH by done.
  destruct s; [by rewrite Hc|done].
Qed.

Lemma trim_idemp s : trim (trim s) = trim s.
Proof.
  unfold trim. destruct (trim_start s) as [|c t] eqn:Hs; [done|].
  assert (Hc := trim_start_head _ _ _ Hs).
  destruct (trim_end_head c t Hc) as [t' Ht'].
  rewrite Ht', (trim_start_fix c t' Hc), <-Ht'. apply trim_end_idemp.
Qed.

Lemma truthy_spec s : truthy s = true ↔ s ≠ EmptyString.
Proof. by destruct s. Qed.

Lemma replace_char_notin c r s :
  string_existsb (Ascii.eqb c) s = false → replace_char c r s = s.
Proof.
  induction s as [|d s IH]; simpl; [done|]. intros H. bools.
  rewrite Ascii.eqb_sym, H. by rewrite IH.
Qed.

Lemma string_existsb_append f a b :
  string_existsb f (String.append a b) = string_existsb f a || string_existsb f b.
Proof. induction a as [|c a IH]; simpl; [done|]. by rewrite IH, orb_assoc. Qed.

Lemma split_char_nonnil sep s : split_char sep s ≠ [].
Proof. destruct s; simpl; [done|]. destruct (split_char sep s); [done|]. by destruct (Ascii.eqb a sep). Qed.

(** Splitting a word that does not hold the separator, and a joined list. *)
Lemma split_char_single sep s :
  string_existsb (Ascii.eqb sep) s = false → split_char sep s = [s].
Proof.
  induction s as [|c s IH]; simpl; [done|]. intros H. bools.
  rewrite IH by done. by rewrite Ascii.eqb_sym, H.
Qed.

Lemma split_char_app sep w s :
  string_existsb (Ascii.eqb sep) w = false →
  split_char sep (String.append w (String sep s)) = w :: split_char sep s.
Proof.
  induction w as [|c w IH]; simpl; intros H.
  - destruct (split_char sep s) eqn:Hs; [by apply split_char_nonnil in Hs|].
    by rewrite Ascii.eqb_refl.
  - bools. rewrite IH by done. by rewrite Ascii.eqb_sym, H.
Qed.

Lemma split_join sep (xs : list string) :
  xs ≠ [] → Forall (λ x, string_existsb (Ascii.eqb sep) x = false) xs →
  split_char sep (join (String sep "") xs) = xs.
Proof.
  induction xs as [|x xs IH]; [done|]. intros _ [Hx Hxs]%Forall_cons. destruct xs as [|y ys].
  - by apply split_char_single.
  - cbn [join]. change (String sep "" +:+ ?r) with (String sep r). rewrite split_char_app by (by rewrite Hx).
    f_equal. by apply IH.
Qed.

Lemma string_ltb_irrefl a : string_ltb a a = false.
Proof. induction a as [|x a IH]; simpl; [done|]. by rewrite Ascii.eqb_refl. Qed.

Lemma string_ltb_trans a b c :
  string_ltb a b = true → string_ltb b c = true → string_ltb a c = true.
Proof.
  revert b c. induction a as [|x a IH]; intros [|y b] [|z c]; simpl; try done.
  destruct (Ascii.eqb_spec x y) as [->|Hxy].
  - destruct (Ascii.eqb y z); [apply IH|done].
  - intros Hlt. destruct (Ascii.eqb_spec y z) as [->|Hyz].
    + intros _. destruct (Ascii.eqb_spec x z); [done|done].
    + intros Hlt'. apply N.ltb_lt in Hlt, Hlt'.
      destruct (Ascii.eqb_spec x z) as [->|]; [lia|]. apply N.ltb_lt. lia.
Qed.

Lemma string_ltb_total a b : string_ltb a b = false → string_ltb b a = false → a = b.
Proof.
  revert b. induction a as [|x a IH]; intros [|y b]; simpl; try done.
  destruct (Ascii.eqb_spec x y) as [->|Hxy].
  - rewrite Ascii.eqb_refl. intros. f_equal. auto.
  - destruct (Ascii.eqb_spec y x); [done|]. intros H1 H2.
    apply N.ltb_ge in H1, H2. exfalso. apply Hxy.
    rewrite <-(ascii_N_embedding x), <-(ascii_N_embedding y). f_equal. lia.
Qed.

Lemma string_ltb_asym a b : string_ltb a b = true → string_ltb b a = false.
Proof.
  intros H. apply not_true_iff_false. intros H'.
  pose proof (string_ltb_trans _ _ _ H H') as E. by rewrite string_ltb_irrefl in E.
Qed.

(** The order of two columns, [ORDER BY a, b]. *)
Definition pair_ltb (x y : string * string) : bool :=
  string_ltb x.1 y.1 || bool_decide (x.1 = y.1) && string_ltb x.2 y.2.

Lemma pair_ltb_irrefl x : pair_ltb x x = false.
Proof. unfold pair_ltb. by rewrite !string_ltb_irrefl, andb_false_r. Qed.

Lemma pair_ltb_total x y : pair_ltb x y = false → pair_ltb y x = false → x = y.
Proof.
  destruct x as [a1 a2], y as [b1 b2]. unfold pair_ltb. simpl. intros H1 H2. bools.
  assert (a1 = b1) as -> by (by apply string_ltb_total). rewrite bool_decide_eq_true_2 in * by done.
  simpl in *. f_equal. by apply string_ltb_total.
Qed.

Lemma pair_ltb_trans x y z : pair_ltb x y = true → pair_ltb y z = true → pair_ltb x z = true.
Proof.
  destruct x as [a1 a2], y as [b1 b2], z as [c1 c2]. unfold pair_ltb. simpl.
  rewrite !orb_true_iff, !andb_true_iff, !bool_decide_eq_true. intros [H1|[-> H1]] [H2|[-> H2]].
  - left. by eapply string_ltb_trans.
  - by left.
  - by left.
  - right. split; [done|]. by eapply string_ltb_trans.
Qed.

(** The order "not after" is transitive. *)
Lemma pair_leb_trans x y z :
  pair_ltb y x = false → pair_ltb z y = false → pair_ltb z x = false.
Proof.
  intros H1 H2. apply not_true_iff_false. intros H3.
  destruct (pair_ltb x y) eqn:E.
  - pose proof (pair_ltb_trans _ _ _ H3 E). congruence.
  - assert (x = y) as -> by (by apply pair_ltb_total). congruence.
Qed.

(** ** Prefixes *)

Lemma append_assoc a b c : (a +:+ b) +:+ c = a +:+ b +:+ c.
Proof. induction a as [|x a IH]; simpl; [done|]. by rewrite IH. Qed.

Lemma append_nil_r a : a +:+ "" = a.
Proof. induction a as [|x a IH]; simpl; [done|]. by rewrite IH. Qed.

Lemma append_inj_l a b c : a +:+ b = a +:+ c → b = c.
Proof. induction a as [|x a IH]; simpl; [done|]. intros [=]. auto. Qed.

Lemma starts_with_spec p s : starts_with p s = true ↔ ∃ r, s = p +:+ r.
Proof.
  unfold starts_with. revert s. induction p as [|x p IH]; intros [|y s]; simpl.
  - split; [by exists ""|done].
  - split; [by eexists|done].
  - split; [done|]. by intros [].
  - destruct (ascii_dec x y) as [->|Hne].
    + rewrite IH. split; intros [r Hr]; exists r; simpl in *; congruence.
    + split; [done|]. intros [r Hr]. simpl in Hr. congruence.
Qed.

Lemma starts_with_refl s : starts_with s s = true.
Proof. apply starts_with_spec. exists "". by rewrite append_nil_r. Qed.

Lemma starts_with_trans a b c :
  starts_with a b = true → starts_with b c = true → starts_with a c = true.
Proof.
  rewrite !starts_with_spec. intros [r ->] [r' ->]. exists (r +:+ r'). by rewrite append_assoc.
Qed.

(** Two prefixes of one string are comparable. *)
Lemma starts_with_comparable a b s :
  starts_with a s = true → starts_with b s = true →
  starts_with a b = true ∨ starts_with b a = true.
Proof.
  rewrite !starts_with_spec. intros [r ->] [r' Hr]. revert b Hr.
  induction a as [|x a IH]; intros b Hr; [left; by exists b|].
  destruct b as [|y b]; [right; by exists (String x a)|].
  simpl in Hr. injection Hr as -> Hr.
  destruct (IH b Hr) as [[q Hq]|[q Hq]]; [left|right]; exists q; simpl; congruence.
Qed.

(** [p] is [root] or a path under it exactly when [p/] starts with [root/]. *)
Lemma append_char_starts_with (c : ascii) p root :
  starts_with (root +:+ String c "") (p +:+ String c "") = true ↔
  p = root ∨ starts_with (root +:+ String c "") p = true.
Proof.
  rewrite !starts_with_spec. split.
  - intros [r Hr]. rewrite append_assoc in Hr. revert p Hr.
    induction root as [|x root IH]; intros p Hr; simpl in *.
    + destruct p as [|y p]; [by left|right]. injection Hr as -> _. by exists p.
    + destruct p as [|y p]; simpl in *; [by destruct root|].
      injection Hr as -> Hr. destruct (IH p Hr) as [->|[q ->]]; [by left|right].
      exists q. by rewrite !append_assoc.
  - intros [->|[r ->]]; [exists ""; by rewrite append_nil_r|].
    exists (r +:+ String c ""). by rewrite !append_assoc.
Qed.

(** ** [replaceAll] *)

Lemma length_string_drop n s : String.length (string_drop n s) = (String.length s - n)%nat.
Proof. revert s. induction n as [|n IH]; intros [|c s]; simpl; try lia. apply IH. Qed.

(** Any fuel of at least the length of the string gives the same result. *)
Lemma replace_all_fuel_enough p r n : ∀ m s,
  p ≠ "" → (String.length s ≤ n)%nat → (String.length s ≤ m)%nat →
  replace_all_fuel n p r s = replace_all_fuel m p r s.
Proof.
  induction n as [|n IH]; intros m s Hp Hn Hm.
  - destruct s; simpl in Hn; [|lia]. by destruct m.
  - destruct s as [|c s]; [by destruct m|]. destruct m as [|m]; simpl in Hm, Hn; [lia|].
    cbn [replace_all_fuel]. destruct (starts_with p (String c s)).
    + f_equal. destruct p as [|x p]; [done|]. cbn [String.length string_drop].
      apply IH; [done| |]; rewrite length_string_drop; lia.
    + f_equal. apply IH; [done|lia|lia].
Qed.

Lemma replace_all_cons p r c s :
  p ≠ "" →
  replace_all p r (String c s) =
    if starts_with p (String c s) then r +:+ replace_all p r (string_drop (String.length p) (String c s))
    else String c (replace_all p r s).
Proof.
  intros Hp. unfold replace_all at 1. cbn [replace_all_fuel String.length].
  destruct (starts_with p (String c s)); [|done].
  f_equal. destruct p as [|x p]; [done|]. cbn [String.length string_drop].
  apply replace_all_fuel_enough; [done| |]; rewrite ?length_string_drop; lia.
Qed.

Lemma string_drop_app p s : string_drop (String.length p) (p +:+ s) = s.
Proof. induction p as [|c p IH]; simpl; [done|]. apply IH. Qed.

(** An occurrence of the pattern at the head is replaced. *)
Lemma replace_all_occ p r s : p ≠ "" → replace_all p r (p +:+ s) = r +:+ replace_all p r s.
Proof.
  intros Hp. destruct p as [|c p]; [done|]. simpl String.append. rewrite replace_all_cons by done.
  rewrite (proj2 (starts_with_spec (String c p) (String c (p +:+ s)))) by (by exists s).
  f_equal. f_equal. apply (string_drop_app (String c p)).
Qed.

Lemma elem_of_unique x xs : x ∈ unique xs ↔ x ∈ xs.
Proof.
  induction xs as [|y xs IH]; cbn [unique]; [done|]. rewrite !elem_of_cons.
  rewrite list_elem_of_In, filter_In, <-list_elem_of_In, IH. destruct (decide (x = y)) as [->|Hne].
  - tauto.
  - rewrite bool_decide_eq_false_2 by done. simpl. tauto.
Qed.

Lemma NoDup_unique xs : NoDup (unique xs).
Proof.
  induction xs as [|y xs IH]; cbn [unique]; constructor.
  - rewrite list_elem_of_In, filter_In. intros [_ H]. by rewrite bool_decide_eq_true_2 in H.
  - apply NoDup_ListNoDup, List.NoDup_filter, NoDup_ListNoDup. exact IH.
Qed.
