(* ===== verification/JsRegExp.v ===== *)
(** * Regular expressions as the source tests them

    The part of [RegExp] that the modelled sources use with [test]: classes,
    anchors, sequence, alternative and repetition.  Only whether an expression
    matches is observed, so a match is a relation between two places of the text,
    [rx_match]; [rx_run] computes every place a match may end, and [rx_run_spec]
    says that it finds exactly those. *)
From S2P Require Import Prelude.
From S2P Require Import JsString.

Inductive regexp :=
  | RxEmpty
  | RxClass (f : ascii → bool)
  | RxStart
  | RxEnd
  | RxSeq (r1 r2 : regexp)
  | RxAlt (r1 r2 : regexp)
  | RxStar (r : regexp).

(** A place in a text: the character in front, and the rest. *)
Definition place : Type := option ascii * string.

Definition starts_text (p : place) : bool := match p.1 with Some _ => false | None => true end.
Definition ends_text (p : place) : bool := match p.2 with EmptyString => true | _ => false end.

(** The places that zero or more rounds of [step] reach.  A round that does not
    advance reaches nothing new, so the length of the rest bounds the rounds. *)
Fixpoint star_run (step : place → list place) (fuel : nat) (p : place) : list place :=
  p :: match fuel with
       | O => []
       | S fuel => flat_map (star_run step fuel)
                     (List.filter (λ q : place, (String.length q.2 <? String.length p.2)%nat) (step p))
       end.

Fixpoint rx_run (r : regexp) (p : place) : list place :=
  match r with
  | RxEmpty => [p]
  | RxClass f => match p.2 with String c s => if f c then [(Some c, s)] else [] | EmptyString => [] end
  | RxStart => if starts_text p then [p] else []
  | RxEnd => if ends_text p then [p] else []
  | RxSeq r1 r2 => flat_map (rx_run r2) (rx_run r1 p)
  | RxAlt r1 r2 => rx_run r1 p ++ rx_run r2 p
  | RxStar r => star_run (rx_run r) (String.length p.2) p
  end.

(** Every place of a text. *)
Fixpoint places (prev : option ascii) (s : string) : list place :=
  (prev, s) :: match s with String c s' => places (Some c) s' | EmptyString => [] end.

(** [r.test(s)]: a match anywhere. *)
Definition rx_test (r : regexp) (s : string) : bool :=
  existsb (λ p, match rx_run r p with [] => false | _ => true end) (places None s).

(** ** Classes *)

(** What [.] matches. *)
Definition is_dot (c : ascii) : bool := negb (is_line_break c).

(** One character, and one character under the flag [i]: on this alphabet two
    characters are the same up to case when their lower case is. *)
Definition RxChar (c : ascii) : regexp := RxClass (Ascii.eqb c).
Definition RxCharCI (c : ascii) : regexp := RxClass (λ d, Ascii.eqb (lower_char c) (lower_char d)).

(** ** The meaning of an expression *)

Create HintDb rx.

Inductive rx_match : regexp → place → place → Prop :=
  | match_empty p : rx_match RxEmpty p p
  | match_class f prev c s : f c = true → rx_match (RxClass f) (prev, String c s) (Some c, s)
  | match_start s : rx_match RxStart (None, s) (None, s)
  | match_end prev : rx_match RxEnd (prev, "") (prev, "")
  | match_seq r1 r2 p q t : rx_match r1 p q → rx_match r2 q t → rx_match (RxSeq r1 r2) p t
  | match_left r1 r2 p q : rx_match r1 p q → rx_match (RxAlt r1 r2) p q
  | match_right r1 r2 p q : rx_match r2 p q → rx_match (RxAlt r1 r2) p q
  | match_star_none r p : rx_match (RxStar r) p p
  | match_star_more r p q t : rx_match r p q → rx_match (RxStar r) q t → rx_match (RxStar r) p t.
#[export] Hint Constructors rx_match : rx.

(** A match moves forward or stays where it is. *)
Lemma rx_match_forward r p q : rx_match r p q → q = p ∨ (String.length q.2 < String.length p.2)%nat.
Proof. induction 1; cbn in *; auto; naive_solver lia. Qed.

Lemma star_run_sound r : (∀ p q, In q (rx_run r p) → rx_match r p q) →
  ∀ fuel p q, In q (star_run (rx_run r) fuel p) → rx_match (RxStar r) p q.
Proof.
  intros IH fuel. induction fuel as [|fuel IHf]; intros p q; cbn; [intros [->|[]]; constructor|].
  intros [->|Hq]; [constructor|]. apply in_flat_map in Hq as (t & [Ht _]%filter_In & Hq). eauto with rx.
Qed.

Lemma rx_run_sound r : ∀ p q, In q (rx_run r p) → rx_match r p q.
Proof.
  induction r as [|f| | |r1 IH1 r2 IH2|r1 IH1 r2 IH2|r IH]; intros [prev s] q; cbn.
  - intros [<-|[]]. constructor.
  - destruct s as [|c s]; [done|]. destruct (f c) eqn:E; [|done]. intros [<-|[]]. by constructor.
  - destruct prev; cbn; [done|]. intros [<-|[]]. constructor.
  - destruct s; cbn; [|done]. intros [<-|[]]. constructor.
  - intros (t & Ht & Hq)%in_flat_map. eauto with rx.
  - intros [?|?]%in_app_or; eauto with rx.
  - by apply star_run_sound.
Qed.

Lemma star_run_complete r : (∀ p q, rx_match r p q → In q (rx_run r p)) →
  ∀ e p q, rx_match e p q → e = RxStar r →
  ∀ fuel, (String.length p.2 ≤ fuel)%nat → In q (star_run (rx_run r) fuel p).
Proof.
  intros IH e p q Hm. induction Hm as [| | | | | | |e p|e p t q Ht _ Hq IHq]; intros He fuel Hl; try done; simplify_eq.
  - destruct fuel; by left.
  - destruct (rx_match_forward _ _ _ Ht) as [->|Hlt]; [by apply IHq|].
    destruct fuel as [|fuel]; [lia|]. cbn. right. apply in_flat_map. exists t.
    split; [apply filter_In; split; [auto|by apply Nat.ltb_lt]|apply IHq; [done|lia]].
Qed.

Lemma rx_run_complete r : ∀ p q, rx_match r p q → In q (rx_run r p).
Proof.
  induction r as [|f| | |r1 IH1 r2 IH2|r1 IH1 r2 IH2|r IH]; intros p q Hm.
  7: by eapply star_run_complete.
  all: inversion Hm; simplify_eq; cbn.
  - by left.
  - case_match; [by left|congruence].
  - by left.
  - by left.
  - apply in_flat_map. eauto.
  - apply in_or_app. auto.
  - apply in_or_app. auto.
Qed.

Lemma rx_run_spec r p q : In q (rx_run r p) ↔ rx_match r p q.
Proof. split; [apply rx_run_sound|apply rx_run_complete]. Qed.

Lemma rx_run_nonempty r p : match rx_run r p with [] => false | _ => true end = true ↔ ∃ q, rx_match r p q.
Proof.
  setoid_rewrite <-rx_run_spec. destruct (rx_run r p) as [|q l]; cbn; [naive_solver|].
  split; [intros _; exists q; by left|done].
Qed.

(** The character in front of the rest, after [a]. *)
Fixpoint last_char (prev : option ascii) (a : string) : option ascii :=
  match a with EmptyString => prev | String c a' => last_char (Some c) a' end.

Lemma last_char_some a c : last_char (Some c) a ≠ None.
Proof. revert c. induction a as [|d a IH]; intros c; [done|]. apply IH. Qed.

Lemma last_char_none a : last_char None a = None → a = "".
Proof. destruct a; [done|]. intros H. by apply last_char_some in H. Qed.

Lemma last_char_app prev a b : last_char prev (a +:+ b) = last_char (last_char prev a) b.
Proof. revert prev. induction a as [|c a IH]; intros prev; [done|]. apply IH. Qed.

Lemma in_places s : ∀ prev p, In p (places prev s) ↔ ∃ a b, s = a +:+ b ∧ p = (last_char prev a, b).
Proof.
  induction s as [|c s IH]; intros prev p; cbn [places In].
  - split; [intros [<-|[]]; by exists "", ""|]. intros ([|] & b & E & ->); cbn in E; [subst; by left|done].
  - rewrite IH. split.
    + intros [<-|(a & b & -> & ->)]; [by exists "", (String c s)|by exists (String c a), b].
    + intros ([|d a] & b & E & ->); cbn in E; [subst; by left|]. injection E as <- ->. right. by exists a, b.
Qed.

Lemma rx_test_spec r s : rx_test r s = true ↔ ∃ a b q, s = a +:+ b ∧ rx_match r (last_char None a, b) q.
Proof.
  unfold rx_test. rewrite existsb_exists. setoid_rewrite in_places. setoid_rewrite rx_run_nonempty.
  split; [intros (p & (a & b & -> & ->) & q & H); eauto|intros (a & b & q & -> & H); eauto 10].
Qed.

(** ** Matches by form *)

Lemma match_seq_inv r1 r2 p q : rx_match (RxSeq r1 r2) p q ↔ ∃ t, rx_match r1 p t ∧ rx_match r2 t q.
Proof. split; [inversion 1; eauto|intros (t & ? & ?); eauto with rx]. Qed.

Lemma match_alt_inv r1 r2 p q : rx_match (RxAlt r1 r2) p q ↔ rx_match r1 p q ∨ rx_match r2 p q.
Proof. split; [inversion 1; eauto|intros []; eauto with rx]. Qed.

Lemma match_class_inv f p q : rx_match (RxClass f) p q ↔ ∃ c, p.2 = String c q.2 ∧ q.1 = Some c ∧ f c = true.
Proof.
  split; [inversion 1; simplify_eq; cbn; eauto|]. destruct p, q. cbn. intros (c & -> & -> & ?). by constructor.
Qed.

Lemma match_start_inv p q : rx_match RxStart p q ↔ p.1 = None ∧ q = p.
Proof. split; [inversion 1; by simplify_eq|]. destruct p. cbn. intros [-> ->]. constructor. Qed.

Lemma match_end_inv p q : rx_match RxEnd p q ↔ p.2 = "" ∧ q = p.
Proof. split; [inversion 1; by simplify_eq|]. destruct p. cbn. intros [-> ->]. constructor. Qed.

Lemma match_empty_inv p q : rx_match RxEmpty p q ↔ q = p.
Proof. split; [by inversion 1|intros ->; constructor]. Qed.

(** An expression that begins with [^] matches at the start or not at all. *)
Lemma rx_test_start r s : rx_test (RxSeq RxStart r) s = match rx_run r (None, s) with [] => false | _ => true end.
Proof.
  apply eq_bool_prop_intro. rewrite !Is_true_true, rx_test_spec, rx_run_nonempty. split.
  - intros (a & b & q & -> & (t & [H1 ->]%match_start_inv & H)%match_seq_inv). cbn in H1.
    apply last_char_none in H1 as ->. cbn in *. eauto.
  - intros (q & H). exists "", s, q. split; [done|]. apply match_seq_inv. exists (None, s).
    split; [constructor|done].
Qed.

(** Any run of a class. *)
Lemma match_star_class_inv f p q :
  rx_match (RxStar (RxClass f)) p q ↔
    ∃ m b, p.2 = m +:+ b ∧ string_forallb f m = true ∧ q = (last_char p.1 m, b).
Proof.
  split.
  - intros Hm. remember (RxStar (RxClass f)) as e eqn:He.
    induction Hm as [| | | | | | |r [prev s]|r p t q Ht _ Hq IH]; simplify_eq; [by exists "", s|].
    apply match_class_inv in Ht as (c & E & Ec & Hc). destruct IH as (m & b & E' & Hf & ->); [done|].
    exists (String c m), b. rewrite E, E', Ec. split_and!; [done| |done].
    unfold string_forallb in *. cbn. apply negb_true_iff in Hf. by rewrite Hf, Hc.
  - destruct p as [prev s]. cbn. intros (m & b & -> & Hf & ->). revert prev Hf.
    induction m as [|c m IH]; intros prev Hf; [constructor|]. unfold string_forallb in *. cbn in *.
    apply negb_true_iff, orb_false_iff in Hf as [Hc Hf]. apply negb_false_iff in Hc.
    eapply match_star_more; [by constructor|]. apply IH. by rewrite Hf.
Qed.
