(* ===== verification/JsNumber.v ===== *)
(** * JavaScript numbers

    A JavaScript number is an IEEE 754 binary64 value.  [number] is the
    standard library's executable specification of those values, with rounding
    to nearest even; amounts of money are [number]s.  Counters, versions and
    time values, which the program keeps integral and far below 2^53, are [Z]. *)
From S2P Require Import Prelude.
From Stdlib Require Export SpecFloat.

Notation number := spec_float.
Definition num_prec : Z := 53.
Definition num_emax : Z := 1024.

(** The number nearest to an integer, e.g. a literal. *)
Definition num_of_Z (z : Z) : number := binary_normalize num_prec num_emax z 0 false.

Definition num_add (x y : number) : number := SFadd num_prec num_emax x y.
Definition num_div (x y : number) : number := SFdiv num_prec num_emax x y.

(** [x < y], [x <= y], [x > y], [x >= y]: false when an operand is [NaN]. *)
Definition num_lt (x y : number) : bool := SFltb x y.
Definition num_le (x y : number) : bool := SFleb x y.
Definition num_gt (x y : number) : bool := SFltb y x.
Definition num_ge (x y : number) : bool := SFleb y x.

(** [Math.max(0, x)]: [NaN] when [x] is [NaN]. *)
Definition num_max0 (x : number) : number :=
  match x with
  | S754_nan => S754_nan
  | _ => if num_gt x (num_of_Z 0) then x else num_of_Z 0
  end.

(** [Number.isFinite(x)]. *)
Definition num_is_finite (x : number) : bool :=
  match x with S754_zero _ | S754_finite _ _ _ => true | _ => false end.

(** [Math.floor(x)] of a finite number, as an integer. *)
Definition num_floor (x : number) : option Z :=
  match x with
  | S754_zero _ => Some 0
  | S754_finite s m e =>
      let v := if s then Z.neg m else Z.pos m in
      Some (if 0 <=? e then v * 2 ^ e else v / 2 ^ (- e))
  | _ => None
  end.

#[export] Instance number_eq_dec : EqDecision number.
Proof. solve_decision. Defined.

Lemma SFcompare_antisym x y : SFcompare y x = CompOpp <$> SFcompare x y.
Proof.
  destruct x as [[]|[]| |[] mx ex], y as [[]|[]| |[] my ey]; simpl; try done.
  all: rewrite (Z.compare_antisym ex ey); destruct (ex ?= ey); simpl; try done.
  all: f_equal; change (Pos.compare_cont Eq) with Pos.compare;
    rewrite (Pos.compare_antisym mx my); destruct (mx ?= my)%positive; done.
Qed.

(** No number is both below and at or above another. *)
Lemma num_lt_not_ge x y : num_lt x y = true → num_ge x y = false.
Proof.
  unfold num_lt, num_ge, SFltb, SFleb. rewrite (SFcompare_antisym x y).
  by destruct (SFcompare x y) as [[]|].
Qed.
