(* ===== verification/JsTime.v ===== *)
(** * Timestamps as the JavaScript source uses them

    [date_parse] is [Date.parse] on the timestamps the program writes and reads
    back, the ECMAScript date-time form [YYYY-MM-DDTHH:mm:ss.sssZ] with its
    expanded years; every other string is [None], i.e. [NaN].  [to_iso] is
    [new Date(ms).toISOString()].  A time is its number of milliseconds since
    the epoch, a [Z].  At the end, SQLite's julianday and strftime on the same
    texts, and the comparisons with its clock. *)
From S2P Require Import Prelude.
From S2P Require Import JsString.

#[local] Ltac Zify.zify_post_hook ::= Z.to_euclidean_division_equations.

(** ** Calendar *)

Definition era_days : Z := 146097.
Definition epoch_shift : Z := 719468.

(** Day number (0 = 1970-01-01) of a proleptic Gregorian date; months start in
    March, so that the leap day is the last of the year. *)
Definition days_from_civil (y m d : Z) : Z :=
  let y' := if m <=? 2 then y - 1 else y in
  let era := y' / 400 in
  let yoe := y' mod 400 in
  let doy := (153 * (if 2 <? m then m - 3 else m + 9) + 2) / 5 + d - 1 in
  let doe := yoe * 365 + yoe / 4 - yoe / 100 + doy in
  era * era_days + doe - epoch_shift.

(** Year of the era and day of that year, for the [doe]-th day of a 400-year
    era: whole centuries, then whole four-year groups, then years. *)
Definition year_of_doe (doe : Z) : Z * Z :=
  let c := Z.min 3 (doe / 36524) in
  let doc := doe - 36524 * c in
  let q := doc / 1461 in
  let doq := doc - 1461 * q in
  let n := Z.min 3 (doq / 365) in
  (100 * c + 4 * q + n, doq - 365 * n).

(** Month (1 = January) and day of the [doy]-th day of a year that starts in
    March. *)
Definition month_of_doy (doy : Z) : Z * Z :=
  let mp := (5 * doy + 2) / 153 in
  ((if mp <? 10 then mp + 3 else mp - 9), doy - (153 * mp + 2) / 5 + 1).

Definition civil_from_days (z : Z) : Z * Z * Z :=
  let z' := z + epoch_shift in
  let '(yoe, doy) := year_of_doe (z' mod era_days) in
  let '(m, d) := month_of_doy doy in
  ((if m <=? 2 then yoe + 1 else yoe) + 400 * (z' / era_days), m, d).

(** ** Decimal fields *)

Definition digit_char (x : Z) : ascii := ascii_of_N (48 + Z.to_N x).
Definition is_digit (c : ascii) : bool :=
  let n := N_of_ascii c in (48 <=? n)%N && (n <=? 57)%N.
Definition digit_val (c : ascii) : Z := Z.of_N (N_of_ascii c) - 48.

(** The [n] low decimal digits of [x], zero padded. *)
Fixpoint pad (n : nat) (x : Z) (rest : string) : string :=
  match n with
  | O => rest
  | S n' => pad n' (x / 10) (String (digit_char (x mod 10)) rest)
  end.

(** Read exactly [n] digits. *)
Fixpoint digits (n : nat) (acc : Z) (s : string) : option (Z * string) :=
  match n with
  | O => Some (acc, s)
  | S n' =>
      match s with
      | String c s' => if is_digit c then digits n' (acc * 10 + digit_val c) s' else None
      | EmptyString => None
      end
  end.

(** Read one given character. *)
Definition expect (c : ascii) (s : string) : option string :=
  match s with
  | String d s' => if Ascii.eqb c d then Some s' else None
  | EmptyString => None
  end.

(** ** Printing and parsing *)

Definition ms_per_day : Z := 86400000.
(** Largest absolute time value of a [Date]. *)
Definition max_time : Z := 8640000000000000.

Definition print_year (y : Z) (rest : string) : string :=
  if (0 <=? y) && (y <=? 9999) then pad 4 y rest
  else if y <? 0 then String "-" (pad 6 (- y) rest)
  else String "+" (pad 6 y rest).

(** [new Date(ms).toISOString()]: [None] is the [RangeError] thrown when the
    time value is out of range. *)
Definition to_iso (ms : Z) : option string :=
  if Z.abs ms <=? max_time then
    let '(y, m, d) := civil_from_days (ms / ms_per_day) in
    let t := ms mod ms_per_day in
    Some (print_year y (String "-" (pad 2 m (String "-" (pad 2 d (String "T"
      (pad 2 (t / 3600000) (String ":" (pad 2 (t / 60000 mod 60) (String ":"
      (pad 2 (t / 1000 mod 60) (String "." (pad 3 (t mod 1000)
      (String "Z" EmptyString))))))))))))))
  else None.

Definition parse_year (s : string) : option (Z * string) :=
  match s with
  | String "+" s' => digits 6 0 s'
  | String "-" s' =>
      match digits 6 0 s' with
      | Some (y, r) => if y =? 0 then None else Some (- y, r)
      | None => None
      end
  | _ => digits 4 0 s
  end.

(** [Date.parse(s)]. *)
Definition date_parse (s : string) : option Z :=
  '(y, s) ← parse_year s;
  s ← expect "-" s; '(m, s) ← digits 2 0 s;
  s ← expect "-" s; '(d, s) ← digits 2 0 s;
  s ← expect "T" s; '(hh, s) ← digits 2 0 s;
  s ← expect ":" s; '(mi, s) ← digits 2 0 s;
  s ← expect ":" s; '(ss, s) ← digits 2 0 s;
  s ← expect "." s; '(ff, s) ← digits 3 0 s;
  s ← expect "Z" s;
  let t := hh * 3600000 + mi * 60000 + ss * 1000 + ff in
  let ms := days_from_civil y m d * ms_per_day + t in
  if truthy s then None
  else if (1 <=? m) && (m <=? 12) && (1 <=? d) && (d <=? 31)
       && ((hh <=? 23) || (t =? ms_per_day)) && (mi <=? 59) && (ss <=? 59)
       && (Z.abs ms <=? max_time)
  then Some ms else None.

(** ** Calendar laws *)

(** What [month_of_doy] satisfies on one day of a year: the month and day are
    in range, and counting the days before them gives the day back. *)
Definition doy_ok (doy : Z) : bool :=
  let '(m, d) := month_of_doy doy in
  (1 <=? m) && (m <=? 12) && (1 <=? d) && (d <=? 31) &&
  ((153 * (if 2 <? m then m - 3 else m + 9) + 2) / 5 + d - 1 =? doy).

Lemma doy_ok_all doy : 0 <= doy < 366 → doy_ok doy = true.
Proof.
  intros Hd. assert (Hall : forallb doy_ok (Z.of_nat <$> seq 0 366) = true) by reflexivity.
  rewrite forallb_forall in Hall. apply Hall.
  apply list_elem_of_In, list_elem_of_fmap. exists (Z.to_nat doy).
  rewrite elem_of_seq. lia.
Qed.

Lemma year_of_doe_spec doe :
  0 <= doe < era_days →
  let '(yoe, doy) := year_of_doe doe in
  0 <= yoe < 400 ∧ 0 <= doy < 366 ∧ doe = yoe * 365 + yoe / 4 - yoe / 100 + doy.
Proof.
  unfold year_of_doe, era_days. intros Hdoe. cbv zeta.
  set (c := Z.min 3 (doe / 36524)).
  assert (Hc : 0 <= c <= 3 ∧ 0 <= doe - 36524 * c <= 36524 ∧ (c < 3 → doe - 36524 * c < 36524))
    by (subst c; lia).
  set (doc := doe - 36524 * c) in *. set (q := doc / 1461).
  assert (Hq : 0 <= q <= 24 ∧ 0 <= doc - 1461 * q < 1461) by (subst q; lia).
  set (doq := doc - 1461 * q) in *. set (n := Z.min 3 (doq / 365)).
  assert (Hn : 0 <= n <= 3 ∧ 0 <= doq - 365 * n <= 365) by (subst n; lia).
  replace ((100 * c + 4 * q + n) / 4) with (25 * c + q) by lia.
  replace ((100 * c + 4 * q + n) / 100) with c by lia.
  subst doq doc. lia.
Qed.

Lemma days_from_civil_era y m d e :
  days_from_civil (y + 400 * e) m d = days_from_civil y m d + e * era_days.
Proof.
  unfold days_from_civil, era_days. cbv zeta.
  set (y' := if m <=? 2 then y - 1 else y).
  replace (if m <=? 2 then y + 400 * e - 1 else y + 400 * e) with (y' + e * 400)
    by (subst y'; destruct (m <=? 2); lia).
  rewrite Z.div_add, Z.mod_add by lia. lia.
Qed.

Lemma civil_from_days_spec z :
  let '(y, m, d) := civil_from_days z in
  1 <= m <= 12 ∧ 1 <= d <= 31 ∧ days_from_civil y m d = z ∧
  400 * ((z + epoch_shift) / era_days) <= y <= 400 * ((z + epoch_shift) / era_days) + 400.
Proof.
  unfold civil_from_days. set (z' := z + epoch_shift).
  assert (Hr : 0 <= z' mod era_days < era_days) by (apply Z.mod_pos_bound; done).
  pose proof (year_of_doe_spec _ Hr) as Hy.
  destruct (year_of_doe _) as [yoe doy]. destruct Hy as (Hyoe & Hdoy & Hdoe).
  pose proof (doy_ok_all doy Hdoy) as Hok. unfold doy_ok in Hok.
  destruct (month_of_doy doy) as [m d]. bools.
  split_and!; try lia; try (destruct (m <=? 2); clear -Hyoe; lia).
  rewrite days_from_civil_era. unfold days_from_civil.
  replace (if m <=? 2 then (if m <=? 2 then yoe + 1 else yoe) - 1 else if m <=? 2 then yoe + 1 else yoe)
    with yoe by (destruct (m <=? 2); ring).
  rewrite Z.div_small, Z.mod_small by lia.
  assert (z' = era_days * (z' / era_days) + z' mod era_days) by (apply Z.div_mod; done).
  unfold z' in *. lia.
Qed.

(** ** Decimal fields round trip *)

Lemma digit_char_spec x :
  0 <= x < 10 → is_digit (digit_char x) = true ∧ digit_val (digit_char x) = x.
Proof.
  intros Hx. unfold is_digit, digit_val, digit_char.
  rewrite N_ascii_embedding by lia. split; [|lia].
  apply andb_true_iff. split; apply N.leb_le; lia.
Qed.

Lemma digits_pad n : ∀ k x acc rest,
  0 <= x < 10 ^ Z.of_nat n →
  digits (n + k) acc (pad n x rest) = digits k (acc * 10 ^ Z.of_nat n + x) rest.
Proof.
  induction n as [|n IH]; intros k x acc rest Hx.
  - simpl. f_equal. lia.
  - assert (Hp : 0 < 10 ^ Z.of_nat n) by (apply Z.pow_pos_nonneg; lia).
    rewrite Nat2Z.inj_succ, Z.pow_succ_r in * by lia.
    simpl pad. replace (S n + k)%nat with (n + S k)%nat by lia.
    rewrite IH by (split; [apply Z.div_pos; lia|apply Z.div_lt_upper_bound; lia]).
    simpl. destruct (digit_char_spec (x mod 10)) as [-> ->]; [apply Z.mod_pos_bound; lia|].
    f_equal. pose proof (Z.div_mod x 10). lia.
Qed.

Lemma digits_pad0 n x rest :
  0 <= x < 10 ^ Z.of_nat n → digits n 0 (pad n x rest) = Some (x, rest).
Proof.
  intros Hx. pose proof (digits_pad n 0 x 0 rest Hx) as H.
  rewrite Nat.add_0_r in H. rewrite H. simpl. done.
Qed.

Lemma pad_head n x rest : ∃ r, pad (S n) x rest = String (digit_char (x / 10 ^ Z.of_nat n mod 10)) r.
Proof.
  revert x rest. induction n as [|n IH]; intros x rest.
  - simpl. rewrite Z.div_1_r. eauto.
  - destruct (IH (x / 10) (String (digit_char (x mod 10)) rest)) as [r Hr].
    exists r. change (pad (S (S n)) x rest) with (pad (S n) (x / 10) (String (digit_char (x mod 10)) rest)).
    rewrite Hr. do 2 f_equal.
    rewrite Z.div_div, <-Z.pow_succ_r, Nat2Z.inj_succ; try lia.
    all: try (apply Z.pow_pos_nonneg; lia).
Qed.

Lemma digit_char_not_sign x : 0 <= x < 10 → digit_char x ≠ "+"%char ∧ digit_char x ≠ "-"%char.
Proof.
  intros Hx. destruct (digit_char_spec x Hx) as [Hd _].
  split; intros H; rewrite H in Hd; by vm_compute in Hd.
Qed.

Lemma parse_print_year y rest :
  -999999 <= y <= 999999 → parse_year (print_year y rest) = Some (y, rest).
Proof.
  intros Hy. unfold print_year.
  destruct ((0 <=? y) && (y <=? 9999)) eqn:H1.
  - bools. destruct (pad_head 3 y rest) as [r Hr].
    pose proof (digit_char_not_sign (y / 10 ^ Z.of_nat 3 mod 10) ltac:(apply Z.mod_pos_bound; lia)) as [Hp Hm].
    rewrite <-(digits_pad0 4 y rest) by (simpl; lia). rewrite Hr.
    unfold parse_year. destruct (digit_char _) as [[] [] [] [] [] [] [] []]; done.
  - destruct (y <? 0) eqn:H2; bools; unfold parse_year; rewrite digits_pad0 by (simpl; lia).
    + destruct (- y =? 0) eqn:?; bools; [lia|]. do 2 f_equal; lia.
    + done.
Qed.

Lemma expect_cons c s : expect c (String c s) = Some s.
Proof. simpl. by rewrite Ascii.eqb_refl. Qed.

(** The year of a valid time value has at most six digits. *)
Lemma civil_year_bound z :
  Z.abs z <= 100000000 → let '(y, _, _) := civil_from_days z in -999999 <= y <= 999999.
Proof.
  intros Hz. pose proof (civil_from_days_spec z) as Hspec.
  destruct (civil_from_days z) as [[y m] d]. destruct Hspec as (_ & _ & _ & Hy).
  unfold era_days, epoch_shift in *. lia.
Qed.

(** Printing a time value and parsing it back gives the time value: a
    timestamp that the program stores is read as the instant it denotes. *)
Lemma date_parse_to_iso ms s : to_iso ms = Some s → date_parse s = Some ms.
Proof.
  unfold to_iso. destruct (Z.abs ms <=? max_time) eqn:Hms; [|done].
  set (z := ms / ms_per_day). set (t := ms mod ms_per_day). bools.
  assert (Hdm : ms = ms_per_day * z + t) by (apply Z.div_mod; done).
  assert (Ht : 0 <= t < ms_per_day) by (apply Z.mod_pos_bound; done).
  assert (Hz : Z.abs z <= 100000000) by (unfold max_time, ms_per_day in *; lia).
  pose proof (civil_from_days_spec z) as Hspec. pose proof (civil_year_bound z Hz) as Hy.
  destruct (civil_from_days z) as [[y m] d]. destruct Hspec as (Hm & Hd & Hdays & _).
  intros Heq. apply (inj Some) in Heq. subst s. clear Hz. clearbody z t. unfold date_parse, ms_per_day in *.
  assert (0 <= t / 3600000 <= 23) by (split; [apply Z.div_pos|apply Z.lt_succ_r, Z.div_lt_upper_bound]; lia).
  assert (0 <= t / 60000 mod 60 < 60) by (apply Z.mod_pos_bound; lia).
  assert (0 <= t / 1000 mod 60 < 60) by (apply Z.mod_pos_bound; lia).
  assert (0 <= t mod 1000 < 1000) by (apply Z.mod_pos_bound; lia).
  rewrite parse_print_year by done. cbn [mbind option_bind].
  do 3 (rewrite expect_cons; cbn [mbind option_bind]; rewrite digits_pad0 by (simpl; lia); cbn [mbind option_bind]).
  do 3 (rewrite expect_cons; cbn [mbind option_bind]; rewrite digits_pad0 by (simpl; lia); cbn [mbind option_bind]).
  rewrite expect_cons. cbn [mbind option_bind truthy].
  assert (Hsum : t / 3600000 * 3600000 + t / 60000 mod 60 * 60000 + t / 1000 mod 60 * 1000 + t mod 1000 = t).
  { replace (t / 60000) with (t / 1000 / 60) by (rewrite Z.div_div by lia; done).
    replace (t / 3600000) with (t / 1000 / 60 / 60) by (rewrite !Z.div_div by lia; done). lia. }
  rewrite Hsum, Hdays.
  replace (z * 86400000 + t) with ms by lia.
  repeat match goal with |- context [?a <=? ?b] => replace (a <=? b) with true by (symmetry; apply Z.leb_le; lia) end.
  done.
Qed.

(** ** Date arithmetic of the program *)

(** [Date.parse(s)] as a number: [NaN] when [None]. Comparisons with [NaN] are
    false. *)
Definition num_ltb (a b : option Z) : bool :=
  match a, b with Some x, Some y => x <? y | _, _ => false end.
Definition num_leb (a b : option Z) : bool :=
  match a, b with Some x, Some y => x <=? y | _, _ => false end.
Definition num_gtb (a b : option Z) : bool := num_ltb b a.

(** [new Date(t).toISOString()] where [t] may be [NaN]; [None]: it throws a
    [RangeError]. *)
Definition date_to_iso (t : option Z) : option string := t ≫= to_iso.

(** Well-formed timestamps: the strings [toISOString] writes. *)
Definition is_timestamp (s : string) : Prop := ∃ ms, to_iso ms = Some s.

Lemma is_timestamp_parse s : is_timestamp s → ∃ ms, date_parse s = Some ms ∧ to_iso ms = Some s.
Proof. intros [ms H]. eauto using date_parse_to_iso. Qed.

Lemma to_iso_some ms : Z.abs ms <= max_time → ∃ s, to_iso ms = Some s.
Proof.
  intros H. unfold to_iso. replace (Z.abs ms <=? max_time) with true by (symmetry; by apply Z.leb_le).
  destruct (civil_from_days _) as [[]]. eauto.
Qed.

(** ** The database clock *)

(** [julianday(text)] in milliseconds, for timestamps of the years 0 to 9999, which
    SQLite represents; [None] is NULL. *)
Definition sqlite_range (ms : Z) : bool := (-62167219200000 <=? ms) && (ms <=? 253402300799999).
Definition julianday (text : string) : option Z :=
  match date_parse text with Some ms => if sqlite_range ms then Some ms else None | None => None end.

(** [strftime('%Y-%m-%dT%H:%M:%fZ', ms)]. *)
Definition sqlite_iso (ms : Z) : option string := if sqlite_range ms then to_iso ms else None.

(** [julianday(x) > clock] and [julianday(x) <= clock]: false on NULL. *)
Definition after_clock (x : option string) (clock : Z) : bool :=
  match x ≫= julianday with Some t => clock <? t | None => false end.
Definition reached_by_clock (x : option string) (clock : Z) : bool :=
  match x ≫= julianday with Some t => t <=? clock | None => false end.

Lemma sqlite_iso_some ms : sqlite_range ms = true → ∃ s, sqlite_iso ms = Some s ∧ julianday s = Some ms.
Proof.
  intros Hr. unfold sqlite_iso, julianday. destruct (to_iso_some ms) as [s Hs].
  { unfold sqlite_range in Hr. unfold max_time. lia. }
  exists s. rewrite Hr. split; [done|]. by rewrite (date_parse_to_iso ms s Hs), Hr.
Qed.

Lemma after_clock_iso t s c : julianday s = Some t → after_clock (Some s) c = (c <? t).
Proof. intros H. unfold after_clock. cbn. by rewrite H. Qed.
Lemma reached_by_iso t s c : julianday s = Some t → reached_by_clock (Some s) c = (t <=? c).
Proof. intros H. unfold reached_by_clock. cbn. by rewrite H. Qed.
