(* ===== verification/Errors.v ===== *)
(** * Errors (packages/contracts/src/errors.ts)

    The error values that the modelled code throws: the [GoatError] classes it
    uses, the plain JavaScript errors, and zod's parse error. *)
From S2P Require Import Prelude.
From S2P Require Import JsString.

(** [GoatErrorCode]. *)
Inductive GoatErrorCode : Set :=
  | ENTITY_NOT_FOUND
  | FIELD_REQUIRED
  | FIELD_INVALID
  | ALREADY_EXISTS
  | STATE_CONFLICT
  | FEATURE_DISABLED
  | WRITE_CONFLICT
  | POLICY_BLOCKED
  | PATH_OUTSIDE_JAIL
  | HOST_NOT_ALLOWED
  | TOOL_UNSUPPORTED
  | TOOL_EXEC_FAILED
  | TOOL_MISSING_CREDENTIAL
  | EXTERNAL_SERVICE_FAILED
  | BUDGET_EXCEEDED
  | PAYLOAD_TOO_LARGE
  | CONFIG_INVALID
  | SECRET_STORE_UNAVAILABLE
  | TURN_CANCELLED
  | PLUGIN_OWNED
  | PLUGIN_ID_RESERVED
  | CAPABILITY_PACKS_RETIRED.

#[export] Instance GoatErrorCode_eq_dec : EqDecision GoatErrorCode.
Proof. solve_decision. Defined.

(** A thrown value.  [GoatError] is an instance of one of the [GoatError]
    subclasses ([kind]), with its code and message; the [details] bag, which no
    modelled code reads, is left out.  The others are the errors of the
    language ([JsError] is [new Error(message)]) and [z.ZodError], with the
    messages of its issues. *)
Inductive GoatErrorKind : Set :=
  | NotFoundErrorKind
  | ValidationErrorKind
  | ConflictErrorKind.

Inductive js_error : Type :=
  | GoatError (kind : GoatErrorKind) (code : GoatErrorCode) (message : string)
  | JsError (message : string)
  | JsTypeError (message : string)
  | JsRangeError (message : string)
  | ZodError (issues : list string)
  | SqliteConstraintError (constraint : string).

#[export] Instance GoatErrorKind_eq_dec : EqDecision GoatErrorKind.
Proof. solve_decision. Defined.

Notation res := (outcome js_error).

(** [class NotFoundError]: built from [{entity, id}] or from a string. *)
Inductive NotFoundOpts :=
  | NotFoundEntity (entity : string) (id : option string)
  | NotFoundMessage (message : string).

Definition NotFoundError (opts : NotFoundOpts) : js_error :=
  let msg :=
    match opts with
    | NotFoundMessage m => m
    | NotFoundEntity entity (Some id) =>
        if truthy id then entity +:+ " " +:+ id +:+ " not found" else entity +:+ " not found"
    | NotFoundEntity entity None => entity +:+ " not found"
    end in
  GoatError NotFoundErrorKind ENTITY_NOT_FOUND msg.

(** [class ValidationError]. *)
Definition ValidationError (code : option GoatErrorCode) (field message : option string) : js_error :=
  let code := default FIELD_INVALID code in
  let msg :=
    match message with
    | Some m => m
    | None =>
        if truthy_opt field
        then default "" field +:+ " is " +:+
             (if bool_decide (code = FIELD_REQUIRED) then "required" else "invalid")
        else "Validation failed"
    end in
  GoatError ValidationErrorKind code msg.

(** [class ConflictError]. *)
Definition ConflictError (code : option GoatErrorCode) (message : string) : js_error :=
  GoatError ConflictErrorKind (default STATE_CONFLICT code) message.

(** [err instanceof NotFoundError] and [err instanceof ConflictError]. *)
Definition is_not_found (e : js_error) : bool :=
  match e with GoatError NotFoundErrorKind _ _ => true | _ => false end.
Definition is_conflict (e : js_error) : bool :=
  match e with GoatError ConflictErrorKind _ _ => true | _ => false end.

(** [err.message]. *)
Definition error_message (e : js_error) : string :=
  match e with
  | GoatError _ _ m | JsError m | JsTypeError m | JsRangeError m | SqliteConstraintError m => m
  | ZodError issues => join "; " issues
  end.
