(* ===== verification/OrchestrationContracts.v ===== *)
(** * Orchestration data (packages/contracts/src/orchestration.ts)

    Plans, waves, phases and runs, with the source's field names. Money is a
    JavaScript [number]; [maxIterations], [maxRuntimeMinutes] and the iteration
    counter are the integers the plan schema requires. *)
From S2P Require Import Prelude.
From S2P Require Import JsNumber.

Inductive LoopMode : Set := fresh_context | compaction.
Inductive RunMode : Set := auto_mode | hitl.

Inductive OrchestrationStopReason : Set := plan_limit | wave_budget_exceeded.

Inductive OrchestrationWorktreeStatus : Set :=
  | wt_uninitialized | wt_allocating | wt_ready | wt_blocked.

Inductive OrchestrationExecutionState : Set :=
  | es_created
  | es_worktree_allocating
  | es_worktree_ready
  | es_queued
  | es_running
  | es_waiting_for_child
  | es_paused_for_approval
  | es_resume_requested
  | es_completed
  | es_failed
  | es_stopped_by_limit
  | es_cancelled.

Record OrchestrationPhase := mkPhase {
  phaseId : string;
  ownerAgentId : string;
  specPath : string;
  loopMode : LoopMode;
  requiresApproval : bool;
}.

(** An element of [ownership: { agentId: string; paths: string[] }[]]. *)
Record OwnershipEntry := mkOwner {
  agentId : string;
  paths : list string;
}.

Record OrchestrationWave := mkWave {
  waveId : string;
  verify : list string;
  budgetUsd : number;
  ownership : list OwnershipEntry;
  phases : list OrchestrationPhase;
}.

Record OrchestrationPlan := mkPlan {
  planId : string;
  goal : string;
  mode : RunMode;
  maxIterations : Z;
  maxRuntimeMinutes : Z;
  maxCostUsd : number;
  waves : list OrchestrationWave;
}.

Inductive OrchestrationRunStatus : Set :=
  | queued
  | running
  | paused
  | failed
  | completed
  | stopped_by_limit
  | cancelled.

(** [OrchestrationRunPolicyContext]; [authActorSource] is one of the literals
    of [ToolPolicyActorContext], kept as its text. *)
Record OrchestrationRunPolicyContext := mkPolicyContext {
  pc_workspaceId : option string;
  pc_operatorId : option string;
  pc_authActorId : option string;
  pc_authActorSource : option string;
  pc_permissionProfileId : option string;
  pc_localOperatorOverrideId : option string;
}.

Record OrchestrationRun := mkRun {
  policy : OrchestrationRunPolicyContext;
  runId : string;
  run_planId : string;
  status : OrchestrationRunStatus;
  startedAt : string;
  endedAt : option string;
  currentWaveId : option string;
  currentPhaseId : option string;
  totalCostUsd : number;
  totalIterations : Z;
  waveCostUsdByWaveId : option (gmap string number);
  stopReason : option OrchestrationStopReason;
  durableRunId : option string;
  executionState : option OrchestrationExecutionState;
  worktreePath : option string;
  worktreeStatus : option OrchestrationWorktreeStatus;
  worktreeBaseRef : option string;
  worktreeLeaseOwnerId : option string;
  worktreeLeaseGeneration : option Z;
  worktreeLeaseExpiresAt : option string;
  pendingApprovalPhaseId : option string;
  pendingApprovedBy : option string;
  pendingCostIncrementUsd : option number;
  lastError : option string;
}.

#[export] Instance run_eta : Eta OrchestrationRun := λ r,
  mkRun (policy r) (runId r) (run_planId r) (status r) (startedAt r) (endedAt r)
    (currentWaveId r) (currentPhaseId r) (totalCostUsd r) (totalIterations r)
    (waveCostUsdByWaveId r) (stopReason r) (durableRunId r) (executionState r)
    (worktreePath r) (worktreeStatus r) (worktreeBaseRef r) (worktreeLeaseOwnerId r)
    (worktreeLeaseGeneration r) (worktreeLeaseExpiresAt r) (pendingApprovalPhaseId r)
    (pendingApprovedBy r) (pendingCostIncrementUsd r) (lastError r).

#[export] Instance RunMode_eq_dec : EqDecision RunMode.
Proof. solve_decision. Defined.
#[export] Instance OrchestrationRunStatus_eq_dec : EqDecision OrchestrationRunStatus.
Proof. solve_decision. Defined.
#[export] Instance OrchestrationStopReason_eq_dec : EqDecision OrchestrationStopReason.
Proof. solve_decision. Defined.

(** The status as the text a template literal prints. *)
Definition status_text (s : OrchestrationRunStatus) : string :=
  match s with
  | queued => "queued" | running => "running" | paused => "paused" | failed => "failed"
  | completed => "completed" | stopped_by_limit => "stopped_by_limit"
  | cancelled => "cancelled"
  end.
