(* ===== verification/Ownership.v ===== *)
(** * Ownership matrix (packages/orchestration/src/ownership-matrix.ts)

    Ownership paths are normalised to repository-relative segments and compared
    pairwise; two agents of a wave must not own paths that can reach a common
    file. *)
From S2P Require Import Prelude.
From S2P Require Import JsString.
From S2P Require Import OrchestrationContracts.

Record OwnershipConflict := mkConflict {
  conflict_waveId : string;
  pathA : string;
  agentA : string;
  pathB : string;
  agentB : string;
}.

(** [GLOB_CHARACTER = /[*?[{]/]. *)
Definition GLOB_CHARACTER (c : ascii) : bool :=
  Ascii.eqb c "*" || Ascii.eqb c "?" || Ascii.eqb c "[" || Ascii.eqb c "{".

Record OwnershipClaim := mkClaim {
  claim_agentId : string;
  claim_path : string;
  literal : string;
  glob : bool;
}.

Definition is_separator (c : ascii) : bool := Ascii.eqb c "\" || Ascii.eqb c "/".

(** [HOST_ABSOLUTE_PREFIX = /^(?:[A-Za-z]:|[\\/]{2})/]. *)
Definition HOST_ABSOLUTE_PREFIX (s : string) : bool :=
  match s with
  | String a (String b _) =>
      is_letter a && Ascii.eqb b ":" || is_separator a && is_separator b
  | _ => false
  end.

(** One iteration of the loop of [normalizeSegments]; [segments] holds the
    segments so far, last first. [None]: [..] climbed above the root. *)
Definition push_segment (segments : list string) (segment : string) : option (list string) :=
  if bool_decide (segment = "") || bool_decide (segment = ".") then Some segments
  else if bool_decide (segment = "..") then
    match segments with
    | [] => None
    | _ :: segments' => Some segments'
    end
  else Some (segment :: segments).

Fixpoint push_segments (segments : list string) (todo : list string) : option (list string) :=
  match todo with
  | [] => Some segments
  | segment :: todo' =>
      match push_segment segments segment with
      | Some segments' => push_segments segments' todo'
      | None => None
      end
  end.

Definition normalizeSegments (ownedPath : string) : option (list string) :=
  if HOST_ABSOLUTE_PREFIX ownedPath then None
  else reverse <$> push_segments [] (split_char "/" (replace_char "\" "/" ownedPath)).

Definition ownershipPathEscapesRoot (ownedPath : string) : bool :=
  match normalizeSegments ownedPath with None => true | Some _ => false end.

(** [s.slice(0, globIndex)], and whether there is a glob character. *)
Fixpoint before_glob (s : string) : string * bool :=
  match s with
  | EmptyString => (EmptyString, false)
  | String c s' =>
      if GLOB_CHARACTER c then (EmptyString, true)
      else let '(l, g) := before_glob s' in (String c l, g)
  end.

(** [/^\*+$/]. *)
Definition all_stars (s : string) : bool := truthy s && string_forallb (Ascii.eqb "*") s.

(** [while (last segment is all stars) displaySegments.pop()], on the reversed
    list. *)
Fixpoint drop_stars (segments : list string) : list string :=
  match segments with
  | s :: segments' => if all_stars s then drop_stars segments' else segments
  | [] => []
  end.

Definition toClaim (agent ownedPath : string) : OwnershipClaim :=
  let segments := default [] (normalizeSegments ownedPath) in
  let normalized := join "/" segments in
  let '(lit, g) := before_glob normalized in
  mkClaim agent (join "/" (reverse (drop_stars (reverse segments)))) (to_lower lit) g.

(** [candidate === root || candidate.startsWith(`${root}/`)]. *)
Definition isWithin (candidate root : string) : bool :=
  bool_decide (candidate = root) || starts_with (root +:+ "/") candidate.

Definition overlaps (a b : OwnershipClaim) : bool :=
  if bool_decide (literal a = "") || bool_decide (literal b = "") then true
  else if negb (glob a) && negb (glob b) then
    isWithin (literal a) (literal b) || isWithin (literal b) (literal a)
  else if glob a && glob b then
    starts_with (literal b) (literal a) || starts_with (literal a) (literal b)
  else
    let globc := if glob a then a else b in
    let plain := if glob a then b else a in
    starts_with (literal globc) (literal plain) || isWithin (literal globc) (literal plain).

Definition ownershipClaims (wave : OrchestrationWave) : list OwnershipClaim :=
  owner ← ownership wave; ownedPath ← paths owner; [toClaim (agentId owner) ownedPath].

Definition to_conflict (wave : OrchestrationWave) (a b : OwnershipClaim) : OwnershipConflict :=
  mkConflict (waveId wave) (claim_path a) (claim_agentId a) (claim_path b) (claim_agentId b).

(** The inner loop: the conflicts of claim [a] with the later claims. *)
Definition conflicts_with (wave : OrchestrationWave) (a : OwnershipClaim)
    (later : list OwnershipClaim) : list OwnershipConflict :=
  b ← later;
  if bool_decide (claim_agentId a = claim_agentId b) then []
  else if overlaps a b then [to_conflict wave a b] else [].

Fixpoint conflicts_among (wave : OrchestrationWave) (claims : list OwnershipClaim)
    : list OwnershipConflict :=
  match claims with
  | [] => []
  | a :: later => conflicts_with wave a later ++ conflicts_among wave later
  end.

Definition findOwnershipConflicts (wave : OrchestrationWave) : list OwnershipConflict :=
  conflicts_among wave (ownershipClaims wave).

(** ** What a claim covers, and the overlap test *)

(** The normalised, lower-cased paths a claim may own: everything for an empty
    literal; for a glob, any path that begins with its literal text; for a
    plain path, itself and its subtree. *)
Definition may_reach (c : OwnershipClaim) (p : string) : Prop :=
  literal c = "" ∨
  (if glob c then starts_with (literal c) p else isWithin p (literal c)) = true.

Lemma isWithin_spec p root :
  isWithin p root = true ↔ starts_with (root +:+ "/") (p +:+ "/") = true.
Proof.
  unfold isWithin. rewrite append_char_starts_with, orb_true_iff, bool_decide_eq_true. done.
Qed.

Lemma isWithin_refl p : isWithin p p = true.
Proof. apply isWithin_spec, starts_with_refl. Qed.

Lemma isWithin_starts_with p root : isWithin p root = true → starts_with root p = true.
Proof.
  unfold isWithin. rewrite orb_true_iff, bool_decide_eq_true.
  intros [->|H]; [apply starts_with_refl|].
  apply starts_with_spec in H as [r ->]. apply starts_with_spec.
  exists ("/" +:+ r). by rewrite append_assoc.
Qed.

(** Two plain paths that contain a common path are nested. *)
Lemma isWithin_common p a b :
  isWithin p a = true → isWithin p b = true → isWithin a b = true ∨ isWithin b a = true.
Proof.
  rewrite !isWithin_spec. intros Ha Hb.
  destruct (starts_with_comparable _ _ _ Ha Hb); auto.
Qed.

(** A glob and a plain path that reach a common path meet. *)
Lemma isWithin_glob_common p g a :
  starts_with g p = true → isWithin p a = true →
  starts_with g a = true ∨ isWithin g a = true.
Proof.
  intros Hg Ha. destruct (starts_with_comparable g (a +:+ "/") (p +:+ "/")) as [H|H].
  - apply starts_with_spec in Hg as [r ->]. apply starts_with_spec.
    exists (r +:+ "/"). by rewrite append_assoc.
  - by apply isWithin_spec.
  - (* g is a prefix of a/ *)
    apply starts_with_spec in H as [r Hr].
    destruct (decide (g = a +:+ "/")) as [->|Hne].
    + right. apply isWithin_spec, starts_with_spec. exists "/". by rewrite append_assoc.
    + left. apply starts_with_spec. clear -Hr Hne. revert a Hr Hne.
      induction g as [|x g IH]; intros a Hr Hne; [by exists a|].
      destruct a as [|y a]; simpl in *.
      { injection Hr as <- Hr. destruct g; [|done]. done. }
      injection Hr as -> Hr. destruct (IH a Hr) as [q ->]; [congruence|]. by exists q.
  - right. unfold isWithin. by rewrite H, orb_true_r.
Qed.

Lemma may_reach_own_literal c : may_reach c (literal c).
Proof. right. case_match; [apply starts_with_refl|apply isWithin_refl]. Qed.

(** The overlap test of the ownership matrix is exact: it reports two
    claims if and only if some repository path can be owned by both. *)
Lemma overlaps_spec a b : overlaps a b = true ↔ ∃ p, may_reach a p ∧ may_reach b p.
Proof.
  unfold overlaps. destruct (decide (literal a = "")) as [Ha|Ha].
  { rewrite bool_decide_eq_true_2 by done. split; [|done]. intros _.
    exists (literal b). split; [by left|apply may_reach_own_literal]. }
  rewrite bool_decide_eq_false_2 by done. destruct (decide (literal b = "")) as [Hb|Hb].
  { rewrite bool_decide_eq_true_2 by done. split; [|done]. intros _.
    exists (literal a). split; [apply may_reach_own_literal|by left]. }
  rewrite bool_decide_eq_false_2 by done. simpl. unfold may_reach.
  destruct (glob a), (glob b); simpl; rewrite orb_true_iff; split.
  - intros [H|H]; [exists (literal a)|exists (literal b)]; auto using starts_with_refl.
  - intros (p & [?|H1] & [?|H2]); try done.
    destruct (starts_with_comparable _ _ p H1 H2); auto.
  - intros [H|H]; [exists (literal b)|exists (literal a)];
      auto using starts_with_refl, isWithin_refl.
  - intros (p & [?|H1] & [?|H2]); try done. by apply (isWithin_glob_common p).
  - intros [H|H]; [exists (literal a)|exists (literal b)];
      auto using starts_with_refl, isWithin_refl.
  - intros (p & [?|H1] & [?|H2]); try done. by apply (isWithin_glob_common p).
  - intros [H|H]; [exists (literal a)|exists (literal b)]; auto using isWithin_refl.
  - intros (p & [?|H1] & [?|H2]); try done. by apply (isWithin_common p).
Qed.

(** ** The conflicts of a wave *)

Lemma elem_of_conflicts_with wave a later c :
  c ∈ conflicts_with wave a later ↔
  ∃ b, b ∈ later ∧ claim_agentId a ≠ claim_agentId b ∧ overlaps a b = true ∧ c = to_conflict wave a b.
Proof.
  unfold conflicts_with. rewrite list_elem_of_bind.
  split; intros (b & H1 & H2).
  - exists b. case_bool_decide; [set_solver|]. destruct (overlaps a b); set_solver.
  - destruct H2 as (? & Ho & ->). exists b. rewrite bool_decide_eq_false_2, Ho by done. set_solver.
Qed.

Lemma conflicts_among_nil wave claims :
  conflicts_among wave claims = [] ↔
  ForallOrdPairs (λ a b, claim_agentId a ≠ claim_agentId b → overlaps a b = false) claims.
Proof.
  induction claims as [|a later IH]; simpl; [split; [constructor|done]|].
  rewrite app_nil. split.
  - intros [Hw Hl]. constructor; [|by apply IH]. apply Forall_forall. intros b Hb Hne.
    apply not_true_is_false. intros Ho.
    cut (to_conflict wave a b ∈ []); [set_solver|]. rewrite <-Hw. apply elem_of_conflicts_with. eauto.
  - inversion 1 as [|?? Ha Hl]; subst. split; [|by apply IH].
    apply elem_of_nil_inv. intros c (b & Hb & Hne & Ho & _)%elem_of_conflicts_with.
    rewrite Forall_forall in Ha. specialize (Ha b Hb Hne). congruence.
Qed.

Lemma overlaps_comm a b : overlaps a b = overlaps b a.
Proof.
  apply eq_true_iff_eq. rewrite !overlaps_spec. naive_solver.
Qed.

Lemma elem_of_ownershipClaims wave c :
  c ∈ ownershipClaims wave ↔
  ∃ o q, o ∈ ownership wave ∧ q ∈ paths o ∧ c = toClaim (agentId o) q.
Proof. unfold ownershipClaims. set_solver. Qed.

Lemma toClaim_agentId a q : claim_agentId (toClaim a q) = a.
Proof. unfold toClaim. by destruct (before_glob _). Qed.

Lemma conflicts_nil_pairs wave claims :
  conflicts_among wave claims = [] ↔
  ∀ a b, a ∈ claims → b ∈ claims → claim_agentId a ≠ claim_agentId b → overlaps a b = false.
Proof.
  rewrite conflicts_among_nil. split.
  - induction 1 as [|x later Hx Hl IH]; [set_solver|]. rewrite Forall_forall in Hx.
    intros a b Ha Hb Hne. apply elem_of_cons in Ha as [->|Ha]; apply elem_of_cons in Hb as [->|Hb];
      [done|auto| |auto]. rewrite overlaps_comm. auto.
  - induction claims as [|x later IH]; intros H; constructor; [|apply IH; set_solver].
    apply Forall_forall. intros b Hb. apply H; set_solver.
Qed.

(** ** What an ownership path means *)

Definition raw_segments (p : string) : list string := split_char "/" (replace_char "\" "/" p).

(** The walk along raw segments: empty names and dots stay, two dots climb. *)
Inductive resolves : list string → list string → list string → Prop :=
  | resolves_end cur : resolves cur [] cur
  | resolves_stay cur x rest r : x = "" ∨ x = "." → resolves cur rest r → resolves cur (x :: rest) r
  | resolves_climb cur y rest r : resolves cur rest r → resolves (cur ++ [y]) (".." :: rest) r
  | resolves_enter cur x rest r : x ∉ [""; "."; ".."] → resolves (cur ++ [x]) rest r → resolves cur (x :: rest) r.

(** A generous reading of glob patterns: a star stands for any text, a question
    mark and a set in brackets for any character, braces for one of the
    alternatives in them, and every character for itself. *)
Inductive glob_text : string → string → Prop :=
  | glob_text_end : glob_text "" ""
  | glob_text_char c p s : glob_text p s → glob_text (String c p) (String c s)
  | glob_text_star p t s : glob_text p s → glob_text (String "*" p) (t +:+ s)
  | glob_text_any c p s : glob_text p s → glob_text (String "?" p) (String c s)
  | glob_text_set body c p s : glob_text p s → glob_text (String "[" (body +:+ String "]" p)) (String c s)
  | glob_text_braces body alternative p s : alternative ∈ split_char "," body →
      glob_text (alternative +:+ p) s → glob_text (String "{" (body +:+ String "}" p)) s.

(** The repository paths that an ownership path gives to its agent, letters of
    both cases alike: everything for the root, otherwise what the path matches
    and all below it.  A path that leaves the repository gives none. *)
Definition owns (ownedPath p : string) : Prop :=
  HOST_ABSOLUTE_PREFIX ownedPath = false ∧
  ∃ segments, resolves [] (raw_segments ownedPath) segments ∧
    (join "/" segments = "" ∨
     ∃ t, glob_text (to_lower (join "/" segments)) t ∧ (to_lower p = t ∨ ∃ rest, to_lower p = t +:+ "/" +:+ rest)).

(** A path without globs that stays in the repository. *)
Definition plain_inside (ownedPath : string) : Prop :=
  HOST_ABSOLUTE_PREFIX ownedPath = false ∧
  ∃ segments, resolves [] (raw_segments ownedPath) segments ∧ string_existsb GLOB_CHARACTER (join "/" segments) = false.

(** No path belongs to two agents of the wave. *)
Definition disjoint_owners (wave : OrchestrationWave) : Prop :=
  ∀ o1 o2 q1 q2 p, o1 ∈ ownership wave → o2 ∈ ownership wave → q1 ∈ paths o1 → q2 ∈ paths o2 →
    agentId o1 ≠ agentId o2 → ¬ (owns q1 p ∧ owns q2 p).

Lemma resolves_push cur raw r : resolves cur raw r → push_segments (reverse cur) raw = Some (reverse r).
Proof.
  induction 1 as [cur|cur x rest r Hx _ IH|cur y rest r _ IH|cur x rest r Hx _ IH]; [done|..]; cbn [push_segments]; unfold push_segment.
  - assert (bool_decide (x = "") || bool_decide (x = ".") = true) as -> by (destruct Hx as [->| ->]; done). exact IH.
  - rewrite reverse_snoc. exact IH.
  - rewrite !not_elem_of_cons in Hx. destruct Hx as (? & ? & ? & _).
    rewrite !bool_decide_eq_false_2 by done. cbn [orb]. by rewrite reverse_snoc in IH.
Qed.

Lemma resolves_normalize q segments : HOST_ABSOLUTE_PREFIX q = false → resolves [] (raw_segments q) segments →
  normalizeSegments q = Some segments.
Proof.
  intros Hq Hr%resolves_push. unfold normalizeSegments. rewrite Hq. unfold raw_segments in Hr.
  change (reverse []) with (@nil string) in Hr. rewrite Hr. cbn. by rewrite reverse_involutive.
Qed.

Lemma glob_text_refl s : glob_text s s.
Proof. induction s; by constructor. Qed.

Lemma glob_text_literal p t : glob_text p t →
  starts_with (before_glob p).1 t = true ∧ ((before_glob p).2 = false → t = p).
Proof.
  induction 1 as [|c p s _ [IH1 IH2]| | | |]; try by split.
  2, 3: split; [apply starts_with_spec; by eexists|done].
  cbn [before_glob]. destruct (GLOB_CHARACTER c); [by split|]. destruct (before_glob p) as [l g]. cbn [fst snd] in *. split.
  - apply starts_with_spec in IH1 as [r ->]. apply starts_with_spec. by exists r.
  - intros Hg. by rewrite IH2.
Qed.

Lemma before_glob_lower s : before_glob (to_lower s) = (to_lower (before_glob s).1, (before_glob s).2).
Proof.
  unfold to_lower. induction s as [|c s IH]; [done|]. cbn [string_map before_glob].
  assert (GLOB_CHARACTER (lower_char c) = GLOB_CHARACTER c) as -> by (by destruct c as [[] [] [] [] [] [] [] []]).
  destruct (GLOB_CHARACTER c); [done|]. rewrite IH. by destruct (before_glob s).
Qed.

Lemma before_glob_none s : (before_glob s).2 = false → (before_glob s).1 = s.
Proof.
  induction s as [|c s IH]; [done|]. cbn [before_glob]. destruct (GLOB_CHARACTER c); [done|].
  destruct (before_glob s) as [l g]. cbn in *. intros Hg. by rewrite IH.
Qed.

Lemma before_glob_plain s : string_existsb GLOB_CHARACTER s = false → (before_glob s).2 = false.
Proof.
  induction s as [|c s IH]; [done|]. cbn [string_existsb before_glob]. intros [-> Hs]%orb_false_iff.
  specialize (IH Hs). by destruct (before_glob s).
Qed.

(** The text that a claim is compared by. *)
Lemma toClaim_literal a q segments : normalizeSegments q = Some segments →
  literal (toClaim a q) = (before_glob (to_lower (join "/" segments))).1 ∧
  glob (toClaim a q) = (before_glob (to_lower (join "/" segments))).2.
Proof. intros Hq. unfold toClaim. rewrite Hq, before_glob_lower. cbn. by destruct (before_glob _). Qed.

(** What a path owns is within reach of its claim. *)
Lemma owns_reach a q p : owns q p → may_reach (toClaim a q) (to_lower p).
Proof.
  intros (Hq & segments & Hs & Hown). destruct (toClaim_literal a q segments) as [Hl Hg]; [by apply resolves_normalize|].
  unfold may_reach. rewrite Hl, Hg. destruct Hown as [->|(t & Ht & Hp)]; [by left|right].
  destruct (glob_text_literal _ _ Ht) as [Hpre Hpl].
  assert (starts_with t (to_lower p) = true ∧ isWithin (to_lower p) t = true) as [Hsw Hin].
  { unfold isWithin. destruct Hp as [->|[rest ->]]; [rewrite bool_decide_eq_true_2 by done; by rewrite starts_with_refl|].
    rewrite <-append_assoc. split; [|apply orb_true_iff; right]; apply starts_with_spec; [|by eexists].
    exists ("/" +:+ rest). by rewrite append_assoc. }
  destruct (before_glob _).2 eqn:Eg.
  - apply starts_with_spec in Hpre as [u ->]. apply starts_with_spec in Hsw as [v ->]. apply starts_with_spec.
    exists (u +:+ v). by rewrite append_assoc.
  - rewrite before_glob_none by done. by rewrite <-Hpl.
Qed.

(** Plain paths that overlap own a common path. *)
Lemma plain_overlap a b q1 q2 : plain_inside q1 → plain_inside q2 → overlaps (toClaim a q1) (toClaim b q2) = true →
  ∃ p, owns q1 p ∧ owns q2 p.
Proof.
  assert (∀ c q, plain_inside q → ∃ segments, HOST_ABSOLUTE_PREFIX q = false ∧ resolves [] (raw_segments q) segments ∧
    literal (toClaim c q) = to_lower (join "/" segments) ∧ glob (toClaim c q) = false) as Hplain.
  { intros c q (Hq & segments & Hs & Hn). exists segments. destruct (toClaim_literal c q segments) as [Hl Hg]; [by apply resolves_normalize|].
    assert ((before_glob (to_lower (join "/" segments))).2 = false) as Hno by (rewrite before_glob_lower; by apply before_glob_plain).
    split; [done|]. split; [done|]. rewrite Hl, Hg. split; [by apply before_glob_none|done]. }
  intros (s1 & Ha1 & Hr1 & Hl1 & Hg1)%(Hplain a) (s2 & Ha2 & Hr2 & Hl2 & Hg2)%(Hplain b).
  assert (∀ q s, HOST_ABSOLUTE_PREFIX q = false → resolves [] (raw_segments q) s → owns q (join "/" s)) as Hself.
  { intros q s Hq Hs. split; [done|]. exists s. split; [done|]. right. eexists. split; [apply glob_text_refl|by left]. }
  assert (∀ q s p, HOST_ABSOLUTE_PREFIX q = false → resolves [] (raw_segments q) s →
    isWithin (to_lower p) (to_lower (join "/" s)) = true → owns q p) as Hwithin.
  { intros q s p Hq Hs Hin. split; [done|]. exists s. split; [done|]. right. eexists. split; [apply glob_text_refl|].
    unfold isWithin in Hin. apply orb_true_iff in Hin as [H%bool_decide_eq_true|[r Hr]%starts_with_spec]; [by left|right].
    exists r. by rewrite Hr, append_assoc. }
  assert (∀ q s p, HOST_ABSOLUTE_PREFIX q = false → resolves [] (raw_segments q) s → to_lower (join "/" s) = "" → owns q p) as Hroot.
  { intros q s p Hq Hs Hn. split; [done|]. exists s. split; [done|]. left. by destruct (join "/" s). }
  unfold overlaps. rewrite Hl1, Hl2, Hg1, Hg2. cbn [negb andb].
  destruct (bool_decide_reflect (to_lower (join "/" s1) = "")) as [E1|E1]; [intros _; exists (join "/" s2); eauto|].
  destruct (bool_decide_reflect (to_lower (join "/" s2) = "")) as [E2|E2]; [intros _; exists (join "/" s1); eauto|].
  cbn [orb]. intros [H|H]%orb_true_iff; [exists (join "/" s1)|exists (join "/" s2)]; eauto.
Qed.

(** C28. A wave without a reported conflict has no path that two of its agents
    own, under a generous reading of globs and without regard to case.  Where no
    ownership path has a glob or leaves the repository the converse holds too, so
    that every report is of a path with two owners; a glob is reported by the
    text in front of its first wildcard, and may be reported without one. *)
Theorem findOwnershipConflicts_disjoint wave :
  (findOwnershipConflicts wave = [] → disjoint_owners wave) ∧
  ((∀ o q, o ∈ ownership wave → q ∈ paths o → plain_inside q) → disjoint_owners wave → findOwnershipConflicts wave = []).
Proof.
  unfold findOwnershipConflicts. rewrite conflicts_nil_pairs. split.
  - intros H o1 o2 q1 q2 p Ho1 Ho2 Hq1 Hq2 Hne [H1 H2].
    assert (overlaps (toClaim (agentId o1) q1) (toClaim (agentId o2) q2) = false) as Hno
      by (apply H; rewrite ?elem_of_ownershipClaims, ?toClaim_agentId; eauto).
    apply not_true_iff_false in Hno. apply Hno, overlaps_spec. eauto using owns_reach.
  - intros Hplain H a b (o1 & q1 & ? & ? & ->)%elem_of_ownershipClaims (o2 & q2 & ? & ? & ->)%elem_of_ownershipClaims.
    rewrite !toClaim_agentId. intros Hne. apply not_true_iff_false. intros (p & Hp1 & Hp2)%plain_overlap; eauto.
    by apply (H o1 o2 q1 q2 p).
Qed.

(** Two globs that match no common path are reported for their common text. *)
Example disjoint_globs_reported :
  overlaps (toClaim "a" "src/*.ts") (toClaim "b" "src/*.md") = true.
Proof. by vm_compute. Qed.

(** Every reported conflict is one: its agents differ and their claims overlap. *)
Lemma findOwnershipConflicts_sound wave c :
  c ∈ findOwnershipConflicts wave →
  ∃ a b, a ∈ ownershipClaims wave ∧ b ∈ ownershipClaims wave ∧
    claim_agentId a ≠ claim_agentId b ∧ overlaps a b = true ∧ c = to_conflict wave a b.
Proof.
  unfold findOwnershipConflicts. induction (ownershipClaims wave) as [|a l IH]; simpl; [set_solver|].
  intros [(b & ? & ? & ? & ->)%elem_of_conflicts_with|Hc]%elem_of_app.
  - exists a, b. rewrite !elem_of_cons. auto 10.
  - destruct (IH Hc) as (x & y & ? & ? & ?). exists x, y. rewrite !elem_of_cons. auto.
Qed.

(** ** Path normalisation *)

(** How far a sequence of raw segments moves below the root. *)
Fixpoint depth (segs : list string) : Z :=
  match segs with
  | [] => 0
  | s :: segs' =>
      (if bool_decide (s = "") || bool_decide (s = ".") then 0
       else if bool_decide (s = "..") then -1 else 1) + depth segs'
  end.

Lemma depth_app l1 l2 : depth (l1 ++ l2) = depth l1 + depth l2.
Proof. induction l1 as [|s l1 IH]; simpl; [done|]. rewrite IH. lia. Qed.

Lemma push_segments_None todo : ∀ segments,
  push_segments segments todo = None ↔
  ∃ l1 l2, todo = l1 ++ l2 ∧ Z.of_nat (length segments) + depth l1 < 0.
Proof.
  induction todo as [|s todo IH]; intros segments; simpl.
  { split; [done|]. intros (l1 & l2 & Heq & Hd). symmetry in Heq.
    apply app_nil in Heq as [-> ->]. simpl in Hd. lia. }
  assert (Hstep : ∀ segments', Z.of_nat (length segments') = Z.of_nat (length segments) + depth [s] →
    push_segments segments' todo = None ↔
    ∃ l1 l2, s :: todo = l1 ++ l2 ∧ Z.of_nat (length segments) + depth l1 < 0).
  { intros segments' Hlen. rewrite IH, Hlen. split.
    - intros (l1 & l2 & -> & Hd). exists (s :: l1), l2. split; [done|].
      change (s :: l1) with ([s] ++ l1). rewrite depth_app. lia.
    - intros ([|s' l1] & l2 & Heq & Hd); simpl in Heq; [simpl in Hd; lia|].
      injection Heq as <- ->. exists l1, l2. split; [done|].
      change (s :: l1) with ([s] ++ l1) in Hd. rewrite depth_app in Hd. lia. }
  unfold push_segment. simpl in Hstep.
  destruct (bool_decide (s = "") || bool_decide (s = ".")); [apply Hstep; lia|].
  destruct (bool_decide (s = "..")) eqn:Hdots; [|apply Hstep; simpl; lia].
  destruct segments as [|x segments]; [|apply Hstep; simpl; lia].
  split; [intros _|done]. exists [s], todo. split; [done|]. simpl. rewrite Hdots.
  case_match; [|lia]. exfalso.
  apply bool_decide_eq_true in Hdots as ->. by vm_compute in H.
Qed.

(** A path escapes the repository root exactly when it is drive-qualified
    or UNC, or when some leading part of it climbs above the root, i.e. has
    more [..] segments than named ones. *)
Theorem ownershipPathEscapesRoot_iff p :
  ownershipPathEscapesRoot p = true ↔
  HOST_ABSOLUTE_PREFIX p = true ∨ ∃ l1 l2, raw_segments p = l1 ++ l2 ∧ depth l1 < 0.
Proof.
  unfold ownershipPathEscapesRoot, normalizeSegments, raw_segments.
  destruct (HOST_ABSOLUTE_PREFIX p); [split; auto|].
  pose proof (push_segments_None (split_char "/" (replace_char "\" "/" p)) []) as H.
  destruct (push_segments [] _); simpl; split; try done.
  - intros [?|Hd]; [done|]. by apply H in Hd.
  - intros _. right. by apply H.
Qed.
