(* ===== verification/PlanSchema.v ===== *)
(** * Plan validation (packages/orchestration/src/plan-schema.ts)

    The schema is a zod object (field shapes and bounds) refined by a hand
    written [superRefine] callback (cross-field rules).  zod is a package
    outside the repository: its object parser is the interface
    [PlanObjectSchema], whose law is the documented meaning of the combinators
    the schema is built from.  The refinement is translated. *)
From S2P Require Import Prelude.
From S2P Require Import JsString.
From S2P Require Import JsNumber.
From S2P Require Import Errors.
From S2P Require Import OrchestrationContracts.
From S2P Require Import Ownership.

Definition ID_MAX_LENGTH : Z := 256.
Definition TEXT_MAX_LENGTH : Z := 2048.
Definition PATH_MAX_LENGTH : Z := 2048.
Definition MAX_PLAN_ITERATIONS : Z := 1000.
Definition MAX_PLAN_RUNTIME_MINUTES : Z := 60 * 24 * 30.
Definition MAX_PLAN_COST_USD : number := num_of_Z 10000.

(** [z.string().trim().min(1).max(n)], on the trimmed string. *)
Definition trimmed_string_ok (max : Z) (s : string) : bool :=
  (1 <=? js_length s) && (js_length s <=? max).
Definition idSchema : string → bool := trimmed_string_ok ID_MAX_LENGTH.
Definition boundedTextSchema : string → bool := trimmed_string_ok TEXT_MAX_LENGTH.
Definition boundedPathSchema : string → bool := trimmed_string_ok PATH_MAX_LENGTH.

(** [z.number().finite().nonnegative().max(MAX_PLAN_COST_USD)]. *)
Definition boundedBudgetSchema (x : number) : bool :=
  num_is_finite x && num_ge x (num_of_Z 0) && num_le x MAX_PLAN_COST_USD.

(** The value each string field parses to. *)
Definition trimPhase (ph : OrchestrationPhase) : OrchestrationPhase :=
  mkPhase (trim (phaseId ph)) (trim (ownerAgentId ph)) (trim (specPath ph))
    (loopMode ph) (requiresApproval ph).
Definition trimOwner (o : OwnershipEntry) : OwnershipEntry :=
  mkOwner (trim (agentId o)) (trim <$> paths o).
Definition trimWave (w : OrchestrationWave) : OrchestrationWave :=
  mkWave (trim (waveId w)) (trim <$> verify w) (budgetUsd w)
    (trimOwner <$> ownership w) (trimPhase <$> phases w).
Definition trimPlan (p : OrchestrationPlan) : OrchestrationPlan :=
  mkPlan (trim (planId p)) (trim (goal p)) (mode p) (maxIterations p)
    (maxRuntimeMinutes p) (maxCostUsd p) (trimWave <$> waves p).

Definition phaseSchema (ph : OrchestrationPhase) : bool :=
  idSchema (phaseId ph) && idSchema (ownerAgentId ph) && boundedPathSchema (specPath ph).

Definition nonempty {A} (l : list A) : bool :=
  match l with [] => false | _ => true end.

Definition waveSchema (w : OrchestrationWave) : bool :=
  idSchema (waveId w) && forallb idSchema (verify w) && boundedBudgetSchema (budgetUsd w) &&
  forallb (λ o, idSchema (agentId o) && forallb boundedPathSchema (paths o) && nonempty (paths o))
    (ownership w) &&
  forallb phaseSchema (phases w) && nonempty (phases w).

(** [z.object({...})] before the refinement, on the parsed value. *)
Definition planObjectSchema (p : OrchestrationPlan) : bool :=
  idSchema (planId p) && boundedTextSchema (goal p) &&
  (0 <? maxIterations p) && (maxIterations p <=? MAX_PLAN_ITERATIONS) &&
  (0 <? maxRuntimeMinutes p) && (maxRuntimeMinutes p <=? MAX_PLAN_RUNTIME_MINUTES) &&
  num_gt (maxCostUsd p) (num_of_Z 0) && num_is_finite (maxCostUsd p) &&
  num_le (maxCostUsd p) MAX_PLAN_COST_USD &&
  forallb waveSchema (waves p) && nonempty (waves p).

(** zod's object parser for this schema: it returns the value with its strings
    trimmed exactly when every declared check passes. *)
Class PlanObjectSchema := {
  plan_object_parse : OrchestrationPlan → res OrchestrationPlan;
  plan_object_parse_ok p q :
    plan_object_parse p = Ok q ↔ q = trimPlan p ∧ planObjectSchema q = true;
}.

(** ** The refinement *)

Inductive PathSegment := PathKey (k : string) | PathIndex (i : Z).
Record ZodIssue := mkIssue { issue_path : list PathSegment; issue_message : string }.

(** [xs.forEach((x, i) => ...)] over an accumulated state. *)
Fixpoint forEach {A St} (f : Z → A → St → St) (i : Z) (xs : list A) (st : St) : St :=
  match xs with
  | [] => st
  | x :: xs' => forEach f (i + 1) xs' (f i x st)
  end.

(** [if (b) ctx.addIssue(...)]. *)
Definition addIssue (b : bool) (path : list PathSegment) (message : string)
    (issues : list ZodIssue) : list ZodIssue :=
  if b then issues ++ [mkIssue path message] else issues.

Definition refineOwnedPath (waveIndex ownerIndex pathIndex : Z) (ownedPath : string)
    (issues : list ZodIssue) : list ZodIssue :=
  addIssue (ownershipPathEscapesRoot ownedPath)
    [PathKey "waves"; PathIndex waveIndex; PathKey "ownership"; PathIndex ownerIndex;
     PathKey "paths"; PathIndex pathIndex]
    ("Ownership path " +:+ ownedPath +:+ " must stay inside the repository root.") issues.

Definition refineOwner (wave : OrchestrationWave) (waveIndex ownerIndex : Z) (owner : OwnershipEntry)
    (st : gset string * list ZodIssue) : gset string * list ZodIssue :=
  let '(ownerIds, issues) := st in
  let issues := addIssue (bool_decide (agentId owner ∈ ownerIds))
    [PathKey "waves"; PathIndex waveIndex; PathKey "ownership"; PathIndex ownerIndex; PathKey "agentId"]
    ("Duplicate owner agentId " +:+ agentId owner +:+ " in wave " +:+ waveId wave +:+ ".") issues in
  (ownerIds ∪ {[agentId owner]},
   forEach (refineOwnedPath waveIndex ownerIndex) 0 (paths owner) issues).

Record RefineState := mkRefine {
  waveIds : gset string;
  phaseIds : gset string;
  phaseWaveIndexes : gmap string Z;
  issues : list ZodIssue;
}.
#[export] Instance refine_eta : Eta RefineState := λ r,
  mkRefine (waveIds r) (phaseIds r) (phaseWaveIndexes r) (issues r).

Definition refinePhase (wave : OrchestrationWave) (ownerIds : gset string) (waveIndex phaseIndex : Z)
    (phase : OrchestrationPhase) (st : RefineState) : RefineState :=
  let is1 := addIssue (bool_decide (phaseId phase ∈ phaseIds st))
    [PathKey "waves"; PathIndex waveIndex; PathKey "phases"; PathIndex phaseIndex; PathKey "phaseId"]
    ("Duplicate phaseId " +:+ phaseId phase +:+ ".") (issues st) in
  let is2 := addIssue (negb (bool_decide (ownerAgentId phase ∈ ownerIds)))
    [PathKey "waves"; PathIndex waveIndex; PathKey "phases"; PathIndex phaseIndex; PathKey "ownerAgentId"]
    ("Phase owner " +:+ ownerAgentId phase +:+ " is not declared in wave " +:+ waveId wave +:+ " ownership.") is1 in
  mkRefine (waveIds st) (phaseIds st ∪ {[phaseId phase]})
    (<[phaseId phase := waveIndex]> (phaseWaveIndexes st)) is2.

Definition refineWave (waveIndex : Z) (wave : OrchestrationWave) (st : RefineState) : RefineState :=
  let is1 := addIssue (bool_decide (waveId wave ∈ waveIds st))
    [PathKey "waves"; PathIndex waveIndex; PathKey "waveId"]
    ("Duplicate waveId " +:+ waveId wave +:+ ".") (issues st) in
  let '(ownerIds, is2) := forEach (refineOwner wave waveIndex) 0 (ownership wave) (∅, is1) in
  forEach (refinePhase wave ownerIds waveIndex) 0 (phases wave)
    (st <| waveIds := waveIds st ∪ {[waveId wave]} |> <| issues := is2 |>).

Definition refineVerify (st : RefineState) (waveIndex verifyIndex : Z) (verifyPhaseId : string)
    (issues : list ZodIssue) : list ZodIssue :=
  let path := [PathKey "waves"; PathIndex waveIndex; PathKey "verify"; PathIndex verifyIndex] in
  if negb (bool_decide (verifyPhaseId ∈ phaseIds st)) then
    addIssue true path
      ("verify entry " +:+ verifyPhaseId +:+ " does not reference any declared phaseId.") issues
  else
    addIssue
      (match phaseWaveIndexes st !! verifyPhaseId with
       | None => true
       | Some referencedWaveIndex => waveIndex <=? referencedWaveIndex
       end) path
      ("verify entry " +:+ verifyPhaseId +:+ " must reference a phase from a preceding wave.") issues.

(** The [superRefine] callback: the issues it adds. *)
Definition refinePlan (plan : OrchestrationPlan) : list ZodIssue :=
  let st := forEach refineWave 0 (waves plan) (mkRefine ∅ ∅ ∅ []) in
  forEach (λ waveIndex wave, forEach (refineVerify st waveIndex) 0 (verify wave)) 0 (waves plan)
    (issues st).

(** [planSchema.parse(input)]. *)
Definition validatePlan `{PlanObjectSchema} (input : OrchestrationPlan) : res OrchestrationPlan :=
  plan ← plan_object_parse input;
  match refinePlan plan with
  | [] => Ok plan
  | found => Err (ZodError (issue_message <$> found))
  end.

(** ** What the refinement decides *)

Definition allPhases (plan : OrchestrationPlan) : list OrchestrationPhase :=
  waves plan ≫= phases.
Definition wavePhaseIds (w : OrchestrationWave) : list string := phaseId <$> phases w.

(** The rules of one wave, and of a plan. *)
Definition waveRules (w : OrchestrationWave) : Prop :=
  NoDup (agentId <$> ownership w) ∧
  (∀ o q, o ∈ ownership w → q ∈ paths o → ownershipPathEscapesRoot q = false) ∧
  (∀ ph, ph ∈ phases w → ownerAgentId ph ∈ agentId <$> ownership w).

Definition planRules (plan : OrchestrationPlan) : Prop :=
  NoDup (waveId <$> waves plan) ∧
  NoDup (phaseId <$> allPhases plan) ∧
  (∀ w, w ∈ waves plan → waveRules w) ∧
  (∀ i w v, waves plan !! i = Some w → v ∈ verify w →
     ∃ j w', (j < i)%nat ∧ waves plan !! j = Some w' ∧ v ∈ wavePhaseIds w').

Lemma addIssue_nil b path m l : addIssue b path m l = [] ↔ l = [] ∧ b = false.
Proof.
  unfold addIssue. destruct b; [|tauto]. split; [|by intros [_ ?]].
  intros H. by apply app_nil in H as [_ ?].
Qed.

(** A loop that only appends issues adds none exactly when no step does. *)
Lemma forEach_nil {A} (f : Z → A → list ZodIssue → list ZodIssue) (P : Z → A → Prop) xs :
  (∀ i x l, f i x l = [] ↔ l = [] ∧ P i x) →
  ∀ i l, forEach f i xs l = [] ↔ l = [] ∧ ∀ k x, xs !! k = Some x → P (i + Z.of_nat k) x.
Proof.
  intros Hf. induction xs as [|x xs IH]; intros i l; simpl.
  - split; [|tauto]. intros ->. split; [done|]. by intros k x Hk; rewrite lookup_nil in Hk.
  - rewrite IH, Hf. split.
    + intros [[-> Hx] Hxs]. split; [done|]. intros [|k] y Hy; simpl in Hy.
      * injection Hy as <-. by rewrite Z.add_0_r.
      * replace (i + Z.of_nat (S k)) with (i + 1 + Z.of_nat k) by lia. auto.
    + intros [-> H]. split; [split; [done|]|].
      * rewrite <-(Z.add_0_r i). by apply (H 0%nat).
      * intros k y Hy. replace (i + 1 + Z.of_nat k) with (i + Z.of_nat (S k)) by lia. auto.
Qed.

Lemma refineOwnedPaths_nil wi oi qs l :
  forEach (refineOwnedPath wi oi) 0 qs l = [] ↔
  l = [] ∧ ∀ q, q ∈ qs → ownershipPathEscapesRoot q = false.
Proof.
  rewrite (forEach_nil _ (λ _ q, ownershipPathEscapesRoot q = false)); [|intros; apply addIssue_nil].
  setoid_rewrite list_elem_of_lookup. naive_solver.
Qed.

Lemma refineOwners_nil wave wi os : ∀ i ids l ids' l',
  forEach (refineOwner wave wi) i os (ids, l) = (ids', l') →
  ids' = ids ∪ list_to_set (agentId <$> os) ∧
  (l' = [] ↔ l = [] ∧ NoDup (agentId <$> os) ∧ (∀ a, a ∈ agentId <$> os → a ∉ ids) ∧
     (∀ o q, o ∈ os → q ∈ paths o → ownershipPathEscapesRoot q = false)).
Proof.
  induction os as [|o os IH]; intros i ids l ids' l'; simpl.
  - intros [= -> ->]. split; [set_solver|]. split; [|tauto]. intros ->.
    split_and!; [done|constructor|set_solver|set_solver].
  - intros H. apply IH in H as [-> ->]. split; [set_solver|].
    rewrite refineOwnedPaths_nil, addIssue_nil, bool_decide_eq_false, NoDup_cons.
    split.
    + intros ((Hl & Ho) & Hnd & Hids & Hq). destruct Hl as [-> Hnin].
      split_and!; try done.
      * intros Hin. apply (Hids _ Hin). set_solver.
      * set_solver.
      * intros o' q [->|?]%elem_of_cons; eauto.
    + intros (-> & (Hnin & Hnd) & Hids & Hq). split_and!; try done.
      * apply Hids. set_solver.
      * intros q ?. apply (Hq o); set_solver.
      * intros a Ha. apply not_elem_of_union. split; [set_solver|].
        intros ->%elem_of_singleton. done.
      * intros o' q ? ?. apply (Hq o'); set_solver.
Qed.

Lemma refinePhases_nil wave ids wi phs : ∀ i st,
  let st' := forEach (refinePhase wave ids wi) i phs st in
  waveIds st' = waveIds st ∧
  phaseIds st' = phaseIds st ∪ list_to_set (phaseId <$> phs) ∧
  (∀ v j, phaseWaveIndexes st' !! v = Some j →
     j = wi ∧ v ∈ phaseId <$> phs ∨ v ∉ phaseId <$> phs ∧ phaseWaveIndexes st !! v = Some j) ∧
  (dom (phaseWaveIndexes st) = phaseIds st → dom (phaseWaveIndexes st') = phaseIds st') ∧
  (issues st' = [] ↔ issues st = [] ∧ NoDup (phaseId <$> phs) ∧
     (∀ v, v ∈ phaseId <$> phs → v ∉ phaseIds st) ∧ (∀ ph, ph ∈ phs → ownerAgentId ph ∈ ids)).
Proof.
  induction phs as [|ph phs IH]; intros i st; cbv zeta; simpl.
  - split_and!; [done|set_solver|intros; right; set_solver|done|]. split; [|tauto].
    intros ->. split_and!; [done|constructor|set_solver|set_solver].
  - destruct (IH (i + 1) (refinePhase wave ids wi i ph st)) as (Hw & Hp & Hx & Hd & Hi).
    clear IH. rewrite Hw, Hp. split_and!.
    + done.
    + unfold refinePhase. simpl. set_solver.
    + intros v j Hv. destruct (Hx v j Hv) as [[-> ?]|[Hnin Hv']]; [left; set_solver|].
      unfold refinePhase in Hv'. simpl in Hv'.
      destruct (decide (phaseId ph = v)) as [<-|Hne].
      * rewrite lookup_insert_eq in Hv'. injection Hv' as <-. left. set_solver.
      * rewrite lookup_insert_ne in Hv' by done. right. set_solver.
    + intros Hdom. rewrite Hd; [done|]. unfold refinePhase. simpl. rewrite dom_insert_L. set_solver.
    + rewrite Hi. unfold refinePhase. simpl.
      rewrite !addIssue_nil, negb_false_iff, bool_decide_eq_true, bool_decide_eq_false, NoDup_cons.
      split.
      * intros (((-> & Hn) & Ho) & Hnd & Hids & Hos). split_and!; try done.
        -- intros Hin. apply (Hids _ Hin). set_solver.
        -- set_solver.
        -- set_solver.
      * intros (-> & (Hn & Hnd) & Hids & Hos). split_and!; try done; set_solver.
Qed.

(** The facts the wave loop keeps about its state, after the waves [done]. *)
Record refine_inv (done : list OrchestrationWave) (st : RefineState) : Prop := {
  inv_waveIds : waveIds st = list_to_set (waveId <$> done);
  inv_phaseIds : phaseIds st = list_to_set (phaseId <$> (done ≫= phases));
  inv_dom : dom (phaseWaveIndexes st) = phaseIds st;
  inv_indexes : ∀ v j, phaseWaveIndexes st !! v = Some j →
    ∃ w, 0 <= j ∧ done !! Z.to_nat j = Some w ∧ v ∈ wavePhaseIds w;
  inv_issues : issues st = [] ↔
    NoDup (waveId <$> done) ∧ NoDup (phaseId <$> (done ≫= phases)) ∧
    (∀ w, w ∈ done → waveRules w);
}.

Lemma bind_snoc {A B} (f : A → list B) l x : (l ++ [x]) ≫= f = (l ≫= f) ++ f x.
Proof. rewrite bind_app. simpl. by rewrite app_nil_r. Qed.

Lemma refineWave_inv before w st :
  refine_inv before st → refine_inv (before ++ [w]) (refineWave (Z.of_nat (length before)) w st).
Proof.
  intros Hinv. unfold refineWave.
  destruct (forEach (refineOwner _ _) _ _ _) as [ids l2] eqn:Ho.
  apply refineOwners_nil in Ho as [-> Hl2].
  match goal with |- refine_inv _ (forEach (refinePhase _ ?ids ?wi) _ _ ?st1) =>
    destruct (refinePhases_nil w ids wi (phases w) 0 st1) as (Hw & Hp & Hx & Hd & Hi) end.
  simpl in *. rewrite addIssue_nil, bool_decide_eq_false in Hl2.
  constructor.
  - rewrite Hw, (inv_waveIds _ _ Hinv), fmap_app, list_to_set_app_L. simpl. set_solver.
  - rewrite Hp, (inv_phaseIds _ _ Hinv), bind_snoc, fmap_app, list_to_set_app_L. done.
  - apply Hd, (inv_dom _ _ Hinv).
  - intros v j [[-> Hv]|[Hn Hv]]%Hx.
    + exists w. split; [lia|]. rewrite Nat2Z.id, lookup_app_r, Nat.sub_diag by done. done.
    + destruct (inv_indexes _ _ Hinv _ _ Hv) as (w' & ? & Hw' & ?). exists w'.
      split; [done|]. split; [|done]. by apply lookup_app_l_Some.
  - rewrite Hi, Hl2, (inv_issues _ _ Hinv), (inv_waveIds _ _ Hinv), (inv_phaseIds _ _ Hinv).
    rewrite bind_snoc, !fmap_app, !NoDup_app, !elem_of_list_to_set. simpl.
    unfold waveRules. setoid_rewrite elem_of_list_to_set. setoid_rewrite elem_of_app.
    setoid_rewrite list_elem_of_singleton. split.
    + intros ((((Hnw & Hnp & Hr) & Hfresh) & Hnd & _ & Hq) & Hndp & Hdisj & Hown).
      split_and!; try done.
      * intros x Hin Heq. subst x. done.
      * apply NoDup_singleton.
      * intros x Hin Hin2. by apply (Hdisj x Hin2).
      * intros w' [?| ->]; [by apply Hr|]. split_and!; [done|done|].
        intros ph Hph. specialize (Hown ph Hph). set_solver.
    + intros ((Hnw & Hdw & _) & (Hnp & Hdp & Hndp) & Hr).
      destruct (Hr w (or_intror eq_refl)) as (Hnd & Hq & Hown).
      split_and!; try done.
      * intros w' ?. apply Hr. by left.
      * intros Hin. by apply (Hdw _ Hin).
      * intros v Hv Hin. by apply (Hdp v Hin).
      * intros ph Hph. specialize (Hown ph Hph). set_solver.
Qed.

Lemma refineWaves_inv todo : ∀ before st,
  refine_inv before st →
  refine_inv (before ++ todo) (forEach refineWave (Z.of_nat (length before)) todo st).
Proof.
  induction todo as [|w todo IH]; intros before st Hinv; simpl.
  - by rewrite app_nil_r.
  - replace (Z.of_nat (length before) + 1) with (Z.of_nat (length (before ++ [w])))
      by (rewrite length_app; simpl; lia).
    change (w :: todo) with ([w] ++ todo). rewrite app_assoc.
    by apply IH, refineWave_inv.
Qed.

Lemma refine_inv_init : refine_inv [] (mkRefine ∅ ∅ ∅ []).
Proof.
  constructor; simpl; [done|done|by rewrite dom_empty_L|by intros ???|].
  split; [|done]. intros _. split_and!; [constructor|constructor|set_solver].
Qed.

Lemma NoDup_bind_unique {A B} (f : A → list B) (l : list A) :
  NoDup (l ≫= f) → ∀ i j x y b, l !! i = Some x → l !! j = Some y → b ∈ f x → b ∈ f y → i = j.
Proof.
  induction l as [|a l IH]; simpl; intros Hnd i j x y b Hi Hj Hx Hy; [by rewrite lookup_nil in Hi|].
  apply NoDup_app in Hnd as (_ & Hdisj & Hnd).
  assert (Hin : ∀ k z, l !! k = Some z → b ∈ f z → b ∈ l ≫= f).
  { intros k z Hk Hz. apply list_elem_of_bind. exists z. split; [done|]. by eapply list_elem_of_lookup_2. }
  destruct i as [|i], j as [|j]; simpl in *; [done| | |f_equal; by eapply IH].
  - injection Hi as <-. by destruct (Hdisj b Hx (Hin _ _ Hj Hy)).
  - injection Hj as <-. by destruct (Hdisj b Hy (Hin _ _ Hi Hx)).
Qed.

Lemma fmap_allPhases plan : phaseId <$> allPhases plan = waves plan ≫= wavePhaseIds.
Proof.
  unfold allPhases. induction (waves plan) as [|w ws IH]; [done|].
  rewrite !bind_cons, fmap_app. by f_equal.
Qed.

(** The refinement adds no issue exactly when the plan satisfies the rules. *)
Lemma refinePlan_nil plan : refinePlan plan = [] ↔ planRules plan.
Proof.
  unfold refinePlan.
  pose proof (refineWaves_inv (waves plan) [] _ refine_inv_init) as Hinv.
  change (Z.of_nat (length [])) with 0 in Hinv. simpl in Hinv.
  set (st := forEach refineWave 0 (waves plan) _) in *.
  rewrite (forEach_nil _ (λ i w, ∀ v, v ∈ verify w →
      v ∈ phaseIds st ∧ ∃ j, phaseWaveIndexes st !! v = Some j ∧ j < i)).
  2: { intros i w l. rewrite (forEach_nil _ (λ _ v,
         v ∈ phaseIds st ∧ ∃ j, phaseWaveIndexes st !! v = Some j ∧ j < i)).
       - setoid_rewrite list_elem_of_lookup. naive_solver.
       - intros k v l'. unfold refineVerify. case_bool_decide as Hin; simpl.
         + rewrite addIssue_nil. destruct (phaseWaveIndexes st !! v) as [j|].
           * rewrite Z.leb_gt. naive_solver.
           * naive_solver.
         + rewrite app_nil; split; [by intros [_ ?]|by intros (_ & ? & _)]. }
  rewrite (inv_issues _ _ Hinv). unfold planRules. fold (allPhases plan).
  split.
  - intros ((? & Hnd & ?) & Hv). split_and!; try done. intros i w v Hi Hin.
    destruct (Hv i w Hi v Hin) as (_ & j & Hj & Hlt).
    destruct (inv_indexes _ _ Hinv _ _ Hj) as (w' & ? & ? & ?).
    exists (Z.to_nat j), w'. split_and!; [lia|done|done].
  - intros (? & Hnd & ? & Hv). split; [done|]. intros i w Hi v Hin.
    destruct (Hv i w v Hi Hin) as (j & w' & Hlt & Hj & Hv').
    assert (Hp : v ∈ phaseIds st).
    { rewrite (inv_phaseIds _ _ Hinv), elem_of_list_to_set. fold (allPhases plan).
      rewrite fmap_allPhases, list_elem_of_bind. exists w'.
      split; [done|by eapply list_elem_of_lookup_2]. }
    split; [done|]. rewrite <-(inv_dom _ _ Hinv) in Hp. apply elem_of_dom in Hp as [j' Hj'].
    exists j'. split; [done|]. destruct (inv_indexes _ _ Hinv _ _ Hj') as (w2 & Hpos & Hw2 & Hv2).
    rewrite fmap_allPhases in Hnd.
    assert (j = Z.to_nat j') by (eapply NoDup_bind_unique; eauto). lia.
Qed.

(** C14. [validatePlan] accepts a plan exactly when, after trimming, its fields
    are within the declared bounds and it obeys the cross-field rules: distinct
    wave ids, distinct phase ids across waves, distinct owners per wave, paths
    inside the repository, every phase owned by an agent of its wave, every
    [verify] entry naming a phase of an earlier wave. It returns the trimmed
    plan. *)
Theorem validatePlan_ok_iff `{PlanObjectSchema} p q :
  validatePlan p = Ok q ↔ q = trimPlan p ∧ planObjectSchema q = true ∧ planRules q.
Proof.
  unfold validatePlan. rewrite outcome_bind_ok. setoid_rewrite plan_object_parse_ok.
  split.
  - intros (a & [-> Hok] & Hr). destruct (refinePlan (trimPlan p)) eqn:E; [|done].
    injection Hr as <-. by apply refinePlan_nil in E.
  - intros (-> & Hok & Hr%refinePlan_nil). exists (trimPlan p). by rewrite Hr.
Qed.

(** A concrete zod parser, to run the schema on concrete plans. *)
#[export] Program Instance planObjectReference : PlanObjectSchema := {|
  plan_object_parse p :=
    if planObjectSchema (trimPlan p) then Ok (trimPlan p) else Err (ZodError ["Invalid input"]);
|}.
Next Obligation.
  intros p q. simpl. destruct (planObjectSchema (trimPlan p)) eqn:E; split.
  - by intros [= <-].
  - by intros [-> _].
  - done.
  - intros [-> ?]. congruence.
Qed.
