(* ===== verification/OrchestrationEngine.v ===== *)
(** * Orchestration engine (packages/orchestration/src/engine.ts)

    The state machine of a supervised plan: a run is created, started,
    approved at gated phases and advanced phase by phase, until it completes or
    reaches a plan or wave limit. Every method takes the plan and the run and
    returns the next run or throws. *)
From S2P Require Import Prelude.
From S2P Require Import JsString.
From S2P Require Import JsNumber.
From S2P Require Import JsTime.
From S2P Require Import Errors.
From S2P Require Import OrchestrationContracts.
From S2P Require Import Ownership.
From S2P Require Import PlanSchema.

Record RunLimitState := mkLimitState {
  iterations : Z;
  runtimeMinutes_ : number;
  costUsd : number;
}.

Inductive LimitOverrun :=
  | plan_cost (limitUsd spentUsd : number)
  | wave_cost (waveId : string) (limitUsd spentUsd : number)
  | runtime_overrun (limitMinutes : Z) (elapsedMinutes : number).

(** [Math.max(0, (Date.parse(now) - Date.parse(run.startedAt)) / 60000)]. *)
Definition runtimeMinutes (run : OrchestrationRun) (now : string) : number :=
  num_max0
    (match date_parse now, date_parse (startedAt run) with
     | Some t1, Some t0 => num_div (num_of_Z (t1 - t0)) (num_of_Z 60000)
     | _, _ => S754_nan
     end).

(** [run.waveCostUsdByWaveId?.[waveId] ?? 0]. *)
Definition waveCost (run : OrchestrationRun) (wid : string) : number :=
  default (num_of_Z 0) (waveCostUsdByWaveId run ≫= λ m, m !! wid).

(** [listLimitOverruns]; [clock] is [new Date().toISOString()]. *)
Definition listLimitOverruns (clock : string) (plan : OrchestrationPlan) (run : OrchestrationRun)
    (now : option string) : list LimitOverrun :=
  let now := default (default clock (endedAt run)) now in
  (if num_gt (totalCostUsd run) (maxCostUsd plan)
   then [plan_cost (maxCostUsd plan) (totalCostUsd run)] else []) ++
  (wave ← waves plan;
   let spentUsd := waveCost run (waveId wave) in
   if num_gt (budgetUsd wave) (num_of_Z 0) && num_gt spentUsd (budgetUsd wave)
   then [wave_cost (waveId wave) (budgetUsd wave) spentUsd] else []) ++
  (let elapsedMinutes := runtimeMinutes run now in
   if num_gt elapsedMinutes (num_of_Z (maxRuntimeMinutes plan))
   then [runtime_overrun (maxRuntimeMinutes plan) elapsedMinutes] else []).

Section engine.
Context `{PlanObjectSchema}.

(** The ownership loop of [validate]. *)
Fixpoint validateOwnership (ws : list OrchestrationWave) : res unit :=
  match ws with
  | [] => Ok tt
  | wave :: ws' =>
      match findOwnershipConflicts wave with
      | first :: _ =>
          Err (JsError ("Wave " +:+ waveId wave +:+ " ownership conflict: " +:+
            agentA first +:+ ":" +:+ pathA first +:+ " overlaps " +:+
            agentB first +:+ ":" +:+ pathB first))
      | [] => validateOwnership ws'
      end
  end.

Definition validate (plan : OrchestrationPlan) : res unit :=
  _ ← validatePlan plan; validateOwnership (waves plan).

(** [createRun]; [uuid] and [now] are [randomUUID()] and the clock. *)
Definition createRun (uuid now : string) (plan : OrchestrationPlan) : res OrchestrationRun :=
  _ ← validate plan;
  Ok {|
    policy := mkPolicyContext None None None None None None;
    runId := uuid;
    run_planId := planId plan;
    status := queued;
    startedAt := now;
    endedAt := None;
    currentWaveId := None;
    currentPhaseId := None;
    totalCostUsd := num_of_Z 0;
    totalIterations := 0;
    waveCostUsdByWaveId := None;
    stopReason := None;
    durableRunId := None;
    executionState := None;
    worktreePath := None;
    worktreeStatus := None;
    worktreeBaseRef := None;
    worktreeLeaseOwnerId := None;
    worktreeLeaseGeneration := None;
    worktreeLeaseExpiresAt := None;
    pendingApprovalPhaseId := None;
    pendingApprovedBy := None;
    pendingCostIncrementUsd := None;
    lastError := None;
  |}.

(** [firstPhase]; the non-null assertions throw a [TypeError] otherwise. *)
Definition firstPhase (plan : OrchestrationPlan) : res (string * string) :=
  match waves plan with
  | firstWave :: _ =>
      match phases firstWave with
      | first :: _ => Ok (waveId firstWave, phaseId first)
      | [] => Err (JsTypeError "Cannot read properties of undefined (reading 'phaseId')")
      end
  | [] => Err (JsTypeError "Cannot read properties of undefined (reading 'phases')")
  end.

Definition phaseNotFound {A} (plan : OrchestrationPlan) (pid : string) : res A :=
  Err (JsError ("Phase " +:+ pid +:+ " not found in plan " +:+ planId plan)).

(** [phases.findIndex((phase) => phase.phaseId === id)]. *)
Fixpoint findPhaseIndex (pid : string) (phs : list OrchestrationPhase) : option nat :=
  match phs with
  | [] => None
  | ph :: phs' =>
      if bool_decide (phaseId ph = pid) then Some O else S <$> findPhaseIndex pid phs'
  end.

(** The wave loop of [nextPhase], from some wave on. *)
Fixpoint nextPhaseFrom (plan : OrchestrationPlan) (pid : string) (ws : list OrchestrationWave)
    : res (option (string * string)) :=
  match ws with
  | [] => phaseNotFound plan pid
  | wave :: ws' =>
      match findPhaseIndex pid (phases wave) with
      | None => nextPhaseFrom plan pid ws'
      | Some phaseIndex =>
          match phases wave !! S phaseIndex with
          | Some nextInWave => Ok (Some (waveId wave, phaseId nextInWave))
          | None =>
              match ws' with
              | nextWave :: _ =>
                  match phases nextWave with
                  | firstInNextWave :: _ => Ok (Some (waveId nextWave, phaseId firstInNextWave))
                  | [] => Ok None
                  end
              | [] => Ok None
              end
          end
      end
  end.

Definition nextPhase (plan : OrchestrationPlan) (pid : string) : res (option (string * string)) :=
  nextPhaseFrom plan pid (waves plan).

Fixpoint findWaveIn (plan : OrchestrationPlan) (pid : string) (ws : list OrchestrationWave)
    : res OrchestrationWave :=
  match ws with
  | [] => phaseNotFound plan pid
  | wave :: ws' =>
      if existsb (λ candidate, bool_decide (phaseId candidate = pid)) (phases wave)
      then Ok wave else findWaveIn plan pid ws'
  end.

Definition findWaveForPhase (plan : OrchestrationPlan) (pid : string) : res OrchestrationWave :=
  findWaveIn plan pid (waves plan).

Fixpoint findPhaseIn (plan : OrchestrationPlan) (pid : string) (ws : list OrchestrationWave)
    : res OrchestrationPhase :=
  match ws with
  | [] => phaseNotFound plan pid
  | wave :: ws' =>
      match List.find (λ candidate, bool_decide (phaseId candidate = pid)) (phases wave) with
      | Some phase => Ok phase
      | None => findPhaseIn plan pid ws'
      end
  end.

Definition findPhase (plan : OrchestrationPlan) (pid : string) : res OrchestrationPhase :=
  findPhaseIn plan pid (waves plan).

Definition isApprovalGated (plan : OrchestrationPlan) (pid : string) : res bool :=
  phase ← findPhase plan pid;
  Ok (bool_decide (mode plan = hitl) || requiresApproval phase).

Definition shouldStopByLimits (plan : OrchestrationPlan) (state : RunLimitState) : bool :=
  (maxIterations plan <=? iterations state) ||
  num_ge (runtimeMinutes_ state) (num_of_Z (maxRuntimeMinutes plan)) ||
  num_ge (costUsd state) (maxCostUsd plan).

Definition shouldStopByWaveBudget (wave : OrchestrationWave) (accumulatedCostUsd : number) : bool :=
  num_gt (budgetUsd wave) (num_of_Z 0) && num_ge accumulatedCostUsd (budgetUsd wave).

Definition startRun (plan : OrchestrationPlan) (run : OrchestrationRun) : res OrchestrationRun :=
  _ ← validate plan;
  _ ← throw_when (negb (bool_decide (status run = queued)))
    (JsError ("Run " +:+ runId run +:+ " cannot be started from status " +:+ status_text (status run)));
  '(firstWaveId, firstPhaseId) ← firstPhase plan;
  gated ← isApprovalGated plan firstPhaseId;
  Ok (run <| status := if (gated : bool) then paused else running |>
          <| currentWaveId := Some firstWaveId |>
          <| currentPhaseId := Some firstPhaseId |>
          <| endedAt := None |>).

(** [approvePhase]; [now] is [options.now ?? new Date().toISOString()]. *)
Definition approvePhase (plan : OrchestrationPlan) (run : OrchestrationRun)
    (approvedPhaseId now : string) : res OrchestrationRun :=
  _ ← validate plan;
  _ ← throw_when (negb (bool_decide (status run = paused)))
    (JsError ("Run " +:+ runId run +:+ " is not waiting for approval: " +:+ status_text (status run)));
  _ ← throw_when (negb (bool_decide (currentPhaseId run = Some approvedPhaseId)))
    (JsError ("Run " +:+ runId run +:+ " expected phase " +:+ default "<none>" (currentPhaseId run) +:+
      " but received approval for " +:+ approvedPhaseId));
  gated ← isApprovalGated plan approvedPhaseId;
  _ ← throw_when (negb gated)
    (JsError ("Phase " +:+ approvedPhaseId +:+ " is not approval-gated for run " +:+ runId run));
  if shouldStopByLimits plan
       (mkLimitState (totalIterations run) (runtimeMinutes run now) (totalCostUsd run))
  then Ok (run <| status := stopped_by_limit |>
               <| stopReason := Some plan_limit |>
               <| pendingApprovalPhaseId := None |>
               <| pendingApprovedBy := None |>
               <| pendingCostIncrementUsd := None |>
               <| endedAt := Some now |>)
  else Ok (run <| status := running |>
               <| pendingApprovalPhaseId := Some approvedPhaseId |>
               <| endedAt := None |>).

Definition advanceFromPhase (plan : OrchestrationPlan) (run : OrchestrationRun)
    (pid now : string) (costIncrementUsd : number) : res OrchestrationRun :=
  next ← nextPhase plan pid;
  executedWave ← findWaveForPhase plan pid;
  let accumulated := num_add (waveCost run (waveId executedWave)) costIncrementUsd in
  let costs := <[waveId executedWave := accumulated]> (default ∅ (waveCostUsdByWaveId run)) in
  next_status ←
    match next with
    | Some n => gated ← isApprovalGated plan n.2; Ok (if (gated : bool) then paused else running)
    | None => Ok completed
    end;
  let candidate :=
    run <| totalIterations := totalIterations run + 1 |>
        <| totalCostUsd := num_add (totalCostUsd run) costIncrementUsd |>
        <| waveCostUsdByWaveId := Some costs |>
        <| currentWaveId := fst <$> next |>
        <| currentPhaseId := snd <$> next |>
        <| pendingApprovalPhaseId := None |>
        <| pendingApprovedBy := None |>
        <| pendingCostIncrementUsd := None |>
        <| status := next_status |>
        <| endedAt := match next with Some _ => None | None => Some now end |> in
  match next with
  | None => Ok candidate
  | Some _ =>
      if shouldStopByLimits plan
           (mkLimitState (totalIterations candidate) (runtimeMinutes run now) (totalCostUsd candidate))
      then Ok (candidate <| status := stopped_by_limit |>
                         <| stopReason := Some plan_limit |>
                         <| endedAt := Some now |>)
      else if shouldStopByWaveBudget executedWave accumulated
      then Ok (candidate <| currentWaveId := Some (waveId executedWave) |>
                         <| currentPhaseId := Some pid |>
                         <| status := stopped_by_limit |>
                         <| stopReason := Some wave_budget_exceeded |>
                         <| endedAt := Some now |>)
      else Ok candidate
  end.

(** [advancePhase]; [now] and [costIncrementUsd] are the options with their
    defaults (the clock, and 0). *)
Definition advancePhase (plan : OrchestrationPlan) (run : OrchestrationRun)
    (pid now : string) (costIncrementUsd : number) : res OrchestrationRun :=
  _ ← validate plan;
  _ ← throw_when (negb (bool_decide (status run = running)))
    (JsError ("Run " +:+ runId run +:+ " is not actively running: " +:+ status_text (status run)));
  _ ← throw_when (negb (bool_decide (currentPhaseId run = Some pid)))
    (JsError ("Run " +:+ runId run +:+ " expected phase " +:+ default "<none>" (currentPhaseId run) +:+
      " but received advancement for " +:+ pid));
  gated ← isApprovalGated plan pid;
  _ ← throw_when (gated && negb (bool_decide (pendingApprovalPhaseId run = Some pid)))
    (JsError ("Phase " +:+ pid +:+ " requires approval and cannot auto-advance for run " +:+ runId run));
  advanceFromPhase plan run pid now costIncrementUsd.
End engine.

(** ** The positions of a plan

    The phases of a plan in execution order, each with its wave. *)
Definition wavePositions (w : OrchestrationWave) : list (string * string) :=
  (λ ph, (waveId w, phaseId ph)) <$> phases w.
Definition positions (plan : OrchestrationPlan) : list (string * string) :=
  waves plan ≫= wavePositions.
Definition planPhaseIds (plan : OrchestrationPlan) : list string := (positions plan).*2.

(** What the engine relies on in a plan that [validate] accepts. *)
Record engine_plan (plan : OrchestrationPlan) : Prop := {
  ep_waves : NoDup (waveId <$> waves plan);
  ep_phases : NoDup (planPhaseIds plan);
  ep_nonempty : waves plan ≠ [];
  ep_wave_nonempty w : w ∈ waves plan → phases w ≠ [];
  ep_budget w : w ∈ waves plan → boundedBudgetSchema (budgetUsd w) = true;
  ep_iterations : 0 < maxIterations plan <= MAX_PLAN_ITERATIONS;
  ep_cost : num_gt (maxCostUsd plan) (num_of_Z 0) = true;
  ep_owners w : w ∈ waves plan → findOwnershipConflicts w = [];
}.

Lemma wavePositions_snd w : (wavePositions w).*2 = wavePhaseIds w.
Proof. unfold wavePositions, wavePhaseIds. by rewrite <-list_fmap_compose. Qed.

Lemma planPhaseIds_bind plan : planPhaseIds plan = waves plan ≫= wavePhaseIds.
Proof.
  unfold planPhaseIds, positions. induction (waves plan) as [|w ws IH]; [done|].
  rewrite !bind_cons, fmap_app, wavePositions_snd. by f_equal.
Qed.

Lemma planPhaseIds_trim plan : planPhaseIds (trimPlan plan) = trim <$> planPhaseIds plan.
Proof.
  rewrite !planPhaseIds_bind. simpl. induction (waves plan) as [|w ws IH]; [done|].
  rewrite fmap_cons, !bind_cons, fmap_app, IH. f_equal.
  unfold wavePhaseIds. simpl. by rewrite <-!list_fmap_compose.
Qed.

Lemma nonempty_spec {A} (l : list A) : nonempty l = true ↔ l ≠ [].
Proof. by destruct l. Qed.

Lemma validateOwnership_ok ws :
  validateOwnership ws = Ok tt ↔ ∀ w, w ∈ ws → findOwnershipConflicts w = [].
Proof.
  induction ws as [|w ws IH]; simpl; [set_solver|].
  destruct (findOwnershipConflicts w) eqn:E.
  - rewrite IH. set_solver.
  - split; [done|]. intros H. rewrite (H w) in E by set_solver. done.
Qed.

Lemma wave_schema_facts w :
  waveSchema (trimWave w) = true → phases w ≠ [] ∧ boundedBudgetSchema (budgetUsd w) = true.
Proof.
  unfold waveSchema. simpl. intros H. bools. split; [|done].
  destruct (phases w); done.
Qed.

(** [validatePlan_ok_iff] in one direction, for other proofs. *)
Lemma validatePlan_facts `{PlanObjectSchema} p q :
  validatePlan p = Ok q → q = trimPlan p ∧ planObjectSchema q = true ∧ planRules q.
Proof.
  unfold validatePlan. rewrite outcome_bind_ok. setoid_rewrite plan_object_parse_ok.
  intros (a & [-> Hok] & Hr). destruct (refinePlan (trimPlan p)) eqn:E; [|done].
  injection Hr as <-. by apply refinePlan_nil in E.
Qed.

Lemma validate_engine_plan `{PlanObjectSchema} plan : validate plan = Ok tt → engine_plan plan.
Proof.
  unfold validate. intros (q & (-> & Hobj & Hw & Hp & _)%validatePlan_facts & Ho)%outcome_bind_ok.
  pose proof (proj1 (validateOwnership_ok _) Ho) as Hown. unfold planObjectSchema in Hobj. bools.
  change (waves (trimPlan plan)) with (trimWave <$> waves plan) in *.
  cbn [trimPlan maxIterations maxCostUsd] in *.
  assert (Hws : ∀ w, w ∈ waves plan → waveSchema (trimWave w) = true).
  { intros w Hin. match goal with H : forallb waveSchema _ = true |- _ => rename H into Hf end.
    rewrite forallb_forall in Hf. apply Hf, list_elem_of_In, list_elem_of_fmap. eauto. }
  constructor; try done.
  - apply (NoDup_fmap_1 trim). rewrite <-list_fmap_compose in Hw. by rewrite <-list_fmap_compose.
  - apply (NoDup_fmap_1 trim). rewrite <-planPhaseIds_trim, planPhaseIds_bind, <-fmap_allPhases. done.
  - apply nonempty_spec. by destruct (waves plan).
  - intros w Hin. apply wave_schema_facts, Hws, Hin.
  - intros w Hin. apply wave_schema_facts, Hws, Hin.
Qed.

(** ** Finding phases *)

Lemma findPhaseIndex_spec pid phs :
  match findPhaseIndex pid phs with
  | Some i => (phaseId <$> phs) !! i = Some pid
  | None => pid ∉ phaseId <$> phs
  end.
Proof.
  induction phs as [|ph phs IH]; simpl; [set_solver|].
  case_bool_decide as E; [by subst|]. destruct (findPhaseIndex pid phs); simpl; [done|set_solver].
Qed.

Lemma wavePositions_lookup w i :
  wavePositions w !! i = (λ ph, (waveId w, phaseId ph)) <$> phases w !! i.
Proof. apply list_lookup_fmap. Qed.

(** The search of [nextPhase] is the successor in the sequence of positions. *)
Lemma nextPhaseFrom_successor plan pid ws : ∀ i p,
  (∀ w, w ∈ ws → phases w ≠ []) → NoDup ((ws ≫= wavePositions).*2) →
  (ws ≫= wavePositions) !! i = Some p → p.2 = pid →
  nextPhaseFrom plan pid ws = Ok ((ws ≫= wavePositions) !! S i).
Proof.
  induction ws as [|w ws IH]; intros i p Hne Hnd Hi Hp; [by destruct i|].
  rewrite bind_cons in *. rewrite fmap_app, NoDup_app, wavePositions_snd in Hnd.
  destruct Hnd as (Hnd & Hdisj & Hnd').
  assert (Hlen : length (wavePositions w) = length (phases w)) by apply length_fmap.
  simpl. pose proof (findPhaseIndex_spec pid (phases w)) as Hf.
  destruct (findPhaseIndex pid (phases w)) as [j|].
  - assert (i = j) as ->.
    { destruct (decide (i < length (wavePositions w))%nat) as [Hlt|Hge].
      - rewrite lookup_app_l in Hi by done. eapply NoDup_lookup; [exact Hnd| |exact Hf].
        rewrite <-wavePositions_snd, list_lookup_fmap, Hi. simpl. by f_equal.
      - rewrite lookup_app_r in Hi by lia. exfalso. apply (Hdisj pid).
        + by eapply list_elem_of_lookup_2.
        + apply list_elem_of_fmap. exists p. split; [done|]. by eapply list_elem_of_lookup_2. }
    assert (Hj : (j < length (phases w))%nat).
    { apply lookup_lt_Some in Hf. by rewrite length_fmap in Hf. }
    destruct (phases w !! S j) as [nx|] eqn:Hnx.
    + rewrite lookup_app_l by (rewrite Hlen; by eapply lookup_lt_Some).
      by rewrite wavePositions_lookup, Hnx.
    + apply lookup_ge_None in Hnx.
      rewrite lookup_app_r by lia. replace (S j - length (wavePositions w))%nat with 0%nat by lia.
      destruct ws as [|w' ws]; [done|]. rewrite bind_cons.
      destruct (phases w') as [|ph phs] eqn:Hph; [by destruct (Hne w'); [set_solver|]|].
      unfold wavePositions at 1. by rewrite Hph.
  - assert (length (wavePositions w) ≤ i)%nat.
    { apply Nat.nlt_ge. intros Hlt. rewrite lookup_app_l in Hi by done. apply Hf.
      change (phaseId <$> phases w) with (wavePhaseIds w). rewrite <-wavePositions_snd, list_elem_of_fmap.
      exists p. split; [done|]. by eapply list_elem_of_lookup_2. }
    rewrite lookup_app_r in Hi |- * by lia.
    replace (S i - length (wavePositions w))%nat with (S (i - length (wavePositions w))) by lia.
    eapply IH; eauto. intros w' ?. apply Hne. set_solver.
Qed.

Lemma nextPhaseFrom_missing plan pid ws :
  pid ∉ (ws ≫= wavePositions).*2 → nextPhaseFrom plan pid ws = phaseNotFound plan pid.
Proof.
  induction ws as [|w ws IH]; [done|]. rewrite bind_cons, fmap_app, wavePositions_snd. intros Hn.
  simpl. pose proof (findPhaseIndex_spec pid (phases w)) as Hf.
  destruct (findPhaseIndex pid (phases w)) as [j|].
  - apply list_elem_of_lookup_2 in Hf. exfalso. apply Hn, elem_of_app. by left.
  - apply IH. intros Hin. apply Hn, elem_of_app. by right.
Qed.

Lemma nextPhase_at plan i p :
  engine_plan plan → positions plan !! i = Some p →
  nextPhase plan p.2 = Ok (positions plan !! S i).
Proof.
  intros Hep Hi. eapply nextPhaseFrom_successor; eauto using ep_wave_nonempty.
  apply (ep_phases _ Hep).
Qed.

Lemma existsb_phase pid phs :
  existsb (λ candidate, bool_decide (phaseId candidate = pid)) phs = true ↔ pid ∈ phaseId <$> phs.
Proof.
  rewrite existsb_exists, list_elem_of_fmap. split.
  - intros (ph & Hin%list_elem_of_In & ?%bool_decide_eq_true). eauto.
  - intros (ph & -> & Hin). exists ph. split; [by apply list_elem_of_In|by apply bool_decide_eq_true].
Qed.

Lemma find_phase_ok phs pid :
  match List.find (λ candidate, bool_decide (phaseId candidate = pid)) phs with
  | Some ph => ph ∈ phs ∧ phaseId ph = pid
  | None => pid ∉ phaseId <$> phs
  end.
Proof.
  destruct (List.find _ phs) as [ph|] eqn:E.
  - apply List.find_some in E as [Hin ?%bool_decide_eq_true]. by rewrite list_elem_of_In.
  - intros (ph & -> & Hin)%list_elem_of_fmap. apply List.find_none with (x := ph) in E.
    + by apply bool_decide_eq_false in E.
    + by apply list_elem_of_In.
Qed.

(** The wave found for a phase is the wave of its position. *)
Lemma findWaveIn_at plan ws i p :
  NoDup ((ws ≫= wavePositions).*2) → (ws ≫= wavePositions) !! i = Some p →
  ∃ w, findWaveIn plan p.2 ws = Ok w ∧ w ∈ ws ∧ waveId w = p.1.
Proof.
  revert i. induction ws as [|w ws IH]; intros i Hnd Hi; [by destruct i|].
  rewrite bind_cons in *. rewrite fmap_app, NoDup_app, wavePositions_snd in Hnd.
  destruct Hnd as (_ & Hdisj & Hnd'). simpl.
  apply lookup_app_Some in Hi as [Hi|[Hge Hi]].
  - unfold wavePositions in Hi. rewrite list_lookup_fmap in Hi.
    apply fmap_Some in Hi as (ph & Hph & ->). simpl.
    replace (existsb _ _) with true; [exists w; set_solver|].
    symmetry. apply existsb_phase. apply list_elem_of_fmap. exists ph.
    split; [done|]. by eapply list_elem_of_lookup_2.
  - replace (existsb _ _) with false.
    + destruct (IH _ Hnd' Hi) as (w' & ? & ? & ?). exists w'. set_solver.
    + symmetry. apply not_true_is_false. rewrite existsb_phase. intros Hin.
      apply (Hdisj _ Hin), list_elem_of_fmap. exists p. split; [done|]. by eapply list_elem_of_lookup_2.
Qed.

Lemma findPhaseIn_in plan pid ws :
  pid ∈ (ws ≫= wavePositions).*2 → ∃ ph, findPhaseIn plan pid ws = Ok ph.
Proof.
  induction ws as [|w ws IH]; [set_solver|]. rewrite bind_cons, fmap_app, wavePositions_snd. intros Hin.
  simpl. pose proof (find_phase_ok (phases w) pid) as Hf.
  destruct (List.find _ _) as [ph|]; [eauto|].
  apply IH. apply elem_of_app in Hin as [?|?]; [done|done].
Qed.

(** Every phase of the plan has a gate decision. *)
Lemma isApprovalGated_in plan pid :
  pid ∈ planPhaseIds plan → ∃ b, isApprovalGated plan pid = Ok b.
Proof.
  intros Hin. destruct (findPhaseIn_in plan pid (waves plan) Hin) as [ph Hph].
  unfold isApprovalGated, findPhase. rewrite Hph. by eexists.
Qed.

Lemma firstPhase_at plan :
  engine_plan plan → ∃ p, positions plan !! 0%nat = Some p ∧ firstPhase plan = Ok p.
Proof.
  intros Hep. unfold positions, firstPhase.
  pose proof (ep_nonempty _ Hep) as Hne. pose proof (ep_wave_nonempty _ Hep) as Hw.
  destruct (waves plan) as [|w ws]; [done|]. rewrite bind_cons.
  assert (phases w ≠ []) as Hp by (apply Hw; set_solver). unfold wavePositions at 1.
  destruct (phases w) as [|ph phs]; [done|]. eexists. split; reflexivity.
Qed.

Lemma position_id plan i p : positions plan !! i = Some p → planPhaseIds plan !! i = Some p.2.
Proof. intros Hi. unfold planPhaseIds. by rewrite list_lookup_fmap, Hi. Qed.
