(* ===== verification/OrchestrationRuns.v ===== *)
(** * Histories of orchestration runs

    The executions of the engine: a run is created, then started, approved and
    advanced in any order the engine accepts.  The invariant of a run and what
    follows from it for every history. *)
From S2P Require Import Prelude.
From S2P Require Import JsString.
From S2P Require Import JsNumber.
From S2P Require Import JsTime.
From S2P Require Import Errors.
From S2P Require Import OrchestrationContracts.
From S2P Require Import Ownership.
From S2P Require Import PlanSchema.
From S2P Require Import OrchestrationEngine.

(** A successful call that a history records. *)
Inductive engine_event :=
  | Approved (pid : string)
  | Executed (pid : string) (cost : number).

Definition executed (h : list engine_event) : list (string * number) :=
  omap (λ e, match e with Executed pid cost => Some (pid, cost) | Approved _ => None end) h.

(** The costs of the executed phases of one wave, in order. *)
Definition costs_in (plan : OrchestrationPlan) (wid : string) (h : list engine_event) : list number :=
  (filter (λ e, (wid, e.1) ∈ positions plan) (executed h)).*2.

Definition sum_costs (cs : list number) : number := foldl num_add (num_of_Z 0) cs.

Section histories.
Context `{PlanObjectSchema} (plan : OrchestrationPlan).

(** [history r h]: the run [r] is reached from [createRun] by the calls [h]
    (and [startRun]); the clock and the costs are whatever the caller has. *)
Inductive history : OrchestrationRun → list engine_event → Prop :=
  | history_create uuid now r :
      createRun uuid now plan = Ok r → history r []
  | history_start r h r' :
      history r h → startRun plan r = Ok r' → history r' h
  | history_approve r h pid now r' :
      history r h → approvePhase plan r pid now = Ok r' → history r' (h ++ [Approved pid])
  | history_advance r h pid now cost r' :
      history r h → advancePhase plan r pid now cost = Ok r' →
      history r' (h ++ [Executed pid cost]).

(** No limit of the plan or of a wave has been reached. *)
Definition within_limits (r : OrchestrationRun) : Prop :=
  totalIterations r < maxIterations plan ∧
  num_ge (totalCostUsd r) (maxCostUsd plan) = false ∧
  ∀ w, w ∈ waves plan → shouldStopByWaveBudget w (waveCost r (waveId w)) = false.

(** A live run stands at the position after the executed ones. *)
Definition at_position (r : OrchestrationRun) (n : nat) (h : list engine_event) (b : bool) : Prop :=
  ∃ p, positions plan !! n = Some p ∧ currentWaveId r = Some p.1 ∧ currentPhaseId r = Some p.2 ∧
    isApprovalGated plan p.2 = Ok b ∧
    (status r = running → b = true → pendingApprovalPhaseId r = Some p.2 ∧ Approved p.2 ∈ h).

Definition status_inv (r : OrchestrationRun) (n : nat) (h : list engine_event) : Prop :=
  match status r with
  | queued => h = []
  | paused => at_position r n h true ∧ (length h ≤ 2 * n)%nat
  | running => (∃ b, at_position r n h b) ∧ (length h ≤ 2 * n + 1)%nat
  | completed => n = length (planPhaseIds plan) ∧ (length h ≤ 2 * n)%nat
  | stopped_by_limit => is_Some (stopReason r) ∧ (length h ≤ 2 * length (planPhaseIds plan))%nat
  | failed | cancelled => False
  end.

Record run_inv (r : OrchestrationRun) (h : list engine_event) : Prop := {
  ri_plan : engine_plan plan;
  ri_iterations : totalIterations r = Z.of_nat (length (executed h));
  ri_order : (executed h).*1 = take (length (executed h)) (planPhaseIds plan);
  ri_total : totalCostUsd r = sum_costs (executed h).*2;
  ri_wave wid : waveCost r wid = sum_costs (costs_in plan wid h);
  ri_status : status_inv r (length (executed h)) h;
  ri_limits : status r = queued ∨ status r = running ∨ status r = paused → within_limits r;
  ri_gate h1 pid c h2 : h = h1 ++ Executed pid c :: h2 → isApprovalGated plan pid = Ok true →
    Approved pid ∈ h1;
}.

Lemma executed_snoc_approved h pid : executed (h ++ [Approved pid]) = executed h.
Proof. unfold executed. rewrite omap_app. simpl. by rewrite app_nil_r. Qed.

Lemma executed_snoc h pid c : executed (h ++ [Executed pid c]) = executed h ++ [(pid, c)].
Proof. unfold executed. by rewrite omap_app. Qed.

Lemma sum_costs_snoc cs c : sum_costs (cs ++ [c]) = num_add (sum_costs cs) c.
Proof. unfold sum_costs. by rewrite foldl_app. Qed.

Lemma num_zero_not_ge x : num_gt x (num_of_Z 0) = true → num_ge (num_of_Z 0) x = false.
Proof. apply num_lt_not_ge. Qed.

(** ** What the successful calls do *)

Lemma run_init uuid now r : createRun uuid now plan = Ok r → run_inv r [].
Proof.
  unfold createRun. intros ([] & Hv & Hr)%outcome_bind_ok. injection Hr as <-.
  apply validate_engine_plan in Hv. constructor; try done.
  - intros _. split_and!.
    + apply (ep_iterations _ Hv).
    + apply num_zero_not_ge, (ep_cost _ Hv).
    + intros w _. unfold shouldStopByWaveBudget.
      destruct (num_gt (budgetUsd w) (num_of_Z 0)) eqn:E; [by apply num_zero_not_ge in E|done].
  - by intros [|].
Qed.

Lemma startRun_inv r r' p b :
  positions plan !! 0%nat = Some p → firstPhase plan = Ok p → isApprovalGated plan p.2 = Ok b →
  startRun plan r = Ok r' →
  status r = queued ∧
    r' = r <| status := if (b : bool) then paused else running |>
           <| currentWaveId := Some p.1 |> <| currentPhaseId := Some p.2 |> <| endedAt := None |>.
Proof.
  intros Hp Hf Hb Hs. unfold startRun in Hs.
  apply outcome_bind_ok in Hs as (? & _ & Hs). apply outcome_bind_ok in Hs as (? & Hq & Hs).
  apply throw_when_ok in Hq. bools. rewrite Hf in Hs. destruct p as [wid pid]. cbn in Hs, Hb.
  rewrite Hb in Hs. cbn in Hs. injection Hs as <-. done.
Qed.

Lemma approvePhase_inv r pid now r' :
  approvePhase plan r pid now = Ok r' →
  status r = paused ∧ currentPhaseId r = Some pid ∧ isApprovalGated plan pid = Ok true ∧
  totalIterations r' = totalIterations r ∧ totalCostUsd r' = totalCostUsd r ∧
  (∀ wid, waveCost r' wid = waveCost r wid) ∧
  (status r' = stopped_by_limit ∧ stopReason r' = Some plan_limit ∨
   status r' = running ∧ pendingApprovalPhaseId r' = Some pid ∧
   currentPhaseId r' = currentPhaseId r ∧ currentWaveId r' = currentWaveId r).
Proof.
  unfold approvePhase. intros Hs.
  apply outcome_bind_ok in Hs as (? & _ & Hs). apply outcome_bind_ok in Hs as (? & Hq & Hs).
  apply outcome_bind_ok in Hs as (? & Hc & Hs). apply outcome_bind_ok in Hs as (b & Hb & Hs).
  apply outcome_bind_ok in Hs as (? & Hg & Hs). apply throw_when_ok in Hq, Hc, Hg. bools. subst b.
  destruct (shouldStopByLimits _ _); injection Hs as <-; split_and!; try done; auto 10.
Qed.

Lemma waveCost_insert r costs wid c wid' :
  waveCostUsdByWaveId r = Some (<[wid := c]> costs) →
  waveCost r wid' = if decide (wid = wid') then c else default (num_of_Z 0) (costs !! wid').
Proof.
  intros Hr. unfold waveCost. rewrite Hr. simpl.
  destruct (decide (wid = wid')) as [<-|]; [by rewrite lookup_insert_eq|by rewrite lookup_insert_ne].
Qed.

(** The outcome of a successful advance from the phase at position [i]. *)
Definition advance_outcome (r r' : OrchestrationRun) (w : OrchestrationWave)
    (next : option (string * string)) : Prop :=
  match next with
  | None => status r' = completed
  | Some q =>
      status r' = stopped_by_limit ∧ is_Some (stopReason r') ∨
      ∃ b, isApprovalGated plan q.2 = Ok b ∧ status r' = (if b : bool then paused else running) ∧
        currentWaveId r' = Some q.1 ∧ currentPhaseId r' = Some q.2 ∧
        totalIterations r' < maxIterations plan ∧
        num_ge (totalCostUsd r') (maxCostUsd plan) = false ∧
        shouldStopByWaveBudget w (waveCost r' (waveId w)) = false
  end.

Lemma shouldStopByLimits_false st :
  shouldStopByLimits plan st = false →
  iterations st < maxIterations plan ∧ num_ge (costUsd st) (maxCostUsd plan) = false.
Proof. unfold shouldStopByLimits. intros H'. bools. done. Qed.

Lemma advanceFromPhase_inv i p r now c r' :
  engine_plan plan → positions plan !! i = Some p →
  advanceFromPhase plan r p.2 now c = Ok r' →
  ∃ w, w ∈ waves plan ∧ waveId w = p.1 ∧
    totalIterations r' = totalIterations r + 1 ∧
    totalCostUsd r' = num_add (totalCostUsd r) c ∧
    (∀ wid, waveCost r' wid = if decide (p.1 = wid) then num_add (waveCost r wid) c else waveCost r wid) ∧
    advance_outcome r r' w (positions plan !! S i).
Proof.
  intros Hep Hi Hs. unfold advanceFromPhase in Hs.
  rewrite (nextPhase_at plan i p Hep Hi) in Hs. cbn [mbind outcome_bind] in Hs.
  destruct (findWaveIn_at plan (waves plan) i p (ep_phases _ Hep) Hi) as (w & Hw & Hin & Hid).
  unfold findWaveForPhase in Hs. rewrite Hw in Hs. cbn [mbind outcome_bind] in Hs.
  exists w. split; [done|]. split; [done|]. rewrite Hid in Hs.
  assert (Hcost : ∀ rr, waveCostUsdByWaveId rr =
      Some (<[p.1 := num_add (waveCost r p.1) c]> (default ∅ (waveCostUsdByWaveId r))) →
    ∀ wid, waveCost rr wid = if decide (p.1 = wid) then num_add (waveCost r wid) c else waveCost r wid).
  { intros rr Hr wid. rewrite (waveCost_insert _ _ _ _ _ Hr).
    destruct (decide (p.1 = wid)) as [<-|]; [done|].
    unfold waveCost. destruct (waveCostUsdByWaveId r); simpl; [done|by rewrite lookup_empty]. }
  destruct (positions plan !! S i) as [q|]; simpl in Hs.
  - apply outcome_bind_ok in Hs as (st & Hg & Hs). apply outcome_bind_ok in Hg as (b & Hb & [= <-]).
    destruct (shouldStopByLimits _ _) eqn:Hlim; [|destruct (shouldStopByWaveBudget _ _) eqn:Hwb];
      injection Hs as <-; (split; [done|]); (split; [done|]); (split; [by apply Hcost|]).
    + left. split; [done|by eexists].
    + left. split; [done|by eexists].
    + right. exists b. apply shouldStopByLimits_false in Hlim as [??]. split_and!; try done.
      rewrite Hcost by done. rewrite Hid. by rewrite decide_True.
  - injection Hs as <-. split_and!; try done. by apply Hcost.
Qed.

Lemma advancePhase_inv r pid now c r' :
  advancePhase plan r pid now c = Ok r' →
  status r = running ∧ currentPhaseId r = Some pid ∧
  (isApprovalGated plan pid = Ok true → pendingApprovalPhaseId r = Some pid) ∧
  advanceFromPhase plan r pid now c = Ok r'.
Proof.
  unfold advancePhase. intros Hs.
  apply outcome_bind_ok in Hs as (? & _ & Hs). apply outcome_bind_ok in Hs as (? & Hq & Hs).
  apply outcome_bind_ok in Hs as (? & Hc & Hs). apply outcome_bind_ok in Hs as (b & Hb & Hs).
  apply outcome_bind_ok in Hs as (? & Hg & Hs). apply throw_when_ok in Hq, Hc, Hg. bools.
  split_and!; try done. rewrite Hb. intros [= ->]. simpl in Hg. by bools.
Qed.

(** ** The invariant is kept *)

Lemma gate_snoc h e :
  (∀ h1 pid c h2, h = h1 ++ Executed pid c :: h2 → isApprovalGated plan pid = Ok true → Approved pid ∈ h1) →
  (∀ pid c, e = Executed pid c → isApprovalGated plan pid = Ok true → Approved pid ∈ h) →
  ∀ h1 pid c h2, h ++ [e] = h1 ++ Executed pid c :: h2 → isApprovalGated plan pid = Ok true →
    Approved pid ∈ h1.
Proof.
  intros Hh He h1 pid c h2 Heq Hg. destruct h2 as [|e' h2 _] using rev_ind.
  - apply app_inj_tail in Heq as [<- ->]. eauto.
  - rewrite app_comm_cons, app_assoc in Heq. apply app_inj_tail in Heq as [-> _]. eauto.
Qed.

Lemma start_inv r h r' : run_inv r h → startRun plan r = Ok r' → run_inv r' h.
Proof.
  intros Hinv Hs. pose proof (ri_plan _ _ Hinv) as Hep.
  destruct (firstPhase_at plan Hep) as (p & Hp & Hf).
  destruct (isApprovalGated_in plan p.2) as [b Hb].
  { by eapply list_elem_of_lookup_2, position_id. }
  destruct (startRun_inv _ _ _ _ Hp Hf Hb Hs) as [Hq ->].
  destruct Hinv as [_ Hit Ho Ht Hw Hst Hl Hg]. unfold status_inv in Hst. rewrite Hq in Hst. subst h.
  specialize (Hl (or_introl Hq)). constructor; try done.
  unfold status_inv. destruct b; simpl.
  - split; [|lia]. exists p. split_and!; done.
  - split; [|lia]. exists false. exists p. split_and!; done.
Qed.

Lemma approve_inv r h pid now r' :
  run_inv r h → approvePhase plan r pid now = Ok r' → run_inv r' (h ++ [Approved pid]).
Proof.
  intros [Hep Hit Ho Ht Hw Hst Hl Hg] Hs.
  apply approvePhase_inv in Hs as (Hp & Hc & Hgate & Hit' & Hcost' & Hwc' & Hout).
  unfold status_inv in Hst. rewrite Hp in Hst. destruct Hst as [(p & Hpos & Hwid & Hpid & Hb & _) Hlen].
  assert (Hn : (length (executed h) < length (planPhaseIds plan))%nat).
  { apply position_id in Hpos. by eapply lookup_lt_Some. }
  assert (p.2 = pid) as <- by congruence.
  constructor; rewrite ?executed_snoc_approved, ?Hit', ?Hcost'; try done.
  - intros wid. rewrite Hwc', Hw. unfold costs_in. by rewrite executed_snoc_approved.
  - unfold status_inv. rewrite length_app. simpl. destruct Hout as [[-> ->]|(-> & Hpend & Hc' & Hw')].
    + split; [by eexists|lia].
    + split; [|lia]. exists true, p. split_and!; try done; [congruence|congruence|].
      intros _ _. split; [done|]. apply elem_of_app. right. set_solver.
  - intros _. destruct (Hl (or_intror (or_intror Hp))) as (? & ? & Hwb).
    unfold within_limits. rewrite Hit', Hcost'. split_and!; try done.
    intros w Hin. rewrite Hwc'. auto.
  - apply gate_snoc; [done|]. done.
Qed.

Lemma position_wave i p wid :
  engine_plan plan → positions plan !! i = Some p → (wid, p.2) ∈ positions plan ↔ p.1 = wid.
Proof.
  intros Hep Hi. split; [|intros <-; destruct p; by eapply list_elem_of_lookup_2].
  intros [j Hj]%list_elem_of_lookup. assert (j = i) as ->.
  { eapply (NoDup_lookup (planPhaseIds plan)); [apply (ep_phases _ Hep)| |by apply position_id].
    apply position_id in Hj. done. }
  rewrite Hi in Hj. injection Hj as ->. done.
Qed.

Lemma costs_in_snoc i p wid h c :
  engine_plan plan → positions plan !! i = Some p →
  sum_costs (costs_in plan wid (h ++ [Executed p.2 c])) =
    if decide (p.1 = wid) then num_add (sum_costs (costs_in plan wid h)) c
    else sum_costs (costs_in plan wid h).
Proof.
  intros Hep Hi. unfold costs_in. rewrite executed_snoc, filter_app, fmap_app, filter_cons. cbn [fst].
  pose proof (position_wave i p wid Hep Hi) as Hw.
  destruct (decide (p.1 = wid)) as [E|E].
  - rewrite decide_True by (by apply Hw). rewrite filter_nil. apply sum_costs_snoc.
  - rewrite decide_False by (by rewrite Hw). rewrite filter_nil. simpl. by rewrite app_nil_r.
Qed.

Lemma wave_unique w w' :
  engine_plan plan → w ∈ waves plan → w' ∈ waves plan → waveId w' = waveId w → w = w'.
Proof.
  intros Hep [i Hi]%list_elem_of_lookup [j Hj]%list_elem_of_lookup Heq.
  assert (i = j) as ->; [|congruence].
  eapply (NoDup_lookup (waveId <$> waves plan)); [apply (ep_waves _ Hep)| |];
    rewrite list_lookup_fmap; [by rewrite Hi|by rewrite Hj, <-Heq].
Qed.

(** The shape of a running run: where it stands, and what [advancePhase]
    accepts. *)
Lemma advance_position r h pid now c r' :
  run_inv r h → advancePhase plan r pid now c = Ok r' →
  ∃ p b, positions plan !! length (executed h) = Some p ∧ p.2 = pid ∧
    isApprovalGated plan pid = Ok b ∧ (b = true → Approved pid ∈ h) ∧
    (length h ≤ 2 * length (executed h) + 1)%nat ∧
    advanceFromPhase plan r p.2 now c = Ok r' ∧ within_limits r.
Proof.
  intros [Hep _ _ _ _ Hst Hl _] Hs. apply advancePhase_inv in Hs as (Hr & Hc & _ & Hs).
  unfold status_inv in Hst. rewrite Hr in Hst. destruct Hst as [(b & p & Hpos & _ & Hpid & Hb & Hpend) Hlen].
  assert (p.2 = pid) as <- by congruence. exists p, b.
  assert (Hlim : within_limits r) by (apply Hl; auto).
  split; [done|]. split; [done|]. split; [done|]. split; [|done]. intros ->. by apply Hpend.
Qed.

Lemma advance_inv r h pid now c r' :
  run_inv r h → advancePhase plan r pid now c = Ok r' → run_inv r' (h ++ [Executed pid c]).
Proof.
  intros Hinv Hs. destruct (advance_position _ _ _ _ _ _ Hinv Hs)
    as (p & b & Hpos & <- & Hb & Happ & Hlen & Hadv & _ & _ & Hwb). clear Hs.
  destruct Hinv as [Hep Hit Ho Ht Hw _ _ Hg].
  pose proof (position_id _ _ _ Hpos) as Hid. pose proof (lookup_lt_Some _ _ _ Hid) as Hlt.
  destruct (advanceFromPhase_inv _ _ _ _ _ _ Hep Hpos Hadv) as (w & Hin & Hwid & Hit' & Ht' & Hw' & Hout).
  constructor; rewrite ?executed_snoc, ?fmap_app, ?length_app; simpl; try done.
  - lia.
  - rewrite Ho, Nat.add_1_r. symmetry. by apply take_S_r.
  - by rewrite Ht', Ht, sum_costs_snoc.
  - intros wid. rewrite Hw', (costs_in_snoc _ _ _ _ _ Hep Hpos), Hw. done.
  - unfold status_inv, advance_outcome in *. rewrite !length_app. simpl.
    destruct (positions plan !! S _) as [q|] eqn:Hq.
    + destruct Hout as [(-> & ?)|(b' & Hb' & Hst' & Hqw & Hqp & _)]; [split; [done|lia]|]. rewrite Hst'.
      rewrite Nat.add_1_r. destruct b'.
      * split; [|lia]. exists q. split_and!; try done. by rewrite Hst'.
      * split; [|lia]. exists false, q. split_and!; done.
    + rewrite Hout. apply lookup_ge_None in Hq.
      assert (length (planPhaseIds plan) = length (positions plan)) by apply length_fmap. split; lia.
  - intros Hlive. destruct (positions plan !! S _) as [q|]; simpl in Hout.
    + destruct Hout as [[Hs' _]|(b' & _ & _ & _ & _ & Hl1 & Hl2 & Hl3)];
        [rewrite Hs' in Hlive; naive_solver|].
      split_and!; [done|done|]. intros w' Hw'in.
      destruct (decide (waveId w = waveId w')) as [Heq|Hne].
      * by rewrite (wave_unique w' w).
      * rewrite Hw', decide_False by congruence. by apply Hwb.
    + rewrite Hout in Hlive. naive_solver.
  - apply gate_snoc; [done|]. intros ?? [= <- <-] Hg'. apply Happ. congruence.
Qed.

Lemma history_inv r h : history r h → run_inv r h.
Proof. induction 1; eauto using run_init, start_inv, approve_inv, advance_inv. Qed.

Lemma history_valid r h : history r h → validate plan = Ok tt.
Proof.
  induction 1 as [uuid now r Hc| | |]; try done.
  unfold createRun in Hc. by apply outcome_bind_ok in Hc as ([] & ? & _).
Qed.

Lemma executed_le r h : run_inv r h → (length (executed h) ≤ length (planPhaseIds plan))%nat.
Proof.
  intros Hinv. pose proof (f_equal length (ri_order _ _ Hinv)) as Hlen.
  rewrite length_fmap, length_take in Hlen. lia.
Qed.

(** ** What the invariant gives for every history *)

(** C10. The phases a run has executed are the first phases of the plan, wave
    by wave and in the order written, none of them twice; the iteration
    counter is their number, and a completed run has executed them all. *)
Theorem run_executes_plan_in_order r h :
  history r h →
  (executed h).*1 `prefix_of` planPhaseIds plan ∧ NoDup (executed h).*1 ∧
  totalIterations r = Z.of_nat (length (executed h)) ∧
  (status r = completed → (executed h).*1 = planPhaseIds plan).
Proof.
  intros Hh%history_inv. pose proof (ri_order _ _ Hh) as Ho. rewrite Ho. split_and!.
  - apply prefix_take.
  - apply sublist_NoDup with (planPhaseIds plan); [apply (ep_phases _ (ri_plan _ _ Hh))|apply sublist_take].
  - apply (ri_iterations _ _ Hh).
  - intros Hc. pose proof (ri_status _ _ Hh) as Hst. unfold status_inv in Hst.
    rewrite Hc in Hst. destruct Hst as [-> _]. apply take_ge. lia.
Qed.

(** C11. A phase that is gated (every phase of an [hitl] plan, and every phase
    marked [requiresApproval]) is executed only after an approval of that
    very phase. *)
Theorem gated_phase_executes_after_approval r h h1 pid c h2 :
  history r h → h = h1 ++ Executed pid c :: h2 → isApprovalGated plan pid = Ok true →
  Approved pid ∈ h1.
Proof. intros Hh%history_inv. apply (ri_gate _ _ Hh). Qed.

(** C12. A run that may still do work (queued, running or paused) has reached
    none of its limits: its iterations are below the plan's, its cost is not
    at the plan's cost limit, and no wave has used up its budget; so
    [listLimitOverruns] can report no cost overrun for it. *)
Theorem live_run_within_limits r h clock now :
  history r h → status r = queued ∨ status r = running ∨ status r = paused →
  within_limits r ∧
  ∀ o, o ∈ listLimitOverruns clock plan r now → ∃ m t, o = runtime_overrun m t.
Proof.
  intros Hh%history_inv Hlive. pose proof (ri_limits _ _ Hh Hlive) as Hl. split; [done|].
  destruct Hl as (_ & Hcost & Hwave).
  assert (Hgt : ∀ x y, num_ge x y = false → num_gt x y = false).
  { intros x y. unfold num_ge, num_gt, SFltb, SFleb. by destruct (SFcompare y x) as [[]|]. }
  intros o. unfold listLimitOverruns. rewrite Hgt by done. simpl.
  intros [Ho|Ho]%elem_of_app.
  - apply list_elem_of_bind in Ho as (w & Ho & Hin). specialize (Hwave w Hin).
    unfold shouldStopByWaveBudget in Hwave.
    destruct (num_gt (budgetUsd w) _); simpl in *; [rewrite Hgt in Ho by done|]; set_solver.
  - destruct (num_gt _ _); [|set_solver]. apply list_elem_of_singleton in Ho. eauto.
Qed.

(** The money is accounted for: the run's total is the sum of the costs
    of its executed phases in order, and the amount attributed to a wave is
    the sum of the costs of the executed phases that belong to that wave,
    whatever wave the run was advancing into. *)
Theorem run_cost_accounting r h :
  history r h →
  totalCostUsd r = foldl num_add (num_of_Z 0) (executed h).*2 ∧
  ∀ wid, waveCost r wid =
    foldl num_add (num_of_Z 0) (filter (λ e, (wid, e.1) ∈ positions plan) (executed h)).*2.
Proof. intros Hh%history_inv. split; [apply (ri_total _ _ Hh)|apply (ri_wave _ _ Hh)]. Qed.

Lemma approve_accepts r pid now :
  validate plan = Ok tt → status r = paused → currentPhaseId r = Some pid →
  isApprovalGated plan pid = Ok true → is_ok (approvePhase plan r pid now) = true.
Proof.
  intros Hv Hs Hc Hg. unfold approvePhase. rewrite Hv, Hs, Hc, Hg. simpl.
  rewrite (bool_decide_eq_true_2 (Some pid = Some pid)) by done. simpl.
  by destruct (shouldStopByLimits _ _).
Qed.

Lemma advance_accepts i p r now c :
  validate plan = Ok tt → positions plan !! i = Some p → status r = running →
  currentPhaseId r = Some p.2 →
  (isApprovalGated plan p.2 = Ok true → pendingApprovalPhaseId r = Some p.2) →
  is_ok (advancePhase plan r p.2 now c) = true.
Proof.
  intros Hv Hi Hs Hc Hg. pose proof (validate_engine_plan _ Hv) as Hep. unfold advancePhase.
  rewrite Hv, Hs, Hc. simpl. rewrite (bool_decide_eq_true_2 (Some p.2 = Some p.2)) by done. simpl.
  destruct (isApprovalGated_in plan p.2) as [b Hb]; [by eapply list_elem_of_lookup_2, position_id|].
  rewrite Hb. simpl. replace (b && _) with false; simpl.
  2: { destruct b; [|done]. rewrite Hg by done. by rewrite bool_decide_eq_true_2. }
  unfold advanceFromPhase. rewrite (nextPhase_at plan i p Hep Hi). simpl.
  destruct (findWaveIn_at plan (waves plan) i p (ep_phases _ Hep) Hi) as (w & Hw & _).
  unfold findWaveForPhase. rewrite Hw. simpl. destruct (positions plan !! S i) as [q|] eqn:Hq; [|done].
  simpl. destruct (isApprovalGated_in plan q.2) as [b' Hb']; [by eapply list_elem_of_lookup_2, position_id|].
  rewrite Hb'. simpl. by repeat case_match.
Qed.

(** C13. Every run ends: a history has at most two calls per phase of the plan
    (an approval and an execution), and as long as the run is queued, paused
    or running the engine accepts the next call, whatever the clock and the
    reported cost are. So a run is driven to [completed] or
    [stopped_by_limit], never stuck and never looping. *)
Theorem run_terminates_and_progresses r h :
  history r h →
  (length h ≤ 2 * length (planPhaseIds plan))%nat ∧
  (status r = queued ∧ is_ok (startRun plan r) = true ∨
   (∃ pid, status r = paused ∧ ∀ now, is_ok (approvePhase plan r pid now) = true) ∨
   (∃ pid, status r = running ∧ ∀ now c, is_ok (advancePhase plan r pid now c) = true) ∨
   status r = completed ∨ status r = stopped_by_limit).
Proof.
  intros Hh. pose proof (history_valid _ _ Hh) as Hv. apply history_inv in Hh.
  pose proof (executed_le _ _ Hh) as Hle. pose proof (ri_status _ _ Hh) as Hst.
  assert (Hlt : ∀ p, positions plan !! length (executed h) = Some p →
    (length (executed h) < length (planPhaseIds plan))%nat).
  { intros p Hp%position_id. by eapply lookup_lt_Some. }
  unfold status_inv in Hst. destruct (status r) eqn:Hs; try done.
  - subst h. split; [simpl; lia|]. left. split; [done|]. unfold startRun. rewrite Hv, Hs. simpl.
    destruct (firstPhase_at plan (ri_plan _ _ Hh)) as ([wid pid] & Hp & ->). simpl.
    destruct (isApprovalGated_in plan pid) as [b ->]; [|done].
    apply position_id in Hp. by eapply list_elem_of_lookup_2.
  - destruct Hst as [(b & p & Hp & _ & Hc & Hb & Hpend) Hlen]. specialize (Hlt p Hp). split; [lia|].
    right; right; left. exists p.2. split; [done|]. intros. eapply advance_accepts; try done.
    intros Hb'. apply Hpend; [done|congruence].
  - destruct Hst as [(p & Hp & _ & Hc & Hb & Hpend) Hlen]. specialize (Hlt p Hp). split; [lia|].
    right; left. exists p.2. split; [done|]. intros. by apply approve_accepts.
  - split; [lia|]. auto.
  - split; [lia|]. auto 10.
Qed.

(** [nextPhase] is the successor in the plan's execution order: from the
    phase at position [i] it leads to the one at position [i + 1] with its
    wave, or to nothing after the last; a phase the plan does not have is an
    error. *)
Theorem nextPhase_is_successor pid :
  validate plan = Ok tt →
  match list_find (λ p, p.2 = pid) (positions plan) with
  | Some (i, _) => nextPhase plan pid = Ok (positions plan !! S i)
  | None => nextPhase plan pid = Err (JsError ("Phase " +:+ pid +:+ " not found in plan " +:+ planId plan))
  end.
Proof.
  intros Hep%validate_engine_plan. destruct (list_find _ _) as [[i p]|] eqn:E.
  - apply list_find_Some in E as (Hi & <- & _). by apply nextPhase_at.
  - apply list_find_None in E. apply nextPhaseFrom_missing.
    rewrite list_elem_of_fmap. intros (p & -> & Hin). rewrite Forall_forall in E. by apply (E p).
Qed.

Lemma is_ok_spec {E A} (x : outcome E A) : is_ok x = true ↔ ∃ a, x = Ok a.
Proof. destruct x; naive_solver. Qed.

Lemma isApprovalGated_found pid b : isApprovalGated plan pid = Ok b → pid ∈ planPhaseIds plan.
Proof.
  unfold isApprovalGated, findPhase, planPhaseIds, positions.
  intros (ph & Hf & _)%outcome_bind_ok. induction (waves plan) as [|w ws IH]; [done|]. simpl in Hf.
  rewrite bind_cons, fmap_app, wavePositions_snd, elem_of_app.
  pose proof (find_phase_ok (phases w) pid) as Hs. destruct (List.find _ _) as [ph'|]; [|auto].
  destruct Hs as [Hin <-]. left. by apply list_elem_of_fmap_2.
Qed.

(** The calls the engine accepts are exactly these, and every other call
    throws: start a queued run; approve the current phase of a paused run
    when that phase is gated; advance the current phase of a running run,
    when it is a phase of the plan and, if gated, approved. *)
Theorem accepted_calls r pid now c :
  validate plan = Ok tt →
  (is_ok (startRun plan r) = true ↔ status r = queued) ∧
  (is_ok (approvePhase plan r pid now) = true ↔
    status r = paused ∧ currentPhaseId r = Some pid ∧ isApprovalGated plan pid = Ok true) ∧
  (is_ok (advancePhase plan r pid now c) = true ↔
    status r = running ∧ currentPhaseId r = Some pid ∧ pid ∈ planPhaseIds plan ∧
    (isApprovalGated plan pid = Ok true → pendingApprovalPhaseId r = Some pid)).
Proof.
  intros Hv. pose proof (validate_engine_plan _ Hv) as Hep. split_and!.
  - unfold startRun. rewrite Hv. simpl. destruct (firstPhase_at plan Hep) as ([wid p1] & Hp & ->).
    destruct (isApprovalGated_in plan p1) as [b Hb]; [by eapply list_elem_of_lookup_2, (position_id _ _ (wid, p1))|].
    case_bool_decide; simpl; [|done]. rewrite Hb. done.
  - split; [|intros (? & ? & ?); by apply approve_accepts].
    intros [r' Ha]%is_ok_spec. apply approvePhase_inv in Ha. tauto.
  - split.
    + intros [r' Ha]%is_ok_spec. unfold advancePhase in Ha. pose proof Ha as Ha'.
      apply advancePhase_inv in Ha as (? & ? & ? & _). split_and!; try done.
      apply outcome_bind_ok in Ha' as (? & _ & Ha). apply outcome_bind_ok in Ha as (? & _ & Ha).
      apply outcome_bind_ok in Ha as (? & _ & Ha). apply outcome_bind_ok in Ha as (b & Hb & _).
      by apply isApprovalGated_found in Hb.
    + intros (? & ? & Hin & ?). unfold planPhaseIds in Hin.
      apply list_elem_of_fmap in Hin as (p & -> & [i Hi]%list_elem_of_lookup).
      by eapply advance_accepts.
Qed.
End histories.

(** ** A concrete plan: two waves, a gated second phase, a budgeted first wave *)

Definition samplePlan : OrchestrationPlan := {|
  planId := "plan-1"; goal := "ship it"; mode := auto_mode;
  maxIterations := 5; maxRuntimeMinutes := 60; maxCostUsd := num_of_Z 10;
  waves := [
    mkWave "w1" [] (num_of_Z 4) [mkOwner "a1" ["src/app"]; mkOwner "a2" ["docs/*.md"]]
      [mkPhase "p1" "a1" "specs/p1.md" fresh_context false;
       mkPhase "p2" "a2" "specs/p2.md" fresh_context true];
    mkWave "w2" ["p1"] (num_of_Z 0) [mkOwner "a1" ["src"]]
      [mkPhase "p3" "a1" "specs/p3.md" compaction false]];
|}.

Definition outcome_get {E A} (d : A) (x : outcome E A) : A :=
  match x with Ok a => a | Err _ => d end.

Definition sampleNow : string := "2026-01-01T00:05:00.000Z".
Definition sampleRun0 : OrchestrationRun :=
  outcome_get (mkRun (mkPolicyContext None None None None None None) "" "" failed "" None None None S754_nan
    0 None None None None None None None None None None None None None None)
    (createRun "run-1" "2026-01-01T00:00:00.000Z" samplePlan).
Definition sampleRun1 : OrchestrationRun := outcome_get sampleRun0 (startRun samplePlan sampleRun0).
Definition sampleRun2 : OrchestrationRun :=
  outcome_get sampleRun1 (advancePhase samplePlan sampleRun1 "p1" sampleNow (num_of_Z 1)).
Definition sampleRun3 : OrchestrationRun :=
  outcome_get sampleRun2 (approvePhase samplePlan sampleRun2 "p2" sampleNow).
Definition sampleRun4 : OrchestrationRun :=
  outcome_get sampleRun3 (advancePhase samplePlan sampleRun3 "p2" sampleNow (num_of_Z 2)).
Definition sampleHistory : list engine_event :=
  [Executed "p1" (num_of_Z 1); Approved "p2"; Executed "p2" (num_of_Z 2)].

Lemma outcome_get_ok {E A} (d : A) (x : outcome E A) : is_ok x = true → x = Ok (outcome_get d x).
Proof. by destruct x. Qed.

Lemma sample_history : history samplePlan sampleRun4 sampleHistory.
Proof.
  apply (history_advance _ sampleRun3 [Executed "p1" (num_of_Z 1); Approved "p2"]) with sampleNow;
    [|apply outcome_get_ok; vm_compute; reflexivity].
  apply (history_approve _ sampleRun2 [Executed "p1" (num_of_Z 1)]) with sampleNow;
    [|apply outcome_get_ok; vm_compute; reflexivity].
  apply (history_advance _ sampleRun1 []) with sampleNow; [|apply outcome_get_ok; vm_compute; reflexivity].
  apply history_start with sampleRun0; [|apply outcome_get_ok; vm_compute; reflexivity].
  eapply history_create. apply outcome_get_ok. vm_compute; reflexivity.
Qed.

Example sample_run_is_live : status sampleRun4 = running.
Proof. vm_compute. reflexivity. Qed.

Lemma run_executes_plan_in_order_witness :
  (executed sampleHistory).*1 = ["p1"; "p2"] ∧ (executed sampleHistory).*1 `prefix_of` planPhaseIds samplePlan.
Proof. split; [reflexivity|apply (run_executes_plan_in_order _ _ _ sample_history)]. Defined.

Lemma gated_phase_executes_after_approval_witness :
  Approved "p2" ∈ [Executed "p1" (num_of_Z 1); Approved "p2"].
Proof.
  apply (gated_phase_executes_after_approval samplePlan _ _ _ "p2" (num_of_Z 2) [] sample_history);
    vm_compute; reflexivity.
Defined.

Lemma live_run_within_limits_witness : within_limits samplePlan sampleRun4.
Proof.
  apply (live_run_within_limits samplePlan _ _ sampleNow None sample_history).
  right; left. apply sample_run_is_live.
Defined.

Lemma run_cost_accounting_witness :
  totalCostUsd sampleRun4 = num_add (num_add (num_of_Z 0) (num_of_Z 1)) (num_of_Z 2).
Proof.
  destruct (run_cost_accounting samplePlan _ _ sample_history) as [Ht _].
  rewrite Ht. vm_compute. reflexivity.
Defined.

Lemma run_terminates_and_progresses_witness :
  (length sampleHistory ≤ 2 * length (planPhaseIds samplePlan))%nat.
Proof. apply (run_terminates_and_progresses samplePlan _ _ sample_history). Defined.

Lemma nextPhase_is_successor_witness :
  validate samplePlan = Ok tt ∧ nextPhase samplePlan "p2" = Ok (Some ("w2", "p3")).
Proof.
  assert (validate samplePlan = Ok tt) as Hv by (vm_compute; reflexivity).
  split; [exact Hv|]. exact (nextPhase_is_successor samplePlan "p2" Hv).
Defined.

Lemma accepted_calls_witness :
  is_ok (startRun samplePlan sampleRun0) = true.
Proof.
  assert (validate samplePlan = Ok tt) as Hv by (vm_compute; reflexivity).
  apply (accepted_calls samplePlan sampleRun0 "p1" sampleNow (num_of_Z 0) Hv). vm_compute. reflexivity.
Defined.

Lemma validatePlan_ok_iff_witness : validatePlan samplePlan = Ok (trimPlan samplePlan).
Proof.
  apply validatePlan_ok_iff. split; [reflexivity|]. split; [vm_compute; reflexivity|].
  apply refinePlan_nil. vm_compute. reflexivity.
Defined.
