(* ===== verification/JsJson.v ===== *)
(** * JSON texts as the JavaScript source uses them

    [json_stringify] is [JSON.stringify] and [json_parse] is [JSON.parse] on the
    alphabet of JsString.  A number is kept as the literal it is written with;
    the fields of an object are in enumeration order. *)
From S2P Require Import Prelude.
From S2P Require Import JsNumber.
From S2P Require Import JsString.

Inductive json : Type :=
  | JNull
  | JBool (b : bool)
  | JNumber (literal : string)
  | JString (s : string)
  | JArray (elements : list json)
  | JObject (fields : list (string * json)).

(** ** Writing *)

Definition hex_digit (n : N) : ascii :=
  ascii_of_N (if (n <? 10)%N then n + 48 else n + 87).

(** The escape of one code unit inside a string literal. *)
Definition escape_char (c : ascii) (rest : string) : string :=
  let n := N_of_ascii c in
  if Ascii.eqb c dquote then String backslash (String dquote rest)
  else if Ascii.eqb c backslash then String backslash (String backslash rest)
  else if (n =? 8)%N then String backslash (String "b" rest)
  else if (n =? 9)%N then String backslash (String "t" rest)
  else if (n =? 10)%N then String backslash (String "n" rest)
  else if (n =? 12)%N then String backslash (String "f" rest)
  else if (n =? 13)%N then String backslash (String "r" rest)
  else if (n <? 32)%N then
    String backslash (String "u" (String "0" (String "0"
      (String (hex_digit (n / 16)) (String (hex_digit (n mod 16)) rest)))))
  else String c rest.

Fixpoint escape (s rest : string) : string :=
  match s with
  | EmptyString => String dquote rest
  | String c s' => escape_char c (escape s' rest)
  end.

(** A string literal in front of [rest]. *)
Definition quote (s rest : string) : string := String dquote (escape s rest).

(** [JSON.stringify(v)] in front of [rest]. *)
Fixpoint write_json (v : json) (rest : string) : string :=
  match v with
  | JNull => "null" +:+ rest
  | JBool b => (if b then "true" else "false") +:+ rest
  | JNumber literal => literal +:+ rest
  | JString s => quote s rest
  | JArray [] => "[]" +:+ rest
  | JArray (x :: xs) =>
      String "[" (write_json x
        ((fix go (l : list json) : string :=
            match l with
            | [] => String "]" rest
            | y :: l' => String "," (write_json y (go l'))
            end) xs))
  | JObject [] => "{}" +:+ rest
  | JObject ((k, x) :: xs) =>
      String "{" (quote k (String ":" (write_json x
        ((fix go (l : list (string * json)) : string :=
            match l with
            | [] => String "}" rest
            | (k', y) :: l' => String "," (quote k' (String ":" (write_json y (go l'))))
            end) xs))))
  end.

Definition json_stringify (v : json) : string := write_json v "".

(** ** Reading *)

Definition is_json_space (c : ascii) : bool :=
  let n := N_of_ascii c in ((n =? 32) || (n =? 9) || (n =? 10) || (n =? 13))%N.

Fixpoint skip_space (s : string) : string :=
  match s with
  | String c s' => if is_json_space c then skip_space s' else s
  | EmptyString => EmptyString
  end.

Definition hex_value (c : ascii) : option N :=
  let n := N_of_ascii c in
  if ((48 <=? n) && (n <=? 57))%N then Some (n - 48)%N
  else if ((97 <=? n) && (n <=? 102))%N then Some (n - 87)%N
  else if ((65 <=? n) && (n <=? 70))%N then Some (n - 55)%N
  else None.

Definition cons_char (c : ascii) (r : option (string * string)) : option (string * string) :=
  '(s, rest) ← r; Some (String c s, rest).

(** The characters of a string literal up to its closing quote. *)
Fixpoint read_chars (s : string) : option (string * string) :=
  match s with
  | EmptyString => None
  | String c s1 =>
      if Ascii.eqb c dquote then Some (EmptyString, s1)
      else if Ascii.eqb c backslash then
        match s1 with
        | EmptyString => None
        | String e s2 =>
            if Ascii.eqb e "u" then
              match s2 with
              | String z1 (String z2 (String h1 (String h2 s3))) =>
                  if Ascii.eqb z1 "0" && Ascii.eqb z2 "0" then
                    match hex_value h1, hex_value h2 with
                    | Some a, Some b => cons_char (ascii_of_N (16 * a + b)) (read_chars s3)
                    | _, _ => None
                    end
                  else None
              | _ => None
              end
            else
              match
                (if Ascii.eqb e dquote || Ascii.eqb e backslash || Ascii.eqb e "/" then Some e
                 else if Ascii.eqb e "b" then Some (ascii_of_N 8)
                 else if Ascii.eqb e "t" then Some (ascii_of_N 9)
                 else if Ascii.eqb e "n" then Some (ascii_of_N 10)
                 else if Ascii.eqb e "f" then Some (ascii_of_N 12)
                 else if Ascii.eqb e "r" then Some (ascii_of_N 13)
                 else None)
              with
              | Some d => cons_char d (read_chars s2)
              | None => None
              end
        end
      else if (N_of_ascii c <? 32)%N then None
      else cons_char c (read_chars s1)
  end.

Definition is_dec (c : ascii) : bool :=
  let n := N_of_ascii c in ((48 <=? n) && (n <=? 57))%N.
Definition is_number_char (c : ascii) : bool :=
  is_dec c || Ascii.eqb c "-" || Ascii.eqb c "+" || Ascii.eqb c "." ||
  Ascii.eqb c "e" || Ascii.eqb c "E".

Fixpoint span_chars (f : ascii → bool) (s : string) : string * string :=
  match s with
  | String c s' => if f c then let '(a, b) := span_chars f s' in (String c a, b) else ("", s)
  | EmptyString => ("", "")
  end.

(** The number grammar: an optional minus, digits with no leading zero, an
    optional fraction, an optional exponent. *)
Definition strip_minus (s : string) : string :=
  match s with String "-" s' => s' | _ => s end.
Definition integer_part_ok (int : string) : bool :=
  match int with "" => false | "0" => true | String "0" _ => false | _ => true end.
Definition read_fraction (s : string) : bool * string :=
  match s with
  | String "." s' => let '(f, s'') := span_chars is_dec s' in (truthy f, s'')
  | _ => (true, s)
  end.
Definition exponent_ok (s : string) : bool :=
  match s with
  | "" => true
  | String e s' =>
      if Ascii.eqb e "e" || Ascii.eqb e "E" then
        let s' := match s' with
          | String c t => if Ascii.eqb c "+" || Ascii.eqb c "-" then t else s'
          | _ => s' end in
        let '(d, t) := span_chars is_dec s' in truthy d && negb (truthy t)
      else false
  end.
Definition is_json_number (s : string) : bool :=
  let '(int, s) := span_chars is_dec (strip_minus s) in
  let '(frac_ok, s) := read_fraction s in
  integer_part_ok int && frac_ok && exponent_ok s.

(** Setting a field of an object under construction: a repeated key keeps its
    place and takes the later value. *)
Fixpoint set_field_json (k : string) (v : json) (fields : list (string * json)) : list (string * json) :=
  match fields with
  | [] => [(k, v)]
  | (k', v') :: fields' =>
      if bool_decide (k' = k) then (k', v) :: fields' else (k', v') :: set_field_json k v fields'
  end.

(** The text after the token [c], if it comes next. *)
Definition next_is (c : ascii) (s : string) : option string :=
  match skip_space s with
  | String d r => if Ascii.eqb d c then Some r else None
  | EmptyString => None
  end.

(** Reading a value, the elements of an array and the fields of an object.
    Every call consumes a character or follows one that did, so the length of
    the text bounds the depth of the calls. *)
Fixpoint read_json (fuel : nat) (s : string) : option (json * string) :=
  match fuel with
  | O => None
  | S fuel' =>
      match skip_space s with
      | EmptyString => None
      | String c s1 =>
          if Ascii.eqb c dquote then '(t, r) ← read_chars s1; Some (JString t, r)
          else if Ascii.eqb c "[" then
            match next_is "]" s1 with
            | Some r => Some (JArray [], r)
            | None => '(xs, r) ← read_items fuel' s1; Some (JArray xs, r)
            end
          else if Ascii.eqb c "{" then
            match next_is "}" s1 with
            | Some r => Some (JObject [], r)
            | None => '(xs, r) ← read_fields fuel' [] s1; Some (JObject xs, r)
            end
          else if starts_with "null" (String c s1) then Some (JNull, string_drop 3 s1)
          else if starts_with "true" (String c s1) then Some (JBool true, string_drop 3 s1)
          else if starts_with "false" (String c s1) then Some (JBool false, string_drop 4 s1)
          else
            let '(lit, r) := span_chars is_number_char (String c s1) in
            if is_json_number lit then Some (JNumber lit, r) else None
      end
  end
with read_items (fuel : nat) (s : string) : option (list json * string) :=
  match fuel with
  | O => None
  | S fuel' =>
      '(x, r) ← read_json fuel' s;
      match next_is "]" r, next_is "," r with
      | Some r', _ => Some ([x], r')
      | None, Some r' => '(xs, r'') ← read_items fuel' r'; Some (x :: xs, r'')
      | None, None => None
      end
  end
with read_fields (fuel : nat) (acc : list (string * json)) (s : string)
    : option (list (string * json) * string) :=
  match fuel with
  | O => None
  | S fuel' =>
      s1 ← next_is dquote s;
      '(k, r) ← read_chars s1;
      r1 ← next_is ":" r;
      '(x, r2) ← read_json fuel' r1;
      let acc := set_field_json k x acc in
      match next_is "}" r2, next_is "," r2 with
      | Some r3, _ => Some (acc, r3)
      | None, Some r3 => read_fields fuel' acc r3
      | None, None => None
      end
  end.

(** [JSON.parse(s)]; [None]: it throws. *)
Definition json_parse (s : string) : option json :=
  match read_json (2 * String.length s + 2) s with
  | Some (v, r) => if truthy (skip_space r) then None else Some v
  | None => None
  end.

(** ** Writing and reading back *)

Section json_induction.
Context (P : json → Prop).
Hypothesis HNull : P JNull.
Hypothesis HBool : ∀ b, P (JBool b).
Hypothesis HNumber : ∀ l, P (JNumber l).
Hypothesis HString : ∀ s, P (JString s).
Hypothesis HArray : ∀ l, Forall P l → P (JArray l).
Hypothesis HObject : ∀ l, Forall (λ f, P f.2) l → P (JObject l).

Fixpoint json_rect' (v : json) : P v :=
  match v with
  | JNull => HNull
  | JBool b => HBool b
  | JNumber l => HNumber l
  | JString s => HString s
  | JArray l => HArray l ((fix go l : Forall P l :=
      match l with [] => Forall_nil_2 P | x :: l' => Forall_cons_2 _ _ _ (json_rect' x) (go l') end) l)
  | JObject l => HObject l ((fix go l : Forall (λ f, P f.2) l :=
      match l with [] => Forall_nil_2 _ | x :: l' => Forall_cons_2 _ _ _ (json_rect' x.2) (go l') end) l)
  end.
End json_induction.

(** The values a program can hold: number literals are literals, the keys of
    an object are distinct. *)
Inductive json_wf : json → Prop :=
  | wf_null : json_wf JNull
  | wf_bool b : json_wf (JBool b)
  | wf_number l : is_json_number l = true → string_existsb (λ c, negb (is_number_char c)) l = false →
      json_wf (JNumber l)
  | wf_string s : json_wf (JString s)
  | wf_array l : Forall json_wf l → json_wf (JArray l)
  | wf_object l : NoDup l.*1 → Forall (λ f, json_wf f.2) l → json_wf (JObject l).

Fixpoint json_size (v : json) : nat :=
  match v with
  | JArray l => S ((fix go l := match l with [] => O | x :: l' => S (json_size x + go l') end) l)
  | JObject l => S ((fix go (l : list (string * json)) :=
      match l with [] => O | x :: l' => S (json_size x.2 + go l') end) l)
  | _ => 1
  end.

Definition items_size (l : list json) : nat := sum_list_with (λ x, S (json_size x)) l.

Lemma items_size_cons x l : items_size (x :: l) = S (json_size x + items_size l).
Proof. reflexivity. Qed.

Lemma json_size_array l : json_size (JArray l) = S (items_size l).
Proof. reflexivity. Qed.

Lemma json_size_object l : json_size (JObject l) = S (items_size l.*2).
Proof. simpl. f_equal. induction l as [|x l IH]; simpl; [done|]. by rewrite IH. Qed.

Fixpoint write_items (l : list json) (rest : string) : string :=
  match l with
  | [] => String "]" rest
  | y :: l' => String "," (write_json y (write_items l' rest))
  end.

Fixpoint write_fields (l : list (string * json)) (rest : string) : string :=
  match l with
  | [] => String "}" rest
  | (k, y) :: l' => String "," (quote k (String ":" (write_json y (write_fields l' rest))))
  end.

Lemma write_array x xs rest :
  write_json (JArray (x :: xs)) rest = String "[" (write_json x (write_items xs rest)).
Proof. cbn [write_json]. do 2 f_equal. induction xs as [|y xs IH]; cbn [write_items]; [done|]. by rewrite IH. Qed.

Lemma write_object k x xs rest :
  write_json (JObject ((k, x) :: xs)) rest =
    String "{" (quote k (String ":" (write_json x (write_fields xs rest)))).
Proof.
  cbn [write_json]. do 4 f_equal.
  induction xs as [|[k' y] xs IH]; cbn [write_fields]; [done|]. by rewrite IH.
Qed.

Lemma read_chars_escape_char c rest : read_chars (escape_char c rest) = cons_char c (read_chars rest).
Proof. destruct c as [[] [] [] [] [] [] [] []]; reflexivity. Qed.

Lemma read_chars_escape s rest : read_chars (escape s rest) = Some (s, rest).
Proof.
  induction s as [|c s IH]; [done|]. cbn [escape]. by rewrite read_chars_escape_char, IH.
Qed.

(** What may follow a value. *)
Definition delim (s : string) : Prop :=
  match s with EmptyString => True | String c _ => c = ","%char ∨ c = "]"%char ∨ c = "}"%char end.

Lemma span_number lit rest :
  string_existsb (λ c, negb (is_number_char c)) lit = false → delim rest →
  span_chars is_number_char (lit +:+ rest) = (lit, rest).
Proof.
  intros Hl Hr. induction lit as [|c lit IH]; simpl in *.
  - destruct rest as [|c rest]; [done|]. destruct Hr as [->|[->| ->]]; reflexivity.
  - bools. rewrite H. by rewrite IH.
Qed.

Lemma is_json_number_head lit :
  is_json_number lit = true → ∃ c s, lit = String c s ∧ (c = "-"%char ∨ is_dec c = true).
Proof.
  destruct lit as [|c s]; [done|]. intros H. exists c, s. split; [done|].
  destruct (is_dec c) eqn:E; [by right|left].
  unfold is_json_number in H.
  assert (Hm : c = "-"%char ∨ strip_minus (String c s) = String c s).
  { destruct c as [[] [] [] [] [] [] [] []]; auto. }
  destruct Hm as [?|Hm]; [done|]. rewrite Hm in H. cbn [span_chars] in H. rewrite E in H.
  by destruct (read_fraction _) in H.
Qed.

(** No value starts with a space or a closing bracket. *)
Definition value_head (c : ascii) : Prop :=
  is_json_space c = false ∧ c ≠ "]"%char ∧ c ≠ "}"%char.

Lemma write_head v rest : json_wf v → ∃ c s, write_json v rest = String c s ∧ value_head c.
Proof.
  intros Hv. destruct Hv as [|[]|l Hl _|s|[|x xs] _|[|[k x] xs] _ _];
    rewrite ?write_array, ?write_object; try (eexists _, _; split; [reflexivity|by split_and!]).
  apply is_json_number_head in Hl as (c & s & -> & Hc). exists c, (s +:+ rest). split; [done|].
  destruct Hc as [->|Hc]; [by split_and!|].
  destruct c as [[] [] [] [] [] [] [] []]; try (by vm_compute in Hc); by split_and!.
Qed.

Lemma skip_space_head c s : is_json_space c = false → skip_space (String c s) = String c s.
Proof. simpl. by intros ->. Qed.

Lemma read_number fuel lit rest :
  is_json_number lit = true → string_existsb (λ c, negb (is_number_char c)) lit = false → delim rest →
  read_json (S fuel) (lit +:+ rest) = Some (JNumber lit, rest).
Proof.
  intros Hl Hc Hr. pose proof (span_number lit rest Hc Hr) as Hs.
  destruct (is_json_number_head _ Hl) as (c & s & -> & Hh). cbn [read_json].
  assert (Hcs : String c s +:+ rest = String c (s +:+ rest)) by done. rewrite Hcs in *.
  assert (Hcc : is_json_space c = false ∧ Ascii.eqb c dquote = false ∧ Ascii.eqb c "[" = false ∧
    Ascii.eqb c "{" = false ∧ c ≠ "n"%char ∧ c ≠ "t"%char ∧ c ≠ "f"%char).
  { destruct Hh as [->|Hh]; [by split_and!|].
    destruct c as [[] [] [] [] [] [] [] []]; try (by vm_compute in Hh); by split_and!. }
  destruct Hcc as (H1 & H2 & H3 & H4 & H5 & H6 & H7). rewrite skip_space_head, H2, H3, H4 by done.
  unfold starts_with. cbn [String.prefix].
  destruct (ascii_dec "n" c); [congruence|]. destruct (ascii_dec "t" c); [congruence|].
  destruct (ascii_dec "f" c); [congruence|]. by rewrite Hs, Hl.
Qed.

Lemma next_is_head c d s :
  is_json_space d = false → next_is c (String d s) = if Ascii.eqb d c then Some s else None.
Proof. intros Hd. unfold next_is. by rewrite skip_space_head. Qed.

Lemma set_field_json_new k v fields :
  k ∉ fields.*1 → set_field_json k v fields = fields ++ [(k, v)].
Proof.
  induction fields as [|[k' v'] fields IH]; simpl; [done|]. rewrite not_elem_of_cons. intros [Hne Hn].
  rewrite bool_decide_eq_false_2 by congruence. by rewrite IH.
Qed.

Definition reads_back (v : json) : Prop :=
  json_wf v → ∀ fuel rest, delim rest → (json_size v ≤ fuel)%nat →
    read_json fuel (write_json v rest) = Some (v, rest).

Lemma read_items_write xs : ∀ x fuel rest,
  Forall reads_back (x :: xs) → Forall json_wf (x :: xs) → (items_size (x :: xs) ≤ fuel)%nat →
  read_items fuel (write_json x (write_items xs rest)) = Some (x :: xs, rest).
Proof.
  induction xs as [|y xs IH]; intros x fuel rest Hr Hwf Hf;
    apply Forall_cons in Hr as [Hx Hr]; apply Forall_cons in Hwf as [Hwx Hwf];
    (destruct fuel as [|fuel]; [simpl in Hf; lia|]); simpl in Hf; cbn [read_items].
  - rewrite (Hx Hwx) by (simpl; auto; lia). reflexivity.
  - rewrite (Hx Hwx) by (simpl; auto; lia).
    cbn [write_items mbind option_bind]. rewrite !next_is_head by done. cbn [Ascii.eqb Bool.eqb].
    rewrite IH by (done || simpl; lia). reflexivity.
Qed.

Lemma read_fields_write xs : ∀ acc k x fuel rest,
  Forall (λ f, reads_back f.2) ((k, x) :: xs) → Forall (λ f, json_wf f.2) ((k, x) :: xs) →
  NoDup (acc ++ (k, x) :: xs).*1 → (items_size ((k, x) :: xs).*2 ≤ fuel)%nat →
  read_fields fuel acc (quote k (String ":" (write_json x (write_fields xs rest)))) =
    Some (acc ++ (k, x) :: xs, rest).
Proof.
  induction xs as [|[k' y] xs IH]; intros acc k x fuel rest Hr Hwf Hnd Hf;
    apply Forall_cons in Hr as [Hx Hr]; apply Forall_cons in Hwf as [Hwx Hwf];
    (destruct fuel as [|fuel]; [simpl in Hf; lia|]); cbn [read_fields]; cbn [snd] in Hx, Hwx;
    rewrite fmap_app, NoDup_app in Hnd; destruct Hnd as (Hna & Hd & Hn);
    (assert (k ∉ acc.*1) as Hk by (intros Hk; apply (Hd k Hk); simpl; set_solver));
    unfold quote; rewrite next_is_head by done; rewrite Ascii.eqb_refl; cbn [mbind option_bind];
    rewrite read_chars_escape; cbn [mbind option_bind]; rewrite next_is_head by done; rewrite Ascii.eqb_refl;
    cbn [mbind option_bind];
    (rewrite (Hx Hwx); [|by simpl; auto|simpl in Hf; lia]); cbn [mbind option_bind];
    rewrite set_field_json_new by done.
  - reflexivity.
  - cbn [write_fields mbind option_bind]. rewrite !next_is_head by done. cbn [Ascii.eqb Bool.eqb].
    rewrite IH, <-app_assoc; [done|done|done| |simpl in *; lia].
    rewrite <-app_assoc. rewrite fmap_app, NoDup_app. done.
Qed.

Lemma read_write_json v : reads_back v.
Proof.
  induction v as [|b|l|s|l IH|l IH] using json_rect'; intros Hwf fuel rest Hr Hf;
    (destruct fuel as [|fuel]; [simpl in Hf; lia|]).
  - by destruct rest.
  - by destruct b, rest.
  - inversion Hwf. by apply read_number.
  - cbn [write_json read_json]. unfold quote. rewrite skip_space_head by done.
    rewrite Ascii.eqb_refl. by rewrite read_chars_escape.
  - inversion Hwf as [| | | |? Hl|]; subst. destruct l as [|x xs]; [done|].
    rewrite write_array, json_size_array in *. cbn [read_json]. rewrite skip_space_head by done.
    cbn [Ascii.eqb Bool.eqb dquote]. apply Forall_cons in Hl as Hl'. destruct Hl' as [Hx _].
    destruct (write_head x (write_items xs rest) Hx) as (c & s & Hc & Hsp & Hb & _).
    replace (next_is _ _) with (@None string).
    + rewrite read_items_write by (done || lia). done.
    + rewrite Hc, next_is_head by done. by destruct (Ascii.eqb_spec c "]").
  - inversion Hwf as [| | | | |? Hnd Hl]; subst. destruct l as [|[k x] xs]; [done|].
    rewrite write_object, json_size_object in *. cbn [read_json]. rewrite skip_space_head by done.
    cbn [Ascii.eqb Bool.eqb dquote]. unfold quote at 1. rewrite next_is_head by done.
    cbn [Ascii.eqb Bool.eqb dquote]. fold dquote. 
    change (String dquote (escape k ?r)) with (quote k r).
    rewrite read_fields_write by (done || lia). done.
Qed.

Lemma length_append a b : String.length (a +:+ b) = (String.length a + String.length b)%nat.
Proof. induction a as [|c a IH]; simpl; [done|]. by rewrite IH. Qed.

Lemma length_quote s rest : (String.length rest + 2 ≤ String.length (quote s rest))%nat.
Proof.
  unfold quote. simpl. cut (String.length rest + 1 ≤ String.length (escape s rest))%nat; [lia|].
  induction s as [|c s IH]; simpl; [lia|]. unfold escape_char. repeat case_match; simpl; lia.
Qed.

(** A text is long enough for the fuel of [json_parse]. *)
Lemma length_write_json v : json_wf v → ∀ rest,
  (json_size v + 2 * String.length rest ≤ 2 * String.length (write_json v rest))%nat.
Proof.
  induction v as [|b|l|s|l IH|l IH] using json_rect'; intros Hwf rest.
  - simpl. lia.
  - destruct b; simpl; lia.
  - inversion Hwf. cbn [write_json]. rewrite length_append. destruct l; [done|]. simpl. lia.
  - cbn [write_json]. pose proof (length_quote s rest). simpl json_size. lia.
  - inversion Hwf as [| | | |? Hl|]; subst. destruct l as [|x xs]; [simpl; lia|].
    rewrite json_size_array, write_array. apply Forall_cons in IH as [Hx IH]. apply Forall_cons in Hl as [Hwx Hl].
    cut (items_size xs + 2 * String.length rest + 2 ≤ 2 * String.length (write_items xs rest))%nat.
    { specialize (Hx Hwx (write_items xs rest)). simpl. lia. }
    clear Hx Hwf Hwx. induction xs as [|y xs IHxs]; [simpl; lia|].
    apply Forall_cons in IH as [Hy IH]. apply Forall_cons in Hl as [Hwy Hl].
    specialize (Hy Hwy (write_items xs rest)). specialize (IHxs IH Hl). simpl in *. lia.
  - inversion Hwf as [| | | | |? _ Hl]; subst. destruct l as [|[k x] xs]; [simpl; lia|].
    rewrite json_size_object, write_object. apply Forall_cons in IH as [Hx IH]. apply Forall_cons in Hl as [Hwx Hl].
    cut (items_size xs.*2 + 2 * String.length rest + 2 ≤ 2 * String.length (write_fields xs rest))%nat.
    { specialize (Hx Hwx (write_fields xs rest)).
      pose proof (length_quote k (String ":" (write_json x (write_fields xs rest)))) as Hq.
      rewrite fmap_cons, items_size_cons. cbn [String.length snd] in *. lia. }
    clear Hx Hwf Hwx. induction xs as [|[k' y] xs IHxs]; [simpl; lia|].
    apply Forall_cons in IH as [Hy IH]. apply Forall_cons in Hl as [Hwy Hl].
    specialize (Hy Hwy (write_fields xs rest)). specialize (IHxs IH Hl).
    pose proof (length_quote k' (String ":" (write_json y (write_fields xs rest)))) as Hq.
    cbn [write_fields]. rewrite fmap_cons, items_size_cons. cbn [String.length snd] in *. lia.
Qed.

(** Parsing what [JSON.stringify] wrote gives the value back. *)
Lemma json_parse_stringify v : json_wf v → json_parse (json_stringify v) = Some v.
Proof.
  intros Hwf. unfold json_parse, json_stringify. rewrite read_write_json; [done|done|done|].
  pose proof (length_write_json v Hwf ""). simpl in *. lia.
Qed.

(** [safeJsonParse(raw, fallback)] (packages/storage/src/safe-json.ts) on a
    text. *)
Definition safeJsonParse (raw : string) (fallback : json) : json :=
  if truthy raw then default fallback (json_parse raw) else fallback.

Lemma safeJsonParse_stringify v fallback : json_wf v → safeJsonParse (json_stringify v) fallback = v.
Proof.
  intros Hwf. unfold safeJsonParse. rewrite json_parse_stringify by done.
  unfold json_stringify. by destruct (write_head v "" Hwf) as (c & s & -> & _).
Qed.

(** ** The value of a number literal

    [num_of_literal] is the binary64 value nearest to a JSON number literal. *)

Fixpoint digits_value (acc : Z) (s : string) : Z :=
  match s with
  | String c s' => digits_value (acc * 10 + (Z.of_N (N_of_ascii c) - 48)) s'
  | EmptyString => acc
  end.

(** [n * 10^p], correctly rounded; [s] is the sign. *)
Definition num_of_decimal (s : bool) (n : Z) (p : Z) : number :=
  match n with
  | Z.pos m =>
      if 0 <=? p then binary_normalize num_prec num_emax ((if s then -1 else 1) * n * 10 ^ p) 0 s
      else SFdiv num_prec num_emax (S754_finite s m 0) (S754_finite false (Z.to_pos (10 ^ (- p))) 0)
  | _ => S754_zero s
  end.

Definition exponent_value (s : string) : Z :=
  match s with
  | String _ (String "-" t) => - digits_value 0 t
  | String _ (String "+" t) => digits_value 0 t
  | String _ t => digits_value 0 t
  | EmptyString => 0
  end.

Definition num_of_literal (lit : string) : number :=
  let s := starts_with "-" lit in
  let '(int, rest) := span_chars is_dec (strip_minus lit) in
  let '(frac, rest) := match rest with String "." t => span_chars is_dec t | _ => ("", rest) end in
  num_of_decimal s (digits_value 0 (int +:+ frac)) (exponent_value rest - js_length frac).

Example num_of_literal_ints : num_of_literal "-120" = num_of_Z (-120).
Proof. reflexivity. Qed.
Example num_of_literal_tenth : num_of_literal "0.1" = S754_finite false 7205759403792794 (-56).
Proof. reflexivity. Qed.
Example num_of_literal_exp : num_of_literal "25e-1" = num_div (num_of_Z 5) (num_of_Z 2).
Proof. reflexivity. Qed.
