(* ===== verification/JsJsonText.v ===== *)
(** * The texts that [JSON.stringify] writes

    Facts about the written text itself: it holds no line break, an object's
    text is not changed by [trim], and it contains the text of its fields. *)
From S2P Require Import Prelude.
From S2P Require Import JsString.
From S2P Require Import JsJson.

(** [s.includes(needle)]. *)
Fixpoint includes (needle s : string) : bool :=
  starts_with needle s || match s with EmptyString => false | String _ s' => includes needle s' end.

(** [Buffer.byteLength(s, "utf8")]. *)
Fixpoint byte_length (s : string) : Z :=
  match s with
  | EmptyString => 0
  | String c s' => (if (N_of_ascii c <? 128)%N then 1 else 2) + byte_length s'
  end.

(** The own property [k] of an object. *)
Fixpoint lookup_field (k : string) (fields : list (string * json)) : option json :=
  match fields with
  | [] => None
  | (k', v) :: fields' => if bool_decide (k' = k) then Some v else lookup_field k fields'
  end.

(** [v.k] on a value: [None] is [undefined]. *)
Definition field (k : string) (v : json) : option json :=
  match v with JObject fields => lookup_field k fields | _ => None end.

(** [event.k] for a property that holds a string in every event. *)
Definition event_string (k : string) (event : json) : string :=
  match field k event with Some (JString s) => s | _ => "" end.

(** ** Texts *)

Lemma includes_spec needle s : includes needle s = true ↔ ∃ a b, s = a +:+ needle +:+ b.
Proof.
  induction s as [|c s IH]; cbn [includes]; rewrite orb_true_iff, starts_with_spec.
  - split.
    + intros [[b Hb]|[=]]. by exists "", b.
    + intros (a & b & H). left. destruct a; [|done]. by exists b.
  - rewrite IH. split.
    + intros [[b Hb]|(a & b & ->)]; [by exists "", b|by exists (String c a), b].
    + intros ([|d a] & b & H); [left; by exists b|]. right. injection H as _ H. by exists a, b.
Qed.

Lemma escape_char_app c r : escape_char c r = escape_char c "" +:+ r.
Proof. unfold escape_char. repeat case_match; reflexivity. Qed.

(** The characters between the quotes of a string literal. *)
Definition literal_body (s : string) : string :=
  string_take (String.length (quote s "") - 2) (string_drop 1 (quote s "")).

Lemma escape_body s : ∃ b, ∀ rest, escape s rest = b +:+ String dquote rest.
Proof.
  induction s as [|c s [b Hb]]; [by exists ""|].
  exists (escape_char c "" +:+ b). intros rest. cbn [escape].
  rewrite Hb, append_assoc. apply escape_char_app.
Qed.

Lemma string_take_length a b : string_take (String.length a) (a +:+ b) = a.
Proof. induction a as [|c a IH]; simpl; [by destruct b|]. by rewrite IH. Qed.

Lemma quote_body s rest : quote s rest = String dquote (literal_body s +:+ String dquote rest).
Proof.
  destruct (escape_body s) as [b Hb]. unfold literal_body, quote. rewrite !Hb. f_equal.
  f_equal. cbn [string_drop String.length]. rewrite length_append. cbn [String.length].
  replace (S (String.length b + 1) - 2)%nat with (String.length b) by lia.
  by rewrite string_take_length.
Qed.

Lemma quote_app s rest r : quote s (rest +:+ r) = quote s rest +:+ r.
Proof. rewrite !quote_body. cbn [String.append]. f_equal. by rewrite append_assoc. Qed.

Lemma write_json_app v : ∀ rest r, write_json v (rest +:+ r) = write_json v rest +:+ r.
Proof.
  induction v as [|b|l|s|l IH|l IH] using json_rect'; intros rest r.
  - done.
  - by destruct b.
  - cbn [write_json]. by rewrite append_assoc.
  - apply quote_app.
  - destruct l as [|x xs]; [done|]. rewrite !write_array. cbn [String.append]. f_equal.
    apply Forall_cons in IH as [Hx IH]. rewrite <-Hx. f_equal. clear Hx.
    induction xs as [|y xs IHxs]; [done|]. apply Forall_cons in IH as [Hy IH]. cbn [write_items String.append].
    f_equal. rewrite IHxs by done. apply Hy.
  - destruct l as [|[k x] xs]; [done|]. rewrite !write_object. cbn [String.append]. f_equal.
    apply Forall_cons in IH as [Hx IH]. cbn [snd] in Hx. rewrite <-quote_app. cbn [String.append].
    do 2 f_equal. rewrite <-Hx. f_equal. clear Hx.
    induction xs as [|[k' y] xs IHxs]; [done|]. apply Forall_cons in IH as [Hy IH]. cbn [snd] in Hy.
    cbn [write_fields String.append]. f_equal. rewrite IHxs by done.
    change (String ":" ?x) with (":" +:+ x) at 1. rewrite <-quote_app. f_equal. cbn [String.append]. f_equal. apply Hy.
Qed.

Lemma write_fields_app xs : ∀ rest r, write_fields xs (rest +:+ r) = write_fields xs rest +:+ r.
Proof.
  induction xs as [|[k x] xs IH]; intros rest r; [done|]. cbn [write_fields String.append]. f_equal.
  rewrite IH, write_json_app. by rewrite <-quote_app.
Qed.

(** An object's text is between braces. *)
Lemma object_text fields : ∃ t, json_stringify (JObject fields) = String "{" (t +:+ "}").
Proof.
  unfold json_stringify. destruct fields as [|[k x] xs]; [by exists ""|].
  rewrite write_object.
  assert (H : ∀ xs, ∃ t, write_fields xs "" = t +:+ "}").
  { clear. induction xs as [|[k x] xs [t IH]]; [by exists ""|]. cbn [write_fields]. rewrite IH.
    exists (String "," (quote k (String ":" (write_json x t)))). cbn [String.append]. f_equal.
    by rewrite write_json_app, <-quote_app. }
  destruct (H xs) as [t ->]. exists (quote k (String ":" (write_json x t))). f_equal.
  by rewrite write_json_app, <-quote_app.
Qed.

Lemma trim_object_text fields : trim (json_stringify (JObject fields)) = json_stringify (JObject fields).
Proof.
  destruct (object_text fields) as [t ->]. unfold trim. rewrite trim_start_fix by done.
  apply (trim_end_app_char (String "{" t) "}"). done.
Qed.

Lemma object_text_truthy fields : truthy (json_stringify (JObject fields)) = true.
Proof. by destruct (object_text fields) as [t ->]. Qed.

Lemma fields_text_includes k s xs rest :
  (k, JString s) ∈ xs → ∃ a b, write_fields xs rest = a +:+ literal_body s +:+ b.
Proof.
  induction xs as [|[k' y] xs IH]; intros Hin; [by apply elem_of_nil in Hin|].
  cbn [write_fields]. apply elem_of_cons in Hin as [[= <- <-]|Hin].
  - cbn [write_json]. rewrite (quote_body s).
    exists (String "," (quote k (String ":" (String dquote "")))), (String dquote (write_fields xs rest)).
    cbn [String.append]. f_equal. by rewrite <-quote_app.
  - destruct (IH Hin) as (a & b & ->).
    exists (String "," (quote k' (String ":" (write_json y a)))), b. cbn [String.append]. f_equal.
    by rewrite write_json_app, <-quote_app.
Qed.

(** The text of an object contains the body of each of its string fields. *)
Lemma object_text_includes k s fields :
  (k, JString s) ∈ fields → includes (literal_body s) (json_stringify (JObject fields)) = true.
Proof.
  intros Hin. apply includes_spec.
  assert (Htext : ∃ h, json_stringify (JObject fields) = String "{" h ∧ write_fields fields "" = String "," h).
  { destruct fields as [|[k' x] xs]; [by apply elem_of_nil in Hin|]. eexists.
    unfold json_stringify. by rewrite write_object. }
  destruct Htext as (h & -> & Hh). destruct (fields_text_includes k s fields "" Hin) as (a & b & H).
  rewrite Hh in H. destruct a as [|c a].
  - destruct fields as [|[k' x] xs]; [by apply elem_of_nil in Hin|]. cbn [write_fields] in Hh.
    apply elem_of_cons in Hin as [[= <- <-]|Hin].
    + injection Hh as <-. cbn [write_json]. rewrite (quote_body s).
      exists (String "{" (quote k (String ":" (String dquote "")))), (String dquote (write_fields xs "")).
      cbn [String.append]. f_equal. by rewrite <-quote_app.
    + injection Hh as <-. destruct (fields_text_includes k s xs "" Hin) as (a & b' & ->).
      exists (String "{" (quote k' (String ":" (write_json x a)))), b'. cbn [String.append]. f_equal.
      by rewrite write_json_app, <-quote_app.
  - injection H as _ ->. by exists (String "{" a), b.
Qed.

(** ** No line breaks *)

Definition line_break (c : ascii) : bool := Ascii.eqb c "010" || Ascii.eqb c "013".
Notation no_break s := (string_existsb line_break s = false).

Lemma escape_no_break s rest : no_break rest → no_break (escape s rest).
Proof.
  intros Hr. induction s as [|c s IH]; [done|]. cbn [escape]. revert IH. generalize (escape s rest). intros t Ht.
  destruct c as [[] [] [] [] [] [] [] []]; exact Ht.
Qed.

Lemma number_no_break l :
  string_existsb (λ c, negb (is_number_char c)) l = false → no_break l.
Proof.
  induction l as [|c l IH]; [done|]. cbn [string_existsb]. intros H. bools. rewrite IH by done.
  destruct c as [[] [] [] [] [] [] [] []]; done.
Qed.

(** A written value holds no line break, so it is one line of a file. *)
Lemma write_json_no_break v : json_wf v → ∀ rest, no_break rest → no_break (write_json v rest).
Proof.
  induction v as [|b|l|s|l IH|l IH] using json_rect'; intros Hwf rest Hr.
  - exact Hr.
  - by destruct b.
  - inversion Hwf. cbn [write_json]. rewrite string_existsb_append, number_no_break by done. done.
  - cbn [write_json quote string_existsb]. by apply escape_no_break.
  - inversion Hwf as [| | | |? Hl|]; subst. destruct l as [|x xs]; [done|]. rewrite write_array.
    apply Forall_cons in IH as [Hx IH]. apply Forall_cons in Hl as [Hwx Hl]. cbn [string_existsb].
    apply (Hx Hwx). clear Hx Hwx Hwf.
    induction xs as [|y xs IHxs]; [done|]. apply Forall_cons in IH as [Hy IH]. apply Forall_cons in Hl as [Hwy Hl].
    cbn [write_items string_existsb]. by apply Hy, IHxs.
  - inversion Hwf as [| | | | |? _ Hl]; subst. destruct l as [|[k x] xs]; [done|]. rewrite write_object.
    apply Forall_cons in IH as [Hx IH]. apply Forall_cons in Hl as [Hwx Hl]. cbn [string_existsb quote snd] in *.
    apply escape_no_break. cbn [string_existsb]. apply (Hx Hwx). clear Hx Hwx Hwf.
    induction xs as [|[k' y] xs IHxs]; [done|]. apply Forall_cons in IH as [Hy IH]. apply Forall_cons in Hl as [Hwy Hl].
    cbn [write_fields string_existsb quote snd] in *. apply escape_no_break. cbn [string_existsb]. by apply Hy, IHxs.
Qed.

Lemma lookup_field_elem k fields v : lookup_field k fields = Some v → (k, v) ∈ fields.
Proof.
  induction fields as [|[k' v'] fields IH]; cbn [lookup_field]; [done|].
  case_bool_decide; [intros [= <-]; subst; left|]. intros H'. right. auto.
Qed.
