(* ===== verification/JsObject.v ===== *)
(** * Objects as lists of fields

    What the repositories do with the objects that they keep as JSON text: read
    them back, add and delete fields, spread one into another.  The texts are
    written by JSON.stringify from objects, so that they are read back whole. *)
From S2P Require Import Prelude.
From S2P Require Import JsString.
From S2P Require Import JsJson.
From S2P Require Import JsJsonText.

(** A closed decidable fact; the keys of a literal differ. *)
Ltac decided := refine (bool_decide_unpack _ _); vm_compute; exact I.
Ltac distinct_keys := cbn; decided.

(** The fields of a value that is an object. *)
Definition object_fields (value : json) : list (string * json) := match value with JObject fields => fields | _ => [] end.

(** [delete object[key]]. *)
Definition delete_field (key : string) (fields : list (string * json)) : list (string * json) :=
  filter (λ f, f.1 ≠ key) fields.

(** [{ ...a, ...b }]. *)
Definition spread (a b : list (string * json)) : list (string * json) :=
  foldl (λ acc f, set_field_json f.1 f.2 acc) a b.

(** A field that is left out when its value is undefined. *)
Definition opt_field (k : string) (v : option json) : list (string * json) :=
  match v with Some v => [(k, v)] | None => [] end.
Definition opt_string (k : string) (v : option string) := opt_field k (JString <$> v).

(** An object literal, whose undefined fields are left out. *)
Definition fields_of (l : list (string * option json)) : list (string * json) := l ≫= λ f, opt_field f.1 f.2.
Fixpoint literal_field (k : string) (l : list (string * option json)) : option json :=
  match l with
  | [] => None
  | (k', v) :: l' => if bool_decide (k' = k) then v else literal_field k l'
  end.

(** The object of a column that JSON.stringify wrote. *)
Definition column_fields (raw : string) : list (string * json) := object_fields (safeJsonParse raw (JObject [])).

Definition is_object (v : json) : bool := match v with JObject _ => true | _ => false end.

(** [loadAndSanitize] with [parseJsonObject] (load-and-sanitize.ts,
    state-validators.ts), less its reports of what it puts aside. *)
Definition loadAndSanitize (rawValue : option string) (fallback : option json) : option json :=
  match rawValue with
  | None => fallback
  | Some raw =>
      if negb (truthy raw) then fallback
      else match json_parse raw with
           | Some parsed => if is_object parsed then Some parsed else fallback
           | None => fallback
           end
  end.

(** [a === b] on fields, [None] being undefined: objects and arrays that were read
    apart are never the same. *)
Definition strict_eq (a b : option json) : bool :=
  match a, b with
  | None, None | Some JNull, Some JNull => true
  | Some (JBool x), Some (JBool y) => Bool.eqb x y
  | Some (JNumber x), Some (JNumber y) => bool_decide (x = y)
  | Some (JString x), Some (JString y) => bool_decide (x = y)
  | _, _ => false
  end.

(** [v ?? undefined]. *)
Definition present (v : option json) : option json := match v with Some JNull => None | _ => v end.

(** Whether a value counts as true; a number is the text that JSON.stringify writes. *)
Definition truthy_json (v : option json) : bool :=
  match v with
  | None | Some JNull | Some (JBool false) => false
  | Some (JNumber n) => negb (bool_decide (n = "0"))
  | Some (JString s) => truthy s
  | _ => true
  end.

(** An object as the language keeps it: no key twice. *)
Definition object_ok (fields : list (string * json)) : Prop := json_wf (JObject fields).

Lemma object_ok_spec fields : object_ok fields ↔ NoDup fields.*1 ∧ Forall (λ f, json_wf f.2) fields.
Proof. split; [by inversion 1|intros [? ?]; by constructor]. Qed.

Lemma set_field_keys k v fields : ∀ x, x ∈ (set_field_json k v fields).*1 ↔ x = k ∨ x ∈ fields.*1.
Proof.
  induction fields as [|[k' v'] fields IH]; intros x; cbn [set_field_json]; [set_solver|].
  case_bool_decide as E; [subst; set_solver|]. cbn. specialize (IH x). set_solver.
Qed.

Lemma set_field_ok k v fields : object_ok fields → json_wf v → object_ok (set_field_json k v fields).
Proof.
  rewrite !object_ok_spec. intros [Hd Hf] Hv. induction fields as [|[k' v'] fields IH]; cbn [set_field_json].
  - split; [apply NoDup_singleton|by apply Forall_singleton].
  - apply NoDup_cons in Hd as [Hk Hd]. apply Forall_cons in Hf as [Hv' Hf]. case_bool_decide as E.
    + split; [by apply NoDup_cons|by apply Forall_cons].
    + destruct (IH Hd Hf) as [Hd2 Hf2]. split; [|by apply Forall_cons]. apply NoDup_cons. split; [|done].
      rewrite set_field_keys. intros [?|?]; [done|by apply Hk].
Qed.

Lemma lookup_set_field k v fields : lookup_field k (set_field_json k v fields) = Some v.
Proof.
  induction fields as [|[k' v'] fields IH]; cbn [set_field_json lookup_field]; [by rewrite bool_decide_eq_true_2|].
  case_bool_decide as E; cbn [lookup_field]; [by rewrite bool_decide_eq_true_2|]. by rewrite bool_decide_eq_false_2.
Qed.

Lemma set_field_fresh k v fields : k ∉ fields.*1 → set_field_json k v fields = fields ++ [(k, v)].
Proof.
  induction fields as [|[k' v'] fields IH]; intros Hk; [done|]. cbn [set_field_json]. cbn in Hk.
  rewrite bool_decide_eq_false_2 by set_solver. cbn. rewrite IH; [done|set_solver].
Qed.

(** A part of an object is one. *)
Lemma object_ok_filter (P : string * json → Prop) `{∀ x, Decision (P x)} fields : object_ok fields → object_ok (filter P fields).
Proof.
  rewrite !object_ok_spec. intros [Hd Hf]. split.
  - eapply sublist_NoDup; [exact Hd|]. apply fmap_sublist, sublist_filter.
  - apply Forall_forall. intros x [_ Hx]%list_elem_of_filter. rewrite Forall_forall in Hf. by apply Hf.
Qed.

Lemma delete_field_ok k fields : object_ok fields → object_ok (delete_field k fields).
Proof. apply object_ok_filter. Qed.

Lemma delete_field_keys k fields : k ∉ (delete_field k fields).*1.
Proof. unfold delete_field. intros ([? ?] & -> & [Hk _]%list_elem_of_filter)%list_elem_of_fmap. by apply Hk. Qed.

Lemma delete_field_id k fields : k ∉ fields.*1 → delete_field k fields = fields.
Proof.
  unfold delete_field. induction fields as [|f fields IH]; [done|].
  rewrite fmap_cons, not_elem_of_cons. intros [Hf Hk]. rewrite filter_cons, decide_True by congruence. by rewrite IH.
Qed.

Lemma delete_field_app k a b : delete_field k (a ++ b) = delete_field k a ++ delete_field k b.
Proof. apply filter_app. Qed.

Lemma spread_ok a b : object_ok a → object_ok b → object_ok (spread a b).
Proof.
  intros Ha [_ Hb]%object_ok_spec. unfold spread. revert a Ha.
  induction Hb as [|f b Hf _ IH]; intros a Ha; [done|]. cbn. apply IH. by apply set_field_ok.
Qed.

Lemma column_fields_stringify fields : object_ok fields → column_fields (json_stringify (JObject fields)) = fields.
Proof. intros H. unfold column_fields. by rewrite safeJsonParse_stringify. Qed.

Lemma lookup_set_field_ne k k' v fields : k ≠ k' → lookup_field k (set_field_json k' v fields) = lookup_field k fields.
Proof.
  intros Hk. induction fields as [|[k2 v2] fields IH]; cbn [set_field_json lookup_field]; [by rewrite bool_decide_eq_false_2|].
  destruct (bool_decide_reflect (k2 = k')) as [->|Hne]; cbn [lookup_field].
  - by rewrite !bool_decide_eq_false_2 by done.
  - case_bool_decide; [done|]. apply IH.
Qed.

Lemma lookup_delete_field_ne k k' fields : k ≠ k' → lookup_field k (delete_field k' fields) = lookup_field k fields.
Proof.
  intros Hk. unfold delete_field. induction fields as [|[k2 v2] fields IH]; [done|]. rewrite filter_cons. cbn [fst].
  destruct (decide (k2 = k')) as [->|Hne].
  - rewrite decide_False by naive_solver. rewrite IH. cbn [lookup_field]. by rewrite bool_decide_eq_false_2 by congruence.
  - rewrite decide_True by done. cbn [lookup_field]. by rewrite IH.
Qed.

Lemma lookup_field_None k fields : k ∉ fields.*1 → lookup_field k fields = None.
Proof.
  induction fields as [|[k' v] fields IH]; cbn; [done|]. intros H. rewrite bool_decide_eq_false_2 by set_solver.
  apply IH. set_solver.
Qed.

Lemma lookup_fields_of k l : NoDup l.*1 → lookup_field k (fields_of l) = literal_field k l.
Proof.
  induction l as [|[k' v] l IH]; [done|]. intros [Hk' Hl]%NoDup_cons. specialize (IH Hl).
  change (fields_of ((k', v) :: l)) with (opt_field k' v ++ fields_of l). cbn [literal_field].
  destruct v as [v|]; cbn; [by rewrite IH|]. case_bool_decide; [|done]. subst. rewrite IH.
  clear IH Hl. induction l as [|[k2 v2] l IH]; [done|]. cbn in Hk' |- *. rewrite bool_decide_eq_false_2 by set_solver.
  apply IH. set_solver.
Qed.

Lemma map_values_keys (g : json → json) (fields : list (string * json)) : (map (λ f : string * json, (f.1, g f.2)) fields).*1 = fields.*1.
Proof. induction fields as [|f fields IH]; cbn; [done|]. by f_equal. Qed.

(** An undefined value, or a value of the language. *)
Definition wf_opt (v : option json) : Prop := match v with Some v => json_wf v | None => True end.

Lemma opt_field_ok k v : wf_opt v → object_ok (opt_field k v).
Proof.
  intros Hv. apply object_ok_spec. destruct v as [v|]; cbn; [|by split; constructor].
  split; [apply NoDup_singleton|by apply Forall_singleton].
Qed.

Lemma fields_of_keys k l : k ∈ (fields_of l).*1 → k ∈ l.*1.
Proof.
  induction l as [|[k' v] l IH]; [done|]. change (fields_of ((k', v) :: l)) with (opt_field k' v ++ fields_of l).
  rewrite fmap_app. destruct v; cbn; set_solver.
Qed.

Lemma fields_of_ok l : NoDup l.*1 → Forall (λ f, wf_opt f.2) l → object_ok (fields_of l).
Proof.
  intros Hd Hf. apply object_ok_spec. induction Hf as [|[k v] l Hv Hf IH]; [split; constructor|].
  apply NoDup_cons in Hd as [Hk Hd]. destruct (IH Hd) as [Hd2 Hf2].
  change (fields_of ((k, v) :: l)) with (opt_field k v ++ fields_of l).
  destruct v as [v|]; [|done]. cbn. split; [|by apply Forall_cons]. apply NoDup_cons. split; [|done].
  by intros ?%fields_of_keys.
Qed.

Lemma lookup_field_wf k fields : object_ok fields → wf_opt (lookup_field k fields).
Proof.
  intros [_ Hf]%object_ok_spec. destruct (lookup_field k fields) as [v|] eqn:E; [|done]. apply lookup_field_elem in E.
  rewrite Forall_forall in Hf. by apply (Hf _ E).
Qed.

Lemma field_wf k v : json_wf v → wf_opt (field k v).
Proof. intros Hv. destruct v; try done. by apply lookup_field_wf. Qed.
