(* ===== verification/MeshRepo.v ===== *)
(** * Mesh repository (packages/storage/src/mesh-repo.ts, contracts/src/mesh.ts)

    The database tables behind the mesh: nodes, join tokens, leases with fencing
    tokens, session owners with epochs, the replication log and its offsets.
    A table is a map from its primary key; a statement of the constructor is a
    definition with the statement's name.  [new Date().toISOString()] and
    [randomUUID()] are arguments, SHA-256 is a parameter. *)
From stdpp Require Import pretty.
From S2P Require Import Prelude.
From S2P Require Import JsString.
From S2P Require Import JsJson.
From S2P Require Import JsTime.
From S2P Require Import Errors.

(** ** The records of the mesh API (packages/contracts/src/mesh.ts)

    Field names that several records share carry a prefix naming their record.
    Tokens, epochs and durations are the integers the routes accept. *)

Inductive MeshTransport : Set := lan | wan | tailnet.
Inductive MeshNodeStatus : Set := online | suspect | offline.

#[export] Instance MeshTransport_eq_dec : EqDecision MeshTransport.
Proof. solve_decision. Defined.
#[export] Instance MeshNodeStatus_eq_dec : EqDecision MeshNodeStatus.
Proof. solve_decision. Defined.

Record MeshNodeRecord := mkNode {
  nodeId : string;
  label : option string;
  advertiseAddress : option string;
  transport : MeshTransport;
  node_status : MeshNodeStatus;
  capabilities : list string;
  tlsFingerprint : option string;
  joinedAt : string;
  lastSeenAt : string;
}.

Record MeshLeaseRecord := mkLease {
  leaseKey : string;
  holderNodeId : string;
  fencingToken : Z;
  lease_expiresAt : string;
  lease_updatedAt : string;
}.

Record MeshSessionOwnerRecord := mkSessionOwner {
  sessionId : string;
  ownerNodeId : string;
  epoch : Z;
  claimedAt : string;
  owner_updatedAt : string;
}.

Record MeshReplicationRecord := mkReplication {
  replicationId : string;
  sourceNodeId : string;
  eventType : string;
  payload : list (string * json);
  idempotencyKey : string;
  replication_createdAt : string;
}.

Record MeshReplicationOffset := mkOffset {
  consumerNodeId : string;
  offset_sourceNodeId : string;
  lastReplicationId : option string;
  offset_updatedAt : string;
}.

Record MeshStatus := mkMeshStatus {
  enabled : bool;
  mesh_mode : MeshTransport;
  localNodeId : string;
  tailnetEnabled : bool;
  nodesOnline : Z;
  activeLeases : Z;
  ownedSessions : Z;
}.

Inductive MeshReadinessStatus : Set := ready | blocked | not_enabled.

Inductive MeshReadinessKey : Set :=
  | local_node
  | join_token_lifecycle
  | mtls_tailnet_posture
  | lease_lifecycle
  | session_owner_failover
  | replication_offsets
  | gateway_route_visibility
  | settings_visibility.

Inductive CheckStatus : Set := check_pass | check_warn | check_fail.

(** A readiness check; the [evidence] bag is a JSON object. *)
Record MeshReadinessCheck := mkCheck {
  check_key : MeshReadinessKey;
  check_status : CheckStatus;
  check_message : string;
  evidence : option (list (string * json));
}.

Record MeshReadinessDiagnostics := mkDiagnostics {
  generatedAt : string;
  readiness : MeshReadinessStatus;
  statusSnapshot : MeshStatus;
  checks : list MeshReadinessCheck;
  blockers : list string;
  evidenceLane : string;
}.

Record MeshJoinRequest := mkJoinRequest {
  join_token : string;
  join_nodeId : string;
  join_label : option string;
  join_advertiseAddress : option string;
  join_transport : option MeshTransport;
  join_capabilities : option (list string);
  join_tlsFingerprint : option string;
}.

Record MeshJoinResult := mkJoinResult {
  accepted : bool;
  joined_node : MeshNodeRecord;
}.

Record MeshLeaseAcquireRequest := mkAcquire {
  acquire_leaseKey : string;
  acquire_holderNodeId : string;
  acquire_ttlSeconds : option Z;
}.

Record MeshLeaseRenewRequest := mkRenew {
  renew_leaseKey : string;
  renew_holderNodeId : string;
  renew_fencingToken : Z;
  renew_ttlSeconds : option Z;
}.

Record MeshLeaseReleaseRequest := mkRelease {
  release_leaseKey : string;
  release_holderNodeId : string;
  release_fencingToken : Z;
}.

Record MeshSessionClaimRequest := mkClaim {
  claim_ownerNodeId : string;
  expectedEpoch : option Z;
  force : option bool;
}.

Record MeshReplicationIngestRequest := mkIngest {
  ingest_sourceNodeId : string;
  ingest_eventType : string;
  ingest_payload : list (string * json);
  ingest_idempotencyKey : string;
}.

(** ** Rows *)

Record MeshNodeRow := mkNodeRow {
  node_id : string;
  row_label : option string;
  advertise_address : option string;
  row_transport : MeshTransport;
  row_status : MeshNodeStatus;
  capabilities_json : string;
  tls_fingerprint : option string;
  joined_at : string;
  last_seen_at : string;
}.

Record MeshJoinTokenRow := mkJoinTokenRow {
  token_hash : string;
  token_created_at : string;
  token_expires_at : string;
  used_at : option string;
  used_by_node_id : option string;
}.

Record MeshLeaseRow := mkLeaseRow {
  lease_key : string;
  holder_node_id : string;
  fencing_token : Z;
  lease_expires_at : string;
  lease_updated_at : string;
}.

Record MeshSessionOwnerRow := mkOwnerRow {
  session_id : string;
  owner_node_id : string;
  row_epoch : Z;
  claimed_at : string;
  owner_updated_at : string;
}.

Record MeshReplicationRow := mkReplicationRow {
  replication_id : string;
  source_node_id : string;
  event_type : string;
  payload_json : string;
  idempotency_key : string;
  created_at : string;
}.

Record MeshReplicationOffsetRow := mkOffsetRow {
  consumer_node_id : string;
  offset_source_node_id : string;
  last_replication_id : option string;
  offset_updated_at : string;
}.

(** [MeshRuntimeArtifactSnapshot]; [snap_joinToken] is the token row with its
    nulls as [undefined]. *)
Record MeshRuntimeArtifactSnapshot := mkSnapshot {
  snap_nodeId : string;
  snap_node : option MeshNodeRecord;
  snap_tokenHash : option string;
  snap_joinToken : option MeshJoinTokenRow;
}.

(** The tables. *)
Record mesh_db := mkMeshDb {
  mesh_nodes : gmap string MeshNodeRow;
  mesh_join_tokens : gmap string MeshJoinTokenRow;
  mesh_leases : gmap string MeshLeaseRow;
  mesh_session_owners : gmap string MeshSessionOwnerRow;
  mesh_replication_log : gmap string MeshReplicationRow;
  mesh_replication_offsets : gmap (string * string) MeshReplicationOffsetRow;
}.

#[export] Instance mesh_db_eta : Eta mesh_db := λ d,
  mkMeshDb (mesh_nodes d) (mesh_join_tokens d) (mesh_leases d) (mesh_session_owners d)
    (mesh_replication_log d) (mesh_replication_offsets d).
#[export] Instance node_row_eta : Eta MeshNodeRow := λ r,
  mkNodeRow (node_id r) (row_label r) (advertise_address r) (row_transport r) (row_status r)
    (capabilities_json r) (tls_fingerprint r) (joined_at r) (last_seen_at r).
#[export] Instance token_row_eta : Eta MeshJoinTokenRow := λ r,
  mkJoinTokenRow (token_hash r) (token_created_at r) (token_expires_at r) (used_at r) (used_by_node_id r).
#[export] Instance owner_row_eta : Eta MeshSessionOwnerRow := λ r,
  mkOwnerRow (session_id r) (owner_node_id r) (row_epoch r) (claimed_at r) (owner_updated_at r).

Notation mesh := (M js_error mesh_db).

(** ** Rows to records *)

(** [parsed.every((entry) => typeof entry === "string") ? parsed : []]. *)
Fixpoint json_strings (l : list json) : option (list string) :=
  match l with
  | [] => Some []
  | JString s :: l' => cons s <$> json_strings l'
  | _ :: _ => None
  end.

Definition parseMeshCapabilities (value : string) : list string :=
  match safeJsonParse value (JArray []) with
  | JArray parsed => default [] (json_strings parsed)
  | _ => []
  end.

Definition parseMeshPayload (value : string) : list (string * json) :=
  match safeJsonParse value (JObject []) with
  | JObject parsed => parsed
  | _ => []
  end.

Definition mapNodeRow (row : MeshNodeRow) : MeshNodeRecord :=
  mkNode (node_id row) (row_label row) (advertise_address row) (row_transport row) (row_status row)
    (parseMeshCapabilities (capabilities_json row)) (tls_fingerprint row) (joined_at row) (last_seen_at row).

Definition mapLeaseRow (row : MeshLeaseRow) : MeshLeaseRecord :=
  mkLease (lease_key row) (holder_node_id row) (fencing_token row) (lease_expires_at row) (lease_updated_at row).

Definition mapSessionOwnerRow (row : MeshSessionOwnerRow) : MeshSessionOwnerRecord :=
  mkSessionOwner (session_id row) (owner_node_id row) (row_epoch row) (claimed_at row) (owner_updated_at row).

Definition mapReplicationRow (row : MeshReplicationRow) : MeshReplicationRecord :=
  mkReplication (replication_id row) (source_node_id row) (event_type row) (parseMeshPayload (payload_json row))
    (idempotency_key row) (created_at row).

Definition mapOffsetRow (row : MeshReplicationOffsetRow) : MeshReplicationOffset :=
  mkOffset (consumer_node_id row) (offset_source_node_id row) (last_replication_id row) (offset_updated_at row).

(** [JSON.stringify(capabilities)]. *)
Definition stringify_capabilities (caps : list string) : string :=
  json_stringify (JArray (JString <$> caps)).

(** [addSeconds]: [None] is the [RangeError] of [toISOString]. *)
Definition addSeconds (isoTimestamp : string) (seconds : Z) : res string :=
  match date_to_iso ((λ ms, ms + seconds * 1000) <$> date_parse isoTimestamp) with
  | Some s => Ok s
  | None => Err (JsRangeError "Invalid time value")
  end.

(** ** Statements *)

(** A row of the node as [upsertNodeStmt] and [restoreNodeStmt] bind it. *)
Definition bind_node (node : MeshNodeRecord) : MeshNodeRow :=
  mkNodeRow (nodeId node) (label node) (advertiseAddress node) (transport node) (node_status node)
    (stringify_capabilities (capabilities node)) (tlsFingerprint node) (joinedAt node) (lastSeenAt node).

(** [ON CONFLICT(node_id) DO UPDATE SET] every column but [joined_at]. *)
Definition upsertNodeStmt (node : MeshNodeRecord) : mesh unit :=
  modify (λ d, d <| mesh_nodes :=
    sql_upsert (λ old excluded, excluded <| joined_at := joined_at old |>)
      (nodeId node) (bind_node node) (mesh_nodes d) |>).

Definition restoreNodeStmt (node : MeshNodeRecord) : mesh unit :=
  modify (λ d, d <| mesh_nodes :=
    sql_upsert (λ old excluded, excluded) (nodeId node) (bind_node node) (mesh_nodes d) |>).

Definition deleteNodeStmt (id : string) : mesh unit :=
  modify (λ d, d <| mesh_nodes := delete id (mesh_nodes d) |>).

(** A refused [INSERT]: the primary key exists. *)
Definition sql_insert {K V} `{Countable K} (get : mesh_db → gmap K V) (set : gmap K V → mesh_db → mesh_db)
    (k : K) (v : V) : mesh unit := λ d,
  match get d !! k with
  | Some _ => (Err (SqliteConstraintError "UNIQUE constraint failed"), d)
  | None => (Ok tt, set (<[k := v]> (get d)) d)
  end.

Definition insertLeaseStmt (row : MeshLeaseRow) : mesh unit :=
  sql_insert mesh_leases (λ t d, d <| mesh_leases := t |>) (lease_key row) row.

(** Compare-and-swap on the fencing token; returns [changes]. *)
Definition updateLeaseStmt (row : MeshLeaseRow) (expectedFencingToken : Z) : mesh Z := λ d,
  let '(changes, t) := sql_update (λ old, fencing_token old =? expectedFencingToken)
    (λ _, row) (lease_key row) (mesh_leases d) in
  (Ok changes, d <| mesh_leases := t |>).

Definition releaseLeaseStmt (key holder : string) (token : Z) : mesh Z := λ d,
  let '(changes, t) := sql_delete
    (λ old, bool_decide (holder_node_id old = holder) && (fencing_token old =? token)) key (mesh_leases d) in
  (Ok changes, d <| mesh_leases := t |>).

Definition insertSessionOwnerStmt (row : MeshSessionOwnerRow) : mesh unit :=
  sql_insert mesh_session_owners (λ t d, d <| mesh_session_owners := t |>) (session_id row) row.

(** Compare-and-swap on the epoch; [claimed_at] is kept. *)
Definition updateSessionOwnerStmt (session owner : string) (newEpoch : Z) (updatedAt : string)
    (expected : Z) : mesh Z := λ d,
  let '(changes, t) := sql_update (λ old, row_epoch old =? expected)
    (λ old, old <| owner_node_id := owner |> <| row_epoch := newEpoch |> <| owner_updated_at := updatedAt |>)
    session (mesh_session_owners d) in
  (Ok changes, d <| mesh_session_owners := t |>).

(** The row with a given [UNIQUE (source_node_id, idempotency_key)]. *)
Definition has_source_key (source key : string) (row : MeshReplicationRow) : bool :=
  bool_decide (source_node_id row = source) && bool_decide (idempotency_key row = key).

(** [INSERT ... ON CONFLICT DO NOTHING], under the primary key and the unique
    pair of columns. *)
Definition appendReplicationStmt (row : MeshReplicationRow) : mesh unit :=
  modify (λ d, d <| mesh_replication_log :=
    if existsb (has_source_key (source_node_id row) (idempotency_key row)) (map_to_list (mesh_replication_log d)).*2
    then mesh_replication_log d
    else (sql_insert_ignore (replication_id row) row (mesh_replication_log d)).2 |>).

Definition getReplicationBySourceAndIdempotencyStmt (source key : string) (d : mesh_db) : option MeshReplicationRow :=
  head (sql_rows (has_source_key source key) (mesh_replication_log d)).

(** [ORDER BY created_at ASC, replication_id ASC]. *)
Definition replication_le (a b : MeshReplicationRow) : bool :=
  string_ltb (created_at a) (created_at b) ||
  bool_decide (created_at a = created_at b) && string_leb (replication_id a) (replication_id b).

Definition listReplicationStmt (limit : Z) (d : mesh_db) : list MeshReplicationRow :=
  sql_limit limit (order_by replication_le (sql_rows (λ _, true) (mesh_replication_log d))).

(** The keyset join with the cursor's row: no row when there is no cursor row. *)
Definition after_cursor (cursor : MeshReplicationRow) (row : MeshReplicationRow) : bool :=
  string_ltb (created_at cursor) (created_at row) ||
  bool_decide (created_at row = created_at cursor) && string_ltb (replication_id cursor) (replication_id row).

Definition listReplicationSinceStmt (limit : Z) (cursor : string) (d : mesh_db) : list MeshReplicationRow :=
  match mesh_replication_log d !! cursor with
  | None => []
  | Some cursor_row =>
      sql_limit limit (order_by replication_le (sql_rows (after_cursor cursor_row) (mesh_replication_log d)))
  end.

Definition setOffsetStmt (row : MeshReplicationOffsetRow) : mesh unit :=
  modify (λ d, d <| mesh_replication_offsets :=
    sql_upsert (λ _ excluded, excluded) (consumer_node_id row, offset_source_node_id row) row
      (mesh_replication_offsets d) |>).

(** A token row that is already used is left alone. *)
Definition insertJoinTokenStmt (hash createdAt expiresAt : string) : mesh unit :=
  modify (λ d, d <| mesh_join_tokens :=
    sql_upsert
      (λ old excluded,
        match used_at old with
        | None => old <| token_created_at := token_created_at excluded |>
                      <| token_expires_at := token_expires_at excluded |>
        | Some _ => old
        end)
      hash (mkJoinTokenRow hash createdAt expiresAt None None) (mesh_join_tokens d) |>).

Definition restoreJoinTokenStmt (row : MeshJoinTokenRow) : mesh unit :=
  modify (λ d, d <| mesh_join_tokens :=
    sql_upsert (λ _ excluded, excluded) (token_hash row) row (mesh_join_tokens d) |>).

Definition deleteJoinTokenStmt (hash : string) : mesh unit :=
  modify (λ d, d <| mesh_join_tokens := delete hash (mesh_join_tokens d) |>).

(** Single use: unused and unexpired, by text comparison of timestamps. *)
Definition consumeJoinTokenStmt (hash usedAt usedByNodeId : string) : mesh Z := λ d,
  let '(changes, t) := sql_update
    (λ old, match used_at old with None => string_ltb usedAt (token_expires_at old) | Some _ => false end)
    (λ old, old <| used_at := Some usedAt |> <| used_by_node_id := Some usedByNodeId |>)
    hash (mesh_join_tokens d) in
  (Ok changes, d <| mesh_join_tokens := t |>).

(** [statusCountsStmt]: [SUM] over no rows is NULL, read as 0. *)
Definition count_rows {K V} `{Countable K} (p : V → bool) (t : gmap K V) : Z :=
  Z.of_nat (length (sql_rows p t)).

(** ** Operations *)

Section operations.
Context (sha256_hex : string → string).

Definition hashJoinToken (rawToken : string) : string := sha256_hex rawToken.

Definition getNode (id : string) : mesh MeshNodeRecord := λ d,
  match mesh_nodes d !! id with
  | Some row => (Ok (mapNodeRow row), d)
  | None => (Err (NotFoundError (NotFoundEntity "Mesh node" (Some id))), d)
  end.

Definition upsertNode (node : MeshNodeRecord) : mesh MeshNodeRecord :=
  upsertNodeStmt node ;; getNode (nodeId node).

(** [ORDER BY last_seen_at DESC LIMIT @limit]. *)
Definition listNodes (limit : Z) : mesh (list MeshNodeRecord) :=
  gets (λ d, mapNodeRow <$> sql_limit limit
    (order_by (λ a b, string_leb (last_seen_at b) (last_seen_at a)) (sql_rows (λ _, true) (mesh_nodes d)))).

Definition issueJoinToken (clock rawToken expiresAt : string) : mesh unit :=
  insertJoinTokenStmt (hashJoinToken rawToken) clock expiresAt.

Definition snapshotRuntimeArtifacts (id : string) (rawToken : option string) : mesh MeshRuntimeArtifactSnapshot :=
  gets (λ d,
    let normalizedToken := trim <$> rawToken in
    let tokenHash := if truthy_opt normalizedToken then hashJoinToken <$> normalizedToken else None in
    mkSnapshot id (mapNodeRow <$> mesh_nodes d !! id) tokenHash
      (tokenHash ≫= λ h, mesh_join_tokens d !! h)).

Definition restoreRuntimeArtifacts (snapshot : MeshRuntimeArtifactSnapshot) : mesh unit :=
  match snap_node snapshot with
  | Some node => restoreNodeStmt node
  | None => deleteNodeStmt (snap_nodeId snapshot)
  end ;;
  match snap_tokenHash snapshot with
  | None | Some EmptyString => mret tt
  | Some hash =>
      match snap_joinToken snapshot with
      | Some token => restoreJoinTokenStmt token
      | None => deleteJoinTokenStmt hash
      end
  end.

Definition consumeJoinToken (rawToken usedByNodeId now : string) : mesh bool :=
  changes ← consumeJoinTokenStmt (hashJoinToken rawToken) now usedByNodeId;
  mret (0 <? changes).

(** Leases.  [acquireLease] reads the row and then writes; the part after the
    read is a definition of its own, so that two callers can be interleaved. *)
Definition getLease (key : string) : mesh MeshLeaseRecord := λ d,
  match mesh_leases d !! key with
  | Some row => (Ok (mapLeaseRow row), d)
  | None => (Err (NotFoundError (NotFoundEntity "Lease" (Some key))), d)
  end.

Definition leaseConflict (message : string) : js_error := ConflictError (Some STATE_CONFLICT) message.

Definition acquireLeaseFrom (current : option MeshLeaseRow) (key holder : string) (ttlSeconds : Z) (now : string)
    : mesh MeshLeaseRecord :=
  expiresAt ← lift (addSeconds now ttlSeconds);
  match current with
  | None =>
      insertLeaseStmt (mkLeaseRow key holder 1 expiresAt now) ;; getLease key
  | Some current =>
      guard_throw
        (negb (bool_decide (holder_node_id current = holder)) &&
         num_gtb (date_parse (lease_expires_at current)) (date_parse now))
        (leaseConflict ("Lease " +:+ key +:+ " is currently held by " +:+ holder_node_id current)) ;;
      let nextToken :=
        if bool_decide (holder_node_id current = holder) then fencing_token current
        else fencing_token current + 1 in
      changes ← updateLeaseStmt (mkLeaseRow key holder nextToken expiresAt now) (fencing_token current);
      guard_throw (changes =? 0)
        (leaseConflict ("Lease " +:+ key +:+ " was concurrently modified during acquisition")) ;;
      getLease key
  end.

Definition acquireLease (key holder : string) (ttlSeconds : Z) (now : string) : mesh MeshLeaseRecord :=
  current ← gets (λ d, mesh_leases d !! key);
  acquireLeaseFrom current key holder ttlSeconds now.

Definition renewLeaseFrom (current : MeshLeaseRecord) (key holder : string) (token ttlSeconds : Z) (now : string)
    : mesh MeshLeaseRecord :=
  guard_throw
    (negb (bool_decide (holderNodeId current = holder)) || negb (fencingToken current =? token))
    (leaseConflict ("Lease " +:+ key +:+ " fencing token mismatch")) ;;
  guard_throw (num_leb (date_parse (lease_expiresAt current)) (date_parse now))
    (leaseConflict ("Lease " +:+ key +:+ " is expired")) ;;
  expiresAt ← lift (addSeconds now ttlSeconds);
  changes ← updateLeaseStmt (mkLeaseRow key holder token expiresAt now) token;
  guard_throw (changes =? 0) (leaseConflict ("Lease " +:+ key +:+ " fencing token mismatch")) ;;
  getLease key.

Definition renewLease (key holder : string) (token ttlSeconds : Z) (now : string) : mesh MeshLeaseRecord :=
  current ← getLease key;
  renewLeaseFrom current key holder token ttlSeconds now.

Definition releaseLease (key holder : string) (token : Z) : mesh bool :=
  changes ← releaseLeaseStmt key holder token; mret (0 <? changes).

Definition listLeases (limit : Z) : mesh (list MeshLeaseRecord) :=
  gets (λ d, mapLeaseRow <$> sql_limit limit
    (order_by (λ a b, string_leb (lease_updated_at b) (lease_updated_at a)) (sql_rows (λ _, true) (mesh_leases d)))).

(** Session owners. *)
Definition getSessionOwner (session : string) : mesh MeshSessionOwnerRecord := λ d,
  match mesh_session_owners d !! session with
  | Some row => (Ok (mapSessionOwnerRow row), d)
  | None => (Err (NotFoundError (NotFoundEntity "Session owner" (Some session))), d)
  end.

Definition claimSessionOwnerFrom (current : option MeshSessionOwnerRow) (session : string)
    (input : MeshSessionClaimRequest) (now : string) : mesh MeshSessionOwnerRecord :=
  match current with
  | None =>
      insertSessionOwnerStmt (mkOwnerRow session (claim_ownerNodeId input) 1 now now) ;;
      getSessionOwner session
  | Some current =>
      let canTakeOver :=
        default false (force input) ||
        bool_decide (owner_node_id current = claim_ownerNodeId input) ||
        bool_decide (expectedEpoch input = Some (row_epoch current)) in
      guard_throw (negb canTakeOver)
        (leaseConflict ("Session " +:+ session +:+ " is owned by " +:+ owner_node_id current +:+
          " at epoch " +:+ pretty (row_epoch current))) ;;
      changes ← updateSessionOwnerStmt session (claim_ownerNodeId input) (row_epoch current + 1) now (row_epoch current);
      guard_throw (changes =? 0)
        (leaseConflict ("Session " +:+ session +:+ " ownership was concurrently claimed")) ;;
      getSessionOwner session
  end.

Definition claimSessionOwner (session : string) (input : MeshSessionClaimRequest) (now : string)
    : mesh MeshSessionOwnerRecord :=
  current ← gets (λ d, mesh_session_owners d !! session);
  claimSessionOwnerFrom current session input now.

Definition listSessionOwners (limit : Z) : mesh (list MeshSessionOwnerRecord) :=
  gets (λ d, mapSessionOwnerRow <$> sql_limit limit
    (order_by (λ a b, string_leb (owner_updated_at b) (owner_updated_at a)) (sql_rows (λ _, true) (mesh_session_owners d)))).

(** Replication. *)
Definition appendReplicationEvent (now uuid : string) (input : MeshReplicationIngestRequest)
    : mesh MeshReplicationRecord :=
  appendReplicationStmt (mkReplicationRow uuid (ingest_sourceNodeId input) (ingest_eventType input)
    (json_stringify (JObject (ingest_payload input))) (ingest_idempotencyKey input) now) ;;
  row ← gets (getReplicationBySourceAndIdempotencyStmt (ingest_sourceNodeId input) (ingest_idempotencyKey input));
  match row with
  | None => throw (NotFoundError (NotFoundMessage "Unable to persist replication event"))
  | Some row => mret (mapReplicationRow row)
  end.

Definition listReplicationEvents (limit : Z) (cursor : option string) : mesh (list MeshReplicationRecord) :=
  match cursor with
  | None => gets (λ d, mapReplicationRow <$> listReplicationStmt limit d)
  | Some cursor =>
      cursorRow ← gets (λ d, mesh_replication_log d !! cursor);
      match cursorRow with
      | None => throw (NotFoundError (NotFoundEntity "Replication cursor" (Some cursor)))
      | Some _ => gets (λ d, mapReplicationRow <$> listReplicationSinceStmt limit cursor d)
      end
  end.

Definition getReplicationOffset (consumer source : string) : mesh MeshReplicationOffset := λ d,
  match mesh_replication_offsets d !! (consumer, source) with
  | Some row => (Ok (mapOffsetRow row), d)
  | None => (Err (NotFoundError (NotFoundMessage
      ("Replication offset not found for " +:+ consumer +:+ " <= " +:+ source))), d)
  end.

Definition setReplicationOffset (consumer source : string) (last : option string) (now : string)
    : mesh MeshReplicationOffset :=
  setOffsetStmt (mkOffsetRow consumer source last now) ;; getReplicationOffset consumer source.

Definition listReplicationOffsets (limit : Z) : mesh (list MeshReplicationOffset) :=
  gets (λ d, mapOffsetRow <$> sql_limit limit
    (order_by (λ a b, string_leb (offset_updated_at b) (offset_updated_at a))
      (sql_rows (λ _, true) (mesh_replication_offsets d)))).

(** Status and joining. *)
Definition buildStatus (clock : string) (is_enabled : bool) (mode : MeshTransport) (local : string) : mesh MeshStatus :=
  gets (λ d, mkMeshStatus is_enabled mode local (bool_decide (mode = tailnet))
    (count_rows (λ n, bool_decide (row_status n = online)) (mesh_nodes d))
    (count_rows (λ l, string_ltb clock (lease_expires_at l)) (mesh_leases d))
    (count_rows (λ _, true) (mesh_session_owners d))).

Definition join (input : MeshJoinRequest) (now : string) : mesh MeshNodeRecord :=
  accepted ← consumeJoinToken (join_token input) (join_nodeId input) now;
  guard_throw (negb accepted)
    (ValidationError None None (Some "Join token is invalid, expired, or already used")) ;;
  upsertNode (mkNode (join_nodeId input) (join_label input) (join_advertiseAddress input)
    (default lan (join_transport input)) online (default [] (join_capabilities input))
    (join_tlsFingerprint input) now now).
End operations.
