(* ===== verification/MeshTheorems.v ===== *)
(** * What the mesh repository guarantees

    The effect of each operation as an equation on the tables, the invariant
    that every operation keeps, and the lease, ownership, token and replication
    guarantees that follow. *)
From S2P Require Import Prelude.
From S2P Require Import JsString.
From S2P Require Import JsJson.
From S2P Require Import JsTime.
From S2P Require Import Errors.
From S2P Require Import MeshRepo.

(** ** Effects *)

Lemma modify_run {E S} (f : S → S) s : modify (E:=E) f s = (Ok tt, f s).
Proof. reflexivity. Qed.

(** A lease that someone else holds and that has not expired. *)
Definition held_by_other (row : MeshLeaseRow) (holder now : string) : bool :=
  negb (bool_decide (holder_node_id row = holder)) &&
  num_gtb (date_parse (lease_expires_at row)) (date_parse now).

(** The row [acquireLease] leaves. *)
Definition acquired_row (current : option MeshLeaseRow) (key holder expiresAt now : string) : MeshLeaseRow :=
  let token :=
    match current with
    | None => 1
    | Some c => if bool_decide (holder_node_id c = holder) then fencing_token c else fencing_token c + 1
    end in
  mkLeaseRow key holder token expiresAt now.

Lemma acquireLease_effect key holder ttl now d :
  acquireLease key holder ttl now d =
  match addSeconds now ttl with
  | Err e => (Err e, d)
  | Ok expiresAt =>
      let current := mesh_leases d !! key in
      match current with
      | Some c =>
          if held_by_other c holder now
          then (Err (leaseConflict ("Lease " +:+ key +:+ " is currently held by " +:+ holder_node_id c)), d)
          else
            let row := acquired_row current key holder expiresAt now in
            (Ok (mapLeaseRow row), d <| mesh_leases := <[key := row]> (mesh_leases d) |>)
      | None =>
          let row := acquired_row current key holder expiresAt now in
          (Ok (mapLeaseRow row), d <| mesh_leases := <[key := row]> (mesh_leases d) |>)
      end
  end.
Proof.
  unfold acquireLease, acquireLeaseFrom, mbind, M_bind, gets, lift. cbn.
  destruct (addSeconds now ttl) as [e|]; [|done]. destruct (mesh_leases d !! key) as [c|] eqn:Hc.
  - unfold guard_throw, lift, throw_when. fold (held_by_other c holder now).
    destruct (held_by_other c holder now); [done|].
    unfold updateLeaseStmt, sql_update. cbn. rewrite Hc, Z.eqb_refl. cbn.
    unfold getLease. cbn. by rewrite lookup_insert_eq.
  - unfold insertLeaseStmt, sql_insert. cbn. rewrite Hc. unfold getLease. cbn. by rewrite lookup_insert_eq.
Qed.

(** What [renewLease] requires of the row. *)
Definition renewable (row : MeshLeaseRow) (holder : string) (token : Z) (now : string) : bool :=
  bool_decide (holder_node_id row = holder) && (fencing_token row =? token) &&
  negb (num_leb (date_parse (lease_expires_at row)) (date_parse now)).

Lemma renewLease_effect key holder token ttl now d :
  match mesh_leases d !! key with
  | None => renewLease key holder token ttl now d = (Err (NotFoundError (NotFoundEntity "Lease" (Some key))), d)
  | Some c =>
      if renewable c holder token now then
        match addSeconds now ttl with
        | Err e => renewLease key holder token ttl now d = (Err e, d)
        | Ok expiresAt =>
            let row := mkLeaseRow key holder token expiresAt now in
            renewLease key holder token ttl now d =
              (Ok (mapLeaseRow row), d <| mesh_leases := <[key := row]> (mesh_leases d) |>)
        end
      else ∃ m, renewLease key holder token ttl now d = (Err (leaseConflict m), d)
  end.
Proof.
  destruct (mesh_leases d !! key) as [c|] eqn:Hc.
  2: { unfold renewLease, mbind, M_bind, getLease. by rewrite Hc. }
  assert (Hget : getLease key d = (Ok (mapLeaseRow c), d)) by (unfold getLease; by rewrite Hc).
  unfold renewLease, mbind, M_bind. rewrite Hget. unfold renewLeaseFrom, renewable, mbind, M_bind.
  unfold guard_throw, lift, throw_when. cbn -[mapLeaseRow].
  change (holderNodeId (mapLeaseRow c)) with (holder_node_id c).
  change (fencingToken (mapLeaseRow c)) with (fencing_token c).
  change (lease_expiresAt (mapLeaseRow c)) with (lease_expires_at c).
  case_bool_decide as Hh; cbn; [|by eexists].
  destruct (Z.eqb_spec (fencing_token c) token) as [<-|]; cbn; [|by eexists].
  destruct (num_leb _ _); cbn; [by eexists|].
  destruct (addSeconds now ttl) as [e|]; [|done].
  unfold updateLeaseStmt, sql_update. cbn. rewrite Hc, Z.eqb_refl. cbn.
  unfold getLease. cbn. by rewrite lookup_insert_eq.
Qed.

Lemma releaseLease_effect key holder token d :
  releaseLease key holder token d =
  match mesh_leases d !! key with
  | Some c =>
      if bool_decide (holder_node_id c = holder) && (fencing_token c =? token)
      then (Ok true, d <| mesh_leases := delete key (mesh_leases d) |>)
      else (Ok false, d)
  | None => (Ok false, d)
  end.
Proof.
  unfold releaseLease, releaseLeaseStmt, sql_delete, mbind, M_bind. destruct d; cbn.
  destruct (_ !! key); [|done]. by destruct (_ && _).
Qed.

(** The claims that [claimSessionOwner] accepts on an owned session. *)
Definition can_take_over (row : MeshSessionOwnerRow) (input : MeshSessionClaimRequest) : bool :=
  default false (force input) || bool_decide (owner_node_id row = claim_ownerNodeId input) ||
  bool_decide (expectedEpoch input = Some (row_epoch row)).

Definition claimed_row (current : option MeshSessionOwnerRow) (session : string)
    (input : MeshSessionClaimRequest) (now : string) : MeshSessionOwnerRow :=
  match current with
  | None => mkOwnerRow session (claim_ownerNodeId input) 1 now now
  | Some c => mkOwnerRow (session_id c) (claim_ownerNodeId input) (row_epoch c + 1) (claimed_at c) now
  end.

Lemma claimSessionOwner_effect session input now d :
  let current := mesh_session_owners d !! session in
  let row := claimed_row current session input now in
  if match current with Some c => can_take_over c input | None => true end
  then claimSessionOwner session input now d =
    (Ok (mapSessionOwnerRow row), d <| mesh_session_owners := <[session := row]> (mesh_session_owners d) |>)
  else ∃ m, claimSessionOwner session input now d = (Err (leaseConflict m), d).
Proof.
  unfold claimSessionOwner, claimSessionOwnerFrom, mbind, M_bind, gets. cbn.
  destruct (mesh_session_owners d !! session) as [c|] eqn:Hc.
  - fold (can_take_over c input). destruct (can_take_over c input); [|by eexists].
    unfold updateSessionOwnerStmt, sql_update. cbn. rewrite Hc, Z.eqb_refl. cbn.
    unfold getSessionOwner. cbn. by rewrite lookup_insert_eq.
  - unfold insertSessionOwnerStmt, sql_insert. cbn. rewrite Hc. unfold getSessionOwner. cbn.
    by rewrite lookup_insert_eq.
Qed.

(** A token row that can still be consumed. *)
Definition consumable (row : MeshJoinTokenRow) (now : string) : bool :=
  match used_at row with None => string_ltb now (token_expires_at row) | Some _ => false end.

Lemma consumeJoinToken_effect sha raw node now d :
  let key := hashJoinToken sha raw in
  consumeJoinToken sha raw node now d =
  match mesh_join_tokens d !! key with
  | Some row =>
      if consumable row now then
        (Ok true, d <| mesh_join_tokens :=
          <[key := row <| used_at := Some now |> <| used_by_node_id := Some node |>]> (mesh_join_tokens d) |>)
      else (Ok false, d)
  | None => (Ok false, d)
  end.
Proof.
  unfold consumeJoinToken, consumeJoinTokenStmt, sql_update, mbind, M_bind. destruct d; cbn.
  destruct (_ !! _) as [row|]; [|done]. fold (consumable row now). by destruct (consumable row now).
Qed.

Lemma upsertNode_effect node d :
  let row := bind_node node in
  let row := match mesh_nodes d !! nodeId node with
             | Some old => row <| joined_at := joined_at old |>
             | None => row
             end in
  upsertNode node d = (Ok (mapNodeRow row), d <| mesh_nodes := <[nodeId node := row]> (mesh_nodes d) |>).
Proof.
  unfold upsertNode, upsertNodeStmt, sql_upsert, getNode, mbind, M_bind, modify. cbn.
  destruct (mesh_nodes d !! nodeId node); cbn; by rewrite lookup_insert_eq.
Qed.

Lemma append_row_effect row d :
  let found := existsb (has_source_key (source_node_id row) (idempotency_key row))
                 (map_to_list (mesh_replication_log d)).*2 in
  appendReplicationStmt row d =
    (Ok tt, d <| mesh_replication_log :=
      if found then mesh_replication_log d
      else match mesh_replication_log d !! replication_id row with
           | Some _ => mesh_replication_log d
           | None => <[replication_id row := row]> (mesh_replication_log d)
           end |>).
Proof.
  unfold appendReplicationStmt, modify, sql_insert_ignore. cbn.
  destruct (existsb _ _); [done|]. by destruct (_ !! replication_id row).
Qed.

(** ** Well-formed tables *)

(** Every row is stored under its own key, JSON columns hold what the program
    writes, counters have started, and no two replication rows share a source
    and an idempotency key. *)
Record mesh_wf (d : mesh_db) : Prop := {
  wf_nodes k r : mesh_nodes d !! k = Some r →
    node_id r = k ∧ ∃ caps, capabilities_json r = stringify_capabilities caps;
  wf_tokens k r : mesh_join_tokens d !! k = Some r → token_hash r = k;
  wf_leases k r : mesh_leases d !! k = Some r → lease_key r = k ∧ 1 ≤ fencing_token r;
  wf_owners k r : mesh_session_owners d !! k = Some r → session_id r = k ∧ 1 ≤ row_epoch r;
  wf_log k r : mesh_replication_log d !! k = Some r → replication_id r = k;
  wf_log_unique k1 k2 r1 r2 :
    mesh_replication_log d !! k1 = Some r1 → mesh_replication_log d !! k2 = Some r2 →
    source_node_id r1 = source_node_id r2 → idempotency_key r1 = idempotency_key r2 → k1 = k2;
  wf_offsets k r : mesh_replication_offsets d !! k = Some r →
    (consumer_node_id r, offset_source_node_id r) = k;
}.

(** A property of every row survives an insertion of a row that has it. *)
Lemma insert_rows {K V} `{Countable K} (P : K → V → Prop) (t : gmap K V) k v :
  P k v → (∀ k r, t !! k = Some r → P k r) → ∀ k' r, <[k := v]> t !! k' = Some r → P k' r.
Proof. intros Hv Ht k' r [[-> ->]|[_ Hk]]%lookup_insert_Some; auto. Qed.

Lemma delete_rows {K V} `{Countable K} (P : K → V → Prop) (t : gmap K V) k :
  (∀ k r, t !! k = Some r → P k r) → ∀ k' r, delete k t !! k' = Some r → P k' r.
Proof. intros Ht k' r [_ Hk]%lookup_delete_Some; auto. Qed.

Lemma upsert_rows {K V} `{Countable K} (P : K → V → Prop) (upd : V → V → V) (t : gmap K V) k v :
  P k v → (∀ old, t !! k = Some old → P k old → P k (upd old v)) →
  (∀ k r, t !! k = Some r → P k r) → ∀ k' r, sql_upsert upd k v t !! k' = Some r → P k' r.
Proof.
  intros Hv Hu Ht k' r. rewrite sql_upsert_lookup. destruct (decide (k = k')) as [<-|]; [|auto].
  destruct (t !! k) as [old|] eqn:Hk; intros [= <-]; auto.
Qed.

Definition wf_node_row (k : string) (r : MeshNodeRow) : Prop :=
  node_id r = k ∧ ∃ caps, capabilities_json r = stringify_capabilities caps.

Lemma wf_bind_node node : wf_node_row (nodeId node) (bind_node node).
Proof. split; [done|]. by exists (capabilities node). Qed.

Section preserve.
Context (d : mesh_db) (Hd : mesh_wf d).

Lemma set_nodes_wf t : (∀ k r, t !! k = Some r → wf_node_row k r) → mesh_wf (d <| mesh_nodes := t |>).
Proof. intros Ht. destruct Hd. constructor; cbn; auto. Qed.

Lemma set_tokens_wf t : (∀ k r, t !! k = Some r → token_hash r = k) → mesh_wf (d <| mesh_join_tokens := t |>).
Proof. intros Ht. destruct Hd. constructor; cbn; auto. Qed.

Lemma set_leases_wf t :
  (∀ k r, t !! k = Some r → lease_key r = k ∧ 1 ≤ fencing_token r) → mesh_wf (d <| mesh_leases := t |>).
Proof. intros Ht. destruct Hd. constructor; cbn; auto. Qed.

Lemma set_owners_wf t :
  (∀ k r, t !! k = Some r → session_id r = k ∧ 1 ≤ row_epoch r) → mesh_wf (d <| mesh_session_owners := t |>).
Proof. intros Ht. destruct Hd. constructor; cbn; auto. Qed.

Lemma upsertNode_wf node : mesh_wf (upsertNode node d).2.
Proof.
  rewrite upsertNode_effect. apply set_nodes_wf. apply insert_rows; [|apply (wf_nodes _ Hd)].
  destruct (mesh_nodes d !! nodeId node); apply wf_bind_node.
Qed.

Lemma acquireLease_wf key holder ttl now : mesh_wf (acquireLease key holder ttl now d).2.
Proof.
  rewrite acquireLease_effect. destruct (addSeconds now ttl); [|done]. cbn zeta.
  destruct (mesh_leases d !! key) as [c|] eqn:Hc.
  - destruct (held_by_other c holder now); [done|]. apply set_leases_wf.
    apply (insert_rows (λ k r, lease_key r = k ∧ 1 ≤ fencing_token r)); [|apply (wf_leases _ Hd)].
    destruct (wf_leases _ Hd _ _ Hc). split; [done|]. unfold acquired_row. cbn. case_bool_decide; lia.
  - apply set_leases_wf.
    apply (insert_rows (λ k r, lease_key r = k ∧ 1 ≤ fencing_token r)); [done|apply (wf_leases _ Hd)].
Qed.

Lemma renewLease_wf key holder token ttl now : mesh_wf (renewLease key holder token ttl now d).2.
Proof.
  pose proof (renewLease_effect key holder token ttl now d) as He.
  destruct (mesh_leases d !! key) as [c|] eqn:Hc; [|by rewrite He].
  destruct (renewable c holder token now) eqn:Hr; [|by destruct He as [m ->]].
  destruct (addSeconds now ttl); rewrite He; [|done]. apply set_leases_wf.
  apply (insert_rows (λ k r, lease_key r = k ∧ 1 ≤ fencing_token r)); [|apply (wf_leases _ Hd)].
  unfold renewable in Hr. bools. destruct (wf_leases _ Hd _ _ Hc). cbn. split; [done|lia].
Qed.

Lemma releaseLease_wf key holder token : mesh_wf (releaseLease key holder token d).2.
Proof.
  rewrite releaseLease_effect. destruct (mesh_leases d !! key); [|done]. destruct (_ && _); [|done].
  apply set_leases_wf, delete_rows, (wf_leases _ Hd).
Qed.

Lemma claimSessionOwner_wf session input now : mesh_wf (claimSessionOwner session input now d).2.
Proof.
  pose proof (claimSessionOwner_effect session input now d) as He. cbn zeta in He.
  destruct (match _ with Some c => can_take_over c input | None => true end); [|by destruct He as [m ->]].
  rewrite He. apply set_owners_wf.
  apply (insert_rows (λ k r, session_id r = k ∧ 1 ≤ row_epoch r)); [|apply (wf_owners _ Hd)].
  unfold claimed_row. destruct (mesh_session_owners d !! session) as [c|] eqn:Hc; [|done].
  destruct (wf_owners _ Hd _ _ Hc). cbn. split; [done|lia].
Qed.

Lemma consumeJoinToken_wf sha raw node now : mesh_wf (consumeJoinToken sha raw node now d).2.
Proof.
  rewrite consumeJoinToken_effect. cbn zeta. destruct (mesh_join_tokens d !! _) as [row|] eqn:Hr; [|done].
  destruct (consumable row now); [|done]. apply set_tokens_wf.
  apply (insert_rows (λ k r, token_hash r = k)); [|apply (wf_tokens _ Hd)]. apply (wf_tokens _ Hd _ _ Hr).
Qed.

Lemma issueJoinToken_wf sha clock raw expiresAt : mesh_wf (issueJoinToken sha clock raw expiresAt d).2.
Proof.
  apply set_tokens_wf. apply (upsert_rows (λ k r, token_hash r = k)); [done| |apply (wf_tokens _ Hd)].
  intros old _ Hold. by destruct (used_at old).
Qed.

Lemma setReplicationOffset_wf consumer source last now :
  mesh_wf (setReplicationOffset consumer source last now d).2.
Proof.
  unfold setReplicationOffset, setOffsetStmt, mbind, M_bind, modify, getReplicationOffset. cbn.
  rewrite sql_upsert_lookup, decide_True by done. destruct Hd. constructor; cbn; auto.
  apply (upsert_rows (λ k r, (consumer_node_id r, offset_source_node_id r) = k)); auto.
Qed.

Lemma found_source_key row :
  existsb (has_source_key (source_node_id row) (idempotency_key row)) (map_to_list (mesh_replication_log d)).*2 = true ↔
  ∃ k r, mesh_replication_log d !! k = Some r ∧ source_node_id r = source_node_id row ∧
    idempotency_key r = idempotency_key row.
Proof.
  rewrite existsb_exists. split.
  - intros (r & Hin & Hk). apply list_elem_of_In, list_elem_of_fmap in Hin as ([k r'] & -> & Hin).
    apply elem_of_map_to_list in Hin. unfold has_source_key in Hk. bools. eauto.
  - intros (k & r & Hk & H1 & H2). exists r. split.
    + apply list_elem_of_In, list_elem_of_fmap. exists (k, r). by rewrite elem_of_map_to_list.
    + unfold has_source_key. by rewrite H1, H2, !bool_decide_eq_true_2.
Qed.

Lemma appendReplicationStmt_wf row : mesh_wf (appendReplicationStmt row d).2.
Proof.
  rewrite append_row_effect. cbn zeta. destruct (existsb _ _) eqn:Hf; [by destruct Hd; constructor|].
  destruct (mesh_replication_log d !! replication_id row) eqn:Hp; [by destruct Hd; constructor|].
  assert (Hnew : ∀ k r, mesh_replication_log d !! k = Some r → source_node_id r = source_node_id row →
    idempotency_key r = idempotency_key row → False).
  { intros k r Hk H1 H2. apply not_true_iff_false in Hf. apply Hf, found_source_key. eauto. }
  destruct Hd. constructor; cbn; auto.
  - apply (insert_rows (λ k r, replication_id r = k)); auto.
  - intros k1 k2 r1 r2 [[<- <-]|[_ H1]]%lookup_insert_Some [[<- <-]|[_ H2]]%lookup_insert_Some; try done.
    + intros. exfalso. eapply Hnew; eauto.
    + intros. exfalso. eapply Hnew; eauto.
    + eauto.
Qed.
End preserve.

Lemma restoreRuntimeArtifacts_wf snapshot d : mesh_wf d → mesh_wf (restoreRuntimeArtifacts snapshot d).2.
Proof.
  intros Hd. unfold restoreRuntimeArtifacts, mbind, M_bind.
  assert (Hn : ∃ d1, (match snap_node snapshot with
     | Some node => restoreNodeStmt node | None => deleteNodeStmt (snap_nodeId snapshot) end) d = (Ok tt, d1) ∧ mesh_wf d1).
  { destruct (snap_node snapshot) as [node|]; (eexists; split; [reflexivity|]); apply set_nodes_wf; try done.
    - apply upsert_rows; [apply wf_bind_node|intros; apply wf_bind_node|apply (wf_nodes _ Hd)].
    - apply delete_rows, (wf_nodes _ Hd). }
  destruct Hn as (d1 & -> & Hd1). cbn.
  destruct (snap_tokenHash snapshot) as [[|c h]|]; try done.
  destruct (snap_joinToken snapshot) as [token|]; apply set_tokens_wf; try done.
  - apply (upsert_rows (λ k r, token_hash r = k)); [done|done|apply (wf_tokens _ Hd1)].
  - apply delete_rows, (wf_tokens _ Hd1).
Qed.

(** ** Steps: one call of the repository *)

Inductive mesh_step (sha : string → string) (d : mesh_db) : mesh_db → Prop :=
  | step_upsertNode node : mesh_step sha d (upsertNode node d).2
  | step_issueJoinToken clock raw expiresAt : mesh_step sha d (issueJoinToken sha clock raw expiresAt d).2
  | step_consumeJoinToken raw node now : mesh_step sha d (consumeJoinToken sha raw node now d).2
  | step_join input now : mesh_step sha d (join sha input now d).2
  | step_acquireLease key holder ttl now : mesh_step sha d (acquireLease key holder ttl now d).2
  | step_renewLease key holder token ttl now : mesh_step sha d (renewLease key holder token ttl now d).2
  | step_releaseLease key holder token : mesh_step sha d (releaseLease key holder token d).2
  | step_claimSessionOwner session input now : mesh_step sha d (claimSessionOwner session input now d).2
  | step_appendReplicationEvent now uuid input : mesh_step sha d (appendReplicationEvent now uuid input d).2
  | step_setReplicationOffset consumer source last now :
      mesh_step sha d (setReplicationOffset consumer source last now d).2.

(** A snapshot may also be restored. *)
Inductive mesh_step_or_restore (sha : string → string) (d : mesh_db) : mesh_db → Prop :=
  | plain_step d' : mesh_step sha d d' → mesh_step_or_restore sha d d'
  | restore_step snapshot : mesh_step_or_restore sha d (restoreRuntimeArtifacts snapshot d).2.

Lemma appendReplicationEvent_state now uuid input d :
  (appendReplicationEvent now uuid input d).2 =
  (appendReplicationStmt (mkReplicationRow uuid (ingest_sourceNodeId input) (ingest_eventType input)
    (json_stringify (JObject (ingest_payload input))) (ingest_idempotencyKey input) now) d).2.
Proof.
  unfold appendReplicationEvent, mbind, M_bind. rewrite append_row_effect. cbn -[getReplicationBySourceAndIdempotencyStmt].
  by destruct (getReplicationBySourceAndIdempotencyStmt _ _ _).
Qed.

Definition join_node (input : MeshJoinRequest) (now : string) : MeshNodeRecord :=
  mkNode (join_nodeId input) (join_label input) (join_advertiseAddress input)
    (default lan (join_transport input)) online (default [] (join_capabilities input))
    (join_tlsFingerprint input) now now.

Lemma join_effect sha input now d :
  join sha input now d =
  match consumeJoinToken sha (join_token input) (join_nodeId input) now d with
  | (Ok true, d1) => upsertNode (join_node input now) d1
  | (Ok false, d1) =>
      (Err (ValidationError None None (Some "Join token is invalid, expired, or already used")), d1)
  | (Err e, d1) => (Err e, d1)
  end.
Proof.
  unfold join, mbind, M_bind at 1. destruct (consumeJoinToken _ _ _ _ _) as [[[]|] d1]; done.
Qed.

Lemma join_wf sha input now d : mesh_wf d → mesh_wf (join sha input now d).2.
Proof.
  intros Hd. pose proof (consumeJoinToken_wf d Hd sha (join_token input) (join_nodeId input) now) as H1.
  rewrite join_effect. destruct (consumeJoinToken _ _ _ _ _) as [[[]|] d1]; [|done|done].
  by apply upsertNode_wf.
Qed.

Lemma mesh_step_wf sha d d' : mesh_wf d → mesh_step sha d d' → mesh_wf d'.
Proof.
  intros Hd. destruct 1; rewrite ?appendReplicationEvent_state;
    auto using upsertNode_wf, issueJoinToken_wf, consumeJoinToken_wf, join_wf, acquireLease_wf,
      renewLease_wf, releaseLease_wf, claimSessionOwner_wf, appendReplicationStmt_wf, setReplicationOffset_wf.
Qed.

Definition empty_mesh_db : mesh_db := mkMeshDb ∅ ∅ ∅ ∅ ∅ ∅.

Lemma empty_mesh_wf : mesh_wf empty_mesh_db.
Proof. by constructor; cbn; intros *; rewrite ?lookup_empty. Qed.

(** The tables are well formed in every state that calls of the repository,
    in any order and with any outcome, can reach from the empty database. *)
Theorem mesh_reachable_wf sha d :
  rtc (mesh_step_or_restore sha) empty_mesh_db d → mesh_wf d.
Proof.
  intros Hr. assert (Hgen : ∀ d0, rtc (mesh_step_or_restore sha) d0 d → mesh_wf d0 → mesh_wf d).
  { clear. intros d0. induction 1 as [d0|d0 d1 d2 Hs _ IH]; [done|]. intros Hd0. apply IH.
    destruct Hs; [by eapply mesh_step_wf|by apply restoreRuntimeArtifacts_wf]. }
  eauto using empty_mesh_wf.
Qed.

(** ** Leases *)

(** Only lease calls touch the leases. *)
Lemma consumeJoinToken_leases sha raw node now d :
  mesh_leases (consumeJoinToken sha raw node now d).2 = mesh_leases d.
Proof. rewrite consumeJoinToken_effect. cbn zeta. by repeat case_match. Qed.

Lemma join_leases sha input now d : mesh_leases (join sha input now d).2 = mesh_leases d.
Proof.
  pose proof (consumeJoinToken_leases sha (join_token input) (join_nodeId input) now d) as Hc.
  rewrite join_effect. destruct (consumeJoinToken _ _ _ _ _) as [[[]|] d1]; [|done|done].
  by rewrite upsertNode_effect.
Qed.

Lemma claimSessionOwner_leases session input now d :
  mesh_leases (claimSessionOwner session input now d).2 = mesh_leases d.
Proof.
  pose proof (claimSessionOwner_effect session input now d) as He. cbn zeta in He.
  destruct (match _ with Some c => can_take_over c input | None => true end); [by rewrite He|].
  by destruct He as [m ->].
Qed.

Lemma setReplicationOffset_leases consumer source last now d :
  mesh_leases (setReplicationOffset consumer source last now d).2 = mesh_leases d.
Proof.
  unfold setReplicationOffset, setOffsetStmt, mbind, M_bind, modify, getReplicationOffset. cbn.
  by rewrite sql_upsert_lookup, decide_True.
Qed.

Lemma restoreRuntimeArtifacts_leases snapshot d : mesh_leases (restoreRuntimeArtifacts snapshot d).2 = mesh_leases d.
Proof.
  unfold restoreRuntimeArtifacts, mbind, M_bind. destruct (snap_node snapshot); cbn;
    (destruct (snap_tokenHash snapshot) as [[|c hash]|]; [done| |done]); by destruct (snap_joinToken snapshot).
Qed.

(** What one call does to a lease: it is as it was, its holder keeps it under its
    token, or another node takes it over at a time at which it has expired. *)
Inductive lease_change (r r' : MeshLeaseRow) : Prop :=
  | lease_kept : holder_node_id r' = holder_node_id r → fencing_token r' = fencing_token r → lease_change r r'
  | lease_taken now : num_gtb (date_parse (lease_expires_at r)) (date_parse now) = false → lease_updated_at r' = now →
      holder_node_id r' ≠ holder_node_id r → fencing_token r' = fencing_token r + 1 → lease_change r r'.

(** A lease row behind a call: changed in one of these ways, or released by its
    holder under its token. *)
Definition lease_after (key : string) (r : MeshLeaseRow) (d d' : mesh_db) : Prop :=
  match mesh_leases d' !! key with
  | Some r' => lease_change r r'
  | None => d' = (releaseLease key (holder_node_id r) (fencing_token r) d).2
  end.

Lemma lease_after_same key r d d' : mesh_leases d' = mesh_leases d → mesh_leases d !! key = Some r → lease_after key r d d'.
Proof. intros E Hr. unfold lease_after. rewrite E, Hr. by apply lease_kept. Qed.

Lemma lease_after_insert key k r row d : mesh_leases d !! key = Some r → (k = key → lease_change r row) →
  lease_after key r d (d <| mesh_leases := <[k := row]> (mesh_leases d) |>).
Proof.
  intros Hr Hc. unfold lease_after. cbn. destruct (decide (k = key)) as [->|Hne].
  - rewrite lookup_insert_eq. by apply Hc.
  - rewrite lookup_insert_ne, Hr by done. by apply lease_kept.
Qed.

Lemma lease_step sha d d' key r : mesh_step_or_restore sha d d' → mesh_leases d !! key = Some r → lease_after key r d d'.
Proof.
  intros Hs Hr. destruct Hs as [d' Hs|snapshot]; [|apply lease_after_same; [apply restoreRuntimeArtifacts_leases|done]].
  destruct Hs; try (apply lease_after_same; [|done]; rewrite ?upsertNode_effect, ?consumeJoinToken_leases, ?join_leases,
    ?claimSessionOwner_leases, ?setReplicationOffset_leases, ?appendReplicationEvent_state; done).
  - rewrite acquireLease_effect. destruct (addSeconds now ttl) as [e|]; [|by apply lease_after_same]. cbn zeta.
    destruct (mesh_leases d !! key0) as [c|] eqn:Hc; [destruct (held_by_other c holder now) eqn:Hh; [by apply lease_after_same|]|];
      apply lease_after_insert; try done; intros ->; [|congruence]. assert (c = r) as -> by congruence.
    unfold held_by_other, acquired_row in *. case_bool_decide as Hown; cbn in Hh |- *; [by apply lease_kept|].
    apply (lease_taken r _ now); cbn; congruence.
  - pose proof (renewLease_effect key0 holder token ttl now d) as He.
    destruct (mesh_leases d !! key0) as [c|] eqn:Hc; [|rewrite He; by apply lease_after_same].
    destruct (renewable c holder token now) eqn:Hren; [|destruct He as [m ->]; by apply lease_after_same].
    destruct (addSeconds now ttl); rewrite He; [|by apply lease_after_same]. unfold renewable in Hren. bools.
    apply lease_after_insert; [done|]. intros ->. assert (c = r) as -> by congruence. by apply lease_kept.
  - destruct (decide (key0 = key)) as [->|Hne].
    + unfold lease_after. rewrite releaseLease_effect, Hr. destruct (_ && _) eqn:Ec; cbn; [|rewrite Hr; by apply lease_kept].
      bools. rewrite lookup_delete_eq, releaseLease_effect, Hr, bool_decide_eq_true_2, Z.eqb_refl by done. done.
    + unfold lease_after. rewrite releaseLease_effect. destruct (mesh_leases d !! key0); [|cbn; rewrite Hr; by apply lease_kept].
      destruct (_ && _); cbn; [rewrite lookup_delete_ne by done|]; rewrite Hr; by apply lease_kept.
Qed.

(** The tenures of a lease from [r] to [r']: each next holder is another node that
    took over, under the next token, the row that its predecessor had let lapse. *)
Inductive tenures : MeshLeaseRow → MeshLeaseRow → Prop :=
  | tenure_same r r' : holder_node_id r' = holder_node_id r → fencing_token r' = fencing_token r → tenures r r'
  | tenure_next r lapsed next r' :
      holder_node_id lapsed = holder_node_id r → fencing_token lapsed = fencing_token r →
      num_gtb (date_parse (lease_expires_at lapsed)) (date_parse (lease_updated_at next)) = false →
      holder_node_id next ≠ holder_node_id lapsed → fencing_token next = fencing_token lapsed + 1 →
      tenures next r' → tenures r r'.

Lemma tenures_change r x r' : lease_change r x → tenures x r' → tenures r r'.
Proof.
  intros [Hh Ht|now Hn Hu Hh Ht] Hx.
  - inversion Hx; subst; [apply tenure_same; congruence|eapply tenure_next; [| |done..]; congruence].
  - subst now. by apply (tenure_next r r x).
Qed.

Lemma tenures_token r r' : tenures r r' →
  fencing_token r ≤ fencing_token r' ∧ (fencing_token r' = fencing_token r → holder_node_id r' = holder_node_id r).
Proof. induction 1 as [|r lapsed next r' ????? _ [IH ?]]; [split; [lia|done]|]. split; lia. Qed.

(** One call on a mesh that leaves the lease [key] in place. *)
Definition leased_step (sha : string → string) (key : string) (d d' : mesh_db) : Prop :=
  mesh_step_or_restore sha d d' ∧ is_Some (mesh_leases d' !! key).

(** C29. Over every history of calls and restores that leaves a lease in place, its
    holder changes only when another node takes it over at a time at which it has
    expired, and every change raises its fencing token by one: the token never
    goes back and names one holder.  Only its holder, with its token, can end the
    history by releasing it. *)
Theorem lease_succession sha key d d' r r' :
  rtc (leased_step sha key) d d' → mesh_leases d !! key = Some r → mesh_leases d' !! key = Some r' →
  tenures r r' ∧ fencing_token r ≤ fencing_token r' ∧
  (fencing_token r' = fencing_token r → holder_node_id r' = holder_node_id r) ∧
  ∀ d'', mesh_step_or_restore sha d' d'' → mesh_leases d'' !! key = None →
    d'' = (releaseLease key (holder_node_id r') (fencing_token r') d').2.
Proof.
  intros Hs Hr Hr'. assert (tenures r r') as Ht.
  { revert r Hr. induction Hs as [d|d d1 d' [Hs [r1 Hr1]] _ IH]; intros r Hr.
    - assert (r' = r) as -> by congruence. by apply tenure_same.
    - apply (lease_step _ _ _ key r) in Hs; [|done]. unfold lease_after in Hs. rewrite Hr1 in Hs.
      eapply tenures_change; [exact Hs|by apply IH]. }
  split; [done|]. apply tenures_token in Ht as [? ?]. split; [done|]. split; [done|].
  intros d'' Hd Hn. apply (lease_step _ _ _ key r') in Hd; [|done]. unfold lease_after in Hd. by rewrite Hn in Hd.
Qed.

Definition fails {A} (r : outcome js_error A * mesh_db) (d : mesh_db) : Prop :=
  is_ok r.1 = false ∧ r.2 = d.

(** C30. While a lease is held and unexpired, no call of another node changes
    it: acquiring and renewing throw, releasing reports false, and the tables
    stay as they are. *)
Theorem held_lease_protected key r other ttl token now d :
  mesh_leases d !! key = Some r → holder_node_id r ≠ other →
  num_gtb (date_parse (lease_expires_at r)) (date_parse now) = true →
  fails (acquireLease key other ttl now d) d ∧
  fails (renewLease key other token ttl now d) d ∧
  releaseLease key other token d = (Ok false, d).
Proof.
  intros Hr Hne Hexp. split_and!.
  - rewrite acquireLease_effect, Hr. destruct (addSeconds now ttl); [|done]. cbn zeta.
    unfold held_by_other. by rewrite bool_decide_eq_false_2, Hexp.
  - pose proof (renewLease_effect key other token ttl now d) as He. rewrite Hr in He.
    unfold renewable in He. rewrite bool_decide_eq_false_2 in He by done. by destruct He as [m ->].
  - by rewrite releaseLease_effect, Hr, bool_decide_eq_false_2.
Qed.

(** The rows a sequential [acquireLease] leaves. *)
Lemma acquireLease_ok key holder ttl now d row d' :
  acquireLease key holder ttl now d = (Ok row, d') →
  ∃ expiresAt, addSeconds now ttl = Ok expiresAt ∧
    row = mapLeaseRow (acquired_row (mesh_leases d !! key) key holder expiresAt now) ∧
    d' = d <| mesh_leases := <[key := acquired_row (mesh_leases d !! key) key holder expiresAt now]> (mesh_leases d) |>.
Proof.
  rewrite acquireLease_effect. destruct (addSeconds now ttl) as [e|]; [|done]. cbn zeta.
  destruct (mesh_leases d !! key) as [c|]; [destruct (held_by_other c holder now)|]; intros; simplify_eq; eauto.
Qed.

(** The write of [acquireLease] is refused when the fencing token is not the
    one that was read. *)
Lemma acquireLeaseFrom_stale c key holder ttl now d :
  (∀ r, mesh_leases d !! key = Some r → fencing_token r ≠ fencing_token c) →
  fails (acquireLeaseFrom (Some c) key holder ttl now d) d.
Proof.
  intros Hstale. unfold acquireLeaseFrom, mbind, M_bind, lift. destruct (addSeconds now ttl); [|done].
  fold (held_by_other c holder now). unfold guard_throw, lift, throw_when.
  destruct (held_by_other c holder now); [done|]. unfold updateLeaseStmt, sql_update.
  destruct (mesh_leases d !! key) as [r|] eqn:Hr.
  - cbn. rewrite Hr. destruct (Z.eqb_spec (fencing_token r) (fencing_token c)); [by destruct (Hstale r)|].
    by destruct d.
  - cbn. rewrite Hr. by destruct d.
Qed.

(** Two nodes that race for a lease: both read the same row, then both
    write.  If the first write created the lease or took it over from another
    holder, the second write is refused and changes nothing. *)
Theorem lease_takeover_race key h1 h2 ttl1 ttl2 now1 now2 d d1 r1 :
  let current := mesh_leases d !! key in
  acquireLeaseFrom current key h1 ttl1 now1 d = (Ok r1, d1) →
  (∀ c, current = Some c → holder_node_id c ≠ h1) →
  fails (acquireLeaseFrom current key h2 ttl2 now2 d1) d1.
Proof.
  cbn zeta. intros H1 Hnew.
  assert (Hacq : acquireLease key h1 ttl1 now1 d = (Ok r1, d1)) by exact H1.
  apply acquireLease_ok in Hacq as (e1 & _ & _ & ->).
  destruct (mesh_leases d !! key) as [c|] eqn:Hc.
  - apply acquireLeaseFrom_stale. intros r. cbn. rewrite lookup_insert_eq. intros [= <-].
    unfold acquired_row. cbn. rewrite bool_decide_eq_false_2 by eauto. lia.
  - unfold acquireLeaseFrom, mbind, M_bind, lift. destruct (addSeconds now2 ttl2); [|done].
    unfold insertLeaseStmt, sql_insert. cbn. rewrite lookup_insert_eq. done.
Qed.

(** The race that the compare-and-swap does not catch: when the first
    writer is the expired lease's own holder, re-acquiring keeps the fencing
    token, so a second node that had read the expired row still takes the lease
    over, although it was granted anew in between. *)
Theorem lease_reacquire_race c key h1 h2 ttl1 ttl2 now1 now2 d d1 r1 e2 :
  mesh_leases d !! key = Some c → holder_node_id c = h1 → h1 ≠ h2 →
  num_gtb (date_parse (lease_expires_at c)) (date_parse now2) = false →
  addSeconds now2 ttl2 = Ok e2 →
  acquireLeaseFrom (Some c) key h1 ttl1 now1 d = (Ok r1, d1) →
  ∃ r2 d2, acquireLeaseFrom (Some c) key h2 ttl2 now2 d1 = (Ok r2, d2) ∧
    holderNodeId r2 = h2 ∧ fencingToken r2 = fencingToken r1 + 1.
Proof.
  intros Hc Hh Hne Hexp He2 H1.
  assert (Hacq : acquireLease key h1 ttl1 now1 d = (Ok r1, d1)) by (unfold acquireLease, mbind, M_bind; cbn; by rewrite Hc).
  apply acquireLease_ok in Hacq as (e1 & _ & -> & ->). rewrite Hc. unfold acquired_row.
  rewrite bool_decide_eq_true_2 by done.
  unfold acquireLeaseFrom, mbind, M_bind, lift. rewrite He2. unfold guard_throw, lift, throw_when.
  rewrite Hexp, andb_false_r. rewrite bool_decide_eq_false_2 by congruence.
  unfold updateLeaseStmt, sql_update. cbn. rewrite lookup_insert_eq. cbn. rewrite Z.eqb_refl. cbn.
  unfold getLease. cbn. rewrite lookup_insert_eq. eauto.
Qed.

(** ** Session owners *)

(** A successful claim of an owned session raises its epoch by one and
    keeps the first claim's date; it needs [force], the same owner, or the
    epoch the session is at.  Every other claim throws and changes nothing. *)
Theorem session_claim_epochs session input now d c :
  mesh_session_owners d !! session = Some c →
  if can_take_over c input
  then ∃ r d', claimSessionOwner session input now d = (Ok r, d') ∧
    ownerNodeId r = claim_ownerNodeId input ∧ epoch r = row_epoch c + 1 ∧ claimedAt r = claimed_at c ∧
    getSessionOwner session d' = (Ok r, d')
  else fails (claimSessionOwner session input now d) d.
Proof.
  intros Hc. pose proof (claimSessionOwner_effect session input now d) as He. cbn zeta in He. rewrite Hc in He.
  destruct (can_take_over c input); [|by destruct He as [m ->]].
  rewrite He. eexists _, _. split; [reflexivity|]. split_and!; try done.
  unfold getSessionOwner. cbn. by rewrite lookup_insert_eq.
Qed.

(** Two nodes that race to claim a session after reading the same row: when
    the first claim succeeds, the second is refused, forced or not, so at most
    one node becomes the owner at an epoch. *)
Theorem session_claim_race session i1 i2 now1 now2 d d1 r1 :
  let current := mesh_session_owners d !! session in
  claimSessionOwnerFrom current session i1 now1 d = (Ok r1, d1) →
  fails (claimSessionOwnerFrom current session i2 now2 d1) d1.
Proof.
  cbn zeta. intros H1.
  assert (Hcl : claimSessionOwner session i1 now1 d = (Ok r1, d1)) by exact H1.
  pose proof (claimSessionOwner_effect session i1 now1 d) as He. cbn zeta in He.
  destruct (match mesh_session_owners d !! session with Some c => can_take_over c i1 | None => true end);
    [|destruct He as [m He]; congruence].
  rewrite He in Hcl. injection Hcl as _ <-. clear He H1.
  destruct (mesh_session_owners d !! session) as [c|]; unfold claimSessionOwnerFrom, mbind, M_bind.
  - unfold guard_throw, lift, throw_when. destruct (negb _); [done|].
    unfold updateSessionOwnerStmt, sql_update. cbn. rewrite lookup_insert_eq. cbn.
    destruct (Z.eqb_spec (row_epoch c + 1) (row_epoch c)); [lia|]. done.
  - unfold insertSessionOwnerStmt, sql_insert. cbn. by rewrite lookup_insert_eq.
Qed.

(** ** Join tokens *)

Lemma acquireLease_tokens key holder ttl now d :
  mesh_join_tokens (acquireLease key holder ttl now d).2 = mesh_join_tokens d.
Proof.
  rewrite acquireLease_effect. destruct (addSeconds now ttl); [|done]. cbn zeta.
  destruct (mesh_leases d !! key) as [c|]; [by destruct (held_by_other c holder now)|done].
Qed.

Lemma renewLease_tokens key holder token ttl now d :
  mesh_join_tokens (renewLease key holder token ttl now d).2 = mesh_join_tokens d.
Proof.
  pose proof (renewLease_effect key holder token ttl now d) as He.
  destruct (mesh_leases d !! key) as [c|]; [|by rewrite He].
  destruct (renewable c holder token now); [|by destruct He as [m ->]].
  destruct (addSeconds now ttl); by rewrite He.
Qed.

Lemma claimSessionOwner_tokens session input now d :
  mesh_join_tokens (claimSessionOwner session input now d).2 = mesh_join_tokens d.
Proof.
  pose proof (claimSessionOwner_effect session input now d) as He. cbn zeta in He.
  destruct (match _ with Some c => can_take_over c input | None => true end); [by rewrite He|].
  by destruct He as [m ->].
Qed.

Lemma setReplicationOffset_tokens consumer source last now d :
  mesh_join_tokens (setReplicationOffset consumer source last now d).2 = mesh_join_tokens d.
Proof.
  unfold setReplicationOffset, setOffsetStmt, mbind, M_bind, modify, getReplicationOffset. cbn.
  by rewrite sql_upsert_lookup, decide_True.
Qed.

Definition spent (d : mesh_db) (hash : string) (r : MeshJoinTokenRow) : Prop :=
  mesh_join_tokens d !! hash = Some r ∧ used_at r ≠ None.

Lemma consumeJoinToken_spent sha raw node now d hash r :
  spent d hash r → spent (consumeJoinToken sha raw node now d).2 hash r.
Proof.
  intros [Hr Hu]. split; [|done]. rewrite consumeJoinToken_effect. cbn zeta.
  destruct (mesh_join_tokens d !! hashJoinToken sha raw) as [row|] eqn:Hrow; [|done].
  destruct (consumable row now) eqn:Hc; [|done]. cbn.
  rewrite lookup_insert_ne; [done|]. intros <-. assert (row = r) as -> by congruence.
  unfold consumable in Hc. by destruct (used_at r).
Qed.

Lemma mesh_step_spent sha d d' hash r : mesh_step sha d d' → spent d hash r → spent d' hash r.
Proof.
  intros Hs Hsp. destruct Hs; unfold spent in *; rewrite ?acquireLease_tokens, ?renewLease_tokens,
    ?claimSessionOwner_tokens, ?setReplicationOffset_tokens, ?upsertNode_effect, ?appendReplicationEvent_state; try done.
  - destruct Hsp as [Hr Hu]. split; [|done]. unfold issueJoinToken, insertJoinTokenStmt, modify. cbn.
    rewrite sql_upsert_lookup. destruct (decide (_ = hash)) as [->|]; [|done]. rewrite Hr.
    by destruct (used_at r).
  - by apply consumeJoinToken_spent.
  - rewrite join_effect. pose proof (consumeJoinToken_spent sha (join_token input) (join_nodeId input) now d hash r Hsp) as H1.
    destruct (consumeJoinToken _ _ _ _ _) as [[[]|] d1]; [|done|done]. by rewrite upsertNode_effect.
  - rewrite releaseLease_effect. destruct (mesh_leases d !! key); [by destruct (_ && _)|done].
Qed.

Lemma mesh_steps_spent sha d d' hash r : rtc (mesh_step sha) d d' → spent d hash r → spent d' hash r.
Proof. induction 1; eauto using mesh_step_spent. Qed.

(** A join token works once: after a call that consumed it, no later call
    consumes it again, whatever happens in between (the token may even be
    issued again) and whichever node and time the call names; and a call whose
    time is not before the expiry never consumes it. *)
Theorem join_token_single_use sha raw node now d d1 :
  consumeJoinToken sha raw node now d = (Ok true, d1) →
  (∃ r, mesh_join_tokens d !! hashJoinToken sha raw = Some r ∧ string_ltb now (token_expires_at r) = true) ∧
  ∀ d2, rtc (mesh_step sha) d1 d2 → ∀ node' now', consumeJoinToken sha raw node' now' d2 = (Ok false, d2).
Proof.
  rewrite consumeJoinToken_effect. cbn zeta. destruct (mesh_join_tokens d !! _) as [row|]; [|done].
  destruct (consumable row now) eqn:Hc; [|done]. intros [= <-]. split.
  { exists row. split; [done|]. unfold consumable in Hc. by destruct (used_at row). }
  intros d2 Hrtc. assert (Hsp : ∃ r, spent d2 (hashJoinToken sha raw) r).
  { eexists. eapply mesh_steps_spent; [exact Hrtc|]. split; [cbn; by rewrite lookup_insert_eq|done]. }
  destruct Hsp as (r & Hr & Hu). intros. rewrite consumeJoinToken_effect. cbn zeta. rewrite Hr.
  unfold consumable. by destruct (used_at r).
Qed.

(** ** Replication *)

Lemma getReplication_found source key d row :
  getReplicationBySourceAndIdempotencyStmt source key d = Some row →
  existsb (has_source_key source key) (map_to_list (mesh_replication_log d)).*2 = true.
Proof.
  unfold getReplicationBySourceAndIdempotencyStmt. intros Hh. apply existsb_exists. exists row.
  assert (Hin : row ∈ sql_rows (has_source_key source key) (mesh_replication_log d)).
  { destruct (sql_rows _ _); [done|]. injection Hh as ->. set_solver. }
  unfold sql_rows in Hin. rewrite list_elem_of_In, filter_In in Hin. done.
Qed.

Lemma appendReplicationEvent_effect now uuid input d :
  let row := mkReplicationRow uuid (ingest_sourceNodeId input) (ingest_eventType input)
    (json_stringify (JObject (ingest_payload input))) (ingest_idempotencyKey input) now in
  let d1 := (appendReplicationStmt row d).2 in
  appendReplicationEvent now uuid input d =
    (match getReplicationBySourceAndIdempotencyStmt (ingest_sourceNodeId input) (ingest_idempotencyKey input) d1 with
     | Some row => Ok (mapReplicationRow row)
     | None => Err (NotFoundError (NotFoundMessage "Unable to persist replication event"))
     end, d1).
Proof.
  cbn zeta. unfold appendReplicationEvent, mbind, M_bind, gets, appendReplicationStmt, modify.
  cbn -[getReplicationBySourceAndIdempotencyStmt]. by destruct (getReplicationBySourceAndIdempotencyStmt _ _ _).
Qed.

(** Ingesting an event again is harmless: a second append with the same
    source and idempotency key, whatever its payload, returns the record that
    the first one stored and leaves the log as it is. *)
Theorem replication_append_idempotent now uuid input now' uuid' input' d d1 r :
  appendReplicationEvent now uuid input d = (Ok r, d1) →
  ingest_sourceNodeId input' = ingest_sourceNodeId input →
  ingest_idempotencyKey input' = ingest_idempotencyKey input →
  appendReplicationEvent now' uuid' input' d1 = (Ok r, d1).
Proof.
  rewrite !appendReplicationEvent_effect. cbn zeta.
  set (d1' := (appendReplicationStmt _ d).2). intros H1 Hs Hk. injection H1 as Hr <-. rewrite Hs, Hk.
  destruct (getReplicationBySourceAndIdempotencyStmt _ _ d1') as [row|] eqn:Hg; [|done].
  rewrite append_row_effect. cbn zeta. cbn [source_node_id idempotency_key].
  rewrite (getReplication_found _ _ _ _ Hg). cbn [snd].
  replace (d1' <| mesh_replication_log := mesh_replication_log d1' |>) with d1' by (by destruct d1').
  by rewrite Hg, Hr.
Qed.

(** *** Reading the log page by page *)

Definition row_key (r : MeshReplicationRow) : string * string := (created_at r, replication_id r).

Lemma after_cursor_spec c r : after_cursor c r = pair_ltb (row_key c) (row_key r).
Proof.
  unfold after_cursor, pair_ltb. simpl. f_equal. f_equal. apply bool_decide_ext. split; congruence.
Qed.

Lemma replication_le_spec a b : replication_le a b = negb (pair_ltb (row_key b) (row_key a)).
Proof.
  unfold replication_le, pair_ltb, string_leb. simpl. rewrite negb_orb, negb_andb.
  destruct (decide (created_at a = created_at b)) as [E|E].
  - rewrite E, string_ltb_irrefl, !bool_decide_eq_true_2 by done. done.
  - rewrite !bool_decide_eq_false_2 by congruence. simpl. rewrite orb_false_r, andb_true_r.
    destruct (string_ltb (created_at a) (created_at b)) eqn:H1.
    + by rewrite (string_ltb_asym _ _ H1).
    + destruct (string_ltb (created_at b) (created_at a)) eqn:H2; [done|].
      by destruct E; apply string_ltb_total.
Qed.

Lemma replication_le_total a b : replication_le a b = true ∨ replication_le b a = true.
Proof.
  rewrite !replication_le_spec, !negb_true_iff.
  destruct (pair_ltb (row_key b) (row_key a)) eqn:E; [right|by left].
  apply not_true_iff_false. intros E'. pose proof (pair_ltb_trans _ _ _ E E') as H.
  by rewrite pair_ltb_irrefl in H.
Qed.

Lemma replication_le_trans a b c :
  replication_le a b = true → replication_le b c = true → replication_le a c = true.
Proof. rewrite !replication_le_spec, !negb_true_iff. intros. by eapply pair_leb_trans. Qed.

Section pages.
Context (d : mesh_db) (Hd : mesh_wf d).

Lemma log_row r : r ∈ sql_rows (λ _, true) (mesh_replication_log d) ↔
  mesh_replication_log d !! replication_id r = Some r.
Proof.
  rewrite elem_of_sql_rows. split.
  - intros [_ [k Hk]]. by rewrite (wf_log _ Hd _ _ Hk).
  - eauto.
Qed.

Lemma log_order_antisym a b :
  a ∈ sql_rows (λ _, true) (mesh_replication_log d) → b ∈ sql_rows (λ _, true) (mesh_replication_log d) →
  replication_le a b = true → replication_le b a = true → a = b.
Proof.
  rewrite !log_row, !replication_le_spec, !negb_true_iff. intros Ha Hb H1 H2.
  assert (row_key a = row_key b) as E by (by apply pair_ltb_total). injection E as _ E. congruence.
Qed.

Lemma sql_rows_true {K V} `{Countable K} (p : V → bool) (t : gmap K V) :
  sql_rows p t = List.filter p (sql_rows (λ _, true) t).
Proof.
  unfold sql_rows. f_equal. induction (map_to_list t).*2 as [|x l IH]; simpl; [done|]. by f_equal.
Qed.

Lemma log_NoDup : NoDup (sql_rows (λ _, true) (mesh_replication_log d)).
Proof.
  unfold sql_rows. assert (Hall : ∀ l : list MeshReplicationRow, List.filter (λ _, true) l = l).
  { induction l as [|x l IH]; simpl; [done|by f_equal]. }
  rewrite Hall. apply NoDup_fmap_2_strong; [|apply NoDup_map_to_list].
  intros [k1 r1] [k2 r2] H1%elem_of_map_to_list H2%elem_of_map_to_list E. simpl in E. subst r2.
  f_equal. by rewrite <-(wf_log _ Hd _ _ H1), <-(wf_log _ Hd _ _ H2).
Qed.

(** Reading the replication log from a cursor gives exactly the events that
    follow the cursor's in the log's order, cut at the limit: consecutive pages
    neither skip nor repeat an event.  A cursor that is no longer in the log is
    an error, not an empty page. *)
Theorem replication_pages limit cursor :
  let full := order_by replication_le (sql_rows (λ _, true) (mesh_replication_log d)) in
  listReplicationEvents limit None d = (Ok (mapReplicationRow <$> sql_limit limit full), d) ∧
  match mesh_replication_log d !! cursor with
  | Some c => ∃ before after, full = before ++ c :: after ∧
      listReplicationEvents limit (Some cursor) d = (Ok (mapReplicationRow <$> sql_limit limit after), d)
  | None => listReplicationEvents limit (Some cursor) d =
      (Err (NotFoundError (NotFoundEntity "Replication cursor" (Some cursor))), d)
  end.
Proof.
  cbn zeta. split; [done|]. unfold listReplicationEvents, mbind, M_bind, gets. cbn.
  destruct (mesh_replication_log d !! cursor) as [c|] eqn:Hc; [|done].
  set (rows := sql_rows (λ _, true) (mesh_replication_log d)).
  assert (Hin : c ∈ rows) by (apply log_row; by rewrite (wf_log _ Hd _ _ Hc)).
  assert (Hperm : order_by replication_le rows ≡ₚ rows) by apply order_by_Permutation.
  destruct (sorted_split replication_le after_cursor (order_by replication_le rows) c) as [before Hb].
  - intros. by rewrite replication_le_spec, after_cursor_spec.
  - intros. rewrite after_cursor_spec. apply pair_ltb_irrefl.
  - intros x y. rewrite !Hperm. apply log_order_antisym.
  - apply order_by_sorted; [apply replication_le_total|apply replication_le_trans].
  - rewrite Hperm. apply log_NoDup.
  - by rewrite Hperm.
  - exists before, (List.filter (after_cursor c) (order_by replication_le rows)). split; [done|].
    unfold listReplicationSinceStmt. rewrite Hc, sql_rows_true. fold rows.
    rewrite order_by_filter; [done|apply replication_le_total|apply replication_le_trans|apply log_order_antisym].
Qed.
End pages.

(** ** Snapshots *)

Lemma json_strings_fmap l : json_strings (JString <$> l) = Some l.
Proof. induction l as [|s l IH]; [done|]. rewrite fmap_cons. cbn [json_strings]. by rewrite IH. Qed.

Lemma parse_stringify_capabilities caps : parseMeshCapabilities (stringify_capabilities caps) = caps.
Proof.
  unfold parseMeshCapabilities, stringify_capabilities. rewrite safeJsonParse_stringify.
  - by rewrite json_strings_fmap.
  - constructor. apply Forall_fmap, Forall_true. intros s. constructor.
Qed.

Lemma bind_map_node r k : wf_node_row k r → bind_node (mapNodeRow r) = r.
Proof.
  intros [_ [caps Hc]]. unfold bind_node, mapNodeRow.
  cbn [nodeId label advertiseAddress transport node_status capabilities tlsFingerprint joinedAt lastSeenAt].
  rewrite Hc, parse_stringify_capabilities, <-Hc. by destruct r.
Qed.

(** The writes of a runtime-options replacement touch one node row and, when
    the token is not blank, one token row. *)
Lemma restore_undoes sha d nodes' tokens' id raw :
  mesh_wf d →
  (∀ k, k ≠ id → nodes' !! k = mesh_nodes d !! k) →
  (∀ k, (∀ t, raw = Some t → trim t ≠ "" → k ≠ hashJoinToken sha (trim t)) →
    tokens' !! k = mesh_join_tokens d !! k) →
  (∀ t, sha t ≠ "") →
  ∃ snapshot, snapshotRuntimeArtifacts sha id raw d = (Ok snapshot, d) ∧
    restoreRuntimeArtifacts snapshot (d <| mesh_nodes := nodes' |> <| mesh_join_tokens := tokens' |>) = (Ok tt, d).
Proof.
  intros Hd Hn Ht Hsha. eexists. split; [reflexivity|].
  unfold restoreRuntimeArtifacts, mbind, M_bind. cbn [snap_node snap_nodeId snap_tokenHash snap_joinToken].
  set (d' := d <| mesh_nodes := nodes' |> <| mesh_join_tokens := tokens' |>).
  assert (Hnode : (match mapNodeRow <$> mesh_nodes d !! id with
     | Some node => restoreNodeStmt node | None => deleteNodeStmt id end) d' =
     (Ok tt, d' <| mesh_nodes := mesh_nodes d |>)).
  { destruct (mesh_nodes d !! id) as [r|] eqn:Hr; cbn [fmap option_fmap option_map].
    - destruct (wf_nodes _ Hd _ _ Hr) as [Hid Hcaps]. unfold restoreNodeStmt, modify. do 2 f_equal.
      rewrite (bind_map_node r id) by done. apply map_eq. intros k. rewrite sql_upsert_lookup.
      unfold d'. cbn. rewrite Hid. destruct (decide (id = k)) as [<-|]; [by rewrite Hr; case_match|by apply Hn].
    - unfold deleteNodeStmt, modify. do 2 f_equal. apply map_eq. intros k. unfold d'. cbn.
      destruct (decide (id = k)) as [<-|]; [by rewrite lookup_delete_eq, Hr|by rewrite lookup_delete_ne, Hn]. }
  rewrite Hnode. clear Hnode. destruct raw as [t|]; cbn.
  2: { destruct d. unfold d'. cbn in *. do 2 f_equal. apply map_eq. intros k. by apply Ht. }
  destruct (truthy (trim t)) eqn:Htr; cbn.
  2: { destruct d. unfold d'. cbn in *. do 2 f_equal. apply map_eq. intros k. apply Ht.
       intros t' [= <-] Hne. by destruct (trim t). }
  apply truthy_spec in Htr. unfold hashJoinToken in *. destruct (sha (trim t)) as [|ch h] eqn:Hh; [by destruct (Hsha (trim t))|].
  set (key := String ch h) in *.
  assert (Hother : ∀ k, k ≠ key → tokens' !! k = mesh_join_tokens d !! k).
  { intros k Hk. apply Ht. intros t' [= <-] _. by rewrite Hh. }
  destruct (mesh_join_tokens d !! key) as [row|] eqn:Hrow; cbn.
  - unfold restoreJoinTokenStmt, modify. rewrite (wf_tokens _ Hd _ _ Hrow). destruct d. unfold d'. cbn in *.
    do 2 f_equal. apply map_eq. intros k. rewrite sql_upsert_lookup.
    destruct (decide (key = k)) as [<-|]; [rewrite Hrow; by case_match|by apply Hother].
  - unfold deleteJoinTokenStmt, modify. destruct d. unfold d'. cbn in *. do 2 f_equal. apply map_eq. intros k.
    destruct (decide (key = k)) as [<-|]; [by rewrite lookup_delete_eq, Hrow|by rewrite lookup_delete_ne, Hother].
Qed.
