(* ===== verification/MeshService.v ===== *)
(** * Mesh service (packages/mesh-core/src/mesh-service.ts)

    The service keeps the runtime options in memory and the mesh tables in the
    storage; a replacement of the options writes the tables in one transaction
    and changes the memory only after it commits.  The clock readings are
    arguments.  [defaultLeaseTtlSeconds] is the integer that the options'
    normaliser requires. *)
From stdpp Require Import pretty.
From S2P Require Import Prelude.
From S2P Require Import JsString.
From S2P Require Import JsJson.
From S2P Require Import JsTime.
From S2P Require Import Errors.
From S2P Require Import MeshRepo.
From S2P Require Import MeshTheorems.

Record MeshRuntimeOptions := mkOptions {
  opt_enabled : bool;
  opt_mode : MeshTransport;
  opt_localNodeId : string;
  opt_localNodeLabel : option string;
  opt_advertiseAddress : option string;
  opt_requireMtls : bool;
  opt_tailnetEnabled : bool;
  opt_joinToken : option string;
  opt_defaultLeaseTtlSeconds : Z;
}.

#[export] Instance options_eta : Eta MeshRuntimeOptions := λ o,
  mkOptions (opt_enabled o) (opt_mode o) (opt_localNodeId o) (opt_localNodeLabel o) (opt_advertiseAddress o)
    (opt_requireMtls o) (opt_tailnetEnabled o) (opt_joinToken o) (opt_defaultLeaseTtlSeconds o).

(** The service object and the database it writes. *)
Record mesh_service := mkService {
  options : MeshRuntimeOptions;
  storage : mesh_db;
}.

#[export] Instance service_eta : Eta mesh_service := λ s, mkService (options s) (storage s).

Notation service := (M js_error mesh_service).

Definition repo {A} (m : mesh A) : service A := zoom storage (λ d s, s <| storage := d |>) m.

(** The clock readings of one write of the options: [new Date()] in
    [persistOptionsRows], [Date.now()], and [new Date()] in [issueJoinToken]. *)
Record Readings := mkReadings { at_now : string; at_ms : Z; at_issue : string }.

(** [normalizeMeshRuntimeOptions]. *)
Definition normalizeMeshRuntimeOptions (input fallback : MeshRuntimeOptions) : res MeshRuntimeOptions :=
  let trimmed := trim (opt_localNodeId input) in
  let localNodeId := if truthy trimmed then trimmed else opt_localNodeId fallback in
  _ ← throw_when (negb (truthy localNodeId)) (JsError "Mesh localNodeId is required");
  _ ← throw_when (opt_defaultLeaseTtlSeconds input <? 1)
    (JsError "Mesh defaultLeaseTtlSeconds must be a positive integer");
  Ok (input <| opt_localNodeId := localNodeId |>).

(** The fields of a [Partial<MeshRuntimeOptions>]. *)
Inductive OptionField :=
  | SetEnabled (b : bool)
  | SetMode (m : MeshTransport)
  | SetLocalNodeId (s : string)
  | SetLocalNodeLabel (s : option string)
  | SetAdvertiseAddress (s : option string)
  | SetRequireMtls (b : bool)
  | SetTailnetEnabled (b : bool)
  | SetJoinToken (s : option string)
  | SetDefaultLeaseTtlSeconds (n : Z).

Definition set_option (o : MeshRuntimeOptions) (f : OptionField) : MeshRuntimeOptions :=
  match f with
  | SetEnabled b => o <| opt_enabled := b |>
  | SetMode m => o <| opt_mode := m |>
  | SetLocalNodeId s => o <| opt_localNodeId := s |>
  | SetLocalNodeLabel s => o <| opt_localNodeLabel := s |>
  | SetAdvertiseAddress s => o <| opt_advertiseAddress := s |>
  | SetRequireMtls b => o <| opt_requireMtls := b |>
  | SetTailnetEnabled b => o <| opt_tailnetEnabled := b |>
  | SetJoinToken s => o <| opt_joinToken := s |>
  | SetDefaultLeaseTtlSeconds n => o <| opt_defaultLeaseTtlSeconds := n |>
  end.

Section service.
Context (sha256_hex : string → string).

(** The node that [persistOptionsRows] registers. *)
Definition local_node_record (o : MeshRuntimeOptions) (now : string) : MeshNodeRecord :=
  mkNode (opt_localNodeId o) (opt_localNodeLabel o) (opt_advertiseAddress o) (opt_mode o) online
    ["gateway"; "scheduler"; "orchestration"] None now now.

Definition persistOptionsRows (t : Readings) (o : MeshRuntimeOptions) : mesh unit :=
  upsertNode (local_node_record o (at_now t)) ;;
  match opt_joinToken o with
  | Some token =>
      if truthy (trim token) then
        match to_iso (at_ms t + 24 * 60 * 60 * 1000) with
        | Some expiresAt => issueJoinToken sha256_hex (at_issue t) (trim token) expiresAt
        | None => throw (JsRangeError "Invalid time value")
        end
      else mret tt
  | None => mret tt
  end.

(** [runAtomically]: an immediate transaction of the storage. *)
Definition runAtomically {A} (write : mesh A) : mesh A := transaction write.

Definition persistOptionsAtomically (t : Readings) (o : MeshRuntimeOptions) : mesh unit :=
  runAtomically (persistOptionsRows t o).

Definition init (t : Readings) : service unit :=
  o ← gets options; repo (persistOptionsAtomically t o).

Definition getOptionsSnapshot : service MeshRuntimeOptions := gets options.

Definition replaceOptions (t : Readings) (input : MeshRuntimeOptions) : service MeshRuntimeOptions :=
  current ← gets options;
  next ← lift (normalizeMeshRuntimeOptions input current);
  repo (persistOptionsAtomically t next) ;;
  modify (λ s, s <| options := next |>) ;;
  getOptionsSnapshot.

(** The closure that [replaceOptionsReversibly] returns, as the values it
    captures. *)
Record Replacement := mkReplacement {
  artifacts : MeshRuntimeArtifactSnapshot;
  previous : MeshRuntimeOptions;
}.

Definition replaceOptionsReversibly (t : Readings) (input : MeshRuntimeOptions) : service Replacement :=
  previous ← getOptionsSnapshot;
  current ← gets options;
  next ← lift (normalizeMeshRuntimeOptions input current);
  artifacts ← repo (runAtomically (
    artifacts ← snapshotRuntimeArtifacts sha256_hex (opt_localNodeId next) (opt_joinToken next);
    persistOptionsRows t next ;;
    mret artifacts));
  modify (λ s, s <| options := next |>) ;;
  mret (mkReplacement artifacts previous).

Definition rollback (r : Replacement) : service unit :=
  repo (runAtomically (restoreRuntimeArtifacts (artifacts r))) ;;
  modify (λ s, s <| options := previous r |>).

Definition restoreRuntimeArtifactsForRecovery (snapshot : MeshRuntimeArtifactSnapshot) : service unit :=
  repo (runAtomically (restoreRuntimeArtifacts snapshot)).

Definition updateOptions (t : Readings) (input : list OptionField) : service unit :=
  current ← gets options;
  replaceOptions t (foldl set_option current input) ;; mret tt.

Definition status (clock : string) : service MeshStatus :=
  o ← gets options;
  repo (buildStatus clock (opt_enabled o) (opt_mode o) (opt_localNodeId o)).

Definition service_join (now : string) (request : MeshJoinRequest) : service MeshJoinResult :=
  o ← gets options;
  guard_throw (negb (opt_enabled o)) (JsError "Mesh is disabled") ;;
  guard_throw (opt_requireMtls o && negb (truthy_opt (trim <$> join_tlsFingerprint request)))
    (JsError "Mesh join requires tlsFingerprint") ;;
  node ← repo (join sha256_hex request now);
  mret (mkJoinResult true node).

Definition service_acquireLease (now : string) (request : MeshLeaseAcquireRequest) : service MeshLeaseRecord :=
  o ← gets options;
  repo (acquireLease (acquire_leaseKey request) (acquire_holderNodeId request)
    (default (opt_defaultLeaseTtlSeconds o) (acquire_ttlSeconds request)) now).

Definition service_renewLease (now : string) (request : MeshLeaseRenewRequest) : service MeshLeaseRecord :=
  o ← gets options;
  repo (renewLease (renew_leaseKey request) (renew_holderNodeId request) (renew_fencingToken request)
    (default (opt_defaultLeaseTtlSeconds o) (renew_ttlSeconds request)) now).

Definition service_releaseLease (request : MeshLeaseReleaseRequest) : service bool :=
  repo (releaseLease (release_leaseKey request) (release_holderNodeId request) (release_fencingToken request)).

Definition service_claimSessionOwner (now session : string) (request : MeshSessionClaimRequest)
    : service MeshSessionOwnerRecord :=
  repo (claimSessionOwner session request now).

Definition ingestReplicationEvent (now uuid : string) (input : MeshReplicationIngestRequest)
    : service MeshReplicationRecord :=
  repo (appendReplicationEvent now uuid input).

Definition service_setReplicationOffset (now consumer source : string) (last : option string)
    : service MeshReplicationOffset :=
  repo (setReplicationOffset consumer source last now).

(** ** Readiness *)

Definition json_of_Z (z : Z) : json := JNumber (pretty z).
Definition transport_text (m : MeshTransport) : string :=
  match m with lan => "lan" | wan => "wan" | tailnet => "tailnet" end.

Definition buildTransportPostureCheck (o : MeshRuntimeOptions) : MeshReadinessCheck :=
  let is_tailnet := bool_decide (opt_mode o = tailnet) in
  let evidence := Some [("requireMtls", JBool (opt_requireMtls o)); ("tailnetEnabled", JBool (opt_tailnetEnabled o));
                        ("mode", JString (transport_text (opt_mode o)))] in
  if is_tailnet && negb (opt_tailnetEnabled o) then
    mkCheck mtls_tailnet_posture check_fail
      "Tailnet mode requires tailnet security posture to be enabled." evidence
  else if is_tailnet || opt_requireMtls o then
    mkCheck mtls_tailnet_posture check_pass
      (if is_tailnet then "Tailnet transport security is enabled."
       else "mTLS is required for mesh transport.") evidence
  else
    mkCheck mtls_tailnet_posture check_warn
      "Mesh transport has neither a tailnet nor required mTLS; peer traffic is not transport-authenticated."
      evidence.

(** The checks, from the rows that were read. *)
Definition readiness_checks (o : MeshRuntimeOptions) (snapshot : MeshStatus) (nodes : list MeshNodeRecord)
    (events : list MeshReplicationRecord) (offsets : list MeshReplicationOffset) : list MeshReadinessCheck :=
  if negb (opt_enabled o) then
    [mkCheck local_node check_fail "Mesh runtime is disabled; readiness evidence cannot be claimed."
       (Some [("localNodeId", JString (opt_localNodeId o))])]
  else
    let localNode := List.find (λ node, bool_decide (nodeId node = opt_localNodeId o)) nodes in
    let has_token := truthy_opt (trim <$> opt_joinToken o) in
    let replicated := (0 <? Z.of_nat (length events)) || (0 <? Z.of_nat (length offsets)) in
    [
      mkCheck local_node (if localNode then check_pass else check_fail)
        (if localNode then "Local mesh node is registered and visible."
         else "Local mesh node is not registered in mesh storage.")
        (Some [("localNodeId", JString (opt_localNodeId o)); ("nodesOnline", json_of_Z (nodesOnline snapshot))]);
      mkCheck join_token_lifecycle (if has_token then check_pass else check_warn)
        (if has_token then "Join-token lifecycle is configured for operator-issued joins."
         else "No join token is configured; join-token lifecycle proof requires an operator/env token.")
        None;
      buildTransportPostureCheck o;
      mkCheck lease_lifecycle check_warn
        (if 0 <? activeLeases snapshot
         then "Active leases are recorded. Renewal and release remain unverified."
         else "No active leases are recorded. Lease lifecycle remains unverified.")
        (Some [("activeLeases", json_of_Z (activeLeases snapshot))]);
      mkCheck session_owner_failover check_warn
        (if 0 <? ownedSessions snapshot
         then "Session owners are recorded. Failover remains unverified."
         else "No session owners are recorded. Failover remains unverified.")
        (Some [("ownedSessions", json_of_Z (ownedSessions snapshot))]);
      mkCheck replication_offsets (if replicated then check_pass else check_warn)
        (if replicated then "Replication events or offsets exist in mesh storage."
         else "No replication event or offset has been recorded yet; replication is unproven.")
        (Some [("recentEvents", json_of_Z (Z.of_nat (length events)));
               ("offsets", json_of_Z (Z.of_nat (length offsets)))])].

Definition buildReadinessChecks (snapshot : MeshStatus) : service (list MeshReadinessCheck) :=
  nodes ← repo (listNodes 20);
  events ← repo (listReplicationEvents 20 None);
  offsets ← repo (listReplicationOffsets 20);
  o ← gets options;
  mret (readiness_checks o snapshot nodes events offsets).

Definition is_fail (check : MeshReadinessCheck) : bool :=
  match check_status check with check_fail => true | _ => false end.

Definition readinessDiagnostics (clock : string) : service MeshReadinessDiagnostics :=
  statusSnapshot ← status clock;
  checks ← buildReadinessChecks statusSnapshot;
  o ← gets options;
  let blockers := check_message <$> List.filter is_fail checks in
  mret (mkDiagnostics clock
    (if negb (opt_enabled o) then not_enabled else match blockers with [] => ready | _ => blocked end)
    statusSnapshot checks blockers "verify:mesh:readiness").
End service.
