(* ===== verification/MeshServiceTheorems.v ===== *)
(** * What the mesh service guarantees

    Atomic and reversible replacement of the runtime options, the conditions of
    a join, and what the readiness report means. *)
From S2P Require Import Prelude.
From S2P Require Import JsString.
From S2P Require Import JsJson.
From S2P Require Import JsTime.
From S2P Require Import Errors.
From S2P Require Import MeshRepo.
From S2P Require Import MeshTheorems.
From S2P Require Import MeshService.

Lemma normalize_ok input fallback o :
  normalizeMeshRuntimeOptions input fallback = Ok o →
  opt_localNodeId o ≠ "" ∧ 1 ≤ opt_defaultLeaseTtlSeconds o ∧
  o = input <| opt_localNodeId := opt_localNodeId o |>.
Proof.
  unfold normalizeMeshRuntimeOptions. intros H.
  apply outcome_bind_ok in H as (? & H1 & H). apply outcome_bind_ok in H as (? & H2 & H).
  apply throw_when_ok in H1, H2. injection H as <-. bools. cbn.
  split; [by apply truthy_spec|done].
Qed.

(** The tables after a successful write of the options. *)
Lemma persistOptionsRows_ok sha t o d u d' :
  persistOptionsRows sha t o d = (Ok u, d') →
  ∃ nodes' tokens', d' = d <| mesh_nodes := nodes' |> <| mesh_join_tokens := tokens' |> ∧
    (∀ k, k ≠ opt_localNodeId o → nodes' !! k = mesh_nodes d !! k) ∧
    (∃ row, nodes' !! opt_localNodeId o = Some row ∧ node_id row = opt_localNodeId o ∧
      row_status row = online ∧ row_transport row = opt_mode o) ∧
    (∀ k, (∀ token, opt_joinToken o = Some token → trim token ≠ "" → k ≠ hashJoinToken sha (trim token)) →
      tokens' !! k = mesh_join_tokens d !! k).
Proof.
  unfold persistOptionsRows. rewrite M_bind_ok. intros (node & d1 & Hn & Hrest).
  rewrite upsertNode_effect in Hn. injection Hn as _ <-. cbn [nodeId local_node_record] in *.
  set (row := match mesh_nodes d !! opt_localNodeId o with Some _ => _ | None => _ end) in *.
  assert (Hrow : node_id row = opt_localNodeId o ∧ row_status row = online ∧ row_transport row = opt_mode o).
  { unfold row. by destruct (mesh_nodes d !! _). }
  set (nodes' := <[opt_localNodeId o := row]> (mesh_nodes d)) in *.
  assert (Hn' : (∀ k, k ≠ opt_localNodeId o → nodes' !! k = mesh_nodes d !! k) ∧
    ∃ row, nodes' !! opt_localNodeId o = Some row ∧ node_id row = opt_localNodeId o ∧
      row_status row = online ∧ row_transport row = opt_mode o).
  { split; [intros k ?; by apply lookup_insert_ne|]. exists row. split; [apply lookup_insert_eq|done]. }
  destruct Hn' as [Hother Hself]. clearbody nodes'.
  assert (Hsame : d' = d <| mesh_nodes := nodes' |> → ∃ nodes'' tokens',
    d' = d <| mesh_nodes := nodes'' |> <| mesh_join_tokens := tokens' |> ∧
    (∀ k, k ≠ opt_localNodeId o → nodes'' !! k = mesh_nodes d !! k) ∧
    (∃ row, nodes'' !! opt_localNodeId o = Some row ∧ node_id row = opt_localNodeId o ∧
      row_status row = online ∧ row_transport row = opt_mode o) ∧
    (∀ k, (∀ token, opt_joinToken o = Some token → trim token ≠ "" → k ≠ hashJoinToken sha (trim token)) →
      tokens' !! k = mesh_join_tokens d !! k)).
  { intros ->. exists nodes', (mesh_join_tokens d). by destruct d. }
  destruct (opt_joinToken o) as [token|]; [|injection Hrest as _ <-; by apply Hsame].
  destruct (truthy (trim token)) eqn:Htr; [|injection Hrest as _ <-; by apply Hsame].
  destruct (to_iso _) as [expiresAt|]; [|done]. injection Hrest as _ <-.
  exists nodes'. eexists. split; [reflexivity|]. split; [done|]. split; [done|].
  intros k Hk. rewrite sql_upsert_lookup, decide_False; [done|].
  intros <-. apply (Hk token); [done|by apply truthy_spec|done].
Qed.

Lemma rollback_effect r s d :
  restoreRuntimeArtifacts (artifacts r) (storage s) = (Ok tt, d) →
  rollback r s = (Ok tt, mkService (previous r) d).
Proof.
  intros Hr. unfold rollback, mbind, M_bind, repo, zoom, runAtomically, transaction, modify. by rewrite Hr.
Qed.

Section service_theorems.
Context (sha : string → string).

(** Replacing the options is all or nothing: when the call returns, the
    normalised options are in force and the local node is registered online
    with their transport; when it throws, the options and every table are as
    they were. *)
Theorem replaceOptions_atomic t input s :
  match replaceOptions sha t input s with
  | (Ok o, s') =>
      normalizeMeshRuntimeOptions input (options s) = Ok o ∧ options s' = o ∧
      ∃ row, mesh_nodes (storage s') !! opt_localNodeId o = Some row ∧
        row_status row = online ∧ row_transport row = opt_mode o
  | (Err _, s') => s' = s
  end.
Proof.
  unfold replaceOptions, mbind, M_bind, gets, lift, repo, zoom, persistOptionsAtomically, runAtomically,
    transaction, modify, getOptionsSnapshot, gets.
  destruct (normalizeMeshRuntimeOptions input (options s)) as [o|e]; [|done].
  destruct (persistOptionsRows sha t o (storage s)) as [[u|e] d'] eqn:Hp; cbn.
  - apply persistOptionsRows_ok in Hp as (nodes' & tokens' & -> & _ & (row & Hrow & _ & ? & ?) & _).
    split; [done|]. split; [done|]. by exists row.
  - by destruct s.
Qed.

(** A reversible replacement can be taken back exactly: rolling it back
    restores the previous options and every row of the tables, the overwritten
    join date and token state and the absence of new rows included. *)
Theorem replaceOptionsReversibly_rollback t input s r s1 :
  mesh_wf (storage s) → (∀ x, sha x ≠ "") →
  replaceOptionsReversibly sha t input s = (Ok r, s1) →
  rollback r s1 = (Ok tt, s).
Proof.
  intros Hwf Hsha. unfold replaceOptionsReversibly, mbind, M_bind, gets, lift, repo, zoom, runAtomically,
    transaction, modify, getOptionsSnapshot, gets, mret, M_ret, snapshotRuntimeArtifacts, gets.
  destruct (normalizeMeshRuntimeOptions input (options s)) as [o|e]; [|done].
  destruct (persistOptionsRows sha t o (storage s)) as [[u|e] d'] eqn:Hp; cbn -[rollback]; [|done].
  intros [= <- <-].
  apply persistOptionsRows_ok in Hp as (nodes' & tokens' & -> & Hn & _ & Ht).
  destruct (restore_undoes sha (storage s) nodes' tokens' (opt_localNodeId o) (opt_joinToken o) Hwf Hn Ht Hsha)
    as (snap & Hs & Hr).
  unfold snapshotRuntimeArtifacts, gets in Hs. injection Hs as <-.
  etrans; [apply rollback_effect; exact Hr|]. by destruct s.
Qed.

(** A node joins only an enabled mesh, only with a TLS fingerprint when the
    options require mutual TLS, and only by spending a token that was unused
    and unexpired; it is then registered online.  Otherwise the call throws and
    neither the options nor the tables change. *)
Theorem join_guarded now request s :
  match service_join sha now request s with
  | (Ok result, s') =>
      opt_enabled (options s) = true ∧
      (opt_requireMtls (options s) = true → truthy_opt (trim <$> join_tlsFingerprint request) = true) ∧
      (∃ row, mesh_join_tokens (storage s) !! hashJoinToken sha (join_token request) = Some row ∧
        used_at row = None ∧ string_ltb now (token_expires_at row) = true) ∧
      (∃ row, mesh_nodes (storage s') !! join_nodeId request = Some row ∧ row_status row = online ∧
        joined_node result = mapNodeRow row)
  | (Err _, s') => s' = s
  end.
Proof.
  unfold service_join, mbind, M_bind, gets, guard_throw, lift, throw_when, repo, zoom.
  destruct (opt_enabled (options s)); cbn [negb]; [|done].
  destruct (opt_requireMtls (options s) && _) eqn:Hm; [done|].
  rewrite join_effect, consumeJoinToken_effect. cbn zeta.
  assert (Herr : s <| storage := storage s |> = s) by (by destruct s).
  destruct (mesh_join_tokens (storage s) !! _) as [row|] eqn:Hrow; [|exact Herr].
  destruct (consumable row now) eqn:Hc; [|exact Herr].
  rewrite upsertNode_effect. cbn. split; [done|]. split.
  { intros Hr. rewrite Hr in Hm. cbn in Hm. by apply negb_false_iff in Hm. }
  unfold consumable in Hc. split.
  - exists row. by destruct (used_at row).
  - eexists. rewrite lookup_insert_eq. split; [reflexivity|]. split; [|reflexivity].
    by destruct (mesh_nodes (storage s) !! _).
Qed.

(** The nodes that the readiness report looks at: the twenty seen last. *)
Definition recent_nodes (s : mesh_service) : list MeshNodeRecord :=
  mapNodeRow <$> sql_limit 20
    (order_by (λ a b, string_leb (last_seen_at b) (last_seen_at a)) (sql_rows (λ _, true) (mesh_nodes (storage s)))).

Lemma find_node_spec id l :
  match List.find (λ node, bool_decide (nodeId node = id)) l with
  | Some n => id ∈ nodeId <$> l
  | None => id ∉ nodeId <$> l
  end.
Proof.
  destruct (List.find _ l) as [n|] eqn:E.
  - apply List.find_some in E as [Hin <-%bool_decide_eq_true].
    apply list_elem_of_fmap. exists n. by rewrite list_elem_of_In.
  - intros (n & -> & Hin%list_elem_of_In)%list_elem_of_fmap. apply List.find_none with (x := n) in E; [|done].
    by apply bool_decide_eq_false in E.
Qed.

(** Only two checks can fail. *)
Lemma posture_filter o s1 s2 s3 m1 m2 m3 m4 m5 e1 e2 e3 e4 e5 :
  s2 ≠ check_fail → s3 ≠ check_fail →
  match check_message <$> List.filter is_fail [
    mkCheck local_node s1 m1 e1;
    mkCheck join_token_lifecycle s2 m2 e2;
    buildTransportPostureCheck o;
    mkCheck lease_lifecycle check_warn m3 e3;
    mkCheck session_owner_failover check_warn m4 e4;
    mkCheck replication_offsets s3 m5 e5] with
  | [] => ready | _ => blocked end =
  match s1 with
  | check_fail => blocked
  | _ => if bool_decide (opt_mode o = tailnet) && negb (opt_tailnetEnabled o) then blocked else ready
  end.
Proof.
  unfold buildTransportPostureCheck.
  destruct s1, s2, s3, (bool_decide (opt_mode o = tailnet)), (opt_tailnetEnabled o), (opt_requireMtls o); done.
Qed.

(** The readiness report never changes the service, and its verdict means:
    [ready] exactly when the mesh is enabled, the local node is among the twenty
    nodes seen last, and tailnet mode has its security posture enabled; and
    [not_enabled] exactly when the mesh is disabled. *)
Theorem readiness_verdict clock s :
  ∃ report, readinessDiagnostics clock s = (Ok report, s) ∧
    (readiness report = not_enabled ↔ opt_enabled (options s) = false) ∧
    (readiness report = ready ↔
      opt_enabled (options s) = true ∧
      opt_localNodeId (options s) ∈ nodeId <$> recent_nodes s ∧
      (opt_mode (options s) = tailnet → opt_tailnetEnabled (options s) = true)).
Proof.
  destruct s as [o d].
  set (snapshot := mkMeshStatus (opt_enabled o) (opt_mode o) (opt_localNodeId o) (bool_decide (opt_mode o = tailnet))
    (count_rows (λ n, bool_decide (row_status n = online)) (mesh_nodes d))
    (count_rows (λ l, string_ltb clock (lease_expires_at l)) (mesh_leases d))
    (count_rows (λ _, true) (mesh_session_owners d))).
  set (checks := readiness_checks o snapshot (recent_nodes (mkService o d))
    (mapReplicationRow <$> listReplicationStmt 20 d)
    (mapOffsetRow <$> sql_limit 20
      (order_by (λ a b, string_leb (offset_updated_at b) (offset_updated_at a))
        (sql_rows (λ _, true) (mesh_replication_offsets d))))).
  exists (mkDiagnostics clock
    (if negb (opt_enabled o) then not_enabled
     else match check_message <$> List.filter is_fail checks with [] => ready | _ => blocked end)
    snapshot checks (check_message <$> List.filter is_fail checks) "verify:mesh:readiness").
  split; [reflexivity|]. cbn [readiness options]. unfold checks. clear checks. unfold recent_nodes. cbn [storage].
  pose proof (find_node_spec (opt_localNodeId o) (mapNodeRow <$> sql_limit 20
    (order_by (λ a b, string_leb (last_seen_at b) (last_seen_at a)) (sql_rows (λ _, true) (mesh_nodes d))))) as Hf.
  unfold readiness_checks. destruct (opt_enabled o) eqn:Hen; cbn [negb].
  2: { split; [by split|]. split; [done|]. by intros [? _]. }
  rewrite posture_filter by (by repeat case_match).
  set (posture := bool_decide (opt_mode o = tailnet) && negb (opt_tailnetEnabled o)).
  assert (Hpost : posture = false ↔ (opt_mode o = tailnet → opt_tailnetEnabled o = true)).
  { unfold posture. case_bool_decide as Hm; destruct (opt_tailnetEnabled o); cbn;
      split; intros Hx; first [done|by intros ?|by specialize (Hx Hm)]. }
  destruct (List.find _ _); [destruct posture|]; (split; [by split|]).
  - split; [done|]. intros (_ & _ & Hp). by apply Hpost in Hp.
  - split; [|done]. intros _. split_and!; [done|done|by apply Hpost].
  - split; [done|]. by intros (_ & ? & _).
Qed.
End service_theorems.
