(* ===== verification/MeshExamples.v ===== *)
(** * Concrete runs of the mesh

    A small mesh on which the guarantees of MeshTheorems and
    MeshServiceTheorems are applied. *)
From S2P Require Import Prelude.
From S2P Require Import JsString.
From S2P Require Import JsJson.
From S2P Require Import JsTime.
From S2P Require Import Errors.
From S2P Require Import MeshRepo.
From S2P Require Import MeshTheorems.
From S2P Require Import MeshService.
From S2P Require Import MeshServiceTheorems.

Definition sampleSha (s : string) : string := "h" +:+ s.
Definition t0 : string := "2026-01-01T00:00:00.000Z".
Definition t1 : string := "2026-01-01T00:00:30.000Z".
Definition t2 : string := "2026-01-01T00:02:00.000Z".

(** [node-a] holds the lease [planner] from [t0] for a minute. *)
Definition leased : mesh_db := (acquireLease "planner" "node-a" 60 t0 empty_mesh_db).2.
(** [node-b] takes it over after it expired. *)
Definition taken_over : mesh_db := (acquireLease "planner" "node-b" 60 t2 leased).2.
Definition leasedRow : MeshLeaseRow := mkLeaseRow "planner" "node-a" 1 "2026-01-01T00:01:00.000Z" t0.
Definition takenRow : MeshLeaseRow := mkLeaseRow "planner" "node-b" 2 "2026-01-01T00:03:00.000Z" t2.

Example leased_row : mesh_leases leased !! "planner" = Some leasedRow.
Proof. vm_compute. reflexivity. Qed.
Example taken_row : mesh_leases taken_over !! "planner" = Some takenRow.
Proof. vm_compute. reflexivity. Qed.

(** Fencing tokens start again at 1 once the lease has been released. *)
Definition released : mesh_db := (releaseLease "planner" "node-b" 2 taken_over).2.
Example fencing_restarts_after_release :
  (acquireLease "planner" "node-a" 60 t2 released).1 =
    Ok (mkLease "planner" "node-a" 1 "2026-01-01T00:03:00.000Z" t2).
Proof. vm_compute. reflexivity. Qed.

Lemma mesh_reachable_wf_witness : mesh_wf leased.
Proof.
  apply (mesh_reachable_wf sampleSha). apply rtc_once, plain_step.
  exact (step_acquireLease sampleSha empty_mesh_db "planner" "node-a" 60 t0).
Defined.

Lemma lease_succession_witness : fencing_token leasedRow < fencing_token takenRow ∧ tenures leasedRow takenRow ∧
  ∀ d, mesh_step_or_restore sampleSha taken_over d → mesh_leases d !! "planner" = None →
    d = (releaseLease "planner" "node-b" 2 taken_over).2.
Proof.
  split; [reflexivity|].
  destruct (lease_succession sampleSha "planner" leased taken_over leasedRow takenRow) as (Ht & _ & _ & Hd).
  - apply rtc_once. split; [|exists takenRow; apply taken_row]. apply plain_step.
    exact (step_acquireLease sampleSha leased "planner" "node-b" 60 t2).
  - apply leased_row.
  - apply taken_row.
  - split; [exact Ht|exact Hd].
Defined.

Lemma held_lease_protected_witness : releaseLease "planner" "node-b" 1 leased = (Ok false, leased).
Proof.
  apply (held_lease_protected "planner" leasedRow "node-b" 60 1 t1 leased).
  - apply leased_row.
  - by intros [=].
  - vm_compute. reflexivity.
Defined.

Lemma pair_ok {E A S} (d : A) (x : outcome E A * S) :
  is_ok x.1 = true → x = (Ok (match x.1 with Ok a => a | Err _ => d end), x.2).
Proof. by destruct x as [[a|e] s]. Qed.

Definition dummyLease : MeshLeaseRecord := mkLease "" "" 0 "" "".

Lemma lease_takeover_race_witness :
  fails (acquireLeaseFrom (Some leasedRow) "planner" "node-c" 60 t2 taken_over) taken_over.
Proof.
  pose proof (lease_takeover_race "planner" "node-b" "node-c" 60 60 t2 t2 leased taken_over
    (mapLeaseRow takenRow)) as H. cbn zeta in H. rewrite leased_row in H. apply H.
  - vm_compute. reflexivity.
  - intros c Hc. injection Hc as <-. by intros [=].
Defined.

(** [node-a] re-acquires its expired lease while [node-b] has read the old row. *)
Definition reacquired : mesh_db := (acquireLease "planner" "node-a" 60 t2 leased).2.
Lemma lease_reacquire_race_witness :
  ∃ r2 d2, acquireLeaseFrom (Some leasedRow) "planner" "node-b" 60 t2 reacquired = (Ok r2, d2) ∧
    holderNodeId r2 = "node-b" ∧ fencingToken r2 = 2.
Proof.
  apply (lease_reacquire_race leasedRow "planner" "node-a" "node-b" 60 60 t2 t2 leased reacquired
    (mkLease "planner" "node-a" 1 "2026-01-01T00:03:00.000Z" t2) "2026-01-01T00:03:00.000Z");
    [apply leased_row|reflexivity|by intros [=]|vm_compute; reflexivity..].
Defined.

Definition claimA : MeshSessionClaimRequest := mkClaim "node-a" None None.
Definition claimB : MeshSessionClaimRequest := mkClaim "node-b" (Some 1) None.
Definition claimed : mesh_db := (claimSessionOwner "session-1" claimA t0 empty_mesh_db).2.
Definition claimedRow : MeshSessionOwnerRow := mkOwnerRow "session-1" "node-a" 1 t0 t0.
Example claimed_lookup : mesh_session_owners claimed !! "session-1" = Some claimedRow.
Proof. vm_compute. reflexivity. Qed.

Lemma session_claim_epochs_witness :
  ∃ r d', claimSessionOwner "session-1" claimB t1 claimed = (Ok r, d') ∧ ownerNodeId r = "node-b" ∧ epoch r = 2.
Proof.
  pose proof (session_claim_epochs "session-1" claimB t1 claimed claimedRow claimed_lookup) as H.
  destruct H as (r & d' & H1 & H2 & H3 & _). exists r, d'. split; [exact H1|]. split; [exact H2|exact H3].
Defined.

Definition claimedB : mesh_db := (claimSessionOwner "session-1" claimB t1 claimed).2.
Lemma session_claim_race_witness :
  fails (claimSessionOwnerFrom (Some claimedRow) "session-1" (mkClaim "node-c" None (Some true)) t1 claimedB) claimedB.
Proof.
  pose proof (session_claim_race "session-1" claimB (mkClaim "node-c" None (Some true)) t1 t1 claimed claimedB
    (mkSessionOwner "session-1" "node-b" 2 t0 t1)) as H. cbn zeta in H. rewrite claimed_lookup in H. apply H.
  vm_compute. reflexivity.
Defined.

(** A token that is issued, spent, and issued again. *)
Definition issued : mesh_db := (issueJoinToken sampleSha t0 "secret" t2 empty_mesh_db).2.
Definition spentDb : mesh_db := (consumeJoinToken sampleSha "secret" "node-a" t1 issued).2.
Definition reissued : mesh_db := (issueJoinToken sampleSha t1 "secret" "2027-01-01T00:00:00.000Z" spentDb).2.

Lemma join_token_single_use_witness :
  consumeJoinToken sampleSha "secret" "node-b" t1 reissued = (Ok false, reissued).
Proof.
  apply (join_token_single_use sampleSha "secret" "node-a" t1 issued spentDb).
  - vm_compute. reflexivity.
  - apply rtc_once. exact (step_issueJoinToken sampleSha spentDb t1 "secret" "2027-01-01T00:00:00.000Z").
Defined.

Definition event1 : MeshReplicationIngestRequest := mkIngest "node-a" "session.updated" [("n", JNumber "1")] "k1".
Definition event2 : MeshReplicationIngestRequest := mkIngest "node-a" "session.updated" [] "k1".
Definition logged : mesh_db := (appendReplicationEvent t0 "u1" event1 empty_mesh_db).2.
Definition logged2 : mesh_db :=
  (appendReplicationEvent t0 "u2" (mkIngest "node-b" "session.closed" [] "k1") logged).2.
Definition stored1 : MeshReplicationRecord :=
  mkReplication "u1" "node-a" "session.updated" [("n", JNumber "1")] "k1" t0.

Lemma replication_append_idempotent_witness :
  appendReplicationEvent t1 "u9" event2 logged = (Ok stored1, logged).
Proof.
  apply (replication_append_idempotent t0 "u1" event1 t1 "u9" event2 empty_mesh_db logged stored1);
    [vm_compute; reflexivity|reflexivity|reflexivity].
Defined.

Lemma logged2_wf : mesh_wf logged2.
Proof.
  apply (mesh_step_wf sampleSha logged).
  - apply (mesh_step_wf sampleSha empty_mesh_db); [apply empty_mesh_wf|].
    exact (step_appendReplicationEvent sampleSha empty_mesh_db t0 "u1" event1).
  - exact (step_appendReplicationEvent sampleSha logged t0 "u2" (mkIngest "node-b" "session.closed" [] "k1")).
Qed.

Lemma replication_pages_witness :
  listReplicationEvents 10 (Some "u0") logged2 =
    (Err (NotFoundError (NotFoundEntity "Replication cursor" (Some "u0"))), logged2).
Proof. exact (proj2 (replication_pages logged2 logged2_wf 10 "u0")). Defined.

Example second_page :
  fmap (List.map replicationId) (match (listReplicationEvents 10 (Some "u1") logged2).1 with Ok l => Some l | Err _ => None end)
  = Some ["u2"].
Proof. vm_compute. reflexivity. Qed.

Definition sampleOptions : MeshRuntimeOptions :=
  mkOptions true lan "node-a" None None true false (Some " secret ") 60.
Definition sampleService : mesh_service := mkService sampleOptions empty_mesh_db.
Definition newOptions : MeshRuntimeOptions := mkOptions true tailnet "node-z" None None false true (Some "other") 30.
Definition sampleReadings : Readings := mkReadings t0 1767225600000 t0.
Definition dummyReplacement : Replacement := mkReplacement (mkSnapshot "" None None None) sampleOptions.
Definition replaced := replaceOptionsReversibly sampleSha sampleReadings newOptions sampleService.

Lemma replaceOptionsReversibly_rollback_witness :
  rollback (match replaced.1 with Ok r => r | Err _ => dummyReplacement end) replaced.2 = (Ok tt, sampleService).
Proof.
  apply (replaceOptionsReversibly_rollback sampleSha sampleReadings newOptions sampleService).
  - apply empty_mesh_wf.
  - by intros x [=].
  - apply (pair_ok dummyReplacement). vm_compute. reflexivity.
Defined.

Example replaced_registers : is_ok replaced.1 = true ∧ opt_localNodeId (options replaced.2) = "node-z".
Proof. vm_compute. done. Qed.
