(* ===== verification/MutationIdempotency.v ===== *)
(** * Mutation idempotency (packages/storage/src/mutation-idempotency-repo.ts)

    Admission of external mutations by idempotency key: a caller claims a key,
    records the moment it crosses the dispatch boundary, and settles the claim.
    The table is a map from its primary key (method, route, key, actor scope).
    [randomUUID()], the database clock and [new Date().toISOString()] are
    arguments. *)
From S2P Require Import Prelude.
From S2P Require Import JsString.
From S2P Require Import JsNumber.
From S2P Require Import JsTime.
From S2P Require Import Errors.

Inductive MutationIdempotencyStatus : Set := pending | completed | failed | unknown_after_send.

#[export] Instance MutationIdempotencyStatus_eq_dec : EqDecision MutationIdempotencyStatus.
Proof. solve_decision. Defined.

Record MutationIdempotencyRecord := mkRecord {
  method : string;
  routePath : string;
  idempotencyKey : string;
  actorScope : string;
  payloadHash : string;
  status : MutationIdempotencyStatus;
  claimToken : option string;
  claimExpiresAt : option string;
  dispatchedAt : option string;
  createdAt : string;
  updatedAt : string;
}.

(** [method], [route_path], [idempotency_key], [actor_scope]: the primary key. *)
Notation identity := (string * string * string * string)%type.

(** The other columns of a row. *)
Record MutationIdempotencyRow := mkRow {
  payload_hash : string;
  row_status : MutationIdempotencyStatus;
  claim_token : option string;
  claim_expires_at : option string;
  dispatched_at : option string;
  created_at : string;
  updated_at : string;
}.

#[export] Instance row_eta : Eta MutationIdempotencyRow := λ r,
  mkRow (payload_hash r) (row_status r) (claim_token r) (claim_expires_at r) (dispatched_at r)
    (created_at r) (updated_at r).

Notation table := (gmap identity MutationIdempotencyRow).
Notation repo := (M js_error table).

Inductive ClaimKind : Set :=
  | new_claim
  | retry_after_failure
  | retry_after_stale_claim
  | redispatch_after_stale_send.

(** [MutationIdempotencyClaimResult]. *)
Inductive ClaimResult :=
  | claimed (record : MutationIdempotencyRecord) (claimKind : ClaimKind)
  | claim_unknown_after_send (record : MutationIdempotencyRecord)
  | in_progress (record : MutationIdempotencyRecord)
  | duplicate (record : MutationIdempotencyRecord)
  | payload_mismatch (record : MutationIdempotencyRecord).

(** [MutationIdempotencyDispatchResult]. *)
Inductive DispatchResult :=
  | dispatched (record : MutationIdempotencyRecord)
  | claim_lost (record : option MutationIdempotencyRecord).

(** [MutationIdempotencyIdentityInput]. *)
Record IdentityInput := mkIdentity {
  in_method : string;
  in_routePath : string;
  in_idempotencyKey : string;
  in_actorScope : option string;
}.

(** ** Helpers *)

Definition normalizeIdentity (input : IdentityInput) : identity :=
  (in_method input, in_routePath input, in_idempotencyKey input, default "" (trim <$> in_actorScope input)).

Definition mapRow (id : identity) (row : MutationIdempotencyRow) : MutationIdempotencyRecord :=
  let '(m, p, k, a) := id in
  mkRecord m p k a (payload_hash row) (row_status row) (claim_token row) (claim_expires_at row)
    (dispatched_at row) (created_at row) (updated_at row).

Definition iso_or_throw (ms : Z) : res string :=
  match to_iso ms with Some s => Ok s | None => Err (JsRangeError "Invalid time value") end.

Definition normalizeClaimTime (value : string) : res string :=
  match date_parse value with
  | None => Err (JsError "Mutation idempotency claim time must be a valid ISO timestamp.")
  | Some timestampMs => iso_or_throw timestampMs
  end.

Definition normalizeLeaseDurationMs (value : option number) : res (option Z) :=
  match value with
  | None => Ok None
  | Some v =>
      _ ← throw_when (negb (num_is_finite v) || num_le v (num_of_Z 0))
        (JsError "Mutation idempotency claim lease duration must be a positive number.");
      Ok (num_floor v)
  end.

(** [leaseDurationMs === undefined ? null : new Date(nowMs + leaseDurationMs).toISOString()]. *)
Definition leaseExpiry (now : string) (leaseDurationMs : option Z) : res (option string) :=
  match leaseDurationMs with
  | None => Ok None
  | Some ms =>
      match date_to_iso ((λ t, t + ms) <$> date_parse now) with
      | Some s => Ok (Some s)
      | None => Err (JsRangeError "Invalid time value")
      end
  end.

Definition isClaimLeaseActive (record : MutationIdempotencyRecord) (now : string) : bool :=
  match claimExpiresAt record with
  | Some e => if truthy e then num_gtb (date_parse e) (date_parse now) else false
  | None => false
  end.

Definition classifyConcurrentClaim (record : MutationIdempotencyRecord) (hash : string) : ClaimResult :=
  if negb (bool_decide (payloadHash record = hash)) then payload_mismatch record
  else match status record with
       | unknown_after_send => claim_unknown_after_send record
       | completed => duplicate record
       | _ => in_progress record
       end.

(** ** Statements *)

Definition is_status (s : MutationIdempotencyStatus) (row : MutationIdempotencyRow) : bool :=
  bool_decide (row_status row = s).

(** [claim_expires_at IS NULL OR claim_expires_at <= @updatedAt], as text. *)
Definition lease_over (now : string) (row : MutationIdempotencyRow) : bool :=
  match claim_expires_at row with None => true | Some e => string_leb e now end.

Definition run_update (cond : MutationIdempotencyRow → bool) (f : MutationIdempotencyRow → MutationIdempotencyRow)
    (id : identity) : repo Z := λ t,
  let '(changes, t') := sql_update cond f id t in (Ok changes, t').

Definition insertStmt (id : identity) (hash token : string) (expires : option string) (now : string) : repo Z := λ t,
  let '(changes, t') := sql_insert_ignore id (mkRow hash pending (Some token) expires None now now) t in
  (Ok changes, t').

Definition updateStatusStmt (id : identity) (s : MutationIdempotencyStatus) (now : string) : repo Z :=
  run_update (λ row, negb (is_status unknown_after_send row))
    (λ row, row <| row_status := s |> <| claim_expires_at := None |> <| updated_at := now |>) id.

Definition markReconciledCompletedStmt (id : identity) (now : string) : repo Z :=
  run_update (is_status unknown_after_send)
    (λ row, row <| row_status := completed |> <| claim_expires_at := None |> <| updated_at := now |>) id.

Definition updateOwnedStatusStmt (id : identity) (s : MutationIdempotencyStatus) (now token : string) : repo Z :=
  run_update (λ row, is_status pending row && bool_decide (claim_token row = Some token))
    (λ row, row <| row_status := s |> <| claim_expires_at := None |> <| updated_at := now |>) id.

Definition discardOwnedPendingStmt (id : identity) (hash token : string) : repo Z := λ t,
  let '(changes, t') := sql_delete
    (λ row, bool_decide (payload_hash row = hash) && is_status pending row && bool_decide (claim_token row = Some token))
    id t in
  (Ok changes, t').

Definition reviveFailedStmt (id : identity) (hash token : string) (expires : option string) (now : string) : repo Z :=
  run_update (is_status failed)
    (λ row, row <| payload_hash := hash |> <| row_status := pending |> <| claim_token := Some token |>
                <| claim_expires_at := expires |> <| dispatched_at := None |> <| updated_at := now |>) id.

(** [claim_token IS @previousClaimToken]: equal, or both NULL. *)
Definition takeoverStaleStmt (id : identity) (hash token : string) (expires previous : option string) (now : string)
    : repo Z :=
  run_update (λ row, is_status pending row && lease_over now row && bool_decide (claim_token row = previous))
    (λ row, row <| payload_hash := hash |> <| row_status := pending |> <| claim_token := Some token |>
                <| claim_expires_at := expires |> <| updated_at := now |>) id.

Definition settleStaleDispatchedStmt (id : identity) (hash token : string) (previous : option string) (now : string)
    : repo Z :=
  run_update (λ row, bool_decide (payload_hash row = hash) && is_status pending row &&
      bool_decide (is_Some (dispatched_at row)) && lease_over now row && bool_decide (claim_token row = previous))
    (λ row, row <| row_status := unknown_after_send |> <| claim_token := Some token |>
                <| claim_expires_at := None |> <| updated_at := now |>) id.

Definition markDispatchedStmt (id : identity) (token nextToken : string) (expires : option string) (now : string)
    : repo Z :=
  run_update (λ row, is_status pending row && bool_decide (claim_token row = Some token))
    (λ row, row <| dispatched_at := Some now |> <| claim_token := Some nextToken |>
                <| claim_expires_at := expires |> <| updated_at := now |>) id.

(** ** Operations *)

Definition get (id : identity) : repo (option MutationIdempotencyRecord) :=
  gets (λ t, mapRow id <$> t !! id).

(** [this.get(identity)!] where the row was just written. *)
Definition get_written (id : identity) : repo MutationIdempotencyRecord :=
  record ← get id;
  match record with
  | Some record => mret record
  | None => throw (JsTypeError "record is undefined")
  end.

Record ClaimInput := mkClaimInput {
  claim_identity : IdentityInput;
  claim_payloadHash : string;
  claim_now : option string;
  claim_leaseDurationMs : option number;
  providerIdempotencyKeyEnforced : option bool;
}.

(** [this.get(identity) ?? current]. *)
Definition get_or (id : identity) (current : MutationIdempotencyRecord) : repo MutationIdempotencyRecord :=
  record ← get id; mret (default current record).

(** The part of [claim] after an existing row was read. *)
Definition claimExisting (uuid : string) (id : identity) (hash now : string) (leaseDurationMs : option Z)
    (expires : option string) (enforced : bool) (current : MutationIdempotencyRecord) : repo ClaimResult :=
  if negb (bool_decide (payloadHash current = hash)) then mret (payload_mismatch current) else
  match status current with
  | completed => mret (duplicate current)
  | unknown_after_send => mret (claim_unknown_after_send current)
  | failed =>
      changes ← reviveFailedStmt id hash uuid expires now;
      if 0 <? changes then record ← get_written id; mret (claimed record retry_after_failure)
      else latest ← get_or id current; mret (classifyConcurrentClaim latest hash)
  | pending =>
      if bool_decide (leaseDurationMs = None) || isClaimLeaseActive current now then mret (in_progress current)
      else if truthy_opt (dispatchedAt current) && negb enforced then
        changes ← settleStaleDispatchedStmt id hash uuid (claimToken current) now;
        if 0 <? changes then record ← get_written id; mret (claim_unknown_after_send record)
        else latest ← get_or id current; mret (classifyConcurrentClaim latest hash)
      else
        changes ← takeoverStaleStmt id hash uuid expires (claimToken current) now;
        if 0 <? changes then
          record ← get_written id;
          mret (claimed record (if truthy_opt (dispatchedAt current) then redispatch_after_stale_send
                                else retry_after_stale_claim))
        else latest ← get_or id current; mret (classifyConcurrentClaim latest hash)
  end.

Definition claim (uuid dbNow : string) (input : ClaimInput) : repo ClaimResult :=
  leaseDurationMs ← lift (normalizeLeaseDurationMs (claim_leaseDurationMs input));
  let id := normalizeIdentity (claim_identity input) in
  let hash := claim_payloadHash input in
  transaction (
    now ← lift (normalizeClaimTime (default dbNow (claim_now input)));
    expires ← lift (leaseExpiry now leaseDurationMs);
    existing ← get id;
    match existing with
    | None =>
        changes ← insertStmt id hash uuid expires now;
        if 0 <? changes then record ← get_written id; mret (claimed record new_claim)
        else
          current ← get id;
          match current with
          | None => throw (JsError "Mutation idempotency claim disappeared during acquisition.")
          | Some current =>
              claimExisting uuid id hash now leaseDurationMs expires
                (bool_decide (providerIdempotencyKeyEnforced input = Some true)) current
          end
    | Some current =>
        claimExisting uuid id hash now leaseDurationMs expires
          (bool_decide (providerIdempotencyKeyEnforced input = Some true)) current
    end).

Record DispatchInput := mkDispatchInput {
  dispatch_identity : IdentityInput;
  dispatch_claimToken : string;
  dispatch_leaseDurationMs : option number;
  dispatch_now : option string;
}.

Definition markDispatched (uuid dbNow : string) (input : DispatchInput) : repo DispatchResult :=
  let id := normalizeIdentity (dispatch_identity input) in
  let token := trim (dispatch_claimToken input) in
  leaseDurationMs ← lift (normalizeLeaseDurationMs (dispatch_leaseDurationMs input));
  transaction (
    if negb (truthy token) then record ← get id; mret (claim_lost record)
    else
      now ← lift (normalizeClaimTime (default dbNow (dispatch_now input)));
      expires ← lift (leaseExpiry now leaseDurationMs);
      changes ← markDispatchedStmt id token uuid expires now;
      record ← get id;
      match record with
      | Some record => if 0 <? changes then mret (dispatched record) else mret (claim_lost (Some record))
      | None => mret (claim_lost None)
      end).

Record SettleInput := mkSettleInput {
  settle_identity : IdentityInput;
  settle_updatedAt : option string;
  settle_claimToken : option string;
}.

Definition updateStatus (clock : string) (input : SettleInput) (s : MutationIdempotencyStatus) : repo bool :=
  let id := normalizeIdentity (settle_identity input) in
  let token := trim <$> settle_claimToken input in
  let now := default clock (settle_updatedAt input) in
  changes ←
    match token with
    | Some t => if truthy t then updateOwnedStatusStmt id s now t else updateStatusStmt id s now
    | None => updateStatusStmt id s now
    end;
  if 0 <? changes then mret true
  else if negb (truthy_opt token) then mret false
  else
    current ← get id;
    mret (match current with
          | Some current => bool_decide (status current = s) && bool_decide (claimToken current = token)
          | None => false
          end).

Definition markCompleted (clock : string) (input : SettleInput) : repo bool := updateStatus clock input completed.
Definition markFailed (clock : string) (input : SettleInput) : repo bool := updateStatus clock input failed.

Definition markUnknownAfterSend (clock : string) (input : SettleInput) : repo bool :=
  if negb (truthy_opt (trim <$> settle_claimToken input)) then mret false
  else updateStatus clock input unknown_after_send.

Definition markReconciledCompleted (clock : string) (input : IdentityInput) (at_ : option string) : repo bool :=
  changes ← markReconciledCompletedStmt (normalizeIdentity input) (default clock at_);
  mret (0 <? changes).

Definition discardPending (input : IdentityInput) (hash token : string) : repo bool :=
  let id := normalizeIdentity input in
  let token := trim token in
  if negb (truthy token) then mret false
  else
    changes ← discardOwnedPendingStmt id hash token;
    current ← get id;
    mret ((0 <? changes) || bool_decide (current = None)).
