(* ===== verification/MutationTheorems.v ===== *)
(** * What mutation idempotency guarantees

    The effect of a claim on every branch; the token fence; the status machine;
    and that a mutation that may have been sent is never handed out again. *)
From S2P Require Import Prelude.
From S2P Require Import JsString.
From S2P Require Import JsNumber.
From S2P Require Import JsTime.
From S2P Require Import Errors.
From S2P Require Import MutationIdempotency.

(** ** Effects *)

Lemma run_update_effect cond f id t :
  run_update cond f id t =
  match t !! id with
  | Some row => if cond row then (Ok 1, <[id := f row]> t) else (Ok 0, t)
  | None => (Ok 0, t)
  end.
Proof.
  unfold run_update, sql_update. destruct (t !! id) as [row|]; [|done]. by destruct (cond row).
Qed.

(** An update followed by a test of its [changes]. *)
Lemma update_then {A} (cond : MutationIdempotencyRow → bool) (f : MutationIdempotencyRow → MutationIdempotencyRow) (id : identity)
    (won lost : repo A) (row : MutationIdempotencyRow) (t : table) :
  t !! id = Some row →
  (changes ← run_update cond f id; if 0 <? changes then won else lost) t =
    if cond row then won (<[id := f row]> t) else lost t.
Proof.
  intros Hrow. unfold mbind, M_bind. rewrite run_update_effect, Hrow. by destruct (cond row).
Qed.

Lemma run_update_then {A} (cond : MutationIdempotencyRow → bool) (f : MutationIdempotencyRow → MutationIdempotencyRow)
    (id : identity) (k : Z → repo A) (t : table) :
  (run_update cond f id ≫= k) t =
  match t !! id with
  | Some row => if cond row then k 1 (<[id := f row]> t) else k 0 t
  | None => k 0 t
  end.
Proof.
  unfold mbind, M_bind. rewrite run_update_effect. destruct (t !! id) as [row|]; [|done]. by destruct (cond row).
Qed.

Lemma get_run id t : get id t = (Ok (mapRow id <$> t !! id), t).
Proof. reflexivity. Qed.

Lemma get_then {A} (id : identity) (f : option MutationIdempotencyRecord → repo A) (t : table) :
  (get id ≫= f) t = f (mapRow id <$> t !! id) t.
Proof. reflexivity. Qed.

Lemma get_written_run id row t : t !! id = Some row → get_written id t = (Ok (mapRow id row), t).
Proof. intros Hr. unfold get_written, mbind, M_bind. by rewrite get_run, Hr. Qed.

Lemma get_or_run id current row t : t !! id = Some row → get_or id current t = (Ok (mapRow id row), t).
Proof. intros Hr. unfold get_or, mbind, M_bind. by rewrite get_run, Hr. Qed.

Lemma mapRow_fields id row :
  payloadHash (mapRow id row) = payload_hash row ∧ status (mapRow id row) = row_status row ∧
  claimToken (mapRow id row) = claim_token row ∧ claimExpiresAt (mapRow id row) = claim_expires_at row ∧
  dispatchedAt (mapRow id row) = dispatched_at row.
Proof. by destruct id as [[[? ?] ?] ?]. Qed.

Lemma written_then {A} (id : identity) (row : MutationIdempotencyRow) (k : MutationIdempotencyRecord → A) (t : table) :
  t !! id = Some row → (record ← get_written id; mret (k record)) t = (Ok (k (mapRow id row)) : outcome js_error A, t).
Proof. intros Hr. unfold mbind, M_bind. by rewrite (get_written_run _ _ _ Hr). Qed.

(** The rows a claim can leave. *)
Definition fresh_row (hash uuid : string) (expires : option string) (now : string) : MutationIdempotencyRow :=
  mkRow hash pending (Some uuid) expires None now now.
Definition revived_row (row : MutationIdempotencyRow) (hash uuid : string) (expires : option string) (now : string) :=
  mkRow hash pending (Some uuid) expires None (created_at row) now.
Definition taken_row (row : MutationIdempotencyRow) (hash uuid : string) (expires : option string) (now : string) :=
  mkRow hash pending (Some uuid) expires (dispatched_at row) (created_at row) now.
Definition settled_row (row : MutationIdempotencyRow) (uuid now : string) :=
  mkRow (payload_hash row) unknown_after_send (Some uuid) None (dispatched_at row) (created_at row) now.

(** May the claim of [row] be taken over at [now]? *)
Definition takeable (row : MutationIdempotencyRow) (lease : option Z) (now : string) : bool :=
  negb (bool_decide (lease = None)) &&
  negb (match claim_expires_at row with
        | Some e => if truthy e then num_gtb (date_parse e) (date_parse now) else false
        | None => false
        end) &&
  lease_over now row.

Definition sent (row : MutationIdempotencyRow) : bool := truthy_opt (dispatched_at row).

(** What a claim does to an existing row. *)
Definition claim_effect (uuid : string) (id : identity) (hash now : string) (lease : option Z)
    (expires : option string) (enforced : bool) (row : MutationIdempotencyRow) (t : table)
    : outcome js_error ClaimResult * table :=
  let cur := mapRow id row in
  if negb (bool_decide (payload_hash row = hash)) then (Ok (payload_mismatch cur), t) else
  match row_status row with
  | completed => (Ok (duplicate cur), t)
  | unknown_after_send => (Ok (claim_unknown_after_send cur), t)
  | failed =>
      let row' := revived_row row hash uuid expires now in
      (Ok (claimed (mapRow id row') retry_after_failure), <[id := row']> t)
  | pending =>
      if takeable row lease now then
        if sent row && negb enforced then
          let row' := settled_row row uuid now in
          (Ok (claim_unknown_after_send (mapRow id row')), <[id := row']> t)
        else
          let row' := taken_row row hash uuid expires now in
          (Ok (claimed (mapRow id row')
             (if sent row then redispatch_after_stale_send else retry_after_stale_claim)), <[id := row']> t)
      else (Ok (in_progress cur), t)
  end.

Lemma claimExisting_effect uuid id hash now lease expires enforced row t :
  t !! id = Some row →
  claimExisting uuid id hash now lease expires enforced (mapRow id row) t =
    claim_effect uuid id hash now lease expires enforced row t.
Proof.
  intros Hrow. unfold claimExisting, claim_effect, isClaimLeaseActive.
  destruct (mapRow_fields id row) as (-> & -> & -> & -> & ->).
  case_bool_decide as Hh; cbn [negb]; [|done]. subst hash.
  destruct (row_status row) eqn:Hs; [|done| |done].
  - unfold takeable. destruct (bool_decide (lease = None)); cbn [negb andb orb]; [done|].
    destruct (match claim_expires_at row with Some e => _ | None => _ end); cbn [negb andb]; [done|].
    fold (sent row). destruct (lease_over now row) eqn:Hover; cbn [andb].
    + destruct (sent row && negb enforced) eqn:Hsent.
      * unfold settleStaleDispatchedStmt. rewrite (update_then _ _ _ _ _ _ _ Hrow).
        replace (_ && _) with true; [|symmetry].
        -- rewrite written_then with (row := settled_row row uuid now) by apply lookup_insert_eq. done.
        -- unfold is_status. rewrite Hs, Hover, !bool_decide_eq_true_2; [done|done| |done|done].
           unfold sent in Hsent. by destruct (dispatched_at row).
      * unfold takeoverStaleStmt. rewrite (update_then _ _ _ _ _ _ _ Hrow).
        unfold is_status. rewrite Hs, Hover, !bool_decide_eq_true_2 by done. cbn [andb].
        rewrite written_then with (row := taken_row row (payload_hash row) uuid expires now)
          by apply lookup_insert_eq. done.
    + assert (Hcls : ∀ t', t' !! id = Some row →
        (latest ← get_or id (mapRow id row); mret (classifyConcurrentClaim latest (payload_hash row))) t' =
        (Ok (in_progress (mapRow id row)) : outcome js_error ClaimResult, t')).
      { intros t' Ht'. unfold mbind, M_bind. rewrite (get_or_run _ _ _ _ Ht'). unfold classifyConcurrentClaim.
        destruct (mapRow_fields id row) as (-> & -> & _). rewrite bool_decide_eq_true_2, Hs by done. done. }
      destruct (sent row && negb enforced).
      * unfold settleStaleDispatchedStmt. rewrite (update_then _ _ _ _ _ _ _ Hrow), Hover, andb_false_r.
        by apply Hcls.
      * unfold takeoverStaleStmt. rewrite (update_then _ _ _ _ _ _ _ Hrow), Hover, andb_false_r.
        by apply Hcls.
  - unfold reviveFailedStmt. rewrite (update_then _ _ _ _ _ _ _ Hrow). unfold is_status.
    rewrite Hs, bool_decide_eq_true_2 by done.
    rewrite written_then with (row := revived_row row (payload_hash row) uuid expires now)
      by apply lookup_insert_eq. done.
Qed.

(** The whole call. *)
Lemma claim_run uuid dbNow input t :
  let id := normalizeIdentity (claim_identity input) in
  let hash := claim_payloadHash input in
  (∃ e, claim uuid dbNow input t = (Err e, t)) ∨
  ∃ lease now expires,
    normalizeLeaseDurationMs (claim_leaseDurationMs input) = Ok lease ∧
    normalizeClaimTime (default dbNow (claim_now input)) = Ok now ∧
    leaseExpiry now lease = Ok expires ∧
    claim uuid dbNow input t =
      match t !! id with
      | Some row => claim_effect uuid id hash now lease expires
          (bool_decide (providerIdempotencyKeyEnforced input = Some true)) row t
      | None =>
          let row := fresh_row hash uuid expires now in
          (Ok (claimed (mapRow id row) new_claim), <[id := row]> t)
      end.
Proof.
  cbn zeta. unfold claim. rewrite M_lift_bind.
  destruct (normalizeLeaseDurationMs _) as [lease|e] eqn:Hl; [|left; by eexists].
  unfold transaction. rewrite M_lift_bind.
  destruct (normalizeClaimTime _) as [now|e] eqn:Hn; [|left; by eexists].
  rewrite M_lift_bind. destruct (leaseExpiry now lease) as [expires|e] eqn:He; [|left; by eexists].
  right. exists lease, now, expires. split; [done|]. split; [done|]. split; [done|].
  rewrite get_then.
  destruct (t !! normalizeIdentity (claim_identity input)) as [row|] eqn:Hrow; cbn [fmap option_fmap option_map].
  - rewrite (claimExisting_effect _ _ _ _ _ _ _ _ _ Hrow). unfold claim_effect.
    by repeat case_match.
  - unfold mbind at 1, M_bind at 1, insertStmt, sql_insert_ignore. rewrite Hrow. change (0 <? 1) with true. cbn iota.
    by rewrite written_then with (row := fresh_row (claim_payloadHash input) uuid expires now)
      by apply lookup_insert_eq.
Qed.

Definition owns (token : string) (row : MutationIdempotencyRow) : bool :=
  is_status pending row && bool_decide (claim_token row = Some token).

Definition dispatched_row (row : MutationIdempotencyRow) (uuid : string) (expires : option string) (now : string) :=
  mkRow (payload_hash row) (row_status row) (Some uuid) expires (Some now) (created_at row) now.

Lemma markDispatched_run uuid dbNow input t :
  let id := normalizeIdentity (dispatch_identity input) in
  let token := trim (dispatch_claimToken input) in
  (∃ e, markDispatched uuid dbNow input t = (Err e, t)) ∨
  if truthy token && match t !! id with Some row => owns token row | None => false end
  then ∃ row now expires, t !! id = Some row ∧
    markDispatched uuid dbNow input t =
      (Ok (dispatched (mapRow id (dispatched_row row uuid expires now))),
       <[id := dispatched_row row uuid expires now]> t)
  else markDispatched uuid dbNow input t = (Ok (claim_lost (mapRow id <$> t !! id)), t).
Proof.
  cbn zeta. unfold markDispatched. rewrite M_lift_bind.
  destruct (normalizeLeaseDurationMs _) as [lease|e]; [|left; by eexists].
  unfold transaction. destruct (truthy _); cbn [negb andb]; [|by right].
  rewrite M_lift_bind. destruct (normalizeClaimTime _) as [now|e]; [|left; by eexists].
  rewrite M_lift_bind. destruct (leaseExpiry now lease) as [expires|e]; [|left; by eexists].
  right. unfold markDispatchedStmt. rewrite run_update_then.
  destruct (t !! _) as [row|] eqn:Hrow.
  - fold (owns (trim (dispatch_claimToken input)) row). destruct (owns _ row).
    + exists row, now, expires. split; [done|]. rewrite get_then, lookup_insert_eq. done.
    + rewrite get_then, Hrow. done.
  - rewrite get_then, Hrow. done.
Qed.

Definition status_row (row : MutationIdempotencyRow) (s : MutationIdempotencyStatus) (now : string) :=
  mkRow (payload_hash row) s (claim_token row) None (dispatched_at row) (created_at row) now.

(** Does a settlement with [token] apply to [row]? *)
Definition settles (token : option string) (row : MutationIdempotencyRow) : bool :=
  match token with
  | Some t => if truthy t then owns t row else negb (is_status unknown_after_send row)
  | None => negb (is_status unknown_after_send row)
  end.

Lemma updateStatus_run clock input s t :
  let id := normalizeIdentity (settle_identity input) in
  let token := trim <$> settle_claimToken input in
  let now := default clock (settle_updatedAt input) in
  updateStatus clock input s t =
  match t !! id with
  | Some row =>
      if settles token row then (Ok true, <[id := status_row row s now]> t)
      else (Ok (truthy_opt token && bool_decide (row_status row = s) && bool_decide (claim_token row = token)), t)
  | None => (Ok false, t)
  end.
Proof.
  cbn zeta. unfold updateStatus. set (id := normalizeIdentity _). set (now := default clock _).
  destruct (trim <$> settle_claimToken input) as [tok|]; cbn [truthy_opt].
  - destruct (truthy tok) eqn:Htr; cbn [negb].
    + unfold updateOwnedStatusStmt. rewrite run_update_then.
      destruct (t !! id) as [row|] eqn:Hrow.
      * unfold settles. rewrite Htr. fold (owns tok row). destruct (owns tok row); [done|].
        cbn [Z.ltb Z.compare]. rewrite get_then, Hrow. cbn [fmap option_fmap option_map].
        destruct (mapRow_fields id row) as (_ & -> & -> & _). done.
      * cbn [Z.ltb Z.compare]. by rewrite get_then, Hrow.
    + unfold updateStatusStmt. rewrite run_update_then.
      destruct (t !! id) as [row|]; [|done]. unfold settles. rewrite Htr.
      by destruct (negb (is_status unknown_after_send row)).
  - unfold updateStatusStmt. rewrite run_update_then.
    destruct (t !! id) as [row|]; [|done]. unfold settles.
    by destruct (negb (is_status unknown_after_send row)).
Qed.

Lemma markReconciledCompleted_run clock input at_ t :
  let id := normalizeIdentity input in
  markReconciledCompleted clock input at_ t =
  match t !! id with
  | Some row =>
      if is_status unknown_after_send row
      then (Ok true, <[id := status_row row completed (default clock at_)]> t) else (Ok false, t)
  | None => (Ok false, t)
  end.
Proof.
  cbn zeta. unfold markReconciledCompleted, markReconciledCompletedStmt, mbind, M_bind. rewrite run_update_effect.
  destruct (t !! _) as [row|]; [|done]. by destruct (is_status unknown_after_send row).
Qed.

Lemma discardPending_run input hash token t :
  let id := normalizeIdentity input in
  discardPending input hash token t =
  if truthy (trim token) then
    match t !! id with
    | Some row =>
        if bool_decide (payload_hash row = hash) && owns (trim token) row then (Ok true, delete id t)
        else (Ok false, t)
    | None => (Ok true, t)
    end
  else (Ok false, t).
Proof.
  cbn zeta. unfold discardPending. destruct (truthy (trim token)); cbn [negb]; [|done].
  unfold discardOwnedPendingStmt, sql_delete, mbind, M_bind.
  destruct (t !! normalizeIdentity input) as [row|] eqn:Hrow; [|by rewrite get_run, Hrow].
  rewrite <-andb_assoc. fold (owns (trim token) row). destruct (_ && owns (trim token) row).
  - by rewrite get_run, lookup_delete_eq.
  - by rewrite get_run, Hrow.
Qed.

(** ** The token fence *)

(** Only the holder of the current token can act on a pending claim: with
    any other (non-blank) token, dispatching reports a lost claim, settling
    and discarding report false, and the table stays as it is.  A call that
    crosses the dispatch boundary or takes the claim over replaces the token,
    so every earlier holder is fenced off from then on. *)
Theorem stale_token_fenced id input token row clock uuid dbNow lease now s hash t :
  normalizeIdentity input = id → t !! id = Some row → row_status row = pending →
  claim_token row ≠ Some (trim token) → truthy (trim token) = true →
  s ≠ pending →
  (let '(result, t') := markDispatched uuid dbNow (mkDispatchInput input token lease now) t in
   t' = t ∧ ∀ r, result ≠ Ok (dispatched r)) ∧
  updateStatus clock (mkSettleInput input now (Some token)) s t = (Ok false, t) ∧
  discardPending input hash token t = (Ok false, t).
Proof.
  intros Hid Hrow Hst Htok Htr Hs. assert (Howns : owns (trim token) row = false).
  { unfold owns. rewrite (bool_decide_eq_false_2 (claim_token row = _)) by done. apply andb_false_r. }
  split_and!.
  - destruct (markDispatched_run uuid dbNow (mkDispatchInput input token lease now) t) as [[e ->]|H]; [done|].
    cbn [dispatch_identity dispatch_claimToken] in H. rewrite Hid, Hrow, Howns, andb_false_r in H. by rewrite H.
  - rewrite updateStatus_run. cbn [settle_identity settle_claimToken fmap option_fmap option_map].
    rewrite Hid, Hrow. unfold settles. rewrite Htr, Howns. cbn [truthy_opt]. rewrite Htr.
    rewrite Hst, bool_decide_eq_false_2 by congruence. done.
  - rewrite discardPending_run, Htr, Hid, Hrow, Howns, andb_false_r. done.
Qed.

(** ** The status machine *)

(** One call of the repository. *)
Inductive mutation_step (t : table) : table → Prop :=
  | step_claim uuid dbNow input : mutation_step t (claim uuid dbNow input t).2
  | step_dispatch uuid dbNow input : mutation_step t (markDispatched uuid dbNow input t).2
  | step_completed clock input : mutation_step t (markCompleted clock input t).2
  | step_failed clock input : mutation_step t (markFailed clock input t).2
  | step_unknown clock input : mutation_step t (markUnknownAfterSend clock input t).2
  | step_reconciled clock input at_ : mutation_step t (markReconciledCompleted clock input at_ t).2
  | step_discard input hash token : mutation_step t (discardPending input hash token t).2.

(** The status edges; [None] is the absence of a row. *)
Definition allowed (o o' : option MutationIdempotencyStatus) : Prop :=
  o = o' ∨
  match o, o' with
  | None, Some pending => True
  | Some pending, _ => True
  | Some failed, Some pending => True
  | Some failed, Some completed => True
  | Some completed, Some failed => True
  | Some unknown_after_send, Some completed => True
  | _, _ => False
  end.

Lemma allowed_insert (t : table) id id' row' :
  allowed (row_status <$> t !! id) (Some (row_status row')) →
  allowed (row_status <$> t !! id') (row_status <$> <[id := row']> t !! id').
Proof.
  intros H. destruct (decide (id = id')) as [<-|]; [by rewrite lookup_insert_eq|rewrite lookup_insert_ne by done; by left].
Qed.

Lemma claim_allowed uuid dbNow input t id' :
  allowed (row_status <$> t !! id') (row_status <$> (claim uuid dbNow input t).2 !! id').
Proof.
  destruct (claim_run uuid dbNow input t) as [[e ->]|(lease & now & expires & _ & _ & _ & ->)]; [by left|].
  destruct (t !! normalizeIdentity (claim_identity input)) as [row|] eqn:Hrow.
  - unfold claim_effect. destruct (negb _); [by left|].
    destruct (row_status row) eqn:Hs; try by left.
    + destruct (takeable _ _ _); [|by left]. destruct (_ && _); apply allowed_insert; rewrite Hrow; cbn; rewrite Hs; by right.
    + apply allowed_insert. rewrite Hrow. cbn. rewrite Hs. by right.
  - apply allowed_insert. rewrite Hrow. by right.
Qed.

Lemma updateStatus_allowed clock input s t id' :
  s = completed ∨ s = failed ∨ (s = unknown_after_send ∧ truthy_opt (trim <$> settle_claimToken input) = true) →
  allowed (row_status <$> t !! id') (row_status <$> (updateStatus clock input s t).2 !! id').
Proof.
  intros Hs. rewrite updateStatus_run. destruct (t !! normalizeIdentity _) as [row|] eqn:Hrow; [|by left].
  destruct (settles _ row) eqn:Hset; [|by left]. apply allowed_insert. rewrite Hrow. cbn.
  unfold settles, owns, is_status in Hset.
  destruct (trim <$> settle_claimToken input) as [tok|]; cbn [truthy_opt] in *; [destruct (truthy tok)|]; bools.
  - match goal with H : row_status row = pending |- _ => rewrite H end. by right.
  - destruct (row_status row); try done; destruct Hs as [->|[->|[? ?]]]; first [by left|by right|done].
  - destruct (row_status row); try done; destruct Hs as [->|[->|[? ?]]]; first [by left|by right|done].
Qed.

(** A row's status moves only along these edges: a new claim is pending; a
    pending claim may become anything or be discarded; a failed one may be
    claimed again or be reported completed; a completed one may only be
    reported failed by a caller without a token; and a mutation whose outcome
    is unknown after it was sent leaves that status only for completed. *)
Theorem status_machine t t' id :
  mutation_step t t' → allowed (row_status <$> t !! id) (row_status <$> t' !! id).
Proof.
  destruct 1.
  - apply claim_allowed.
  - destruct (markDispatched_run uuid dbNow input t) as [[e ->]|H]; [by left|].
    destruct (truthy _ && _) eqn:Hc; [|rewrite H; by left].
    destruct H as (row & now & expires & Hrow & ->). apply allowed_insert. rewrite Hrow in *. cbn. by left.
  - apply updateStatus_allowed. auto.
  - apply updateStatus_allowed. auto.
  - unfold markUnknownAfterSend. destruct (truthy_opt _) eqn:Htr; cbn [negb]; [|by left].
    apply updateStatus_allowed. auto.
  - rewrite markReconciledCompleted_run. destruct (t !! normalizeIdentity input) as [row|] eqn:Hrow; [|by left].
    destruct (is_status unknown_after_send row) eqn:Hs; [|by left]. apply allowed_insert. rewrite Hrow. cbn.
    unfold is_status in Hs. bools. rewrite Hs. by right.
  - rewrite discardPending_run. destruct (truthy _); [|by left].
    destruct (t !! normalizeIdentity input) as [row|] eqn:Hrow; [|by left].
    destruct (_ && owns _ row) eqn:Hc; [|by left]. unfold owns, is_status in Hc. bools.
    cbn [snd]. destruct (decide (normalizeIdentity input = id)) as [<-|].
    + rewrite lookup_delete_eq, Hrow. cbn. right. by match goal with H : row_status row = pending |- _ => rewrite H end.
    + rewrite lookup_delete_ne by done. by left.
Qed.

(** ** At most one dispatch *)

(** A call by someone who does not hold the token [T] of the claim [id]: any
    claim that does not assert provider-side deduplication, dispatching or
    discarding with another token, reporting failure with another token, and
    any report of completion or of an unknown outcome. *)
Inductive foreign_step (id : identity) (T : string) (t : table) : table → Prop :=
  | foreign_claim uuid dbNow input :
      (normalizeIdentity (claim_identity input) = id → providerIdempotencyKeyEnforced input ≠ Some true) →
      foreign_step id T t (claim uuid dbNow input t).2
  | foreign_dispatch uuid dbNow input :
      (normalizeIdentity (dispatch_identity input) = id → trim (dispatch_claimToken input) ≠ T) →
      foreign_step id T t (markDispatched uuid dbNow input t).2
  | foreign_failed clock input tok :
      (normalizeIdentity (settle_identity input) = id →
        settle_claimToken input = Some tok ∧ truthy (trim tok) = true ∧ trim tok ≠ T) →
      foreign_step id T t (markFailed clock input t).2
  | foreign_discard input hash token :
      (normalizeIdentity input = id → trim token ≠ T) →
      foreign_step id T t (discardPending input hash token t).2
  | foreign_completed clock input : foreign_step id T t (markCompleted clock input t).2
  | foreign_unknown clock input : foreign_step id T t (markUnknownAfterSend clock input t).2
  | foreign_reconciled clock input at_ : foreign_step id T t (markReconciledCompleted clock input at_ t).2.

(** The rows whose mutation may have been sent under the token [T], or is
    settled. *)
Definition in_doubt (T : string) (row : MutationIdempotencyRow) : Prop :=
  (row_status row = pending ∧ sent row = true ∧ claim_token row = Some T) ∨
  row_status row = unknown_after_send ∨ row_status row = completed.

Definition in_doubt_at (id : identity) (T : string) (t : table) : Prop :=
  ∃ row, t !! id = Some row ∧ in_doubt T row.

Lemma in_doubt_insert (id : identity) (T : string) (t : table) (id' : identity) (row' : MutationIdempotencyRow) :
  in_doubt_at id T t → (id' = id → in_doubt T row') → in_doubt_at id T (<[id' := row']> t).
Proof.
  intros (row & Hrow & Hd) H. destruct (decide (id' = id)) as [->|Hne].
  - exists row'. rewrite lookup_insert_eq. auto.
  - exists row. by rewrite lookup_insert_ne.
Qed.

Lemma in_doubt_not_owned T tok row : in_doubt T row → tok ≠ T → owns tok row = false.
Proof.
  intros Hd Hne. unfold owns, is_status. destruct Hd as [(Hs & _ & Ht)|[Hs|Hs]]; rewrite Hs; [|done|done].
  rewrite Ht, (bool_decide_eq_false_2 (Some T = Some tok)) by congruence. apply andb_false_r.
Qed.

Lemma claim_in_doubt uuid dbNow input id T t :
  in_doubt_at id T t →
  (normalizeIdentity (claim_identity input) = id → providerIdempotencyKeyEnforced input ≠ Some true) →
  in_doubt_at id T (claim uuid dbNow input t).2 ∧
  (normalizeIdentity (claim_identity input) = id →
    ∀ r k t', claim uuid dbNow input t ≠ (Ok (claimed r k), t')).
Proof.
  intros Hd Henf.
  destruct (claim_run uuid dbNow input t) as [[e ->]|(lease & now & expires & _ & _ & _ & ->)]; [by split|].
  set (id' := normalizeIdentity (claim_identity input)) in *.
  destruct (decide (id' = id)) as [E|Hne].
  - specialize (Henf E). rewrite E. destruct Hd as (row & Hrow & Hd). rewrite Hrow. unfold claim_effect.
    rewrite (bool_decide_eq_false_2 (providerIdempotencyKeyEnforced input = Some true)) by done.
    destruct (negb (bool_decide (payload_hash row = _))); [split; [by exists row|done]|].
    destruct Hd as [(Hs & Hsent & Ht)|[Hs|Hs]]; rewrite Hs.
    + destruct (takeable row lease now).
      * rewrite Hsent. cbn [andb negb]. split; [|done]. eexists. cbn [snd]. rewrite lookup_insert_eq.
        split; [reflexivity|]. right; by left.
      * split; [|done]. exists row. split; [done|by left].
    + split; [|done]. exists row. split; [done|by right; left].
    + split; [|done]. exists row. split; [done|by right; right].
  - split; [|done]. destruct (t !! id') as [row|]; [|by apply in_doubt_insert].
    unfold claim_effect. destruct (negb _); [done|]. destruct (row_status row); try done.
    + destruct (takeable _ _ _); [|done]. destruct (_ && _); by apply in_doubt_insert.
    + by apply in_doubt_insert.
Qed.

Lemma updateStatus_in_doubt clock input s id T t :
  in_doubt_at id T t →
  s = completed ∨ s = unknown_after_send ∨
    (normalizeIdentity (settle_identity input) = id →
      ∃ tok, settle_claimToken input = Some tok ∧ truthy (trim tok) = true ∧ trim tok ≠ T) →
  in_doubt_at id T (updateStatus clock input s t).2.
Proof.
  intros Hd Hs. rewrite updateStatus_run. set (id' := normalizeIdentity (settle_identity input)) in *.
  destruct (t !! id') as [row|] eqn:Hrow; [|done]. destruct (settles _ row) eqn:Hset; [|done].
  apply in_doubt_insert; [done|]. intros E. destruct Hs as [->|[->|Hs]]; [by right; right|by right; left|].
  destruct (Hs E) as (tok & Ht & Htr & Hne). destruct Hd as (row' & Hrow' & Hd). rewrite E in Hrow.
  assert (row' = row) as -> by congruence. unfold settles in Hset. rewrite Ht in Hset. cbn in Hset.
  rewrite Htr in Hset. by rewrite (in_doubt_not_owned T) in Hset.
Qed.

Lemma foreign_step_in_doubt id T t t' : foreign_step id T t t' → in_doubt_at id T t → in_doubt_at id T t'.
Proof.
  intros Hs Hd. destruct Hs as [??? H|??? H|??? H|??? H| | |].
  - by apply claim_in_doubt.
  - destruct (markDispatched_run uuid dbNow input t) as [[e ->]|Hr]; [done|].
    destruct (truthy _ && _) eqn:Hc; [|by rewrite Hr].
    destruct Hr as (row & now & expires & Hrow & ->). apply in_doubt_insert; [done|]. intros E.
    exfalso. rewrite Hrow in Hc. bools. destruct Hd as (row' & Hrow' & Hd). rewrite E in Hrow.
    assert (row' = row) as -> by congruence. rewrite (in_doubt_not_owned T) in * by auto. done.
  - apply updateStatus_in_doubt; [done|]. right; right. intros E. exists tok. auto.
  - rewrite discardPending_run. destruct (truthy _); [|done].
    destruct (t !! normalizeIdentity input) as [row|] eqn:Hrow; [|done].
    destruct (_ && owns _ row) eqn:Hc; [|done]. cbn [snd]. bools.
    destruct Hd as (row' & Hrow' & Hd). destruct (decide (normalizeIdentity input = id)) as [E|Hne].
    + rewrite E in Hrow. assert (row' = row) as -> by congruence.
      rewrite (in_doubt_not_owned T) in * by auto. done.
    + exists row'. by rewrite lookup_delete_ne.
  - apply updateStatus_in_doubt; auto.
  - unfold markUnknownAfterSend. destruct (negb _); [done|]. apply updateStatus_in_doubt; auto.
  - rewrite markReconciledCompleted_run. destruct (t !! normalizeIdentity input) as [row|]; [|done].
    destruct (is_status unknown_after_send row); [|done]. apply in_doubt_insert; [done|]. intros _. by right; right.
Qed.

(** C34. A mutation that may have been sent is never handed out a second time:
    once its claim crossed the dispatch boundary under the token [T], then
    whatever calls others make, in any number and order, no later claim of the
    key succeeds; it is only taken up again if the holder itself reports
    failure, a caller without a token does, or the provider is known to
    deduplicate on the key. *)
Theorem no_redispatch id T row t t' uuid dbNow input :
  t !! id = Some row → row_status row = pending → sent row = true → claim_token row = Some T →
  rtc (foreign_step id T) t t' →
  normalizeIdentity (claim_identity input) = id → providerIdempotencyKeyEnforced input ≠ Some true →
  ∀ r k t'', claim uuid dbNow input t' ≠ (Ok (claimed r k), t'').
Proof.
  intros Hrow Hs Hsent Ht Hsteps Hid Henf.
  assert (Hd : in_doubt_at id T t') by
    (revert Hsteps; assert (Hd0 : in_doubt_at id T t) by (exists row; split; [done|by left]);
     intros Hsteps; revert Hd0; clear -Hsteps; induction Hsteps; eauto using foreign_step_in_doubt).
  by apply (claim_in_doubt uuid dbNow input id T t' Hd).
Qed.

(** ** Claims exclude each other *)

(** A successful claim owns the key: the record it returns is the stored
    row, pending under the fresh token with the caller's payload hash, and from
    then on a claim without a lease (the callers that must not take over by
    time) is refused and changes nothing, with [in_progress] for the same
    payload and [payload_mismatch] for another. *)
Theorem claim_excludes uuid dbNow input t r k t1 :
  claim uuid dbNow input t = (Ok (claimed r k), t1) →
  let id := normalizeIdentity (claim_identity input) in
  status r = pending ∧ claimToken r = Some uuid ∧ payloadHash r = claim_payloadHash input ∧
  get id t1 = (Ok (Some r), t1) ∧
  ∀ uuid' dbNow' input',
    normalizeIdentity (claim_identity input') = id → claim_leaseDurationMs input' = None →
    (∃ e, claim uuid' dbNow' input' t1 = (Err e, t1)) ∨
    claim uuid' dbNow' input' t1 =
      (Ok (if bool_decide (claim_payloadHash input = claim_payloadHash input') then in_progress r
           else payload_mismatch r), t1).
Proof.
  cbn zeta. set (id := normalizeIdentity (claim_identity input)). intros Hc.
  assert (Hrow : ∃ row, t1 !! id = Some row ∧ r = mapRow id row ∧ row_status row = pending ∧
    claim_token row = Some uuid ∧ payload_hash row = claim_payloadHash input).
  { destruct (claim_run uuid dbNow input t) as [[e He]|(lease & now & expires & _ & _ & _ & He)]; [congruence|].
    fold id in He. rewrite He in Hc. clear He. destruct (t !! id) as [row|] eqn:Hr.
    - unfold claim_effect in Hc. case_bool_decide as Hh; cbn [negb] in Hc; [|done].
      destruct (row_status row) eqn:Hs; try done.
      + destruct (takeable _ _ _); [|done]. destruct (_ && _); [done|]. injection Hc as <- <- <-.
        eexists. rewrite lookup_insert_eq. split; [reflexivity|]. done.
      + injection Hc as <- <- <-. eexists. rewrite lookup_insert_eq. split; [reflexivity|]. done.
    - injection Hc as <- <- <-. eexists. rewrite lookup_insert_eq. split; [reflexivity|]. done. }
  destruct Hrow as (row & Hrow & -> & Hs & Ht & Hh). destruct (mapRow_fields id row) as (E1 & E2 & E3 & _).
  split_and!; [congruence|congruence|congruence|by rewrite get_run, Hrow|].
  intros uuid' dbNow' input' Hid Hl.
  destruct (claim_run uuid' dbNow' input' t1) as [He|(lease & now & expires & Hlease & _ & _ & ->)]; [by left|right].
  rewrite Hid, Hrow. rewrite Hl in Hlease. injection Hlease as <-. unfold claim_effect. rewrite Hh, Hs.
  case_bool_decide; done.
Qed.

(** A completed mutation is reported as a duplicate: when the holder of a
    claim completes it with its token, the settlement succeeds, and every later
    claim of the key with the same payload returns [duplicate] and changes
    nothing. *)
Theorem completed_is_duplicate uuid dbNow input t r k t1 clock updatedAt :
  claim uuid dbNow input t = (Ok (claimed r k), t1) → trim uuid = uuid → truthy uuid = true →
  ∃ t2 r2, markCompleted clock (mkSettleInput (claim_identity input) updatedAt (Some uuid)) t1 = (Ok true, t2) ∧
    status r2 = completed ∧
    ∀ uuid' dbNow' input',
      normalizeIdentity (claim_identity input') = normalizeIdentity (claim_identity input) →
      claim_payloadHash input' = claim_payloadHash input →
      (∃ e, claim uuid' dbNow' input' t2 = (Err e, t2)) ∨
      claim uuid' dbNow' input' t2 = (Ok (duplicate r2), t2).
Proof.
  intros Hc Htrim Htr. set (id := normalizeIdentity (claim_identity input)).
  assert (Hrow : ∃ row, t1 !! id = Some row ∧ owns uuid row = true ∧ payload_hash row = claim_payloadHash input).
  { destruct (claim_run uuid dbNow input t) as [[e He]|(lease & now & expires & _ & _ & _ & He)]; [congruence|].
    fold id in He. rewrite He in Hc. clear He.
    assert (Hown : ∀ h e d c u, owns uuid (mkRow h pending (Some uuid) e d c u) = true).
    { intros. unfold owns, is_status. cbn. by rewrite !bool_decide_eq_true_2. }
    destruct (t !! id) as [row|] eqn:Hr.
    - unfold claim_effect in Hc. destruct (negb _); [done|]. destruct (row_status row) eqn:Hs; try done.
      + destruct (takeable _ _ _); [|done]. destruct (_ && _); [done|]. injection Hc as <- <- <-.
        eexists. rewrite lookup_insert_eq. split; [reflexivity|]. split; [apply Hown|done].
      + injection Hc as <- <- <-. eexists. rewrite lookup_insert_eq. split; [reflexivity|]. split; [apply Hown|done].
    - injection Hc as <- <- <-. eexists. rewrite lookup_insert_eq. split; [reflexivity|]. split; [apply Hown|done]. }
  destruct Hrow as (row & Hrow & Hown & Hh). set (row2 := status_row row completed (default clock updatedAt)).
  exists (<[id := row2]> t1), (mapRow id row2). split_and!.
  - unfold markCompleted. rewrite updateStatus_run. cbn [settle_identity settle_claimToken settle_updatedAt fmap option_fmap option_map].
    fold id. rewrite Hrow. unfold settles. by rewrite Htrim, Htr, Hown.
  - by destruct (mapRow_fields id row2) as (_ & -> & _).
  - intros uuid' dbNow' input' Hid Hp.
    destruct (claim_run uuid' dbNow' input' (<[id := row2]> t1)) as [He|(lease & now & expires & _ & _ & _ & ->)];
      [by left|right].
    rewrite Hid. fold id. rewrite lookup_insert_eq. unfold claim_effect. cbn [payload_hash row2 status_row].
    rewrite bool_decide_eq_true_2 by congruence. done.
Qed.

(** ** Concrete claims *)

Definition post : IdentityInput := mkIdentity "POST" "/api/v1/send" "key-1" (Some " operator ").
Definition postId : identity := ("POST", "/api/v1/send", "key-1", "operator").
Definition at0 : string := "2026-01-01T00:00:00.000Z".
Definition at1 : string := "2026-01-01T00:01:00.000Z".
Definition claimFor (hash : string) (lease : option number) (now : string) : ClaimInput :=
  mkClaimInput post hash (Some now) lease None.

Definition thirtySeconds : option number := Some (num_of_Z 30000).
Notation claimed1 := (claim "u1" at0 (claimFor "h" thirtySeconds at0) ∅).
Definition table1 : gmap identity MutationIdempotencyRow := claimed1.2.
Definition row1 : MutationIdempotencyRow :=
  mkRow "h" pending (Some "u1") (Some "2026-01-01T00:00:30.000Z") None at0 at0.

Example table1_row : table1 !! postId = Some row1.
Proof. vm_compute. reflexivity. Qed.

Lemma claimed1_ok : claimed1 = (Ok (claimed (mapRow postId row1) new_claim), table1).
Proof.
  assert (H : claimed1.1 = Ok (claimed (mapRow postId row1) new_claim)) by (vm_compute; reflexivity).
  unfold table1. rewrite <-H. apply surjective_pairing.
Qed.

(** The holder crosses the dispatch boundary; its token becomes [u2]. *)
Definition table2 : gmap identity MutationIdempotencyRow :=
  (markDispatched "u2" at0 (mkDispatchInput post "u1" thirtySeconds (Some at0)) table1).2.
Definition row2 : MutationIdempotencyRow :=
  mkRow "h" pending (Some "u2") (Some "2026-01-01T00:00:30.000Z") (Some at0) at0 at0.
Example table2_row : table2 !! postId = Some row2.
Proof. vm_compute. reflexivity. Qed.

(** Another caller tries to take the expired claim over: the mutation may have
    been sent, so its outcome becomes unknown instead. *)
Definition table3 : gmap identity MutationIdempotencyRow :=
  (claim "u3" at1 (claimFor "h" thirtySeconds at1) table2).2.
Example table3_unknown : row_status <$> table3 !! postId = Some unknown_after_send.
Proof. vm_compute. reflexivity. Qed.

Lemma stale_token_fenced_witness :
  discardPending post "h" "u1" table2 = (Ok false, table2).
Proof.
  apply (stale_token_fenced postId post "u1" row2 at1 "u9" at1 None None failed "h" table2);
    first [reflexivity|apply table2_row|by intros [=]|discriminate].
Defined.

Lemma status_machine_witness : allowed None (row_status <$> table1 !! postId).
Proof.
  exact (status_machine ∅ table1 postId (step_claim ∅ "u1" at0 (claimFor "h" thirtySeconds at0))).
Defined.

Lemma no_redispatch_witness :
  claim "u4" at1 (claimFor "h" thirtySeconds at1) table3 ≠ (Ok (claimed (mapRow postId row2) new_claim), table3).
Proof.
  apply (no_redispatch postId "u2" row2 table2 table3).
  - apply table2_row.
  - reflexivity.
  - reflexivity.
  - reflexivity.
  - apply rtc_once. apply (foreign_claim postId "u2" table2 "u3" at1 (claimFor "h" thirtySeconds at1)).
    by intros _ [=].
  - reflexivity.
  - by intros [=].
Defined.

Lemma claim_excludes_witness :
  status (mapRow postId row1) = pending ∧ get postId table1 = (Ok (Some (mapRow postId row1)), table1).
Proof.
  destruct (claim_excludes "u1" at0 (claimFor "h" thirtySeconds at0) ∅ (mapRow postId row1) new_claim table1 claimed1_ok)
    as (H1 & _ & _ & H2 & _).
  split; [exact H1|exact H2].
Defined.

Lemma completed_is_duplicate_witness :
  ∃ t2 r2, markCompleted at1 (mkSettleInput post None (Some "u1")) table1 = (Ok true, t2) ∧ status r2 = completed.
Proof.
  destruct (completed_is_duplicate "u1" at0 (claimFor "h" thirtySeconds at0) ∅ (mapRow postId row1) new_claim table1
    at1 None claimed1_ok eq_refl eq_refl) as (t2 & r2 & H1 & H2 & _).
  exists t2, r2. split; [exact H1|exact H2].
Defined.

(** A failed mutation may be claimed again. *)
Example failed_is_claimable :
  let t := (markFailed at1 (mkSettleInput post None (Some "u2")) table2).2 in
  match (claim "u5" at1 (claimFor "h" None at1) t).1 with
  | Ok (claimed _ retry_after_failure) => True
  | _ => False
  end.
Proof. vm_compute. exact I. Qed.
