(* ===== verification/SessionContracts.v ===== *)
(** * Session contracts (packages/contracts/src/session.ts)

    The data that the gateway's ingest, its tables and its callers exchange.  A
    number of a payload is kept as the literal that JSON writes for it
    ([numeral]); [num_of_literal] of JsJson is its value.  [parts] are JSON
    values, since the modelled code only passes them on. *)
From S2P Require Import Prelude.
From S2P Require Import JsString.
From S2P Require Import JsNumber.
From S2P Require Import JsJson.
From S2P Require Import JsJsonText.
From S2P Require Import JsObject.

Notation numeral := string (only parsing).

Inductive SessionKind : Set := dm | group | thread.
Inductive SessionHealth : Set := healthy | degraded | blocked.
Inductive BudgetState : Set := budget_ok | budget_warning | budget_hard_cap.
Inductive ActorType : Set := actor_user | actor_agent | actor_system.
Inductive MessageRole : Set := role_user | role_assistant.
Inductive ChatMessageSourceAuthority : Set :=
  | operator | external_channel | agent_proposed | trusted_lifecycle | unknown_authority.
Inductive CredentialType : Set := cred_api_key | cred_oauth | cred_unknown.
Inductive UsagePool : Set := pool_standard | pool_subscription | pool_unknown.
Inductive InboundStatus : Set := accepted | deduped | failed.

#[export] Instance SessionKind_eq_dec : EqDecision SessionKind.
Proof. solve_decision. Defined.
#[export] Instance ActorType_eq_dec : EqDecision ActorType.
Proof. solve_decision. Defined.
#[export] Instance MessageRole_eq_dec : EqDecision MessageRole.
Proof. solve_decision. Defined.
#[export] Instance UsagePool_eq_dec : EqDecision UsagePool.
Proof. solve_decision. Defined.
#[export] Instance InboundStatus_eq_dec : EqDecision InboundStatus.
Proof. solve_decision. Defined.

(** The text of each string literal. *)
Definition actorType_text (a : ActorType) : string :=
  match a with actor_user => "user" | actor_agent => "agent" | actor_system => "system" end.
Definition role_text (r : MessageRole) : string :=
  match r with role_user => "user" | role_assistant => "assistant" end.
Definition authority_text (a : ChatMessageSourceAuthority) : string :=
  match a with
  | operator => "operator"
  | external_channel => "external_channel"
  | agent_proposed => "agent_proposed"
  | trusted_lifecycle => "trusted_lifecycle"
  | unknown_authority => "unknown"
  end.
Definition credentialType_text (c : CredentialType) : string :=
  match c with cred_api_key => "api_key" | cred_oauth => "oauth" | cred_unknown => "unknown" end.
Definition usagePool_text (p : UsagePool) : string :=
  match p with pool_standard => "standard" | pool_subscription => "subscription" | pool_unknown => "unknown" end.

Record SessionRouteInput := mkRoute {
  route_channel : string;
  route_account : string;
  route_peer : option string;
  route_room : option string;
  route_threadId : option string;
}.

Record SessionMeta := mkSession {
  sessionId : string;
  sessionKey : string;
  kind : SessionKind;
  channel : string;
  account : string;
  displayName : option string;
  routingHints : option (list (string * string));
  lastActivityAt : string;
  updatedAt : string;
  health : SessionHealth;
  tokenInput : Z;
  tokenOutput : Z;
  tokenCachedInput : Z;
  tokenTotal : Z;
  costUsdTotal : number;
  budgetState : BudgetState;
}.

(** [TranscriptEvent], the fields in the order of the object literal that
    [ingest] builds. *)
Record TranscriptEvent := mkEvent {
  ev_eventId : string;
  ev_actionId : string;
  ev_idempotencyKey : string;
  ev_sessionId : string;
  ev_sessionKey : string;
  ev_timestamp : string;
  ev_type : string;
  ev_actorType : ActorType;
  ev_actorId : string;
  ev_sourceAuthority : ChatMessageSourceAuthority;
  ev_payload : list (string * json);
  ev_tokenInput : option numeral;
  ev_tokenOutput : option numeral;
  ev_costUsd : option numeral;
}.

Record InboundEventIndexRow := mkInbound {
  in_endpoint : string;
  in_idempotencyKey : string;
  in_eventId : string;
  in_sessionKey : string;
  in_payloadHash : string;
  in_receivedAt : string;
  in_processedAt : option string;
  in_status : InboundStatus;
}.

(** [attachments] of a message. *)
Record Attachment := mkAttachment {
  attachmentId : string;
  fileName : string;
  mimeType : string;
  sizeBytes : numeral;
}.

Record EventMessage := mkMessage {
  msg_role : MessageRole;
  msg_content : string;
  msg_parts : option (list json);
  msg_attachments : option (list Attachment);
  msg_steered : option bool;
  msg_parentDelegationStepId : option string;
}.

Record CanonicalUsageOwner := mkOwner {
  owner_workspaceId : string;
  owner_sessionId : string;
  owner_turnId : string;
}.

Record EventUsage := mkUsage {
  inputTokens : option numeral;
  outputTokens : option numeral;
  cachedInputTokens : option numeral;
  costUsd : option numeral;
  providerId : option string;
  model : option string;
  credentialType : option CredentialType;
  usagePool : option UsagePool;
  canonicalUsageEventIds : option (list string);
  canonicalUsageOwner : option CanonicalUsageOwner;
}.

Record GatewayEventInput := mkPayload {
  eventId : string;
  route : SessionRouteInput;
  actor_type : ActorType;
  actor_id : string;
  message : EventMessage;
  taskId : option string;
  usage : option EventUsage;
}.

Record GatewayEventResult := mkResult {
  result_accepted : bool;
  result_deduped : bool;
  result_session : SessionMeta;
  transcriptOffset : Z;
}.

(** ** The JavaScript values

    An [undefined] property is left out by [JSON.stringify].  The properties of
    a payload are in the order of the interface's declaration. *)

Definition opt_number (k : string) (v : option numeral) := opt_field k (JNumber <$> v).

Definition attachment_value (a : Attachment) : json :=
  JObject [("attachmentId", JString (attachmentId a)); ("fileName", JString (fileName a));
           ("mimeType", JString (mimeType a)); ("sizeBytes", JNumber (sizeBytes a))].

Definition message_value (m : EventMessage) : json :=
  JObject ([("role", JString (role_text (msg_role m))); ("content", JString (msg_content m))]
    ++ opt_field "parts" (JArray <$> msg_parts m)
    ++ opt_field "attachments" (JArray ∘ map attachment_value <$> msg_attachments m)
    ++ opt_field "steered" (JBool <$> msg_steered m)
    ++ opt_string "parentDelegationStepId" (msg_parentDelegationStepId m)).

Definition route_value (r : SessionRouteInput) : json :=
  JObject ([("channel", JString (route_channel r)); ("account", JString (route_account r))]
    ++ opt_string "peer" (route_peer r) ++ opt_string "room" (route_room r)
    ++ opt_string "threadId" (route_threadId r)).

Definition owner_value (o : CanonicalUsageOwner) : json :=
  JObject [("workspaceId", JString (owner_workspaceId o)); ("sessionId", JString (owner_sessionId o));
           ("turnId", JString (owner_turnId o))].

Definition usage_value (u : EventUsage) : json :=
  JObject (opt_number "inputTokens" (inputTokens u) ++ opt_number "outputTokens" (outputTokens u)
    ++ opt_number "cachedInputTokens" (cachedInputTokens u) ++ opt_number "costUsd" (costUsd u)
    ++ opt_string "providerId" (providerId u) ++ opt_string "model" (model u)
    ++ opt_string "credentialType" (credentialType_text <$> credentialType u)
    ++ opt_string "usagePool" (usagePool_text <$> usagePool u)
    ++ opt_field "canonicalUsageEventIds" (JArray ∘ map JString <$> canonicalUsageEventIds u)
    ++ opt_field "canonicalUsageOwner" (owner_value <$> canonicalUsageOwner u)).

Definition gateway_event_value (p : GatewayEventInput) : json :=
  JObject ([("eventId", JString (eventId p)); ("route", route_value (route p));
            ("actor", JObject [("type", JString (actorType_text (actor_type p))); ("id", JString (actor_id p))]);
            ("message", message_value (message p))]
    ++ opt_string "taskId" (taskId p) ++ opt_field "usage" (usage_value <$> usage p)).

Definition transcript_event_value (e : TranscriptEvent) : json :=
  JObject ([("eventId", JString (ev_eventId e)); ("actionId", JString (ev_actionId e));
            ("idempotencyKey", JString (ev_idempotencyKey e)); ("sessionId", JString (ev_sessionId e));
            ("sessionKey", JString (ev_sessionKey e)); ("timestamp", JString (ev_timestamp e));
            ("type", JString (ev_type e)); ("actorType", JString (actorType_text (ev_actorType e)));
            ("actorId", JString (ev_actorId e)); ("sourceAuthority", JString (authority_text (ev_sourceAuthority e)));
            ("payload", JObject (ev_payload e))]
    ++ opt_number "tokenInput" (ev_tokenInput e) ++ opt_number "tokenOutput" (ev_tokenOutput e)
    ++ opt_number "costUsd" (ev_costUsd e)).
