(* ===== verification/SessionKey.v ===== *)
(** * Session keys (packages/gateway-core/src/session-key.ts)

    The key and id of the session that a route belongs to.  SHA-256, in
    hexadecimal, is the argument [sha256_hex]. *)
From S2P Require Import Prelude.
From S2P Require Import JsString.
From S2P Require Import Errors.
From S2P Require Import JsJson.
From S2P Require Import SessionContracts.

Record SessionRouteResolution := mkResolution {
  res_kind : SessionKind;
  res_sessionKey : string;
  res_sessionId : string;
}.

Definition normalizeSegment (value : string) : res string :=
  let trimmed := trim value in
  _ ← throw_when (negb (truthy trimmed)) (JsError "session key segments cannot be empty");
  Ok (replace_char ":" "%3A" (replace_char "%" "%25" trimmed)).

Definition decodeSessionKeySegment (segment : string) : string :=
  replace_all "%25" "%" (replace_all "%3A" ":" segment).

Definition deriveSessionId (sha256_hex : string → string) (key : string) : string :=
  "sess_" +:+ string_take 24 (sha256_hex key).

Definition resolution (sha256_hex : string → string) (k : SessionKind) (key : string) : SessionRouteResolution :=
  mkResolution k key (deriveSessionId sha256_hex key).

Definition resolveSessionRoute (sha256_hex : string → string) (input : SessionRouteInput) : res SessionRouteResolution :=
  _ ← throw_when (negb (truthy (route_channel input)) || negb (truthy (route_account input)))
    (JsError "route.channel and route.account are required");
  channel ← normalizeSegment (route_channel input);
  account ← normalizeSegment (route_account input);
  if truthy_opt (route_threadId input) then
    _ ← throw_when (negb (truthy_opt (route_room input)))
      (JsError "route.room is required when route.threadId is provided");
    room ← normalizeSegment (default "" (route_room input));
    threadId ← normalizeSegment (default "" (route_threadId input));
    Ok (resolution sha256_hex thread (channel +:+ ":" +:+ account +:+ ":" +:+ room +:+ ":" +:+ threadId))
  else if truthy_opt (route_room input) then
    room ← normalizeSegment (default "" (route_room input));
    Ok (resolution sha256_hex group (channel +:+ ":" +:+ account +:+ ":" +:+ room))
  else
    _ ← throw_when (negb (truthy_opt (route_peer input)))
      (JsError "route.peer is required for DM sessions");
    peer ← normalizeSegment (default "" (route_peer input));
    Ok (resolution sha256_hex dm (channel +:+ ":" +:+ account +:+ ":" +:+ peer)).

(** ** Encoding of one segment *)

Lemma encode_cons c s :
  replace_char ":" "%3A" (replace_char "%" "%25" (String c s)) =
    (if Ascii.eqb c "%" then "%25" else if Ascii.eqb c ":" then "%3A" else String c "") +:+
      replace_char ":" "%3A" (replace_char "%" "%25" s).
Proof.
  simpl. destruct (Ascii.eqb_spec c "%") as [->|]; [done|]. simpl.
  by destruct (Ascii.eqb c ":").
Qed.

Lemma encode_no_colon s :
  string_existsb (Ascii.eqb ":") (replace_char ":" "%3A" (replace_char "%" "%25" s)) = false.
Proof.
  induction s as [|c s IH]; [done|]. rewrite encode_cons, string_existsb_append, IH, orb_false_r.
  destruct (Ascii.eqb c "%"); [done|]. destruct (Ascii.eqb_spec c ":") as [|Hc]; [done|].
  cbn [string_existsb]. rewrite orb_false_r. destruct (Ascii.eqb_spec ":" c); congruence.
Qed.

Lemma starts_with_head p c s : starts_with (String "%" p) (String c s) = true → c = "%"%char.
Proof. rewrite starts_with_spec. by intros [r [= ->]]. Qed.

Lemma replace_skip p r c s :
  c ≠ "%"%char → replace_all (String "%" p) r (String c s) = String c (replace_all (String "%" p) r s).
Proof.
  intros Hc. rewrite replace_all_cons by done.
  destruct (starts_with _ _) eqn:H; [|done]. by apply starts_with_head in H.
Qed.

Lemma decode_colons s :
  replace_all "%3A" ":" (replace_char ":" "%3A" (replace_char "%" "%25" s)) = replace_char "%" "%25" s.
Proof.
  induction s as [|c s IH]; [done|]. rewrite encode_cons.
  destruct (Ascii.eqb_spec c "%") as [->|Hp].
  - change (replace_all "%3A" ":" (String "%" (String "2" (String "5"
      (replace_char ":" "%3A" (replace_char "%" "%25" s))))) = "%25" +:+ replace_char "%" "%25" s).
    rewrite replace_all_cons by done. cbn [starts_with String.prefix].
    rewrite !replace_skip by done. by rewrite IH.
  - assert (Hr : replace_char "%" "%25" (String c s) = String c (replace_char "%" "%25" s)).
    { simpl. by destruct (Ascii.eqb_spec c "%"). }
    rewrite Hr. destruct (Ascii.eqb_spec c ":") as [->|Hc].
    + rewrite (replace_all_occ "%3A") by done. by rewrite IH.
    + change (String c "" +:+ ?x) with (String c x). by rewrite replace_skip, IH.
Qed.

Lemma decode_percents s : replace_all "%25" "%" (replace_char "%" "%25" s) = s.
Proof.
  induction s as [|c s IH]; [done|]. simpl. destruct (Ascii.eqb_spec c "%") as [->|Hp].
  - etrans; [exact (replace_all_occ "%25" "%" (replace_char "%" "%25" s) ltac:(done))|]. by rewrite IH.
  - by rewrite replace_skip, IH.
Qed.

Lemma decode_encode s :
  decodeSessionKeySegment (replace_char ":" "%3A" (replace_char "%" "%25" s)) = s.
Proof. unfold decodeSessionKeySegment. by rewrite decode_colons, decode_percents. Qed.

Lemma normalizeSegment_spec v e :
  normalizeSegment v = Ok e ↔
  truthy (trim v) = true ∧ e = replace_char ":" "%3A" (replace_char "%" "%25" (trim v)).
Proof.
  unfold normalizeSegment. destruct (truthy (trim v)); simpl; [|naive_solver].
  split; [by intros [= <-]|by intros [_ ->]].
Qed.

Lemma normalizeSegment_decode v e : normalizeSegment v = Ok e → decodeSessionKeySegment e = trim v.
Proof. rewrite normalizeSegment_spec. intros [_ ->]. apply decode_encode. Qed.

Lemma normalizeSegment_no_colon v e :
  normalizeSegment v = Ok e → string_existsb (Ascii.eqb ":") e = false.
Proof. rewrite normalizeSegment_spec. intros [_ ->]. apply encode_no_colon. Qed.

(** ** Keys *)

Definition encode (v : string) : string := replace_char ":" "%3A" (replace_char "%" "%25" (trim v)).
Definition nonblank (v : string) : Prop := truthy (trim v) = true.

Lemma nonblank_truthy v : nonblank v → truthy v = true.
Proof. by destruct v. Qed.

Lemma normalizeSegment_eq v :
  normalizeSegment v = if truthy (trim v) then Ok (encode v) else Err (JsError "session key segments cannot be empty").
Proof. unfold normalizeSegment. by destruct (truthy (trim v)). Qed.

(** The parts of a route that make its key, as the program reads them. *)
Definition route_segments (r : SessionRouteInput) : list string :=
  route_channel r :: route_account r ::
    (if truthy_opt (route_threadId r) then [default "" (route_room r); default "" (route_threadId r)]
     else if truthy_opt (route_room r) then [default "" (route_room r)]
     else [default "" (route_peer r)]).

Definition route_kind (r : SessionRouteInput) : SessionKind :=
  if truthy_opt (route_threadId r) then thread else if truthy_opt (route_room r) then group else dm.

(** A route resolves exactly when none of its parts is blank; the key is the
    encoded parts between colons. *)
Lemma resolveSessionRoute_shape sha r res :
  resolveSessionRoute sha r = Ok res ↔
  Forall nonblank (route_segments r) ∧
  res = resolution sha (route_kind r) (join ":" (map encode (route_segments r))).
Proof.
  assert (Hblank : ∀ o, truthy_opt o = false → truthy (trim (default "" o)) = false) by (by intros [[]|]).
  assert (Hhead : ∀ v, truthy v = false → truthy (trim v) = false) by (by intros []).
  unfold resolveSessionRoute, route_segments, route_kind. rewrite !normalizeSegment_eq.
  destruct (truthy_opt (route_threadId r)), (truthy_opt (route_room r)) eqn:Hr,
    (truthy_opt (route_peer r)) eqn:Hp, (truthy (route_channel r)) eqn:Hc, (truthy (route_account r)) eqn:Ha;
    try apply Hblank in Hr; try apply Hblank in Hp; try apply Hhead in Hc; try apply Hhead in Ha.
  all: rewrite !Forall_cons, Forall_nil; unfold nonblank; cbn [negb orb throw_when mbind outcome_bind].
  all: repeat match goal with |- context [if truthy ?x then _ else _] => destruct (truthy x) eqn:? end;
    cbn [mbind outcome_bind].
  all: first [split; [done|by intros ?; destruct_and?]
             |split; [done|intros; destruct_and?; congruence]
             |split; [intros [= <-]; split_and!; done|by intros [_ ->]]].
Qed.

(** The encoding of a part determines the part up to surrounding space. *)
Lemma encode_inj v w : encode v = encode w → trim v = trim w.
Proof. intros H. rewrite <-(decode_encode (trim v)), <-(decode_encode (trim w)). by f_equal. Qed.

Lemma split_join_encode vs :
  vs ≠ [] → split_char ":" (join ":" (map encode vs)) = map encode vs.
Proof.
  intros Hne. induction vs as [|v vs IH]; [done|].
  destruct vs as [|w vs]; [apply split_char_single, encode_no_colon|].
  change (join ":" (map encode (v :: w :: vs))) with (encode v +:+ String ":" (join ":" (map encode (w :: vs)))).
  rewrite split_char_app by apply encode_no_colon. by rewrite IH.
Qed.

Lemma decode_join vs :
  vs ≠ [] → map decodeSessionKeySegment (split_char ":" (join ":" (map encode vs))) = map trim vs.
Proof.
  intros Hne. rewrite split_join_encode, map_map by done. apply map_ext. intros v. apply decode_encode.
Qed.

(** C36. Splitting a session key at its colons and decoding the parts gives the
    parts of the route, so two routes share a session key exactly when the
    parts that make the key agree up to surrounding space: distinct peers,
    rooms or threads of one kind never share a transcript. *)
Theorem session_key_injective sha r1 r2 res1 res2 :
  resolveSessionRoute sha r1 = Ok res1 → resolveSessionRoute sha r2 = Ok res2 →
  map decodeSessionKeySegment (split_char ":" (res_sessionKey res1)) = map trim (route_segments r1) ∧
  (res_sessionKey res1 = res_sessionKey res2 ↔ map trim (route_segments r1) = map trim (route_segments r2)).
Proof.
  rewrite !resolveSessionRoute_shape. intros [_ ->] [_ ->]. cbn [res_sessionKey resolution].
  assert (Hd := λ r, decode_join (route_segments r) ltac:(done)).
  split; [apply Hd|]. split; intros H; [by rewrite <-!Hd, H|].
  f_equal. unfold encode. rewrite <-!(map_map trim (λ v, replace_char ":" "%3A" (replace_char "%" "%25" v))).
  by rewrite H.
Qed.

(** A route resolves exactly when its channel, account and the parts it
    uses are not blank, and its kind is thread, group or direct message in this
    order of preference; otherwise the call throws and returns no key. *)
Theorem resolveSessionRoute_ok_iff sha r :
  (∃ res, resolveSessionRoute sha r = Ok res ∧ res_kind res = route_kind r ∧
     res_sessionId res = deriveSessionId sha (res_sessionKey res)) ↔
  Forall nonblank (route_segments r).
Proof.
  split.
  - intros (res & H & _). by apply resolveSessionRoute_shape in H as [H _].
  - intros H. eexists. rewrite resolveSessionRoute_shape. split; [by split|done].
Qed.

(** A group room and a direct-message peer of the same name, channel and
    account resolve to one session key and id although their kinds differ: the
    second conversation to arrive is recorded in the first one's session. *)
Theorem group_dm_share_session sha ch acc name :
  nonblank ch → nonblank acc → nonblank name →
  ∃ key id,
    resolveSessionRoute sha (mkRoute ch acc None (Some name) None) = Ok (mkResolution group key id) ∧
    resolveSessionRoute sha (mkRoute ch acc (Some name) None None) = Ok (mkResolution dm key id).
Proof.
  intros Hc Ha Hn. exists (join ":" [encode ch; encode acc; encode name]).
  eexists. rewrite !resolveSessionRoute_shape. unfold route_segments, route_kind. cbn [route_threadId route_room truthy_opt].
  rewrite (nonblank_truthy name Hn), !Forall_cons, Forall_nil. done.
Qed.

(** A stand-in digest for the examples. *)
Definition demo_sha (s : string) : string := s +:+ "0123456789abcdef01234567".

Lemma session_key_injective_witness :
  res_sessionKey (resolution demo_sha dm "tel:a:b%3Ac") = res_sessionKey (resolution demo_sha dm "tel:a:b_c") ↔
  map trim ["tel"; "a"; "b:c"] = map trim ["tel"; "a"; "b_c"].
Proof.
  apply (session_key_injective demo_sha (mkRoute " tel" "a" (Some "b:c ") None None)
    (mkRoute "tel" "a" (Some "b_c") None None)); reflexivity.
Defined.

Lemma group_dm_share_session_witness :
  ∃ key id,
    resolveSessionRoute demo_sha (mkRoute "tel" "a" None (Some "x") None) = Ok (mkResolution group key id) ∧
    resolveSessionRoute demo_sha (mkRoute "tel" "a" (Some "x") None None) = Ok (mkResolution dm key id).
Proof. apply (group_dm_share_session demo_sha "tel" "a" "x"); reflexivity. Defined.
