(* ===== verification/InboundEvents.v ===== *)
(** * Inbound event index (packages/storage/src/idempotency-repo.ts)

    The table [inbound_events], keyed by endpoint and idempotency key. *)
From S2P Require Import Prelude.
From S2P Require Import JsString.
From S2P Require Import Errors.
From S2P Require Import JsJson.
From S2P Require Import SessionContracts.

(** The columns of a row besides its primary key. *)
Record InboundEventRow := mkInboundRow {
  event_id : string;
  session_key : string;
  payload_hash : string;
  received_at : string;
  processed_at : option string;
  status : InboundStatus;
}.

#[export] Instance InboundEventRow_eta : Eta InboundEventRow := λ r,
  mkInboundRow (event_id r) (session_key r) (payload_hash r) (received_at r) (processed_at r) (status r).

(** [endpoint], [idempotency_key]. *)
Notation inbound_key := (string * string)%type.
Notation inbound_table := (gmap inbound_key InboundEventRow).
Notation inbound_repo := (M js_error inbound_table).

Definition inbound_row (row : InboundEventIndexRow) : InboundEventRow :=
  mkInboundRow (in_eventId row) (in_sessionKey row) (in_payloadHash row) (in_receivedAt row) None (in_status row).

Definition mapInbound (k : inbound_key) (row : InboundEventRow) : InboundEventIndexRow :=
  mkInbound k.1 k.2 (event_id row) (session_key row) (payload_hash row) (received_at row)
    (processed_at row) (status row).

Definition find (endpoint idempotencyKey : string) : inbound_repo (option InboundEventIndexRow) :=
  gets (λ t, mapInbound (endpoint, idempotencyKey) <$> t !! (endpoint, idempotencyKey)).

Definition row_key (row : InboundEventIndexRow) : inbound_key := (in_endpoint row, in_idempotencyKey row).

Definition insertPending (row : InboundEventIndexRow) : inbound_repo unit := λ t,
  match t !! row_key row with
  | Some _ => (Err (SqliteConstraintError "inbound_events.endpoint, inbound_events.idempotency_key"), t)
  | None => (Ok tt, <[row_key row := inbound_row row]> t)
  end.

Definition insertPendingIfAbsent (row : InboundEventIndexRow) : inbound_repo bool := λ t,
  let '(changes, t') := sql_insert_ignore (row_key row) (inbound_row row) t in
  (Ok (0 <? changes), t').

(** The [WHERE] clause of [markProcessedStmt] besides the key. *)
Definition may_mark (new_status : InboundStatus) (row : InboundEventRow) : bool :=
  (bool_decide (new_status = accepted) || bool_decide (processed_at row = None)) &&
  negb (bool_decide (status row = accepted) && bool_decide (new_status = deduped)).

Definition markProcessed (endpoint idempotencyKey : string) (new_status : InboundStatus) (processedAt : string)
    : inbound_repo unit := λ t,
  (Ok tt, (sql_update (may_mark new_status)
             (λ row, row <| processed_at := Some processedAt |> <| status := new_status |>)
             (endpoint, idempotencyKey) t).2).

(** ** Histories of one key *)

Inductive inbound_step (t : inbound_table) : inbound_table → Prop :=
  | step_insertPending row : inbound_step t (insertPending row t).2
  | step_insertPendingIfAbsent row : inbound_step t (insertPendingIfAbsent row t).2
  | step_markProcessed e k s at_ : inbound_step t (markProcessed e k s at_ t).2.

(** What a later call may change in a row. *)
Definition row_step (row row' : InboundEventRow) : Prop :=
  row' = row ∨
  ∃ s at_, may_mark s row = true ∧ row' = row <| processed_at := Some at_ |> <| status := s |>.

Lemma inbound_step_row (t t' : inbound_table) (k : inbound_key) row :
  inbound_step t t' → t !! k = Some row → ∃ row', t' !! k = Some row' ∧ row_step row row'.
Proof.
  intros Hs Hk. destruct Hs as [r|r|e i s a].
  - exists row. split; [|by left]. unfold insertPending. destruct (t !! row_key r) eqn:Hr; simpl; [done|].
    rewrite lookup_insert_ne; [done|congruence].
  - exists row. split; [|by left]. unfold insertPendingIfAbsent, sql_insert_ignore.
    destruct (t !! row_key r) eqn:Hr; simpl; [done|]. rewrite lookup_insert_ne; [done|congruence].
  - unfold markProcessed. cbn [snd]. rewrite sql_update_lookup.
    destruct (decide _) as [<-|]; [|exists row; split; [done|by left]].
    rewrite Hk. cbn [fmap option_fmap option_map]. destruct (may_mark s row) eqn:Hm.
    + eexists. split; [done|]. right. by exists s, a.
    + exists row. split; [done|by left].
Qed.

(** A finalised accepted row keeps its status, event, session, payload hash
    and arrival through every history of calls: neither a repeated insert nor a
    mark of any kind removes or downgrades it, and it stays processed. *)
Theorem accepted_row_stays t t' k row :
  rtc inbound_step t t' → t !! k = Some row → status row = accepted → is_Some (processed_at row) →
  ∃ row', t' !! k = Some row' ∧ status row' = accepted ∧ is_Some (processed_at row') ∧
    event_id row' = event_id row ∧ session_key row' = session_key row ∧
    payload_hash row' = payload_hash row ∧ received_at row' = received_at row.
Proof.
  intros Hs. revert row. induction Hs as [t|t t1 t' H1 _ IH]; intros row Hk Hst Hp; [by exists row|].
  destruct (inbound_step_row _ _ _ _ H1 Hk) as (row1 & Hk1 & Hr).
  assert (Hrow1 : status row1 = accepted ∧ is_Some (processed_at row1) ∧ event_id row1 = event_id row ∧
    session_key row1 = session_key row ∧ payload_hash row1 = payload_hash row ∧ received_at row1 = received_at row).
  { destruct Hr as [->|(s & a & Hm & ->)]; [done|]. unfold may_mark in Hm. rewrite Hst in Hm.
    destruct Hp as [p Hp]. rewrite Hp in Hm. destruct s; [by split_and!|done|done]. }
  destruct Hrow1 as (? & ? & H3 & H4 & H5 & H6). rewrite <-H3, <-H4, <-H5, <-H6. by apply IH.
Qed.

(** A mark that is not [accepted] never touches a finalised row. *)
Lemma markProcessed_finalised (t : inbound_table) e k s a row :
  t !! (e, k) = Some row → is_Some (processed_at row) → s ≠ accepted → (markProcessed e k s a t).2 = t.
Proof.
  intros Hk [p Hp] Hs. unfold markProcessed, sql_update. rewrite Hk. unfold may_mark.
  rewrite Hp. by destruct s.
Qed.

Lemma find_result (t : inbound_table) e k :
  find e k t = (Ok (mapInbound (e, k) <$> t !! (e, k)), t).
Proof. reflexivity. Qed.

Definition first_row : InboundEventIndexRow :=
  mkInbound "/events" "k1" "e1" "tel:a:b" "h1" "2026-01-01T00:00:00.000Z" None accepted.
Definition first_table : gmap (string * string) InboundEventRow :=
  {[ ("/events", "k1") := inbound_row first_row <| processed_at := Some "2026-01-01T00:00:00.001Z" |> ]}.

Lemma accepted_row_stays_witness :
  ∃ row', (markProcessed "/events" "k1" failed "2026-01-02T00:00:00.000Z" first_table).2 !! ("/events", "k1") = Some row' ∧
    status row' = accepted ∧ is_Some (processed_at row').
Proof.
  destruct (accepted_row_stays first_table _ ("/events", "k1")
    (inbound_row first_row <| processed_at := Some "2026-01-01T00:00:00.001Z" |>)
    (rtc_once _ _ (step_markProcessed first_table "/events" "k1" failed "2026-01-02T00:00:00.000Z"))
    eq_refl eq_refl ltac:(by eexists)) as (row' & H1 & H2 & H3 & _).
  by exists row'.
Defined.
