(* ===== verification/Sessions.v ===== *)
(** * Sessions (packages/storage/src/session-repo.ts)

    The table [sessions], keyed by [session_id]; [session_key] is UNIQUE.  The
    report to the quarantine sink of a malformed [routing_hints_json] is left
    out. *)
From S2P Require Import Prelude.
From S2P Require Import JsString.
From S2P Require Import JsNumber.
From S2P Require Import Errors.
From S2P Require Import JsJson.
From S2P Require Import SessionContracts.

Record SessionRow := mkSessionRow {
  session_key : string;
  row_kind : SessionKind;
  row_channel : string;
  row_account : string;
  display_name : option string;
  routing_hints_json : option string;
  last_activity_at : string;
  updated_at : string;
  row_health : SessionHealth;
  token_input : Z;
  token_output : Z;
  token_cached_input : Z;
  token_total : Z;
  cost_usd_total : number;
  budget_state : BudgetState;
}.

#[export] Instance SessionRow_eta : Eta SessionRow := λ r,
  mkSessionRow (session_key r) (row_kind r) (row_channel r) (row_account r) (display_name r)
    (routing_hints_json r) (last_activity_at r) (updated_at r) (row_health r) (token_input r)
    (token_output r) (token_cached_input r) (token_total r) (cost_usd_total r) (budget_state r).

Notation session_table := (gmap string SessionRow).
Notation session_repo := (M js_error session_table).

Record SessionUpsertInput := mkUpsert {
  up_sessionId : string;
  up_sessionKey : string;
  up_kind : SessionKind;
  up_channel : string;
  up_account : string;
  up_displayName : option string;
  up_routingHints : option (list (string * string));
  up_timestamp : string;
}.

Record SessionUsageDelta := mkDelta {
  delta_sessionId : string;
  delta_tokenInput : number;
  delta_tokenOutput : number;
  delta_tokenCachedInput : number;
  delta_costUsd : number;
  delta_timestamp : string;
}.

Record OperatorSummary := mkOperator {
  operatorId : string;
  sessionCount : Z;
  activeSessions : Z;
  operator_lastActivityAt : option string;
}.

(** ** Row to record *)

(** [parseStringRecord] of state-validators.ts. *)
Definition parseStringRecord (value : json) : option (list (string * string)) :=
  match value with
  | JObject fields => mapM (λ f, match f.2 with JString v => Some (f.1, v) | _ => None end) fields
  | _ => None
  end.

(** [loadAndSanitize] of load-and-sanitize.ts for this column. *)
Definition loadRoutingHints (raw : option string) : option (list (string * string)) :=
  match raw with
  | None => None
  | Some s => if truthy s then json_parse s ≫= parseStringRecord else None
  end.

Definition mapSessionRow (id : string) (row : SessionRow) : SessionMeta :=
  mkSession id (session_key row) (row_kind row) (row_channel row) (row_account row) (display_name row)
    (loadRoutingHints (routing_hints_json row)) (last_activity_at row) (updated_at row) (row_health row)
    (token_input row) (token_output row) (token_cached_input row) (token_total row) (cost_usd_total row)
    (budget_state row).

(** ** Statements *)

(** [WHERE session_key = ?]: at most one row, by the UNIQUE constraint. *)
Definition row_by_key (key : string) (t : session_table) : option (string * SessionRow) :=
  head (List.filter (λ r, bool_decide (session_key r.2 = key)) (map_to_list t)).

Definition coalesce {A} (a b : option A) : option A :=
  match a with Some _ => a | None => b end.

Definition routing_hints_value (hints : list (string * string)) : json :=
  JObject (map (λ h, (h.1, JString h.2)) hints).

Definition new_session_row (input : SessionUpsertInput) : SessionRow :=
  mkSessionRow (up_sessionKey input) (up_kind input) (up_channel input) (up_account input) (up_displayName input)
    ((json_stringify ∘ routing_hints_value) <$> up_routingHints input) (up_timestamp input) (up_timestamp input)
    healthy 0 0 0 0 (num_of_Z 0) budget_ok.

(** [INSERT ... ON CONFLICT(session_key) DO UPDATE]: a clash on the primary key
    alone is an error. *)
Definition upsertStmt (input : SessionUpsertInput) : session_repo unit := λ t,
  let new := new_session_row input in
  match row_by_key (up_sessionKey input) t with
  | Some (id, old) =>
      (Ok tt, <[id := old <| display_name := coalesce (display_name new) (display_name old) |>
                          <| routing_hints_json := coalesce (routing_hints_json new) (routing_hints_json old) |>
                          <| last_activity_at := last_activity_at new |>
                          <| updated_at := updated_at new |>]> t)
  | None =>
      match t !! up_sessionId input with
      | Some _ => (Err (SqliteConstraintError "sessions.session_id"), t)
      | None => (Ok tt, <[up_sessionId input := new]> t)
      end
  end.

(** [CAST(x AS INTEGER)]: towards zero, clamped to 64 bits. *)
Definition max_int64 : Z := 9223372036854775807.
Definition cast_integer (x : number) : Z :=
  match x with
  | S754_zero _ | S754_nan => 0
  | S754_infinity s => if s then - max_int64 - 1 else max_int64
  | S754_finite s m e =>
      let v := if 0 <=? e then Z.pos m * 2 ^ e else Z.pos m / 2 ^ (- e) in
      if s then - Z.min v (max_int64 + 1) else Z.min v max_int64
  end.

Definition add_usage (delta : SessionUsageDelta) (row : SessionRow) : SessionRow :=
  row <| token_input := token_input row + cast_integer (delta_tokenInput delta) |>
      <| token_output := token_output row + cast_integer (delta_tokenOutput delta) |>
      <| token_cached_input := token_cached_input row + cast_integer (delta_tokenCachedInput delta) |>
      <| token_total := token_total row + (cast_integer (delta_tokenInput delta) + cast_integer (delta_tokenOutput delta)) |>
      <| cost_usd_total := num_add (cost_usd_total row) (delta_costUsd delta) |>
      <| last_activity_at := delta_timestamp delta |>
      <| updated_at := delta_timestamp delta |>.

(** ** Operations *)

Definition getBySessionKey (key : string) : session_repo SessionMeta :=
  row ← gets (row_by_key key);
  match row with
  | Some (id, row) => mret (mapSessionRow id row)
  | None => throw (NotFoundError (NotFoundEntity "Session" (Some key)))
  end.

Definition getBySessionId (id : string) : session_repo SessionMeta :=
  row ← gets (λ t : session_table, t !! id);
  match row with
  | Some row => mret (mapSessionRow id row)
  | None => throw (NotFoundError (NotFoundEntity "Session" (Some id)))
  end.

Definition sessions_upsert (input : SessionUpsertInput) : session_repo SessionMeta :=
  upsertStmt input ;; getBySessionKey (up_sessionKey input).

Definition applyUsage (delta : SessionUsageDelta) : session_repo unit := λ t,
  (Ok tt, (sql_update (λ _, true) (add_usage delta) (delta_sessionId delta) t).2).

(** [for (index = 0; ...; index += n) xs.slice(index, index + n)]. *)
Fixpoint batches (fuel n : nat) (xs : list string) : list (list string) :=
  match fuel, xs with
  | S fuel', _ :: _ => take n xs :: batches fuel' n (drop n xs)
  | _, _ => []
  end.

(** [WHERE session_id IN (...)]. *)
Definition listBySessionIdsStmt (ids : list string) (t : session_table) : list (string * SessionRow) :=
  List.filter (λ r, bool_decide (r.1 ∈ ids)) (map_to_list t).

Definition listBySessionIds (ids : list string) : session_repo (gmap string SessionMeta) :=
  gets (λ t : session_table,
    let wanted := unique (List.filter truthy (map trim ids)) in
    foldl (λ (acc : gmap string SessionMeta) batch,
        foldl (λ (acc : gmap string SessionMeta) r, <[r.1 := mapSessionRow r.1 r.2]> acc) acc
          (listBySessionIdsStmt batch t))
      (∅ : gmap string SessionMeta) (batches (length wanted) 400 wanted)).

(** [s.lastIndexOf(c)]: [-1] when absent. *)
Fixpoint last_index_of (c : ascii) (s : string) : Z :=
  match s with
  | EmptyString => -1
  | String d s' =>
      let i := last_index_of c s' in
      if 0 <=? i then i + 1 else if Ascii.eqb d c then 0 else -1
  end.

(** The timestamp and the key of a cursor. *)
Definition parseCompositeCursor (cursor : option string) : option (string * string) :=
  match cursor with
  | None => None
  | Some c =>
      if negb (truthy c) then None else
      let separator := last_index_of "|" c in
      if separator <=? 0 then Some (c, "") else
      let timestamp := string_take (Z.to_nat separator) c in
      let key := string_drop (Z.to_nat (separator + 1)) c in
      if negb (truthy timestamp) || negb (truthy key) then None else Some (timestamp, key)
  end.

(** [updated_at], [session_id]. *)
Definition page_key (r : string * SessionRow) : string * string := (updated_at r.2, r.1).

(** [ORDER BY updated_at DESC, session_id DESC]. *)
Definition newest_first (l : list (string * SessionRow)) : list (string * SessionRow) :=
  order_by (λ x y, negb (pair_ltb (page_key x) (page_key y))) l.

Definition listStmt (limit : Z) (t : session_table) : list (string * SessionRow) :=
  sql_limit limit (newest_first (map_to_list t)).

Definition listAfterCursorStmt (limit : Z) (cursor : string * string) (t : session_table)
    : list (string * SessionRow) :=
  sql_limit limit (newest_first (List.filter (λ r, pair_ltb (page_key r) cursor) (map_to_list t))).

Definition sessions_list (limit : Z) (cursor : option string) : session_repo (list SessionMeta) :=
  gets (λ t,
    let rows := match parseCompositeCursor cursor with
                | Some c => listAfterCursorStmt limit c t
                | None => listStmt limit t
                end in
    map (λ r, mapSessionRow r.1 r.2) rows).

Definition max_string (a b : string) : string := if string_ltb a b then b else a.

(** The group of one account. *)
Definition operator_summary (since : string) (acc : string) (rows : list SessionRow) : OperatorSummary :=
  let mine := List.filter (λ r, bool_decide (row_account r = acc)) rows in
  mkOperator acc (Z.of_nat (length mine))
    (Z.of_nat (length (List.filter (λ r, string_leb since (last_activity_at r)) mine)))
    (match mine with [] => None | r :: rs => Some (foldl max_string (last_activity_at r) (map last_activity_at rs)) end).

Definition listOperatorSummaries (since : string) : session_repo (list OperatorSummary) :=
  gets (λ t : session_table,
    let rows := (map_to_list t).*2 in
    order_by (λ x y, string_leb (default "" (operator_lastActivityAt y)) (default "" (operator_lastActivityAt x)))
      (map (λ acc, operator_summary since acc rows) (unique (map row_account rows)))).
