(* ===== verification/SessionTheorems.v ===== *)
(** * Sessions: uniqueness, usage accounting and paging *)
From S2P Require Import Prelude.
From S2P Require Import JsString.
From S2P Require Import JsNumber.
From S2P Require Import Errors.
From S2P Require Import JsJson.
From S2P Require Import SessionContracts.
From S2P Require Import Sessions.

(** ** Reading by key *)

Lemma row_by_key_some key (t : session_table) id row :
  row_by_key key t = Some (id, row) → t !! id = Some row ∧ session_key row = key.
Proof.
  unfold row_by_key. intros H. apply head_Some_elem_of in H.
  rewrite list_elem_of_In, filter_In, <-list_elem_of_In, elem_of_map_to_list in H.
  by destruct H as [? ?%bool_decide_eq_true].
Qed.

Lemma row_by_key_none key (t : session_table) id row :
  row_by_key key t = None → t !! id = Some row → session_key row ≠ key.
Proof.
  unfold row_by_key. intros Hn Hid Hk. apply elem_of_map_to_list in Hid.
  assert (Hin : (id, row) ∈ List.filter (λ r, bool_decide (session_key r.2 = key)) (map_to_list t)).
  { rewrite list_elem_of_In, filter_In, <-list_elem_of_In. split; [done|]. by apply bool_decide_eq_true. }
  destruct (List.filter _ _); [by apply elem_of_nil in Hin|done].
Qed.

Definition keys_unique (t : session_table) : Prop :=
  ∀ id id' row row', t !! id = Some row → t !! id' = Some row' → session_key row = session_key row' → id = id'.

Lemma row_by_key_iff (t : session_table) id row :
  keys_unique t → t !! id = Some row → row_by_key (session_key row) t = Some (id, row).
Proof.
  intros Hu Hid. destruct (row_by_key _ t) as [[id' row']|] eqn:H.
  - apply row_by_key_some in H as [H1 H2]. pose proof (Hu _ _ _ _ H1 Hid H2) as ->. congruence.
  - by apply (row_by_key_none _ _ _ _ H) in Hid.
Qed.

(** ** Histories *)

Inductive session_op :=
  | OpUpsert (input : SessionUpsertInput)
  | OpUsage (delta : SessionUsageDelta).

Definition run_op (t : session_table) (op : session_op) : session_table :=
  match op with
  | OpUpsert input => (sessions_upsert input t).2
  | OpUsage delta => (applyUsage delta t).2
  end.

Lemma upsert_table input (t : session_table) : (sessions_upsert input t).2 = (upsertStmt input t).2.
Proof.
  unfold sessions_upsert, mbind, M_bind. destruct (upsertStmt input t) as [[[]|e] t']; [|done].
  unfold getBySessionKey, mbind, M_bind, gets. by destruct (row_by_key _ t') as [[]|].
Qed.

(** The rows after an upsert. *)
Lemma upsertStmt_lookup input (t : session_table) id :
  (upsertStmt input t).2 !! id = t !! id ∨
  (t !! id = None ∧ id = up_sessionId input ∧ row_by_key (up_sessionKey input) t = None ∧
     (upsertStmt input t).2 !! id = Some (new_session_row input)) ∨
  ∃ row name hints active updated, t !! id = Some row ∧
    (upsertStmt input t).2 !! id = Some (row <| display_name := name |> <| routing_hints_json := hints |>
                                             <| last_activity_at := active |> <| updated_at := updated |>).
Proof.
  unfold upsertStmt. destruct (row_by_key _ t) as [[id' old]|] eqn:Hk.
  - apply row_by_key_some in Hk as [Hid _]. destruct (decide (id' = id)) as [->|].
    + right. right. eexists old, _, _, _, _. cbn [snd]. rewrite lookup_insert_eq. done.
    + left. cbn [snd]. by rewrite lookup_insert_ne.
  - destruct (t !! up_sessionId input) eqn:Hid; [by left|]. cbn [snd].
    destruct (decide (up_sessionId input = id)) as [<-|].
    + right. left. by rewrite lookup_insert_eq.
    + left. by rewrite lookup_insert_ne.
Qed.

(** What an operation adds to the counters of session [id]. *)
Definition usage_of (id : string) (f : SessionUsageDelta → number) (op : session_op) : Z :=
  match op with
  | OpUsage delta => if bool_decide (delta_sessionId delta = id) then cast_integer (f delta) else 0
  | OpUpsert _ => 0
  end.
Definition cost_of (id : string) (op : session_op) : option number :=
  match op with
  | OpUsage delta => if bool_decide (delta_sessionId delta = id) then Some (delta_costUsd delta) else None
  | OpUpsert _ => None
  end.

(** The columns that no operation changes. *)
Definition same_identity (row row' : SessionRow) : Prop :=
  session_key row' = session_key row ∧ row_kind row' = row_kind row ∧ row_channel row' = row_channel row ∧
  row_account row' = row_account row ∧ row_health row' = row_health row ∧ budget_state row' = budget_state row.

Definition zsum (l : list Z) : Z := foldr Z.add 0 l.

Lemma run_op_row (t : session_table) id row op :
  t !! id = Some row →
  ∃ row', run_op t op !! id = Some row' ∧ same_identity row row' ∧
    token_input row' = token_input row + usage_of id delta_tokenInput op ∧
    token_output row' = token_output row + usage_of id delta_tokenOutput op ∧
    token_cached_input row' = token_cached_input row + usage_of id delta_tokenCachedInput op ∧
    token_total row' = token_total row + (usage_of id delta_tokenInput op + usage_of id delta_tokenOutput op) ∧
    cost_usd_total row' = foldl num_add (cost_usd_total row) (option_list (cost_of id op)).
Proof.
  intros Hid. destruct op as [input|delta]; cbn [run_op usage_of cost_of option_list foldl].
  - rewrite upsert_table.
    destruct (upsertStmt_lookup input t id) as [H|[(H & _)|(row0 & a & b & c & d & H0 & H1)]]; [|congruence|].
    + exists row. rewrite H. repeat split; try done; lia.
    + rewrite Hid in H0. injection H0 as <-. eexists. split; [exact H1|]. repeat split; cbn; lia.
  - unfold applyUsage. cbn [snd]. rewrite sql_update_lookup.
    destruct (decide (delta_sessionId delta = id)) as [->|Hne].
    + rewrite Hid, bool_decide_eq_true_2 by done. eexists. split; [done|]. by repeat split.
    + rewrite bool_decide_eq_false_2 by done. exists row. repeat split; try done; cbn; lia.
Qed.

(** Session accounting: over every sequence of upserts and usage reports,
    a session keeps its key, kind, channel and account, its token counters grow
    by exactly the sums of the reports for that session (the total by inputs
    plus outputs), and its cost is their cost added in order. *)
Theorem session_usage_accounting ops : ∀ (t : session_table) id row,
  t !! id = Some row →
  ∃ row', foldl run_op t ops !! id = Some row' ∧ same_identity row row' ∧
    token_input row' = token_input row + zsum (map (usage_of id delta_tokenInput) ops) ∧
    token_output row' = token_output row + zsum (map (usage_of id delta_tokenOutput) ops) ∧
    token_cached_input row' = token_cached_input row + zsum (map (usage_of id delta_tokenCachedInput) ops) ∧
    token_total row' - token_total row =
      (token_input row' - token_input row) + (token_output row' - token_output row) ∧
    cost_usd_total row' = foldl num_add (cost_usd_total row) (omap (cost_of id) ops).
Proof.
  induction ops as [|op ops IH]; intros t id row Hid; cbn [foldl map zsum foldr].
  - exists row. repeat split; try done; lia.
  - destruct (run_op_row t id row op Hid) as (row1 & H1 & (?&?&?&?&?&?) & Hi & Ho & Hc & Ht & Hcost).
    destruct (IH _ _ _ H1) as (row' & H' & (?&?&?&?&?&?) & Hi' & Ho' & Hc' & Ht' & Hcost').
    exists row'. split; [done|]. split; [unfold same_identity; split_and!; congruence|].
    fold (zsum (map (usage_of id delta_tokenInput) ops)) (zsum (map (usage_of id delta_tokenOutput) ops))
      (zsum (map (usage_of id delta_tokenCachedInput) ops)).
    split_and!; try lia. rewrite Hcost', Hcost. cbn [omap list_omap].
    by destruct (cost_of id op).
Qed.

Definition sessions_wf (t : session_table) : Prop :=
  keys_unique t ∧ ∀ id row, t !! id = Some row → token_total row = token_input row + token_output row.

Lemma keys_unique_run op (t : session_table) : keys_unique t → keys_unique (run_op t op).
Proof.
  intros Hu. destruct op as [input|delta]; cbn [run_op].
  - rewrite upsert_table. intros id id' row row' H H' Hk.
    assert (Hold : ∀ i r, (upsertStmt input t).2 !! i = Some r →
      (∃ r0, t !! i = Some r0 ∧ session_key r0 = session_key r) ∨
      (i = up_sessionId input ∧ session_key r = up_sessionKey input ∧ row_by_key (up_sessionKey input) t = None)).
    { intros i r Hi. destruct (upsertStmt_lookup input t i) as [E|[(_ & -> & Hn & E)|(r0 & ? & ? & ? & ? & E0 & E)]];
        rewrite Hi in E.
      - left. by exists r.
      - right. by injection E as ->.
      - left. exists r0. split; [done|]. by injection E as ->. }
    destruct (Hold _ _ H) as [(r0 & Hr0 & E0)|(-> & E0 & Hn)],
      (Hold _ _ H') as [(r1 & Hr1 & E1)|(-> & E1 & Hn')]; try done.
    + eapply Hu; [done..|congruence].
    + exfalso. apply (row_by_key_none _ _ _ _ Hn' Hr0). congruence.
    + exfalso. apply (row_by_key_none _ _ _ _ Hn Hr1). congruence.
  - assert (Hold : ∀ i r, (applyUsage delta t).2 !! i = Some r →
      ∃ r0, t !! i = Some r0 ∧ session_key r0 = session_key r).
    { intros i r. unfold applyUsage. cbn [snd]. rewrite sql_update_lookup.
      destruct (decide _) as [<-|]; [|by eauto]. destruct (t !! _); cbn; intros [= <-]. eauto. }
    intros id id' row row' (r0 & Hr0 & E0)%Hold (r1 & Hr1 & E1)%Hold Hk. eapply Hu; [done..|congruence].
Qed.

(** In every table reached from the empty one, no two sessions share a
    session key and every total is the sum of the inputs and the outputs. *)
Theorem sessions_reachable_wf ops : sessions_wf (foldl run_op ∅ ops).
Proof.
  assert (Hwf : ∀ t, sessions_wf t → sessions_wf (foldl run_op t ops)).
  { induction ops as [|op ops IH]; intros t [Hu Ht]; [done|]. apply IH. split; [by apply keys_unique_run|].
    intros id row Hr. destruct (t !! id) as [row0|] eqn:H0.
    - destruct (run_op_row t id row0 op H0) as (row' & H' & _ & Hi & Ho & _ & Htot & _).
      rewrite Hr in H'. injection H' as <-. specialize (Ht _ _ H0). lia.
    - destruct op as [input|delta]; cbn [run_op] in Hr.
      + rewrite upsert_table in Hr.
        destruct (upsertStmt_lookup input t id) as [E|[(_ & _ & _ & E)|(r0 & ? & ? & ? & ? & E0 & _)]]; try congruence.
        rewrite Hr in E. by injection E as ->.
      + unfold applyUsage in Hr. cbn [snd] in Hr. rewrite sql_update_lookup in Hr.
        destruct (decide _) as [->|]; rewrite H0 in Hr; done. }
  apply Hwf. split; intros ? **; by rewrite lookup_empty in *.
Qed.

(** ** Pages *)

Lemma last_index_of_app c a b :
  string_existsb (Ascii.eqb c) b = false →
  last_index_of c (a +:+ String c b) = Z.of_nat (String.length a).
Proof.
  intros Hb. assert (Hnone : last_index_of c b = -1).
  { induction b as [|d b IH]; [done|]. simpl in Hb. bools. simpl. rewrite IH by done. simpl.
    by rewrite Ascii.eqb_sym, H. }
  induction a as [|d a IH]; cbn [String.append last_index_of String.length].
  - by rewrite Hnone, Ascii.eqb_refl.
  - rewrite IH. replace (0 <=? Z.of_nat (String.length a)) with true by (symmetry; apply Z.leb_le; lia). lia.
Qed.

Lemma string_take_app a b : string_take (String.length a) (a +:+ b) = a.
Proof. induction a as [|c a IH]; simpl; [by destruct b|]. by rewrite IH. Qed.

(** A cursor written as [timestamp|key] reads back as its two parts. *)
Lemma parse_cursor ts key :
  ts ≠ "" → key ≠ "" → string_existsb (Ascii.eqb "|") key = false →
  parseCompositeCursor (Some (ts +:+ "|" +:+ key)) = Some (ts, key).
Proof.
  intros Hts Hkey Hbar. unfold parseCompositeCursor.
  change ("|" +:+ key) with (String "|" key). rewrite last_index_of_app by done.
  replace (truthy (ts +:+ String "|" key)) with true by (by destruct ts). cbn [negb].
  replace (Z.of_nat (String.length ts) <=? 0) with false
    by (symmetry; apply Z.leb_gt; destruct ts; simpl; [done|lia]).
  replace (Z.to_nat (Z.of_nat (String.length ts) + 1)) with (String.length (ts +:+ "|"))
    by (rewrite length_append; simpl; lia).
  rewrite Nat2Z.id, string_take_app.
  replace (ts +:+ String "|" key) with ((ts +:+ "|") +:+ key) by (by rewrite append_assoc).
  rewrite string_drop_app. by destruct ts, key.
Qed.

Definition after (x y : string * SessionRow) : bool := pair_ltb (page_key y) (page_key x).

Lemma newest_first_after (t : session_table) id row :
  t !! id = Some row →
  ∃ l1, newest_first (map_to_list t) =
    l1 ++ (id, row) :: newest_first (List.filter (after (id, row)) (map_to_list t)).
Proof.
  intros Hid. set (l := map_to_list t).
  set (le := λ x y, negb (pair_ltb (page_key x) (page_key y))).
  assert (Htot : ∀ x y, le x y = true ∨ le y x = true).
  { intros x y. unfold le. rewrite !negb_true_iff. destruct (pair_ltb (page_key x) (page_key y)) eqn:E; [|by left].
    right. apply not_true_iff_false. intros E'. pose proof (pair_ltb_trans _ _ _ E E') as H.
    by rewrite pair_ltb_irrefl in H. }
  assert (Htr : ∀ x y z, le x y = true → le y z = true → le x z = true).
  { intros x y z. unfold le. rewrite !negb_true_iff. intros. by eapply pair_leb_trans. }
  assert (Hanti : ∀ x y, x ∈ l → y ∈ l → le x y = true → le y x = true → x = y).
  { intros [i r] [j s] Hx%elem_of_map_to_list Hy%elem_of_map_to_list. unfold le. rewrite !negb_true_iff.
    intros H1 H2. assert (page_key (i, r) = page_key (j, s)) as E by (by apply pair_ltb_total).
    injection E as _ E. simpl in E. subst j. congruence. }
  unfold newest_first. change (λ x y, _) with le. rewrite (order_by_filter le) by done.
  apply (sorted_split le after).
  - done.
  - intros x. apply pair_ltb_irrefl.
  - intros x y Hx Hy. rewrite order_by_Permutation in Hx, Hy. by apply Hanti.
  - by apply order_by_sorted.
  - rewrite order_by_Permutation. apply NoDup_map_to_list.
  - rewrite order_by_Permutation. by apply elem_of_map_to_list.
Qed.

(** Paging through the sessions: the page after the cursor of a session is
    exactly what follows that session in the unlimited listing, cut at the
    limit, so consecutive pages neither skip nor repeat a session. *)
Theorem session_pages (t : session_table) limit id row :
  t !! id = Some row → updated_at row ≠ "" → id ≠ "" → string_existsb (Ascii.eqb "|") id = false →
  ∃ before rest,
    sessions_list (-1) None t = (Ok (before ++ mapSessionRow id row :: rest), t) ∧
    sessions_list limit (Some (updated_at row +:+ "|" +:+ id)) t = (Ok (sql_limit limit rest), t).
Proof.
  intros Hid Hu Hne Hbar. destruct (newest_first_after t id row Hid) as [l1 Hl1].
  unfold sessions_list, gets. rewrite parse_cursor by done. cbn [parseCompositeCursor].
  unfold listStmt, listAfterCursorStmt. change (sql_limit (-1) ?l) with l. rewrite Hl1, map_app. cbn [map].
  eexists _, _. split; [done|]. f_equal. f_equal. unfold sql_limit.
  destruct (limit <? 0); [done|]. by rewrite firstn_map.
Qed.

(** ** Reading by ids *)

Lemma concat_batches n fuel : ∀ xs, (0 < n)%nat → (length xs ≤ fuel)%nat → concat (batches fuel n xs) = xs.
Proof.
  induction fuel as [|fuel IH]; intros [|x xs] Hn Hf; cbn [batches concat]; simpl in Hf; try done; [lia|].
  rewrite IH; [apply take_drop|done|]. rewrite length_drop. simpl. lia.
Qed.

Lemma fold_rows_lookup (t : session_table) l : ∀ (acc : gmap string SessionMeta) k,
  (∀ r, r ∈ l → t !! r.1 = Some r.2) →
  foldl (λ (acc : gmap string SessionMeta) r, <[r.1 := mapSessionRow r.1 r.2]> acc) acc l !! k =
    if bool_decide (k ∈ l.*1) then mapSessionRow k <$> t !! k else acc !! k.
Proof.
  induction l as [|r l IH]; intros acc k Hl; cbn [foldl fmap list_fmap].
  - by rewrite bool_decide_eq_false_2 by apply not_elem_of_nil.
  - rewrite (IH _ k) by set_solver. destruct (decide (k ∈ l.*1)) as [Hk|Hk].
    + by rewrite !bool_decide_eq_true_2 by (rewrite ?elem_of_cons; auto).
    + rewrite (bool_decide_eq_false_2 _ Hk). destruct (decide (k = r.1)) as [->|Hne].
      * rewrite lookup_insert_eq, bool_decide_eq_true_2 by (apply elem_of_cons; by left).
        by rewrite (Hl r) by (apply elem_of_cons; by left).
      * rewrite lookup_insert_ne, bool_decide_eq_false_2 by (rewrite ?elem_of_cons; naive_solver). done.
Qed.

Lemma stmt_ids (t : session_table) ids k :
  k ∈ (listBySessionIdsStmt ids t).*1 ↔ k ∈ ids ∧ is_Some (t !! k).
Proof.
  unfold listBySessionIdsStmt. rewrite list_elem_of_fmap. split.
  - intros ([i r] & -> & Hin). rewrite list_elem_of_In, filter_In, <-list_elem_of_In, elem_of_map_to_list in Hin.
    destruct Hin as [H ?%bool_decide_eq_true]. simpl in *. split; [done|by eexists].
  - intros [Hk [r Hr]]. exists (k, r). split; [done|].
    rewrite list_elem_of_In, filter_In, <-list_elem_of_In, elem_of_map_to_list. split; [done|].
    by apply bool_decide_eq_true.
Qed.

Lemma fold_batches_lookup (t : session_table) bs : ∀ (acc : gmap string SessionMeta) k,
  foldl (λ (acc : gmap string SessionMeta) batch,
      foldl (λ (acc : gmap string SessionMeta) r, <[r.1 := mapSessionRow r.1 r.2]> acc) acc
        (listBySessionIdsStmt batch t)) acc bs !! k =
    if bool_decide (k ∈ concat bs ∧ is_Some (t !! k)) then mapSessionRow k <$> t !! k else acc !! k.
Proof.
  induction bs as [|b bs IH]; intros acc k; cbn [foldl concat].
  - rewrite bool_decide_eq_false_2; [done|]. intros [H _]. by apply elem_of_nil in H.
  - rewrite IH, (fold_rows_lookup t).
    + destruct (decide (k ∈ concat bs ∧ is_Some (t !! k))) as [H|H].
      * rewrite !bool_decide_eq_true_2; [done|rewrite elem_of_app; tauto|done].
      * rewrite (bool_decide_eq_false_2 _ H). destruct (decide (k ∈ (listBySessionIdsStmt b t).*1)) as [Hk|Hk].
        -- rewrite !bool_decide_eq_true_2; [done| |done]. apply stmt_ids in Hk. rewrite elem_of_app. tauto.
        -- rewrite !bool_decide_eq_false_2; [done| |done]. rewrite stmt_ids in Hk. rewrite elem_of_app. tauto.
    + intros [i r] Hin. unfold listBySessionIdsStmt in Hin.
      rewrite list_elem_of_In, filter_In, <-list_elem_of_In, elem_of_map_to_list in Hin. tauto.
Qed.

(** Reading sessions by their ids in batches of 400 gives, for every id in
    the request that is not blank once trimmed, its stored session and nothing
    else, however many ids there are and however often they repeat. *)
Theorem listBySessionIds_exact ids (t : session_table) :
  ∃ m, listBySessionIds ids t = (Ok m, t) ∧
    ∀ k, m !! k = if bool_decide (k ∈ map trim ids ∧ k ≠ "") then mapSessionRow k <$> t !! k else None.
Proof.
  eexists. split; [reflexivity|]. intros k. cbv zeta.
  rewrite fold_batches_lookup, concat_batches by lia. rewrite lookup_empty.
  assert (Hw : k ∈ unique (List.filter truthy (map trim ids)) ↔ k ∈ map trim ids ∧ k ≠ "").
  { rewrite elem_of_unique, list_elem_of_In, filter_In, <-list_elem_of_In. by rewrite truthy_spec. }
  destruct (decide (k ∈ map trim ids ∧ k ≠ "")) as [H|H].
  - rewrite (bool_decide_eq_true_2 _ H). destruct (t !! k) as [r|] eqn:Hr; cbn.
    + rewrite bool_decide_eq_true_2; [done|]. split; [by apply Hw|by eexists].
    + by destruct (bool_decide _).
  - rewrite (bool_decide_eq_false_2 _ H), bool_decide_eq_false_2; [done|]. rewrite Hw. tauto.
Qed.

(** ** Concrete sessions *)

Definition demo_upsert (id key at_ : string) : SessionUpsertInput :=
  mkUpsert id key dm "tel" "a" None None at_.
Definition demo_usage (id : string) : SessionUsageDelta :=
  mkDelta id (num_of_Z 3) (num_of_Z 4) (num_of_Z 1) (num_of_Z 2) "2026-01-03T00:00:00.000Z".
Definition demo_table : gmap string SessionRow :=
  foldl run_op ∅ [OpUpsert (demo_upsert "s1" "tel:a:x" "2026-01-01T00:00:00.000Z");
                  OpUpsert (demo_upsert "s2" "tel:a:y" "2026-01-02T00:00:00.000Z")].
Definition demo_row (key at_ : string) : SessionRow := new_session_row (demo_upsert "" key at_).

Lemma session_usage_accounting_witness :
  ∃ row', foldl run_op demo_table [OpUsage (demo_usage "s1"); OpUsage (demo_usage "s2")] !! "s1" = Some row' ∧
    token_input row' = 3.
Proof.
  destruct (session_usage_accounting [OpUsage (demo_usage "s1"); OpUsage (demo_usage "s2")] demo_table "s1"
    (demo_row "tel:a:x" "2026-01-01T00:00:00.000Z") ltac:(vm_compute; reflexivity)) as (row' & H & _ & Hi & _).
  exists row'. split; [exact H|]. rewrite Hi. vm_compute. reflexivity.
Defined.

Lemma session_pages_witness :
  ∃ before rest,
    sessions_list (-1) None demo_table =
      (Ok (before ++ mapSessionRow "s2" (demo_row "tel:a:y" "2026-01-02T00:00:00.000Z") :: rest), demo_table) ∧
    sessions_list 10 (Some "2026-01-02T00:00:00.000Z|s2") demo_table = (Ok (sql_limit 10 rest), demo_table).
Proof.
  apply (session_pages demo_table 10 "s2" (demo_row "tel:a:y" "2026-01-02T00:00:00.000Z"));
    first [vm_compute; reflexivity|discriminate].
Defined.
