(* ===== verification/TranscriptLog.v ===== *)
(** * Transcript files (packages/storage/src/transcript-log.ts)

    One file per session.  [append] writes one JSON text and a line feed, and
    such a text holds no line break (JsJsonText), so a file is the list of its
    lines; a file that does not exist is not in the map.  Appends of one session
    are serialised by the write queue, so a call is one step.  The retention
    scan over modification times is not modelled. *)
From S2P Require Import Prelude.
From S2P Require Import JsString.
From S2P Require Import Errors.
From S2P Require Import JsJson.
From S2P Require Import JsJsonText.

(** File name to lines. *)
Notation transcripts := (gmap string (list string)).
Notation log_repo := (M js_error transcripts).

(** [/^[A-Za-z0-9._-]+$/]. *)
Definition safe_filename_char (c : ascii) : bool :=
  let n := N_of_ascii c in
  ((65 <=? n) && (n <=? 90) || (97 <=? n) && (n <=? 122) || (48 <=? n) && (n <=? 57))%N
  || Ascii.eqb c "." || Ascii.eqb c "_" || Ascii.eqb c "-".
Definition SAFE_SESSION_FILENAME_RE (s : string) : bool := truthy s && string_forallb safe_filename_char s.

(** [Buffer.from(s, "utf8")]. *)
Fixpoint utf8_bytes (s : string) : list N :=
  match s with
  | EmptyString => []
  | String c s' =>
      let n := N_of_ascii c in
      if (n <? 128)%N then n :: utf8_bytes s' else (192 + n / 64)%N :: (128 + n mod 64)%N :: utf8_bytes s'
  end.

Definition base64url_char (n : N) : ascii :=
  (if n <? 26 then ascii_of_N (65 + n)
   else if n <? 52 then ascii_of_N (71 + n)
   else if n <? 62 then ascii_of_N (n - 4)
   else if n =? 62 then "-" else "_")%N%char.

(** [buffer.toString("base64url")]: no padding. *)
Fixpoint base64url (bs : list N) : string :=
  match bs with
  | a :: b :: c :: bs' =>
      String (base64url_char (a / 4)) (String (base64url_char (a mod 4 * 16 + b / 16))
        (String (base64url_char (b mod 16 * 4 + c / 64)) (String (base64url_char (c mod 64)) (base64url bs'))))
  | [a; b] =>
      String (base64url_char (a / 4)) (String (base64url_char (a mod 4 * 16 + b / 16))
        (String (base64url_char (b mod 16 * 4)) EmptyString))
  | [a] => String (base64url_char (a / 4)) (String (base64url_char (a mod 4 * 16)) EmptyString)
  | [] => EmptyString
  end%N.

Definition transcriptFileName (sessionId : string) : string :=
  if negb (bool_decide (sessionId = ".")) && negb (bool_decide (sessionId = "..")) && SAFE_SESSION_FILENAME_RE sessionId
  then sessionId +:+ ".jsonl"
  else
    let encoded := base64url (utf8_bytes sessionId) in
    "session-" +:+ (if truthy encoded then encoded else "empty") +:+ ".jsonl".

(** The path below the transcripts directory; the name holds no separator. *)
Definition filePathForSession (sessionId : string) : res string :=
  let relative := transcriptFileName sessionId in
  _ ← throw_when (starts_with ".." relative) (JsError "Transcript session path escapes transcript root");
  Ok relative.

(** Byte offset of the end of a file. *)
Definition file_size (lines : list string) : Z := foldr (λ l n, byte_length l + 1 + n) 0 lines.

Definition append (event : json) : log_repo Z := λ files,
  match filePathForSession (event_string "sessionId" event) with
  | Err e => (Err e, files)
  | Ok path =>
      let lines := default [] (files !! path) in
      (Ok (file_size lines), <[path := lines ++ [json_stringify event]]> files)
  end.

(** The offset of the first line whose event has the id. *)
Fixpoint scan_lines (id needle : string) (offset : Z) (lines : list string) : option Z :=
  match lines with
  | [] => None
  | line :: lines' =>
      let next := scan_lines id needle (offset + (byte_length line + 1)) lines' in
      let trimmed := trim line in
      if negb (truthy trimmed) || negb (includes needle trimmed) then next
      else match json_parse trimmed with
           | Some parsed =>
               match field "eventId" parsed with
               | Some (JString s) => if bool_decide (s = id) then Some offset else next
               | _ => next
               end
           | None => next
           end
  end.

Definition findEventOffset (sessionId id : string) : log_repo (option Z) := λ files,
  match filePathForSession sessionId with
  | Err e => (Err e, files)
  | Ok path => (Ok (files !! path ≫= scan_lines id (literal_body id) 0), files)
  end.

(** One line of [read]: blank and malformed lines are skipped. *)
Definition read_line (line : string) : option json :=
  let trimmed := trim line in
  if truthy trimmed then
    match json_parse trimmed with
    | Some (JObject fields) => Some (JObject fields)
    | _ => None
    end
  else None.

Definition read (sessionId : string) : log_repo (list json) := λ files,
  match filePathForSession sessionId with
  | Err e => (Err e, files)
  | Ok path =>
      match files !! path with
      | Some lines => (Ok (omap read_line lines), files)
      | None => (Err (JsError "ENOENT"), files)
      end
  end.

Definition log_delete (sessionId : string) : log_repo unit := λ files,
  match filePathForSession sessionId with
  | Err e => (Err e, files)
  | Ok path => (Ok tt, delete path files)
  end.

(** ** Lines and events *)

(** A line that [append] wrote, with its event. *)
Definition is_event_line (line : string) (fields : list (string * json)) : Prop :=
  line = json_stringify (JObject fields) ∧ json_wf (JObject fields).

Lemma read_line_event line fields : is_event_line line fields → read_line line = Some (JObject fields).
Proof.
  intros [-> Hwf]. unfold read_line. by rewrite trim_object_text, object_text_truthy, json_parse_stringify.
Qed.

Lemma file_size_app l1 l2 : file_size (l1 ++ l2) = file_size l1 + file_size l2.
Proof. induction l1 as [|x l1 IH]; simpl; [done|]. rewrite IH. lia. Qed.

(** Among lines that [append] wrote, the scan finds the first one with the id. *)
Lemma scan_lines_app id l1 : ∀ offset l2,
  Forall (λ line, ∃ fields, is_event_line line fields ∧ lookup_field "eventId" fields ≠ Some (JString id)) l1 →
  scan_lines id (literal_body id) offset (l1 ++ l2) = scan_lines id (literal_body id) (offset + file_size l1) l2.
Proof.
  induction l1 as [|line l1 IH]; intros offset l2 Hl; cbn [app scan_lines file_size foldr].
  - by rewrite Z.add_0_r.
  - apply Forall_cons in Hl as [(fields & [-> Hwf] & Hne) Hl].
    rewrite trim_object_text, object_text_truthy, json_parse_stringify by done. cbn [negb orb field].
    rewrite IH by done.
    replace (offset + (byte_length (json_stringify (JObject fields)) + 1) + file_size l1)
      with (offset + (byte_length (json_stringify (JObject fields)) + 1 + file_size l1)) by lia.
    destruct (negb _); [done|]. destruct (lookup_field "eventId" fields) as [[]|]; try done.
    by rewrite bool_decide_eq_false_2 by congruence.
Qed.

Lemma scan_lines_hit id fields offset lines :
  json_wf (JObject fields) → lookup_field "eventId" fields = Some (JString id) →
  scan_lines id (literal_body id) offset (json_stringify (JObject fields) :: lines) = Some offset.
Proof.
  intros Hwf Hid. cbn [scan_lines].
  rewrite trim_object_text, object_text_truthy, json_parse_stringify by done.
  rewrite (object_text_includes "eventId" id fields) by (by apply lookup_field_elem). cbn [negb orb field].
  by rewrite Hid, bool_decide_eq_true_2.
Qed.

(** Reading a transcript after appending an event gives what it gave before
    followed by that event, and the offset [append] returned is where
    [findEventOffset] finds it when no earlier line has its id. *)
Theorem append_read_roundtrip (files : transcripts) fields sid id path lines :
  json_wf (JObject fields) → lookup_field "sessionId" fields = Some (JString sid) →
  lookup_field "eventId" fields = Some (JString id) →
  filePathForSession sid = Ok path → files !! path = Some lines →
  Forall (λ line, ∃ fs, is_event_line line fs ∧ lookup_field "eventId" fs ≠ Some (JString id)) lines →
  ∃ files' offset events,
    append (JObject fields) files = (Ok offset, files') ∧
    read sid files = (Ok events, files) ∧
    read sid files' = (Ok (events ++ [JObject fields]), files') ∧
    findEventOffset sid id files = (Ok None, files) ∧
    findEventOffset sid id files' = (Ok (Some offset), files').
Proof.
  intros Hwf Hsid Hid Hpath Hlines Hall. unfold append, event_string, read, findEventOffset. cbn [field].
  rewrite Hsid, Hpath, Hlines. cbn [default].
  eexists _, _, _. split; [done|]. split; [done|]. rewrite lookup_insert_eq, omap_app. cbn [omap list_omap mbind option_bind].
  rewrite (read_line_event _ fields) by done. rewrite scan_lines_app, scan_lines_hit by done.
  split_and!; try done.
  rewrite <-(app_nil_r lines) at 1. by rewrite scan_lines_app.
Qed.

(** A safe id can be the file name of another id. *)
Example file_names_collide : transcriptFileName "a:b" = transcriptFileName "session-YTpi".
Proof. reflexivity. Qed.
