(* ===== verification/TranscriptOutbox.v ===== *)
(** * Transcript outbox (packages/storage/src/transcript-outbox-repo.ts)

    The table [transcript_outbox], keyed by [event_id].  The run-time guards on
    a row's columns are the typing of the row.  An event is the JSON value it is
    stored as. *)
From S2P Require Import Prelude.
From S2P Require Import JsString.
From S2P Require Import Errors.
From S2P Require Import JsJson.
From S2P Require Import JsJsonText.

Record TranscriptOutboxRow := mkOutboxRow {
  session_id : string;
  event_json : string;
  enqueued_at : string;
  delivered_at : option string;
  transcript_offset : option Z;
  attempt_count : Z;
  last_attempt_at : option string;
  last_error : option string;
}.

#[export] Instance TranscriptOutboxRow_eta : Eta TranscriptOutboxRow := λ r,
  mkOutboxRow (session_id r) (event_json r) (enqueued_at r) (delivered_at r) (transcript_offset r)
    (attempt_count r) (last_attempt_at r) (last_error r).

Record TranscriptOutboxRecord := mkOutboxRecord {
  rec_eventId : string;
  rec_sessionId : string;
  rec_event : json;
  rec_enqueuedAt : string;
  rec_deliveredAt : option string;
  rec_transcriptOffset : option Z;
  rec_attemptCount : Z;
  rec_lastAttemptAt : option string;
  rec_lastError : option string;
}.

Notation outbox_table := (gmap string TranscriptOutboxRow).
Notation outbox_repo := (M js_error outbox_table).

Definition isRecord (value : option json) : bool :=
  match value with Some (JObject _) | Some (JArray _) => true | _ => false end.
Definition isString (value : option json) : bool :=
  match value with Some (JString _) => true | _ => false end.

Definition isTranscriptEvent (value : json) : bool :=
  isRecord (Some value) &&
  forallb (λ k, isString (field k value))
    ["eventId"; "actionId"; "idempotencyKey"; "sessionId"; "sessionKey"; "timestamp"; "type"; "actorType"; "actorId"] &&
  isRecord (field "payload" value).

Definition invalid_transcript_event : json :=
  JObject [("eventId", JString "invalid"); ("actionId", JString "invalid"); ("idempotencyKey", JString "invalid");
    ("sessionId", JString "invalid"); ("sessionKey", JString "invalid");
    ("timestamp", JString "1970-01-01T00:00:00.000Z"); ("type", JString "orchestration.phase");
    ("actorType", JString "system"); ("actorId", JString "system");
    ("payload", JObject [("reason", JString "invalid_transcript_event")])].

(** [safeJsonParse(raw, undefined)] is [None] when the text is empty or does not
    parse. *)
Definition parseTranscriptEvent (raw : string) : json :=
  match (if truthy raw then json_parse raw else None) with
  | Some parsed => if isTranscriptEvent parsed then parsed else invalid_transcript_event
  | None => invalid_transcript_event
  end.

Definition mapOutboxRow (id : string) (row : TranscriptOutboxRow) : TranscriptOutboxRecord :=
  mkOutboxRecord id (session_id row) (parseTranscriptEvent (event_json row)) (enqueued_at row) (delivered_at row)
    (transcript_offset row) (attempt_count row) (last_attempt_at row) (last_error row).

Definition get (id : string) : outbox_repo (option TranscriptOutboxRecord) :=
  gets (λ t : outbox_table, mapOutboxRow id <$> t !! id).

Definition new_outbox_row (event : json) (enqueuedAt : string) : TranscriptOutboxRow :=
  mkOutboxRow (event_string "sessionId" event) (json_stringify event) enqueuedAt None None 0 None None.

Definition enqueueStmt (event : json) (enqueuedAt : string) : outbox_repo unit := λ t,
  (Ok tt, (sql_insert_ignore (event_string "eventId" event) (new_outbox_row event enqueuedAt) t).2).

Definition enqueue (event : json) (enqueuedAt : string) : outbox_repo TranscriptOutboxRecord :=
  enqueueStmt event enqueuedAt ;;
  stored ← get (event_string "eventId" event);
  mret (default (mkOutboxRecord (event_string "eventId" event) (event_string "sessionId" event) event enqueuedAt
                   None None 0 None None) stored).

(** [ORDER BY enqueued_at ASC, event_id ASC]. *)
Definition queue_key (r : string * TranscriptOutboxRow) : string * string := (enqueued_at r.2, r.1).
Definition oldest_first (l : list (string * TranscriptOutboxRow)) : list (string * TranscriptOutboxRow) :=
  order_by (λ x y, negb (pair_ltb (queue_key y) (queue_key x))) l.

Definition is_pending (row : TranscriptOutboxRow) : bool := bool_decide (delivered_at row = None).

(** [sessionId ? bySession : all]: the empty string selects all. *)
Definition in_session (sid : option string) (row : TranscriptOutboxRow) : bool :=
  match sid with
  | Some s => if truthy s then bool_decide (session_id row = s) else true
  | None => true
  end.

Definition pending_rows (limit : Z) (sid : option string) (t : outbox_table) : list (string * TranscriptOutboxRow) :=
  sql_limit limit (oldest_first (List.filter (λ r, is_pending r.2 && in_session sid r.2) (map_to_list t))).

Definition listPending (limit : Z) (sid : option string) : outbox_repo (list TranscriptOutboxRecord) :=
  gets (λ t, map (λ r, mapOutboxRow r.1 r.2) (pending_rows limit sid t)).

Definition outbox_update (cond : TranscriptOutboxRow → bool) (f : TranscriptOutboxRow → TranscriptOutboxRow) (id : string)
    : outbox_repo (option TranscriptOutboxRecord) := λ t,
  get id (sql_update cond f id t).2.

Definition outbox_markFailed (id lastAttemptAt lastError : string) : outbox_repo (option TranscriptOutboxRecord) :=
  outbox_update is_pending
    (λ row, row <| attempt_count := attempt_count row + 1 |> <| last_attempt_at := Some lastAttemptAt |>
                <| last_error := Some lastError |>) id.

Definition markAttemptStarted (id attemptedAt : string) : outbox_repo (option TranscriptOutboxRecord) :=
  outbox_update is_pending (λ row, row <| last_attempt_at := Some attemptedAt |>) id.

Definition markDelivered (id deliveredAt : string) (offset : Z) : outbox_repo (option TranscriptOutboxRecord) :=
  outbox_update (λ _, true)
    (λ row, row <| delivered_at := Some deliveredAt |> <| transcript_offset := Some offset |>
                <| last_attempt_at := Some deliveredAt |> <| last_error := None |>) id.

(** The event of a row that [enqueue] wrote reads back as it was given. *)
Lemma parse_stored_event fields :
  json_wf (JObject fields) → isTranscriptEvent (JObject fields) = true →
  parseTranscriptEvent (json_stringify (JObject fields)) = JObject fields.
Proof.
  intros Hwf He. unfold parseTranscriptEvent. by rewrite object_text_truthy, json_parse_stringify, He.
Qed.
