(* ===== verification/TranscriptDrain.v ===== *)
(** * Draining the outbox (packages/gateway-core/src/event-ingest.ts)

    [flushTranscriptOutboxSession] moves the pending events of the outbox into
    the transcript files.  Every call to the database or the file system can go
    wrong: the [faults] of a world say, call by call, whether it succeeds, throws
    before or after taking effect, or whether the process dies.  [clock] gives
    the instants that [new Date().toISOString()] reads. *)
From S2P Require Import Prelude.
From S2P Require Import JsString.
From S2P Require Import Errors.
From S2P Require Import JsJson.
From S2P Require Import JsJsonText.
From S2P Require Import TranscriptLog.
From S2P Require Import TranscriptOutbox.

Inductive fault :=
  | io_ok
  | io_throws_before (message : string)
  | io_throws_after (message : string)
  | io_dies.

Record DrainWorld := mkWorld {
  outbox : gmap string TranscriptOutboxRow;
  files : gmap string (list string);
  faults : list fault;
  ticks : nat;
}.

#[export] Instance DrainWorld_eta : Eta DrainWorld := λ w, mkWorld (outbox w) (files w) (faults w) (ticks w).

(** How a drain ends early: [Died] cannot be caught. *)
Inductive stop :=
  | Thrown (e : js_error)
  | Died.

Notation drain_M := (M stop DrainWorld).

(** One call under the next fault; no fault left means success. *)
Definition attempt {A} (m : DrainWorld → res A * DrainWorld) : drain_M A := λ w,
  let w0 := w <| faults := tail (faults w) |> in
  match head (faults w) with
  | Some (io_throws_before msg) => (Err (Thrown (JsError msg)), w0)
  | Some (io_throws_after msg) => (Err (Thrown (JsError msg)), (m w0).2)
  | Some io_dies => (Err Died, w0)
  | _ =>
      match m w0 with
      | (Ok a, w') => (Ok a, w')
      | (Err e, w') => (Err (Thrown e), w')
      end
  end.

Definition in_outbox {A} (m : M js_error (gmap string TranscriptOutboxRow) A) : drain_M A :=
  attempt (zoom outbox (λ t w, w <| outbox := t |>) m).
Definition in_files {A} (m : M js_error (gmap string (list string)) A) : drain_M A :=
  attempt (zoom files (λ t w, w <| files := t |>) m).

(** [new Date().toISOString()]. *)
Definition now (clock : nat → string) : drain_M string := λ w,
  (Ok (clock (ticks w)), w <| ticks := S (ticks w) |>).

(** [catch (error)]: death is not an exception. *)
Definition catch {A} (m : drain_M A) (h : js_error → drain_M A) : drain_M A :=
  try_catch m (λ e, match e with Thrown e => h e | Died => throw Died end).

(** The body of the loop's [try] block: the offset of the delivered event. *)
Definition deliver (clock : nat → string) (record : TranscriptOutboxRecord) : drain_M Z :=
  found ← (if truthy_opt (rec_lastAttemptAt record)
           then in_files (findEventOffset (rec_sessionId record) (rec_eventId record))
           else mret None);
  offset ←
    match found with
    | Some offset => mret offset
    | None =>
        attemptedAt ← now clock;
        in_outbox (markAttemptStarted (rec_eventId record) attemptedAt) ;;
        in_files (append (rec_event record))
    end;
  deliveredAt ← now clock;
  in_outbox (markDelivered (rec_eventId record) deliveredAt offset) ;;
  mret offset.

(** [catch]: note the failure and leave the loop ([None]). *)
Definition note_failure (clock : nat → string) (record : TranscriptOutboxRecord) (e : js_error) : drain_M (option Z) :=
  at_ ← now clock;
  in_outbox (outbox_markFailed (rec_eventId record) at_ (error_message e)) ;;
  mret None.

(** The loop over the pending records, with the counters [deliveredCount] and
    [targetOffset]. *)
Fixpoint drain_loop (clock : nat → string) (target : option string) (pending : list TranscriptOutboxRecord)
    (deliveredCount targetOffset : Z) : drain_M (Z * Z) :=
  match pending with
  | [] => mret (deliveredCount, targetOffset)
  | record :: pending' =>
      r ← catch (offset ← deliver clock record; mret (Some offset)) (note_failure clock record);
      match r with
      | Some offset =>
          drain_loop clock target pending' (deliveredCount + 1)
            (if bool_decide (target = Some (rec_eventId record)) then offset else targetOffset)
      | None => mret (deliveredCount, targetOffset)
      end
  end.

Definition flushTranscriptOutboxSession (clock : nat → string) (sid : string) (target : option string)
    (limit : option Z) : drain_M (Z * Z) :=
  pending ← in_outbox (listPending (default 100 limit) (Some sid));
  let targetWasPending := existsb (λ r, bool_decide (target = Some (rec_eventId r))) pending in
  '(deliveredCount, targetOffset) ← drain_loop clock target pending 0 0;
  match target with
  | Some id =>
      if truthy id && negb targetWasPending then
        delivered ← in_outbox (get id);
        mret (deliveredCount,
          match delivered with
          | Some r => if truthy_opt (rec_deliveredAt r) then default targetOffset (rec_transcriptOffset r) else targetOffset
          | None => targetOffset
          end)
      else mret (deliveredCount, targetOffset)
  | None => mret (deliveredCount, targetOffset)
  end.
