(* ===== verification/TranscriptDrainTheorems.v ===== *)
(** * Draining the outbox: exactly once, in order, under faults

    The invariant that links the outbox and the transcript files, preserved by
    every call under every sequence of faults, and what a drain without faults
    achieves. *)
From S2P Require Import Prelude.
From S2P Require Import JsString.
From S2P Require Import Errors.
From S2P Require Import JsJson.
From S2P Require Import JsJsonText.
From S2P Require Import TranscriptLog.
From S2P Require Import TranscriptOutbox.
From S2P Require Import TranscriptDrain.

(** ** The invariant *)

(** The event of [id] in session [sid], as an object's fields. *)
Record stored_event (id sid : string) (fields : list (string * json)) : Prop := {
  se_wf : json_wf (JObject fields);
  se_event : isTranscriptEvent (JObject fields) = true;
  se_id : lookup_field "eventId" fields = Some (JString id);
  se_session : lookup_field "sessionId" fields = Some (JString sid);
}.

Definition event_row (id : string) (row : TranscriptOutboxRow) : Prop :=
  ∃ fields, event_json row = json_stringify (JObject fields) ∧ stored_event id (session_id row) fields.

(** The line of [row] is in its session's file, and the row has its offset. *)
Definition offset_right (row : TranscriptOutboxRow) (o : Z) (fs : gmap string (list string)) : Prop :=
  ∃ path l1 l2, filePathForSession (session_id row) = Ok path ∧
    fs !! path = Some (l1 ++ event_json row :: l2) ∧ o = file_size l1.

Record drain_inv (ob : gmap string TranscriptOutboxRow) (fs : gmap string (list string)) : Prop := {
  inv_event : ∀ id row, ob !! id = Some row → event_row id row;
  inv_line : ∀ path lines line, fs !! path = Some lines → line ∈ lines →
    ∃ id row, ob !! id = Some row ∧ event_json row = line ∧
      filePathForSession (session_id row) = Ok path ∧ truthy_opt (last_attempt_at row) = true;
  inv_nodup : ∀ path lines, fs !! path = Some lines → NoDup lines;
  inv_delivered : ∀ id row, ob !! id = Some row → is_Some (delivered_at row) →
    ∃ o, transcript_offset row = Some o ∧ offset_right row o fs;
}.

(** Two rows with one text are one row. *)
Lemma event_row_inj id1 id2 row1 row2 :
  event_row id1 row1 → event_row id2 row2 → event_json row1 = event_json row2 →
  id1 = id2 ∧ session_id row1 = session_id row2.
Proof.
  intros (f1 & E1 & [W1 _ I1 S1]) (f2 & E2 & [W2 _ I2 S2]) H. rewrite E1, E2 in H.
  apply (f_equal json_parse) in H. rewrite !json_parse_stringify in H by done. injection H as ->.
  rewrite I1 in I2. rewrite S1 in S2. split; congruence.
Qed.

(** A line has the id of the one row it belongs to. *)
Lemma line_of_other ob fs path lines line id row :
  drain_inv ob fs → ob !! id = Some row → fs !! path = Some lines → line ∈ lines → line ≠ event_json row →
  ∃ fields, is_event_line line fields ∧ lookup_field "eventId" fields ≠ Some (JString id).
Proof.
  intros Hi Hrow Hl Hin Hne. destruct (inv_line _ _ Hi _ _ _ Hl Hin) as (id' & row' & Hrow' & <- & _ & _).
  destruct (inv_event _ _ Hi _ _ Hrow') as (fields & E & [W _ I _]). exists fields. split; [done|].
  rewrite I. intros [= ->]. rewrite Hrow in Hrow'. congruence.
Qed.

(** What [deliver] learns before it appends: no offset means that the line is
    not in the file, an offset is the line's. *)
Definition look (row : TranscriptOutboxRow) (id : string) (lines : option (list string)) : option Z :=
  if truthy_opt (last_attempt_at row) then lines ≫= scan_lines id (literal_body id) 0 else None.

Lemma look_spec ob fs id row path :
  drain_inv ob fs → ob !! id = Some row → filePathForSession (session_id row) = Ok path →
  match look row id (fs !! path) with
  | Some o => offset_right row o fs
  | None => event_json row ∉ default [] (fs !! path)
  end.
Proof.
  intros Hi Hrow Hpath. unfold look. destruct (truthy_opt (last_attempt_at row)) eqn:Ht.
  2:{ intros Hin. destruct (fs !! path) as [lines|] eqn:Hl; [|by apply elem_of_nil in Hin].
      destruct (inv_line _ _ Hi _ _ _ Hl Hin) as (id' & row' & Hrow' & E & _ & Ht').
      destruct (event_row_inj id' id row' row) as [-> _]; [by eapply inv_event..|done|].
      rewrite Hrow in Hrow'. congruence. }
  destruct (fs !! path) as [lines|] eqn:Hl; [|apply not_elem_of_nil]. cbn [mbind option_bind default].
  destruct (inv_event _ _ Hi _ _ Hrow) as (fields & E & [W _ I _]).
  assert (Hother : ∀ l1, (∀ x, x ∈ l1 → x ∈ lines ∧ x ≠ event_json row) →
    Forall (λ line, ∃ fs', is_event_line line fs' ∧ lookup_field "eventId" fs' ≠ Some (JString id)) l1).
  { intros l1 Hsub. apply Forall_forall. intros x Hx. apply Hsub in Hx as [H1 H2]. by eapply line_of_other. }
  destruct (decide (event_json row ∈ lines)) as [Hin|Hnin].
  - pose proof (inv_nodup _ _ Hi _ _ Hl) as Hnd.
    apply list_elem_of_split in Hin as (l1 & l2 & ->).
    rewrite scan_lines_app.
    + assert (Hhit : scan_lines id (literal_body id) (0 + file_size l1) (event_json row :: l2) = Some (0 + file_size l1))
        by (rewrite E; by apply scan_lines_hit).
      rewrite Hhit. by exists path, l1, l2.
    + apply Hother. intros x Hx. split; [set_solver|]. intros ->.
      rewrite NoDup_app in Hnd. destruct Hnd as (_ & Hd & _). apply (Hd _ Hx). left.
  - rewrite <-(app_nil_r lines), scan_lines_app; [by rewrite app_nil_r|].
    apply Hother. intros x Hx. split; [done|]. by intros ->.
Qed.

(** Updating one row keeps the invariant. *)
Lemma drain_inv_update ob fs id row row' :
  drain_inv ob fs → ob !! id = Some row →
  session_id row' = session_id row → event_json row' = event_json row → truthy_opt (last_attempt_at row') = true →
  (is_Some (delivered_at row') → ∃ o, transcript_offset row' = Some o ∧ offset_right row' o fs) →
  drain_inv (<[id := row']> ob) fs.
Proof.
  intros [He Hl Hn Hd] Hrow Hs Hj Ht Hd'. split.
  - intros id1 row1 H. apply lookup_insert_Some in H as [[<- <-]|[_ H]]; [|by apply He].
    unfold event_row. rewrite Hs, Hj. by apply He.
  - intros path lines line Hp Hin. destruct (Hl _ _ _ Hp Hin) as (id1 & row1 & H1 & H2 & H3 & H4).
    destruct (decide (id1 = id)) as [->|Hne].
    + rewrite Hrow in H1. injection H1 as <-. exists id, row'. rewrite lookup_insert_eq, Hs, Hj. done.
    + exists id1, row1. by rewrite lookup_insert_ne.
  - done.
  - intros id1 row1 H. apply lookup_insert_Some in H as [[<- <-]|[_ H]]; [done|by apply (Hd id1)].
Qed.

(** Appending the line of an attempted row that is not yet in the file keeps
    the invariant. *)
Lemma drain_inv_append ob fs id row path :
  drain_inv ob fs → ob !! id = Some row → filePathForSession (session_id row) = Ok path →
  truthy_opt (last_attempt_at row) = true → event_json row ∉ default [] (fs !! path) →
  drain_inv ob (<[path := default [] (fs !! path) ++ [event_json row]]> fs).
Proof.
  intros [He Hl Hn Hd] Hrow Hp Ht Hnin. split.
  - done.
  - intros path1 lines line H Hin. apply lookup_insert_Some in H as [[<- <-]|[_ H]]; [|by eapply Hl].
    apply elem_of_app in Hin as [Hin|Hin%list_elem_of_singleton]; [|subst; by exists id, row].
    destruct (fs !! path) as [ls|] eqn:E; [by eapply Hl|by apply elem_of_nil in Hin].
  - intros path1 lines H. apply lookup_insert_Some in H as [[<- <-]|[_ H]]; [|by eapply Hn].
    apply NoDup_app. split_and!; [|set_solver|apply NoDup_singleton].
    destruct (fs !! path) eqn:E; [by eapply Hn|constructor].
  - intros id1 row1 H1 H2. destruct (Hd _ _ H1 H2) as (o & Ho & path1 & l1 & l2 & Hp1 & Hf & ->).
    exists (file_size l1). split; [done|]. destruct (decide (path = path1)) as [->|Hne].
    + exists path1, l1, (l2 ++ [event_json row]). rewrite lookup_insert_eq, Hf. cbn.
      split_and!; [done| |done]. by rewrite <-app_assoc.
    + exists path1, l1, l2. by rewrite lookup_insert_ne.
Qed.

Lemma offset_right_append fs path row :
  filePathForSession (session_id row) = Ok path →
  offset_right row (file_size (default [] (fs !! path))) (<[path := default [] (fs !! path) ++ [event_json row]]> fs).
Proof. intros Hp. eexists path, _, []. by rewrite lookup_insert_eq. Qed.

(** ** Assertions on the outbox and the files *)

Notation assertion := (gmap string TranscriptOutboxRow → gmap string (list string) → Prop).

Definition triple {A} (P : assertion) (m : M stop DrainWorld A) (Q : A → assertion) (R : assertion) : Prop :=
  ∀ w, P (outbox w) (files w) →
    match m w with
    | (Ok a, w') => Q a (outbox w') (files w')
    | (Err _, w') => R (outbox w') (files w')
    end.

Lemma triple_bind {A B} P (m : M stop DrainWorld A) (f : A → M stop DrainWorld B) Q S R :
  triple P m Q R → (∀ a, triple (Q a) (f a) S R) → triple P (m ≫= f) S R.
Proof.
  intros Hm Hf w Hw. specialize (Hm w Hw). unfold mbind, M_bind. destruct (m w) as [[a|e] w']; [|done].
  by apply (Hf a).
Qed.

Lemma triple_ret {A} (P R : assertion) (Q : A → assertion) (a : A) :
  (∀ ob fs, P ob fs → Q a ob fs) → triple P (mret a) Q R.
Proof. intros HQ w Hw. by apply HQ. Qed.

Lemma triple_conseq {A} (P P' R R' : assertion) (m : M stop DrainWorld A) Q (Q' : A → assertion) :
  triple P' m Q' R' → (∀ ob fs, P ob fs → P' ob fs) → (∀ a ob fs, Q' a ob fs → Q a ob fs) →
  (∀ ob fs, R' ob fs → R ob fs) → triple P m Q R.
Proof. intros Hm HP HQ HR w Hw. specialize (Hm w (HP _ _ Hw)). destruct (m w) as [[]]; auto. Qed.

Lemma triple_catch {A} (P R : assertion) (m : M stop DrainWorld A) h Q :
  triple P m Q R → (∀ e, triple R (h e) Q R) → triple P (catch m h) Q R.
Proof.
  intros Hm Hh w Hw. specialize (Hm w Hw). unfold catch, try_catch. destruct (m w) as [[a|[e|]] w']; [done| |done].
  by apply (Hh e).
Qed.

Lemma triple_now (clock : nat → string) (P R : assertion) :
  (∀ n, truthy (clock n) = true) → triple P (now clock) (λ s ob fs, P ob fs ∧ truthy s = true) R.
Proof. intros Hc w Hw. split; [exact Hw|apply Hc]. Qed.

(** A call keeps [R] on every exit and gives [Q] when it returns. *)
Lemma triple_outbox {A} (P R : assertion) (m : M js_error (gmap string TranscriptOutboxRow) A) Q :
  (∀ ob fs, P ob fs → R ob fs ∧ R (m ob).2 fs) →
  (∀ ob fs a ob', P ob fs → m ob = (Ok a, ob') → Q a ob' fs) → triple P (in_outbox m) Q R.
Proof.
  intros HR HQ w Hw. destruct (HR _ _ Hw) as [H1 H2]. unfold in_outbox, attempt, zoom. cbn.
  destruct (m (outbox w)) as [[a|e] ob'] eqn:E; cbn in *;
    (destruct (head (faults w)) as [[]|]; cbn; rewrite ?E; cbn; try done; by apply (HQ _ _ _ _ Hw)).
Qed.

Lemma triple_files {A} (P R : assertion) (m : M js_error (gmap string (list string)) A) Q :
  (∀ ob fs, P ob fs → R ob fs ∧ R ob (m fs).2) →
  (∀ ob fs a fs', P ob fs → m fs = (Ok a, fs') → Q a ob fs') → triple P (in_files m) Q R.
Proof.
  intros HR HQ w Hw. destruct (HR _ _ Hw) as [H1 H2]. unfold in_files, attempt, zoom. cbn.
  destruct (m (files w)) as [[a|e] fs'] eqn:E; cbn in *;
    (destruct (head (faults w)) as [[]|]; cbn; rewrite ?E; cbn; try done; by apply (HQ _ _ _ _ Hw)).
Qed.

(** ** The drain keeps the invariant on every exit *)

(** The record read at the start of the drain still describes its row. *)
Definition fresh (ob : gmap string TranscriptOutboxRow) (r : TranscriptOutboxRecord) : Prop :=
  ∃ row, ob !! rec_eventId r = Some row ∧ r = mapOutboxRow (rec_eventId r) row ∧ delivered_at row = None.

Record loop_inv (rest : list TranscriptOutboxRecord) (ob : gmap string TranscriptOutboxRow)
    (fs : gmap string (list string)) : Prop := {
  li_inv : drain_inv ob fs;
  li_nodup : NoDup (map rec_eventId rest);
  li_fresh : ∀ r, r ∈ rest → fresh ob r;
}.

(** The row of the record in hand, with what is known of it. *)
Definition owned (r : TranscriptOutboxRecord) (rest : list TranscriptOutboxRecord)
    (Φ : TranscriptOutboxRow → gmap string (list string) → Prop) : assertion := λ ob fs,
  loop_inv rest ob fs ∧ rec_eventId r ∉ map rec_eventId rest ∧
  ∃ row, ob !! rec_eventId r = Some row ∧ session_id row = rec_sessionId r ∧
    parseTranscriptEvent (event_json row) = rec_event r ∧ Φ row fs.

Definition absent (row : TranscriptOutboxRow) (fs : gmap string (list string)) : Prop :=
  ∀ path, filePathForSession (session_id row) = Ok path → event_json row ∉ default [] (fs !! path).

Lemma loop_inv_cons r rest ob fs :
  loop_inv (r :: rest) ob fs →
  owned r rest (λ row _, r = mapOutboxRow (rec_eventId r) row ∧ delivered_at row = None) ob fs.
Proof.
  intros [Hi Hnd Hf]. cbn [map] in Hnd. apply NoDup_cons in Hnd as [Hn Hnd]. split.
  - split; [done|done|]. intros r' Hr'. apply Hf. by right.
  - split; [done|]. destruct (Hf r) as (row & H1 & H2 & H3); [left|]. exists row.
    split_and!; try done; by rewrite H2.
Qed.

(** Updating the row in hand. *)
Lemma owned_update r rest Φ Ψ ob fs row' :
  owned r rest Φ ob fs → truthy_opt (last_attempt_at row') = true →
  (∀ row, ob !! rec_eventId r = Some row → Φ row fs →
     session_id row' = session_id row ∧ event_json row' = event_json row ∧ Ψ row' fs ∧
     (is_Some (delivered_at row') → ∃ o, transcript_offset row' = Some o ∧ offset_right row' o fs)) →
  owned r rest Ψ (<[rec_eventId r := row']> ob) fs.
Proof.
  intros ([Hi Hnd Hf] & Hn & row & Hrow & Hs & He & HΦ) Ht Hup.
  destruct (Hup _ Hrow HΦ) as (Hs' & Hj' & HΨ & Hd). split_and!.
  - split; [by eapply drain_inv_update|done|]. intros r' Hr'. destruct (Hf r' Hr') as (row1 & H1 & H2 & H3).
    exists row1. rewrite lookup_insert_ne; [done|]. intros E. apply Hn. rewrite E.
    apply list_elem_of_In, in_map, list_elem_of_In, Hr'.
  - done.
  - exists row'. rewrite lookup_insert_eq, Hs', Hj'. done.
Qed.

Lemma owned_weaken r rest Φ Ψ ob fs :
  owned r rest Φ ob fs → (∀ row, ob !! rec_eventId r = Some row → Φ row fs → Ψ row fs) → owned r rest Ψ ob fs.
Proof. intros (H1 & H2 & row & H3 & H4 & H5 & H6) HΨ. split_and!; [done..|]. exists row. auto. Qed.

Lemma outbox_update_snd cond f id ob : (outbox_update cond f id ob).2 = (sql_update cond f id ob).2.
Proof. reflexivity. Qed.

(** The three statements of a drain, on the row in hand. *)
Lemma owned_markAttemptStarted r rest Φ ob fs s :
  owned r rest Φ ob fs → truthy s = true →
  (∀ row row', session_id row' = session_id row → event_json row' = event_json row → Φ row fs → Φ row' fs) →
  (∀ row, ob !! rec_eventId r = Some row → Φ row fs → delivered_at row = None) →
  owned r rest (λ row fs, Φ row fs ∧ truthy_opt (last_attempt_at row) = true)
    (markAttemptStarted (rec_eventId r) s ob).2 fs.
Proof.
  intros Ho Hs HΦ Hd. unfold markAttemptStarted. rewrite outbox_update_snd.
  pose proof Ho as (_ & _ & row & Hrow & _ & _ & Hrow'). pose proof (Hd _ Hrow Hrow') as Hnone.
  rewrite (sql_update_eq _ _ _ _ _ Hrow) by (unfold is_pending; by rewrite Hnone). cbn [snd].
  apply (owned_update r rest Φ); [exact Ho|exact Hs|]. intros row0 H0 HΦ0. rewrite Hrow in H0. injection H0 as <-.
  split_and!; try done; [by apply (HΦ row)|]. cbn. rewrite Hnone. by intros [].
Qed.

Lemma owned_markFailed r rest Φ ob fs s msg :
  owned r rest Φ ob fs → truthy s = true →
  owned r rest (λ _ _, True) (outbox_markFailed (rec_eventId r) s msg ob).2 fs.
Proof.
  intros Ho Hs. unfold outbox_markFailed. rewrite outbox_update_snd.
  pose proof Ho as (Hl & _ & row & Hrow & _ & _ & _).
  unfold sql_update. rewrite Hrow. destruct (is_pending row) eqn:Hp; [|by eapply owned_weaken]. cbn [snd].
  apply (owned_update r rest Φ (λ _ _, True)); [exact Ho|exact Hs|]. intros row0 H0 _. rewrite Hrow in H0. injection H0 as <-.
  split_and!; try done. cbn. unfold is_pending in Hp. bools. rewrite Hp. by intros [].
Qed.

Lemma owned_markDelivered r rest ob fs s o :
  owned r rest (λ row fs, offset_right row o fs) ob fs → truthy s = true →
  owned r rest (λ row fs, offset_right row o fs ∧ is_Some (delivered_at row)) (markDelivered (rec_eventId r) s o ob).2 fs.
Proof.
  intros Ho Hs. unfold markDelivered. rewrite outbox_update_snd.
  pose proof Ho as (Hl & _ & row & Hrow & _). rewrite (sql_update_eq _ _ _ _ _ Hrow) by done. cbn [snd].
  eapply (owned_update r rest); [exact Ho|exact Hs|]. intros row0 H0 Hr. rewrite Hrow in H0. injection H0 as <-.
  split_and!; try done. intros _. by exists o.
Qed.

Lemma owned_append r rest ob fs :
  owned r rest (λ row fs, absent row fs ∧ truthy_opt (last_attempt_at row) = true) ob fs →
  owned r rest (λ _ _, True) ob (append (rec_event r) fs).2 ∧
  ∀ o fs', append (rec_event r) fs = (Ok o, fs') → owned r rest (λ row fs, offset_right row o fs) ob fs'.
Proof.
  intros ([Hi Hnd Hf] & Hn & row & Hrow & Hs & He & Habs & Ht).
  destruct (inv_event _ _ Hi _ _ Hrow) as (fields & E & [W V I S]).
  assert (Hev : rec_event r = JObject fields) by (rewrite <-He, E; by apply parse_stored_event).
  rewrite Hev. unfold append, event_string. cbn [field]. rewrite S.
  destruct (filePathForSession (session_id row)) as [path|e] eqn:Hp.
  2:{ split; [|by intros ? ? [=]]. split; [done|]. split; [done|]. by exists row. }
  cbn [snd]. rewrite <-E. pose proof (Habs path Hp) as Hnin.
  assert (Hl : loop_inv rest ob (<[path := default [] (fs !! path) ++ [event_json row]]> fs))
    by (split; [by eapply drain_inv_append|done|done]).
  split; [split; [done|]; split; [done|]; by exists row|].
  intros o fs' [= <- <-]. split; [done|]. split; [done|]. exists row. split_and!; [done..|].
  by apply offset_right_append.
Qed.

Section drain.
Context (clock : nat → string) (clock_truthy : ∀ n, truthy (clock n) = true).

(** Reading the file before the append. *)
Lemma triple_look r rest :
  triple (owned r rest (λ row _, r = mapOutboxRow (rec_eventId r) row ∧ delivered_at row = None))
    (if truthy_opt (rec_lastAttemptAt r) then in_files (findEventOffset (rec_sessionId r) (rec_eventId r))
     else mret None)
    (λ found, owned r rest (λ row fs,
       match found with Some o => offset_right row o fs | None => absent row fs ∧ delivered_at row = None end))
    (owned r rest (λ _ _, True)).
Proof.
  destruct (truthy_opt (rec_lastAttemptAt r)) eqn:Hla.
  - apply triple_files.
    + intros ob fs Ho. unfold findEventOffset.
      destruct (filePathForSession (rec_sessionId r)); split; by eapply owned_weaken.
    + intros ob fs found fs' Ho Hfind. unfold findEventOffset in Hfind.
      destruct (filePathForSession (rec_sessionId r)) as [path|] eqn:Hp; [|done]. injection Hfind as <- <-.
      pose proof Ho as ([Hi _ _] & _ & _). eapply owned_weaken; [exact Ho|]. intros row Hrow [Hr Hd].
      assert (Hp' : filePathForSession (session_id row) = Ok path) by (rewrite Hr in Hp; exact Hp).
      pose proof (look_spec ob fs _ row path Hi Hrow Hp') as Hlook. unfold look in Hlook.
      replace (last_attempt_at row) with (rec_lastAttemptAt r) in Hlook by (rewrite Hr; done).
      rewrite Hla in Hlook. destruct (fs !! path ≫= _); [done|]. split; [|done].
      intros path' Hp2. by assert (path' = path) as -> by congruence.
  - intros w Ho. cbn. pose proof Ho as ([Hi _ _] & _ & _). eapply owned_weaken; [exact Ho|].
    intros row Hrow [Hr Hd]. split; [|done]. intros path Hp.
    pose proof (look_spec _ _ _ row path Hi Hrow Hp) as Hlook. unfold look in Hlook.
    replace (last_attempt_at row) with (rec_lastAttemptAt r) in Hlook by (rewrite Hr; done).
    by rewrite Hla in Hlook.
Qed.

Lemma triple_deliver r rest :
  triple (owned r rest (λ row _, r = mapOutboxRow (rec_eventId r) row ∧ delivered_at row = None))
    (deliver clock r) (λ _, loop_inv rest) (owned r rest (λ _ _, True)).
Proof.
  unfold deliver. eapply triple_bind; [apply triple_look|]. intros found.
  eapply (triple_bind _ _ _ (λ o, owned r rest (λ row fs, offset_right row o fs))).
  - destruct found as [o|]; [by apply triple_ret|].
    eapply triple_bind; [by apply triple_now|]. intros s. cbn beta.
    assert (Hstart : ∀ ob fs, owned r rest (λ row fs, absent row fs ∧ delivered_at row = None) ob fs ∧ truthy s = true →
      owned r rest (λ row fs, absent row fs ∧ truthy_opt (last_attempt_at row) = true)
        (markAttemptStarted (rec_eventId r) s ob).2 fs).
    { intros ob fs [Ho Hs]. eapply owned_weaken;
        [apply (owned_markAttemptStarted r rest absent); [eapply owned_weaken; [exact Ho|by intros ? ? []]|done| |]|by intros ? ? []].
      - intros row row' H1 H2. unfold absent. by rewrite H1, H2.
      - pose proof Ho as (_ & _ & row & Hrow & _ & _ & _ & Hd). intros row' H' _. congruence. }
    eapply triple_bind.
    + apply (triple_outbox _ _ _ (λ _, owned r rest (λ row fs, absent row fs ∧ truthy_opt (last_attempt_at row) = true))).
      * intros ob fs H. split; [eapply owned_weaken; [exact (proj1 H)|done]|].
        eapply owned_weaken; [by apply Hstart|done].
      * intros ob fs a ob' H E. pose proof (Hstart _ _ H) as H'. by rewrite E in H'.
    + intros ?. apply triple_files.
      * intros ob fs H. split; [by eapply owned_weaken|]. by apply owned_append.
      * intros ob fs o fs' H E. by apply (owned_append r rest ob fs).
  - intros o. eapply triple_bind; [by apply triple_now|]. intros s.
    eapply (triple_bind _ _ _ (λ _, loop_inv rest)); [|intros; by apply triple_ret].
    apply triple_outbox.
    + intros ob fs [H Hs]. split; [by eapply owned_weaken|]. eapply owned_weaken; [by apply owned_markDelivered|done].
    + intros ob fs a ob' [H Hs] E. pose proof (owned_markDelivered _ _ _ _ _ _ H Hs) as [H' _]. by rewrite E in H'.
Qed.

Lemma triple_loop target : ∀ pending count offset,
  triple (loop_inv pending) (drain_loop clock target pending count offset) (λ _, drain_inv) drain_inv.
Proof.
  induction pending as [|r pending IH]; intros count offset; cbn [drain_loop].
  - apply triple_ret. by intros ob fs [].
  - eapply (triple_bind _ _ _ (λ _, loop_inv pending)).
    + eapply (triple_conseq _ (owned r pending (λ row _, r = mapOutboxRow (rec_eventId r) row ∧ delivered_at row = None))
        _ (owned r pending (λ _ _, True)) _ _ (λ _, loop_inv pending)); [|apply loop_inv_cons|done|by intros ob fs [[] _]].
      apply triple_catch.
      * eapply triple_bind; [apply triple_deliver|]. intros o. by apply triple_ret.
      * intros e. eapply triple_bind; [by apply triple_now|]. intros s.
        eapply (triple_bind _ _ _ (λ _, loop_inv pending)); [|intros; by apply triple_ret].
        apply triple_outbox.
        -- intros ob fs [H Hs]. split; [done|]. by eapply owned_markFailed.
        -- intros ob fs a ob' [H Hs] E.
           pose proof (owned_markFailed r pending (λ _ _, True) ob fs s (error_message e) H Hs) as [H' _]. by rewrite E in H'.
    + intros [o|]; [apply IH|]. apply triple_ret. by intros ob fs [].
Qed.

Lemma pending_rows_elem limit sid (ob : gmap string TranscriptOutboxRow) id row :
  (id, row) ∈ pending_rows limit sid ob →
  ob !! id = Some row ∧ delivered_at row = None ∧ in_session sid row = true.
Proof.
  unfold pending_rows. intros H%elem_of_sql_limit. unfold oldest_first in H.
  rewrite order_by_Permutation, list_elem_of_In, filter_In, <-list_elem_of_In, elem_of_map_to_list in H.
  destruct H as [H1 H2]. cbn in H2. unfold is_pending in H2. bools. done.
Qed.

Lemma NoDup_filter_List {A} (p : A → bool) l : NoDup l → NoDup (List.filter p l).
Proof.
  induction 1 as [|x l Hx _ IH]; cbn; [constructor|]. destruct (p x); [|done]. constructor; [|done].
  rewrite list_elem_of_In, filter_In, <-list_elem_of_In. tauto.
Qed.

Lemma sql_limit_sublist {A} n (l : list A) : sublist (sql_limit n l) l.
Proof. unfold sql_limit. destruct (n <? 0); [done|]. apply sublist_take. Qed.

Lemma pending_rows_nodup limit sid (ob : gmap string TranscriptOutboxRow) :
  NoDup (map rec_eventId (map (λ r, mapOutboxRow r.1 r.2) (pending_rows limit sid ob))).
Proof.
  rewrite map_map. change (NoDup ((pending_rows limit sid ob).*1)).
  unfold pending_rows, oldest_first. eapply sublist_NoDup; [|apply fmap_sublist, sql_limit_sublist].
  rewrite order_by_Permutation. apply NoDup_fmap_2_strong.
  - intros [i r] [j s]. rewrite !list_elem_of_In, !filter_In, <-!list_elem_of_In, !elem_of_map_to_list.
    intros [H1 _] [H2 _] E. simpl in E. subst j. congruence.
  - apply NoDup_filter_List, NoDup_map_to_list.
Qed.

Lemma loop_inv_start limit sid ob fs :
  drain_inv ob fs → loop_inv (map (λ r, mapOutboxRow r.1 r.2) (pending_rows limit sid ob)) ob fs.
Proof.
  intros Hi. split; [done|apply pending_rows_nodup|].
  intros r Hr. apply list_elem_of_In, in_map_iff in Hr as ([id row] & <- & Hin). apply list_elem_of_In in Hin.
  apply pending_rows_elem in Hin as (H1 & H2 & _). by exists row.
Qed.

Lemma triple_flush sid target limit :
  triple drain_inv (flushTranscriptOutboxSession clock sid target limit) (λ _, drain_inv) drain_inv.
Proof.
  unfold flushTranscriptOutboxSession.
  eapply (triple_bind _ _ _ (λ pending, loop_inv pending)).
  - apply triple_outbox; [done|]. intros ob fs a ob' H [= <- <-]. by apply loop_inv_start.
  - intros pending. eapply triple_bind; [apply triple_loop|]. intros [count offset].
    destruct target as [id|]; [|by apply triple_ret].
    destruct (_ && _); [|by apply triple_ret].
    eapply (triple_bind _ _ _ (λ _, drain_inv)); [|intros; by apply triple_ret].
    apply triple_outbox; [done|]. by intros ob fs a ob' H [= _ <-].
Qed.
End drain.

(** ** Histories *)

Notation store := (gmap string TranscriptOutboxRow * gmap string (list string))%type.

(** One call on the outbox and the files: an event is queued, or a session is
    drained under some faults, up to the death of the process. *)
Inductive transcript_step (clock : nat → string) (s : store) : store → Prop :=
  | step_enqueue id sid fields at_ :
      stored_event id sid fields →
      transcript_step clock s ((enqueue (JObject fields) at_ s.1).2, s.2)
  | step_drain sid target limit fs n :
      let w := (flushTranscriptOutboxSession clock sid target limit (mkWorld s.1 s.2 fs n)).2 in
      transcript_step clock s (outbox w, files w).

Lemma enqueue_table event at_ (ob : gmap string TranscriptOutboxRow) :
  (enqueue event at_ ob).2 = (sql_insert_ignore (event_string "eventId" event) (new_outbox_row event at_) ob).2.
Proof. reflexivity. Qed.

Lemma drain_inv_enqueue id sid fields at_ ob fs :
  stored_event id sid fields → drain_inv ob fs → drain_inv (enqueue (JObject fields) at_ ob).2 fs.
Proof.
  intros Hev Hi. rewrite enqueue_table. pose proof Hev as [W V I S].
  unfold event_string. cbn [field]. rewrite I. unfold sql_insert_ignore.
  destruct (ob !! id) as [row|] eqn:Hid; [done|]. destruct Hi as [He Hl Hn Hd].
  assert (Hsid : event_string "sessionId" (JObject fields) = sid) by (unfold event_string; cbn; by rewrite S).
  cbn [snd]. split; [| |done|].
  - intros id1 row1 H. apply lookup_insert_Some in H as [[<- <-]|[_ H]]; [|by apply He].
    exists fields. cbn. by rewrite Hsid.
  - intros path lines line Hp Hin. destruct (Hl _ _ _ Hp Hin) as (id1 & row1 & H1 & H2).
    exists id1, row1. rewrite lookup_insert_ne; [done|congruence].
  - intros id1 row1 H. apply lookup_insert_Some in H as [[<- <-]|[_ H]]; [by intros []|by apply (Hd id1)].
Qed.

Lemma transcript_reachable_inv clock (Hc : ∀ n, truthy (clock n) = true) (s s' : store) :
  rtc (transcript_step clock) s s' → drain_inv s.1 s.2 → drain_inv s'.1 s'.2.
Proof.
  induction 1 as [s|s s1 s' H1 _ IH]; intros Hi; [done|]. apply IH. clear IH.
  destruct H1 as [id sid fields at_ He|sid target limit fl n w]; [by eapply drain_inv_enqueue|].
  pose proof (triple_flush clock Hc sid target limit (mkWorld s.1 s.2 fl n) Hi) as H. subst w.
  by destruct (flushTranscriptOutboxSession _ _ _ _ _) as [[] ].
Qed.

Lemma drain_inv_empty : drain_inv ∅ ∅.
Proof. split; intros *; rewrite lookup_empty; done. Qed.

(** C38. Exactly-once delivery: whatever calls fail or interrupt the drains, and
    wherever the process dies, an event is written at most once to its session's
    transcript and to no other; an event recorded as delivered is there, at the
    recorded offset. *)
Theorem transcript_exactly_once clock (s : store) id row path :
  (∀ n, truthy (clock n) = true) → rtc (transcript_step clock) (∅, ∅) s →
  s.1 !! id = Some row → filePathForSession (session_id row) = Ok path →
  (count_occ String.string_dec (default [] (s.2 !! path)) (event_json row) ≤ 1)%nat ∧
  (∀ path' lines, path' ≠ path → s.2 !! path' = Some lines → event_json row ∉ lines) ∧
  (is_Some (delivered_at row) → ∃ before rest,
     s.2 !! path = Some (before ++ event_json row :: rest) ∧ transcript_offset row = Some (file_size before)).
Proof.
  intros Hc Hs Hrow Hp. pose proof (transcript_reachable_inv clock Hc _ _ Hs drain_inv_empty) as Hi.
  split_and!.
  - apply NoDup_count_occ. apply NoDup_ListNoDup. destruct (s.2 !! path) eqn:E; [|constructor].
    by eapply inv_nodup.
  - intros path' lines Hne Hl Hin. destruct (inv_line _ _ Hi _ _ _ Hl Hin) as (id' & row' & Hrow' & E & Hp' & _).
    destruct (event_row_inj id' id row' row) as [_ Hsid]; [by eapply inv_event..|done|].
    rewrite Hsid in Hp'. congruence.
  - intros Hd. destruct (inv_delivered _ _ Hi _ _ Hrow Hd) as (o & Ho & path' & l1 & l2 & Hp' & Hf & ->).
    assert (path' = path) as -> by congruence. by exists l1, l2.
Qed.

(** ** A drain that nothing disturbs *)

Section undisturbed.
Context (clock : nat → string) (clock_truthy : ∀ n, truthy (clock n) = true).

(** The new lines of a file: the events in order, less those already there. *)
Definition new_lines (lines : list string) (rs : list (string * TranscriptOutboxRow)) : list string :=
  List.filter (λ l, bool_decide (l ∉ lines)) (map (λ r, event_json r.2) rs).

Lemma in_outbox_ok {A} (m : M js_error (gmap string TranscriptOutboxRow) A) ob fs n a ob' :
  m ob = (Ok a, ob') → in_outbox m (mkWorld ob fs [] n) = (Ok a, mkWorld ob' fs [] n).
Proof. intros H. unfold in_outbox, attempt, zoom. cbn. by rewrite H. Qed.

Lemma in_files_ok {A} (m : M js_error (gmap string (list string)) A) ob fs n a fs' :
  m fs = (Ok a, fs') → in_files m (mkWorld ob fs [] n) = (Ok a, mkWorld ob fs' [] n).
Proof. intros H. unfold in_files, attempt, zoom. cbn. by rewrite H. Qed.

Lemma look_run ob fs n id row path :
  filePathForSession (session_id row) = Ok path →
  (if truthy_opt (rec_lastAttemptAt (mapOutboxRow id row))
   then in_files (findEventOffset (session_id row) id) else mret None) (mkWorld ob fs [] n) =
  (Ok (look row id (fs !! path)), mkWorld ob fs [] n).
Proof.
  intros Hp. unfold look. cbn [rec_lastAttemptAt mapOutboxRow]. destruct (truthy_opt _); [|done].
  apply in_files_ok. unfold findEventOffset. by rewrite Hp.
Qed.

Lemma run_update cond f id (ob : gmap string TranscriptOutboxRow) row :
  ob !! id = Some row → cond row = true →
  outbox_update cond f id ob = (Ok (Some (mapOutboxRow id (f row))), <[id := f row]> ob).
Proof.
  intros Hid Hc. unfold outbox_update, get, gets. rewrite (sql_update_eq _ _ _ _ _ Hid Hc). cbn [snd].
  by rewrite lookup_insert_eq.
Qed.

(** Delivering one record. *)
Lemma deliver_ok rest id row path ob fs n :
  loop_inv (mapOutboxRow id row :: rest) ob fs → ob !! id = Some row → delivered_at row = None →
  filePathForSession (session_id row) = Ok path →
  ∃ o ob' n' row',
    deliver clock (mapOutboxRow id row) (mkWorld ob fs [] n) =
      (Ok o, mkWorld ob' (if bool_decide (event_json row ∈ default [] (fs !! path)) then fs
                          else <[path := default [] (fs !! path) ++ [event_json row]]> fs) [] n') ∧
    ob' !! id = Some row' ∧ is_Some (delivered_at row') ∧ (∀ id', id' ≠ id → ob' !! id' = ob !! id').
Proof.
  intros Hl Hid Hnone Hp. pose proof (li_inv _ _ _ Hl) as Hi.
  pose proof (look_spec ob fs id row path Hi Hid Hp) as Hlook. unfold deliver.
  change (rec_eventId (mapOutboxRow id row)) with id. change (rec_sessionId (mapOutboxRow id row)) with (session_id row).
  erewrite bind_run by (by apply look_run).
  destruct (look row id (fs !! path)) as [o|].
  - destruct Hlook as (path' & l1 & l2 & Hp' & Hf & ->). assert (path' = path) as -> by congruence.
    rewrite bool_decide_eq_true_2 by (rewrite Hf; cbn; set_solver).
    erewrite bind_run by reflexivity. erewrite bind_run by reflexivity.
    erewrite bind_run by (apply in_outbox_ok; by apply run_update).
    eexists _, _, _, _. split; [reflexivity|]. split; [apply lookup_insert_eq|]. split; [by eexists|].
    intros id' Hne. by rewrite lookup_insert_ne.
  - rewrite bool_decide_eq_false_2 by done.
    destruct (inv_event _ _ Hi _ _ Hid) as (fields & E & [W V I Sid]).
    assert (Hev : rec_event (mapOutboxRow id row) = JObject fields) by (cbn; rewrite E; by apply parse_stored_event).
    set (row1 := row <| last_attempt_at := Some (clock n) |>).
    assert (Hrun : ∀ k : Z → M stop DrainWorld Z,
      ((attemptedAt ← now clock; in_outbox (markAttemptStarted id attemptedAt) ;;
        in_files (append (rec_event (mapOutboxRow id row)))) ≫= k) (mkWorld ob fs [] n) =
      k (file_size (default [] (fs !! path))) (mkWorld (<[id := row1]> ob)
        (<[path := default [] (fs !! path) ++ [event_json row]]> fs) [] (S n))).
    { intros k. apply bind_run. erewrite bind_run by reflexivity.
      erewrite bind_run by (apply in_outbox_ok; apply run_update; [exact Hid|unfold is_pending; by rewrite Hnone]).
      apply in_files_ok. rewrite Hev. unfold append, event_string. cbn [field]. by rewrite Sid, Hp, E. }
    rewrite Hrun. erewrite bind_run by reflexivity.
    erewrite bind_run by (apply in_outbox_ok; apply (run_update _ _ _ _ row1); [apply lookup_insert_eq|done]).
    eexists _, _, _, _. split; [reflexivity|]. split; [apply lookup_insert_eq|]. split; [by eexists|].
    intros id' Hne. rewrite lookup_insert_ne by congruence. exact (lookup_insert_ne ob id id' row1 (not_eq_sym Hne)).
Qed.

Lemma file_after path row (fs : gmap string (list string)) :
  default [] ((if bool_decide (event_json row ∈ default [] (fs !! path)) then fs
               else <[path := default [] (fs !! path) ++ [event_json row]]> fs) !! path) =
  default [] (fs !! path) ++ new_lines (default [] (fs !! path)) [("", row)].
Proof.
  unfold new_lines. cbn [map List.filter snd]. case_bool_decide as H.
  - rewrite bool_decide_eq_false_2 by auto. by rewrite app_nil_r.
  - rewrite bool_decide_eq_true_2 by done. by rewrite lookup_insert_eq.
Qed.

Lemma new_lines_cons lines id row rs :
  (∀ r, r ∈ rs → event_json r.2 ≠ event_json row) →
  new_lines lines [("", row)] ++ new_lines (lines ++ new_lines lines [("", row)]) rs = new_lines lines ((id, row) :: rs).
Proof.
  intros Hne. unfold new_lines at 4. cbn [map List.filter snd].
  assert (Hrest : new_lines (lines ++ new_lines lines [("", row)]) rs = new_lines lines rs).
  { unfold new_lines at 1 3. apply filter_ext_in. intros l Hl. apply in_map_iff in Hl as (r & <- & Hr).
    apply list_elem_of_In in Hr. apply bool_decide_ext. rewrite elem_of_app.
    unfold new_lines. cbn [map List.filter snd].
    pose proof (Hne r Hr). case_bool_decide; rewrite ?elem_of_nil, ?list_elem_of_singleton; tauto. }
  rewrite Hrest. unfold new_lines at 1. cbn [map List.filter snd]. by case_bool_decide.
Qed.

(** The loop delivers all of its records. *)
Lemma loop_ok target path : ∀ rs ob fs n count offset,
  loop_inv (map (λ r, mapOutboxRow r.1 r.2) rs) ob fs →
  (∀ r, r ∈ rs → ob !! r.1 = Some r.2 ∧ delivered_at r.2 = None ∧ filePathForSession (session_id r.2) = Ok path) →
  ∃ offset' w', drain_loop clock target (map (λ r, mapOutboxRow r.1 r.2) rs) count offset (mkWorld ob fs [] n) =
      (Ok (count + Z.of_nat (length rs), offset'), w') ∧ faults w' = [] ∧
    (∀ r, r ∈ rs → ∃ row', outbox w' !! r.1 = Some row' ∧ is_Some (delivered_at row')) ∧
    (∀ id, id ∉ rs.*1 → outbox w' !! id = ob !! id) ∧
    default [] (files w' !! path) = default [] (fs !! path) ++ new_lines (default [] (fs !! path)) rs.
Proof.
  induction rs as [|[id row] rs IH]; intros ob fs n count offset Hl Hrs.
  - exists offset, (mkWorld ob fs [] n). cbn. rewrite Z.add_0_r, app_nil_r. split_and!; try done.
    intros r H. by apply elem_of_nil in H.
  - destruct (Hrs (id, row)) as (Hid & Hnone & Hp); [left|]. cbn [fst snd] in *.
    destruct (deliver_ok _ id row path ob fs n Hl Hid Hnone Hp) as (o & ob' & n' & row' & Hd & Hid' & Hdel & Hother).
    set (fs' := if bool_decide _ then _ else _) in Hd.
    pose proof (triple_deliver clock clock_truthy (mapOutboxRow id row) _ (mkWorld ob fs [] n) (loop_inv_cons _ _ _ _ Hl)) as Hl'.
    rewrite Hd in Hl'. cbn [outbox files] in Hl'.
    cbn [map drain_loop fst snd].
    erewrite bind_run; [|unfold catch, try_catch; erewrite bind_run by exact Hd; reflexivity].
    assert (Hni : id ∉ rs.*1).
    { pose proof (li_nodup _ _ _ Hl) as Hnd. rewrite map_map in Hnd.
      change (NoDup (id :: map (λ r : string * TranscriptOutboxRow, r.1) rs)) in Hnd.
      by apply NoDup_cons in Hnd as [Hnd _]. }
    destruct (IH ob' fs' n' (count + 1)
      (if bool_decide (target = Some (rec_eventId (mapOutboxRow id row))) then o else offset) Hl') as
      (offset' & w' & Hrun & Hf & Hdone & Hrest & Hfile).
    { intros r Hr. destruct (Hrs r) as (H1 & H2 & H3); [by right|]. split; [|done]. rewrite Hother; [done|].
      intros E. apply Hni. rewrite <-E. by apply list_elem_of_fmap_2. }
    exists offset', w'. rewrite Hrun. split_and!.
    + f_equal. f_equal. cbn [length]. f_equal. lia.
    + done.
    + intros r [->|Hr]%elem_of_cons; [|by apply Hdone]. exists row'. by rewrite Hrest.
    + intros id' H. rewrite Hrest, Hother; set_solver.
    + rewrite Hfile. pose proof (file_after path row fs) as Hfa. fold fs' in Hfa. rewrite Hfa.
      rewrite <-app_assoc. f_equal. apply new_lines_cons. intros r Hr E.
      destruct (Hrs r) as (H1 & _); [by right|]. pose proof (li_inv _ _ _ Hl) as Hi.
      destruct (event_row_inj r.1 id r.2 row) as [<- _]; [by eapply inv_event..|done|].
      apply Hni. by apply list_elem_of_fmap_2.
Qed.
End undisturbed.

(** C39. A drain that nothing disturbs finishes the job: it returns, delivers
    every pending event of the session within the limit of the call (the hundred
    oldest when it gives none), touches no other event, and leaves in the
    transcript its old lines followed by these events in queue order, less those
    an interrupted drain had already written. *)
Theorem undisturbed_drain_delivers clock (s : store) sid target limit path n :
  (∀ n, truthy (clock n) = true) → rtc (transcript_step clock) (∅, ∅) s →
  truthy sid = true → filePathForSession sid = Ok path →
  let pending := pending_rows (default 100 limit) (Some sid) s.1 in
  let old := default [] (s.2 !! path) in
  ∃ offset w',
    flushTranscriptOutboxSession clock sid target limit (mkWorld s.1 s.2 [] n) =
      (Ok (Z.of_nat (length pending), offset), w') ∧
    (∀ r, r ∈ pending → ∃ row, outbox w' !! r.1 = Some row ∧ is_Some (delivered_at row)) ∧
    (∀ id, id ∉ pending.*1 → outbox w' !! id = s.1 !! id) ∧
    default [] (files w' !! path) = old ++ new_lines old pending.
Proof.
  intros Hc Hs Hsid Hp pending old. pose proof (transcript_reachable_inv clock Hc _ _ Hs drain_inv_empty) as Hi.
  destruct (loop_ok clock Hc target path pending s.1 s.2 n 0 0) as (offset & w' & Hrun & Hf & Hdone & Hrest & Hfile).
  - by apply loop_inv_start.
  - intros [id row] (H1 & H2 & H3)%pending_rows_elem. unfold in_session in H3. rewrite Hsid in H3. bools.
    cbn. split_and!; [done..|]. by rewrite H3.
  - unfold flushTranscriptOutboxSession. erewrite bind_run by (apply in_outbox_ok; reflexivity). fold pending.
    erewrite bind_run by exact Hrun. destruct w' as [ob' fs' fl' n']. cbn [faults] in Hf. subst fl'.
    destruct target as [id|]; [|by eexists _, _].
    destruct (_ && _); [|by eexists _, _].
    erewrite bind_run by (apply in_outbox_ok; reflexivity). by eexists _, _.
Qed.
