(* ===== verification/IngestTables.v ===== *)
(** * The tables that ingest writes

    The write path of chat-message-repo.ts: the table [chat_messages], keyed by
    [message_id], and [upsert]; the autoincremented [seq], which only the listings
    read, is left out, and [source_authority] is typed, so its run-time check
    always passes.  Then packages/gateway-core/src/token-cost-ledger.ts and the
    write path of packages/storage/src/cost-ledger-repo.ts: the rows of
    [cost_ledger] by their autoincremented id, on the current schema (every
    optional column is there); [insertCount] lives in the repository object, so a
    rollback does not undo it. *)
From S2P Require Import Prelude.
From S2P Require Import JsString.
From S2P Require Import Errors.
From S2P Require Import JsJson.
From S2P Require Import SessionContracts.
From S2P Require Import JsNumber.
From S2P Require Import JsTime.

Record ChatMessageRecord := mkChatMessage {
  messageId : string;
  cm_sessionId : string;
  cm_role : MessageRole;
  cm_actorType : ActorType;
  cm_actorId : string;
  cm_sourceAuthority : ChatMessageSourceAuthority;
  cm_content : string;
  cm_timestamp : string;
  cm_tokenInput : option numeral;
  cm_tokenOutput : option numeral;
  cm_costUsd : option numeral;
  cm_parts : option (list json);
  cm_attachments : option (list json);
  cm_steered : option bool;
  cm_parentDelegationStepId : option string;
}.

(** The columns of a row besides its key. *)
Record ChatMessageRow := mkChatMessageRow {
  msg_session_id : string;
  msg_role : MessageRole;
  msg_actor_type : ActorType;
  msg_actor_id : string;
  msg_source_authority : option ChatMessageSourceAuthority;
  msg_content : string;
  msg_parts_json : option string;
  msg_attachments_json : option string;
  msg_timestamp : string;
  msg_token_input : option numeral;
  msg_token_output : option numeral;
  msg_cost_usd : option numeral;
  msg_created_at : string;
  msg_steered : option Z;
  msg_parent_delegation_step_id : option string;
}.

#[export] Instance ChatMessageRow_eta : Eta ChatMessageRow := λ r,
  mkChatMessageRow (msg_session_id r) (msg_role r) (msg_actor_type r) (msg_actor_id r) (msg_source_authority r)
    (msg_content r) (msg_parts_json r) (msg_attachments_json r) (msg_timestamp r) (msg_token_input r)
    (msg_token_output r) (msg_cost_usd r) (msg_created_at r) (msg_steered r) (msg_parent_delegation_step_id r).

(** The row inserted for a message ([now] is the clock's default). *)
Definition message_row (now : string) (m : ChatMessageRecord) : ChatMessageRow :=
  mkChatMessageRow (cm_sessionId m) (cm_role m) (cm_actorType m) (cm_actorId m) (Some (cm_sourceAuthority m))
    (cm_content m) ((json_stringify ∘ JArray) <$> cm_parts m) ((json_stringify ∘ JArray) <$> cm_attachments m)
    (cm_timestamp m) (cm_tokenInput m) (cm_tokenOutput m) (cm_costUsd m)
    (if truthy (cm_timestamp m) then cm_timestamp m else now)
    ((λ b : bool, if b then 1 else 0) <$> cm_steered m) (cm_parentDelegationStepId m).

(** [ON CONFLICT(message_id) DO UPDATE]: the session, the authority and the
    creation date of the stored row are kept. *)
Definition message_conflict (old new : ChatMessageRow) : ChatMessageRow :=
  new <| msg_session_id := msg_session_id old |> <| msg_source_authority := msg_source_authority old |>
      <| msg_created_at := msg_created_at old |>.

Definition messages_upsert (now : string) (m : ChatMessageRecord) : M js_error (gmap string ChatMessageRow) unit :=
  modify (sql_upsert message_conflict (messageId m) (message_row now m)).

(** A message that is written again keeps its session and its authority: a
    later write cannot claim a stronger provenance. *)
Lemma messages_upsert_keeps now m (t : gmap string ChatMessageRow) row :
  t !! messageId m = Some row →
  ∃ row', (messages_upsert now m t).2 !! messageId m = Some row' ∧
    msg_source_authority row' = msg_source_authority row ∧ msg_session_id row' = msg_session_id row ∧
    msg_created_at row' = msg_created_at row ∧ msg_content row' = cm_content m.
Proof.
  intros H. unfold messages_upsert, modify. cbn [snd]. rewrite sql_upsert_lookup, decide_True, H by done.
  eexists. by split.
Qed.

(** ** Cost ledger (packages/gateway-core/src/token-cost-ledger.ts and the write *)

Record CostLedgerRecord := mkLedgerRecord {
  led_sessionId : string;
  led_agentId : option string;
  led_taskId : option string;
  led_providerId : option string;
  led_modelId : option string;
  led_credentialType : option CredentialType;
  led_usagePool : option UsagePool;
  led_tokenInput : number;
  led_tokenOutput : number;
  led_tokenCachedInput : number;
  led_costUsd : number;
  led_createdAt : string;
  led_usageKnownMask : option string;
}.

(** A stored row. *)
Record CostLedgerRow := mkLedgerRow {
  row_session_id : string;
  row_agent_id : option string;
  row_task_id : option string;
  row_provider_id : option string;
  row_model_id : option string;
  row_day : string;
  row_token_input : number;
  row_token_output : number;
  row_token_cached_input : number;
  row_cost_usd : number;
  row_created_at : string;
  row_credential_type : option string;
  row_usage_pool : option string;
  row_usage_known_mask : option string;
}.

Record CostLedgerState := mkLedger {
  ledger_rows : gmap Z CostLedgerRow;
  next_ledger_id : Z;
}.

Definition normalizeOptionalText (value : option string) : option string :=
  match trim <$> value with
  | Some t => if truthy t then Some t else None
  | None => None
  end.

Definition ledger_row (r : CostLedgerRecord) : CostLedgerRow :=
  mkLedgerRow (led_sessionId r) (led_agentId r) (led_taskId r) (normalizeOptionalText (led_providerId r))
    (normalizeOptionalText (led_modelId r)) (string_take 10 (led_createdAt r)) (led_tokenInput r) (led_tokenOutput r)
    (led_tokenCachedInput r) (led_costUsd r) (led_createdAt r)
    (normalizeOptionalText (credentialType_text <$> led_credentialType r))
    (normalizeOptionalText (usagePool_text <$> led_usagePool r))
    (Some (default "input,output,cached,cost" (led_usageKnownMask r))).

Definition ledger_insertStmt (r : CostLedgerRecord) (l : CostLedgerState) : CostLedgerState :=
  mkLedger (<[next_ledger_id l := ledger_row r]> (ledger_rows l)) (next_ledger_id l + 1).

(** [DELETE FROM cost_ledger WHERE created_at < @cutoff]. *)
Definition pruneStmt (cutoff : string) (l : CostLedgerState) : CostLedgerState :=
  mkLedger (filter (λ x, string_ltb (row_created_at x.2) cutoff = false) (ledger_rows l)) (next_ledger_id l).

Definition ninety_days : Z := 90 * 24 * 60 * 60 * 1000.

(** [insert]: the state is the table and [insertCount]; every fiftieth insert
    prunes what is older than ninety days ([Date.now()] is [nowMs]). *)
Definition ledger_insert (nowMs : Z) (r : CostLedgerRecord) : M js_error (CostLedgerState * Z) unit := λ s,
  let '(l, insertCount) := s in
  let nextInsertCount := insertCount + 1 in
  let l1 := ledger_insertStmt r l in
  if nextInsertCount mod 50 =? 0 then
    match to_iso (nowMs - ninety_days) with
    | None => (Err (JsRangeError "Invalid time value"), s)
    | Some cutoff => (Ok tt, (pruneStmt cutoff l1, nextInsertCount))
    end
  else (Ok tt, (l1, nextInsertCount)).

Record UsageInput := mkUsageInput {
  use_sessionId : string;
  use_agentId : option string;
  use_taskId : option string;
  use_providerId : option string;
  use_modelId : option string;
  use_credentialType : option CredentialType;
  use_usagePool : option UsagePool;
  use_tokenInput : option number;
  use_tokenOutput : option number;
  use_tokenCachedInput : option number;
  use_costUsd : option number;
  use_timestamp : string;
}.

Definition known {A} (name : string) (v : option A) : list string :=
  match v with Some _ => [name] | None => [] end.

Definition knownMetrics (i : UsageInput) : list string :=
  known "input" (use_tokenInput i) ++ known "output" (use_tokenOutput i) ++
  known "cached" (use_tokenCachedInput i) ++ known "cost" (use_costUsd i).

Definition hasUsageEvidence (i : UsageInput) : bool :=
  (0 <? Z.of_nat (length (knownMetrics i))) ||
  truthy_opt (use_providerId i) || truthy_opt (use_modelId i) ||
  bool_decide (is_Some (use_credentialType i)) || bool_decide (is_Some (use_usagePool i)).

Definition record (nowMs : Z) (i : UsageInput) : M js_error (CostLedgerState * Z) bool :=
  if negb (hasUsageEvidence i) then mret false
  else
    ledger_insert nowMs (mkLedgerRecord (use_sessionId i) (use_agentId i) (use_taskId i) (use_providerId i)
      (use_modelId i) (use_credentialType i) (use_usagePool i) (default (num_of_Z 0) (use_tokenInput i))
      (default (num_of_Z 0) (use_tokenOutput i)) (default (num_of_Z 0) (use_tokenCachedInput i))
      (default (num_of_Z 0) (use_costUsd i)) (use_timestamp i) (Some (join "," (knownMetrics i)))) ;;
    mret true.

(** Ids below the counter only. *)
Definition ledger_wf (l : CostLedgerState) : Prop := ∀ k, next_ledger_id l ≤ k → ledger_rows l !! k = None.

Lemma ledger_insert_wf nowMs r (s : CostLedgerState * Z) : ledger_wf s.1 → ledger_wf (ledger_insert nowMs r s).2.1.
Proof.
  destruct s as [l n]. intros Hl. unfold ledger_insert.
  assert (H1 : ledger_wf (ledger_insertStmt r l)).
  { intros k Hk. cbn in *. rewrite lookup_insert_ne by lia. apply Hl. lia. }
  destruct (_ =? 0); [|done]. destruct (to_iso _) as [c|]; [|done]. intros k Hk. cbn.
  apply map_lookup_filter_None. left. by apply H1.
Qed.
