(* ===== verification/EventIngest.v ===== *)
(** * Event ingest (packages/gateway-core/src/event-ingest.ts)

    [ingest] records one gateway event: the duplicate check, the transaction
    over the tables, then the drain of the outbox.  SHA-256, [randomUUID()] and
    the clock are arguments ([ingest_env]).  The faults of the drain are those
    of TranscriptDrain; a failure inside the transaction is a throw of one of
    its calls, [onCommit] included. *)
From S2P Require Import Prelude.
From S2P Require Import JsString.
From S2P Require Import JsNumber.
From S2P Require Import Errors.
From S2P Require Import JsJson.
From S2P Require Import JsJsonText.
From S2P Require Import JsObject.
From S2P Require Import SessionContracts.
From S2P Require Import SessionKey.
From S2P Require Import InboundEvents.
From S2P Require Import Sessions.
From S2P Require Import IngestTables.
From S2P Require Import TranscriptOutbox.
From S2P Require Import TranscriptDrain.

(** ** State *)

(** The columns of [model_usage_events] that ingest reads. *)
Record UsageEventRow := mkUsageEvent {
  ue_workspaceId : option string;
  ue_sessionId : option string;
  ue_turnId : option string;
  ue_taskId : option string;
  ue_transportStatus : string;
  ue_terminalOutcome : string;
}.

(** The tables.  [chat_session_meta] is read for its workspace and
    [chat_turn_traces] for its session. *)
Record IngestDb := mkDb {
  inbound_events : gmap (string * string) InboundEventRow;
  sessions : gmap string SessionRow;
  chat_messages : gmap string ChatMessageRow;
  transcript_outbox : gmap string TranscriptOutboxRow;
  cost_ledger : CostLedgerState;
  chat_session_meta : gmap string string;
  chat_turn_traces : gmap string string;
  model_usage_events : gmap string UsageEventRow;
}.

#[export] Instance IngestDb_eta : Eta IngestDb := λ d,
  mkDb (inbound_events d) (sessions d) (chat_messages d) (transcript_outbox d) (cost_ledger d)
    (chat_session_meta d) (chat_turn_traces d) (model_usage_events d).

(** The service: its tables, the memory of its objects, the transcript files and
    the world the drains meet. *)
Record Gateway := mkGateway {
  db : IngestDb;
  ledgerInsertCount : Z;
  subscriptionUsageWarned : bool;
  transcript_files : gmap string (list string);
  world_faults : list fault;
  world_ticks : nat;
}.

#[export] Instance Gateway_eta : Eta Gateway := λ g,
  mkGateway (db g) (ledgerInsertCount g) (subscriptionUsageWarned g) (transcript_files g)
    (world_faults g) (world_ticks g).

Notation ingest_M := (M stop Gateway).

(** One repository call. *)
Definition call {S A} (get : IngestDb → S) (set : S → IngestDb → IngestDb) (m : M js_error S A) : ingest_M A := λ g,
  let '(r, s) := m (get (db g)) in
  (match r with Ok a => Ok a | Err e => Err (Thrown e) end, g <| db := set s (db g) |>).

Definition in_inbound {A} := @call _ A inbound_events (λ t d, d <| inbound_events := t |>).
Definition in_sessions {A} := @call _ A sessions (λ t d, d <| sessions := t |>).
Definition in_messages {A} := @call _ A chat_messages (λ t d, d <| chat_messages := t |>).
Definition in_queue {A} := @call _ A transcript_outbox (λ t d, d <| transcript_outbox := t |>).

Definition lift_res {A} (r : res A) : ingest_M A :=
  lift (match r with Ok a => Ok a | Err e => Err (Thrown e) end).

(** [runImmediateTransaction]: a throw undoes the tables, not the memory. *)
Definition runImmediateTransaction {A} (m : ingest_M A) : ingest_M A := λ g,
  match m g with
  | (Ok a, g') => (Ok a, g')
  | (Err e, g') => (Err e, g' <| db := db g |>)
  end.

Record ingest_env := mkEnv {
  sha256_hex : string → string;
  randomUUID : string;
  clock : nat → string;
  dateNow : Z;
}.

Record EventIngestOptions := mkOptions {
  endpoint : string;
  idempotencyKey : string;
  payload : GatewayEventInput;
  sourceAuthority : option ChatMessageSourceAuthority;
  onCommit : option (M stop Gateway unit);
  afterCommit : option (M stop Gateway unit);
}.

Definition read_clock (env : ingest_env) : ingest_M string := λ g,
  (Ok (clock env (world_ticks g)), g <| world_ticks := S (world_ticks g) |>).

(** ** Helpers *)

(** The credential class and the billing pool. *)
Definition deriveCredentialDims (usage : option EventUsage) : option CredentialType * option UsagePool :=
  match usage with
  | Some u =>
      if bool_decide (is_Some (credentialType u)) || bool_decide (is_Some (usagePool u))
      then (credentialType u, usagePool u)
      else
        match (to_lower ∘ trim) <$> providerId u with
        | Some p =>
            if negb (truthy p) then (None, None)
            else if bool_decide (p = "claude-code") then (Some cred_oauth, Some pool_subscription)
            else (Some cred_api_key, Some pool_standard)
        | None => (None, None)
        end
  | None => (None, None)
  end.

Definition hashPayload (env : ingest_env) (p : GatewayEventInput) : string :=
  sha256_hex env (json_stringify (gateway_event_value p)).

Definition MAX_CANONICAL_USAGE_EVENT_IDS : Z := 128.
Definition MAX_CANONICAL_USAGE_ID_LENGTH : Z := 512.
Definition MAX_CANONICAL_USAGE_OWNER_LENGTH : Z := 512.

Definition requireCanonicalUsageText (value field : string) (maxLength : Z) : res string :=
  _ ← throw_when ((js_length value =? 0) || (maxLength <? js_length value) || negb (bool_decide (value = trim value)))
    (ValidationError None (Some field) (Some (field +:+ " is invalid")));
  Ok value.

Definition invalid_ids (msg : string) : js_error :=
  ValidationError None (Some "usage.canonicalUsageEventIds") (Some msg).

(** One reference of the loop; [seen] is the set of the ids before it. *)
Definition validateUsageReference (d : IngestDb) (task : option string) (workspaceId sessionId turnId : string)
    (seen : list string) (candidate : string) : res unit :=
  eventId ← requireCanonicalUsageText candidate "usage.canonicalUsageEventIds" MAX_CANONICAL_USAGE_ID_LENGTH;
  _ ← throw_when (bool_decide (eventId ∈ seen)) (invalid_ids "canonical usage event ids must be unique");
  match model_usage_events d !! eventId with
  | None => Err (ConflictError None "canonical usage event is unavailable")
  | Some r =>
      _ ← throw_when (negb (bool_decide (ue_workspaceId r = Some workspaceId)) ||
          negb (bool_decide (ue_sessionId r = Some sessionId)) || negb (bool_decide (ue_turnId r = Some turnId)) ||
          negb (bool_decide (ue_taskId r = task)))
        (ConflictError None "canonical usage event owner does not match the ingest owner");
      throw_when (negb (bool_decide (ue_transportStatus r = "accepted")) ||
          bool_decide (ue_terminalOutcome r = "in_flight"))
        (ConflictError None "canonical usage event is not terminal and accepted")
  end.

Fixpoint validateUsageReferences (d : IngestDb) (task : option string) (workspaceId sessionId turnId : string)
    (seen ids : list string) : res unit :=
  match ids with
  | [] => Ok tt
  | id :: ids' =>
      _ ← validateUsageReference d task workspaceId sessionId turnId seen id;
      validateUsageReferences d task workspaceId sessionId turnId (id :: seen) ids'
  end.

Definition validateCanonicalUsageReferences (p : GatewayEventInput) (r : SessionRouteResolution) (d : IngestDb)
    : res bool :=
  let owner := usage p ≫= canonicalUsageOwner in
  match usage p ≫= canonicalUsageEventIds with
  | None =>
      _ ← throw_when (bool_decide (is_Some owner)) (invalid_ids "canonical usage owner requires canonical usage event ids");
      Ok false
  | Some ids =>
      match owner with
      | None => Err (ValidationError (Some FIELD_REQUIRED) (Some "usage.canonicalUsageOwner") None)
      | Some owner =>
          _ ← throw_when ((Z.of_nat (length ids) =? 0) || (MAX_CANONICAL_USAGE_EVENT_IDS <? Z.of_nat (length ids)))
            (invalid_ids "canonical usage event ids must contain 1-128 entries");
          workspaceId ← requireCanonicalUsageText (owner_workspaceId owner)
            "usage.canonicalUsageOwner.workspaceId" MAX_CANONICAL_USAGE_OWNER_LENGTH;
          sid ← requireCanonicalUsageText (owner_sessionId owner)
            "usage.canonicalUsageOwner.sessionId" MAX_CANONICAL_USAGE_OWNER_LENGTH;
          turnId ← requireCanonicalUsageText (owner_turnId owner)
            "usage.canonicalUsageOwner.turnId" MAX_CANONICAL_USAGE_OWNER_LENGTH;
          _ ← throw_when (negb (bool_decide (sid = res_sessionId r)))
            (ConflictError None "canonical usage owner does not match the ingest session");
          _ ← throw_when (negb (bool_decide (chat_session_meta d !! sid = Some workspaceId)))
            (ConflictError None "canonical usage workspace does not match the authoritative session owner");
          match chat_turn_traces d !! turnId with
          | None => Err (ConflictError None "canonical usage turn is unavailable")
          | Some turnSession =>
              _ ← throw_when (negb (bool_decide (turnSession = sid)))
                (ConflictError None "canonical usage turn does not match the authoritative session owner");
              _ ← validateUsageReferences d (taskId p) workspaceId sid turnId [] ids;
              Ok true
          end
      end
  end.

(** [toChatMessageRecord]: the message fields of the event's payload, each
    checked for its type. *)
Definition toChatMessageRecord (e : TranscriptEvent) : ChatMessageRecord :=
  let m (k : string) : option json := lookup_field "message" (ev_payload e) ≫= field k in
  mkChatMessage (ev_eventId e) (ev_sessionId e)
    (match m "role" with
     | Some (JString s) => if bool_decide (s = "assistant") then role_assistant else role_user
     | _ => role_user
     end)
    (ev_actorType e) (ev_actorId e) (ev_sourceAuthority e)
    (match m "content" with Some (JString s) => s | _ => "" end)
    (ev_timestamp e) (ev_tokenInput e) (ev_tokenOutput e) (ev_costUsd e)
    (match m "parts" with Some (JArray l) => Some l | _ => None end)
    (match m "attachments" with Some (JArray l) => Some l | _ => None end)
    (match m "steered" with Some (JBool b) => Some b | _ => None end)
    (match m "parentDelegationStepId" with
     | Some (JString s) => if 0 <? js_length s then Some s else None
     | _ => None
     end).

(** [resolveDedupSession]: the stored session, or a minimal one when its row is
    gone. *)
Definition resolveDedupSession (existing : InboundEventIndexRow) (r : SessionRouteResolution)
    (payloadRoute : SessionRouteInput) : ingest_M SessionMeta :=
  try_catch (in_sessions (getBySessionKey (in_sessionKey existing)))
    (λ e, match e with
          | Thrown err =>
              if negb (is_not_found err) then throw e
              else
                mret (mkSession (res_sessionId r) (in_sessionKey existing) (res_kind r)
                  (route_channel payloadRoute) (route_account payloadRoute) None None
                  (in_receivedAt existing) (default (in_receivedAt existing) (in_processedAt existing))
                  healthy 0 0 0 0 (num_of_Z 0) budget_ok)
          | Died => throw e
          end).

Definition buildDedupResult (existing : InboundEventIndexRow) (incomingPayloadHash : string)
    (r : SessionRouteResolution) (payloadRoute : SessionRouteInput) : ingest_M GatewayEventResult :=
  session ← resolveDedupSession existing r payloadRoute;
  mret (mkResult (bool_decide (in_payloadHash existing = incomingPayloadHash)) true session 0).

(** The drain, on the gateway's outbox and files. *)
Definition drain (env : ingest_env) (sid : string) (target : option string) (limit : option Z) : ingest_M (Z * Z) := λ g,
  let '(r, w) := flushTranscriptOutboxSession (clock env) sid target limit
    (mkWorld (transcript_outbox (db g)) (transcript_files g) (world_faults g) (world_ticks g)) in
  (r, g <| db := (db g) <| transcript_outbox := outbox w |> |> <| transcript_files := files w |>
        <| world_faults := faults w |> <| world_ticks := ticks w |>).

(** [recordCost]: [tokenCostLedger.record], with the counter in memory. *)
Definition record_cost (env : ingest_env) (i : UsageInput) : ingest_M bool := λ g,
  let '(r, (l, n)) := record (dateNow env) i (cost_ledger (db g), ledgerInsertCount g) in
  (match r with Ok a => Ok a | Err e => Err (Thrown e) end,
   g <| db := (db g) <| cost_ledger := l |> |> <| ledgerInsertCount := n |>).

(** ** Ingest *)

Definition inbound_index_row (env : ingest_env) (o : EventIngestOptions) (r : SessionRouteResolution) (at_ : string)
    : InboundEventIndexRow :=
  mkInbound (endpoint o) (idempotencyKey o) (eventId (payload o)) (res_sessionKey r) (hashPayload env (payload o))
    at_ None accepted.

Definition transcript_event (env : ingest_env) (o : EventIngestOptions) (r : SessionRouteResolution) (at_ : string)
    : TranscriptEvent :=
  let p := payload o in
  mkEvent (eventId p) (randomUUID env) (idempotencyKey o) (res_sessionId r) (res_sessionKey r) at_
    (if bool_decide (SessionContracts.msg_role (message p) = role_user) then "message.user" else "message.assistant")
    (actor_type p) (actor_id p) (default unknown_authority (sourceAuthority o))
    ([("message", message_value (message p))] ++ opt_string "taskId" (taskId p))
    (usage p ≫= inputTokens) (usage p ≫= outputTokens) (usage p ≫= costUsd).

Definition num_or_zero (v : option numeral) : number := default (num_of_Z 0) (num_of_literal <$> v).

(** The legacy projection of the usage: session counters and cost ledger. *)
Definition projectUsage (env : ingest_env) (o : EventIngestOptions) (r : SessionRouteResolution) (at_ : string)
    : ingest_M unit :=
  let p := payload o in
  in_sessions (applyUsage (mkDelta (res_sessionId r) (num_or_zero (usage p ≫= inputTokens))
    (num_or_zero (usage p ≫= outputTokens)) (num_or_zero (usage p ≫= cachedInputTokens))
    (num_or_zero (usage p ≫= costUsd)) at_)) ;;
  let dims := deriveCredentialDims (usage p) in
  modify (λ g, if bool_decide (dims.2 = Some pool_subscription) && negb (subscriptionUsageWarned g)
               then g <| subscriptionUsageWarned := true |> else g) ;;
  _ ← record_cost env (mkUsageInput (res_sessionId r)
        (if bool_decide (actor_type p = actor_agent) then Some (actor_id p) else None)
        (taskId p) (usage p ≫= providerId) (usage p ≫= model) dims.1 dims.2
        (num_of_literal <$> (usage p ≫= inputTokens)) (num_of_literal <$> (usage p ≫= outputTokens))
        (num_of_literal <$> (usage p ≫= cachedInputTokens)) (num_of_literal <$> (usage p ≫= costUsd)) at_);
  mret tt.

Definition run_callback (c : option (M stop Gateway unit)) : ingest_M unit := default (mret tt) c.

(** The transaction after the index row was inserted. *)
Definition commitEvent (env : ingest_env) (o : EventIngestOptions) (r : SessionRouteResolution) (at_ : string)
    : ingest_M GatewayEventResult :=
  let p := payload o in
  d ← gets db;
  canonicalUsageValidated ← lift_res (validateCanonicalUsageReferences p r d);
  _ ← in_sessions (sessions_upsert (mkUpsert (res_sessionId r) (res_sessionKey r) (res_kind r)
        (route_channel (route p)) (route_account (route p)) None None at_));
  in_messages (messages_upsert at_ (toChatMessageRecord (transcript_event env o r at_))) ;;
  run_callback (onCommit o) ;;
  (if negb canonicalUsageValidated then projectUsage env o r at_ else mret tt) ;;
  _ ← in_queue (enqueue (transcript_event_value (transcript_event env o r at_)) at_);
  in_inbound (markProcessed (endpoint o) (idempotencyKey o) accepted at_) ;;
  session ← in_sessions (getBySessionId (res_sessionId r));
  mret (mkResult true false session 0).

(** The transaction: a row inserted meanwhile makes the event a duplicate. *)
Definition ingestTransaction (env : ingest_env) (o : EventIngestOptions) (r : SessionRouteResolution) (at_ : string)
    : ingest_M GatewayEventResult :=
  inserted ← in_inbound (insertPendingIfAbsent (inbound_index_row env o r at_));
  if negb inserted then
    concurrent ← in_inbound (find (endpoint o) (idempotencyKey o));
    match concurrent with
    | Some row => buildDedupResult row (hashPayload env (payload o)) r (route (payload o))
    | None => commitEvent env o r at_
    end
  else commitEvent env o r at_.

Definition ingest (env : ingest_env) (o : EventIngestOptions) : ingest_M GatewayEventResult :=
  at_ ← read_clock env;
  r ← lift_res (resolveSessionRoute (sha256_hex env) (route (payload o)));
  existing ← in_inbound (find (endpoint o) (idempotencyKey o));
  match existing with
  | Some row => buildDedupResult row (hashPayload env (payload o)) r (route (payload o))
  | None =>
      result ← runImmediateTransaction (ingestTransaction env o r at_);
      if result_deduped result then mret result
      else
        run_callback (afterCommit o) ;;
        '(_, targetOffset) ← drain env (res_sessionId r) (Some (eventId (payload o))) None;
        mret (mkResult true false (result_session result) targetOffset)
  end.

(** [flushPendingTranscriptOutbox]: one drain per session with pending rows. *)
Fixpoint drainSessions (env : ingest_env) (limit : Z) (sids : list string) (deliveredCount : Z) : ingest_M Z :=
  match sids with
  | [] => mret deliveredCount
  | sid :: sids' =>
      '(count, _) ← drain env sid None (Some limit);
      drainSessions env limit sids' (deliveredCount + count)
  end.

Definition flushPendingTranscriptOutbox (env : ingest_env) (limit : Z) : ingest_M Z :=
  pending ← in_queue (listPending limit None);
  drainSessions env limit (unique (map rec_sessionId pending)) 0.
