(* ===== verification/EventIngestTheorems.v ===== *)
(** * Event ingest: idempotency, atomicity, usage and lost events

    And the check of canonical usage references against the rule it enforces. *)
From S2P Require Import Prelude.
From S2P Require Import JsString.
From S2P Require Import JsNumber.
From S2P Require Import Errors.
From S2P Require Import JsJson.
From S2P Require Import JsJsonText.
From S2P Require Import SessionContracts.
From S2P Require Import SessionKey.
From S2P Require Import InboundEvents.
From S2P Require Import Sessions.
From S2P Require Import SessionTheorems.
From S2P Require Import IngestTables.
From S2P Require Import TranscriptOutbox.
From S2P Require Import TranscriptDrain.
From S2P Require Import TranscriptLog.
From S2P Require Import TranscriptDrainTheorems.
From S2P Require Import EventIngest.

(** ** Steps *)

Lemma call_ok {S A} get set (m : M js_error S A) g a g' :
  call get set m g = (Ok a, g') ↔
  ∃ s, m (get (db g)) = (Ok a, s) ∧ g' = g <| db := set s (db g) |>.
Proof.
  unfold call. destruct (m (get (db g))) as [[a'|e] s]; split.
  - intros [= -> <-]. by exists s.
  - by intros (s' & [= -> ->] & ->).
  - done.
  - by intros (s' & [=] & _).
Qed.

Lemma lift_res_ok {A} (r : res A) g a g' : lift_res r g = (Ok a, g') ↔ r = Ok a ∧ g' = g.
Proof. unfold lift_res, lift. destruct r; naive_solver. Qed.

Lemma lift_res_err {A} (r : res A) g e g' : lift_res r g = (Err e, g') → g' = g.
Proof. unfold lift_res, lift. destruct r; naive_solver. Qed.

Lemma sessions_upsert_ok input t meta t' :
  sessions_upsert input t = (Ok meta, t') → (upsertStmt input t).2 = t'.
Proof. intros H. rewrite <-upsert_table. by rewrite H. Qed.

Lemma getBySessionId_ok id (t t' : gmap string SessionRow) m :
  getBySessionId id t = (Ok m, t') ↔ ∃ row, t !! id = Some row ∧ m = mapSessionRow id row ∧ t' = t.
Proof.
  unfold getBySessionId. rewrite M_gets_bind. destruct (t !! id) as [row|]; split.
  - intros [= <- <-]. by exists row.
  - by intros (row' & [= <-] & -> & ->).
  - done.
  - by intros (row' & [=] & _).
Qed.

Lemma read_clock_ok env g : read_clock env g = (Ok (clock env (world_ticks g)), g <| world_ticks := S (world_ticks g) |>).
Proof. reflexivity. Qed.

(** The tables that ingest owns. *)
Record same_tables (g g' : Gateway) : Prop := {
  same_inbound : inbound_events (db g') = inbound_events (db g);
  same_sessions : sessions (db g') = sessions (db g);
  same_messages : chat_messages (db g') = chat_messages (db g);
  same_outbox : transcript_outbox (db g') = transcript_outbox (db g);
  same_ledger : cost_ledger (db g') = cost_ledger (db g);
}.

(** A callback that leaves these tables to ingest. *)
Definition keeps_tables (c : option (M stop Gateway unit)) : Prop :=
  ∀ g, same_tables g (run_callback c g).2.

Lemma keeps_run c g u g' : keeps_tables c → run_callback c g = (Ok u, g') → same_tables g g'.
Proof. intros Hk H. specialize (Hk g). by rewrite H in Hk. Qed.

Lemma keeps_tables_none : keeps_tables None.
Proof. by intros g. Qed.

(** What the legacy projection of usage leaves. *)
Definition usage_delta (o : EventIngestOptions) (r : SessionRouteResolution) (at_ : string) : SessionUsageDelta :=
  let u := usage (payload o) in
  mkDelta (res_sessionId r) (num_or_zero (u ≫= inputTokens)) (num_or_zero (u ≫= outputTokens))
    (num_or_zero (u ≫= cachedInputTokens)) (num_or_zero (u ≫= costUsd)) at_.

Definition usage_input (o : EventIngestOptions) (r : SessionRouteResolution) (at_ : string) : UsageInput :=
  let p := payload o in
  let dims := deriveCredentialDims (usage p) in
  mkUsageInput (res_sessionId r) (if bool_decide (actor_type p = actor_agent) then Some (actor_id p) else None)
    (taskId p) (usage p ≫= providerId) (usage p ≫= model) dims.1 dims.2
    (num_of_literal <$> (usage p ≫= inputTokens)) (num_of_literal <$> (usage p ≫= outputTokens))
    (num_of_literal <$> (usage p ≫= cachedInputTokens)) (num_of_literal <$> (usage p ≫= costUsd)) at_.

Lemma projectUsage_ok env o r at_ g u g' :
  projectUsage env o r at_ g = (Ok u, g') →
  inbound_events (db g') = inbound_events (db g) ∧ chat_messages (db g') = chat_messages (db g) ∧
  transcript_outbox (db g') = transcript_outbox (db g) ∧
  sessions (db g') = (applyUsage (usage_delta o r at_) (sessions (db g))).2 ∧
  ∃ b, record (dateNow env) (usage_input o r at_) (cost_ledger (db g), ledgerInsertCount g) =
    (Ok b, (cost_ledger (db g'), ledgerInsertCount g')).
Proof.
  unfold projectUsage. rewrite M_bind_ok. intros (u1 & g1 & H1 & H). apply call_ok in H1 as (t1 & H1 & ->).
  rewrite M_bind_ok in H. destruct H as (u2 & g2 & H2 & H). apply modify_ok in H2. subst g2.
  rewrite M_bind_ok in H. destruct H as (b & g3 & H3 & H). injection H as _ <-.
  unfold applyUsage in H1. injection H1 as _ <-. revert H3.
  unfold record_cost. fold (usage_input o r at_).
  destruct (bool_decide _ && _); cbn [db ledgerInsertCount cost_ledger set_field eta Gateway_eta IngestDb_eta];
    destruct (record _ _ _) as [[b'|e] [l n]] eqn:Hrec; intros [= <- <-]; split_and!; try done; by exists b'.
Qed.

(** The check of the usage references reads three tables only. *)
Lemma validate_frame p r d d' :
  chat_session_meta d' = chat_session_meta d → chat_turn_traces d' = chat_turn_traces d →
  model_usage_events d' = model_usage_events d →
  validateCanonicalUsageReferences p r d' = validateCanonicalUsageReferences p r d.
Proof.
  intros Hm Ht Hu.
  assert (Hrefs : ∀ task w s t ids seen,
    validateUsageReferences d' task w s t seen ids = validateUsageReferences d task w s t seen ids).
  { intros task w s t. induction ids as [|id ids IH]; intros seen; cbn [validateUsageReferences]; [done|].
    unfold validateUsageReference. rewrite Hu. apply outcome_bind_ext. intros []. apply IH. }
  unfold validateCanonicalUsageReferences. rewrite Hm, Ht.
  repeat first [done | rewrite Hrefs | apply outcome_bind_ext; intros ? | case_match].
Qed.

(** A committed event, step by step: what the transaction read and wrote. *)
Lemma commitEvent_ok env o r at_ g res g' :
  commitEvent env o r at_ g = (Ok res, g') →
  ∃ canonical meta t1 g2 g3 session row,
    validateCanonicalUsageReferences (payload o) r (db g) = Ok canonical ∧
    sessions_upsert (mkUpsert (res_sessionId r) (res_sessionKey r) (res_kind r) (route_channel (route (payload o)))
      (route_account (route (payload o))) None None at_) (sessions (db g)) = (Ok meta, t1) ∧
    run_callback (onCommit o)
      (g <| db := (db g) <| sessions := t1 |>
          <| chat_messages := sql_upsert message_conflict (eventId (payload o))
               (message_row at_ (toChatMessageRecord (transcript_event env o r at_))) (chat_messages (db g)) |> |>) =
      (Ok tt, g2) ∧
    (if canonical then g3 = g2 else projectUsage env o r at_ g2 = (Ok tt, g3)) ∧
    g' = g3 <| db := (db g3)
      <| transcript_outbox := (enqueue (transcript_event_value (transcript_event env o r at_)) at_ (transcript_outbox (db g3))).2 |>
      <| inbound_events := (markProcessed (endpoint o) (idempotencyKey o) accepted at_ (inbound_events (db g3))).2 |> |> ∧
    sessions (db g3) !! res_sessionId r = Some row ∧ session = mapSessionRow (res_sessionId r) row ∧
    res = mkResult true false session 0.
Proof.
  unfold commitEvent. rewrite M_gets_bind, M_bind_ok. intros (canonical & g0 & H0 & H).
  apply lift_res_ok in H0 as [Hcan ->].
  rewrite M_bind_ok in H. destruct H as (meta & g1 & H1 & H). apply call_ok in H1 as (t1 & H1 & ->).
  rewrite M_bind_ok in H. destruct H as (u1 & g1' & H2 & H). apply call_ok in H2 as (m1 & H2 & ->).
  unfold messages_upsert in H2. apply modify_ok in H2. subst m1.
  rewrite M_bind_ok in H. destruct H as ([] & g2 & H3 & H).
  rewrite M_bind_ok in H. destruct H as ([] & g3 & H4 & H).
  rewrite M_bind_ok in H. destruct H as (rec & g4 & H5 & H). apply call_ok in H5 as (q & H5 & ->).
  rewrite M_bind_ok in H. destruct H as (u5 & g5 & H6 & H). apply call_ok in H6 as (i & H6 & ->).
  rewrite M_bind_ok in H. destruct H as (session & g6 & H7 & H). apply call_ok in H7 as (t7 & H7 & ->).
  apply getBySessionId_ok in H7 as (row & Hrow & -> & ->). injection H as <- <-.
  exists canonical, meta, t1, g2, g3, (mapSessionRow (res_sessionId r) row), row.
  split; [exact Hcan|]. split; [exact H1|]. split; [exact H3|]. split.
  - destruct canonical; cbn [negb] in H4; [by injection H4 as <-|exact H4].
  - apply (f_equal snd) in H5, H6. cbn [snd] in H5, H6. subst q i.
    split; [reflexivity|]. split; [exact Hrow|done].
Qed.

(** ** Duplicates *)

Lemma resolveDedupSession_run existing r rt g :
  resolveDedupSession existing r rt g =
    (Ok (match row_by_key (in_sessionKey existing) (sessions (db g)) with
         | Some (id, row) => mapSessionRow id row
         | None => mkSession (res_sessionId r) (in_sessionKey existing) (res_kind r) (route_channel rt) (route_account rt)
                     None None (in_receivedAt existing) (default (in_receivedAt existing) (in_processedAt existing))
                     healthy 0 0 0 0 (num_of_Z 0) budget_ok
         end), g).
Proof.
  unfold resolveDedupSession, try_catch, in_sessions, call, getBySessionKey. rewrite M_gets_bind.
  destruct g as [[] ? ? ? ? ?]. cbn.
  by destruct (row_by_key _ _) as [[]|].
Qed.

Lemma buildDedupResult_run existing hash r rt g :
  ∃ s, buildDedupResult existing hash r rt g =
    (Ok (mkResult (bool_decide (in_payloadHash existing = hash)) true s 0), g) ∧
    ∀ id row, row_by_key (in_sessionKey existing) (sessions (db g)) = Some (id, row) → s = mapSessionRow id row.
Proof.
  unfold buildDedupResult, mbind, M_bind. rewrite resolveDedupSession_run. eexists. split; [reflexivity|].
  by intros id row ->.
Qed.

Lemma in_inbound_find e k g :
  in_inbound (find e k) g = (Ok (mapInbound (e, k) <$> inbound_events (db g) !! (e, k)), g).
Proof. unfold in_inbound, call, find, gets. destruct g as [[] ? ? ? ? ?]. reflexivity. Qed.

Lemma duplicate_run env o g existing r :
  resolveSessionRoute (sha256_hex env) (route (payload o)) = Ok r →
  inbound_events (db g) !! (endpoint o, idempotencyKey o) = Some existing →
  ∃ s, ingest env o g =
      (Ok (mkResult (bool_decide (InboundEvents.payload_hash existing = hashPayload env (payload o))) true s 0),
       g <| world_ticks := S (world_ticks g) |>) ∧
    ∀ id row, row_by_key (InboundEvents.session_key existing) (sessions (db g)) = Some (id, row) → s = mapSessionRow id row.
Proof.
  intros Hr Hex. unfold ingest. erewrite bind_run by apply read_clock_ok.
  erewrite bind_run by (apply lift_res_ok; split; [exact Hr|reflexivity]).
  erewrite bind_run by apply in_inbound_find. cbn [db set_field eta Gateway_eta]. rewrite Hex. cbn [fmap option_fmap option_map].
  set (g1 := _ : Gateway) at 1.
  destruct (buildDedupResult_run (mapInbound (endpoint o, idempotencyKey o) existing) (hashPayload env (payload o)) r
    (route (payload o)) g1) as (s & Hrun & Hs).
  exists s. split; [exact Hrun|exact Hs].
Qed.

(** A delivery whose endpoint and idempotency key are in the index changes
    no table, file or counter: it reports a duplicate, accepted exactly when
    its payload hash is the stored one, with the stored session when there is
    one. *)
Theorem duplicate_changes_nothing env o g existing r :
  resolveSessionRoute (sha256_hex env) (route (payload o)) = Ok r →
  inbound_events (db g) !! (endpoint o, idempotencyKey o) = Some existing →
  ∃ s, ingest env o g =
      (Ok (mkResult (bool_decide (InboundEvents.payload_hash existing = hashPayload env (payload o))) true s 0),
       g <| world_ticks := S (world_ticks g) |>) ∧
    ∀ id row, row_by_key (InboundEvents.session_key existing) (sessions (db g)) = Some (id, row) → s = mapSessionRow id row.
Proof. apply duplicate_run. Qed.

(** ** What a drain leaves of the outbox *)

Definition row_with (id ev : string) : gmap string TranscriptOutboxRow → gmap string (list string) → Prop :=
  λ ob _, ∃ row, ob !! id = Some row ∧ event_json row = ev.

Lemma row_with_update id ev cond f id' ob fs :
  (∀ row, event_json (f row) = event_json row) → row_with id ev ob fs → row_with id ev (outbox_update cond f id' ob).2 fs.
Proof.
  intros Hf (row & Hrow & He). rewrite outbox_update_snd. unfold row_with. rewrite sql_update_lookup.
  destruct (decide (id' = id)) as [->|]; [|by exists row]. rewrite Hrow. cbn.
  exists (if cond row then f row else row). split; [done|]. destruct (cond row); [by rewrite Hf|done].
Qed.

Section keeps.
Context (clock : nat → string) (id ev : string).
Notation K := (row_with id ev).

Lemma keep_files {A} (m : M js_error (gmap string (list string)) A) : triple K (in_files m) (λ _, K) K.
Proof. by apply triple_files. Qed.

Lemma keep_outbox {A} (m : M js_error (gmap string TranscriptOutboxRow) A) :
  (∀ ob fs, K ob fs → K (m ob).2 fs) → triple K (in_outbox m) (λ _, K) K.
Proof.
  intros Hm. apply triple_outbox; [auto|]. intros ob fs a ob' H E. specialize (Hm _ _ H). by rewrite E in Hm.
Qed.

Lemma keep_bind {A B} (m : M stop DrainWorld A) (f : A → M stop DrainWorld B) :
  triple K m (λ _, K) K → (∀ a, triple K (f a) (λ _, K) K) → triple K (m ≫= f) (λ _, K) K.
Proof. intros Hm Hf. by eapply triple_bind. Qed.

Lemma keep_ret {A} (a : A) : triple K (mret a) (λ _, K) K.
Proof. by apply triple_ret. Qed.

Lemma keep_now : triple K (now clock) (λ _, K) K.
Proof. by intros w Hw. Qed.

Lemma keep_deliver r : triple K (deliver clock r) (λ _, K) K.
Proof.
  unfold deliver. apply keep_bind; [destruct (truthy_opt _); [apply keep_files|apply keep_ret]|]. intros found.
  apply keep_bind.
  - destruct found; [apply keep_ret|]. apply keep_bind; [apply keep_now|]. intros s.
    apply keep_bind; [|intros; apply keep_files]. apply keep_outbox. intros. by apply row_with_update.
  - intros o. apply keep_bind; [apply keep_now|]. intros s. apply keep_bind; [|intros; apply keep_ret].
    apply keep_outbox. intros. by apply row_with_update.
Qed.

Lemma keep_loop target : ∀ pending count offset, triple K (drain_loop clock target pending count offset) (λ _, K) K.
Proof.
  induction pending as [|r pending IH]; intros count offset; cbn [drain_loop]; [apply keep_ret|].
  apply keep_bind.
  - apply triple_catch; [apply keep_bind; [apply keep_deliver|intros; apply keep_ret]|].
    intros e. apply keep_bind; [apply keep_now|]. intros s. apply keep_bind; [|intros; apply keep_ret].
    apply keep_outbox. intros. by apply row_with_update.
  - intros [o|]; [apply IH|apply keep_ret].
Qed.

Lemma keep_flush sid target limit : triple K (flushTranscriptOutboxSession clock sid target limit) (λ _, K) K.
Proof.
  unfold flushTranscriptOutboxSession. apply keep_bind; [by apply keep_outbox|]. intros pending.
  apply keep_bind; [apply keep_loop|]. intros [count offset]. destruct target as [t|]; [|apply keep_ret].
  destruct (_ && _); [|apply keep_ret]. apply keep_bind; [by apply keep_outbox|]. intros. apply keep_ret.
Qed.
End keeps.

Lemma drain_tables env sid target limit g :
  let g' := (drain env sid target limit g).2 in
  inbound_events (db g') = inbound_events (db g) ∧ sessions (db g') = sessions (db g) ∧
  chat_messages (db g') = chat_messages (db g) ∧ cost_ledger (db g') = cost_ledger (db g) ∧
  ∀ id ev, (∃ row, transcript_outbox (db g) !! id = Some row ∧ event_json row = ev) →
    ∃ row, transcript_outbox (db g') !! id = Some row ∧ event_json row = ev.
Proof.
  unfold drain.
  pose proof (λ id ev, keep_flush (clock env) id ev sid target limit
    (mkWorld (transcript_outbox (db g)) (transcript_files g) (world_faults g) (world_ticks g))) as Hk.
  destruct (flushTranscriptOutboxSession _ _ _ _ _) as [[] w]; cbn; repeat split; try done;
    intros id ev H; by apply (Hk id ev).
Qed.

(** ** Atomicity *)

(** The event is recorded in [g]: a finalised index row with its hash, its session,
    its message, and the outbox row of its id, which holds this event unless the
    outbox had a row of that id in [before]. *)
Record recorded (env : ingest_env) (o : EventIngestOptions) (r : SessionRouteResolution) (at_ : string) (before g : Gateway)
    : Prop := {
  rec_index : ∃ row, inbound_events (db g) !! (endpoint o, idempotencyKey o) = Some row ∧
    status row = accepted ∧ processed_at row = Some at_ ∧
    InboundEvents.payload_hash row = hashPayload env (payload o) ∧ event_id row = eventId (payload o) ∧
    InboundEvents.session_key row = res_sessionKey r;
  rec_session : is_Some (sessions (db g) !! res_sessionId r);
  rec_message : ∃ row, chat_messages (db g) !! eventId (payload o) = Some row ∧
    IngestTables.msg_content row = SessionContracts.msg_content (message (payload o));
  rec_outbox : ∃ row, transcript_outbox (db g) !! eventId (payload o) = Some row ∧
    event_json row = match transcript_outbox (db before) !! eventId (payload o) with
                     | Some old => event_json old
                     | None => json_stringify (transcript_event_value (transcript_event env o r at_))
                     end;
}.

Lemma toChatMessageRecord_content env o r at_ :
  cm_content (toChatMessageRecord (transcript_event env o r at_)) = SessionContracts.msg_content (message (payload o)).
Proof. reflexivity. Qed.

Lemma upsert_message_content (t : gmap string ChatMessageRow) id row :
  ∃ row', sql_upsert message_conflict id row t !! id = Some row' ∧
    IngestTables.msg_content row' = IngestTables.msg_content row.
Proof.
  rewrite sql_upsert_lookup, decide_True by done. eexists. split; [done|]. by destruct (t !! id).
Qed.

Lemma enqueue_present event at_ (ob : gmap string TranscriptOutboxRow) :
  ∃ row, (enqueue event at_ ob).2 !! event_string "eventId" event = Some row ∧
    event_json row = match ob !! event_string "eventId" event with Some old => event_json old | None => json_stringify event end.
Proof.
  rewrite enqueue_table. unfold sql_insert_ignore. destruct (ob !! _) as [old|] eqn:E; cbn; [by exists old|].
  rewrite lookup_insert_eq. by eexists.
Qed.

Lemma event_value_id env o r at_ :
  event_string "eventId" (transcript_event_value (transcript_event env o r at_)) = eventId (payload o).
Proof. reflexivity. Qed.

Lemma getBySessionId_some id row (t : gmap string SessionRow) : t !! id = Some row → is_Some (t !! id).
Proof. by eexists. Qed.

Lemma ingestTransaction_absent env o r at_ g :
  inbound_events (db g) !! (endpoint o, idempotencyKey o) = None →
  ingestTransaction env o r at_ g =
    commitEvent env o r at_ (g <| db := (db g) <| inbound_events :=
      <[(endpoint o, idempotencyKey o) := inbound_row (inbound_index_row env o r at_)]> (inbound_events (db g)) |> |>).
Proof.
  intros Hn. unfold ingestTransaction.
  assert (Hins : in_inbound (insertPendingIfAbsent (inbound_index_row env o r at_)) g =
    (Ok true, g <| db := (db g) <| inbound_events :=
      <[(endpoint o, idempotencyKey o) := inbound_row (inbound_index_row env o r at_)]> (inbound_events (db g)) |> |>));
    [|by rewrite (bind_run _ _ _ _ _ Hins)].
  unfold in_inbound, call, insertPendingIfAbsent, sql_insert_ignore.
  change (row_key (inbound_index_row env o r at_)) with (endpoint o, idempotencyKey o). by rewrite Hn.
Qed.

Lemma commitEvent_recorded env o r at_ g res g' :
  keeps_tables (onCommit o) →
  inbound_events (db g) !! (endpoint o, idempotencyKey o) = Some (inbound_row (inbound_index_row env o r at_)) →
  commitEvent env o r at_ g = (Ok res, g') →
  recorded env o r at_ g g' ∧ result_deduped res = false ∧ result_accepted res = true.
Proof.
  intros Hk Hin H. apply commitEvent_ok in H as
    (canonical & meta & t1 & g2 & g3 & session & row & Hcan & Hup & Hcb & Hproj & -> & Hrow & -> & ->).
  split; [|done]. pose proof (Hk (g <| db := (db g) <| sessions := t1 |>
          <| chat_messages := sql_upsert message_conflict (eventId (payload o))
               (message_row at_ (toChatMessageRecord (transcript_event env o r at_))) (chat_messages (db g)) |> |>)) as Hs.
  rewrite Hcb in Hs. cbn [snd] in Hs. destruct Hs as [Si Ss Sm So Sl].
  assert (Htabs : inbound_events (db g3) = inbound_events (db g2) ∧ chat_messages (db g3) = chat_messages (db g2) ∧
    transcript_outbox (db g3) = transcript_outbox (db g2)).
  { destruct canonical; [by subst|]. by apply projectUsage_ok in Hproj as (? & ? & ? & _). }
  destruct Htabs as (Ti & Tm & To). cbn in Si, Sm, So. split; cbn.
  - rewrite Ti, Si. unfold markProcessed. cbn [snd]. rewrite sql_update_lookup, decide_True, Hin by done.
    eexists. split; [reflexivity|]. done.
  - by eexists.
  - rewrite Tm, Sm. apply upsert_message_content.
  - rewrite To, So. apply (enqueue_present (transcript_event_value (transcript_event env o r at_))).
Qed.

Lemma recorded_same env o r at_ before g g' :
  same_tables g g' → recorded env o r at_ before g → recorded env o r at_ before g'.
Proof. intros [Ei Es Em Eo _] [H1 H2 H3 H4]. split; by rewrite ?Ei, ?Es, ?Em, ?Eo. Qed.

Lemma recorded_drain env o r at_ before env' sid target limit g :
  recorded env o r at_ before g → recorded env o r at_ before (drain env' sid target limit g).2.
Proof.
  intros [H1 H2 H3 (row & H4 & H5)]. destruct (drain_tables env' sid target limit g) as (Ei & Es & Em & _ & Eo).
  split; rewrite ?Ei, ?Es, ?Em; try done.
  destruct (Eo (eventId (payload o)) (event_json row)) as (row' & H & Hev); [by exists row|].
  exists row'. by rewrite Hev.
Qed.

Lemma ingest_atomic_aux env o g res g' :
  keeps_tables (onCommit o) → keeps_tables (afterCommit o) →
  inbound_events (db g) !! (endpoint o, idempotencyKey o) = None →
  ingest env o g = (res, g') →
  (db g' = db g ∧ is_ok res = false) ∨
  ∃ r, resolveSessionRoute (sha256_hex env) (route (payload o)) = Ok r ∧
    recorded env o r (clock env (world_ticks g)) g g' ∧
    ∀ v, res = Ok v → result_deduped v = false ∧ result_accepted v = true.
Proof.
  intros Hon Hafter Hn. unfold ingest. erewrite bind_run by apply read_clock_ok.
  set (g1 := g <| world_ticks := _ |>). unfold lift_res. rewrite M_lift_bind.
  destruct (resolveSessionRoute _ _) as [r|e] eqn:Hr; [|by intros [= <- <-]; left].
  erewrite bind_run by apply in_inbound_find. change (inbound_events (db g1)) with (inbound_events (db g)).
  rewrite Hn. cbn [fmap option_fmap option_map]. unfold mbind at 1, M_bind at 1, runImmediateTransaction at 1.
  rewrite ingestTransaction_absent by exact Hn.
  set (g2 := g1 <| db := _ |>). set (at_ := clock env (world_ticks g)).
  destruct (commitEvent env o r at_ g2) as [[v|e] g3] eqn:Hc; [|by intros [= <- <-]; left].
  apply commitEvent_recorded in Hc as (Hrec & Hd & Ha); [|done|by cbn; rewrite lookup_insert_eq].
  assert (recorded env o r at_ g g3) as Hrec3 by (by destruct Hrec).
  rewrite Hd. intros H. right. exists r. split; [done|]. revert H.
  unfold mbind at 1, M_bind at 1. pose proof (recorded_same _ _ _ _ _ _ _ (Hafter g3) Hrec3) as Hrec4.
  destruct (run_callback (afterCommit o) g3) as [[[]|e] g4]; [|by intros [= <- <-]].
  unfold mbind, M_bind. pose proof (recorded_drain _ _ _ _ _ env (res_sessionId r) (Some (eventId (payload o))) None g4 Hrec4) as Hrec5.
  destruct (drain env (res_sessionId r) (Some (eventId (payload o))) None g4) as [[[c t]|e] g5]; cbn [snd] in Hrec5.
  - intros [= <- <-]. split; [done|]. by intros v' [= <-].
  - by intros [= <- <-].
Qed.

(** C40. Ingesting an event whose endpoint and idempotency key are not yet in the
    index is all or nothing, provided that the two callbacks of the caller leave
    the tables of ingest alone: whatever throws or dies on the way, either every
    table is as it was and the call threw, or the index row, the session, the
    message and the outbox row of the event's id are all there, the index row
    finalised with the event's hash.  The outbox row holds this event, unless the
    outbox had an event of that id before, which it keeps.  A call that returns
    has recorded the event and says so. *)
Theorem ingest_atomic env o g res g' :
  keeps_tables (onCommit o) → keeps_tables (afterCommit o) →
  inbound_events (db g) !! (endpoint o, idempotencyKey o) = None →
  ingest env o g = (res, g') →
  (db g' = db g ∧ is_ok res = false) ∨
  ∃ r, resolveSessionRoute (sha256_hex env) (route (payload o)) = Ok r ∧
    recorded env o r (clock env (world_ticks g)) g g' ∧
    ∀ v, res = Ok v → result_deduped v = false ∧ result_accepted v = true.
Proof. apply ingest_atomic_aux. Qed.

(** The state in which the transaction of a new event begins its work. *)
Definition begun (env : ingest_env) (o : EventIngestOptions) (r : SessionRouteResolution) (g : Gateway) : Gateway :=
  g <| world_ticks := S (world_ticks g) |>
    <| db := (db g) <| inbound_events := <[(endpoint o, idempotencyKey o) :=
         inbound_row (inbound_index_row env o r (clock env (world_ticks g)))]> (inbound_events (db g)) |> |>.

(** An ingest that returned, seen from its committed transaction. *)
Lemma ingest_committed env o g v g' r :
  keeps_tables (afterCommit o) →
  inbound_events (db g) !! (endpoint o, idempotencyKey o) = None →
  resolveSessionRoute (sha256_hex env) (route (payload o)) = Ok r →
  ingest env o g = (Ok v, g') →
  ∃ v1 g3, commitEvent env o r (clock env (world_ticks g)) (begun env o r g) = (Ok v1, g3) ∧
    sessions (db g') = sessions (db g3) ∧ cost_ledger (db g') = cost_ledger (db g3) ∧
    ∀ id row, transcript_outbox (db g3) !! id = Some row →
      ∃ row', transcript_outbox (db g') !! id = Some row' ∧ event_json row' = event_json row.
Proof.
  intros Hafter Hn Hr. unfold ingest. erewrite bind_run by apply read_clock_ok.
  set (g1 := g <| world_ticks := _ |>). unfold lift_res. rewrite M_lift_bind, Hr.
  erewrite bind_run by apply in_inbound_find. change (inbound_events (db g1)) with (inbound_events (db g)).
  rewrite Hn. cbn [fmap option_fmap option_map]. unfold mbind at 1, M_bind at 1, runImmediateTransaction at 1.
  rewrite ingestTransaction_absent by exact Hn. fold (begun env o r g).
  change (g1 <| db := _ |>) with (begun env o r g).
  destruct (commitEvent env o r _ (begun env o r g)) as [[v1|e] g3] eqn:Hc; [|done].
  pose proof Hc as Hc'. apply commitEvent_ok in Hc' as
    (canonical & meta & t1 & g2 & g3' & session & row & _ & _ & _ & _ & _ & _ & _ & ->). cbn [result_deduped].
  unfold mbind at 1, M_bind at 1. pose proof (Hafter g3) as Hs4.
  destruct (run_callback (afterCommit o) g3) as [[[]|e] g4]; [|done]. cbn [snd] in Hs4. destruct Hs4 as [Ei Es Em Eo El].
  unfold mbind, M_bind. destruct (drain_tables env (res_sessionId r) (Some (eventId (payload o))) None g4) as (_ & Ds & _ & Dl & Do).
  destruct (drain env (res_sessionId r) (Some (eventId (payload o))) None g4) as [[[c t]|e] g5]; [|done]. cbn [snd] in Ds, Dl, Do.
  intros [= <- <-]. eexists _, g3. split; [reflexivity|]. rewrite Ds, Es, Dl, El. split_and!; try done.
  intros id row' H. apply Do. exists row'. by rewrite Eo.
Qed.

(** Once a first delivery has been recorded, every later delivery under its
    endpoint and key, at once and whatever it carries, is a duplicate that
    changes no table; it is accepted exactly when its payload is the recorded
    one's up to the digest, and refused otherwise. *)
Theorem redelivery_is_duplicate env o g v g' env' o' :
  keeps_tables (onCommit o) → keeps_tables (afterCommit o) →
  inbound_events (db g) !! (endpoint o, idempotencyKey o) = None →
  ingest env o g = (Ok v, g') →
  endpoint o' = endpoint o → idempotencyKey o' = idempotencyKey o →
  is_ok (resolveSessionRoute (sha256_hex env') (route (payload o'))) = true →
  ∃ v' g'', ingest env' o' g' = (Ok v', g'') ∧ db g'' = db g' ∧ transcript_files g'' = transcript_files g' ∧
    result_deduped v' = true ∧
    result_accepted v' = bool_decide (hashPayload env (payload o) = hashPayload env' (payload o')).
Proof.
  intros Hon Hafter Hn Hrun He Hk Hok.
  destruct (ingest_atomic_aux env o g _ g' Hon Hafter Hn Hrun) as [[_ H]|(r & _ & Hrec & _)]; [done|].
  destruct Hrec as [(row & Hrow & _ & _ & Hh & _) _ _ _].
  destruct (resolveSessionRoute (sha256_hex env') (route (payload o'))) as [r'|] eqn:Hr'; [|done].
  rewrite <-He, <-Hk in Hrow.
  destruct (duplicate_run env' o' g' row r' Hr' Hrow) as (s & Hs & _).
  rewrite Hs, Hh. eexists _, _. split; [reflexivity|]. done.
Qed.

(** ** Usage *)

Lemma upsert_counters input (t : gmap string SessionRow) row :
  (upsertStmt input t).2 !! up_sessionId input = Some row →
  let old := t !! up_sessionId input in
  token_input row = default 0 (token_input <$> old) ∧ token_output row = default 0 (token_output <$> old) ∧
  token_cached_input row = default 0 (token_cached_input <$> old) ∧ token_total row = default 0 (token_total <$> old) ∧
  cost_usd_total row = default (num_of_Z 0) (cost_usd_total <$> old).
Proof.
  intros H. destruct (upsertStmt_lookup input t (up_sessionId input)) as [E|[(E & _ & _ & E')|(r0 & ? & ? & ? & ? & E & E')]].
  - rewrite H in E. rewrite <-E. done.
  - rewrite E. rewrite H in E'. injection E' as ->. done.
  - rewrite E. rewrite H in E'. injection E' as ->. done.
Qed.

(** Usage is counted once: a recorded event with canonical usage references
    leaves the session's counters and the cost ledger to them; any other event
    adds exactly its token counts and cost to the session's counters (from zero
    for a new session), and writes at most one ledger row. *)
Theorem ingest_counts_usage env o g v g' r :
  keeps_tables (onCommit o) → keeps_tables (afterCommit o) →
  inbound_events (db g) !! (endpoint o, idempotencyKey o) = None →
  resolveSessionRoute (sha256_hex env) (route (payload o)) = Ok r →
  ingest env o g = (Ok v, g') →
  let at_ := clock env (world_ticks g) in
  let old := sessions (db g) !! res_sessionId r in
  let delta := usage_delta o r at_ in
  ∃ canonical row,
    validateCanonicalUsageReferences (payload o) r (db g) = Ok canonical ∧
    sessions (db g') !! res_sessionId r = Some row ∧
    let add f := if canonical then 0 else cast_integer (f delta) in
    token_input row = default 0 (token_input <$> old) + add delta_tokenInput ∧
    token_output row = default 0 (token_output <$> old) + add delta_tokenOutput ∧
    token_cached_input row = default 0 (token_cached_input <$> old) + add delta_tokenCachedInput ∧
    token_total row = default 0 (token_total <$> old) + (add delta_tokenInput + add delta_tokenOutput) ∧
    cost_usd_total row = (let c := default (num_of_Z 0) (cost_usd_total <$> old) in
                          if canonical then c else num_add c (delta_costUsd delta)) ∧
    if canonical then cost_ledger (db g') = cost_ledger (db g)
    else ∃ n b s, record (dateNow env) (usage_input o r at_) (cost_ledger (db g), n) = (Ok b, s) ∧ cost_ledger (db g') = s.1.
Proof.
  intros Hon Hafter Hn Hr Hrun at_ old delta.
  destruct (ingest_committed env o g v g' r Hafter Hn Hr Hrun) as (res1 & g3 & Hc & Hs & Hl & _).
  apply commitEvent_ok in Hc as
    (canonical & meta & t1 & g2 & g3' & session & row & Hcan & Hup & Hcb & Hproj & -> & Hrow & _ & _).
  fold at_ in Hup, Hcb, Hproj. cbn in Hs, Hl.
  destruct (keeps_run _ _ _ _ Hon Hcb) as [_ Ss _ _ Sl]. cbn in Ss, Sl.
  apply sessions_upsert_ok in Hup. cbn in Hup.
  assert (Hcount : ∀ row0, sessions (db g2) !! res_sessionId r = Some row0 → _) by
    (intros row0 H0; rewrite Ss, <-Hup in H0; exact (upsert_counters (mkUpsert (res_sessionId r) _ _ _ _ _ _ _) _ _ H0)).
  cbn [up_sessionId] in Hcount. fold old in Hcount.
  exists canonical, row. split; [by rewrite <-Hcan; symmetry; apply validate_frame|]. split; [by rewrite Hs|].
  destruct canonical.
  - subst g3'. destruct (Hcount _ Hrow) as (-> & -> & -> & -> & ->). split_and!; try lia; [done|]. by rewrite Hl, Sl.
  - apply projectUsage_ok in Hproj as (_ & _ & _ & Hses & b & Hrec). fold delta in Hses.
    rewrite Hses in Hrow. unfold applyUsage in Hrow. cbn [snd] in Hrow. rewrite sql_update_lookup in Hrow.
    rewrite decide_True in Hrow by done.
    destruct (sessions (db g2) !! delta_sessionId delta) as [row0|] eqn:H0; [|done]. cbn in Hrow. injection Hrow as <-.
    destruct (Hcount row0 H0) as (<- & <- & <- & <- & <-). cbn.
    split_and!; try done. rewrite Sl in Hrec. eexists _, b, _. split; [exact Hrec|]. by rewrite Hl.
Qed.

(** An event id that was used before is lost to the transcript: the ingest
    of a new delivery with that id is accepted, but the outbox keeps the earlier
    event, so no drain ever writes the new one. *)
Theorem reused_event_id_lost env o g v g' r old :
  keeps_tables (onCommit o) → keeps_tables (afterCommit o) →
  inbound_events (db g) !! (endpoint o, idempotencyKey o) = None →
  resolveSessionRoute (sha256_hex env) (route (payload o)) = Ok r →
  transcript_outbox (db g) !! eventId (payload o) = Some old →
  ingest env o g = (Ok v, g') →
  result_accepted v = true ∧ result_deduped v = false ∧
  ∃ row, transcript_outbox (db g') !! eventId (payload o) = Some row ∧ event_json row = event_json old.
Proof.
  intros Hon Hafter Hn Hr Hold Hrun. split_and!;
    try (by destruct (ingest_atomic_aux env o g _ g' Hon Hafter Hn Hrun) as [[_ H]|(r' & _ & _ & H)];
         [done|destruct (H v eq_refl)]).
  destruct (ingest_committed env o g v g' r Hafter Hn Hr Hrun) as (res1 & g3 & Hc & _ & _ & Ho).
  apply commitEvent_ok in Hc as
    (canonical & meta & t1 & g2 & g3' & session & row & _ & _ & Hcb & Hproj & -> & _).
  destruct (keeps_run _ _ _ _ Hon Hcb) as [_ _ _ So _]. cbn in So.
  assert (Hq : transcript_outbox (db g3') = transcript_outbox (db g)).
  { destruct canonical; [by subst|]. apply projectUsage_ok in Hproj as (_ & _ & -> & _). done. }
  apply Ho. cbn. rewrite enqueue_table, event_value_id, Hq. unfold sql_insert_ignore. by rewrite Hold.
Qed.

(** ** Canonical usage references *)

(** An identifier: not empty, not longer than [max], no surrounding space. *)
Definition usage_text (max : Z) (v : string) : Prop := v ≠ "" ∧ js_length v ≤ max ∧ v = trim v.

(** A usage record that a reference may name. *)
Definition usage_owned (d : IngestDb) (task : option string) (workspace sid turn id : string) : Prop :=
  ∃ rec, model_usage_events d !! id = Some rec ∧ ue_workspaceId rec = Some workspace ∧ ue_sessionId rec = Some sid ∧
    ue_turnId rec = Some turn ∧ ue_taskId rec = task ∧ ue_transportStatus rec = "accepted" ∧
    ue_terminalOutcome rec ≠ "in_flight".

Record canonical_rule (p : GatewayEventInput) (r : SessionRouteResolution) (d : IngestDb) (ids : list string)
    (owner : CanonicalUsageOwner) : Prop := {
  cr_count : 1 <= Z.of_nat (length ids) <= 128;
  cr_workspace : usage_text 512 (owner_workspaceId owner);
  cr_sessionText : usage_text 512 (owner_sessionId owner);
  cr_turnText : usage_text 512 (owner_turnId owner);
  cr_session : owner_sessionId owner = res_sessionId r;
  cr_meta : chat_session_meta d !! owner_sessionId owner = Some (owner_workspaceId owner);
  cr_turn : chat_turn_traces d !! owner_turnId owner = Some (owner_sessionId owner);
  cr_nodup : NoDup ids;
  cr_owned : ∀ id, id ∈ ids → usage_text 512 id ∧
    usage_owned d (taskId p) (owner_workspaceId owner) (owner_sessionId owner) (owner_turnId owner) id;
}.

Lemma negb_decide_false (P : Prop) `{Decision P} : negb (bool_decide P) = false ↔ P.
Proof. rewrite negb_false_iff. apply bool_decide_eq_true. Qed.

Lemma js_length_zero v : (js_length v =? 0) = false ↔ v ≠ "".
Proof. unfold js_length. rewrite Z.eqb_neq. destruct v; simpl; split; try done; lia. Qed.

(** The two forms of a guard that passes, and their effect on what follows. *)
Lemma guard_bind_ok {E A} b (e : E) (k : outcome E A) a :
  (_ ← throw_when b e; k) = Ok a ↔ b = false ∧ k = Ok a.
Proof. destruct b; simpl; [split; [done|by intros []]|tauto]. Qed.

Lemma text_bind_ok {A} value field max (k : string → res A) a :
  requireCanonicalUsageText value field max ≫= k = Ok a ↔ usage_text max value ∧ k value = Ok a.
Proof.
  unfold requireCanonicalUsageText, usage_text.
  rewrite <-js_length_zero, <-Z.ltb_ge.
  destruct (js_length value =? 0), (max <? js_length value), (decide (value = trim value)) as [Ht|Ht];
    rewrite ?(bool_decide_eq_true_2 _ Ht), ?(bool_decide_eq_false_2 _ Ht); cbn; split; try done;
    try (by intros [(?&?&?) _]); tauto.
Qed.

Lemma validateUsageReference_ok d task w s t seen id :
  validateUsageReference d task w s t seen id = Ok tt ↔ usage_text 512 id ∧ id ∉ seen ∧ usage_owned d task w s t id.
Proof.
  unfold validateUsageReference, usage_owned. rewrite text_bind_ok, guard_bind_ok, bool_decide_eq_false.
  do 2 apply and_iff_compat_l. destruct (model_usage_events d !! id) as [rec|].
  - rewrite guard_bind_ok, throw_when_ok, !orb_false_iff, !negb_decide_false, bool_decide_eq_false. split.
    + intros. exists rec. tauto.
    + intros (rec' & [= <-] & H). tauto.
  - split; [done|]. by intros (? & ? & _).
Qed.

Lemma validateUsageReferences_ok d task w s t ids : ∀ seen,
  validateUsageReferences d task w s t seen ids = Ok tt ↔
  NoDup ids ∧ (∀ id, id ∈ ids → id ∉ seen) ∧ ∀ id, id ∈ ids → usage_text 512 id ∧ usage_owned d task w s t id.
Proof.
  induction ids as [|id ids IH]; intros seen; cbn [validateUsageReferences].
  - split; [intros _; split_and!; [constructor|by intros ? ?%elem_of_nil..]|done].
  - rewrite outcome_bind_ok. split.
    + intros ([] & H1 & H2). apply validateUsageReference_ok in H1 as (Ht & Hs & Ho).
      apply IH in H2 as (Hnd & Hns & Hall). split_and!.
      * apply NoDup_cons. split; [|done]. intros Hin. apply (Hns _ Hin). left.
      * intros x [->|Hx]%elem_of_cons; [done|]. specialize (Hns _ Hx). rewrite elem_of_cons in Hns. tauto.
      * intros x [->|Hx]%elem_of_cons; auto.
    + intros (Hnd & Hns & Hall). apply NoDup_cons in Hnd as [Hni Hnd]. exists tt. split.
      * apply validateUsageReference_ok. destruct (Hall id); [left|]. split_and!; [done| |done]. apply Hns. left.
      * apply IH. split_and!; [done| |].
        -- intros x Hx. rewrite elem_of_cons. intros [->|H]; [done|]. apply (Hns x); [by right|done].
        -- intros x Hx. apply Hall. by right.
Qed.

(** The check of canonical usage references accepts exactly what the rule
    allows: between one and 128 distinct, well-formed ids of terminal accepted
    provider attempts that belong to the owner named, whose session is the
    ingest's, whose workspace owns that session and whose turn is in it.  It
    answers no when neither ids nor an owner were sent, and throws otherwise. *)
Theorem validateCanonicalUsageReferences_iff p r d :
  (validateCanonicalUsageReferences p r d = Ok true ↔
     ∃ ids owner, usage p ≫= canonicalUsageEventIds = Some ids ∧ usage p ≫= canonicalUsageOwner = Some owner ∧
       canonical_rule p r d ids owner) ∧
  (validateCanonicalUsageReferences p r d = Ok false ↔
     usage p ≫= canonicalUsageEventIds = None ∧ usage p ≫= canonicalUsageOwner = None).
Proof.
  unfold validateCanonicalUsageReferences.
  destruct (usage p ≫= canonicalUsageEventIds) as [ids|], (usage p ≫= canonicalUsageOwner) as [owner|].
  2-4: split; (split; [done|by intros (? & ? & ? & ? & _) || by intros []]).
  rewrite !guard_bind_ok, !text_bind_ok, !guard_bind_ok, !orb_false_iff, !negb_decide_false, Z.eqb_neq, Z.ltb_ge.
  unfold MAX_CANONICAL_USAGE_EVENT_IDS.
  assert (Hturn : ∀ b, match chat_turn_traces d !! owner_turnId owner with
      | None => Err (ConflictError None "canonical usage turn is unavailable")
      | Some turnSession =>
          _ ← throw_when (negb (bool_decide (turnSession = owner_sessionId owner)))
            (ConflictError None "canonical usage turn does not match the authoritative session owner");
          _ ← validateUsageReferences d (taskId p) (owner_workspaceId owner) (owner_sessionId owner)
                (owner_turnId owner) [] ids;
          Ok true
      end = Ok b ↔ b = true ∧ chat_turn_traces d !! owner_turnId owner = Some (owner_sessionId owner) ∧
        validateUsageReferences d (taskId p) (owner_workspaceId owner) (owner_sessionId owner) (owner_turnId owner) [] ids = Ok tt).
  { intros b. destruct (chat_turn_traces d !! _) as [ts|]; [|split; [done|by intros (_ & ? & _)]].
    rewrite guard_bind_ok, negb_decide_false. destruct (validateUsageReferences _ _ _ _ _ _ _) as [[]|]; cbn.
    - split; [by intros [-> [= <-]]|by intros (-> & [= ->] & _)].
    - split; [by intros []|by intros (_ & _ & ?)]. }
  rewrite !Hturn, validateUsageReferences_ok. split; split.
  - intros ([H1 H2] & H3 & H4 & H5 & H6 & H7 & _ & H8 & H9 & _ & H10). exists ids, owner. split_and!; [done..|].
    split; try done. lia.
  - intros (? & ? & [= <-] & [= <-] & [[]]). split_and!; try done; try lia. intros ? _. apply not_elem_of_nil.
  - by intros (_ & _ & _ & _ & _ & _ & ? & _).
  - by intros [].
Qed.
