(* ===== verification/IngestExamples.v ===== *)
(** * Concrete ingests

    One event queued, half delivered by a drain that dies, and finished by the
    next; one gateway event ingested, delivered again and its id reused. *)
From S2P Require Import Prelude.
From S2P Require Import JsString.
From S2P Require Import JsNumber.
From S2P Require Import Errors.
From S2P Require Import JsJson.
From S2P Require Import JsJsonText.
From S2P Require Import SessionContracts.
From S2P Require Import SessionKey.
From S2P Require Import InboundEvents.
From S2P Require Import Sessions.
From S2P Require Import SessionTheorems.
From S2P Require Import IngestTables.
From S2P Require Import TranscriptLog.
From S2P Require Import TranscriptOutbox.
From S2P Require Import TranscriptDrain.
From S2P Require Import TranscriptDrainTheorems.
From S2P Require Import EventIngest.
From S2P Require Import EventIngestTheorems.

(** ** The outbox and the transcript *)

Definition demo_fields : list (string * json) :=
  [("eventId", JString "e1"); ("actionId", JString "a1"); ("idempotencyKey", JString "k1");
   ("sessionId", JString "s1"); ("sessionKey", JString "tel:a:b"); ("timestamp", JString "2026-01-01T00:00:00.000Z");
   ("type", JString "message.user"); ("actorType", JString "user"); ("actorId", JString "u1");
   ("payload", JObject [("text", JString "hello")])].

Ltac solve_json_wf :=
  repeat first [apply wf_string | apply wf_bool | apply wf_null
               | apply wf_object; [apply (bool_decide_unpack _); vm_compute; exact I|]
               | apply wf_array | apply Forall_cons_2; cbn [snd] | apply Forall_nil_2].

Lemma demo_fields_wf : json_wf (JObject demo_fields).
Proof. unfold demo_fields. solve_json_wf. Qed.

Lemma demo_stored : stored_event "e1" "s1" demo_fields.
Proof. split; [apply demo_fields_wf|reflexivity..]. Qed.

Definition demo_clock (n : nat) : string := "2026-01-01T00:00:01.000Z".
Lemma demo_clock_truthy : ∀ n, truthy (demo_clock n) = true.
Proof. done. Qed.

Definition queued : gmap string TranscriptOutboxRow :=
  (enqueue (JObject demo_fields) "2026-01-01T00:00:00.000Z" ∅).2.

(** The process dies between the append and the mark. *)
Definition half_done : DrainWorld :=
  (flushTranscriptOutboxSession demo_clock "s1" None None (mkWorld queued ∅ [io_ok; io_ok; io_ok; io_dies] 0)).2.
Example half_done_state :
  (delivered_at <$> outbox half_done !! "e1") = Some None ∧
  length (default [] (files half_done !! "s1.jsonl")) = 1%nat.
Proof. vm_compute. done. Qed.

(** The next drain finds the line and only marks the row. *)
Definition all_done : DrainWorld :=
  (flushTranscriptOutboxSession demo_clock "s1" None None (mkWorld (outbox half_done) (files half_done) [] 0)).2.
Example all_done_state :
  (delivered_at <$> outbox all_done !! "e1") = Some (Some "2026-01-01T00:00:01.000Z") ∧
  files all_done = files half_done.
Proof. split; vm_compute; reflexivity. Qed.

Lemma demo_history : rtc (transcript_step demo_clock) (∅, ∅) (outbox all_done, files all_done).
Proof.
  eapply rtc_l; [exact (step_enqueue demo_clock (∅, ∅) "e1" "s1" demo_fields "2026-01-01T00:00:00.000Z" demo_stored)|].
  eapply rtc_l; [exact (step_drain demo_clock (queued, ∅) "s1" None None [io_ok; io_ok; io_ok; io_dies] 0)|].
  apply rtc_once. exact (step_drain demo_clock (outbox half_done, files half_done) "s1" None None [] 0).
Qed.

Definition final_row : TranscriptOutboxRow :=
  default (new_outbox_row JNull "") (outbox all_done !! "e1").

Lemma transcript_exactly_once_witness :
  (count_occ String.string_dec (default [] (files all_done !! "s1.jsonl")) (event_json final_row) ≤ 1)%nat ∧
  transcript_offset final_row = Some 0.
Proof.
  destruct (transcript_exactly_once demo_clock (outbox all_done, files all_done) "e1" final_row "s1.jsonl")
    as (H1 & _ & H3); [apply demo_clock_truthy|apply demo_history|vm_compute; reflexivity|vm_compute; reflexivity|].
  split; [exact H1|vm_compute; reflexivity].
Defined.

Lemma undisturbed_drain_delivers_witness :
  ∃ offset w',
    flushTranscriptOutboxSession demo_clock "s1" (Some "e1") None (mkWorld queued ∅ [] 0) = (Ok (1, offset), w').
Proof.
  destruct (undisturbed_drain_delivers demo_clock (queued, ∅) "s1" (Some "e1") None "s1.jsonl" 0
    demo_clock_truthy
    (rtc_once _ _ (step_enqueue demo_clock (∅, ∅) "e1" "s1" demo_fields "2026-01-01T00:00:00.000Z" demo_stored))
    eq_refl eq_refl) as (offset & w' & H & _).
  exists offset, w'. exact H.
Defined.

Definition one_file : gmap string (list string) := {[ "s1.jsonl" := [] ]}.

Lemma append_read_roundtrip_witness :
  ∃ files' offset events,
    append (JObject demo_fields) one_file = (Ok offset, files') ∧
    read "s1" one_file = (Ok events, one_file) ∧
    read "s1" files' = (Ok (events ++ [JObject demo_fields]), files').
Proof.
  destruct (append_read_roundtrip one_file demo_fields "s1" "e1" "s1.jsonl" [] demo_fields_wf
    eq_refl eq_refl eq_refl (lookup_singleton_eq _ _) ltac:(constructor)) as (f & o & e & H1 & H2 & H3 & _).
  exists f, o, e. split; [exact H1|]. split; [exact H2|exact H3].
Defined.

(** ** Gateway events *)

Definition demo_digest (s : string) : string := string_map (λ c, ascii_of_N (97 + N_of_ascii c mod 6)%N) s.
Definition demo_env : ingest_env := mkEnv demo_digest "uuid-1" demo_clock 0.
Definition empty_db : IngestDb := mkDb ∅ ∅ ∅ ∅ (mkLedger ∅ 1) ∅ ∅ ∅.
Definition start : Gateway := mkGateway empty_db 0 false ∅ [] 0.

Definition demo_payload (id text : string) : GatewayEventInput :=
  mkPayload id (mkRoute "tel" "a" (Some "b") None None) actor_user "u1"
    (mkMessage role_user text None None None None) None
    (Some (mkUsage (Some "12") (Some "3") None (Some "0.5") (Some "openai") None None None None None)).
Definition demo_options (key id text : string) : EventIngestOptions :=
  mkOptions "/api/v1/gateway/events" key (demo_payload id text) (Some operator) None None.

Notation first_ingest := (ingest demo_env (demo_options "k1" "e1" "hello") start).
Definition after_first : Gateway := first_ingest.2.
Definition first_result : GatewayEventResult :=
  match first_ingest.1 with Ok v => v | Err _ => mkResult false true (mkSession "" "" dm "" "" None None "" "" healthy 0 0 0 0 (num_of_Z 0) budget_ok) 0 end.

Lemma first_ingest_ok : first_ingest = (Ok first_result, after_first).
Proof.
  assert (H : first_ingest.1 = Ok first_result) by (vm_compute; reflexivity).
  unfold after_first. rewrite <-H. apply surjective_pairing.
Qed.

Definition demo_route : SessionRouteResolution :=
  resolution demo_digest dm "tel:a:b".

Lemma duplicate_changes_nothing_witness :
  ∃ s, ingest demo_env (demo_options "k1" "e9" "other") after_first =
    (Ok (mkResult false true s 0), after_first <| world_ticks := S (world_ticks after_first) |>).
Proof.
  destruct (duplicate_changes_nothing demo_env (demo_options "k1" "e9" "other") after_first
    (default (inbound_row first_row) (inbound_events (db after_first) !! ("/api/v1/gateway/events", "k1"))) demo_route)
    as (s & H & _); [vm_compute; reflexivity|vm_compute; reflexivity|].
  exists s. rewrite H. reflexivity.
Defined.

Lemma ingest_atomic_witness :
  (db after_first = db start ∧ is_ok (Ok (E := stop) first_result) = false) ∨
  ∃ r, resolveSessionRoute demo_digest (route (demo_payload "e1" "hello")) = Ok r ∧
    recorded demo_env (demo_options "k1" "e1" "hello") r (demo_clock 0) start after_first.
Proof.
  destruct (ingest_atomic demo_env (demo_options "k1" "e1" "hello") start (Ok first_result) after_first
    keeps_tables_none keeps_tables_none eq_refl first_ingest_ok) as [H|(r & H1 & H2 & _)];
    [left; exact H|right; exists r; split; [exact H1|exact H2]].
Defined.

Lemma redelivery_is_duplicate_witness :
  ∃ v' g'', ingest demo_env (demo_options "k1" "e1" "hello") after_first = (Ok v', g'') ∧
    result_deduped v' = true ∧ result_accepted v' = true.
Proof.
  destruct (redelivery_is_duplicate demo_env (demo_options "k1" "e1" "hello") start first_result after_first
    demo_env (demo_options "k1" "e1" "hello") keeps_tables_none keeps_tables_none eq_refl first_ingest_ok eq_refl eq_refl
    ltac:(vm_compute; reflexivity)) as (v' & g'' & H1 & _ & _ & H2 & H3).
  exists v', g''. split; [exact H1|]. split; [exact H2|]. rewrite H3. by apply bool_decide_eq_true_2.
Defined.

Lemma ingest_counts_usage_witness :
  ∃ row, sessions (db after_first) !! res_sessionId demo_route = Some row ∧ token_total row = 15.
Proof.
  destruct (ingest_counts_usage demo_env (demo_options "k1" "e1" "hello") start first_result after_first demo_route
    keeps_tables_none keeps_tables_none eq_refl ltac:(vm_compute; reflexivity) first_ingest_ok)
    as (canonical & row & Hc & Hrow & _ & _ & _ & Ht & _).
  exists row. split; [exact Hrow|]. vm_compute in Hc. injection Hc as <-. rewrite Ht. vm_compute. reflexivity.
Defined.

(** A second event with the id of the first, under a key of its own. *)
Notation second_ingest := (ingest demo_env (demo_options "k2" "e1" "a new message") after_first).
Definition after_second : Gateway := second_ingest.2.
Definition second_result : GatewayEventResult :=
  match second_ingest.1 with Ok v => v | Err _ => first_result end.
Lemma second_ingest_ok : second_ingest = (Ok second_result, after_second).
Proof.
  assert (H : second_ingest.1 = Ok second_result) by (vm_compute; reflexivity).
  unfold after_second. rewrite <-H. apply surjective_pairing.
Qed.

Definition old_outbox_row : TranscriptOutboxRow :=
  default (new_outbox_row JNull "") (transcript_outbox (db after_first) !! "e1").

Lemma reused_event_id_lost_witness :
  result_accepted second_result = true ∧
  ∃ row, transcript_outbox (db after_second) !! "e1" = Some row ∧ event_json row = event_json old_outbox_row.
Proof.
  destruct (reused_event_id_lost demo_env (demo_options "k2" "e1" "a new message") after_first second_result after_second
    demo_route old_outbox_row keeps_tables_none keeps_tables_none ltac:(vm_compute; reflexivity)
    ltac:(vm_compute; reflexivity) ltac:(vm_compute; reflexivity) second_ingest_ok) as (H1 & _ & H2).
  split; [exact H1|exact H2].
Defined.

(** The transcript of the session holds the first message only. *)
Example transcript_has_first_only :
  match filePathForSession (res_sessionId demo_route) with
  | Ok path => length (default [] (transcript_files after_second !! path)) = 1%nat
  | Err _ => False
  end.
Proof. vm_compute. reflexivity. Qed.
