(* ===== verification/ToolGroups.v ===== *)
(** * Tool groups (packages/contracts/src/tool-groups.ts)

    The table of the built-in tool groups and the switches over it.  [TOOL_GROUPS]
    is the source's table, entry by entry. *)
From S2P Require Import Prelude.
From S2P Require Import JsString.
From S2P Require Import JsJson.
From S2P Require Import JsJsonText.

Record ToolGroupDefinition := mkGroup {
  group_id : string;
  group_label : string;
  group_description : string;
  switchable : bool;
  toolNames : list string;
}.

Definition TOOL_GROUPS : list ToolGroupDefinition := [
  mkGroup "core" "Core"
    "GoatCitadel needs these to run chats and connectors, so they stay on." false
     ["capabilities.search"; "skills.read"; "tool_artifact.read"; "change.request";
      "code_mode.request"; "runtime.configure"; "session.status"; "session.search";
      "session.history"; "user_input.request"; "submit_work_result"; "time.now"; "context.list";
      "context.grep"; "context.query"; "context.read_range"; "mcp.invoke"];
  mkGroup "files" "Files"
    "Read, search, write, move and delete files in your folders." true
     ["fs.read"; "fs.list"; "fs.stat"; "fs.write"; "fs.patch"; "fs.copy"; "fs.move"; "fs.delete";
      "file.read_range"; "file.find"; "code.search"; "code.search_files"];
  mkGroup "shell_and_code" "Shell and code"
    "Run shell commands and your project's test, lint and build scripts." true
     ["shell.exec"; "shell.exec_background"; "tests.run"; "lint.run"; "build.run"];
  mkGroup "git" "Git"
    "See changes, commit, and manage branches and worktrees." true
     ["git.status"; "git.diff"; "git.add"; "git.commit"; "git.branch.create"; "git.branch.switch";
      "git.worktree.create"; "git.worktree.remove"];
  mkGroup "web_search" "Web search"
    "Search the web, research local businesses and build citations." true
     ["browser.search"; "local_business.research"; "citations.build"];
  mkGroup "web_requests" "Web requests"
    "Fetch web pages and send data to web addresses directly." true
     ["http.get"; "http.post"];
  mkGroup "browser" "Browser"
    "Open and read pages, take screenshots, click, and manage cookies and storage." true
     ["browser.navigate"; "browser.extract"; "browser.screenshot"; "browser.interact";
      "browser.cookies.get"; "browser.cookies.set"; "browser.cookies.clear"; "browser.storage.get";
      "browser.storage.set"; "browser.storage.clear"; "browser.context.configure"; "browser.errand"];
  mkGroup "memory" "Memory"
    "Read, search and save what the AI remembers." true
     ["memory.read"; "memory.search"; "memory.write"; "memory.upsert"];
  mkGroup "documents" "Documents"
    "Index and search your documents, and create documents, slides and artifacts." true
     ["docs.ingest"; "docs.read_bytes"; "docs.extract_text"; "docs.decompress"; "docs.search";
      "embeddings.index"; "embeddings.query"; "artifacts.create"; "documents.create";
      "presentations.create"; "document.propose_patch"];
  mkGroup "email_and_calendar" "Email and calendar"
    "Read and send email, and read and add calendar events." true
     ["gmail.read"; "gmail.send"; "smtp.send"; "calendar.list"; "calendar.create_event"];
  mkGroup "messaging" "Messaging"
    "Send, react to and remove messages in your chat apps, and ask for your attention." true
     ["notify.request"; "channel.send"; "channel.react"; "channel.unsend"; "discord.send";
      "discord.react"; "discord.unsend"; "line.send"; "mattermost.send"; "mattermost.react";
      "mattermost.unsend"; "nextcloud-talk.send"; "nextcloud-talk.react"; "telegram.send";
      "telegram.react"; "telegram.unsend"; "whatsapp.send"; "whatsapp.react"; "slack.send";
      "slack.react"; "slack.unsend"; "google-chat.send"; "teams.send"; "zalo.send"];
  mkGroup "webhooks" "Webhooks"
    "Send data to your webhooks." true
     ["webhook.send"];
  mkGroup "schedules" "Schedules"
    "Set up and cancel the AI's own scheduled work." true
     ["schedule.manage"];
  mkGroup "subagents" "Subagents"
    "Hand parts of a task to up to three subagents." true
     ["agent.fanout"]
].

(** [SWITCHABLE_TOOL_GROUP_IDS]. *)
Definition SWITCHABLE_TOOL_GROUP_IDS : list string :=
  ["files"; "shell_and_code"; "git"; "web_search"; "web_requests"; "browser"; "memory"; "documents";
   "email_and_calendar"; "messaging"; "webhooks"; "schedules"; "subagents"].

Definition ESSENTIAL_TOOL_GROUP_IDS : list string := ["files"; "web_search"; "memory"; "browser"].

(** [TOOL_GROUP_BY_ID.get(id)]: a map keeps the last entry of a key. *)
Definition TOOL_GROUP_BY_ID : gmap string ToolGroupDefinition :=
  foldl (λ (m : gmap string ToolGroupDefinition) g, <[group_id g := g]> m) ∅ TOOL_GROUPS.

Definition TOOL_GROUP_BY_TOOL_NAME : gmap string ToolGroupDefinition :=
  foldl (λ (m : gmap string ToolGroupDefinition) g,
      foldl (λ (m : gmap string ToolGroupDefinition) name, <[name := g]> m) m (toolNames g)) ∅ TOOL_GROUPS.

Definition isSwitchableToolGroupId (value : json) : bool :=
  match value with
  | JString id => match TOOL_GROUP_BY_ID !! id with Some g => switchable g | None => false end
  | _ => false
  end.

Definition toolGroupForTool (toolName : string) : option ToolGroupDefinition :=
  TOOL_GROUP_BY_TOOL_NAME !! toolName.

(** [isToolGroupChange(value)]. *)
Definition isToolGroupChange (value : json) : bool :=
  match value with
  | JObject fields =>
      (length fields =? 2)%nat &&
      forallb (λ f, bool_decide (f.1 = "groupId") || bool_decide (f.1 = "enabled")) fields &&
      (match lookup_field "groupId" fields with Some id => isSwitchableToolGroupId id | None => false end) &&
      (match lookup_field "enabled" fields with Some (JBool _) => true | _ => false end)
  | _ => false
  end.

(** One turn of the loop of [toolNamesSwitchedOff]. *)
Definition switch_off (off : gmap string string) (entry : json) : gmap string string :=
  match entry with
  | JString groupId =>
      if isSwitchableToolGroupId entry then
        foldl (λ (off : gmap string string) name, <[name := groupId]> off) off
          (default [] (toolNames <$> TOOL_GROUP_BY_ID !! groupId))
      else off
  | _ => off
  end.

(** Tool name to the group that is off.  [disabled] is the value of a file an
    operator may edit by hand: what is not a list switches nothing off, and an
    entry that is not the id of a switchable group is skipped. *)
Definition toolNamesSwitchedOff (disabled : option json) : gmap string string :=
  foldl switch_off ∅ (match disabled with Some (JArray entries) => entries | _ => [] end).

(** ** The table is consistent *)

(** Every tool name of the table occurs once, so a tool has one group. *)
Lemma tool_names_distinct : NoDup (concat (map toolNames TOOL_GROUPS)).
Proof. apply (bool_decide_unpack _). vm_compute. exact I. Qed.

Lemma group_ids_distinct : NoDup (map group_id TOOL_GROUPS).
Proof. apply (bool_decide_unpack _). vm_compute. exact I. Qed.

(** The list of switchable ids is the table's. *)
Lemma switchable_ids_agree :
  SWITCHABLE_TOOL_GROUP_IDS = map group_id (List.filter switchable TOOL_GROUPS).
Proof. reflexivity. Qed.

Lemma fold_insert_lookup {V} (key : ToolGroupDefinition → string) (val : ToolGroupDefinition → V) gs :
  ∀ (m : gmap string V) k, NoDup (map key gs) → (∀ g, g ∈ gs → m !! key g = None) →
  foldl (λ (m : gmap string V) g, <[key g := val g]> m) m gs !! k =
    match List.find (λ g, bool_decide (key g = k)) gs with Some g => Some (val g) | None => m !! k end.
Proof.
  induction gs as [|g gs IH]; intros m k Hnd Hm; cbn [foldl List.find map]; [done|].
  cbn [map] in Hnd. apply NoDup_cons in Hnd as [Hn Hnd]. rewrite IH; [|done|].
  - case_bool_decide as H.
    + subst k. destruct (List.find _ gs) as [g'|] eqn:Hf; [|by rewrite lookup_insert_eq].
      apply find_some in Hf as [Hin Hk]. bools. exfalso. apply Hn. rewrite <-Hk.
      apply list_elem_of_In. by apply in_map.
    + destruct (List.find _ gs); [done|]. by rewrite lookup_insert_ne.
  - intros g' Hg'. rewrite lookup_insert_ne; [apply Hm; by right|]. intros E. apply Hn. rewrite E.
    apply list_elem_of_In. by apply in_map, list_elem_of_In.
Qed.

(** The group of an id is the entry of the table with that id. *)
Lemma group_by_id id g : TOOL_GROUP_BY_ID !! id = Some g ↔ g ∈ TOOL_GROUPS ∧ group_id g = id.
Proof.
  unfold TOOL_GROUP_BY_ID. rewrite (fold_insert_lookup group_id (λ g, g));
    [|apply group_ids_distinct|intros; apply lookup_empty].
  rewrite lookup_empty. split.
  - destruct (List.find _ _) as [g'|] eqn:Hf; intros [= ->]. apply find_some in Hf as [H1 H2]. bools.
    by apply list_elem_of_In in H1.
  - intros [Hin <-]. destruct (List.find _ _) as [g'|] eqn:Hf.
    + apply find_some in Hf as [H1 H2]. bools. f_equal. apply list_elem_of_In in H1.
      apply list_elem_of_lookup in Hin as [i Hi], H1 as [j Hj].
      assert (i = j) as ->; [|congruence].
      eapply (NoDup_lookup (map group_id TOOL_GROUPS)); [apply group_ids_distinct| |].
      * rewrite list_lookup_fmap, Hi. reflexivity.
      * rewrite list_lookup_fmap, Hj. cbn. by f_equal.
    + pose proof (find_none _ _ Hf g (proj1 (list_elem_of_In _ _) Hin)) as E. cbv beta in E.
      by rewrite bool_decide_eq_true_2 in E.
Qed.

(** ** Which tools are off *)

(** [name] is a tool of the switchable group [id]. *)
Definition switchable_member (id name : string) : Prop :=
  ∃ g, g ∈ TOOL_GROUPS ∧ group_id g = id ∧ switchable g = true ∧ name ∈ toolNames g.

Lemma NoDup_concat_lookup {A} (xss : list (list A)) i j a b x :
  NoDup (concat xss) → xss !! i = Some a → xss !! j = Some b → x ∈ a → x ∈ b → i = j.
Proof.
  revert i j. induction xss as [|c xss IH]; intros i j Hnd Hi Hj Ha Hb; [done|].
  cbn [concat] in Hnd. apply NoDup_app in Hnd as (_ & Hdis & Hnd).
  assert (Hin : ∀ k d, xss !! k = Some d → x ∈ d → x ∈ concat xss).
  { intros k d Hk Hd. apply list_elem_of_In, in_concat. exists d.
    split; apply list_elem_of_In; [by eapply list_elem_of_lookup_2|done]. }
  destruct i, j; simplify_eq/=; [done|..|f_equal; eauto]; exfalso; eapply Hdis; eauto.
Qed.

(** A tool is in one group. *)
Lemma tool_group_unique g g' name :
  g ∈ TOOL_GROUPS → g' ∈ TOOL_GROUPS → name ∈ toolNames g → name ∈ toolNames g' → g = g'.
Proof.
  intros Hg Hg' Hn Hn'.
  apply list_elem_of_lookup in Hg as [i Hi], Hg' as [j Hj].
  assert (i = j) as ->; [|congruence].
  assert (Hmap : ∀ k h, TOOL_GROUPS !! k = Some h → map toolNames TOOL_GROUPS !! k = Some (toolNames h)).
  { intros k h Hk. rewrite list_lookup_fmap, Hk. reflexivity. }
  eapply (NoDup_concat_lookup (map toolNames TOOL_GROUPS)); eauto using tool_names_distinct.
Qed.

Lemma switchable_member_unique id id' name :
  switchable_member id name → switchable_member id' name → id = id'.
Proof.
  intros (g & Hg & <- & _ & Hn) (g' & Hg' & <- & _ & Hn'). f_equal. by eapply tool_group_unique.
Qed.

Lemma switchable_id_spec id :
  isSwitchableToolGroupId (JString id) = true ↔ ∃ g, g ∈ TOOL_GROUPS ∧ group_id g = id ∧ switchable g = true.
Proof.
  cbn [isSwitchableToolGroupId]. destruct (TOOL_GROUP_BY_ID !! id) as [g|] eqn:Hg.
  - apply group_by_id in Hg as [Hin Hid]. split; [by exists g|]. intros (g' & Hg' & Hid' & Hs).
    assert (TOOL_GROUP_BY_ID !! id = Some g) as E by by apply group_by_id.
    assert (TOOL_GROUP_BY_ID !! id = Some g') as E' by by apply group_by_id. congruence.
  - split; [done|]. intros (g' & Hg' & Hid' & _).
    assert (TOOL_GROUP_BY_ID !! id = Some g') as E by by apply group_by_id. congruence.
Qed.

Lemma fold_names_lookup (names : list string) (v : string) : ∀ (off : gmap string string) k,
  foldl (λ (off : gmap string string) name, <[name := v]> off) off names !! k =
    if bool_decide (k ∈ names) then Some v else off !! k.
Proof.
  induction names as [|n names IH]; intros off k; cbn [foldl]; [done|]. rewrite IH.
  destruct (decide (k ∈ names)) as [Hk|Hk].
  - rewrite !bool_decide_eq_true_2; [done|by right|done].
  - rewrite (bool_decide_eq_false_2 (k ∈ names)) by done. destruct (decide (k = n)) as [->|Hne].
    + rewrite bool_decide_eq_true_2 by by left. by rewrite lookup_insert_eq.
    + rewrite bool_decide_eq_false_2 by (rewrite elem_of_cons; tauto). by rewrite lookup_insert_ne.
Qed.

(** A tool is off exactly when it belongs to a switchable group that the list
    names, and the entry of the map is that group. *)
Lemma switched_off_lookup disabled name id :
  toolNamesSwitchedOff disabled !! name = Some id ↔
    ∃ entries, disabled = Some (JArray entries) ∧ JString id ∈ entries ∧ switchable_member id name.
Proof.
  unfold toolNamesSwitchedOff.
  assert (Hend : ∀ entries, foldl switch_off ∅ entries !! name = Some id ↔
    JString id ∈ entries ∧ switchable_member id name).
  2: { destruct disabled as [d|]; [|split; [by intros H|by intros (? & ? & _)]].
       destruct d; try (split; [by intros H|by intros (? & ? & _)]).
       rewrite Hend. split; [eauto|by intros (? & [= ->] & ?)]. }
  intros entries. induction entries as [|e entries IH] using rev_ind.
  { cbn [foldl]. rewrite lookup_empty. split; [done|]. by intros [?%elem_of_nil _]. }
  rewrite foldl_snoc, elem_of_app, list_elem_of_singleton.
  destruct e as [| | |gid| |]; cbn [switch_off]; try (rewrite IH; naive_solver).
  destruct (isSwitchableToolGroupId (JString gid)) eqn:Hsw.
  - apply switchable_id_spec in Hsw as (g & Hg & Hid & Hs).
    assert (TOOL_GROUP_BY_ID !! gid = Some g) as -> by by apply group_by_id.
    cbn [fmap option_fmap option_map default]. rewrite fold_names_lookup. case_bool_decide as Hn.
    + assert (Hm : switchable_member gid name) by (exists g; auto).
      split; [intros [= <-]; auto|]. intros [_ H]. f_equal. by eapply switchable_member_unique.
    + rewrite IH. split; [naive_solver|]. intros [[?|[= ->]] Hm]; [auto|]. destruct Hm as (g' & Hg' & Hid' & _ & Hn').
      assert (TOOL_GROUP_BY_ID !! gid = Some g) as E by by apply group_by_id.
      assert (TOOL_GROUP_BY_ID !! gid = Some g') as E' by by apply group_by_id. naive_solver.
  - rewrite IH. split; [naive_solver|]. intros [[?|[= ->]] Hm]; [auto|]. exfalso.
    destruct Hm as (g & Hg & Hid & Hs & _). apply not_true_iff_false in Hsw. apply Hsw, switchable_id_spec. eauto.
Qed.

(** The switches of the policy turn a tool off exactly when the configured
    value is a list that names the switchable group of the tool, and the map says
    which group it is; so no list turns off a tool of a group that is not
    switchable, and what is no list turns nothing off. *)
Theorem switched_off_exact disabled name :
  (∀ id, toolNamesSwitchedOff disabled !! name = Some id ↔
    ∃ entries, disabled = Some (JArray entries) ∧ JString id ∈ entries ∧ switchable_member id name) ∧
  (∀ g, g ∈ TOOL_GROUPS → switchable g = false → name ∈ toolNames g → toolNamesSwitchedOff disabled !! name = None).
Proof.
  split; [apply switched_off_lookup|]. intros g Hg Hs Hn. apply eq_None_not_Some.
  intros [id (entries & _ & _ & g' & Hg' & <- & Hs' & Hn')%switched_off_lookup].
  assert (g = g') as -> by (by eapply tool_group_unique). congruence.
Qed.
