(* ===== verification/ToolPatterns.v ===== *)
(** * Tool patterns (packages/policy-engine/src/tool-patterns.ts)

    A pattern is compiled to a regular expression, whose text [regex_source]
    builds as the code does; [parse_regex] and [regex_test] are the part of
    [RegExp] that such texts use.  The compiled expressions are kept in a
    bounded cache, [matchesToolPattern_cached].  The theorems at the end: the
    text never fails to parse, a pattern means the relation [glob], matching
    composes, and the cache never shows. *)
From S2P Require Import Prelude.
From S2P Require Import JsString.

Definition MAX_PATTERN_LENGTH : nat := 512.
Definition MAX_TOOL_NAME_LENGTH : nat := 512.
Definition MAX_PATTERN_CACHE_ENTRIES : nat := 1000.

(** ** Regular expressions *)

(** The characters of the class [[|\\{}()[\]^$+?.]]. *)
Definition is_escaped (c : ascii) : bool :=
  existsb (Ascii.eqb c) ["|"%char; "\"%char; "{"%char; "}"%char; "("%char; ")"%char; "["%char; "]"%char;
    "^"%char; "$"%char; "+"%char; "?"%char; "."%char].

(** [s.replace(/[|\\{}()[\]^$+?.]/g, "\\$&")]. *)
Fixpoint escape_regex (s : string) : string :=
  match s with
  | EmptyString => EmptyString
  | String c s' => if is_escaped c then String "\"%char (String c (escape_regex s')) else String c (escape_regex s')
  end.

(** The text given to [RegExp], without its anchors. *)
Definition regex_source (pattern : string) : string := replace_char "*"%char ".*" (escape_regex pattern).

(** A term of such an expression: one character, [.] or [.*]. *)
Inductive regex_term :=
  | RChar (c : ascii)
  | RDot
  | RDotStar.

(** [new RegExp] on the texts without groups, classes, anchors and quantifiers
    other than a star behind a dot; [None] is any other text. *)
Fixpoint parse_regex (s : string) : option (list regex_term) :=
  match s with
  | EmptyString => Some []
  | String c s' =>
      if Ascii.eqb c "\"%char then
        match s' with
        | String d s'' => if is_escaped d then cons (RChar d) <$> parse_regex s'' else None
        | EmptyString => None
        end
      else if Ascii.eqb c "."%char then
        match s' with
        | String d s'' => if Ascii.eqb d "*"%char then cons RDotStar <$> parse_regex s'' else cons RDot <$> parse_regex s'
        | EmptyString => Some [RDot]
        end
      else if is_escaped c || Ascii.eqb c "*"%char then None
      else cons (RChar c) <$> parse_regex s'
  end.

(** [new RegExp(`^${...}$`).test(name)]: the terms match the whole name. *)
Fixpoint regex_test (terms : list regex_term) (name : string) : bool :=
  match terms with
  | [] => bool_decide (name = "")
  | RChar c :: terms' => match name with String d name' => Ascii.eqb c d && regex_test terms' name' | _ => false end
  | RDot :: terms' => match name with String d name' => negb (is_line_break d) && regex_test terms' name' | _ => false end
  | RDotStar :: terms' =>
      (fix star (name : string) : bool :=
         regex_test terms' name ||
         match name with String d name' => negb (is_line_break d) && star name' | EmptyString => false end) name
  end.

(** ** Matching *)

Definition has_star (s : string) : bool := string_existsb (Ascii.eqb "*"%char) s.

(** The part of [matchesToolPattern] in front of the regular expression:
    [Some] result, or [None] when the expression decides. *)
Definition match_shortcut (trimmed name : string) : option bool :=
  if negb (truthy trimmed) || negb (truthy name) || (MAX_PATTERN_LENGTH <? String.length trimmed)%nat ||
     (MAX_TOOL_NAME_LENGTH <? String.length name)%nat then Some false
  else if bool_decide (trimmed = "*") then Some true
  else if negb (has_star trimmed) then Some (bool_decide (trimmed = name))
  else None.

(** [new RegExp(...)] for a pattern. *)
Definition compile_pattern (trimmed : string) : list regex_term :=
  default [] (parse_regex (regex_source trimmed)).

(** [patternCache]: a [Map] in insertion order, oldest first. *)
Notation pattern_cache := (list (string * list regex_term)).

Definition cache_delete (pattern : string) (cache : pattern_cache) : pattern_cache :=
  filter (λ e : string * list regex_term, e.1 ≠ pattern) cache.

(** [patternCache.set]: an entry that exists keeps its place. *)
Fixpoint cache_set (pattern : string) (regex : list regex_term) (cache : pattern_cache) : pattern_cache :=
  match cache with
  | [] => [(pattern, regex)]
  | e :: cache' => if bool_decide (e.1 = pattern) then (pattern, regex) :: cache' else e :: cache_set pattern regex cache'
  end.

Definition cache_get (pattern : string) (cache : pattern_cache) : option (list regex_term) :=
  snd <$> List.find (λ e, bool_decide (e.1 = pattern)) cache.

(** A hit is moved to the young end. *)
Definition getCachedPattern (pattern : string) (cache : pattern_cache) : option (list regex_term) * pattern_cache :=
  match cache_get pattern cache with
  | Some regex => (Some regex, cache_set pattern regex (cache_delete pattern cache))
  | None => (None, cache)
  end.

Definition cachePattern (pattern : string) (regex : list regex_term) (cache : pattern_cache) : pattern_cache :=
  let cache :=
    if (MAX_PATTERN_CACHE_ENTRIES <=? length cache)%nat
    then match cache with (oldest, _) :: _ => cache_delete oldest cache | [] => cache end
    else cache in
  cache_set pattern regex cache.

(** [matchesToolPattern] over the module's cache. *)
Definition matchesToolPattern_cached (pattern toolName : string) (cache : pattern_cache) : bool * pattern_cache :=
  let trimmed := trim pattern in
  let name := trim toolName in
  match match_shortcut trimmed name with
  | Some result => (result, cache)
  | None =>
      let '(hit, cache) := getCachedPattern trimmed cache in
      match hit with
      | Some regex => (regex_test regex name, cache)
      | None =>
          let regex := compile_pattern trimmed in
          (regex_test regex name, cachePattern trimmed regex cache)
      end
  end.

(** [matchesToolPattern] without the cache, which [cached_match] shows to be the
    same; the rest of the development uses this one. *)
Definition matchesToolPattern (pattern toolName : string) : bool :=
  let trimmed := trim pattern in
  let name := trim toolName in
  match match_shortcut trimmed name with
  | Some result => result
  | None => regex_test (compile_pattern trimmed) name
  end.

(** [matchesAnyToolPattern], and [matchesPatternSet] of policy-resolver.ts. *)
Definition matchesAnyToolPattern (values : list string) (toolName : string) : bool :=
  existsb (λ value, matchesToolPattern value toolName) values.

(** ** The meaning of a pattern *)

(** A star stands for any run of characters without a line break; every other
    character stands for itself. *)
Inductive glob : string → string → Prop :=
  | glob_nil : glob "" ""
  | glob_star_skip p n : glob p n → glob (String "*"%char p) n
  | glob_star_take p c n : is_line_break c = false → glob (String "*"%char p) n →
      glob (String "*"%char p) (String c n)
  | glob_char c p n : c ≠ "*"%char → glob p n → glob (String c p) (String c n).

(** The terms of a pattern. *)
Fixpoint glob_terms (p : string) : list regex_term :=
  match p with
  | EmptyString => []
  | String c p' => (if Ascii.eqb c "*"%char then RDotStar else RChar c) :: glob_terms p'
  end.

(** The escaped text parses back to the pattern's own characters: no
    metacharacter of a pattern reaches the expression. *)
Lemma parse_regex_source p : parse_regex (regex_source p) = Some (glob_terms p).
Proof.
  unfold regex_source. induction p as [|c p IH]; [done|]. cbn [escape_regex glob_terms].
  destruct (is_escaped c) eqn:He.
  - assert (Hc : Ascii.eqb c "*"%char = false) by (destruct (Ascii.eqb_spec c "*"%char) as [->|]; done).
    cbn [replace_char]. rewrite Hc. change (Ascii.eqb "\" "*") with false. cbv iota.
    cbn [parse_regex]. rewrite He, IH. done.
  - destruct (Ascii.eqb_spec c "*"%char) as [->|Hc]; cbn [replace_char].
    + rewrite Ascii.eqb_refl. cbn. by rewrite IH.
    + rewrite (proj2 (Ascii.eqb_neq c "*"%char)) by done. cbn [parse_regex].
      assert (Ascii.eqb c "\"%char = false) as -> by (destruct (Ascii.eqb_spec c "\"%char) as [->|]; done).
      assert (Ascii.eqb c "."%char = false) as -> by (destruct (Ascii.eqb_spec c "."%char) as [->|]; done).
      rewrite He, (proj2 (Ascii.eqb_neq c "*"%char)) by done. cbn [orb]. by rewrite IH.
Qed.

Lemma compile_pattern_terms p : compile_pattern p = glob_terms p.
Proof. unfold compile_pattern. by rewrite parse_regex_source. Qed.

Lemma regex_test_star terms n :
  regex_test (RDotStar :: terms) n =
    regex_test terms n ||
    match n with String d n' => negb (is_line_break d) && regex_test (RDotStar :: terms) n' | EmptyString => false end.
Proof. by destruct n. Qed.

Lemma regex_test_glob p : ∀ n, regex_test (glob_terms p) n = true ↔ glob p n.
Proof.
  induction p as [|c p IH]; intros n; cbn [glob_terms].
  - cbn. rewrite bool_decide_eq_true. split; [intros ->; constructor|by inversion 1].
  - destruct (Ascii.eqb_spec c "*"%char) as [->|Hc].
    + induction n as [|d n IHn]; rewrite regex_test_star, orb_true_iff, IH.
      * split; [intros [?|?]; [by constructor|done]|]. inversion 1; simplify_eq; auto.
      * rewrite andb_true_iff, negb_true_iff, IHn. split.
        { intros [?|[? ?]]; [by apply glob_star_skip|by apply glob_star_take]. }
        inversion 1; simplify_eq; auto.
    + cbn [regex_test]. destruct n as [|d n].
      * split; [done|]. inversion 1; simplify_eq.
      * rewrite andb_true_iff, Ascii.eqb_eq, IH. split; [intros [-> ?]; by constructor|].
        inversion 1; simplify_eq; auto.
Qed.

Lemma glob_no_star p n : has_star p = false → glob p n ↔ p = n.
Proof.
  unfold has_star. revert n. induction p as [|c p IH]; intros n Hp; cbn [string_existsb] in Hp.
  - split; [by inversion 1|intros <-; constructor].
  - apply orb_false_iff in Hp as [Hc Hp]. apply Ascii.eqb_neq in Hc. split.
    + inversion 1; simplify_eq. f_equal. by apply IH.
    + intros <-. constructor; [done|]. by apply IH.
Qed.

Lemma glob_star_any p n : string_forallb (λ c, negb (is_line_break c)) n = true → glob p "" → glob (String "*"%char p) n.
Proof.
  unfold string_forallb. rewrite negb_true_iff. intros Hn Hp. induction n as [|c n IH]; [by constructor|].
  cbn [string_existsb] in Hn. apply orb_false_iff in Hn as [Hc Hn]. rewrite negb_involutive in Hc.
  apply glob_star_take; auto.
Qed.

(** Matching composes: what [d] matches as a text, [d] matches as a pattern. *)
Lemma glob_trans d p n : glob d p → glob p n → glob d n.
Proof.
  intros Hd. revert n. induction Hd as [|d p Hd IH|d c p Hc Hd IH|c d p Hc Hd IH]; intros n Hn; [done| | |].
  - constructor. by apply IH.
  - destruct (decide (c = "*"%char)) as [->|Hne].
    + induction n as [|x n IHn]; inversion Hn; simplify_eq; auto using glob_star_take.
    + inversion Hn; simplify_eq. apply glob_star_take; [done|]. by apply IH.
  - inversion Hn; simplify_eq. constructor; [done|]. by apply IH.
Qed.

(** ** matchesToolPattern *)

Definition within_limits (s : string) : Prop := s ≠ "" ∧ (String.length s ≤ 512)%nat.

#[export] Instance within_limits_dec s : Decision (within_limits s).
Proof. unfold within_limits. apply _. Defined.

Lemma matchesToolPattern_spec pattern toolName :
  matchesToolPattern pattern toolName = true ↔
    within_limits (trim pattern) ∧ within_limits (trim toolName) ∧
    (trim pattern = "*" ∨ glob (trim pattern) (trim toolName)).
Proof.
  unfold matchesToolPattern, match_shortcut, within_limits, MAX_PATTERN_LENGTH, MAX_TOOL_NAME_LENGTH.
  set (p := trim pattern). set (n := trim toolName). clearbody p n.
  destruct (truthy p) eqn:Hp; cbn [negb orb]; [apply truthy_spec in Hp|
    split; [done|]; intros ([H _] & _); by apply truthy_spec in H; rewrite H in Hp].
  destruct (truthy n) eqn:Hn; cbn [negb orb]; [apply truthy_spec in Hn|
    split; [done|]; intros (_ & [H _] & _); by apply truthy_spec in H; rewrite H in Hn].
  destruct (Nat.ltb_spec 512 (String.length p)); cbn [orb]; [split; [done|lia]|].
  destruct (Nat.ltb_spec 512 (String.length n)); cbn [orb]; [split; [done|lia]|].
  case_bool_decide as Hs; [split; auto|]. destruct (has_star p) eqn:Hst; cbn [negb].
  - rewrite compile_pattern_terms, regex_test_glob. naive_solver.
  - rewrite bool_decide_eq_true, <-(glob_no_star p n) by done. naive_solver.
Qed.

Lemma matchesAny_spec values toolName :
  matchesAnyToolPattern values toolName = true ↔ ∃ v, v ∈ values ∧ matchesToolPattern v toolName = true.
Proof.
  unfold matchesAnyToolPattern. rewrite existsb_exists. setoid_rewrite <-list_elem_of_In. done.
Qed.

(** A pattern that matches a pattern matches all that it matches; names with a
    line break excepted, which a lone star matches and other stars do not. *)
Lemma matchesToolPattern_trans d s n :
  string_forallb (λ c, negb (is_line_break c)) (trim n) = true →
  matchesToolPattern d s = true → matchesToolPattern s n = true → matchesToolPattern d n = true.
Proof.
  intros Hn. rewrite !matchesToolPattern_spec. intros (Hd & Hs & Hds) (_ & Hlim & Hsn).
  split; [done|]. split; [done|]. destruct Hds as [?|Hds]; [by left|]. right.
  apply (glob_trans _ _ _ Hds). destruct Hsn as [->|Hsn]; [|exact Hsn]. apply glob_star_any; [exact Hn|constructor].
Qed.

(** ** The cache *)

(** Every entry is the compiled form of its key, no key is there twice, and
    there are at most a thousand. *)
Definition cache_ok (cache : pattern_cache) : Prop :=
  Forall (λ e, e.2 = compile_pattern e.1) cache ∧ NoDup cache.*1 ∧ (length cache ≤ MAX_PATTERN_CACHE_ENTRIES)%nat.

Lemma cache_get_ok pattern cache regex :
  Forall (λ e, e.2 = compile_pattern e.1) cache → cache_get pattern cache = Some regex →
  regex = compile_pattern pattern ∧ pattern ∈ cache.*1.
Proof.
  unfold cache_get. intros Hall. destruct (List.find _ cache) as [e|] eqn:Hf; [|done]. intros [= <-].
  apply find_some in Hf as [Hin Hk]. bools. apply list_elem_of_In in Hin. rewrite Forall_forall in Hall.
  rewrite (Hall e Hin). split; [congruence|]. apply list_elem_of_fmap. exists e. split; congruence.
Qed.

Lemma cache_get_none pattern (cache : pattern_cache) : cache_get pattern cache = None → pattern ∉ cache.*1.
Proof.
  unfold cache_get. destruct (List.find _ cache) as [e|] eqn:Hf; [done|]. intros _.
  intros (e & -> & Hin)%list_elem_of_fmap. apply list_elem_of_In in Hin.
  pose proof (find_none _ _ Hf e Hin) as E. cbv beta in E. by rewrite bool_decide_eq_true_2 in E.
Qed.

Lemma elem_of_cache_delete pattern e cache : e ∈ cache_delete pattern cache ↔ e ∈ cache ∧ e.1 ≠ pattern.
Proof. unfold cache_delete. rewrite list_elem_of_filter. tauto. Qed.

Lemma cache_delete_keys pattern (cache : pattern_cache) :
  NoDup cache.*1 → NoDup (cache_delete pattern cache).*1 ∧ pattern ∉ (cache_delete pattern cache).*1.
Proof.
  intros Hnd. split.
  - eapply sublist_NoDup; [exact Hnd|]. apply fmap_sublist, sublist_filter.
  - intros (e & -> & [_ He]%elem_of_cache_delete)%list_elem_of_fmap. done.
Qed.

Lemma cache_set_new pattern regex (cache : pattern_cache) :
  pattern ∉ cache.*1 → cache_set pattern regex cache = cache ++ [(pattern, regex)].
Proof.
  induction cache as [|e cache IH]; intros Hn; cbn [cache_set app]; [done|].
  rewrite fmap_cons, not_elem_of_cons in Hn. rewrite bool_decide_eq_false_2 by naive_solver.
  rewrite IH; [done|]. by destruct Hn.
Qed.

(** Adding a compiled pattern behind the others keeps the cache in order when
    there is room for it. *)
Lemma cache_set_ok pattern cache :
  cache_ok cache → pattern ∉ cache.*1 → (length cache < MAX_PATTERN_CACHE_ENTRIES)%nat →
  cache_ok (cache_set pattern (compile_pattern pattern) cache).
Proof.
  intros (Hall & Hnd & _) Hn Hlen. rewrite cache_set_new by done. split; [|split].
  - apply Forall_app. split; [done|]. by repeat constructor.
  - rewrite fmap_app. apply NoDup_app. split; [done|]. split; [|apply NoDup_singleton].
    cbn. intros x Hx ->%list_elem_of_singleton. done.
  - rewrite length_app. cbn. lia.
Qed.

Lemma cache_delete_ok pattern cache : cache_ok cache → cache_ok (cache_delete pattern cache).
Proof.
  intros (Hall & Hnd & Hlen). split; [|split].
  - unfold cache_delete. apply Forall_forall. rewrite Forall_forall in Hall. intros e [_ He]%list_elem_of_filter. auto.
  - by apply cache_delete_keys.
  - unfold cache_delete. etrans; [apply length_filter|done].
Qed.

Lemma cache_delete_shorter pattern (cache : pattern_cache) :
  pattern ∈ cache.*1 → (length (cache_delete pattern cache) < length cache)%nat.
Proof.
  intros (e & -> & He)%list_elem_of_fmap. eapply length_filter_lt; [exact He|]. by intros H.
Qed.

Lemma cachePattern_ok pattern cache :
  cache_ok cache → pattern ∉ cache.*1 → cache_ok (cachePattern pattern (compile_pattern pattern) cache).
Proof.
  intros Hok Hn. unfold cachePattern. destruct (Nat.leb_spec MAX_PATTERN_CACHE_ENTRIES (length cache)) as [Hle|Hlt].
  - destruct cache as [|[oldest r] cache]; [by apply cache_set_ok; [..|unfold MAX_PATTERN_CACHE_ENTRIES in *; cbn in *; lia]|].
    apply cache_set_ok; [by apply cache_delete_ok| |].
    + intros (e & -> & [He _]%elem_of_cache_delete)%list_elem_of_fmap. apply Hn, list_elem_of_fmap. eauto.
    + eapply Nat.lt_le_trans; [apply cache_delete_shorter; by left|]. apply Hok.
  - by apply cache_set_ok.
Qed.

(** The cached match gives what the match without a cache gives, and keeps the
    cache in order. *)
Lemma cached_match cache pattern toolName :
  cache_ok cache →
  (matchesToolPattern_cached pattern toolName cache).1 = matchesToolPattern pattern toolName ∧
  cache_ok (matchesToolPattern_cached pattern toolName cache).2.
Proof.
  intros Hok. unfold matchesToolPattern_cached, matchesToolPattern, getCachedPattern.
  destruct (match_shortcut _ _) as [b|]; [done|].
  destruct (cache_get (trim pattern) cache) as [regex|] eqn:Hg.
  - apply cache_get_ok in Hg as [-> Hin]; [|apply Hok]. split; [done|].
    apply cache_set_ok; [by apply cache_delete_ok|by apply cache_delete_keys, Hok|].
    eapply Nat.lt_le_trans; [by apply cache_delete_shorter|apply Hok].
  - split; [done|]. apply cachePattern_ok; [done|]. by apply cache_get_none.
Qed.

(** C16. Matching a name against a pattern through the cache of compiled
    expressions holds exactly when both are non-blank and at most 512 characters
    long after trimming, and the pattern is the lone star or matches as a glob,
    whatever is in the cache; and the cache stays a map of at most 1000 patterns
    to their own compiled expressions. *)
Theorem tool_pattern_meaning cache pattern toolName :
  cache_ok cache →
  let result := matchesToolPattern_cached pattern toolName cache in
  (result.1 = true ↔
    within_limits (trim pattern) ∧ within_limits (trim toolName) ∧
    (trim pattern = "*" ∨ glob (trim pattern) (trim toolName))) ∧
  cache_ok result.2.
Proof.
  intros Hok. destruct (cached_match cache pattern toolName Hok) as [E Hok'].
  cbv zeta. rewrite E. split; [apply matchesToolPattern_spec|done].
Qed.

Lemma tool_pattern_meaning_witness :
  (matchesToolPattern_cached "git.*" "git.status" (matchesToolPattern_cached "fs.*" "fs.read" []).2).1 = true ∧
  cache_ok (matchesToolPattern_cached "git.*" "git.status" (matchesToolPattern_cached "fs.*" "fs.read" []).2).2 ∧
  glob "git.*" "git.status".
Proof.
  assert (H0 : cache_ok []) by (split; [done|split; [constructor|unfold MAX_PATTERN_CACHE_ENTRIES; cbn; lia]]).
  destruct (tool_pattern_meaning [] "fs.*" "fs.read" H0) as [_ H1].
  destruct (tool_pattern_meaning _ "git.*" "git.status" H1) as [Hm H2].
  split; [vm_compute; reflexivity|]. split; [exact H2|].
  destruct (proj1 Hm) as (_ & _ & [E|Hg]); [vm_compute; reflexivity|discriminate E|exact Hg].
Defined.
