(* ===== verification/ToolPolicy.v ===== *)
(** * The tool policy resolver

    packages/policy-engine/src/policy-resolver.ts and policy-axes.ts over the
    types of packages/contracts/src/policy.ts, the restricted profiles of the
    autonomous turns declared there, and the intersection profile a scheduled
    run gets (apps/gateway/src/services/gateway/scheduled-profile-intersection.ts).
    [Date.now()] is an argument; a JavaScript [Set] is the list of its elements in
    insertion order. *)
From S2P Require Import Prelude.
From S2P Require Import JsString.
From S2P Require Import JsTime.
From S2P Require Import JsJson.
From S2P Require Import JsJsonText.
From S2P Require Import ToolGroups.
From S2P Require Import ToolPatterns.

(** ** packages/contracts/src/policy.ts *)

Inductive ToolApprovalMode := approve_all | approve_risky | bypass.
Inductive FilesystemReadAccessMode := roots_only | approval_required | full_disk.
Inductive PermissionProfileStatus := profile_active | profile_archived.
Inductive PermissionProfileScope := scope_global | scope_operator | scope_workspace.
Inductive LocalOperatorOverrideStatus := override_active | override_expired | override_revoked.

#[export] Instance approval_mode_eq_dec : EqDecision ToolApprovalMode.
Proof. solve_decision. Defined.
#[export] Instance read_mode_eq_dec : EqDecision FilesystemReadAccessMode.
Proof. solve_decision. Defined.
#[export] Instance profile_status_eq_dec : EqDecision PermissionProfileStatus.
Proof. solve_decision. Defined.
#[export] Instance override_status_eq_dec : EqDecision LocalOperatorOverrideStatus.
Proof. solve_decision. Defined.

Record PermissionProfileRecord := mkProfile {
  pp_profileId : string;
  pp_label : string;
  pp_description : option string;
  pp_builtin : bool;
  pp_status : PermissionProfileStatus;
  pp_scope : PermissionProfileScope;
  pp_scopeRef : option string;
  pp_approvalMode : ToolApprovalMode;
  pp_legacyToolProfile : option string;
  pp_toolPatterns : list string;
  pp_allow : list string;
  pp_deny : list string;
  pp_readAccessMode : option FilesystemReadAccessMode;
  pp_defaultForSurfaces : option (list string);
  pp_createdBy : string;
  pp_createdAt : string;
  pp_updatedAt : string;
  pp_archivedAt : option string;
}.

Record LocalOperatorOverrideRecord := mkOverride {
  lo_overrideId : string;
  lo_operatorId : string;
  lo_scope : string;
  lo_scopeRef : option string;
  lo_reason : string;
  lo_status : LocalOperatorOverrideStatus;
  lo_createdBy : string;
  lo_createdAt : string;
  lo_expiresAt : string;
  lo_revokedAt : option string;
  lo_revokedBy : option string;
}.

Record ToolRiskyArgumentPattern := mkRiskyArgument {
  ra_toolNamePattern : string;
  ra_argumentPath : option string;
  ra_valuePatterns : list string;
}.

Record OperatorWriteRoot := mkWriteRoot {
  ow_path : string;
  ow_allowDelete : bool;
  ow_label : option string;
  ow_preset : option string;
  ow_addedAt : option string;
}.

(** [ToolPolicyConfig["tools"]]; [disabledGroups] as the JSON value that the
    configuration file holds there.  Here and in the sandbox section, the fields
    that the resolver and the axes never read are left out. *)
Record ToolsConfig := mkTools {
  tc_approvalMode : option ToolApprovalMode;
  tc_allow : list string;
  tc_deny : list string;
  tc_disabledGroups : option json;
}.

(** [Partial<ToolPolicyConfig["tools"]>], what an agent may set. *)
Record AgentToolsConfig := mkAgentTools {
  at_approvalMode : option ToolApprovalMode;
  at_allow : option (list string);
  at_deny : option (list string);
}.

Record SandboxConfig := mkSandbox {
  sb_writeJailRoots : list string;
  sb_readOnlyRoots : list string;
  sb_readAccessMode : option FilesystemReadAccessMode;
  sb_networkAllowlist : list string;
  sb_riskyShellPatterns : list string;
  sb_requireApprovalForRiskyShell : bool;
  sb_riskyArgumentPatterns : option (list ToolRiskyArgumentPattern);
  sb_operatorWriteRoots : option (list OperatorWriteRoot);
}.

(** The agents map gives an agent's [tools], if it has any. *)
Record ToolPolicyConfig := mkConfig {
  cfg_tools : ToolsConfig;
  cfg_agents : gmap string (option AgentToolsConfig);
  cfg_sandbox : SandboxConfig;
}.

Record EffectiveToolPolicy := mkPolicy {
  ep_approvalMode : ToolApprovalMode;
  ep_permissionProfileId : option string;
  ep_permissionProfileLabel : option string;
  ep_localOperatorOverrideId : option string;
  ep_allowSet : list string;
  ep_denySet : list string;
  ep_effectiveTools : list string;
  ep_switchedOffTools : gmap string string;
  ep_readAccessMode : FilesystemReadAccessMode;
}.

Record SandboxAccessPolicy := mkSandboxAccess {
  sa_filesystemReadMode : FilesystemReadAccessMode;
  sa_networkAllowlist : list string;
  sa_writeJailRoots : list string;
  sa_readOnlyRoots : list string;
  sa_operatorWriteRoots : option (list (string * bool));
  sa_riskyShellPatterns : list string;
  sa_riskyArgumentPatterns : list ToolRiskyArgumentPattern;
}.

Record ApprovalEscalationPolicy := mkEscalation {
  ae_approvalMode : ToolApprovalMode;
  ae_requireApprovalForRiskyShell : bool;
}.

Record ToolPolicyAxes := mkAxes {
  axes_sandbox : SandboxAccessPolicy;
  axes_approval : ApprovalEscalationPolicy;
}.

Definition SCHEDULED_TURN_PERMISSION_PROFILE_ID : string := "scheduled-restricted".
Definition HEARTBEAT_PERMISSION_PROFILE_ID : string := "heartbeat-restricted".
Definition RESTRICTED_PROFILE_CREATED_AT : string := "2026-06-21T00:00:00.000Z".

Definition SCHEDULED_RESTRICTED_DENY : list string :=
  ["shell.*"; "fs.write"; "fs.patch"; "fs.move"; "fs.delete"; "git.commit"; "git.push"; "http.post"; "*.send";
   "mcp.invoke"; "browser.interact"; "schedule.*"].

Definition HEARTBEAT_READ_ONLY_ALLOW : list string :=
  ["time.now"; "memory.read"; "memory.search"; "calendar.read"; "gmail.read"].

Definition HEARTBEAT_RESTRICTED_DENY : list string :=
  SCHEDULED_RESTRICTED_DENY ++
  ["memory.write"; "memory.upsert"; "fs.*"; "file.*"; "code.*"; "docs.*"; "knowledge.*"; "session.*"; "skills.*";
   "skill.*"; "chat.*"; "connector.*"; "task.*"; "http.*"].

Definition SCHEDULED_RESTRICTED_PROFILE : PermissionProfileRecord :=
  mkProfile SCHEDULED_TURN_PERMISSION_PROFILE_ID "Scheduled (Restricted)"
    (Some "Restricted profile for cron/scheduled autonomous agent turns. Side-effecting and dangerous tools are denied (they surface as approvals); risky tools require approval. Deny-wins and Citadel Wards still apply.")
    true profile_active scope_global None approve_risky None ["*"] [] SCHEDULED_RESTRICTED_DENY
    (Some approval_required) (Some []) "system" RESTRICTED_PROFILE_CREATED_AT RESTRICTED_PROFILE_CREATED_AT None.

Definition HEARTBEAT_RESTRICTED_PROFILE : PermissionProfileRecord :=
  mkProfile HEARTBEAT_PERMISSION_PROFILE_ID "Heartbeat (Read-only)"
    (Some "Read-only profile for silent heartbeat self-wake turns. Only time/memory/calendar/gmail read tools are available; all side-effecting tools are denied. Deny-wins and Citadel Wards still apply.")
    true profile_active scope_global None bypass None HEARTBEAT_READ_ONLY_ALLOW [] HEARTBEAT_RESTRICTED_DENY
    (Some approval_required) (Some []) "system" RESTRICTED_PROFILE_CREATED_AT RESTRICTED_PROFILE_CREATED_AT None.

(** ** policy-resolver.ts *)

Definition APPROVAL_MODE_STRICTNESS (mode : ToolApprovalMode) : nat :=
  match mode with bypass => 0 | approve_risky => 1 | approve_all => 2 end.

Definition READ_ACCESS_RANK (mode : FilesystemReadAccessMode) : nat :=
  match mode with roots_only => 0 | approval_required => 1 | full_disk => 2 end.

Definition stricterApprovalMode (base : ToolApprovalMode) (override : option ToolApprovalMode) : ToolApprovalMode :=
  match override with
  | None => base
  | Some o => if (APPROVAL_MODE_STRICTNESS base <? APPROVAL_MODE_STRICTNESS o)%nat then o else base
  end.

Definition stricterReadAccessMode (globalMode profileMode : option FilesystemReadAccessMode) : FilesystemReadAccessMode :=
  let global := default roots_only globalMode in
  let profile := default global profileMode in
  if (READ_ACCESS_RANK profile <? READ_ACCESS_RANK global)%nat then profile else global.

(** [Date.parse] of the expiry is finite and after [now]. *)
Definition isActiveLocalOperatorOverride (now : Z) (override : option LocalOperatorOverrideRecord) : bool :=
  match override with
  | Some o => bool_decide (lo_status o = override_active) && num_gtb (date_parse (lo_expiresAt o)) (Some now)
  | None => false
  end.

(** [config.agents[agentId]?.tools]. *)
Definition agent_tools (config : ToolPolicyConfig) (agentId : string) : option AgentToolsConfig :=
  default None (cfg_agents config !! agentId).

Definition resolveEffectivePolicy (now : Z) (config : ToolPolicyConfig) (agentId : string)
    (requestedPermissionProfile : option PermissionProfileRecord)
    (localOperatorOverride : option LocalOperatorOverrideRecord) : EffectiveToolPolicy :=
  let permissionProfile :=
    match requestedPermissionProfile with
    | Some p => if bool_decide (pp_status p = profile_active) then Some p else None
    | None => None
    end in
  let activeLocalOperatorOverride :=
    if isActiveLocalOperatorOverride now localOperatorOverride then localOperatorOverride else None in
  let profileTools :=
    match activeLocalOperatorOverride, permissionProfile with
    | Some _, _ => ["*"]
    | None, Some p => unique (pp_toolPatterns p)
    | None, None => []
    end in
  let approvalMode :=
    match activeLocalOperatorOverride with
    | Some _ => bypass
    | None =>
        stricterApprovalMode
          (match permissionProfile with
           | Some p => pp_approvalMode p
           | None => default approve_risky (tc_approvalMode (cfg_tools config))
           end)
          (agent_tools config agentId ≫= at_approvalMode)
    end in
  let allowSet := unique (tc_allow (cfg_tools config) ++
    default [] (agent_tools config agentId ≫= at_allow) ++ default [] (pp_allow <$> permissionProfile)) in
  let denySet := unique (tc_deny (cfg_tools config) ++
    default [] (agent_tools config agentId ≫= at_deny) ++ default [] (pp_deny <$> permissionProfile)) in
  let effectiveTools := unique ((if bool_decide ("*" ∈ profileTools) then ["*"] else profileTools) ++ allowSet) in
  let effectiveTools :=
    if bool_decide ("*" ∈ effectiveTools) then effectiveTools
    else List.filter (λ tool, negb (matchesAnyToolPattern denySet tool)) effectiveTools in
  mkPolicy approvalMode (pp_profileId <$> permissionProfile) (pp_label <$> permissionProfile)
    (lo_overrideId <$> activeLocalOperatorOverride) allowSet denySet effectiveTools
    (toolNamesSwitchedOff (tc_disabledGroups (cfg_tools config)))
    (stricterReadAccessMode (sb_readAccessMode (cfg_sandbox config)) (permissionProfile ≫= pp_readAccessMode)).

(** [Array.isArray(v) ? v : []]. *)
Definition json_list (v : option json) : list json :=
  match v with Some (JArray entries) => entries | _ => [] end.

Definition withHeldToolGroups (config : ToolPolicyConfig) (heldGroupIds : list string) : ToolPolicyConfig :=
  match heldGroupIds with
  | [] => config
  | _ =>
      let tools := cfg_tools config in
      mkConfig
        (mkTools (tc_approvalMode tools) (tc_allow tools) (tc_deny tools)
           (Some (JArray (json_list (tc_disabledGroups tools) ++ map JString heldGroupIds))))
        (cfg_agents config) (cfg_sandbox config)
  end.

Definition isToolAllowed (policy : EffectiveToolPolicy) (toolName : string) : bool :=
  if bool_decide (is_Some (ep_switchedOffTools policy !! toolName)) || matchesAnyToolPattern (ep_denySet policy) toolName
  then false
  else bool_decide ("*" ∈ ep_effectiveTools policy) || matchesAnyToolPattern (ep_effectiveTools policy) toolName.

(** ** policy-axes.ts *)

Definition deriveToolPolicyAxes (sandbox : SandboxConfig) (approvalMode : ToolApprovalMode)
    (readAccessMode : option FilesystemReadAccessMode) : ToolPolicyAxes :=
  let operatorWriteRoots := map (λ r, (ow_path r, ow_allowDelete r)) (default [] (sb_operatorWriteRoots sandbox)) in
  mkAxes
    (mkSandboxAccess
       (match readAccessMode with Some m => m | None => default roots_only (sb_readAccessMode sandbox) end)
       (sb_networkAllowlist sandbox) (sb_writeJailRoots sandbox) (sb_readOnlyRoots sandbox)
       (match operatorWriteRoots with [] => None | _ => Some operatorWriteRoots end)
       (sb_riskyShellPatterns sandbox) (default [] (sb_riskyArgumentPatterns sandbox)))
    (mkEscalation approvalMode (sb_requireApprovalForRiskyShell sandbox)).

(** ** autonomous-turn-policy.ts *)

Inductive AutonomousTurnKind := turn_scheduled | turn_heartbeat.

Definition resolveAutonomousPermissionProfile (kind : AutonomousTurnKind) : PermissionProfileRecord :=
  match kind with turn_heartbeat => HEARTBEAT_RESTRICTED_PROFILE | turn_scheduled => SCHEDULED_RESTRICTED_PROFILE end.

Definition autonomousTurnKindForProfileId (profileId : string) : option AutonomousTurnKind :=
  if bool_decide (profileId = HEARTBEAT_PERMISSION_PROFILE_ID) then Some turn_heartbeat
  else if bool_decide (profileId = SCHEDULED_TURN_PERMISSION_PROFILE_ID) then Some turn_scheduled
  else None.

Definition isAutonomousTurnRequest (permissionProfileId : option string) : bool :=
  bool_decide (is_Some (autonomousTurnKindForProfileId (default "" permissionProfileId))).

(** ** scheduled-profile-intersection.ts *)

Definition stricterToolApprovalMode (left right : ToolApprovalMode) : ToolApprovalMode :=
  if (APPROVAL_MODE_STRICTNESS right <=? APPROVAL_MODE_STRICTNESS left)%nat then left else right.

Definition stricterFilesystemReadAccessMode (left right : option FilesystemReadAccessMode)
    : option FilesystemReadAccessMode :=
  match left, right with
  | None, _ => right
  | _, None => left
  | Some l, Some r => if (READ_ACCESS_RANK l <=? READ_ACCESS_RANK r)%nat then left else right
  end.

Definition uniqueStrings (values : list string) : list string := unique (List.filter truthy (map trim values)).

Definition intersectPatternLists (left right : list string) : list string :=
  let normalizedLeft := uniqueStrings left in
  let normalizedRight := uniqueStrings right in
  match normalizedLeft, normalizedRight with
  | [], _ | _, [] => []
  | _, _ =>
      if bool_decide ("*" ∈ normalizedLeft) then normalizedRight
      else if bool_decide ("*" ∈ normalizedRight) then normalizedLeft
      else List.filter (λ leftPattern, existsb (λ rightPattern,
             matchesToolPattern leftPattern rightPattern || matchesToolPattern rightPattern leftPattern) normalizedRight)
             normalizedLeft
  end.

(** [creatorPatterns]: no pattern at all reads as every tool. *)
Definition creator_patterns (creator : PermissionProfileRecord) : list string :=
  match pp_toolPatterns creator with [] => ["*"] | _ => pp_toolPatterns creator end.

Definition catalog_denied (creator : PermissionProfileRecord) (knownToolNames : list string) : list string :=
  if bool_decide ("*" ∈ creator_patterns creator) then []
  else List.filter (λ toolName, negb (matchesAnyToolPattern (creator_patterns creator) toolName)) knownToolNames.

Definition buildScheduledCreatorIntersectionProfile (creatorProfile : PermissionProfileRecord) (runId : string)
    (knownToolNames : list string) (now : string) : PermissionProfileRecord :=
  let base := SCHEDULED_RESTRICTED_PROFILE in
  mkProfile ("scheduled-intersection:" +:+ runId) ("Scheduled Intersection (" +:+ pp_label creatorProfile +:+ ")")
    (Some "Non-persisted scheduled profile intersecting scheduled-restricted with the creator's active permission profile.")
    true (pp_status base) scope_global (pp_scopeRef base)
    (stricterToolApprovalMode (pp_approvalMode base) (pp_approvalMode creatorProfile))
    (pp_legacyToolProfile base) (creator_patterns creatorProfile)
    (intersectPatternLists (pp_allow base) (pp_allow creatorProfile))
    (uniqueStrings (pp_deny base ++ pp_deny creatorProfile ++ catalog_denied creatorProfile knownToolNames))
    (stricterFilesystemReadAccessMode (pp_readAccessMode base) (pp_readAccessMode creatorProfile))
    (Some []) "system-scheduled-profile-intersection" now now (pp_archivedAt base).

Definition permissionProfileAppliesToCreator (profile : PermissionProfileRecord) (creatorActorId : option string)
    (workspaceId : string) : bool :=
  match pp_scope profile with
  | scope_global => true
  | scope_operator => truthy_opt creatorActorId && bool_decide (pp_scopeRef profile = creatorActorId)
  | scope_workspace => truthy_opt (pp_scopeRef profile) && bool_decide (pp_scopeRef profile = Some workspaceId)
  end.
