(* ===== verification/ToolPolicyTheorems.v ===== *)
(** * What the resolved tool policy allows

    The decision in terms of the configured lists, the switches over tool groups,
    the posture, and the profiles of autonomous and scheduled turns. *)
From S2P Require Import Prelude.
From S2P Require Import JsString.
From S2P Require Import JsTime.
From S2P Require Import JsJson.
From S2P Require Import ToolGroups.
From S2P Require Import ToolPatterns.
From S2P Require Import ToolPolicy.

(** ** The lists behind a decision *)

Section Lists.
Variable now : Z.
Variable config : ToolPolicyConfig.
Variable agentId : string.
Variable profile : option PermissionProfileRecord.
Variable override : option LocalOperatorOverrideRecord.

(** The requested profile, when it counts. *)
Definition active_profile : option PermissionProfileRecord :=
  match profile with Some p => if bool_decide (pp_status p = profile_active) then Some p else None | None => None end.

(** Every configured deny pattern. *)
Definition policy_denies : list string :=
  tc_deny (cfg_tools config) ++ default [] (agent_tools config agentId ≫= at_deny) ++ default [] (pp_deny <$> active_profile).

(** Every configured source of tools. *)
Definition policy_sources : list string :=
  default [] (pp_toolPatterns <$> active_profile) ++
  tc_allow (cfg_tools config) ++ default [] (agent_tools config agentId ≫= at_allow) ++
  default [] (pp_allow <$> active_profile).

(** A source offers a tool: it is the lone star or matches the name. *)
Definition offers (source toolName : string) : Prop := source = "*" ∨ matchesToolPattern source toolName = true.

Abbreviation policy := (resolveEffectivePolicy now config agentId profile override).

Lemma policy_deny_set d : d ∈ ep_denySet policy ↔ d ∈ policy_denies.
Proof. cbn. apply elem_of_unique. Qed.

(** The sources of the resolved policy before the pruning. *)
Definition unpruned : list string :=
  let profileTools :=
    if isActiveLocalOperatorOverride now override then ["*"]
    else default [] (unique ∘ pp_toolPatterns <$> active_profile) in
  unique ((if bool_decide ("*" ∈ profileTools) then ["*"] else profileTools) ++
    unique (tc_allow (cfg_tools config) ++ default [] (agent_tools config agentId ≫= at_allow) ++
            default [] (pp_allow <$> active_profile))).

Lemma policy_effective :
  ep_effectiveTools policy =
    if bool_decide ("*" ∈ unpruned) then unpruned
    else List.filter (λ tool, negb (matchesAnyToolPattern (ep_denySet policy) tool)) unpruned.
Proof.
  unfold unpruned, active_profile. cbn [ep_effectiveTools resolveEffectivePolicy ep_denySet].
  destruct override as [o|]; [destruct (isActiveLocalOperatorOverride now (Some o))|]; try reflexivity;
    destruct profile as [p|]; try reflexivity; by destruct (bool_decide (pp_status p = profile_active)).
Qed.

Lemma elem_of_unpruned s :
  s ∈ unpruned →
  (isActiveLocalOperatorOverride now override = true ∧ s = "*") ∨ s ∈ policy_sources.
Proof.
  unfold unpruned, policy_sources. rewrite elem_of_unique, elem_of_app, elem_of_unique, !elem_of_app.
  destruct (isActiveLocalOperatorOverride now override).
  - rewrite bool_decide_eq_true_2 by by left. rewrite list_elem_of_singleton. tauto.
  - intros [Hs|Hs]; right; [left|tauto]. destruct active_profile as [p|]; cbn in *; [|done].
    rewrite <-elem_of_unique. case_bool_decide; [|done]. apply list_elem_of_singleton in Hs as ->. done.
Qed.

Lemma source_unpruned s :
  s ∈ policy_sources → "*" ∈ unpruned ∨ s ∈ unpruned.
Proof.
  unfold unpruned, policy_sources. rewrite !elem_of_unique, !elem_of_app, !elem_of_unique, !elem_of_app.
  intros [Hs|Hs]; [|tauto]. case_bool_decide as Hstar; [left; left; by left|].
  destruct (isActiveLocalOperatorOverride now override); [exfalso; apply Hstar; by left|].
  destruct active_profile as [p|]; cbn in *; [|by apply elem_of_nil in Hs].
  right. left. by apply elem_of_unique.
Qed.

Lemma override_unpruned : isActiveLocalOperatorOverride now override = true → "*" ∈ unpruned.
Proof.
  unfold unpruned. intros ->. rewrite elem_of_unique, elem_of_app. left. rewrite bool_decide_eq_true_2 by by left. by left.
Qed.

(** The decision, from the configured lists. *)
Definition policy_decision (toolName : string) : Prop :=
  toolNamesSwitchedOff (tc_disabledGroups (cfg_tools config)) !! toolName = None ∧
  (∀ d, d ∈ policy_denies → matchesToolPattern d toolName = false) ∧
  (isActiveLocalOperatorOverride now override = true ∨ ∃ s, s ∈ policy_sources ∧ offers s toolName).

Lemma no_deny_match toolName :
  matchesAnyToolPattern (ep_denySet policy) toolName = false ↔
    ∀ d, d ∈ policy_denies → matchesToolPattern d toolName = false.
Proof.
  rewrite <-not_true_iff_false, matchesAny_spec. setoid_rewrite policy_deny_set. split.
  - intros H d Hd. apply not_true_iff_false. eauto.
  - intros H (d & Hd & Hm). rewrite H in Hm by done. done.
Qed.

Lemma isToolAllowed_spec toolName :
  isToolAllowed policy toolName = true ↔
    toolNamesSwitchedOff (tc_disabledGroups (cfg_tools config)) !! toolName = None ∧
    matchesAnyToolPattern (ep_denySet policy) toolName = false ∧
    ("*" ∈ ep_effectiveTools policy ∨ matchesAnyToolPattern (ep_effectiveTools policy) toolName = true).
Proof.
  unfold isToolAllowed. change (ep_switchedOffTools policy) with (toolNamesSwitchedOff (tc_disabledGroups (cfg_tools config))).
  destruct (toolNamesSwitchedOff _ !! toolName) as [g|] eqn:Hg.
  - rewrite bool_decide_eq_true_2 by eauto. split; [done|]. by intros [? _].
  - rewrite bool_decide_eq_false_2 by by intros [? ?]. cbn [orb].
    destruct (matchesAnyToolPattern (ep_denySet policy) toolName); [naive_solver|].
    rewrite orb_true_iff, bool_decide_eq_true. naive_solver.
Qed.

Lemma policy_decision_sound toolName : isToolAllowed policy toolName = true → policy_decision toolName.
Proof.
  rewrite isToolAllowed_spec. intros (Hoff & Hden & Heff). split; [done|]. split; [by apply no_deny_match|].
  assert (Hin : ∀ s, s ∈ ep_effectiveTools policy → s ∈ unpruned).
  { intros s. rewrite policy_effective. case_bool_decide; [done|].
    rewrite !list_elem_of_In, filter_In. tauto. }
  rewrite matchesAny_spec in Heff. unfold offers.
  assert (∃ s, s ∈ unpruned ∧ (s = "*" ∨ matchesToolPattern s toolName = true)) as (s & Hs & Hm) by naive_solver.
  apply elem_of_unpruned in Hs as [[? _]|Hs]; eauto.
Qed.

Lemma policy_decision_complete toolName :
  string_forallb (λ c, negb (is_line_break c)) (trim toolName) = true →
  policy_decision toolName → isToolAllowed policy toolName = true.
Proof.
  intros Hline (Hoff & Hden & Hsrc). apply no_deny_match in Hden as Hden'.
  rewrite isToolAllowed_spec. split; [done|]. split; [done|]. rewrite policy_effective.
  case_bool_decide as Hstar; [by left|]. right. apply matchesAny_spec.
  destruct Hsrc as [Ho|(s & Hs & Hoff')]; [by apply override_unpruned in Ho|].
  apply source_unpruned in Hs as [?|Hs]; [done|]. destruct Hoff' as [->|Hm]; [done|].
  exists s. split; [|done]. rewrite list_elem_of_In, filter_In, <-list_elem_of_In. split; [done|].
  apply negb_true_iff, not_true_iff_false. rewrite matchesAny_spec. intros (d & Hd%policy_deny_set & Hds).
  specialize (Hden d Hd). by rewrite (matchesToolPattern_trans d s toolName Hline Hds Hm) in Hden.
Qed.

End Lists.

(** ** Theorems *)

(** A tool name without a line break inside. *)
Definition line_free (toolName : string) : Prop :=
  string_forallb (λ c, negb (is_line_break c)) (trim toolName) = true.

(** C15. The resolved policy allows a tool exactly when its group is not switched
    off, no configured deny pattern matches it (of the configuration, the agent
    or an active profile), and an active operator override or some configured
    source of tools offers it; taking denied patterns out of the tool set early
    decides nothing. *)
Theorem policy_decision_exact now config agentId profile override toolName :
  line_free toolName →
  isToolAllowed (resolveEffectivePolicy now config agentId profile override) toolName = true ↔
    policy_decision now config agentId profile override toolName.
Proof.
  intros Hl. split; [apply policy_decision_sound|by apply policy_decision_complete].
Qed.

Lemma json_list_switches disabled :
  toolNamesSwitchedOff disabled = foldl switch_off ∅ (json_list disabled).
Proof. by destruct disabled as [[]|]. Qed.

Lemma switched_off_entries disabled name :
  toolNamesSwitchedOff disabled !! name = None ↔
    ∀ id, JString id ∈ json_list disabled → ¬ switchable_member id name.
Proof.
  rewrite eq_None_not_Some. split.
  - intros H id Hid Hm. apply H. exists id. apply switched_off_lookup.
    destruct disabled as [[]|]; cbn in *; try by apply elem_of_nil in Hid. eauto.
  - intros H [id (entries & -> & Hid & Hm)%switched_off_lookup]. by eapply H.
Qed.

Lemma held_disabled config heldIds :
  json_list (tc_disabledGroups (cfg_tools (withHeldToolGroups config heldIds))) =
    json_list (tc_disabledGroups (cfg_tools config)) ++ map JString heldIds.
Proof. destruct heldIds; cbn; [by rewrite app_nil_r|done]. Qed.

Lemma held_decision now config heldIds agentId profile override toolName :
  policy_decision now (withHeldToolGroups config heldIds) agentId profile override toolName ↔
    policy_decision now config agentId profile override toolName ∧
    ∀ id, id ∈ heldIds → ¬ switchable_member id toolName.
Proof.
  assert (Hd : policy_denies (withHeldToolGroups config heldIds) agentId profile = policy_denies config agentId profile)
    by by destruct heldIds.
  assert (Hs : policy_sources (withHeldToolGroups config heldIds) agentId profile = policy_sources config agentId profile)
    by by destruct heldIds.
  unfold policy_decision. rewrite Hd, Hs, !switched_off_entries, held_disabled.
  assert (Hin : ∀ id, JString id ∈ map JString heldIds ↔ id ∈ heldIds).
  { intros id. rewrite (list_elem_of_fmap JString). naive_solver. }
  setoid_rewrite elem_of_app. setoid_rewrite Hin. split.
  - intros (Hoff & Hrest). split; [split; [|exact Hrest]|]; intros id Hid; apply Hoff; auto.
  - intros ((Hoff & Hrest) & Hheld). split; [|exact Hrest]. intros id [Hid|Hid]; auto.
Qed.

(** While plugins hold tool groups off, a tool is allowed exactly when it is
    allowed without the holds and no held switchable group contains it; holding
    Core or an unknown id changes nothing. *)
Theorem held_groups_exact now config heldIds agentId profile override toolName :
  line_free toolName →
  isToolAllowed (resolveEffectivePolicy now (withHeldToolGroups config heldIds) agentId profile override) toolName = true ↔
    isToolAllowed (resolveEffectivePolicy now config agentId profile override) toolName = true ∧
    ∀ id, id ∈ heldIds → ¬ switchable_member id toolName.
Proof.
  intros Hl. pose proof (λ c, policy_decision_sound now c agentId profile override toolName) as S.
  pose proof (λ c, policy_decision_complete now c agentId profile override toolName Hl) as C.
  pose proof (held_decision now config heldIds agentId profile override toolName) as H. split.
  - intros (Ha & Hh)%S%H. auto.
  - intros [Ha%S Hh]. apply C, H. auto.
Qed.

(** ** Posture *)

Lemma stricterApprovalMode_max base o :
  APPROVAL_MODE_STRICTNESS (stricterApprovalMode base o) =
    (APPROVAL_MODE_STRICTNESS base `max` default 0 (APPROVAL_MODE_STRICTNESS <$> o))%nat.
Proof. destruct base; destruct o as [[]|]; reflexivity. Qed.

Lemma stricterReadAccessMode_min g p :
  READ_ACCESS_RANK (stricterReadAccessMode g p) =
    (READ_ACCESS_RANK (default roots_only g) `min` READ_ACCESS_RANK (default (default roots_only g) p))%nat.
Proof. destruct g as [[]|], p as [[]|]; reflexivity. Qed.

(** Without an active operator override, the approval mode is the strictest of
    the agent's and the profile's (or, without a profile, the configuration's);
    the read access is never wider than the sandbox's or the profile's; an
    override turns approvals off but widens neither the read access nor the
    denies and switches. *)
Theorem policy_posture_tightens now config agentId profile override :
  let policy := resolveEffectivePolicy now config agentId profile override in
  let plain := resolveEffectivePolicy now config agentId profile None in
  APPROVAL_MODE_STRICTNESS (ep_approvalMode plain) =
    (APPROVAL_MODE_STRICTNESS
       (default (default approve_risky (tc_approvalMode (cfg_tools config))) (pp_approvalMode <$> active_profile profile))
     `max` default 0 (APPROVAL_MODE_STRICTNESS <$> (agent_tools config agentId ≫= at_approvalMode)))%nat ∧
  (READ_ACCESS_RANK (ep_readAccessMode policy) ≤ READ_ACCESS_RANK (default roots_only (sb_readAccessMode (cfg_sandbox config))))%nat ∧
  (∀ p m, active_profile profile = Some p → pp_readAccessMode p = Some m →
     (READ_ACCESS_RANK (ep_readAccessMode policy) ≤ READ_ACCESS_RANK m)%nat) ∧
  (if isActiveLocalOperatorOverride now override
   then ep_approvalMode policy = bypass
   else policy = plain) ∧
  ep_denySet policy = ep_denySet plain ∧
  ep_switchedOffTools policy = ep_switchedOffTools plain ∧
  ep_readAccessMode policy = ep_readAccessMode plain.
Proof.
  intros policy plain.
  assert (Hread : ep_readAccessMode policy =
    stricterReadAccessMode (sb_readAccessMode (cfg_sandbox config)) (active_profile profile ≫= pp_readAccessMode)) by done.
  rewrite Hread, stricterReadAccessMode_min. repeat split.
  - cbn. rewrite stricterApprovalMode_max. unfold active_profile.
    destruct profile as [p|]; [|done]. by case_bool_decide.
  - lia.
  - intros p m -> Hm. cbn. rewrite Hm. cbn. lia.
  - subst policy plain. unfold resolveEffectivePolicy.
    destruct override as [o|]; [|done]. by destruct (isActiveLocalOperatorOverride now (Some o)).
Qed.

(** ** Scheduled and heartbeat turns *)

Lemma glob_refl s : string_forallb (λ c, negb (is_line_break c)) s = true → glob s s.
Proof.
  unfold string_forallb. rewrite negb_true_iff. induction s as [|c s IH]; intros Hs; [constructor|].
  cbn [string_existsb] in Hs. apply orb_false_iff in Hs as [Hc Hs]. rewrite negb_involutive in Hc.
  destruct (decide (c = "*"%char)) as [->|Hne].
  - apply glob_star_take; [done|]. constructor. auto.
  - constructor; auto.
Qed.

Lemma matches_itself n : line_free n → within_limits (trim n) → matchesToolPattern n n = true.
Proof. intros Hl Hw. apply matchesToolPattern_spec. eauto using glob_refl. Qed.

Lemma matches_trim d n : matchesToolPattern (trim d) n = matchesToolPattern d n.
Proof. unfold matchesToolPattern. by rewrite trim_idemp. Qed.

Lemma matches_truthy d n : matchesToolPattern d n = true → truthy (trim d) = true.
Proof. rewrite matchesToolPattern_spec, truthy_spec. unfold within_limits. tauto. Qed.

Lemma uniqueStrings_matches values n :
  matchesAnyToolPattern (uniqueStrings values) n = matchesAnyToolPattern values n.
Proof.
  apply eq_true_iff_eq. rewrite !matchesAny_spec. unfold uniqueStrings.
  setoid_rewrite elem_of_unique. setoid_rewrite list_elem_of_In. setoid_rewrite filter_In. setoid_rewrite in_map_iff. split.
  - intros (d & ((v & <- & Hv) & _) & Hm). rewrite matches_trim in Hm. eauto.
  - intros (v & Hv & Hm). exists (trim v). rewrite matches_trim. split; [|done]. split; [eauto|by eapply matches_truthy].
Qed.

Lemma matchesAny_false values n :
  matchesAnyToolPattern values n = false ↔ ∀ d, d ∈ values → matchesToolPattern d n = false.
Proof.
  rewrite <-not_true_iff_false, matchesAny_spec. split.
  - intros H d Hd. apply not_true_iff_false. eauto.
  - intros H (d & Hd & Hm). rewrite H in Hm by done. done.
Qed.

Lemma matchesAny_app xs ys n : matchesAnyToolPattern (xs ++ ys) n = matchesAnyToolPattern xs n || matchesAnyToolPattern ys n.
Proof. unfold matchesAnyToolPattern. apply existsb_app. Qed.

(** A known tool that survives the catalog denies matches the creator's patterns. *)
Lemma catalog_denied_surface creator known n :
  line_free n → within_limits (trim n) → n ∈ known →
  matchesAnyToolPattern (catalog_denied creator known) n = false →
  matchesAnyToolPattern (creator_patterns creator) n = true.
Proof.
  intros Hl Hw Hin Hden. unfold catalog_denied in Hden. case_bool_decide as Hstar.
  - apply matchesAny_spec. exists "*". split; [done|]. apply matchesToolPattern_spec. split; [by apply (bool_decide_unpack _)|].
    by split; [|left].
  - apply not_false_iff_true. intros Hno. rewrite matchesAny_false in Hden. specialize (Hden n).
    rewrite matches_itself in Hden by done. discriminate Hden.
    rewrite list_elem_of_In, filter_In, <-list_elem_of_In. by rewrite Hno.
Qed.

(** C17. Whatever the configuration, the agent and an operator override allow, the
    policy of a scheduled run under its intersection profile allows a known tool
    only if no scheduled-restricted deny and no deny of the creator matches it and
    the creator's own patterns do; and its posture is at least as strict as both. *)
Theorem scheduled_intersection_narrows now config agentId override creator runId known ts n :
  let profile := buildScheduledCreatorIntersectionProfile creator runId known ts in
  line_free n → within_limits (trim n) → n ∈ known →
  isToolAllowed (resolveEffectivePolicy now config agentId (Some profile) override) n = true →
  matchesAnyToolPattern SCHEDULED_RESTRICTED_DENY n = false ∧
  matchesAnyToolPattern (pp_deny creator) n = false ∧
  matchesAnyToolPattern (creator_patterns creator) n = true ∧
  (APPROVAL_MODE_STRICTNESS (pp_approvalMode creator) ≤ APPROVAL_MODE_STRICTNESS (pp_approvalMode profile))%nat ∧
  (1 ≤ APPROVAL_MODE_STRICTNESS (pp_approvalMode profile))%nat ∧
  ∃ m, pp_readAccessMode profile = Some m ∧ (READ_ACCESS_RANK m ≤ 1)%nat ∧
    ∀ c, pp_readAccessMode creator = Some c → (READ_ACCESS_RANK m ≤ READ_ACCESS_RANK c)%nat.
Proof.
  intros profile Hl Hw Hin Hok. apply policy_decision_sound in Hok as (_ & Hden & _).
  assert (Hd : matchesAnyToolPattern (pp_deny profile) n = false).
  { apply matchesAny_false. intros d Hd. apply Hden. unfold policy_denies. rewrite !elem_of_app. auto. }
  unfold profile in Hd. cbn [pp_deny buildScheduledCreatorIntersectionProfile] in Hd.
  rewrite uniqueStrings_matches, !matchesAny_app, !orb_false_iff in Hd. destruct Hd as (H1 & H2 & H3).
  split; [done|]. split; [done|]. split; [by eapply catalog_denied_surface|]. cbn.
  split; [by destruct (pp_approvalMode creator); cbn; lia|]. split; [by destruct (pp_approvalMode creator); cbn; lia|].
  destruct (pp_readAccessMode creator) as [[]|]; cbn;
    (eexists; split; [reflexivity|]; split; [cbn; lia|]; intros c Hc; simplify_eq; cbn; lia).
Qed.

(** Each tool pattern that the configuration or the agent allows is, as a text,
    denied to heartbeat turns or one of the read tools. *)
Definition covered_by_heartbeat (patterns : list string) : Prop :=
  Forall (λ s, s ≠ "*" ∧ (trim s ∈ HEARTBEAT_READ_ONLY_ALLOW ∨ matchesAnyToolPattern HEARTBEAT_RESTRICTED_DENY s = true)) patterns.

Lemma literal_pattern s n : has_star (trim s) = false → matchesToolPattern s n = true → trim s = trim n.
Proof.
  intros Hs. rewrite matchesToolPattern_spec. intros (_ & _ & [E|H]).
  - by rewrite E in Hs.
  - by apply glob_no_star.
Qed.

Lemma heartbeat_literal s n : trim s ∈ HEARTBEAT_READ_ONLY_ALLOW → matchesToolPattern s n = true →
  trim n ∈ HEARTBEAT_READ_ONLY_ALLOW.
Proof.
  intros Hs Hm. assert (has_star (trim s) = false) as Hst.
  { assert (Hall : Forall (λ a, has_star a = false) HEARTBEAT_READ_ONLY_ALLOW) by (repeat constructor).
    rewrite Forall_forall in Hall. by apply Hall. }
  by rewrite <-(literal_pattern s n Hst Hm).
Qed.

(** A heartbeat turn without an operator override may use only the five read
    tools, provided that the configuration and the agent allow no family of tools
    beyond those the heartbeat profile denies. *)
Theorem heartbeat_read_only now config agentId n :
  line_free n →
  covered_by_heartbeat (tc_allow (cfg_tools config)) →
  covered_by_heartbeat (default [] (agent_tools config agentId ≫= at_allow)) →
  isToolAllowed (resolveEffectivePolicy now config agentId
    (Some (resolveAutonomousPermissionProfile turn_heartbeat)) None) n = true →
  trim n ∈ HEARTBEAT_READ_ONLY_ALLOW.
Proof.
  intros Hl Hc Ha Hok. apply policy_decision_sound in Hok as (_ & Hden & [Ho|(s & Hs & Hoff)]); [done|].
  assert (Hno : matchesAnyToolPattern HEARTBEAT_RESTRICTED_DENY n = false).
  { apply matchesAny_false. intros d Hd. apply Hden. unfold policy_denies. rewrite !elem_of_app. auto. }
  unfold policy_sources in Hs. rewrite !elem_of_app in Hs.
  assert (Hcov : covered_by_heartbeat HEARTBEAT_READ_ONLY_ALLOW).
  { unfold covered_by_heartbeat. apply Forall_forall. intros x Hx.
    assert (Forall (λ a, a ≠ "*" ∧ trim a = a) HEARTBEAT_READ_ONLY_ALLOW) as Hall by (repeat constructor; done).
    rewrite Forall_forall in Hall. destruct (Hall x Hx) as [? E]. split; [done|]. left. by rewrite E. }
  assert (s ≠ "*" ∧ (trim s ∈ HEARTBEAT_READ_ONLY_ALLOW ∨ matchesAnyToolPattern HEARTBEAT_RESTRICTED_DENY s = true)) as [Hne Hsc].
  { unfold covered_by_heartbeat in *. rewrite Forall_forall in Hc, Ha, Hcov. cbn in Hs.
    destruct Hs as [?|[?|[?|?%elem_of_nil]]]; auto. }
  destruct Hoff as [->|Hm]; [done|]. destruct Hsc as [Hsc|Hsc]; [by eapply heartbeat_literal|]. exfalso.
  apply matchesAny_spec in Hsc as (d & Hd & Hds). rewrite matchesAny_false in Hno. specialize (Hno d Hd).
  by rewrite (matchesToolPattern_trans d s n Hl Hds Hm) in Hno.
Qed.

(** ** Examples *)

Definition example_tools : ToolsConfig :=
  mkTools (Some approve_risky) ["session.*"; "fs.read"; "memory.*"; "git.*"] ["git.push"] (Some (JArray [JString "browser"])).
Definition example_agent : AgentToolsConfig := mkAgentTools (Some approve_all) (Some ["http.get"]) (Some ["memory.write"]).
Definition example_sandbox : SandboxConfig := mkSandbox ["./workspace"] [] (Some approval_required) ["example.com"] [] true None None.
Definition example_config : ToolPolicyConfig :=
  mkConfig example_tools {[ "coder" := Some example_agent; "idle" := None ]} example_sandbox.

Lemma policy_decision_exact_witness :
  policy_decision 0 example_config "coder" None None "git.status" ∧
  ¬ policy_decision 0 example_config "coder" None None "git.push".
Proof.
  split.
  - apply (policy_decision_exact 0 example_config "coder" None None "git.status"); vm_compute; reflexivity.
  - intros H. apply (policy_decision_exact 0 example_config "coder" None None "git.push") in H; [|vm_compute; reflexivity].
    vm_compute in H. discriminate H.
Defined.

Lemma held_groups_exact_witness :
  isToolAllowed (resolveEffectivePolicy 0 (withHeldToolGroups example_config ["core"; "memory"]) "coder" None None) "git.status" = true ∧
  ∀ id, id ∈ ["core"; "memory"] → ¬ switchable_member id "git.status".
Proof.
  assert (H : isToolAllowed (resolveEffectivePolicy 0 (withHeldToolGroups example_config ["core"; "memory"]) "coder" None None) "git.status" = true)
    by (vm_compute; reflexivity).
  split; [exact H|].
  apply (held_groups_exact 0 example_config ["core"; "memory"] "coder" None None "git.status"); [vm_compute; reflexivity|exact H].
Defined.

(** A creator whose profile is limited to reading files and to git. *)
Definition example_creator : PermissionProfileRecord :=
  mkProfile "p1" "Reviewer" None false profile_active scope_operator (Some "op") approve_all None ["fs.read"; "git.*"] ["fs.*"]
    ["git.add"] (Some roots_only) None "op" "2026-01-01T00:00:00.000Z" "2026-01-01T00:00:00.000Z" None.

Lemma scheduled_intersection_narrows_witness :
  matchesAnyToolPattern (creator_patterns example_creator) "git.status" = true ∧
  matchesAnyToolPattern (pp_deny example_creator) "git.status" = false ∧
  isToolAllowed (resolveEffectivePolicy 0 example_config "coder"
    (Some (buildScheduledCreatorIntersectionProfile example_creator "r1" ["git.status"; "memory.read"] "now")) None) "memory.read" = false.
Proof.
  destruct (scheduled_intersection_narrows 0 example_config "coder" None example_creator "r1" ["git.status"; "memory.read"] "now"
    "git.status") as (_ & H2 & H3 & _);
    [vm_compute; reflexivity|by apply (bool_decide_unpack _)|by left|vm_compute; reflexivity|].
  split; [exact H3|]. split; [exact H2|]. vm_compute. reflexivity.
Defined.

Definition heartbeat_config : ToolPolicyConfig :=
  mkConfig (mkTools None ["session.*"; "docs.search"; "memory.read"] [] None) ∅ example_sandbox.

Lemma heartbeat_read_only_witness :
  trim "memory.read" ∈ HEARTBEAT_READ_ONLY_ALLOW ∧
  isToolAllowed (resolveEffectivePolicy 0 heartbeat_config "a" (Some (resolveAutonomousPermissionProfile turn_heartbeat)) None)
    "session.status" = false.
Proof.
  split; [|vm_compute; reflexivity].
  apply (heartbeat_read_only 0 heartbeat_config "a" "memory.read"); [vm_compute; reflexivity| |constructor|vm_compute; reflexivity].
  repeat constructor; try discriminate;
    first [right; vm_compute; reflexivity|left; apply (bool_decide_unpack _); vm_compute; exact I].
Defined.

(** The proviso is needed: a configuration that allows every tool leaves tools
    outside the heartbeat list open, in bypass mode, as far as the resolver goes. *)
Example heartbeat_open_config :
  let policy := resolveEffectivePolicy 0 (mkConfig (mkTools None ["*"] [] None) ∅ example_sandbox) "a"
    (Some (resolveAutonomousPermissionProfile turn_heartbeat)) None in
  isToolAllowed policy "browser.navigate" = true ∧ isToolAllowed policy "calendar.create_event" = true ∧
  ep_approvalMode policy = bypass.
Proof. vm_compute. auto. Qed.
