(* ===== verification/DurableRuns.v ===== *)
(** * Durable runs (packages/storage/src/durable-run-repo.ts)

    The tables [durable_runs], [durable_retries], [durable_checkpoints] and
    [durable_dead_letters], and the two tables of reservations that the
    statements consult, on SQLite with foreign keys on.  [randomUUID()],
    [new Date().toISOString()] and the database clock (in milliseconds) are
    arguments.  No remote-worker Chat task is bound to a run here, so that
    [synchronizeRemoteWorkerChatTaskStatus] returns after its first read. *)
From stdpp Require Import pretty.
From S2P Require Import Prelude.
From S2P Require Import JsString.
From S2P Require Import JsTime.
From S2P Require Import JsJson.
From S2P Require Import JsJsonText.
From S2P Require Import JsObject.
From S2P Require Import Errors.

(** ** packages/contracts/src/durable.ts and the tables *)

Inductive DurableRunStatus :=
  | queued | running | waiting | paused | completed | failed | cancelled | dead_lettered.

#[export] Instance durable_status_eq_dec : EqDecision DurableRunStatus.
Proof. solve_decision. Defined.

Inductive CheckpointKind :=
  | run_created | run_started | run_waiting | run_resumed | run_completed | run_failed | run_cancelled
  | manual_replay_requested | continuation_gate | run_lease_expired | run_reclaimed | run_incomplete_worker_exit
  | run_retry_budget_exhausted | coding_progress | delegated_result_correction.

#[export] Instance checkpoint_kind_eq_dec : EqDecision CheckpointKind.
Proof. solve_decision. Defined.

Record DurableRunRow := mkRunRow {
  r_workflow_key : string;
  r_status : DurableRunStatus;
  r_attempt_count : Z;
  r_max_attempts : Z;
  r_payload_json : string;
  r_metadata_json : option string;
  r_started_at : option string;
  r_finished_at : option string;
  r_last_error : option string;
  r_lease_owner_id : option string;
  r_lease_expires_at : option string;
  r_lease_heartbeat_at : option string;
  r_version : Z;
  r_created_at : string;
  r_updated_at : string;
}.

#[export] Instance DurableRunRow_eta : Eta DurableRunRow := λ r,
  mkRunRow (r_workflow_key r) (r_status r) (r_attempt_count r) (r_max_attempts r) (r_payload_json r)
    (r_metadata_json r) (r_started_at r) (r_finished_at r) (r_last_error r) (r_lease_owner_id r)
    (r_lease_expires_at r) (r_lease_heartbeat_at r) (r_version r) (r_created_at r) (r_updated_at r).

(** Keyed by [(run_id, attempt_no)], which has a unique index. *)
Record DurableRetryRow := mkRetryRow {
  rt_retry_id : string;
  rt_reason : string;
  rt_next_retry_at : option string;
  rt_created_at : string;
}.

Record DurableCheckpointRow := mkCheckpointRow {
  cp_run_id : string;
  cp_checkpoint_kind : CheckpointKind;
  cp_state_json : string;
  cp_created_at : string;
}.

#[export] Instance checkpoint_row_eq_dec : EqDecision DurableCheckpointRow.
Proof. solve_decision. Defined.

(** Keyed by [run_id], which is unique. *)
Record DurableDeadLetterRow := mkDeadLetterRow {
  dl_dead_letter_id : string;
  dl_reason : string;
  dl_payload_json : string;
  dl_created_at : string;
  dl_resolved_at : option string;
  dl_resolution_note : option string;
}.

(** [governed_remediation_parent_reservations] with the kinds of its
    resolutions. *)
Record ParentReservation := mkReservation {
  pr_durable_run_id : string;
  pr_blocked_checkpoint_id : string;
  pr_resolution_kinds : list string;
}.

(** [chat_turn_secure_configuration_reservations]. *)
Record SecureReservation := mkSecure {
  sr_durable_run_id : string;
  sr_status : string;
  sr_expires_at : string;
}.

Record durable_db := mkDurableDb {
  durable_runs : gmap string DurableRunRow;
  durable_retries : gmap (string * Z) DurableRetryRow;
  durable_checkpoints : gmap string DurableCheckpointRow;
  durable_dead_letters : gmap string DurableDeadLetterRow;
  parent_reservations : gmap string ParentReservation;
  secure_reservations : gmap string SecureReservation;
}.

#[export] Instance durable_db_eta : Eta durable_db := λ d,
  mkDurableDb (durable_runs d) (durable_retries d) (durable_checkpoints d) (durable_dead_letters d)
    (parent_reservations d) (secure_reservations d).

Record DurableRunRecord := mkRun {
  runId : string;
  workflowKey : string;
  status : DurableRunStatus;
  attemptCount : Z;
  maxAttempts : Z;
  version : Z;
  payload : json;
  metadata : option json;
  startedAt : option string;
  finishedAt : option string;
  lastError : option string;
  leaseOwnerId : option string;
  leaseExpiresAt : option string;
  leaseHeartbeatAt : option string;
  createdAt : string;
  updatedAt : string;
}.

Record DurableCheckpointRecord := mkCheckpoint {
  checkpointId : string;
  cp_runId : string;
  checkpointKind : CheckpointKind;
  cp_state : json;
  cp_createdAt : string;
}.

Record DurableRetryRecord := mkRetry {
  retryId : string;
  rt_runId : string;
  attemptNo : Z;
  rt_reason_ : string;
  nextRetryAt : option string;
  rt_createdAt : string;
}.

Record DurableDeadLetterRecord := mkDeadLetter {
  deadLetterId : string;
  dl_runId : string;
  dl_reason_ : string;
  dl_payload : json;
  dl_createdAt : string;
  resolvedAt : option string;
  resolutionNote : option string;
}.

Notation durable := (M js_error durable_db).

(** ** Columns *)

Definition normalizeObject (value : option json) : json :=
  match value with Some v => if is_object v then v else JObject [] | None => JObject [] end.
Definition normalizeOptionalObject (value : option json) : option json :=
  match value with Some v => if is_object v then Some v else None | None => None end.

Definition mapRunRow (id : string) (row : DurableRunRow) : DurableRunRecord :=
  mkRun id (r_workflow_key row) (r_status row) (r_attempt_count row) (r_max_attempts row) (r_version row)
    (default (JObject []) (loadAndSanitize (Some (r_payload_json row)) (Some (JObject []))))
    (if truthy_opt (r_metadata_json row) then loadAndSanitize (r_metadata_json row) None else None)
    (r_started_at row) (r_finished_at row) (r_last_error row) (r_lease_owner_id row) (r_lease_expires_at row)
    (r_lease_heartbeat_at row) (r_created_at row) (r_updated_at row).

(** The columns that a record is written as. *)
Definition run_row (run : DurableRunRecord) : DurableRunRow :=
  mkRunRow (workflowKey run) (status run) (attemptCount run) (maxAttempts run) (json_stringify (payload run))
    (json_stringify <$> metadata run) (startedAt run) (finishedAt run) (lastError run) (leaseOwnerId run)
    (leaseExpiresAt run) (leaseHeartbeatAt run) (version run) (createdAt run) (updatedAt run).

(** ** Runs *)

Definition run_not_found (id : string) : js_error := NotFoundError (NotFoundEntity "Durable run" (Some id)).

Definition getRun (id : string) : durable DurableRunRecord := λ d,
  match durable_runs d !! id with
  | Some row => (Ok (mapRunRow id row), d)
  | None => (Err (run_not_found id), d)
  end.

(** Inside a transaction; SQLite takes the write lock when it begins. *)
Definition getRunForUpdate (id : string) : durable DurableRunRecord := getRun id.

Record CreateRunInput := mkCreateRun {
  cr_runId : option string;
  cr_workflowKey : string;
  cr_status : option DurableRunStatus;
  cr_attemptCount : option Z;
  cr_maxAttempts : option Z;
  cr_payload : option json;
  cr_metadata : option json;
  cr_startedAt : option string;
  cr_finishedAt : option string;
  cr_lastError : option string;
  cr_leaseOwnerId : option string;
  cr_leaseExpiresAt : option string;
  cr_leaseHeartbeatAt : option string;
  cr_version : option Z;
  cr_now : option string;
}.

Definition insertRunStmt (id : string) (row : DurableRunRow) : durable unit := λ d,
  match durable_runs d !! id with
  | Some _ => (Err (SqliteConstraintError "durable_runs.run_id"), d)
  | None => (Ok tt, d <| durable_runs := <[id := row]> (durable_runs d) |>)
  end.

Definition createRun (uuid nowIso : string) (input : CreateRunInput) : durable DurableRunRecord :=
  let now := default nowIso (cr_now input) in
  let run := mkRun (default uuid (cr_runId input)) (trim (cr_workflowKey input)) (default queued (cr_status input))
    (Z.max 0 (default 0 (cr_attemptCount input))) (Z.max 1 (default 3 (cr_maxAttempts input)))
    (Z.max 1 (default 1 (cr_version input))) (normalizeObject (cr_payload input))
    (normalizeOptionalObject (cr_metadata input)) (cr_startedAt input) (cr_finishedAt input)
    (trimmed_or_none (cr_lastError input)) (trimmed_or_none (cr_leaseOwnerId input)) (cr_leaseExpiresAt input)
    (cr_leaseHeartbeatAt input) now now in
  guard_throw (negb (truthy (workflowKey run))) (ValidationError (Some FIELD_REQUIRED) (Some "workflowKey") None) ;;
  insertRunStmt (runId run) (run_row run) ;;
  getRun (runId run).

(** The fields of an [updateRun] call. *)
Record UpdateRunInput := mkUpdateRun {
  ur_runId : string;
  ur_status : DurableRunStatus;
  ur_attemptCount : option Z;
  ur_maxAttempts : option Z;
  ur_payload : option json;
  ur_metadata : option json;
  ur_startedAt : option string;
  ur_finishedAt : option string;
  ur_clearFinishedAt : bool;
  ur_lastError : option string;
  ur_clearLastError : bool;
  ur_leaseOwnerId : option string;
  ur_leaseExpiresAt : option string;
  ur_leaseHeartbeatAt : option string;
  ur_clearLease : bool;
  ur_updatedAt : option string;
  ur_expectedVersion : option Z;
}.

(** An input that names a run and a status only. *)
Definition update_to (id : string) (s : DurableRunStatus) : UpdateRunInput :=
  mkUpdateRun id s None None None None None None false None false None None None false None None.

#[export] Instance UpdateRunInput_eta : Eta UpdateRunInput := λ i,
  mkUpdateRun (ur_runId i) (ur_status i) (ur_attemptCount i) (ur_maxAttempts i) (ur_payload i) (ur_metadata i)
    (ur_startedAt i) (ur_finishedAt i) (ur_clearFinishedAt i) (ur_lastError i) (ur_clearLastError i)
    (ur_leaseOwnerId i) (ur_leaseExpiresAt i) (ur_leaseHeartbeatAt i) (ur_clearLease i) (ur_updatedAt i)
    (ur_expectedVersion i).

Definition or_else {A} (x y : option A) : option A := match x with Some _ => x | None => y end.

Definition buildNextRun (nowIso : string) (current : DurableRunRecord) (input : UpdateRunInput) : DurableRunRecord :=
  mkRun (runId current) (workflowKey current) (ur_status input)
    (match ur_attemptCount input with Some n => Z.max 0 n | None => attemptCount current end)
    (match ur_maxAttempts input with Some n => Z.max 1 n | None => maxAttempts current end)
    (version current + 1)
    (match ur_payload input with Some p => normalizeObject (Some p) | None => payload current end)
    (match ur_metadata input with Some m => normalizeOptionalObject (Some m) | None => metadata current end)
    (or_else (ur_startedAt input) (startedAt current))
    (if ur_clearFinishedAt input then None else or_else (ur_finishedAt input) (finishedAt current))
    (if ur_clearLastError input then None
     else match ur_lastError input with Some e => trimmed_or_none (Some e) | None => lastError current end)
    (if ur_clearLease input then None else or_else (ur_leaseOwnerId input) (leaseOwnerId current))
    (if ur_clearLease input then None else or_else (ur_leaseExpiresAt input) (leaseExpiresAt current))
    (if ur_clearLease input then None else or_else (ur_leaseHeartbeatAt input) (leaseHeartbeatAt current))
    (createdAt current) (default nowIso (ur_updatedAt input)).

(** A reservation of the run that has been neither released nor resumed. *)
Definition open_reservation (id : string) (r : ParentReservation) : bool :=
  bool_decide (pr_durable_run_id r = id) &&
  negb (existsb (λ k, bool_decide (k = "released") || bool_decide (k = "resumed")) (pr_resolution_kinds r)).
Definition reserved (d : durable_db) (id : string) : bool :=
  existsb (open_reservation id) (map_to_list (parent_reservations d)).*2.

Definition is_active (s : DurableRunStatus) : bool := match s with queued | running => true | _ => false end.

(** The trigger [trg_durable_runs_secure_reservation_cancel_guard] (sqlite.ts)
    aborts the statement. *)
Definition secure_guard (d : durable_db) (clock : Z) (id : string) (old new : DurableRunStatus) : bool :=
  bool_decide (old = waiting) && negb (bool_decide (new = waiting)) &&
  existsb (λ r, bool_decide (sr_durable_run_id r = id) && bool_decide (sr_status r = "reserved") &&
                after_clock (Some (sr_expires_at r)) clock) (map_to_list (secure_reservations d)).*2.

(** [updateRunStmt]: the number of changed rows.  The columns [workflow_key] and
    [created_at] are not written. *)
Definition updateRunStmt (clock : Z) (next : DurableRunRecord) (expectedVersion : Z) : durable Z := λ d,
  match durable_runs d !! runId next with
  | Some row =>
      if bool_decide (r_version row = expectedVersion) && (negb (is_active (status next)) || negb (reserved d (runId next)))
      then
        if secure_guard d clock (runId next) (r_status row) (status next)
        then (Err (SqliteConstraintError "active secure configuration reservation blocks durable run transition"), d)
        else
          let new := run_row next <| r_workflow_key := r_workflow_key row |> <| r_created_at := r_created_at row |> in
          (Ok 1, d <| durable_runs := <[runId next := new]> (durable_runs d) |>)
      else (Ok 0, d)
  | None => (Ok 0, d)
  end.

Definition update_conflict (id : string) : js_error :=
  ConflictError (Some STATE_CONFLICT) ("Durable run " +:+ id +:+ " update conflict").

Definition updateRun (clock : Z) (nowIso : string) (input : UpdateRunInput) : durable DurableRunRecord :=
  transaction
    (current ← getRun (ur_runId input);
     let next := buildNextRun nowIso current input in
     changes ← updateRunStmt clock next (default (version current) (ur_expectedVersion input));
     guard_throw (changes <? 1) (update_conflict (ur_runId input)) ;;
     getRun (runId next)).

(** ** Claims and leases *)

Definition some_of {A} (m : durable A) : durable (option A) := a ← m; mret (Some a).

(** [tryClaimQueuedRun] after it has read the run; another worker may write
    between the read and this. *)
Definition tryClaimQueuedRunFrom (clock : Z) (nowIso : string) (current : DurableRunRecord)
    (id workerId heartbeatAt expiresAt : string) (updated : option string) : durable (option DurableRunRecord) :=
  if negb (bool_decide (status current = queued)) then mret None
  else
    let next := buildNextRun nowIso current
      (update_to id running <| ur_startedAt := Some (default heartbeatAt (startedAt current)) |>
        <| ur_clearFinishedAt := true |> <| ur_clearLastError := true |> <| ur_leaseOwnerId := Some workerId |>
        <| ur_leaseHeartbeatAt := Some heartbeatAt |> <| ur_leaseExpiresAt := Some expiresAt |>
        <| ur_updatedAt := Some (default heartbeatAt updated) |>) in
    changes ← updateRunStmt clock next (version current);
    if 0 <? changes then some_of (getRun id) else mret None.

Definition tryClaimQueuedRun (clock : Z) (nowIso id workerId heartbeatAt expiresAt : string) (updated : option string)
    : durable (option DurableRunRecord) :=
  current ← getRun id;
  tryClaimQueuedRunFrom clock nowIso current id workerId heartbeatAt expiresAt updated.

(** The retry of the highest attempt of a run. *)
Definition latest_attempt (d : durable_db) (id : string) : option Z :=
  foldr (λ (k : string * Z) m, if bool_decide (k.1 = id) then Some (match m with Some a => Z.max a k.2 | None => k.2 end) else m)
    None (map_to_list (durable_retries d)).*1.

(** The latest retry of the run lies in the future of the clock. *)
Definition retry_pending (d : durable_db) (clock : Z) (id : string) : bool :=
  match latest_attempt d id with
  | Some n => match durable_retries d !! (id, n) with Some r => after_clock (rt_next_retry_at r) clock | None => false end
  | None => false
  end.

(** [normalizeLeaseDurationMs] and [normalizeRetryDelayMs] on whole numbers; [None]
    is a number that is not finite. *)
Definition normalizeLeaseDurationMs (value : option Z) : res Z :=
  match value with
  | Some n => if n <=? 0 then Err (ValidationError None None (Some "Durable lease duration must be a positive number of milliseconds."))
              else Ok (Z.max 1 n)
  | None => Err (ValidationError None None (Some "Durable lease duration must be a positive number of milliseconds."))
  end.
Definition normalizeRetryDelayMs (value : option Z) : res Z :=
  match value with
  | Some n => if n <? 0 then Err (ValidationError None None (Some "Durable retry delay must be a non-negative number of milliseconds."))
              else Ok (Z.max 0 n)
  | None => Err (ValidationError None None (Some "Durable retry delay must be a non-negative number of milliseconds."))
  end.

(** The row that a claim under the database clock writes; [now] is the clock's
    text. *)
Definition claimed_row (now workerId : string) (expires : option string) (row : DurableRunRow) : DurableRunRow :=
  row <| r_status := running |> <| r_started_at := Some (default now (r_started_at row)) |>
      <| r_finished_at := None |> <| r_last_error := None |> <| r_lease_owner_id := Some workerId |>
      <| r_lease_heartbeat_at := Some now |> <| r_lease_expires_at := expires |>
      <| r_version := r_version row + 1 |> <| r_updated_at := now |>.

(** An update of run [id] under the database clock: [cond] decides, [f] gets the
    clock's text; [updated_at] may not be NULL. *)
Definition clocked_update (clock : Z) (id : string) (cond : durable_db → DurableRunRow → bool)
    (f : string → DurableRunRow → DurableRunRow) : durable Z := λ d,
  match durable_runs d !! id with
  | Some row =>
      if cond d row then
        match sqlite_iso clock with
        | Some now => (Ok 1, d <| durable_runs := <[id := f now row]> (durable_runs d) |>)
        | None => (Err (SqliteConstraintError "durable_runs.updated_at"), d)
        end
      else (Ok 0, d)
  | None => (Ok 0, d)
  end.

Definition claimable (clock : Z) (id : string) (d : durable_db) (row : DurableRunRow) : bool :=
  bool_decide (r_status row = queued) && negb (retry_pending d clock id).

Definition claimQueuedRunWithDatabaseClockStmt (clock : Z) (id workerId : string) (leaseDurationMs : Z) : durable Z :=
  clocked_update clock id (claimable clock id) (λ now, claimed_row now workerId (sqlite_iso (clock + leaseDurationMs))).

Definition tryClaimQueuedRunWithDatabaseClock (clock : Z) (id workerId : string) (leaseDurationMs : option Z)
    : durable (option DurableRunRecord) :=
  duration ← lift (normalizeLeaseDurationMs leaseDurationMs);
  changes ← claimQueuedRunWithDatabaseClockStmt clock id workerId duration;
  if 0 <? changes then some_of (getRun id) else mret None.

(** [status = 'running' AND lease_owner_id = worker AND lease_expires_at > clock]. *)
Definition live_lease (clock : Z) (workerId : string) (row : DurableRunRow) : bool :=
  bool_decide (r_status row = running) && bool_decide (r_lease_owner_id row = Some workerId) &&
  after_clock (r_lease_expires_at row) clock.

Definition renewed_row (now : string) (expires : option string) (row : DurableRunRow) : DurableRunRow :=
  row <| r_lease_heartbeat_at := Some now |> <| r_lease_expires_at := expires |>
      <| r_version := r_version row + 1 |> <| r_updated_at := now |>.

Definition renewLeaseWithDatabaseClockStmt (clock : Z) (id workerId : string) (leaseDurationMs : Z) : durable Z :=
  clocked_update clock id (λ _, live_lease clock workerId) (λ now, renewed_row now (sqlite_iso (clock + leaseDurationMs))).

Definition renewLeaseWithDatabaseClock (clock : Z) (id workerId : string) (leaseDurationMs : option Z)
    : durable (option DurableRunRecord) :=
  duration ← lift (normalizeLeaseDurationMs leaseDurationMs);
  changes ← renewLeaseWithDatabaseClockStmt clock id workerId duration;
  if 0 <? changes then some_of (getRun id) else mret None.

Definition renewLeaseFrom (clock : Z) (nowIso : string) (current : DurableRunRecord)
    (id workerId heartbeatAt expiresAt : string) (updated : option string) : durable (option DurableRunRecord) :=
  if negb (bool_decide (status current = running)) || negb (bool_decide (leaseOwnerId current = Some workerId))
  then mret None
  else some_of (updateRun clock nowIso
    (update_to id (status current) <| ur_leaseOwnerId := Some workerId |> <| ur_leaseHeartbeatAt := Some heartbeatAt |>
      <| ur_leaseExpiresAt := Some expiresAt |> <| ur_updatedAt := Some (default heartbeatAt updated) |>
      <| ur_expectedVersion := Some (version current) |>)).

Definition renewLease (clock : Z) (nowIso id workerId heartbeatAt expiresAt : string) (updated : option string)
    : durable (option DurableRunRecord) :=
  current ← getRun id; renewLeaseFrom clock nowIso current id workerId heartbeatAt expiresAt updated.

Definition releaseLeaseFrom (clock : Z) (nowIso : string) (current : DurableRunRecord) (id workerId : string)
    (updated : option string) : durable (option DurableRunRecord) :=
  if negb (bool_decide (leaseOwnerId current = Some workerId)) then mret None
  else some_of (updateRun clock nowIso
    (update_to id (status current) <| ur_clearLease := true |> <| ur_updatedAt := Some (default nowIso updated) |>
      <| ur_expectedVersion := Some (version current) |>)).

Definition releaseLease (clock : Z) (nowIso id workerId : string) (updated : option string)
    : durable (option DurableRunRecord) :=
  current ← getRun id; releaseLeaseFrom clock nowIso current id workerId updated.

(** [SELECT ... WHERE run_id = id AND cond]. *)
Definition select_run (id : string) (cond : DurableRunRow → bool) : durable (option DurableRunRecord) :=
  gets (λ d, match durable_runs d !! id with
             | Some row => if cond row then Some (mapRunRow id row) else None
             | None => None
             end).

(** [lease_expires_at > @now] compares the texts. *)
Definition lockActiveLeaseForUpdate (id expectedOwner now : string) : durable (option DurableRunRecord) :=
  select_run id (λ row, bool_decide (r_status row = running) && bool_decide (r_lease_owner_id row = Some expectedOwner) &&
    match r_lease_expires_at row with Some t => string_ltb now t | None => false end).

Definition lockFreshActiveLeaseForUpdate (clock : Z) (id expectedOwner : string) : durable (option DurableRunRecord) :=
  select_run id (live_lease clock expectedOwner).

Definition expired_lease (clock : Z) (expectedOwner : option string) (expectedExpiresAt : string) (row : DurableRunRow) : bool :=
  bool_decide (r_status row = running) && bool_decide (r_lease_owner_id row = expectedOwner) &&
  bool_decide (r_lease_expires_at row = Some expectedExpiresAt) && reached_by_clock (r_lease_expires_at row) clock.

Definition lockExpiredLeaseForUpdate (clock : Z) (id : string) (expectedOwner : option string) (expectedExpiresAt : string)
    : durable (option DurableRunRecord) :=
  select_run id (expired_lease clock expectedOwner expectedExpiresAt).

(** ** Lists *)

(** [Math.max(1, Math.min(max, Math.floor(limit)))]. *)
Definition safe_limit (max limit : Z) : Z := Z.max 1 (Z.min max limit).

Definition run_list (d : durable_db) : list (string * DurableRunRow) := map_to_list (durable_runs d).

Definition getRunsByIds (ids : list (option string)) : durable (gmap string DurableRunRecord) :=
  gets (λ d,
    let wanted := unique (List.filter truthy (map (λ i, trim (default "" i)) ids)) in
    foldl (λ (m : gmap string DurableRunRecord) id,
      match durable_runs d !! id with Some row => <[id := mapRunRow id row]> m | None => m end) ∅ wanted).

Definition listRuns (limit : Z) : durable (list DurableRunRecord) :=
  gets (λ d, map (λ r, mapRunRow r.1 r.2)
    (sql_limit (safe_limit 500 limit) (order_by (λ x y, string_leb (r_created_at y.2) (r_created_at x.2)) (run_list d)))).

Definition listRunIdsByStatus (s : DurableRunStatus) (limit : Z) : durable (list string) :=
  gets (λ d, map fst (sql_limit (safe_limit 5000 limit)
    (order_by (λ x y, string_leb (r_created_at x.2) (r_created_at y.2))
       (List.filter (λ r, bool_decide (r_status r.2 = s)) (run_list d))))).

(** A scan by run id behind [afterRunId]. *)
Definition scan_run_ids (cond : DurableRunRow → bool) (afterRunId : option string) (limit : Z) : durable (list string) :=
  gets (λ d, map fst (sql_limit limit (order_by (λ x y, string_leb x.1 y.1)
    (List.filter (λ r, cond r.2 && match afterRunId with Some a => string_ltb a r.1 | None => true end) (run_list d))))).

Definition listUnstartedOrchestrationRunIds (limit : Z) (afterRunId : option string) : durable (list string) :=
  scan_run_ids (λ row, (bool_decide (r_status row = queued) || bool_decide (r_status row = paused)) &&
    bool_decide (r_workflow_key row = "orchestration.plan.execute")) afterRunId (safe_limit 1000 limit).

(** [metadata_json LIKE '%...%']: SQLite compares ASCII letters without case. *)
Definition metadata_like (needle : string) (row : DurableRunRow) : bool :=
  match r_metadata_json row with
  | Some text => includes (string_map (λ c, if (N_of_ascii c <? 128)%N then lower_char c else c) needle)
                          (string_map (λ c, if (N_of_ascii c <? 128)%N then lower_char c else c) text)
  | None => false
  end.

Definition listPendingLinkedFinalizationRunIds (limit : Z) (afterRunId : option string) : durable (list string) :=
  scan_run_ids (λ row, bool_decide (r_status row = failed) &&
    metadata_like (String dquote "linkedFinalizationPending" +:+ String dquote ":") row) afterRunId (safe_limit 5000 limit).

Definition listPendingAutonomousChatPostCommitRunIds (limit : Z) (afterRunId : option string) : durable (list string) :=
  scan_run_ids (λ row, bool_decide (r_status row = completed) && bool_decide (r_workflow_key row = "chat.turn.execute") &&
    metadata_like (String dquote "autonomousChatPostCommitPending" +:+ String dquote ":") row) afterRunId (safe_limit 5000 limit).

Definition listPendingGeneralChatPostCommitRunIds (limit : Z) (afterRunId : option string) : durable (list string) :=
  scan_run_ids (λ row,
    existsb (λ s, bool_decide (r_status row = s)) [completed; failed; cancelled; waiting] &&
    bool_decide (r_workflow_key row = "chat.turn.execute") &&
    metadata_like (String dquote "generalChatPostCommitPending" +:+ String dquote ":") row) afterRunId (safe_limit 5000 limit).

Definition listExpiredRunningRunIds (clock limit : Z) : durable (list string) :=
  gets (λ d, map fst (sql_limit (safe_limit 5000 limit)
    (order_by (λ x y, negb (pair_ltb (r_updated_at y.2, y.1) (r_updated_at x.2, x.1)))
       (List.filter (λ r, bool_decide (r_status r.2 = running) && reached_by_clock (r_lease_expires_at r.2) clock) (run_list d))))).

Definition countRuns : durable Z := gets (λ d, Z.of_nat (size (durable_runs d))).

(** Statuses without a run have no entry. *)
Definition statusCounts : durable (list (DurableRunStatus * Z)) :=
  gets (λ d, List.filter (λ e, 0 <? e.2)
    (map (λ s, (s, Z.of_nat (length (List.filter (λ r, bool_decide (r_status r.2 = s)) (run_list d)))))
       [queued; running; waiting; paused; completed; failed; cancelled; dead_lettered])).

(** ** Checkpoints *)

Definition mapCheckpointRow (id : string) (row : DurableCheckpointRow) : DurableCheckpointRecord :=
  mkCheckpoint id (cp_run_id row) (cp_checkpoint_kind row)
    (default (JObject []) (loadAndSanitize (Some (cp_state_json row)) (Some (JObject [])))) (cp_created_at row).

Definition foreign_key_error : js_error := SqliteConstraintError "FOREIGN KEY constraint failed".

Definition createCheckpoint (uuid nowIso : string) (checkpointId_ : option string) (run : string) (kind : CheckpointKind)
    (state : option json) (createdAt_ : option string) : durable DurableCheckpointRecord := λ d,
  let cp := mkCheckpoint (default uuid checkpointId_) run kind (normalizeObject state) (default nowIso createdAt_) in
  match durable_checkpoints d !! checkpointId cp, durable_runs d !! run with
  | Some _, _ => (Err (SqliteConstraintError "durable_checkpoints.checkpoint_id"), d)
  | None, None => (Err foreign_key_error, d)
  | None, Some _ =>
      (Ok cp, d <| durable_checkpoints := <[checkpointId cp := mkCheckpointRow run kind (json_stringify (cp_state cp)) (cp_createdAt cp)]>
                     (durable_checkpoints d) |>)
  end.

Definition run_checkpoints (d : durable_db) (run : string) : list (string * DurableCheckpointRow) :=
  List.filter (λ c, bool_decide (cp_run_id c.2 = run)) (map_to_list (durable_checkpoints d)).

Definition listCheckpoints (run : string) (limit : Z) : durable (list DurableCheckpointRecord) :=
  gets (λ d, map (λ c, mapCheckpointRow c.1 c.2) (sql_limit (safe_limit 2000 limit)
    (order_by (λ x y, string_leb (cp_created_at x.2) (cp_created_at y.2)) (run_checkpoints d run)))).

(** [ORDER BY created_at DESC, checkpoint_id DESC]. *)
Definition checkpoint_key (c : string * DurableCheckpointRow) : string * string := (cp_created_at c.2, c.1).
Definition latest_of_kind (d : durable_db) (run : string) (kind : CheckpointKind) : option (string * DurableCheckpointRow) :=
  hd_error (order_by (λ x y, negb (pair_ltb (checkpoint_key x) (checkpoint_key y)))
    (List.filter (λ c, bool_decide (cp_checkpoint_kind c.2 = kind)) (run_checkpoints d run))).

Definition getLatestCheckpointByKind (run : string) (kind : CheckpointKind) : durable (option DurableCheckpointRecord) :=
  gets (λ d, (λ c, mapCheckpointRow c.1 c.2) <$> latest_of_kind d run kind).

(** [expectedRunVersion] as [None] is a number that is no safe integer. *)
Definition lockWaitingCheckpointForUpdate (run checkpoint : string) (expectedRunVersion : option Z)
    : durable (option (DurableRunRecord * DurableCheckpointRecord)) :=
  match expectedRunVersion with
  | None => throw (ValidationError None None (Some "Waiting checkpoint requires an exact positive run version."))
  | Some v =>
      guard_throw (v <? 1) (ValidationError None None (Some "Waiting checkpoint requires an exact positive run version.")) ;;
      r ← getRunForUpdate run;
      if negb (bool_decide (status r = waiting)) || negb (bool_decide (version r = v)) then mret None
      else
        found ← gets (λ d, latest_of_kind d run run_waiting);
        match found with
        | Some (id, row) =>
            if bool_decide (id = checkpoint) then
              match json_parse (cp_state_json row) with
              | None => throw (ValidationError None None (Some "Waiting checkpoint has malformed stored state."))
              | Some state =>
                  if is_object state
                  then mret (Some (r, mkCheckpoint id (cp_run_id row) (cp_checkpoint_kind row) state (cp_created_at row)))
                  else throw (ValidationError None None (Some "Waiting checkpoint state must be an object."))
              end
            else mret None
        | None => mret None
        end
  end.

(** ** Retries *)

Definition retry_record (run : string) (attempt : Z) (row : DurableRetryRow) : DurableRetryRecord :=
  mkRetry (rt_retry_id row) run attempt (rt_reason row) (rt_next_retry_at row) (rt_created_at row).

Definition listRetries (run : string) (limit : Z) : durable (list DurableRetryRecord) :=
  gets (λ d, map (λ e, retry_record e.1.1 e.1.2 e.2) (sql_limit (safe_limit 1000 limit)
    (order_by (λ x y : (string * Z) * DurableRetryRow, x.1.2 <=? y.1.2)
       (List.filter (λ e : (string * Z) * DurableRetryRow, bool_decide (e.1.1 = run)) (map_to_list (durable_retries d)))))).

(** [INSERT ... ON CONFLICT(run_id, attempt_no) DO UPDATE SET reason, next_retry_at].
    The retry id is the primary key and the run a foreign key. *)
Definition upsertRetryStmt (run : string) (attempt : Z) (row : DurableRetryRow) : durable unit := λ d,
  match durable_retries d !! (run, attempt) with
  | Some old =>
      (Ok tt, d <| durable_retries := <[(run, attempt) := mkRetryRow (rt_retry_id old) (rt_reason row) (rt_next_retry_at row)
                                                            (rt_created_at old)]> (durable_retries d) |>)
  | None =>
      if existsb (λ r, bool_decide (rt_retry_id r = rt_retry_id row)) (map_to_list (durable_retries d)).*2
      then (Err (SqliteConstraintError "durable_retries.retry_id"), d)
      else match durable_runs d !! run with
           | None => (Err foreign_key_error, d)
           | Some _ => (Ok tt, d <| durable_retries := <[(run, attempt) := row]> (durable_retries d) |>)
           end
  end.

Definition reason_required (reason : string) : durable unit :=
  guard_throw (negb (truthy reason)) (ValidationError (Some FIELD_REQUIRED) (Some "reason") None).

Definition upsertRetry (uuid nowIso : string) (retryId_ : option string) (run : string) (attempt : Z) (reason : string)
    (nextRetryAt_ createdAt_ : option string) : durable DurableRetryRecord :=
  let record := mkRetry (default uuid retryId_) run (Z.max 1 attempt) (trim reason) nextRetryAt_ (default nowIso createdAt_) in
  reason_required (rt_reason_ record) ;;
  upsertRetryStmt run (attemptNo record) (mkRetryRow (retryId record) (rt_reason_ record) (nextRetryAt record) (rt_createdAt record)) ;;
  rows ← listRetries run 100;
  mret (default record (last rows)).

Definition retry_not_persisted (run : string) (attempt : Z) : js_error := JsError ("Durable retry " +:+ run +:+ "/" +:+ pretty attempt +:+ " was not persisted.").

(** The times are the database's. *)
Definition upsertRetryWithDatabaseClock (clock : Z) (uuid : string) (retryId_ : option string) (run : string) (attempt : Z)
    (reason : string) (delayMs : option Z) : durable DurableRetryRecord :=
  delay ← lift (normalizeRetryDelayMs delayMs);
  reason_required (trim reason) ;;
  now ← lift (match sqlite_iso clock with Some t => Ok t | None => Err (SqliteConstraintError "durable_retries.created_at") end);
  upsertRetryStmt run (Z.max 1 attempt) (mkRetryRow (default uuid retryId_) (trim reason) (sqlite_iso (clock + delay)) now) ;;
  rows ← listRetries run 100;
  match List.find (λ item, attemptNo item =? Z.max 1 attempt) rows with
  | Some inserted => mret inserted
  | None => throw (retry_not_persisted run (Z.max 1 attempt))
  end.

(** ** Dead letters *)

Definition mapDeadLetterRow (run : string) (row : DurableDeadLetterRow) : DurableDeadLetterRecord :=
  mkDeadLetter (dl_dead_letter_id row) run (dl_reason row) (safeJsonParse (dl_payload_json row) (JObject []))
    (dl_created_at row) (dl_resolved_at row) (dl_resolution_note row).

Definition upsertDeadLetterStmt (run : string) (row : DurableDeadLetterRow) : durable unit := λ d,
  match durable_dead_letters d !! run with
  | Some old =>
      (Ok tt, d <| durable_dead_letters := <[run := mkDeadLetterRow (dl_dead_letter_id old) (dl_reason row) (dl_payload_json row)
                     (dl_created_at old) (dl_resolved_at row) (dl_resolution_note row)]> (durable_dead_letters d) |>)
  | None =>
      if existsb (λ r, bool_decide (dl_dead_letter_id r = dl_dead_letter_id row)) (map_to_list (durable_dead_letters d)).*2
      then (Err (SqliteConstraintError "durable_dead_letters.dead_letter_id"), d)
      else match durable_runs d !! run with
           | None => (Err foreign_key_error, d)
           | Some _ => (Ok tt, d <| durable_dead_letters := <[run := row]> (durable_dead_letters d) |>)
           end
  end.

Definition getDeadLetterByRun (run : string) : durable (option DurableDeadLetterRecord) :=
  gets (λ d, mapDeadLetterRow run <$> durable_dead_letters d !! run).

Definition dead_letter_by_id (d : durable_db) (id : string) : option (string * DurableDeadLetterRow) :=
  List.find (λ e, bool_decide (dl_dead_letter_id e.2 = id)) (map_to_list (durable_dead_letters d)).

Definition getDeadLetterById (id : string) : durable DurableDeadLetterRecord := λ d,
  match dead_letter_by_id d id with
  | Some (run, row) => (Ok (mapDeadLetterRow run row), d)
  | None => (Err (NotFoundError (NotFoundEntity "Durable dead letter" (Some id))), d)
  end.

Definition upsertDeadLetter (uuid nowIso : string) (deadLetterId_ : option string) (run reason : string) (payload_ : option json)
    (createdAt_ resolvedAt_ note : option string) : durable DurableDeadLetterRecord :=
  let record := mkDeadLetter (default uuid deadLetterId_) run (trim reason) (normalizeObject payload_)
    (default nowIso createdAt_) resolvedAt_ (trimmed_or_none note) in
  reason_required (dl_reason_ record) ;;
  upsertDeadLetterStmt run (mkDeadLetterRow (deadLetterId record) (dl_reason_ record) (json_stringify (dl_payload record))
    (dl_createdAt record) (resolvedAt record) (resolutionNote record)) ;;
  updated ← getDeadLetterByRun run;
  mret (default record updated).

Definition listDeadLetters (limit : Z) : durable (list DurableDeadLetterRecord) :=
  gets (λ d, map (λ e, mapDeadLetterRow e.1 e.2) (sql_limit (safe_limit 1000 limit)
    (order_by (λ x y, string_leb (dl_created_at y.2) (dl_created_at x.2)) (map_to_list (durable_dead_letters d))))).

Definition resolveDeadLetterStmt (id : string) (at_ : string) (note : option string) : durable Z := λ d,
  match dead_letter_by_id d id with
  | Some (run, row) =>
      if bool_decide (dl_resolved_at row = None)
      then (Ok 1, d <| durable_dead_letters := <[run := mkDeadLetterRow (dl_dead_letter_id row) (dl_reason row)
                         (dl_payload_json row) (dl_created_at row) (Some at_) note]> (durable_dead_letters d) |>)
      else (Ok 0, d)
  | None => (Ok 0, d)
  end.

Definition resolveDeadLetter (nowIso id : string) (resolvedAt_ note : option string) : durable DurableDeadLetterRecord :=
  existing ← getDeadLetterById id;
  changes ← resolveDeadLetterStmt id (default nowIso resolvedAt_) (trimmed_or_none note);
  guard_throw (negb (changes =? 1)) (ConflictError (Some STATE_CONFLICT) ("Durable dead letter " +:+ id +:+ " is already resolved")) ;;
  getDeadLetterById (deadLetterId existing).

(** ** Pruning of checkpoints *)

Record PruneCheckpointsResult := mkPruned {
  prunedOrphans : Z;
  prunedAged : Z;
  finalBytes : Z;
  diskBudgetBytes : Z;
}.

(** [deleteByIdStmt]: a checkpoint that a reservation names is kept. *)
Definition reserved_checkpoint (d : durable_db) (id : string) : bool :=
  existsb (λ r, bool_decide (pr_blocked_checkpoint_id r = id)) (map_to_list (parent_reservations d)).*2.
Definition deleteByIdStmt (id : string) (d : durable_db) : Z * durable_db :=
  match durable_checkpoints d !! id with
  | Some _ =>
      if reserved_checkpoint d id then (0, d)
      else (1, d <| durable_checkpoints := delete id (durable_checkpoints d) |>)
  | None => (0, d)
  end.

Definition measureCheckpointBytes (d : durable_db) : Z :=
  foldr (λ c n, byte_length (cp_state_json c) + n) 0 (map_to_list (durable_checkpoints d)).*2.

Definition is_terminal (s : DurableRunStatus) : bool :=
  match s with completed | failed | cancelled | dead_lettered => true | _ => false end.

Definition orphan_ids (d : durable_db) : list string :=
  map fst (List.filter (λ c, bool_decide (durable_runs d !! cp_run_id c.2 = None)) (map_to_list (durable_checkpoints d))).

(** [ORDER BY cp.run_id, cp.created_at, cp.checkpoint_id]. *)
Definition terminal_checkpoints (d : durable_db) : list (string * DurableCheckpointRow) :=
  order_by (λ x y, if string_ltb (cp_run_id x.2) (cp_run_id y.2) then true
                   else if string_ltb (cp_run_id y.2) (cp_run_id x.2) then false
                   else negb (pair_ltb (checkpoint_key y) (checkpoint_key x)))
    (List.filter (λ c, match durable_runs d !! cp_run_id c.2 with Some r => is_terminal (r_status r) | None => false end)
       (map_to_list (durable_checkpoints d))).

(** [perRunBuckets]: the checkpoints of each run, the runs in order. *)
Definition buckets (rows : list (string * DurableCheckpointRow)) : list (list (string * DurableCheckpointRow)) :=
  map (λ run, List.filter (λ c, bool_decide (cp_run_id c.2 = run)) rows) (unique (map (λ c, cp_run_id c.2) rows)).

Definition delete_all (ids : list string) (acc : Z * durable_db) : Z * durable_db :=
  foldl (λ acc id, let '(n, d) := deleteByIdStmt id acc.2 in (acc.1 + n, d)) acc ids.

(** The loop under the disk budget: [(pruned, (bytes, d))]. *)
Fixpoint prune_to_budget (budget : Z) (victims : list (string * DurableCheckpointRow)) (pruned bytes : Z) (d : durable_db)
    : Z * durable_db :=
  match victims with
  | [] => (pruned, d)
  | (id, row) :: victims' =>
      if bytes <=? budget then (pruned, d)
      else
        let '(n, d') := deleteByIdStmt id d in
        if 0 <? n then prune_to_budget budget victims' (pruned + n) (bytes - byte_length (cp_state_json row)) d'
        else prune_to_budget budget victims' pruned bytes d'
  end.

Section Prune.
(** [String.prototype.localeCompare] of the host's locale. *)
Variable localeCompare : string → string → Z.

(** The comparison of the sort by age. *)
Definition age_le (x y : string * DurableCheckpointRow) : bool :=
  if bool_decide (cp_created_at x.2 = cp_created_at y.2) then localeCompare x.1 y.1 <=? 0
  else localeCompare (cp_created_at x.2) (cp_created_at y.2) <=? 0.

Definition pruneCheckpoints (keepPerRun_ diskBudgetBytes_ : Z) : durable PruneCheckpointsResult := λ d,
  let keepPerRun := Z.max 1 keepPerRun_ in
  let budget := Z.max 0 diskBudgetBytes_ in
  let '(orphans, d1) := delete_all (orphan_ids d) (0, d) in
  let bs := buckets (terminal_checkpoints d1) in
  let overflow (b : list (string * DurableCheckpointRow)) := (length b - Z.to_nat keepPerRun)%nat in
  let '(aged, d2) := delete_all (concat (map (λ b, map fst (take (overflow b) b)) bs)) (0, d1) in
  let surviving := concat (map (λ b, drop (overflow b) b) bs) in
  let bytes := measureCheckpointBytes d2 in
  let '(aged, d3) :=
    if budget <? bytes then prune_to_budget budget (order_by age_le surviving) aged bytes d2 else (aged, d2) in
  (Ok (mkPruned orphans aged (measureCheckpointBytes d3) budget), d3).
End Prune.
