(* ===== verification/DurableRunTheorems.v ===== *)
(** * Durable runs: optimistic locking, leases, retries and reservations *)
From S2P Require Import Prelude.
From S2P Require Import JsString.
From S2P Require Import JsTime.
From S2P Require Import JsJson.
From S2P Require Import Errors.
From S2P Require Import DurableRuns.

(** ** What each call does to the runs *)

(** The row that an accepted update writes. *)
Definition next_row (nowIso id : string) (row : DurableRunRow) (input : UpdateRunInput) : DurableRunRow :=
  run_row (buildNextRun nowIso (mapRunRow id row) input)
    <| r_workflow_key := r_workflow_key row |> <| r_created_at := r_created_at row |>.

Definition set_run (id : string) (row : DurableRunRow) (d : durable_db) : durable_db :=
  d <| durable_runs := <[id := row]> (durable_runs d) |>.

Lemma updateRun_run clock nowIso input d :
  let id := ur_runId input in
  updateRun clock nowIso input d =
    match durable_runs d !! id with
    | None => (Err (run_not_found id), d)
    | Some row =>
        if bool_decide (r_version row = default (r_version row) (ur_expectedVersion input)) &&
           (negb (is_active (ur_status input)) || negb (reserved d id))
        then
          if secure_guard d clock id (r_status row) (ur_status input)
          then (Err (SqliteConstraintError "active secure configuration reservation blocks durable run transition"), d)
          else (Ok (mapRunRow id (next_row nowIso id row input)), set_run id (next_row nowIso id row input) d)
        else (Err (update_conflict id), d)
    end.
Proof.
  intros id. unfold updateRun, transaction, mbind, M_bind, getRun at 1. fold id.
  destruct (durable_runs d !! id) as [row|] eqn:Hrow; [|done].
  unfold updateRunStmt. change (runId (buildNextRun nowIso (mapRunRow id row) input)) with id.
  change (status (buildNextRun nowIso (mapRunRow id row) input)) with (ur_status input).
  change (version (mapRunRow id row)) with (r_version row). rewrite Hrow.
  destruct (bool_decide _ && _); [|done]. destruct (secure_guard _ _ _ _ _); [done|].
  unfold guard_throw, lift, throw_when, getRun. cbn [set_field durable_runs]. cbn.
  by rewrite lookup_insert_eq.
Qed.

Lemma claimFrom_run clock nowIso current id worker hb expires upd d :
  runId current = id →
  tryClaimQueuedRunFrom clock nowIso current id worker hb expires upd d =
    if bool_decide (status current = queued) then
      match durable_runs d !! id with
      | Some row =>
          let next := buildNextRun nowIso current
            (update_to id running <| ur_startedAt := Some (default hb (startedAt current)) |>
              <| ur_clearFinishedAt := true |> <| ur_clearLastError := true |> <| ur_leaseOwnerId := Some worker |>
              <| ur_leaseHeartbeatAt := Some hb |> <| ur_leaseExpiresAt := Some expires |>
              <| ur_updatedAt := Some (default hb upd) |>) in
          if bool_decide (r_version row = version current) && negb (reserved d id) then
            if secure_guard d clock id (r_status row) running
            then (Err (SqliteConstraintError "active secure configuration reservation blocks durable run transition"), d)
            else
              let new := run_row next <| r_workflow_key := r_workflow_key row |> <| r_created_at := r_created_at row |> in
              (Ok (Some (mapRunRow id new)), set_run id new d)
          else (Ok None, d)
      | None => (Ok None, d)
      end
    else (Ok None, d).
Proof.
  intros <-. unfold tryClaimQueuedRunFrom. case_bool_decide as Hq; cbn [negb]; [|done].
  set (next := buildNextRun nowIso current _). unfold mbind, M_bind, updateRunStmt.
  change (runId next) with (runId current). change (status next) with running. cbn [is_active negb orb].
  destruct (durable_runs d !! runId current) as [row|] eqn:Hrow; [|done].
  destruct (bool_decide _ && _); [|done]. destruct (secure_guard _ _ _ _ _); [done|].
  change (0 <? 1) with true. unfold some_of, mbind, M_bind, getRun. cbn [set_field durable_runs]. cbn.
  by rewrite lookup_insert_eq.
Qed.

Lemma clocked_run clock id cond f d :
  clocked_update clock id cond f d =
    match durable_runs d !! id with
    | Some row =>
        if cond d row then
          match sqlite_iso clock with
          | Some now => (Ok 1, set_run id (f now row) d)
          | None => (Err (SqliteConstraintError "durable_runs.updated_at"), d)
          end
        else (Ok 0, d)
    | None => (Ok 0, d)
    end.
Proof. reflexivity. Qed.

(** ** Every change of a run raises its version *)

Definition row_evolves (row row' : DurableRunRow) : Prop :=
  r_version row ≤ r_version row' ∧ (r_version row = r_version row' → row = row') ∧
  r_workflow_key row = r_workflow_key row' ∧ r_created_at row = r_created_at row'.

Definition runs_evolve (d d' : durable_db) : Prop :=
  ∀ id row, durable_runs d !! id = Some row → ∃ row', durable_runs d' !! id = Some row' ∧ row_evolves row row'.

#[export] Instance row_evolves_preorder : PreOrder row_evolves.
Proof.
  split; [by intros row|]. intros a b c (V1 & E1 & W1 & C1) (V2 & E2 & W2 & C2).
  split; [lia|]. split; [|split; congruence]. intros H. rewrite E1 by lia. apply E2. lia.
Qed.

#[export] Instance runs_evolve_preorder : PreOrder runs_evolve.
Proof.
  split; [intros d id row H; by exists row|]. intros a b c Hab Hbc id row H.
  destruct (Hab id row H) as (row1 & H1 & E1). destruct (Hbc id row1 H1) as (row2 & H2 & E2).
  exists row2. split; [done|]. by etrans.
Qed.

Lemma set_run_evolves id new d :
  (∀ row, durable_runs d !! id = Some row → row_evolves row new) → runs_evolve d (set_run id new d).
Proof.
  intros H id' row Hrow. cbn. destruct (decide (id = id')) as [<-|Hne].
  - rewrite lookup_insert_eq. eauto.
  - rewrite lookup_insert_ne by done. exists row. split; [done|]. reflexivity.
Qed.

Lemma same_runs_evolve d d' : durable_runs d' = durable_runs d → runs_evolve d d'.
Proof. intros E id row H. exists row. rewrite E. split; [done|]. reflexivity. Qed.

Lemma version_step_evolves row new :
  r_version new = r_version row + 1 → r_workflow_key new = r_workflow_key row → r_created_at new = r_created_at row →
  row_evolves row new.
Proof. intros V W C. split; [lia|]. split; [lia|]. by rewrite W, C. Qed.

(** ** Histories: the calls that write, by any callers in any order, and what
    other repositories do to the reservations *)

(** The counters of a record that was read from the table. *)
Definition read_counters (run : DurableRunRecord) : Prop := 0 ≤ attemptCount run ∧ 1 ≤ maxAttempts run.

(** A claim may use a record read long before ([current]). *)
Inductive durable_call : durable_db → durable_db → Prop :=
  | call_create uuid nowIso input d : durable_call d (createRun uuid nowIso input d).2
  | call_update clock nowIso input d : durable_call d (updateRun clock nowIso input d).2
  | call_claim clock nowIso current worker hb expires upd d :
      read_counters current →
      durable_call d (tryClaimQueuedRunFrom clock nowIso current (runId current) worker hb expires upd d).2
  | call_claim_clock clock id worker duration d :
      durable_call d (tryClaimQueuedRunWithDatabaseClock clock id worker duration d).2
  | call_renew clock nowIso current worker hb expires upd d :
      durable_call d (renewLeaseFrom clock nowIso current (runId current) worker hb expires upd d).2
  | call_renew_clock clock id worker duration d :
      durable_call d (renewLeaseWithDatabaseClock clock id worker duration d).2
  | call_release clock nowIso current worker upd d :
      durable_call d (releaseLeaseFrom clock nowIso current (runId current) worker upd d).2
  | call_checkpoint uuid nowIso cid run kind state at_ d :
      durable_call d (createCheckpoint uuid nowIso cid run kind state at_ d).2
  | call_retry uuid nowIso rid run attempt reason next at_ d :
      durable_call d (upsertRetry uuid nowIso rid run attempt reason next at_ d).2
  | call_retry_clock clock uuid rid run attempt reason delay d :
      durable_call d (upsertRetryWithDatabaseClock clock uuid rid run attempt reason delay d).2
  | call_dead_letter uuid nowIso did run reason payload at_ resolved note d :
      durable_call d (upsertDeadLetter uuid nowIso did run reason payload at_ resolved note d).2
  | call_resolve nowIso id at_ note d : durable_call d (resolveDeadLetter nowIso id at_ note d).2
  | call_prune compare keep budget d : durable_call d (pruneCheckpoints compare keep budget d).2.

Inductive durable_step (d : durable_db) : durable_db → Prop :=
  | step_call d' : durable_call d d' → durable_step d d'
  | step_reservations parents secures :
      durable_step d (d <| parent_reservations := parents |> <| secure_reservations := secures |>).

(** ** Calls that leave the runs alone *)

Definition same_runs (d d' : durable_db) : Prop :=
  durable_runs d' = durable_runs d ∧ parent_reservations d' = parent_reservations d.
#[export] Instance same_runs_preorder : PreOrder same_runs.
Proof. split; [done|]. intros a b c [H1 H2] [H3 H4]. split; congruence. Qed.
Abbreviation keeps_runs := (moves same_runs).

Lemma upsertRetryStmt_keeps run attempt row : keeps_runs (upsertRetryStmt run attempt row).
Proof. intros d. unfold upsertRetryStmt. repeat case_match; done. Qed.

Lemma upsertDeadLetterStmt_keeps run row : keeps_runs (upsertDeadLetterStmt run row).
Proof. intros d. unfold upsertDeadLetterStmt. repeat case_match; done. Qed.

Lemma resolveDeadLetterStmt_keeps id at_ note : keeps_runs (resolveDeadLetterStmt id at_ note).
Proof. intros d. unfold resolveDeadLetterStmt. repeat case_match; done. Qed.

Lemma getDeadLetterById_keeps id : keeps_runs (getDeadLetterById id).
Proof. intros d. unfold getDeadLetterById. repeat case_match; done. Qed.

Lemma createCheckpoint_keeps uuid nowIso cid run kind state at_ : keeps_runs (createCheckpoint uuid nowIso cid run kind state at_).
Proof. intros d. unfold createCheckpoint. repeat case_match; done. Qed.

Lemma upsertRetry_keeps uuid nowIso rid run attempt reason next at_ : keeps_runs (upsertRetry uuid nowIso rid run attempt reason next at_).
Proof. unfold upsertRetry, reason_required, listRetries. moves. apply upsertRetryStmt_keeps. Qed.

Lemma upsertRetryClock_keeps clock uuid rid run attempt reason delay :
  keeps_runs (upsertRetryWithDatabaseClock clock uuid rid run attempt reason delay).
Proof.
  unfold upsertRetryWithDatabaseClock, reason_required, listRetries. moves; [apply upsertRetryStmt_keeps|].
  case_match; moves.
Qed.

Lemma upsertDeadLetter_keeps uuid nowIso did run reason p at_ r note :
  keeps_runs (upsertDeadLetter uuid nowIso did run reason p at_ r note).
Proof. unfold upsertDeadLetter, reason_required, getDeadLetterByRun. moves. apply upsertDeadLetterStmt_keeps. Qed.

Lemma resolveDeadLetter_keeps nowIso id at_ note : keeps_runs (resolveDeadLetter nowIso id at_ note).
Proof. unfold resolveDeadLetter. moves; [apply getDeadLetterById_keeps|apply resolveDeadLetterStmt_keeps|apply getDeadLetterById_keeps]. Qed.

(** A deletion touches the checkpoints only. *)
Definition checkpoints_only (d d' : durable_db) : Prop :=
  d' = d <| durable_checkpoints := durable_checkpoints d' |>.

#[export] Instance checkpoints_only_preorder : PreOrder checkpoints_only.
Proof.
  split; [by intros []|]. unfold checkpoints_only. intros a b c -> ->. done.
Qed.

Lemma delete_only id d : checkpoints_only d (deleteByIdStmt id d).2.
Proof. unfold deleteByIdStmt. repeat case_match; try reflexivity. Qed.

Lemma delete_all_only ids : ∀ acc, checkpoints_only acc.2 (delete_all ids acc).2.
Proof.
  unfold delete_all. induction ids as [|id ids IH]; intros acc; cbn [foldl]; [reflexivity|].
  destruct (deleteByIdStmt id acc.2) as [n d] eqn:Hd. etrans; [|apply IH]. cbn.
  pose proof (delete_only id acc.2) as H. by rewrite Hd in H.
Qed.

Lemma prune_to_budget_only budget victims : ∀ pruned bytes d, checkpoints_only d (prune_to_budget budget victims pruned bytes d).2.
Proof.
  induction victims as [|[id row] victims IH]; intros pruned bytes d; cbn [prune_to_budget]; [reflexivity|].
  destruct (bytes <=? budget); [reflexivity|]. pose proof (delete_only id d) as H.
  destruct (deleteByIdStmt id d) as [n d']. cbn in H. destruct (0 <? n); (etrans; [exact H|apply IH]).
Qed.

(** The states a pruning goes through, and its counts. *)
Lemma prune_run compare keep budget d :
  let '(orphans, d1) := delete_all (orphan_ids d) (0, d) in
  let bs := buckets (terminal_checkpoints d1) in
  let overflow (b : list (string * DurableCheckpointRow)) := (length b - Z.to_nat (Z.max 1 keep))%nat in
  let '(aged, d2) := delete_all (concat (map (λ b, map fst (take (overflow b) b)) bs)) (0, d1) in
  let '(total, d3) :=
    if Z.max 0 budget <? measureCheckpointBytes d2
    then prune_to_budget (Z.max 0 budget) (order_by (age_le compare) (concat (map (λ b, drop (overflow b) b) bs)))
           aged (measureCheckpointBytes d2) d2
    else (aged, d2) in
  pruneCheckpoints compare keep budget d = (Ok (mkPruned orphans total (measureCheckpointBytes d3) (Z.max 0 budget)), d3).
Proof.
  unfold pruneCheckpoints. destruct (delete_all (orphan_ids d) (0, d)) as [orphans d1]. cbv zeta.
  destruct (delete_all _ (0, d1)) as [aged d2]. by destruct (if _ <? _ then _ else _) as [total d3].
Qed.

Lemma prune_only compare keep budget d : checkpoints_only d (pruneCheckpoints compare keep budget d).2.
Proof.
  unfold pruneCheckpoints. pose proof (delete_all_only (orphan_ids d) (0, d)) as H1.
  destruct (delete_all (orphan_ids d) (0, d)) as [orphans d1]. cbn in H1.
  set (ids := concat _). pose proof (delete_all_only ids (0, d1)) as H2. destruct (delete_all ids (0, d1)) as [aged d2].
  cbn in H2. assert (H12 : checkpoints_only d d2) by (by etrans). clear H1 H2.
  destruct (_ <? measureCheckpointBytes d2); [|exact H12]. set (victims := order_by _ _).
  pose proof (prune_to_budget_only (Z.max 0 budget) victims aged (measureCheckpointBytes d2) d2) as H3.
  destruct (prune_to_budget _ victims _ _ d2) as [total d3]. cbn in *. by etrans.
Qed.

Lemma checkpoints_only_keeps d d' : checkpoints_only d d' →
  durable_runs d' = durable_runs d ∧ parent_reservations d' = parent_reservations d.
Proof. by intros ->. Qed.

(** ** Calls that write runs *)

Lemma update_evolves clock nowIso input d : runs_evolve d (updateRun clock nowIso input d).2.
Proof.
  rewrite updateRun_run. destruct (durable_runs d !! ur_runId input) as [row|] eqn:Hrow; [|reflexivity].
  case_match; [|reflexivity]. case_match; [reflexivity|]. apply set_run_evolves. intros row' Hrow'. simplify_eq.
  by apply version_step_evolves.
Qed.

Lemma claim_evolves clock nowIso current worker hb expires upd d :
  runs_evolve d (tryClaimQueuedRunFrom clock nowIso current (runId current) worker hb expires upd d).2.
Proof.
  rewrite claimFrom_run by done. case_bool_decide; [|reflexivity].
  destruct (durable_runs d !! runId current) as [row|] eqn:Hrow; [|reflexivity]. cbv zeta.
  destruct (bool_decide (r_version row = version current)) eqn:Hv; cbn [andb]; [|reflexivity]. bools.
  case_match; [|reflexivity]. case_match; [reflexivity|]. apply set_run_evolves. intros row' Hrow'. simplify_eq.
  apply version_step_evolves; [|done|done]. cbn. congruence.
Qed.

(** A claim or renewal under the database clock: the result, and that it is one
    update or nothing. *)
Definition clocked_call (stmt : Z → durable Z) (id : string) (duration : option Z) : durable (option DurableRunRecord) :=
  n ← lift (normalizeLeaseDurationMs duration);
  changes ← stmt n;
  if 0 <? changes then some_of (getRun id) else mret None.

Lemma clocked_call_run clock id cond f duration d :
  clocked_call (λ n, clocked_update clock id cond (λ now, f n now)) id duration d =
    match normalizeLeaseDurationMs duration with
    | Err e => (Err e, d)
    | Ok n =>
        match durable_runs d !! id with
        | Some row =>
            if cond d row then
              match sqlite_iso clock with
              | Some now => (Ok (Some (mapRunRow id (f n now row))), set_run id (f n now row) d)
              | None => (Err (SqliteConstraintError "durable_runs.updated_at"), d)
              end
            else (Ok None, d)
        | None => (Ok None, d)
        end
    end.
Proof.
  unfold clocked_call. rewrite M_lift_bind. destruct (normalizeLeaseDurationMs duration) as [n|e]; [|done].
  unfold mbind, M_bind, clocked_update. destruct (durable_runs d !! id) as [row|] eqn:Hrow; [|done].
  destruct (cond d row); [|done]. destruct (sqlite_iso clock) as [now|]; [|done].
  change (0 <? 1) with true. unfold some_of, mbind, M_bind, getRun. cbn. by rewrite lookup_insert_eq.
Qed.

Lemma claim_clock_is clock id worker duration :
  tryClaimQueuedRunWithDatabaseClock clock id worker duration =
    clocked_call (λ n, clocked_update clock id (claimable clock id)
      (λ now, claimed_row now worker (sqlite_iso (clock + n)))) id duration.
Proof. reflexivity. Qed.

Lemma renew_clock_is clock id worker duration :
  renewLeaseWithDatabaseClock clock id worker duration =
    clocked_call (λ n, clocked_update clock id (λ _, live_lease clock worker)
      (λ now, renewed_row now (sqlite_iso (clock + n)))) id duration.
Proof. reflexivity. Qed.

Lemma clocked_call_evolves clock id cond f duration d :
  (∀ n now row, r_version (f n now row) = r_version row + 1 ∧ r_workflow_key (f n now row) = r_workflow_key row ∧
                r_created_at (f n now row) = r_created_at row) →
  runs_evolve d (clocked_call (λ n, clocked_update clock id cond (λ now, f n now)) id duration d).2.
Proof.
  intros Hf. rewrite clocked_call_run. destruct (normalizeLeaseDurationMs duration) as [n|]; [|reflexivity].
  destruct (durable_runs d !! id) as [row|] eqn:Hrow; [|reflexivity]. destruct (cond d row); [|reflexivity].
  destruct (sqlite_iso clock) as [now|]; [|reflexivity]. apply set_run_evolves. intros row' Hrow'. simplify_eq.
  destruct (Hf n now row) as (? & ? & ?). by apply version_step_evolves.
Qed.

(** [some_of (updateRun ...)] behind guards. *)
Lemma some_of_state {A} (m : durable A) d : (some_of m d).2 = (m d).2.
Proof. unfold some_of, mbind, M_bind. by destruct (m d) as [[]]. Qed.

Lemma renewFrom_evolves clock nowIso current worker hb expires upd d :
  runs_evolve d (renewLeaseFrom clock nowIso current (runId current) worker hb expires upd d).2.
Proof. unfold renewLeaseFrom. case_match; [reflexivity|]. rewrite some_of_state. apply update_evolves. Qed.

Lemma releaseFrom_evolves clock nowIso current worker upd d :
  runs_evolve d (releaseLeaseFrom clock nowIso current (runId current) worker upd d).2.
Proof. unfold releaseLeaseFrom. case_match; [reflexivity|]. rewrite some_of_state. apply update_evolves. Qed.

Lemma insert_then_get id row d :
  durable_runs d !! id = None → (insertRunStmt id row ;; getRun id) d = (Ok (mapRunRow id row), set_run id row d).
Proof.
  intros Hn. unfold mbind, M_bind, insertRunStmt. rewrite Hn. unfold getRun. cbn. by rewrite lookup_insert_eq.
Qed.

Lemma insert_conflict id row old d :
  durable_runs d !! id = Some old → (insertRunStmt id row ;; getRun id) d = (Err (SqliteConstraintError "durable_runs.run_id"), d).
Proof. intros Hn. unfold mbind, M_bind, insertRunStmt. by rewrite Hn. Qed.

(** The columns of a run are within bounds. *)
Definition row_ok (row : DurableRunRow) : Prop :=
  0 ≤ r_attempt_count row ∧ 1 ≤ r_max_attempts row ∧ 1 ≤ r_version row ∧ truthy (r_workflow_key row) = true.

Lemma createRun_run uuid nowIso input d :
  (createRun uuid nowIso input d).2 = d ∨
  ∃ id row, durable_runs d !! id = None ∧ row_ok row ∧ (createRun uuid nowIso input d).2 = set_run id row d.
Proof.
  unfold createRun. set (run := mkRun _ _ _ _ _ _ _ _ _ _ _ _ _ _ _ _).
  assert (Hok : 0 ≤ attemptCount run ∧ 1 ≤ maxAttempts run ∧ 1 ≤ version run) by (cbn; lia). clearbody run.
  unfold guard_throw. rewrite M_lift_bind. unfold throw_when. destruct (truthy (workflowKey run)) eqn:Hw; [|by left].
  destruct (durable_runs d !! runId run) as [row|] eqn:Hrow; cbn [negb].
  - left. erewrite insert_conflict; [reflexivity|exact Hrow].
  - right. exists (runId run), (run_row run). split; [exact Hrow|]. split; [unfold row_ok; cbn; tauto|].
    rewrite insert_then_get; [reflexivity|exact Hrow].
Qed.

Lemma call_evolves d d' : durable_call d d' → runs_evolve d d'.
Proof.
  destruct 1; eauto using update_evolves, claim_evolves, renewFrom_evolves, releaseFrom_evolves.
  - destruct (createRun_run uuid nowIso input d) as [->|(id & row & Hn & _ & ->)]; [reflexivity|].
    apply set_run_evolves. congruence.
  - rewrite claim_clock_is. by apply clocked_call_evolves.
  - rewrite renew_clock_is. by apply clocked_call_evolves.
  - apply same_runs_evolve, createCheckpoint_keeps.
  - apply same_runs_evolve, upsertRetry_keeps.
  - apply same_runs_evolve, upsertRetryClock_keeps.
  - apply same_runs_evolve, upsertDeadLetter_keeps.
  - apply same_runs_evolve, resolveDeadLetter_keeps.
  - apply same_runs_evolve. by apply checkpoints_only_keeps, prune_only.
Qed.

Lemma history_evolves d d' : rtc durable_step d d' → runs_evolve d d'.
Proof.
  induction 1 as [|d d1 d' [d1' Hc|p s] _ IH]; [reflexivity| |].
  - etrans; [by apply call_evolves|done].
  - etrans; [|done]. by apply same_runs_evolve.
Qed.

(** C37. Optimistic locking: whatever calls follow a read of a run, the run stays,
    its version never decreases and its workflow and creation date never change;
    and once any call has changed the row, an update, renewal or release that
    carries the version read then is refused and a claim returns nothing, each
    leaving every table as it was. *)
Theorem stale_version_refused d d' id row :
  rtc durable_step d d' → durable_runs d !! id = Some row →
  ∃ row', durable_runs d' !! id = Some row' ∧ row_evolves row row' ∧
    (row' ≠ row →
     (∀ clock nowIso input, ur_runId input = id → ur_expectedVersion input = Some (r_version row) →
        updateRun clock nowIso input d' = (Err (update_conflict id), d')) ∧
     (∀ clock nowIso worker hb expires upd,
        tryClaimQueuedRunFrom clock nowIso (mapRunRow id row) id worker hb expires upd d' = (Ok None, d') ∧
        (renewLeaseFrom clock nowIso (mapRunRow id row) id worker hb expires upd d').2 = d' ∧
        (releaseLeaseFrom clock nowIso (mapRunRow id row) id worker upd d').2 = d')).
Proof.
  intros Hh Hrow. destruct (history_evolves d d' Hh id row Hrow) as (row' & Hrow' & Hev). exists row'.
  split; [done|]. split; [done|]. intros Hne.
  assert (Hv : r_version row' ≠ r_version row) by (intros E; apply Hne; symmetry; by apply Hev).
  assert (Hup : ∀ clock nowIso input, ur_runId input = id → ur_expectedVersion input = Some (r_version row) →
        updateRun clock nowIso input d' = (Err (update_conflict id), d')).
  { intros clock nowIso input Hid Hexp. rewrite updateRun_run, Hid, Hrow', Hexp. cbn [default].
    by rewrite bool_decide_eq_false_2. }
  split; [done|]. intros clock nowIso worker hb expires upd. split; [|split].
  - rewrite claimFrom_run by done. case_bool_decide; [|done]. rewrite Hrow'.
    cbv zeta. by rewrite bool_decide_eq_false_2.
  - unfold renewLeaseFrom. case_match; [done|]. rewrite some_of_state, Hup; done.
  - unfold releaseLeaseFrom. case_match; [done|]. rewrite some_of_state, Hup; done.
Qed.

(** ** Leases *)

Lemma select_run_some id cond d :
  (∃ run, select_run id cond d = (Ok (Some run), d)) ↔ ∃ row, durable_runs d !! id = Some row ∧ cond row = true.
Proof.
  unfold select_run, gets. destruct (durable_runs d !! id) as [row|].
  - destruct (cond row) eqn:Hc; split.
    + eauto.
    + eauto.
    + by intros [run [=]].
    + intros (row' & [= <-] & H). congruence.
  - split; [by intros [run [=]]|by intros (row' & [=] & _)].
Qed.

(** A run that is not queued is not claimed. *)
Lemma claim_clock_busy clock id worker duration d row :
  durable_runs d !! id = Some row → r_status row ≠ queued →
  (tryClaimQueuedRunWithDatabaseClock clock id worker duration d).2 = d ∧
  ∀ run, (tryClaimQueuedRunWithDatabaseClock clock id worker duration d).1 ≠ Ok (Some run).
Proof.
  intros Hrow Hs. rewrite claim_clock_is, clocked_call_run. destruct (normalizeLeaseDurationMs duration) as [n|]; [|done].
  rewrite Hrow. unfold claimable. by rewrite bool_decide_eq_false_2.
Qed.

Lemma live_lease_spec clock w row :
  live_lease clock w row = true ↔
    r_status row = running ∧ r_lease_owner_id row = Some w ∧ after_clock (r_lease_expires_at row) clock = true.
Proof. unfold live_lease. rewrite !andb_true_iff, !bool_decide_eq_true. tauto. Qed.

(** C25. Claiming a queued run under the database clock grants a lease of exactly
    the requested length, when no retry of the run is still to come and its
    beginning and end are dates that SQLite can write: until it ends, only the
    claiming worker passes the commit fence and can renew, nobody can claim the
    run, and recovery does not see an expired lease; from its end on, nobody
    passes the fence or renews, and recovery does see it. *)
Theorem claim_grants_lease clock id worker n d row :
  durable_runs d !! id = Some row → r_status row = queued → retry_pending d clock id = false →
  0 < n → sqlite_range clock = true → sqlite_range (clock + n) = true →
  ∃ run d1 expires, tryClaimQueuedRunWithDatabaseClock clock id worker (Some n) d = (Ok (Some run), d1) ∧
    status run = running ∧ leaseOwnerId run = Some worker ∧ leaseExpiresAt run = Some expires ∧ version run = r_version row + 1 ∧
    ∀ t,
      (∀ w, (∃ r, lockFreshActiveLeaseForUpdate t id w d1 = (Ok (Some r), d1)) ↔ w = worker ∧ t < clock + n) ∧
      ((∃ r, lockExpiredLeaseForUpdate t id (Some worker) expires d1 = (Ok (Some r), d1)) ↔ clock + n ≤ t) ∧
      (∀ w k, w ≠ worker ∨ clock + n ≤ t → (renewLeaseWithDatabaseClock t id w k d1).2 = d1) ∧
      (∀ w k, (tryClaimQueuedRunWithDatabaseClock t id w k d1).2 = d1).
Proof.
  intros Hrow Hq Hp Hn Hc He.
  destruct (sqlite_iso_some clock Hc) as (now & Hnow & _). destruct (sqlite_iso_some (clock + n) He) as (exp & Hexp & Hjd).
  set (new := claimed_row now worker (Some exp) row).
  exists (mapRunRow id new), (set_run id new d), exp. split.
  { rewrite claim_clock_is, clocked_call_run. unfold normalizeLeaseDurationMs.
    destruct (Z.leb_spec n 0); [lia|]. rewrite Z.max_r by lia. rewrite Hrow. unfold claimable.
    rewrite bool_decide_eq_true_2, Hp by done. cbn [andb negb]. by rewrite Hnow, Hexp. }
  assert (Hnew : durable_runs (set_run id new d) !! id = Some new) by (cbn; by rewrite lookup_insert_eq).
  do 4 (split; [done|]). intros t.
  assert (Hlive : ∀ w, live_lease t w new = true ↔ w = worker ∧ t < clock + n).
  { intros w. rewrite live_lease_spec. cbn [r_lease_expires_at new claimed_row set_field].
    rewrite (after_clock_iso (clock + n)) by done. cbn. rewrite Z.ltb_lt. naive_solver. }
  split; [|split; [|split]].
  - intros w. unfold lockFreshActiveLeaseForUpdate. rewrite select_run_some, Hnew, <-Hlive. naive_solver.
  - unfold lockExpiredLeaseForUpdate. rewrite select_run_some, Hnew. unfold expired_lease.
    setoid_rewrite andb_true_iff. split.
    + intros (row' & [= <-] & _ & H). cbn in H. rewrite (reached_by_iso (clock + n)) in H by done. lia.
    + intros H. exists new. split; [done|]. cbn. rewrite (reached_by_iso (clock + n)) by done.
      rewrite !bool_decide_eq_true_2 by done. split; [done|lia].
  - intros w k Hw. rewrite renew_clock_is, clocked_call_run. destruct (normalizeLeaseDurationMs k); [|done].
    rewrite Hnew. destruct (live_lease t w new) eqn:Hl; [|done]. apply Hlive in Hl. lia || naive_solver lia.
  - intros w k. by apply (claim_clock_busy t id w k _ new).
Qed.

(** ** Reservations hold a run *)

Definition call_history := rtc durable_call.

Lemma set_run_reserved id row d i : reserved (set_run id row d) i = reserved d i.
Proof. reflexivity. Qed.

Definition held (d : durable_db) (id : string) : Prop :=
  reserved d id = true ∧ ∃ row, durable_runs d !! id = Some row ∧ is_active (r_status row) = false.

Lemma held_keeps {A} (m : durable A) d id : keeps_runs m → held d id → held (m d).2 id.
Proof.
  intros Hm [Hr Hrow]. destruct (Hm d) as [E1 E2]. split; [|by rewrite E1].
  unfold reserved in *. by rewrite E2.
Qed.

Lemma held_set d id i row :
  held d id → (i = id → is_active (r_status row) = false) → held (set_run i row d) id.
Proof.
  intros (Hr & old & Hold & Ha) Hrow. split; [done|]. cbn. destruct (decide (i = id)) as [->|Hne].
  - rewrite lookup_insert_eq. eauto.
  - rewrite lookup_insert_ne by done. eauto.
Qed.

Lemma held_update clock nowIso input d id : held d id → held (updateRun clock nowIso input d).2 id.
Proof.
  intros Hh. rewrite updateRun_run. destruct (durable_runs d !! ur_runId input) as [row|] eqn:Hrow; [|done].
  destruct (bool_decide _); cbn [andb]; [|done].
  destruct (negb (is_active (ur_status input)) || negb (reserved d (ur_runId input))) eqn:Hg; [|done].
  destruct (secure_guard _ _ _ _ _); [done|]. apply held_set; [done|]. intros E. cbn. rewrite E in Hg.
  destruct Hh as [Hr _]. rewrite Hr in Hg. by destruct (is_active (ur_status input)).
Qed.

Lemma held_clocked clock cond f i duration d id :
  (∀ row, cond d row = true → r_status row = queued ∨ r_status row = running) →
  held d id → held (clocked_call (λ n, clocked_update clock i cond (λ now, f n now)) i duration d).2 id.
Proof.
  intros Hc Hh. rewrite clocked_call_run. destruct (normalizeLeaseDurationMs duration); [|done].
  destruct (durable_runs d !! i) as [row|] eqn:Hrow; [|done]. destruct (cond d row) eqn:Hcd; [|done].
  destruct (sqlite_iso clock); [|done]. apply held_set; [done|]. intros ->. exfalso.
  destruct Hh as (_ & row' & Hrow' & Ha). assert (row' = row) as -> by congruence. by destruct (Hc row Hcd) as [E|E]; rewrite E in Ha.
Qed.

Lemma held_call d d' id : durable_call d d' → held d id → held d' id.
Proof.
  destruct 1; intros Hh; eauto using held_update.
  - destruct (createRun_run uuid nowIso input d) as [->|(i & row & Hn & _ & ->)]; [done|]. apply held_set; [done|].
    intros ->. destruct Hh as (_ & r & Hr & _). congruence.
  - rewrite claimFrom_run by done. case_bool_decide; [|done].
    destruct (durable_runs d !! runId current) as [row|] eqn:Hrow; [|done]. cbv zeta.
    destruct (bool_decide (r_version row = version current)); cbn [andb]; [|done].
    destruct (reserved d (runId current)) eqn:Hr; [done|]. destruct (secure_guard _ _ _ _ _); [done|].
    apply held_set; [done|]. intros E. destruct Hh as [Hr' _]. congruence.
  - rewrite claim_clock_is. apply held_clocked; [|done]. intros row. unfold claimable. rewrite andb_true_iff, bool_decide_eq_true. tauto.
  - unfold renewLeaseFrom. case_match; [done|]. rewrite some_of_state. by apply held_update.
  - rewrite renew_clock_is. apply held_clocked; [|done]. intros row. rewrite live_lease_spec. tauto.
  - unfold releaseLeaseFrom. case_match; [done|]. rewrite some_of_state. by apply held_update.
  - apply held_keeps; [apply createCheckpoint_keeps|done].
  - apply held_keeps; [apply upsertRetry_keeps|done].
  - apply held_keeps; [apply upsertRetryClock_keeps|done].
  - apply held_keeps; [apply upsertDeadLetter_keeps|done].
  - apply held_keeps; [apply resolveDeadLetter_keeps|done].
  - destruct (checkpoints_only_keeps _ _ (prune_only compare keep budget d)) as [E1 E2].
    destruct Hh as [Hr Hrow]. split; [unfold reserved in *; by rewrite E2|by rewrite E1].
Qed.

(** A run under an open remediation reservation that is neither queued nor
    running is neither after any history of calls on the runs: nothing resumes or
    claims it until the reservation is released or resumed. *)
Theorem reserved_run_held d d' id :
  rtc durable_call d d' → held d id → held d' id.
Proof. induction 1; eauto using held_call. Qed.
