(* ===== verification/DurablePruning.v ===== *)
(** * Durable runs: pruning of checkpoints, retries and dead letters *)
From S2P Require Import Prelude.
From S2P Require Import JsString.
From S2P Require Import JsTime.
From S2P Require Import JsJson.
From S2P Require Import JsJsonText.
From S2P Require Import Errors.
From S2P Require Import DurableRuns.
From S2P Require Import DurableRunTheorems.

(** ** Deletions *)

Notation cps := (gmap string DurableCheckpointRow).

(** What a deletion of the ids [ids] leaves. *)
Definition survives (d : durable_db) (ids : list string) (id : string) : Prop :=
  id ∉ ids ∨ reserved_checkpoint d id = true.

Lemma delete_lookup id d i row :
  durable_checkpoints (deleteByIdStmt id d).2 !! i = Some row ↔
    durable_checkpoints d !! i = Some row ∧ (i ≠ id ∨ reserved_checkpoint d id = true).
Proof.
  unfold deleteByIdStmt. destruct (durable_checkpoints d !! id) as [r|] eqn:Hr.
  - destruct (reserved_checkpoint d id) eqn:Hres; cbn; [naive_solver|].
    rewrite lookup_delete_Some. naive_solver.
  - cbn. split; [intros H; split; [done|]; left; congruence|tauto].
Qed.

Lemma delete_size id d :
  (deleteByIdStmt id d).1 = Z.of_nat (size (durable_checkpoints d)) - Z.of_nat (size (durable_checkpoints (deleteByIdStmt id d).2)).
Proof.
  unfold deleteByIdStmt. destruct (durable_checkpoints d !! id) as [r|] eqn:Hr; [|cbn; lia].
  destruct (reserved_checkpoint d id); cbn; [lia|].
  pose proof (map_size_delete id (durable_checkpoints d)) as E. rewrite Hr in E.
  assert (size (durable_checkpoints d) ≠ 0%nat) by (intros H%map_size_empty_inv; by rewrite H in Hr). lia.
Qed.

Lemma only_reserved d d' id : checkpoints_only d d' → reserved_checkpoint d' id = reserved_checkpoint d id.
Proof. by intros ->. Qed.

Lemma delete_all_lookup ids : ∀ acc i row,
  durable_checkpoints (delete_all ids acc).2 !! i = Some row ↔
    durable_checkpoints acc.2 !! i = Some row ∧ survives acc.2 ids i.
Proof.
  unfold delete_all, survives. induction ids as [|id ids IH]; intros acc i row; cbn [foldl].
  - split; [intros H; split; [done|]; left; apply not_elem_of_nil|tauto].
  - pose proof (delete_only id acc.2) as Ho. pose proof (delete_lookup id acc.2 i row) as Hl.
    destruct (deleteByIdStmt id acc.2) as [n d] eqn:Hd. cbn in Ho, Hl.
    rewrite IH. cbn [snd]. rewrite Hl, (only_reserved _ _ _ Ho), not_elem_of_cons. split.
    + intros [[H1 [H2|H2]] [H3|H3]]; (split; [done|]); auto. destruct (decide (i = id)) as [->|]; auto.
    + intros [H1 [[H2 H3]|H2]]; (split; [split; [done|]|]); auto. destruct (decide (i = id)) as [->|]; auto.
Qed.

Lemma delete_all_count ids : ∀ acc,
  (delete_all ids acc).1 = acc.1 + Z.of_nat (size (durable_checkpoints acc.2)) - Z.of_nat (size (durable_checkpoints (delete_all ids acc).2)).
Proof.
  unfold delete_all. induction ids as [|id ids IH]; intros acc; cbn [foldl]; [lia|].
  pose proof (delete_size id acc.2) as Hs. destruct (deleteByIdStmt id acc.2) as [n d]. rewrite IH. cbn in *. lia.
Qed.

(** ** Bytes *)

Definition total_bytes (rows : list DurableCheckpointRow) : Z := foldr (λ c n, byte_length (cp_state_json c) + n) 0 rows.

Lemma total_bytes_perm l l' : l ≡ₚ l' → total_bytes l = total_bytes l'.
Proof. unfold total_bytes. induction 1; cbn; lia. Qed.

Lemma measure_delete id d row :
  durable_checkpoints d !! id = Some row → reserved_checkpoint d id = false →
  measureCheckpointBytes (deleteByIdStmt id d).2 = measureCheckpointBytes d - byte_length (cp_state_json row).
Proof.
  intros Hrow Hres. unfold deleteByIdStmt. rewrite Hrow, Hres. unfold measureCheckpointBytes. cbn [snd set_field]. cbn.
  pose proof (total_bytes_perm _ _ (fmap_Permutation snd _ _ (map_to_list_delete _ _ _ Hrow))) as E.
  unfold total_bytes in E. cbn in E. cbn. lia.
Qed.

Lemma byte_length_nonneg s : 0 <= byte_length s.
Proof. induction s as [|c s IH]; cbn; [lia|]. case_match; lia. Qed.

(** The loop under the budget: it stops at the budget or has tried every victim. *)
Lemma prune_to_budget_spec budget victims : ∀ pruned d,
  (∀ id row row', (id, row) ∈ victims → durable_checkpoints d !! id = Some row' → row' = row) →
  let '(total, d') := prune_to_budget budget victims pruned (measureCheckpointBytes d) d in
  total = pruned + Z.of_nat (size (durable_checkpoints d)) - Z.of_nat (size (durable_checkpoints d')) ∧
  (∀ i row, durable_checkpoints d' !! i = Some row → durable_checkpoints d !! i = Some row) ∧
  (∀ i, durable_checkpoints d' !! i = None → durable_checkpoints d !! i = None ∨
     (i ∈ victims.*1 ∧ reserved_checkpoint d i = false)) ∧
  (measureCheckpointBytes d' ≤ budget ∨ ∀ i row, durable_checkpoints d' !! i = Some row → survives d victims.*1 i).
Proof.
  induction victims as [|[id row] victims IH]; intros pruned d Hin; cbn [prune_to_budget].
  { split; [lia|]. split; [done|]. split; [auto|]. right. intros i row _. left. apply not_elem_of_nil. }
  destruct (Z.leb_spec (measureCheckpointBytes d) budget) as [Hle|Hgt].
  { split; [lia|]. split; [done|]. split; [auto|]. by left. }
  pose proof (delete_only id d) as Ho. pose proof (delete_size id d) as Hs. pose proof (delete_lookup id d) as Hl.
  pose proof (measure_delete id d row) as Hm.
  destruct (decide (durable_checkpoints d !! id = Some row ∧ reserved_checkpoint d id = false)) as [[Hrow Hres]|Hno].
  - specialize (Hm Hrow Hres). assert (E : (deleteByIdStmt id d).1 = 1) by (unfold deleteByIdStmt; by rewrite Hrow, Hres).
    destruct (deleteByIdStmt id d) as [n d1]. cbn in *. rewrite E in Hs |- *. change (0 <? 1) with true. cbv iota.
    rewrite <-Hm. specialize (IH (pruned + 1) d1).
    destruct (prune_to_budget budget victims (pruned + 1) (measureCheckpointBytes d1) d1) as [total d'].
    destruct IH as (H1 & H2 & H3 & H4).
    { intros i r r' Hir Hr'. apply (Hin i); [by right|]. by destruct (proj1 (Hl i r') Hr'). }
    split; [lia|]. split; [intros i r Hi; by destruct (proj1 (Hl i r) (H2 i r Hi))|]. split.
    + intros i Hi. destruct (H3 i Hi) as [Hi1|[Hi1 Hi2]].
      * destruct (decide (i = id)) as [->|Hne]; [right; split; [by left|done]|].
        left. destruct (durable_checkpoints d !! i) as [r|] eqn:Hr; [|done].
        assert (durable_checkpoints d1 !! i = Some r) by (apply Hl; auto). congruence.
      * right. rewrite (only_reserved _ _ _ Ho) in Hi2. split; [by right|done].
    + destruct H4 as [?|H4]; [by left|]. right. intros i r Hi. destruct (H4 i r Hi) as [Hn|Hn];
        [|right; by rewrite (only_reserved _ _ _ Ho) in Hn].
      destruct (decide (i = id)) as [->|Hne]; [|left; by apply not_elem_of_cons].
      destruct (proj1 (Hl id r) (H2 id r Hi)) as [_ [?|?]]; [done|]. congruence.
  - assert (deleteByIdStmt id d = (0, d) ∧ (durable_checkpoints d !! id = None ∨ reserved_checkpoint d id = true)) as [E Hid].
    { unfold deleteByIdStmt. destruct (durable_checkpoints d !! id) as [r|] eqn:Hr; [|auto].
      destruct (reserved_checkpoint d id) eqn:Hres; [auto|]. exfalso. apply Hno. split; [|done].
      f_equal. by apply (Hin id row r); [left|]. }
    rewrite E. change (0 <? 0) with false. cbv iota. specialize (IH pruned d).
    destruct (prune_to_budget budget victims pruned (measureCheckpointBytes d) d) as [total d'].
    destruct IH as (H1 & H2 & H3 & H4); [intros i r r' Hir; apply (Hin i); by right|].
    split; [done|]. split; [done|]. split.
    + intros i Hi. destruct (H3 i Hi) as [?|[? ?]]; [by left|]. right. split; [by right|done].
    + destruct H4 as [?|H4]; [by left|]. right. intros i r Hi. destruct (H4 i r Hi) as [Hn|Hn]; [|by right].
      destruct (decide (i = id)) as [->|Hne]; [|left; by apply not_elem_of_cons].
      destruct Hid as [Hid|Hid]; [|by right]. apply H2 in Hi. congruence.
Qed.

(** ** Buckets *)

Lemma elem_of_buckets rows c : (∃ b, b ∈ buckets rows ∧ c ∈ b) ↔ c ∈ rows.
Proof.
  unfold buckets. setoid_rewrite list_elem_of_fmap. split.
  - intros (b & (run & -> & _) & Hc). rewrite list_elem_of_In, filter_In, <-list_elem_of_In in Hc. tauto.
  - intros Hc. exists (List.filter (λ c', bool_decide (cp_run_id c'.2 = cp_run_id c.2)) rows). split.
    + exists (cp_run_id c.2). split; [done|]. apply elem_of_unique, list_elem_of_fmap. eauto.
    + rewrite list_elem_of_In, filter_In, <-list_elem_of_In. split; [done|]. by apply bool_decide_eq_true.
Qed.

Lemma elem_of_drop_in {A} n (l : list A) x : x ∈ drop n l → x ∈ l.
Proof. intros H. rewrite <-(take_drop n l), elem_of_app. auto. Qed.

Section Buckets.
Variable overflow : list (string * DurableCheckpointRow) → nat.
Abbreviation front := (λ rows, concat (map (λ b, map fst (take (overflow b) b)) (buckets rows))).
Abbreviation rest := (λ rows, concat (map (λ b, drop (overflow b) b) (buckets rows))).

(** Every row is in the front or in the rest of its bucket, and nothing else is. *)
Lemma front_or_rest rows c : c ∈ rows → c.1 ∈ front rows ∨ c ∈ rest rows.
Proof.
  intros (b & Hb & Hc)%elem_of_buckets. rewrite <-(take_drop (overflow b) b), elem_of_app in Hc.
  rewrite !list_elem_of_In, !in_concat. destruct Hc as [Hc|Hc]; [left|right].
  - exists (map fst (take (overflow b) b)). split; [apply in_map_iff; exists b; split; [done|by apply list_elem_of_In]|].
    apply in_map, list_elem_of_In, Hc.
  - exists (drop (overflow b) b). split; [apply in_map_iff; exists b; split; [done|by apply list_elem_of_In]|].
    by apply list_elem_of_In.
Qed.

Lemma elem_of_front rows i : i ∈ front rows → ∃ c, c ∈ rows ∧ c.1 = i.
Proof.
  rewrite list_elem_of_In, in_concat. intros (ids & Hids & Hi). apply in_map_iff in Hids as (b & <- & Hb).
  apply in_map_iff in Hi as (c & <- & Hc). exists c. split; [|done]. apply elem_of_buckets. exists b.
  split; [by apply list_elem_of_In|]. apply list_elem_of_In in Hc. by apply elem_of_take in Hc as (k & Hk%list_elem_of_lookup_2 & _).
Qed.

Lemma elem_of_rest rows c : c ∈ rest rows → c ∈ rows.
Proof.
  rewrite list_elem_of_In, in_concat. intros (cs & Hcs & Hc). apply in_map_iff in Hcs as (b & <- & Hb).
  apply elem_of_buckets. exists b. split; [by apply list_elem_of_In|]. apply list_elem_of_In in Hc.
  by apply elem_of_drop_in in Hc.
Qed.

Lemma NoDup_filter_fst {A} (f : string * A → bool) (l : list (string * A)) : NoDup l.*1 → NoDup (List.filter f l).*1.
Proof.
  induction l as [|x l IH]; cbn; [done|]. rewrite NoDup_cons. intros [Hx Hl]. destruct (f x); [|by apply IH].
  cbn. apply NoDup_cons. split; [|by apply IH]. intros (y & E & Hy)%list_elem_of_fmap. apply Hx, list_elem_of_fmap.
  rewrite list_elem_of_In, filter_In, <-list_elem_of_In in Hy. exists y. tauto.
Qed.

End Buckets.

(** ** The pruning as a whole *)

Definition terminal_run (d : durable_db) (run : string) : bool :=
  match durable_runs d !! run with Some r => is_terminal (r_status r) | None => false end.

Lemma elem_of_terminal d c :
  c ∈ terminal_checkpoints d ↔ durable_checkpoints d !! c.1 = Some c.2 ∧ terminal_run d (cp_run_id c.2) = true.
Proof.
  unfold terminal_checkpoints. rewrite order_by_Permutation, list_elem_of_In, filter_In, <-list_elem_of_In.
  destruct c as [i row]. by rewrite elem_of_map_to_list.
Qed.

Lemma NoDup_terminal d : NoDup (terminal_checkpoints d).*1.
Proof.
  unfold terminal_checkpoints. rewrite order_by_Permutation. apply NoDup_filter_fst, NoDup_fst_map_to_list.
Qed.

Lemma elem_of_orphans d i :
  i ∈ orphan_ids d ↔ ∃ row, durable_checkpoints d !! i = Some row ∧ durable_runs d !! cp_run_id row = None.
Proof.
  unfold orphan_ids. rewrite list_elem_of_fmap. setoid_rewrite list_elem_of_In. setoid_rewrite filter_In.
  setoid_rewrite <-list_elem_of_In. split.
  - intros ([k row] & -> & Hin & H). apply elem_of_map_to_list in Hin. bools. eauto.
  - intros (row & Hr & Hn). exists (i, row). rewrite elem_of_map_to_list. split; [done|]. split; [done|].
    by apply bool_decide_eq_true.
Qed.

(** The unreserved checkpoints of a run. *)
Definition unreserved (d : durable_db) (run : string) : list (string * DurableCheckpointRow) :=
  List.filter (λ c, negb (reserved_checkpoint d c.1)) (run_checkpoints d run).

Section Phases.
Variable d d1 d2 : durable_db.
Variable keep : nat.
Definition bucket_overflow (k : nat) (b : list (string * DurableCheckpointRow)) : nat := (length b - k)%nat.
Hypothesis Ho1 : checkpoints_only d d1.
Hypothesis Ho2 : checkpoints_only d d2.
Hypothesis Hl2 : ∀ i row, durable_checkpoints d2 !! i = Some row ↔
  durable_checkpoints d1 !! i = Some row ∧
  survives d1 (concat (map (λ b, map fst (take (bucket_overflow keep b) b)) (buckets (terminal_checkpoints d1)))) i.

Lemma same_terminal run : terminal_run d1 run = terminal_run d run.
Proof. by rewrite Ho1. Qed.

(** After the ageing phase, a finished run has at most [keep] unreserved
    checkpoints. *)
Lemma aged_length d' run :
  checkpoints_only d d' → (∀ i row, durable_checkpoints d' !! i = Some row → durable_checkpoints d2 !! i = Some row) →
  terminal_run d run = true → (length (unreserved d' run) ≤ keep)%nat.
Proof.
  intros Ho' Hsub Ht. set (b := List.filter (λ c, bool_decide (cp_run_id c.2 = run)) (terminal_checkpoints d1)).
  assert (Hincl : incl (unreserved d' run) (drop (bucket_overflow keep b) b)).
  { intros c Hc. unfold unreserved, run_checkpoints in Hc. rewrite !filter_In, <-list_elem_of_In in Hc.
    destruct Hc as [[Hc Hr] Hres]. bools. destruct c as [i row]. cbn in *. apply elem_of_map_to_list, Hsub in Hc.
    apply Hl2 in Hc as Hc2. destruct Hc2 as [Hc1 Hs].
    assert (Hb : (i, row) ∈ b).
    { unfold b. rewrite list_elem_of_In, filter_In, <-list_elem_of_In. split; [|by apply bool_decide_eq_true].
      apply elem_of_terminal. cbn. split; [done|]. by rewrite same_terminal, Hr. }
    apply list_elem_of_In. rewrite <-(take_drop (bucket_overflow keep b) b), elem_of_app in Hb.
    destruct Hb as [Hb|Hb]; [|done]. exfalso. destruct Hs as [Hs|Hs].
    - apply Hs. rewrite list_elem_of_In, in_concat. exists (map fst (take (bucket_overflow keep b) b)). split.
      + apply in_map_iff. exists b. split; [done|]. unfold buckets. apply in_map_iff. exists run. split; [done|].
        apply list_elem_of_In, elem_of_unique, list_elem_of_fmap. exists (i, row). split; [done|].
        apply elem_of_terminal. cbn. split; [done|]. by rewrite same_terminal, Hr.
      + apply (in_map fst _ (i, row)). by apply list_elem_of_In.
    - assert (reserved_checkpoint d' i = reserved_checkpoint d1 i) as E.
      { rewrite (only_reserved d d'), (only_reserved d d1) by done. done. }
      congruence. }
  assert (Hnd : NoDup (unreserved d' run)).
  { unfold unreserved, run_checkpoints. apply (NoDup_fmap_1 fst). do 2 apply NoDup_filter_fst. apply NoDup_fst_map_to_list. }
  apply NoDup_ListNoDup in Hnd. pose proof (NoDup_incl_length Hnd Hincl) as Hlen.
  rewrite length_drop in Hlen. unfold bucket_overflow in Hlen. lia.
Qed.
End Phases.

(** What a pruning promises. *)
Record prune_post (keep budget : Z) (d d' : durable_db) (result : PruneCheckpointsResult) : Prop := {
  prune_subset : ∀ i row, durable_checkpoints d' !! i = Some row → durable_checkpoints d !! i = Some row;
  prune_victims : ∀ i row, durable_checkpoints d !! i = Some row → durable_checkpoints d' !! i = None →
    reserved_checkpoint d i = false ∧
    (durable_runs d !! cp_run_id row = None ∨ terminal_run d (cp_run_id row) = true);
  prune_orphans : ∀ i row, durable_checkpoints d' !! i = Some row → durable_runs d !! cp_run_id row = None →
    reserved_checkpoint d i = true;
  prune_keeps_few : ∀ run, terminal_run d run = true → (length (unreserved d' run) ≤ Z.to_nat (Z.max 1 keep))%nat;
  prune_budget : measureCheckpointBytes d' ≤ Z.max 0 budget ∨
    ∀ i row, durable_checkpoints d' !! i = Some row → terminal_run d (cp_run_id row) = true → reserved_checkpoint d i = true;
  prune_counts : prunedOrphans result + prunedAged result =
    Z.of_nat (size (durable_checkpoints d)) - Z.of_nat (size (durable_checkpoints d')) ∧
    finalBytes result = measureCheckpointBytes d';
}.

(** Only orphans and checkpoints of finished runs go, and no reserved one. *)
Lemma prune_victims_aux d d1 d2 d3 ids (victims rows : list (string * DurableCheckpointRow)) :
  checkpoints_only d d1 →
  (∀ i row, durable_checkpoints d1 !! i = Some row ↔ durable_checkpoints d !! i = Some row ∧ survives d (orphan_ids d) i) →
  (∀ i row, durable_checkpoints d2 !! i = Some row ↔ durable_checkpoints d1 !! i = Some row ∧ survives d1 ids i) →
  (∀ c, c ∈ rows → durable_checkpoints d1 !! c.1 = Some c.2 ∧ terminal_run d (cp_run_id c.2) = true) →
  (∀ i, i ∈ ids → ∃ c, c ∈ rows ∧ c.1 = i) → (∀ i, i ∈ victims.*1 → ∃ c, c ∈ rows ∧ c.1 = i) →
  (∀ i, durable_checkpoints d3 !! i = None → durable_checkpoints d2 !! i = None ∨ (i ∈ victims.*1 ∧ reserved_checkpoint d i = false)) →
  ∀ i row, durable_checkpoints d !! i = Some row → durable_checkpoints d3 !! i = None →
    reserved_checkpoint d i = false ∧ (durable_runs d !! cp_run_id row = None ∨ terminal_run d (cp_run_id row) = true).
Proof.
  intros Ho1 Hl1 Hl2 Hrows Hids Hvic Hnone i row Hi Hgone.
  assert (Hterm : durable_checkpoints d1 !! i = Some row → (∃ c, c ∈ rows ∧ c.1 = i) → terminal_run d (cp_run_id row) = true).
  { intros H1 (c & Hc & <-). destruct (Hrows c Hc) as [Hc1 Hc2]. by simplify_eq. }
  destruct (decide (i ∈ orphan_ids d)) as [Horph|Hnorph].
  - destruct (reserved_checkpoint d i) eqn:Hres.
    + assert (H1 : durable_checkpoints d1 !! i = Some row) by (apply Hl1; split; [done|by right]).
      assert (H2 : durable_checkpoints d2 !! i = Some row).
      { apply Hl2. split; [done|]. right. by rewrite (only_reserved d d1). }
      destruct (Hnone i Hgone) as [?|[_ ?]]; congruence.
    + split; [done|]. left. apply elem_of_orphans in Horph as (r & Hr & Hn). by simplify_eq.
  - assert (H1 : durable_checkpoints d1 !! i = Some row) by (apply Hl1; split; [done|by left]).
    destruct (Hnone i Hgone) as [H2|[Hv Hres]]; [|split; [done|]; right; auto].
    assert (Hs : ¬ survives d1 ids i) by (intros Hs; assert (durable_checkpoints d2 !! i = Some row) by (apply Hl2; auto); congruence).
    unfold survives in Hs. rewrite (only_reserved d d1) in Hs by done.
    destruct (reserved_checkpoint d i) eqn:Hres; [exfalso; auto|]. split; [done|]. right. apply Hterm; [done|]. apply Hids.
    destruct (decide (i ∈ ids)); [done|]. exfalso. auto.
Qed.

Lemma prune_checkpoints_run compare keep budget d :
  ∃ result d', pruneCheckpoints compare keep budget d = (Ok result, d') ∧ checkpoints_only d d' ∧
    prune_post keep budget d d' result.
Proof.
  pose proof (prune_run compare keep budget d) as Hrun. pose proof (prune_only compare keep budget d) as Honly.
  pose proof (delete_all_only (orphan_ids d) (0, d)) as Ho1. pose proof (delete_all_lookup (orphan_ids d) (0, d)) as Hl1.
  pose proof (delete_all_count (orphan_ids d) (0, d)) as Hc1.
  destruct (delete_all (orphan_ids d) (0, d)) as [orphans d1]. cbn [fst snd] in *. cbv zeta in Hrun.
  set (k := Z.to_nat (Z.max 1 keep)) in *. set (rows := terminal_checkpoints d1) in *.
  change (λ b : list (string * DurableCheckpointRow), (length b - k)%nat) with (bucket_overflow k) in Hrun.
  set (ids := concat (map (λ b, map fst (take (length b - k) b)) (buckets rows))) in *.
  pose proof (delete_all_only ids (0, d1)) as Ho2. pose proof (delete_all_lookup ids (0, d1)) as Hl2.
  pose proof (delete_all_count ids (0, d1)) as Hc2.
  destruct (delete_all ids (0, d1)) as [aged d2]. cbn [fst snd] in *.
  assert (Ho02 : checkpoints_only d d2) by (by etrans).
  set (victims := order_by (age_le compare) (concat (map (λ b, drop (length b - k) b) (buckets rows)))) in *.
  assert (Hv : ∀ c, c ∈ victims ↔ c ∈ concat (map (λ b, drop (bucket_overflow k b) b) (buckets rows)))
    by (intros c; unfold victims; by rewrite order_by_Permutation).
  assert (Hrows : ∀ c, c ∈ rows → durable_checkpoints d1 !! c.1 = Some c.2 ∧ terminal_run d (cp_run_id c.2) = true).
  { intros c Hc. apply elem_of_terminal in Hc. by rewrite (same_terminal d d1) in Hc. }
  assert (H12 : ∀ i row, durable_checkpoints d2 !! i = Some row → durable_checkpoints d1 !! i = Some row ∧ durable_checkpoints d !! i = Some row ∧
    survives d (orphan_ids d) i ∧ survives d1 ids i).
  { intros i row [H1 H2]%Hl2. apply Hl1 in H1 as H1'. tauto. }
  assert (Hspec := prune_to_budget_spec (Z.max 0 budget) victims aged d2).
  assert (Hd3 : ∃ total d3, pruneCheckpoints compare keep budget d =
      (Ok (mkPruned orphans total (measureCheckpointBytes d3) (Z.max 0 budget)), d3) ∧
    total = aged + Z.of_nat (size (durable_checkpoints d2)) - Z.of_nat (size (durable_checkpoints d3)) ∧
    (∀ i row, durable_checkpoints d3 !! i = Some row → durable_checkpoints d2 !! i = Some row) ∧
    (∀ i, durable_checkpoints d3 !! i = None → durable_checkpoints d2 !! i = None ∨
       (i ∈ victims.*1 ∧ reserved_checkpoint d i = false)) ∧
    (measureCheckpointBytes d3 ≤ Z.max 0 budget ∨ ∀ i row, durable_checkpoints d3 !! i = Some row → survives d victims.*1 i)).
  { destruct (Z.ltb_spec (Z.max 0 budget) (measureCheckpointBytes d2)) as [Hlt|Hge].
    - destruct (prune_to_budget _ victims aged (measureCheckpointBytes d2) d2) as [total d3].
      exists total, d3. split; [exact Hrun|]. destruct Hspec as (S1 & S2 & S3 & S4).
      { intros i row row' Hir Hrow'. apply Hv, elem_of_rest, Hrows in Hir as [Hir _]. apply H12 in Hrow' as [Hr _]. cbn in *. congruence. }
      split; [done|]. split; [done|]. unfold survives in S4. setoid_rewrite (only_reserved _ _ _ Ho02) in S3.
      setoid_rewrite (only_reserved _ _ _ Ho02) in S4. done.
    - exists aged, d2. split; [exact Hrun|]. split; [lia|]. split; [done|]. split; [auto|]. left. lia. }
  destruct Hd3 as (total & d3 & Hres & Ht & Hsub & Hnone & Hbud). exists (mkPruned orphans total (measureCheckpointBytes d3) (Z.max 0 budget)), d3.
  split; [done|]. rewrite Hres in Honly. cbn in Honly. split; [done|]. split.
  - intros i row Hi. by destruct (H12 i row (Hsub i row Hi)) as (_ & ? & _).
  - apply (prune_victims_aux d d1 d2 d3 ids victims rows); eauto.
    + intros i (c & Hc & Hi)%elem_of_front. eauto.
    + intros i (c & -> & Hc)%list_elem_of_fmap. apply Hv, elem_of_rest in Hc. eauto.
  - intros i row Hi Hn. destruct (H12 i row (Hsub i row Hi)) as (_ & Hi' & [Ho|Ho] & _); [|done]. exfalso. apply Ho, elem_of_orphans. eauto.
  - intros run Hterm. by apply (aged_length d d1 d2 k Ho1 Hl2).
  - destruct Hbud as [?|Hbud]; [by left|right]. intros i row Hi Hterm. apply Hbud in Hi as Hs. destruct Hs as [Hs|Hs]; [|done].
    destruct (H12 i row (Hsub i row Hi)) as (Hi1 & _ & _ & Hs2).
    assert (Hin : (i, row) ∈ rows) by (apply elem_of_terminal; by rewrite (same_terminal d d1)).
    destruct (front_or_rest (bucket_overflow k) rows _ Hin) as [Hf|Hr].
    + destruct Hs2 as [Hs2|Hs2]; [done|]. by rewrite (only_reserved d d1) in Hs2.
    + exfalso. apply Hs, list_elem_of_fmap. exists (i, row). split; [done|]. by apply Hv.
  - cbn. split; [lia|done].
Qed.

(** Pruning the checkpoints deletes only checkpoints of finished or missing
    runs, and none that a reservation names; it leaves no unreserved orphan and at
    most the requested number of unreserved checkpoints per finished run, and
    either the stored bytes fit the budget or no unreserved checkpoint of a
    finished run is left; its counts are the rows it deleted. *)
Theorem prune_checkpoints_exact compare keep budget d :
  ∃ result d', pruneCheckpoints compare keep budget d = (Ok result, d') ∧ checkpoints_only d d' ∧
    prune_post keep budget d d' result.
Proof. apply prune_checkpoints_run. Qed.
