(* ===== verification/DurableRetries.v ===== *)
(** * Durable runs: retries, dead letters and the invariant of the tables *)
From S2P Require Import Prelude.
From S2P Require Import JsString.
From S2P Require Import JsTime.
From S2P Require Import JsJson.
From S2P Require Import Errors.
From S2P Require Import DurableRuns.
From S2P Require Import DurableRunTheorems.
From S2P Require Import DurablePruning.

(** ** The latest retry of a run *)

Lemma latest_fold (id : string) (l : list (string * Z)) :
  match foldr (λ (k : string * Z) m, if bool_decide (k.1 = id) then Some (match m with Some a => Z.max a k.2 | None => k.2 end) else m)
          None l with
  | Some n => (id, n) ∈ l ∧ ∀ m, (id, m) ∈ l → m ≤ n
  | None => ∀ m, (id, m) ∉ l
  end.
Proof.
  induction l as [|[i k] l IH]; cbn [foldr]; [intros m; apply not_elem_of_nil|].
  case_bool_decide as Hi; cbn in Hi.
  - subst i. destruct (foldr _ None l) as [a|].
    + destruct IH as [H1 H2]. split.
      * destruct (Z.max_spec a k) as [[_ E]|[_ E]]; cbn; rewrite E; [by left|by right].
      * intros m [[= ->]|Hm]%elem_of_cons; cbn; [lia|]. specialize (H2 m Hm). lia.
    + split; [by left|]. cbn. intros m [[= ->]|Hm]%elem_of_cons; [lia|]. by apply IH in Hm.
  - assert (Hc : ∀ m, (id, m) ∈ (i, k) :: l ↔ (id, m) ∈ l) by (intros m; rewrite elem_of_cons; naive_solver).
    destruct (foldr _ None l) as [a|]; setoid_rewrite Hc; done.
Qed.

Lemma elem_of_keys `{Countable K} {A} (m : gmap K A) k : k ∈ (map_to_list m).*1 ↔ is_Some (m !! k).
Proof.
  rewrite list_elem_of_fmap. split.
  - intros ([k' v] & -> & Hin%elem_of_map_to_list). eauto.
  - intros [v Hv]. exists (k, v). by rewrite elem_of_map_to_list.
Qed.

Lemma latest_attempt_spec d id n :
  latest_attempt d id = Some n ↔
    is_Some (durable_retries d !! (id, n)) ∧ ∀ m, is_Some (durable_retries d !! (id, m)) → m ≤ n.
Proof.
  pose proof (latest_fold id (map_to_list (durable_retries d)).*1) as H. unfold latest_attempt.
  setoid_rewrite <-(elem_of_keys (durable_retries d)). destruct (foldr _ None _) as [a|]; split.
  - by intros [= <-].
  - intros [H1 H2]. destruct H as [Ha Hb]. specialize (Hb n H1). specialize (H2 a Ha). f_equal. lia.
  - done.
  - intros [H1 _]. by apply H in H1.
Qed.

(** ** Scheduling a retry *)

(** The id of a new retry is not in use. *)
Definition fresh_retry_id (d : durable_db) (id : string) : Prop := ∀ k r, durable_retries d !! k = Some r → rt_retry_id r ≠ id.

Definition retry_written (d : durable_db) (run : string) (attempt : Z) (row : DurableRetryRow) : durable_db :=
  let stored :=
    match durable_retries d !! (run, attempt) with
    | Some old => mkRetryRow (rt_retry_id old) (rt_reason row) (rt_next_retry_at row) (rt_created_at old)
    | None => row
    end in
  d <| durable_retries := <[(run, attempt) := stored]> (durable_retries d) |>.

Lemma upsertRetryStmt_ok d run attempt row :
  is_Some (durable_runs d !! run) → fresh_retry_id d (rt_retry_id row) →
  upsertRetryStmt run attempt row d = (Ok tt, retry_written d run attempt row).
Proof.
  intros [r Hr] Hf. unfold upsertRetryStmt, retry_written. destruct (durable_retries d !! (run, attempt)) as [old|] eqn:Ho; [done|].
  destruct (existsb _ _) eqn:He; [|by rewrite Hr]. exfalso. apply existsb_exists in He as (x & Hx & Hid). bools.
  apply list_elem_of_In, list_elem_of_fmap in Hx as ([k v] & -> & Hx%elem_of_map_to_list). by apply (Hf k v).
Qed.

Lemma retry_written_lookup d run attempt row k :
  durable_retries (retry_written d run attempt row) !! k =
    if decide (k = (run, attempt)) then
      Some (match durable_retries d !! (run, attempt) with
            | Some old => mkRetryRow (rt_retry_id old) (rt_reason row) (rt_next_retry_at row) (rt_created_at old)
            | None => row
            end)
    else durable_retries d !! k.
Proof.
  cbn. destruct (decide (k = (run, attempt))) as [->|Hne]; [by rewrite lookup_insert_eq|by rewrite lookup_insert_ne].
Qed.

Lemma upsertRetryClock_state clock uuid rid run attempt reason n d now :
  truthy (trim reason) = true → 0 ≤ n → sqlite_iso clock = Some now →
  is_Some (durable_runs d !! run) → fresh_retry_id d (default uuid rid) →
  (upsertRetryWithDatabaseClock clock uuid rid run attempt reason (Some n) d).2 =
    retry_written d run (Z.max 1 attempt) (mkRetryRow (default uuid rid) (trim reason) (sqlite_iso (clock + n)) now).
Proof.
  intros Hr Hn Hnow Hrun Hf. unfold upsertRetryWithDatabaseClock, normalizeRetryDelayMs.
  destruct (Z.ltb_spec n 0); [lia|]. rewrite (Z.max_r 0 n) by lia. rewrite Hnow. rewrite M_lift_bind.
  unfold reason_required, guard_throw. rewrite Hr, M_lift_bind. cbn [negb throw_when]. rewrite M_lift_bind.
  erewrite bind_run by (by apply upsertRetryStmt_ok). unfold listRetries. rewrite M_gets_bind. by case_match.
Qed.

(** A retry scheduled under the database clock for an attempt that is not
    behind the run's latest holds the queued run back for exactly its delay: until
    then every claim under the database clock returns nothing and changes nothing,
    and from then on the first claim takes the run. *)
Theorem retry_delays_claim clock uuid rid run attempt reason n d row :
  truthy (trim reason) = true → 0 ≤ n → sqlite_range clock = true → sqlite_range (clock + n) = true →
  durable_runs d !! run = Some row → r_status row = queued → fresh_retry_id d (default uuid rid) →
  (∀ m, is_Some (durable_retries d !! (run, m)) → m ≤ Z.max 1 attempt) →
  let d1 := (upsertRetryWithDatabaseClock clock uuid rid run attempt reason (Some n) d).2 in
  ∀ t worker k, 0 < k → sqlite_range t = true →
    (t < clock + n → tryClaimQueuedRunWithDatabaseClock t run worker (Some k) d1 = (Ok None, d1)) ∧
    (clock + n ≤ t → ∃ r d2, tryClaimQueuedRunWithDatabaseClock t run worker (Some k) d1 = (Ok (Some r), d2) ∧
       status r = running ∧ leaseOwnerId r = Some worker).
Proof.
  intros Hr Hn Hc He Hrow Hq Hf Hlast d1 t worker k Hk Ht.
  destruct (sqlite_iso_some clock Hc) as (now & Hnow & _). destruct (sqlite_iso_some (clock + n) He) as (exp & Hexp & Hjd).
  destruct (sqlite_iso_some t Ht) as (tnow & Htnow & _).
  assert (Hd1 : d1 = retry_written d run (Z.max 1 attempt) (mkRetryRow (default uuid rid) (trim reason) (Some exp) now)).
  { unfold d1. rewrite <-Hexp. by apply upsertRetryClock_state. }
  clearbody d1. subst d1. set (d1 := retry_written _ _ _ _).
  assert (Hrow1 : durable_runs d1 !! run = Some row) by done.
  assert (Hpend : retry_pending d1 t run = (t <? clock + n)).
  { unfold retry_pending. assert (latest_attempt d1 run = Some (Z.max 1 attempt)) as ->.
    { apply latest_attempt_spec. unfold d1. setoid_rewrite retry_written_lookup. split; [by rewrite decide_True by done|].
      intros m. destruct (decide ((run, m) = (run, Z.max 1 attempt))) as [E|Hne]; [intros _; injection E; lia|apply Hlast]. }
    unfold d1. rewrite retry_written_lookup, decide_True by done. rewrite <-(after_clock_iso _ _ t Hjd). by case_match. }
  rewrite claim_clock_is, clocked_call_run. unfold normalizeLeaseDurationMs. destruct (Z.leb_spec k 0); [lia|].
  rewrite Hrow1. unfold claimable. rewrite bool_decide_eq_true_2, Hpend by done. cbn [andb]. split.
  - intros Hlt. by rewrite (proj2 (Z.ltb_lt _ _) Hlt).
  - intros Hge. rewrite (proj2 (Z.ltb_ge _ _) Hge). cbn [negb]. rewrite Htnow. eauto.
Qed.

(** ** Dead letters *)

(** No two dead letters share an id, no two retries do, and what the tables hold
    for a run refers to a run that exists; the counters are within bounds. *)
Record durable_wf (d : durable_db) : Prop := {
  wf_dead_letter_ids : ∀ run run' row row', durable_dead_letters d !! run = Some row → durable_dead_letters d !! run' = Some row' →
    dl_dead_letter_id row = dl_dead_letter_id row' → run = run';
  wf_retry_ids : ∀ k k' row row', durable_retries d !! k = Some row → durable_retries d !! k' = Some row' →
    rt_retry_id row = rt_retry_id row' → k = k';
  wf_retry_runs : ∀ run n row, durable_retries d !! (run, n) = Some row → is_Some (durable_runs d !! run) ∧ 1 ≤ n;
  wf_checkpoint_runs : ∀ i row, durable_checkpoints d !! i = Some row → is_Some (durable_runs d !! cp_run_id row);
  wf_dead_letter_runs : ∀ run row, durable_dead_letters d !! run = Some row → is_Some (durable_runs d !! run);
  wf_run_counters : ∀ id row, durable_runs d !! id = Some row →
    0 ≤ r_attempt_count row ∧ 1 ≤ r_max_attempts row ∧ 1 ≤ r_version row ∧ truthy (r_workflow_key row) = true;
}.

Lemma wf_set_run d id row : durable_wf d → row_ok row → durable_wf (set_run id row d).
Proof.
  intros [W1 W2 W3 W4 W5 W6] Hrow.
  assert (Hsome : ∀ i, is_Some (durable_runs d !! i) → is_Some (durable_runs (set_run id row d) !! i)).
  { intros i Hi. cbn. destruct (decide (id = i)) as [<-|]; [rewrite lookup_insert_eq; eauto|by rewrite lookup_insert_ne]. }
  split; [done|done| | | |]; cbn.
  - intros run n r Hr. destruct (W3 run n r Hr). auto.
  - eauto.
  - eauto.
  - intros i r. destruct (decide (id = i)) as [<-|Hne]; [|rewrite lookup_insert_ne by done; apply W6].
    rewrite lookup_insert_eq. by intros [= <-].
Qed.

Lemma wf_update clock nowIso input d : durable_wf d → durable_wf (updateRun clock nowIso input d).2.
Proof.
  intros Hwf. rewrite updateRun_run. destruct (durable_runs d !! ur_runId input) as [row|] eqn:Hrow; [|done].
  destruct (bool_decide _ && _); [|done]. destruct (secure_guard _ _ _ _ _); [done|]. apply wf_set_run; [done|].
  destruct (wf_run_counters d Hwf _ _ Hrow) as (H1 & H2 & H3 & H4). unfold row_ok, next_row. cbn.
  repeat split; [destruct (ur_attemptCount input); lia|destruct (ur_maxAttempts input); lia|lia|done].
Qed.

Lemma wf_claim clock nowIso current worker hb expires upd d :
  read_counters current → durable_wf d →
  durable_wf (tryClaimQueuedRunFrom clock nowIso current (runId current) worker hb expires upd d).2.
Proof.
  intros [Ha Hm] Hwf. rewrite claimFrom_run by done. case_bool_decide; [|done].
  destruct (durable_runs d !! runId current) as [row|] eqn:Hrow; [|done]. cbv zeta.
  destruct (bool_decide (r_version row = version current)) eqn:Hv; cbn [andb]; [|done]. bools.
  destruct (negb _); [|done]. destruct (secure_guard _ _ _ _ _); [done|]. apply wf_set_run; [done|].
  destruct (wf_run_counters d Hwf _ _ Hrow) as (H1 & H2 & H3 & H4). unfold row_ok. cbn. repeat split; [done|done|lia|done].
Qed.

Lemma wf_clocked clock cond f id duration d :
  (∀ n now row, row_ok row → row_ok (f n now row)) → durable_wf d →
  durable_wf (clocked_call (λ n, clocked_update clock id cond (λ now, f n now)) id duration d).2.
Proof.
  intros Hf Hwf. rewrite clocked_call_run. destruct (normalizeLeaseDurationMs duration); [|done].
  destruct (durable_runs d !! id) as [row|] eqn:Hrow; [|done]. destruct (cond d row); [|done].
  destruct (sqlite_iso clock); [|done]. apply wf_set_run; [done|]. apply Hf. by apply (wf_run_counters d Hwf id).
Qed.

Lemma wf_checkpoints d d' :
  checkpoints_only d d' → (∀ i row, durable_checkpoints d' !! i = Some row → is_Some (durable_runs d !! cp_run_id row)) →
  durable_wf d → durable_wf d'.
Proof. intros Ho Hc [W1 W2 W3 W4 W5 W6]. rewrite Ho. split; cbn; eauto. Qed.

Lemma wf_retry_stmt run attempt row d : 1 ≤ attempt → durable_wf d → durable_wf (upsertRetryStmt run attempt row d).2.
Proof.
  intros Ha Hwf. unfold upsertRetryStmt. destruct (durable_retries d !! (run, attempt)) as [old|] eqn:Ho.
  - destruct Hwf as [W1 W2 W3 W4 W5 W6]. split; cbn; [done| | |done|done|done].
    + intros k k' r r'. rewrite !lookup_insert_Some. intros [[<- <-]|[? Hr]] [[<- <-]|[? Hr']] E; cbn in *; eauto.
    + intros i n r. rewrite lookup_insert_Some. intros [[[= <- <-] _]|[_ Hr]]; [by destruct (W3 _ _ _ Ho)|eauto].
  - destruct (existsb _ _) eqn:He; [done|]. destruct (durable_runs d !! run) as [rr|] eqn:Hr; [|done].
    assert (Hfresh : ∀ k r, durable_retries d !! k = Some r → rt_retry_id r ≠ rt_retry_id row).
    { intros k r Hk E. apply not_true_iff_false in He. apply He, existsb_exists. exists r.
      split; [|by apply bool_decide_eq_true]. apply list_elem_of_In, list_elem_of_fmap. exists (k, r).
      by rewrite elem_of_map_to_list. }
    destruct Hwf as [W1 W2 W3 W4 W5 W6]. split; cbn; [done| | |done|done|done].
    + intros k k' r r'. rewrite !lookup_insert_Some. intros [[<- <-]|[? Hk]] [[<- <-]|[? Hk']] E; [done| | |eauto].
      * by apply Hfresh in Hk'.
      * by apply Hfresh in Hk.
    + intros i n r. rewrite lookup_insert_Some. intros [[[= <- <-] _]|[_ Hk]]; [|eauto]. eauto.
Qed.

Lemma wf_dead_stmt run row d : durable_wf d → durable_wf (upsertDeadLetterStmt run row d).2.
Proof.
  intros Hwf. unfold upsertDeadLetterStmt. destruct (durable_dead_letters d !! run) as [old|] eqn:Ho.
  - destruct Hwf as [W1 W2 W3 W4 W5 W6]. split; cbn; [|done|done|done| |done].
    + intros k k' r r'. rewrite !lookup_insert_Some. intros [[<- <-]|[? Hr]] [[<- <-]|[? Hr']] E; cbn in *; eauto.
    + intros k r. rewrite lookup_insert_Some. intros [[<- _]|[_ Hr]]; eauto.
  - destruct (existsb _ _) eqn:He; [done|]. destruct (durable_runs d !! run) as [rr|] eqn:Hr; [|done].
    assert (Hfresh : ∀ k r, durable_dead_letters d !! k = Some r → dl_dead_letter_id r ≠ dl_dead_letter_id row).
    { intros k r Hk E. apply not_true_iff_false in He. apply He, existsb_exists. exists r.
      split; [|by apply bool_decide_eq_true]. apply list_elem_of_In, list_elem_of_fmap. exists (k, r).
      by rewrite elem_of_map_to_list. }
    destruct Hwf as [W1 W2 W3 W4 W5 W6]. split; cbn; [|done|done|done| |done].
    + intros k k' r r'. rewrite !lookup_insert_Some. intros [[<- <-]|[? Hk]] [[<- <-]|[? Hk']] E; [done| | |eauto].
      * by apply Hfresh in Hk'.
      * by apply Hfresh in Hk.
    + intros k r. rewrite lookup_insert_Some. intros [[<- _]|[_ Hk]]; eauto.
Qed.

Lemma dead_letter_by_id_some d id run row :
  dead_letter_by_id d id = Some (run, row) → durable_dead_letters d !! run = Some row ∧ dl_dead_letter_id row = id.
Proof.
  unfold dead_letter_by_id. intros Hf. apply find_some in Hf as [Hin He]. cbn in He. bools.
  by apply list_elem_of_In, elem_of_map_to_list in Hin.
Qed.

Lemma wf_resolve_stmt id at_ note d : durable_wf d → durable_wf (resolveDeadLetterStmt id at_ note d).2.
Proof.
  intros Hwf. unfold resolveDeadLetterStmt. destruct (dead_letter_by_id d id) as [[run row]|] eqn:Hf; [|done].
  apply dead_letter_by_id_some in Hf as [Hrow Hid]. case_bool_decide; [|done].
  destruct Hwf as [W1 W2 W3 W4 W5 W6]. split; cbn; [|done|done|done| |done].
  - intros k k' r r'. rewrite !lookup_insert_Some. intros [[<- <-]|[? Hr]] [[<- <-]|[? Hr']] E; cbn in *; eauto.
  - intros k r. rewrite lookup_insert_Some. intros [[<- _]|[_ Hr]]; eauto.
Qed.

(** Calls built from statements that keep the invariant. *)
Definition keep_wf (d d' : durable_db) : Prop := durable_wf d → durable_wf d'.
#[export] Instance keep_wf_preorder : PreOrder keep_wf.
Proof. split; [by intros d Hd|]. intros a b c Hab Hbc Ha. by apply Hbc, Hab. Qed.
Abbreviation keeps_wf := (moves keep_wf).

Ltac keeps_wf := repeat first [progress moves | progress intros ? | case_match].

(** Whatever calls are made, by whatever callers and against whatever stale
    reads, the tables stay well formed: ids are unique, every retry, checkpoint
    and dead letter belongs to a run, and the counters of a run are in bounds. *)
Theorem durable_tables_wf d d' : rtc durable_step d d' → durable_wf d → durable_wf d'.
Proof.
  induction 1 as [|d d1 d' [d1' Hc|p s] _ IH]; intros Hwf; [done| |by apply IH; destruct Hwf].
  apply IH. clear IH. destruct Hc; eauto using wf_update, wf_claim.
  - destruct (createRun_run uuid nowIso input d) as [->|(i & row & Hn & Hok & ->)]; [done|]. by apply wf_set_run.
  - rewrite claim_clock_is. apply wf_clocked; [|done]. intros n now row (? & ? & ? & ?). unfold row_ok. cbn. lia || (repeat split; lia || done).
  - unfold renewLeaseFrom. case_match; [done|]. rewrite some_of_state. by apply wf_update.
  - rewrite renew_clock_is. apply wf_clocked; [|done]. intros n now row (? & ? & ? & ?). unfold row_ok. cbn. repeat split; lia || done.
  - unfold releaseLeaseFrom. case_match; [done|]. rewrite some_of_state. by apply wf_update.
  - unfold createCheckpoint. cbv zeta. repeat case_match; try done. cbn.
    refine (wf_checkpoints d _ _ _ Hwf); [done|]. intros j r. cbn. rewrite lookup_insert_Some.
    intros [[_ <-]|[_ Hr]]; [cbn; eauto|by eapply wf_checkpoint_runs].
  - revert d Hwf. change (keeps_wf (upsertRetry uuid nowIso rid run attempt reason next at_)). unfold upsertRetry, reason_required, listRetries.
    keeps_wf; try done. apply wf_retry_stmt; [cbn; lia|done].
  - revert d Hwf. change (keeps_wf (upsertRetryWithDatabaseClock clock uuid rid run attempt reason delay)).
    unfold upsertRetryWithDatabaseClock, reason_required, listRetries. keeps_wf; try done. apply wf_retry_stmt; [lia|done].
  - revert d Hwf. change (keeps_wf (upsertDeadLetter uuid nowIso did run reason payload at_ resolved note)).
    unfold upsertDeadLetter, reason_required, getDeadLetterByRun. keeps_wf; try done. by apply wf_dead_stmt.
  - revert d Hwf. change (keeps_wf (resolveDeadLetter nowIso id at_ note)). unfold resolveDeadLetter.
    assert (Hg : ∀ i, keeps_wf (getDeadLetterById i)) by (intros i s Hs; unfold getDeadLetterById; by repeat case_match).
    keeps_wf; try done; first [by apply Hg|by apply wf_resolve_stmt].
  - destruct (prune_checkpoints_run compare keep budget d) as (result & pruned & Hrun & Ho & Hpost). rewrite Hrun.
    refine (wf_checkpoints d pruned Ho _ Hwf). intros i row Hi. apply (prune_subset _ _ _ _ _ Hpost) in Hi.
    by eapply wf_checkpoint_runs.
Qed.

(** ** Resolving a dead letter *)

Lemma dead_letter_by_id_wf d run row :
  durable_wf d → durable_dead_letters d !! run = Some row → dead_letter_by_id d (dl_dead_letter_id row) = Some (run, row).
Proof.
  intros Hwf Hrow. destruct (dead_letter_by_id d (dl_dead_letter_id row)) as [[run' row']|] eqn:Hf.
  - apply dead_letter_by_id_some in Hf as [Hrow' Hid]. assert (run' = run) as -> by (by eapply wf_dead_letter_ids). congruence.
  - unfold dead_letter_by_id in Hf. pose proof (find_none _ _ Hf (run, row)) as H. cbn in H.
    rewrite bool_decide_eq_true_2 in H by done. discriminate H. by apply list_elem_of_In, elem_of_map_to_list.
Qed.

Definition already_resolved (id : string) : js_error :=
  ConflictError (Some STATE_CONFLICT) ("Durable dead letter " +:+ id +:+ " is already resolved").

Lemma resolve_resolved d run row nowIso at_ note :
  durable_wf d → durable_dead_letters d !! run = Some row → dl_resolved_at row ≠ None →
  resolveDeadLetter nowIso (dl_dead_letter_id row) at_ note d = (Err (already_resolved (dl_dead_letter_id row)), d).
Proof.
  intros Hwf Hrow Hres. pose proof (dead_letter_by_id_wf d run row Hwf Hrow) as Hf. unfold resolveDeadLetter.
  erewrite bind_run by (unfold getDeadLetterById; rewrite Hf; reflexivity).
  erewrite bind_run by (unfold resolveDeadLetterStmt; rewrite Hf, bool_decide_eq_false_2 by done; reflexivity). done.
Qed.

(** An unresolved dead letter is resolved by the first resolution with its
    date and note, which changes nothing else; every later resolution, and every
    resolution of a resolved one, throws a conflict and changes nothing. *)
Theorem dead_letter_resolved_once d run row nowIso at_ note :
  durable_wf d → durable_dead_letters d !! run = Some row →
  let id := dl_dead_letter_id row in
  match dl_resolved_at row with
  | Some _ => resolveDeadLetter nowIso id at_ note d = (Err (already_resolved id), d)
  | None =>
      let resolved := mkDeadLetterRow id (dl_reason row) (dl_payload_json row) (dl_created_at row) (Some (default nowIso at_))
                        (trimmed_or_none note) in
      let d1 := d <| durable_dead_letters := <[run := resolved]> (durable_dead_letters d) |> in
      resolveDeadLetter nowIso id at_ note d = (Ok (mapDeadLetterRow run resolved), d1) ∧
      ∀ nowIso' at' note', resolveDeadLetter nowIso' id at' note' d1 = (Err (already_resolved id), d1)
  end.
Proof.
  intros Hwf Hrow id. destruct (dl_resolved_at row) as [t|] eqn:Hres.
  { by apply (resolve_resolved d run); [..|rewrite Hres]. }
  intros resolved d1. pose proof (dead_letter_by_id_wf d run row Hwf Hrow) as Hf. fold id in Hf.
  assert (Hstmt : resolveDeadLetterStmt id (default nowIso at_) (trimmed_or_none note) d = (Ok 1, d1)).
  { unfold resolveDeadLetterStmt. by rewrite Hf, bool_decide_eq_true_2. }
  assert (Hwf1 : durable_wf d1).
  { pose proof (wf_resolve_stmt id (default nowIso at_) (trimmed_or_none note) d Hwf) as H. by rewrite Hstmt in H. }
  assert (Hrow1 : durable_dead_letters d1 !! run = Some resolved) by (cbn; apply lookup_insert_eq).
  pose proof (dead_letter_by_id_wf d1 run resolved Hwf1 Hrow1) as Hf1. split.
  - unfold resolveDeadLetter. erewrite bind_run by (unfold getDeadLetterById; rewrite Hf; reflexivity).
    erewrite bind_run by exact Hstmt. unfold guard_throw. rewrite M_lift_bind. cbn [Z.eqb Pos.eqb negb throw_when].
    unfold getDeadLetterById. cbn [deadLetterId mapDeadLetterRow]. fold id. change (dl_dead_letter_id resolved) with id in Hf1.
    by rewrite Hf1.
  - intros nowIso' at' note'. by apply (resolve_resolved d1 run resolved).
Qed.

(** ** Examples *)

Definition example_run : DurableRunRow :=
  mkRunRow "approval.wait" queued 0 3 "{}" None None None None None None None 1 "2026-01-01T00:00:00.000Z" "2026-01-01T00:00:00.000Z".
Definition example_waiting : DurableRunRow := example_run <| r_status := waiting |>.
Definition example_dead_letter : DurableDeadLetterRow := mkDeadLetterRow "dl-1" "gave up" "{}" "2026-01-01T00:00:00.000Z" None None.
Definition example_db : durable_db :=
  mkDurableDb {[ "run-1" := example_run; "run-2" := example_waiting ]} ∅ ∅ {[ "run-2" := example_dead_letter ]}
    {[ "res-1" := mkReservation "run-2" "cp-1" [] ]} ∅.

(** 2026-01-01T00:00:00.000Z. *)
Definition example_clock : Z := 1767225600000.

Lemma example_run_stored : durable_runs example_db !! "run-1" = Some example_run.
Proof. reflexivity. Defined.

Lemma example_db_wf : durable_wf example_db.
Proof.
  assert (Hdl : ∀ run row, durable_dead_letters example_db !! run = Some row → run = "run-2" ∧ row = example_dead_letter).
  { intros run row H. cbn in H. by apply lookup_singleton_Some in H as [<- <-]. }
  split.
  - intros run run' row row' H H' _. apply Hdl in H as [-> _], H' as [-> _]. done.
  - intros k k' row row' H. cbn in H. by apply lookup_empty_Some in H.
  - intros run n row H. cbn in H. by apply lookup_empty_Some in H.
  - intros i row H. cbn in H. by apply lookup_empty_Some in H.
  - intros run row H. apply Hdl in H as [-> _]. vm_compute. eauto.
  - intros id row H. cbn in H. apply lookup_insert_Some in H as [[_ <-]|[_ H]]; [cbn; lia|].
    apply lookup_singleton_Some in H as [_ <-]. cbn. lia.
Qed.

Lemma claim_grants_lease_witness :
  ∃ run d1, tryClaimQueuedRunWithDatabaseClock example_clock "run-1" "worker" (Some 60000) example_db = (Ok (Some run), d1) ∧
    (∃ r, lockFreshActiveLeaseForUpdate (example_clock + 59999) "run-1" "worker" d1 = (Ok (Some r), d1)) ∧
    ¬ (∃ r, lockFreshActiveLeaseForUpdate (example_clock + 59999) "run-1" "other" d1 = (Ok (Some r), d1)).
Proof.
  destruct (claim_grants_lease example_clock "run-1" "worker" 60000 example_db example_run)
    as (run & d1 & e & Hc & _ & _ & _ & _ & H); [reflexivity|reflexivity|vm_compute; reflexivity|lia|reflexivity|reflexivity|].
  exists run, d1. split; [exact Hc|]. destruct (H (example_clock + 59999)) as (H1 & _). split.
  - apply H1. split; [reflexivity|]. unfold example_clock. lia.
  - intros Hr. apply H1 in Hr as [Hr _]. discriminate Hr.
Defined.

Lemma stale_version_refused_witness :
  (updateRun 0 "now" (update_to "run-1" running <| ur_expectedVersion := Some 1 |>)
     (updateRun 0 "now" (update_to "run-1" paused) example_db).2).1 = Err (update_conflict "run-1").
Proof.
  destruct (stale_version_refused example_db (updateRun 0 "now" (update_to "run-1" paused) example_db).2 "run-1" example_run)
    as (row' & Hrow' & _ & H).
  - apply rtc_once, step_call, call_update.
  - reflexivity.
  - destruct H as [H _].
    + intros E. subst row'. vm_compute in Hrow'. discriminate Hrow'.
    + rewrite (H 0 "now" (update_to "run-1" running <| ur_expectedVersion := Some 1 |>)); reflexivity.
Defined.

Lemma reserved_run_held_witness :
  held (updateRun 0 "now" (update_to "run-2" queued) (updateRun 0 "now" (update_to "run-2" paused) example_db).2).2 "run-2".
Proof.
  apply (reserved_run_held example_db).
  - eapply rtc_l; [apply call_update|]. apply rtc_once, call_update.
  - split; [vm_compute; reflexivity|]. exists example_waiting. split; reflexivity.
Defined.

Lemma retry_delays_claim_witness :
  let d1 := (upsertRetryWithDatabaseClock example_clock "u" (Some "retry-1") "run-1" 1 "failed" (Some 5000) example_db).2 in
  tryClaimQueuedRunWithDatabaseClock (example_clock + 4999) "run-1" "worker" (Some 60000) d1 = (Ok None, d1).
Proof.
  intros d1.
  destruct (retry_delays_claim example_clock "u" (Some "retry-1") "run-1" 1 "failed" 5000 example_db example_run) with
    (t := example_clock + 4999) (worker := "worker") (k := 60000) as [H _];
    [reflexivity|lia|reflexivity|reflexivity|reflexivity|reflexivity| | |lia|reflexivity|].
  - intros k r Hk. cbn in Hk. by apply lookup_empty_Some in Hk.
  - intros m [r Hr]. cbn in Hr. by apply lookup_empty_Some in Hr.
  - apply H. unfold example_clock. lia.
Defined.

Lemma dead_letter_resolved_once_witness :
  (resolveDeadLetter "2026-01-02T00:00:00.000Z" "dl-1" None (Some "done ") example_db).1 =
    Ok (mkDeadLetter "dl-1" "run-2" "gave up" (JObject []) "2026-01-01T00:00:00.000Z" (Some "2026-01-02T00:00:00.000Z") (Some "done")).
Proof.
  destruct (dead_letter_resolved_once example_db "run-2" example_dead_letter "2026-01-02T00:00:00.000Z" None (Some "done ")
    example_db_wf) as [H _]; [reflexivity|].
  change (dl_dead_letter_id example_dead_letter) with "dl-1" in H. rewrite H. vm_compute. reflexivity.
Defined.

Lemma durable_tables_wf_witness :
  durable_wf (pruneCheckpoints (λ _ _, 0) 1 0 (createCheckpoint "cp-1" "now" None "run-2" run_waiting None None example_db).2).2.
Proof.
  apply (durable_tables_wf example_db); [|exact example_db_wf].
  eapply rtc_l; [apply step_call, call_checkpoint|]. apply rtc_once, step_call, call_prune.
Defined.

(** [upsertRetry] answers with the last of the run's first hundred retries, so the
    record returned for an earlier attempt is another attempt's. *)
Example upsertRetry_returns_latest :
  let d1 := (upsertRetry "u1" "now" None "run-1" 1 "first" None None example_db).2 in
  let d2 := (upsertRetry "u2" "now" None "run-1" 2 "second" None None d1).2 in
  (upsertRetry "u3" "now" None "run-1" 1 "again" None None d2).1 = Ok (mkRetry "u2" "run-1" 2 "second" None "now").
Proof. vm_compute. reflexivity. Qed.
