(* ===== verification/IpAddresses.v ===== *)
(** * Addresses of the network guard (packages/policy-engine/src/sandbox/network-guard.ts)

    The part of the guard that reads the text of an IP address: the reserved
    IPv4 ranges, the groups of an IPv6 literal, the IPv4 addresses inside an
    IPv6 one, and the reserved IPv6 ranges. *)
From stdpp Require Import pretty.
From S2P Require Import Prelude.
From S2P Require Import JsString.
From S2P Require Import JsTime.
From S2P Require Import JsJson.

(** ** Numbers in texts *)

(** [Number(part)] of a part of a dotted address: its decimal value.  [None] is
    NaN; the guard only splits texts of digits and dots. *)
Definition part_number (part : string) : option Z :=
  if string_forallb is_digit part then Some (digits_value 0 part) else None.

(** Comparisons with a number that may be NaN. *)
Definition is_num (x : option Z) (k : Z) : bool := match x with Some n => n =? k | None => false end.
Definition between (x : option Z) (lo hi : Z) : bool := match x with Some n => (lo <=? n) && (n <=? hi) | None => false end.
Definition at_least (x : option Z) (k : Z) : bool := match x with Some n => k <=? n | None => false end.

(** [a.b.c.d]: [[a, b, c, d].join(".")]. *)
Definition dotted (octets : list Z) : string := join "." (map pretty octets).

Definition is_hex (c : ascii) : bool :=
  let n := N_of_ascii c in (48 <=? n)%N && (n <=? 57)%N || (97 <=? n)%N && (n <=? 102)%N.
Definition hex_val (c : ascii) : Z :=
  let n := Z.of_N (N_of_ascii c) in if n <=? 57 then n - 48 else n - 87.
(** [Number.parseInt(part, 16)] of hexadecimal digits. *)
Fixpoint hex_value (acc : Z) (s : string) : Z :=
  match s with
  | String c s' => hex_value (acc * 16 + hex_val c) s'
  | EmptyString => acc
  end.
Definition hex_digit (d : Z) : ascii := ascii_of_N (Z.to_N (if d <? 10 then d + 48 else d + 87)).
(** [n.toString(16)] of a whole number below [2^16]: four digits at most. *)
Fixpoint to_hex_fuel (fuel : nat) (n : Z) : string :=
  match fuel with
  | O => EmptyString
  | S fuel' =>
      if n <? 16 then String (hex_digit n) EmptyString
      else to_hex_fuel fuel' (n / 16) +:+ String (hex_digit (n mod 16)) EmptyString
  end.
Definition to_hex (n : Z) : string := to_hex_fuel 4 n.

(** [/^\d{1,3}$/] and [/^[0-9a-f]{1,4}$/]. *)
Definition is_digits3 (s : string) : bool :=
  string_forallb is_digit s && (1 <=? String.length s)%nat && (String.length s <=? 3)%nat.
Definition is_hex4 (s : string) : bool :=
  string_forallb is_hex s && (1 <=? String.length s)%nat && (String.length s <=? 4)%nat.

(** ** IPv4 *)

Definition isPrivateOrReservedIpv4 (host : string) : bool :=
  let parts := map part_number (split_char "."%char host) in
  let a := default (Some (-1)) (parts !! 0%nat) in
  let b := default (Some (-1)) (parts !! 1%nat) in
  let c := default (Some (-1)) (parts !! 2%nat) in
  if is_num a 10 || is_num a 127 || is_num a 0 then true
  else if is_num a 169 && is_num b 254 then true
  else if is_num a 192 && is_num b 168 then true
  else if is_num a 192 && is_num b 0 && (is_num c 0 || is_num c 2) then true
  else if is_num a 192 && is_num b 88 && is_num c 99 then true
  else if is_num a 198 && (is_num b 18 || is_num b 19 || (is_num b 51 && is_num c 100)) then true
  else if is_num a 203 && is_num b 0 && is_num c 113 then true
  else if is_num a 100 && between b 64 127 then true
  else if is_num a 172 && between b 16 31 then true
  else at_least a 224.

(** ** IPv6 *)

(** [text.split("::")]. *)
Fixpoint split_colons (s : string) : list string :=
  match s with
  | EmptyString => [EmptyString]
  | String c s' =>
      let rest := match split_colons s' with w :: ws => String c w :: ws | [] => [String c EmptyString] end in
      match s' with
      | String c' s'' => if Ascii.eqb c ":"%char && Ascii.eqb c' ":"%char then EmptyString :: split_colons s'' else rest
      | EmptyString => rest
      end
  end.

(** The text up to and including its last colon, and what follows it. *)
Fixpoint last_colon (s : string) : option (string * string) :=
  match s with
  | EmptyString => None
  | String c s' =>
      match last_colon s' with
      | Some (p, t) => Some (String c p, t)
      | None => if Ascii.eqb c ":"%char then Some (String c EmptyString, s') else None
      end
  end.

(** [/^(.*:)(\d{1,3})\.(\d{1,3})\.(\d{1,3})\.(\d{1,3})$/.exec(text)]. *)
Definition dotted_tail (text : string) : option (string * list Z) :=
  match last_colon text with
  | Some (prefix, tail) =>
      let parts := split_char "."%char tail in
      if string_forallb (λ c, negb (is_line_break c)) prefix && (length parts =? 4)%nat && forallb is_digits3 parts
      then Some (prefix, map (digits_value 0) parts) else None
  | None => None
  end.

(** [parseSide]. *)
Definition parseSide (side : string) : option (list Z) :=
  if bool_decide (side = "") then Some []
  else
    let parts := split_char ":"%char side in
    if forallb is_hex4 parts then Some (map (hex_value 0) parts) else None.

Definition without_zone (text : string) : string :=
  match index_of "%" text with Some zone => string_take zone text | None => text end.

(** The dotted tail as two groups; [None] when an octet is above 255. *)
Definition without_dotted_tail (text : string) : option string :=
  match dotted_tail text with
  | Some (prefix, octets) =>
      if existsb (λ octet, 255 <? octet) octets then None
      else
        let o i := default 0 (octets !! i) in
        Some (prefix +:+ to_hex (Z.lor (Z.shiftl (o 0%nat) 8) (o 1%nat)) +:+ ":" +:+
              to_hex (Z.lor (Z.shiftl (o 2%nat) 8) (o 3%nat)))
  | None => Some text
  end.

Definition parseIpv6Groups (ipv6Lower : string) : option (list Z) :=
  text ← without_dotted_tail (without_zone ipv6Lower);
  match split_colons text with
  | [single] =>
      head ← parseSide single;
      if (length head =? 8)%nat then Some head else None
  | [h; t] =>
      head ← parseSide h;
      tail ← parseSide t;
      let fill := 8 - Z.of_nat (length head) - Z.of_nat (length tail) in
      if fill <? 1 then None else Some (head ++ repeat 0 (Z.to_nat fill) ++ tail)
  | _ => None
  end.

(** ** IPv4 addresses inside IPv6 ones *)

(** One match of [0{1,4}:]. *)
Fixpoint zero_group (max : nat) (seen : bool) (s : string) : option string :=
  match s with
  | String c s' =>
      if Ascii.eqb c ":"%char then (if seen then Some s' else None)
      else if Ascii.eqb c "0"%char then match max with S max' => zero_group max' true s' | O => None end
      else None
  | EmptyString => None
  end.

(** The longest run of such groups, of at most [n], and what follows.  [ffff:]
    does not start with a zero, so only the longest run can be followed by it. *)
Fixpoint zero_groups (n : nat) (s : string) : nat * string :=
  match n with
  | O => (O, s)
  | S n' =>
      match zero_group 4 false s with
      | Some rest => let '(k, r) := zero_groups n' rest in (S k, r)
      | None => (O, s)
      end
  end.

(** [s.replace(/^(?:0{1,4}:){lo,hi}ffff:/, "::ffff:")]. *)
Definition fold_zero_groups (lo hi : nat) (s : string) : string :=
  let '(k, rest) := zero_groups hi s in
  if (lo <=? k)%nat && starts_with "ffff:" rest then "::" +:+ rest else s.

Definition octet (value shift : Z) : Z := Z.land (Z.shiftr value shift) 255.

Definition extractIpv4MappedAddress (ipv6Lower : string) : option string :=
  let canonical := fold_zero_groups 1 1 (fold_zero_groups 2 5 ipv6Lower) in
  if starts_with "::ffff:" canonical then
    let rest := string_drop 7 canonical in
    let parts := split_char "."%char rest in
    if (length parts =? 4)%nat && forallb is_digits3 parts then Some rest
    else
      match split_char ":"%char rest with
      | [h; l] =>
          if is_hex4 h && is_hex4 l then
            let high := hex_value 0 h in
            let low := hex_value 0 l in
            Some (dotted [octet high 8; octet high 0; octet low 8; octet low 0])
          else None
      | _ => None
      end
  else None.

Definition embedded (high low : Z) : string :=
  dotted [octet high 8; octet high 0; octet low 8; octet low 0].

Definition isBlockedIpv6 (host : string) : bool :=
  let lower := to_lower host in
  if bool_decide (lower = "::") || bool_decide (lower = "::1") ||
     existsb (λ p, starts_with p lower)
       ["fc"; "fd"; "fe8"; "fe9"; "fea"; "feb"; "fec"; "fed"; "fee"; "fef"; "2001:db8:"] then true
  else
    match extractIpv4MappedAddress lower with
    | Some mapped => isPrivateOrReservedIpv4 mapped
    | None =>
        match parseIpv6Groups lower with
        | None => false
        | Some groups =>
            let g i := default 0 (groups !! i) in
            if Z.land (g 0%nat) 65280 =? 65280 then true
            else if (g 0%nat =? 100) && (g 1%nat =? 65435) && (g 2%nat =? 0) && (g 3%nat =? 0) &&
                    (g 4%nat =? 0) && (g 5%nat =? 0)
            then isPrivateOrReservedIpv4 (embedded (g 6%nat) (g 7%nat))
            else if (g 0%nat =? 100) && (g 1%nat =? 65435) && (g 2%nat =? 1) then true
            else if g 0%nat =? 8194 then isPrivateOrReservedIpv4 (embedded (g 1%nat) (g 2%nat))
            else if (g 0%nat =? 0) && (g 1%nat =? 0) && (g 2%nat =? 0) && (g 3%nat =? 0) &&
                    (g 4%nat =? 0) && (g 5%nat =? 0)
            then isPrivateOrReservedIpv4 (embedded (g 6%nat) (g 7%nat))
            else false
        end
    end.

Definition stripIpv6Brackets (hostname : string) : string :=
  if starts_with "[" hostname && ends_with "]" hostname
  then string_take (String.length hostname - 2) (string_drop 1 hostname)
  else hostname.

(** ** Reference: the reserved blocks *)

(** A block [base/len] of addresses of [width] bits. *)
Definition in_block (width v : Z) (block : Z * Z) : bool :=
  Z.shiftr v (width - block.2) =? Z.shiftr block.1 (width - block.2).

Definition ipv4_value (a b c d : Z) : Z := Z.shiftl a 24 + Z.shiftl b 16 + Z.shiftl c 8 + d.

(** The special-purpose IPv4 blocks (RFC 6890), with multicast and class E. *)
Definition RESERVED_IPV4 : list (Z * Z) :=
  [(ipv4_value 10 0 0 0, 8); (ipv4_value 127 0 0 0, 8); (ipv4_value 0 0 0 0, 8);
   (ipv4_value 169 254 0 0, 16); (ipv4_value 192 168 0 0, 16); (ipv4_value 192 0 0 0, 24);
   (ipv4_value 192 0 2 0, 24); (ipv4_value 192 88 99 0, 24); (ipv4_value 198 18 0 0, 15);
   (ipv4_value 198 51 100 0, 24); (ipv4_value 203 0 113 0, 24); (ipv4_value 100 64 0 0, 10);
   (ipv4_value 172 16 0 0, 12); (ipv4_value 224 0 0 0, 3)].
Definition reserved_ipv4 (v : Z) : bool := existsb (in_block 32 v) RESERVED_IPV4.

(** The value of an IPv6 address from its groups. *)
Definition ipv6_value (groups : list Z) : Z := foldl (λ v g, v * 65536 + g) 0 groups.
Definition ipv6_prefix (groups : list Z) : Z := ipv6_value (take 8 (groups ++ repeat 0 8)).

(** The unspecified address and the loopback, unique local, link local, site
    local, multicast, documentation and local NAT64 blocks. *)
Definition RESERVED_IPV6 : list (Z * Z) :=
  [(ipv6_prefix [], 128); (1, 128); (ipv6_prefix [64512], 7); (ipv6_prefix [65152], 10); (ipv6_prefix [65216], 10);
   (ipv6_prefix [65280], 8); (ipv6_prefix [8193; 3512], 32); (ipv6_prefix [100; 65435; 1], 48)].
(** The blocks that carry an IPv4 address, with the number of bits after it:
    IPv4-mapped, NAT64, IPv4-compatible and 6to4. *)
Definition IPV4_CARRIERS : list ((Z * Z) * Z) :=
  [((Z.shiftl 65535 32, 96), 0); ((ipv6_prefix [100; 65435], 96), 0); ((ipv6_prefix [], 96), 0);
   ((ipv6_prefix [8194], 16), 80)].
Definition reserved_ipv6 (v : Z) : bool :=
  existsb (in_block 128 v) RESERVED_IPV6 ||
  existsb (λ carrier, in_block 128 v carrier.1 && reserved_ipv4 (Z.shiftr v carrier.2 mod 2 ^ 32)) IPV4_CARRIERS.

Definition octets_ok (octets : list Z) : Prop := Forall (λ o, 0 ≤ o < 256) octets.
Definition groups_ok (groups : list Z) : Prop := length groups = 8%nat ∧ Forall (λ g, 0 ≤ g < 65536) groups.

(** The text of an address in the URL standard (and RFC 5952): groups in
    lowercase without leading zeros, the first longest run of at least two zero
    groups written as two colons. *)
Fixpoint zero_run (groups : list Z) : nat :=
  match groups with
  | g :: gs => if g =? 0 then S (zero_run gs) else O
  | [] => O
  end.
Fixpoint longest_zeros (i : nat) (groups : list Z) : nat * nat :=
  match groups with
  | [] => (i, O)
  | g :: gs =>
      let '(j, k) := longest_zeros (S i) gs in
      if (k <=? zero_run groups)%nat then (i, zero_run groups) else (j, k)
  end.
Definition hex_groups (groups : list Z) : string := join ":" (map to_hex groups).
Definition ipv6_text (groups : list Z) : string :=
  let '(i, k) := longest_zeros 0 groups in
  if (2 <=? k)%nat then hex_groups (take i groups) +:+ "::" +:+ hex_groups (drop (i + k) groups)
  else hex_groups groups.

Example ipv6_text_examples :
  ipv6_text [0; 0; 0; 0; 0; 0; 0; 1] = "::1" ∧ ipv6_text [0; 0; 0; 0; 0; 0; 0; 0] = "::" ∧
  ipv6_text [8193; 3512; 0; 0; 1; 0; 0; 1] = "2001:db8::1:0:0:1" ∧
  ipv6_text [65152; 0; 0; 0; 0; 0; 0; 0] = "fe80::" ∧ ipv6_text [1; 0; 2; 3; 4; 5; 6; 7] = "1:0:2:3:4:5:6:7" ∧
  ipv6_text [0; 0; 0; 0; 0; 65535; 43518; 43518] = "::ffff:a9fe:a9fe".
Proof. repeat split. Qed.
Example parse_examples :
  parseIpv6Groups "fe80::1%eth0" = Some [65152; 0; 0; 0; 0; 0; 0; 1] ∧
  parseIpv6Groups "::ffff:169.254.169.254" = Some [0; 0; 0; 0; 0; 65535; 43518; 43518] ∧
  parseIpv6Groups "1:2:3:4:5:6:7::" = Some [1; 2; 3; 4; 5; 6; 7; 0] ∧ parseIpv6Groups "1::2::3" = None ∧
  isBlockedIpv6 "0:0:0:0:0:ffff:169.254.169.254" = true ∧ isBlockedIpv6 "2606:4700::1" = false.
Proof. repeat split. Qed.
(** A bare spelling of 127.0.0.1 that is neither folded nor in a checked range. *)
Example partially_compressed_mapped : isBlockedIpv6 "0::ffff:127.0.0.1" = false ∧
  reserved_ipv6 (ipv6_value [0; 0; 0; 0; 0; 65535; 32512; 1]) = true.
Proof. split; vm_compute; reflexivity. Qed.
