(* ===== verification/Ipv4Ranges.v ===== *)
(** * The reserved IPv4 ranges are the declared blocks

    The chain of octet comparisons of [isPrivateOrReservedIpv4] against the list
    of blocks. *)
From Stdlib Require Import Btauto.
From stdpp Require Import pretty.
From S2P Require Import Prelude.
From S2P Require Import JsString.
From S2P Require Import JsTime.
From S2P Require Import JsJson.
From S2P Require Import IpAddresses.

#[local] Ltac Zify.zify_post_hook ::= Z.to_euclidean_division_equations.

(** ** Dotted text *)

(** What holds of the 256 octets is checked one by one. *)
Lemma octet_check (f : Z → bool) o : forallb f (seqZ 0 256) = true → 0 ≤ o < 256 → f o = true.
Proof. rewrite forallb_forall. intros H Ho. apply H, list_elem_of_In, elem_of_seqZ. lia. Qed.

Lemma octet_text o : 0 ≤ o < 256 →
  part_number (pretty o) = Some o ∧ string_existsb (Ascii.eqb "."%char) (pretty o) = false ∧
  is_digits3 (pretty o) = true ∧ digits_value 0 (pretty o) = o.
Proof.
  intros Ho.
  pose proof (octet_check (λ o, bool_decide (part_number (pretty o) = Some o) &&
    negb (string_existsb (Ascii.eqb "."%char) (pretty o)) && is_digits3 (pretty o) && (digits_value 0 (pretty o) =? o)) o) as H.
  specialize (H ltac:(vm_compute; reflexivity) Ho). cbv beta in H.
  rewrite !andb_true_iff, bool_decide_eq_true, negb_true_iff, Z.eqb_eq in H. tauto.
Qed.

Lemma octets_no_dot octets : octets_ok octets →
  Forall (λ x, string_existsb (Ascii.eqb "."%char) x = false) (map pretty octets).
Proof. induction 1; constructor; [by apply octet_text|done]. Qed.

Lemma split_dotted octets : octets ≠ [] → octets_ok octets → split_char "."%char (dotted octets) = map pretty octets.
Proof. intros Hne Hok. unfold dotted. apply split_join; [by destruct octets|by apply octets_no_dot]. Qed.

Lemma dotted_parts octets : octets ≠ [] → octets_ok octets →
  map part_number (split_char "."%char (dotted octets)) = map Some octets.
Proof.
  intros Hne Hok. rewrite split_dotted by done. clear Hne. induction Hok as [|o os Ho _ IH]; [done|].
  cbn [map]. f_equal; [by apply octet_text|done].
Qed.

(** ** Blocks *)

(** An address is in a block when the block's first bits are its own. *)
Lemma in_block_spec v base len : len ≤ 32 →
  in_block 32 v (base, len) = (v / 2 ^ (32 - len) =? base / 2 ^ (32 - len)).
Proof. intros Hl. unfold in_block. cbn [fst snd]. by rewrite !Z.shiftr_div_pow2 by lia. Qed.

Lemma ipv4_value_sum a b c d : ipv4_value a b c d = a * 16777216 + b * 65536 + c * 256 + d.
Proof. unfold ipv4_value. rewrite !Z.shiftl_mul_pow2 by lia. lia. Qed.

Lemma div_parts h l k v' : v' = h * k + l → 0 ≤ l < k → v' / k = h.
Proof. intros -> Hl. symmetry. apply Z.div_unique with l; lia. Qed.

Section Octets.
Variables a b c d : Z.
Hypothesis Ha : 0 ≤ a < 256.
Hypothesis Hb : 0 ≤ b < 256.
Hypothesis Hc : 0 ≤ c < 256.
Hypothesis Hd : 0 ≤ d < 256.
Notation v := (ipv4_value a b c d).

(** The first bits of an address, by the length of the prefix. *)
Lemma prefix24 : v / 2 ^ (32 - 24) = a * 65536 + b * 256 + c.
Proof. change (2 ^ (32 - 24)) with 256. rewrite ipv4_value_sum. apply div_parts with d; lia. Qed.
Lemma prefix16 : v / 2 ^ (32 - 16) = a * 256 + b.
Proof. change (2 ^ (32 - 16)) with 65536. rewrite ipv4_value_sum. apply div_parts with (c * 256 + d); lia. Qed.
Lemma prefix8 : v / 2 ^ (32 - 8) = a.
Proof. change (2 ^ (32 - 8)) with 16777216. rewrite ipv4_value_sum. apply div_parts with (b * 65536 + c * 256 + d); lia. Qed.
Lemma prefix_within8 n : 0 ≤ n ≤ 8 → v / 2 ^ (32 - (16 - n)) = a * 2 ^ (8 - n) + b / 2 ^ n.
Proof.
  intros Hn. rewrite <-Z.div_add_l by lia. rewrite <-Z.mul_assoc, <-Z.pow_add_r by lia.
  replace (8 - n + n) with 8 by lia. change (2 ^ 8) with 256. rewrite <-prefix16, Z.div_div by lia.
  f_equal. rewrite <-Z.pow_add_r by lia. f_equal. lia.
Qed.
Lemma prefix3 : v / 2 ^ (32 - 3) = a / 32.
Proof.
  transitivity (v / 2 ^ (32 - 8) / 32); [by rewrite Z.div_div by lia|by rewrite prefix8].
Qed.
End Octets.

Section Blocks.
Variables a b c d : Z.
Hypothesis Ha : 0 ≤ a < 256.
Hypothesis Hb : 0 ≤ b < 256.
Hypothesis Hc : 0 ≤ c < 256.
Hypothesis Hd : 0 ≤ d < 256.
Notation v := (ipv4_value a b c d).

Ltac block prefix := rewrite in_block_spec by lia; rewrite !prefix by lia;
  apply eq_true_iff_eq; rewrite ?andb_true_iff, ?orb_true_iff, ?Z.eqb_eq, ?Z.leb_le; lia.

Ltac within := rewrite in_block_spec by lia; rewrite (prefix_within8 a b c d) by lia;
  match goal with |- context [ipv4_value ?x ?y 0 0 / ?e] =>
    let r := eval vm_compute in (ipv4_value x y 0 0 / e) in change (ipv4_value x y 0 0 / e) with r end;
  repeat match goal with |- context [2 ^ ?e] => let k := eval vm_compute in (2 ^ e) in change (2 ^ e) with k end;
  apply eq_true_iff_eq; rewrite ?andb_true_iff, ?orb_true_iff, ?Z.eqb_eq, ?Z.leb_le; lia.

Lemma block8 x : 0 ≤ x < 256 → in_block 32 v (ipv4_value x 0 0 0, 8) = (a =? x).
Proof. intros Hx. block prefix8. Qed.
Lemma block16 x y : 0 ≤ x < 256 → 0 ≤ y < 256 → in_block 32 v (ipv4_value x y 0 0, 16) = (a =? x) && (b =? y).
Proof. intros Hx Hy. block prefix16. Qed.
Lemma block24 x y z : 0 ≤ x < 256 → 0 ≤ y < 256 → 0 ≤ z < 256 →
  in_block 32 v (ipv4_value x y z 0, 24) = (a =? x) && (b =? y) && (c =? z).
Proof. intros Hx Hy Hz. block prefix24. Qed.
Lemma block_198 : in_block 32 v (ipv4_value 198 18 0 0, 15) = (a =? 198) && ((b =? 18) || (b =? 19)).
Proof. change 15 with (16 - 1). within. Qed.
Lemma block_100 : in_block 32 v (ipv4_value 100 64 0 0, 10) = (a =? 100) && ((64 <=? b) && (b <=? 127)).
Proof. change 10 with (16 - 6). within. Qed.
Lemma block_172 : in_block 32 v (ipv4_value 172 16 0 0, 12) = (a =? 172) && ((16 <=? b) && (b <=? 31)).
Proof. change 12 with (16 - 4). within. Qed.
Lemma block_224 : in_block 32 v (ipv4_value 224 0 0 0, 3) = (224 <=? a).
Proof. block prefix3. Qed.
End Blocks.

(** The decision on the octets. *)
Definition reserved_octets (a b c : Z) : bool :=
  (a =? 10) || (a =? 127) || (a =? 0) || ((a =? 169) && (b =? 254)) || ((a =? 192) && (b =? 168)) ||
  ((a =? 192) && (b =? 0) && ((c =? 0) || (c =? 2))) || ((a =? 192) && (b =? 88) && (c =? 99)) ||
  ((a =? 198) && ((b =? 18) || (b =? 19) || ((b =? 51) && (c =? 100)))) ||
  ((a =? 203) && (b =? 0) && (c =? 113)) || ((a =? 100) && ((64 <=? b) && (b <=? 127))) ||
  ((a =? 172) && ((16 <=? b) && (b <=? 31))) || (224 <=? a).

Lemma reserved_octets_blocks a b c d : octets_ok [a; b; c; d] →
  reserved_ipv4 (ipv4_value a b c d) = reserved_octets a b c.
Proof.
  intros Hok. unfold octets_ok in Hok. rewrite !Forall_cons in Hok. destruct Hok as (Ha & Hb & Hc & Hd & _).
  unfold reserved_ipv4, RESERVED_IPV4. cbn [existsb].
  rewrite !block8, !block16, !block24, block_198, block_100, block_172, block_224 by lia.
  unfold reserved_octets. btauto.
Qed.

Lemma is_reserved_octets a b c d : octets_ok [a; b; c; d] →
  isPrivateOrReservedIpv4 (dotted [a; b; c; d]) = reserved_octets a b c.
Proof.
  intros Hok. unfold isPrivateOrReservedIpv4. rewrite dotted_parts by done. cbn [map lookup list_lookup default id is_num between at_least].
  unfold reserved_octets. cbn. btauto.
Qed.

Lemma reserved_ipv4_dotted a b c d : octets_ok [a; b; c; d] →
  isPrivateOrReservedIpv4 (dotted [a; b; c; d]) = reserved_ipv4 (ipv4_value a b c d).
Proof. intros Hok. by rewrite is_reserved_octets, reserved_octets_blocks. Qed.

(** The octet comparisons of the guard mark a dotted IPv4 address as private
    or reserved exactly when one of the declared special-purpose blocks, by its
    base and prefix length, contains the 32-bit address. *)
Theorem reserved_ipv4_exact a b c d :
  octets_ok [a; b; c; d] →
  isPrivateOrReservedIpv4 (dotted [a; b; c; d]) = true ↔
    ∃ block, block ∈ RESERVED_IPV4 ∧ in_block 32 (ipv4_value a b c d) block = true.
Proof.
  intros Hok. rewrite reserved_ipv4_dotted by done. unfold reserved_ipv4. rewrite existsb_exists.
  by setoid_rewrite list_elem_of_In.
Qed.

Lemma reserved_ipv4_exact_witness :
  (∃ block, block ∈ RESERVED_IPV4 ∧ in_block 32 (ipv4_value 172 20 3 7) block = true) ∧
  ¬ (∃ block, block ∈ RESERVED_IPV4 ∧ in_block 32 (ipv4_value 172 32 3 7) block = true).
Proof.
  split.
  - apply reserved_ipv4_exact; [repeat constructor; lia|vm_compute; reflexivity].
  - intros H. apply reserved_ipv4_exact in H; [vm_compute in H; discriminate H|repeat constructor; lia].
Defined.
