(* ===== verification/Ipv6Text.v ===== *)
(** * Reading the text of an IPv6 address

    [parseIpv6Groups] reads back the groups of every address written in the
    standard text of [ipv6_text]; and the tests of [isBlockedIpv6] on such a text
    are the declared blocks. *)
From Stdlib Require Import Btauto.
From stdpp Require Import pretty.
From S2P Require Import Prelude.
From S2P Require Import JsString.
From S2P Require Import JsTime.
From S2P Require Import JsJson.
From S2P Require Import IpAddresses.
From S2P Require Import Ipv4Ranges.

(** ** Groups in hexadecimal *)

Definition group_ok (g : Z) : Prop := 0 ≤ g < 65536.

Lemma hex_digit_ok d : 0 ≤ d < 16 → is_hex (hex_digit d) = true ∧ hex_val (hex_digit d) = d.
Proof.
  intros Hd. assert (H : forallb (λ d, is_hex (hex_digit d) && (hex_val (hex_digit d) =? d)) (seqZ 0 16) = true) by reflexivity.
  rewrite forallb_forall in H. specialize (H d ltac:(apply list_elem_of_In, elem_of_seqZ; lia)).
  by rewrite andb_true_iff, Z.eqb_eq in H.
Qed.

Lemma hex_value_app acc s c : hex_value acc (s +:+ String c "") = hex_value acc s * 16 + hex_val c.
Proof. revert acc. induction s as [|x s IH]; intros acc; [done|]. cbn. apply IH. Qed.

Lemma string_forallb_app f a b : string_forallb f (a +:+ b) = string_forallb f a && string_forallb f b.
Proof. unfold string_forallb. rewrite string_existsb_append. by rewrite negb_orb. Qed.

Lemma length_append_char a c : String.length (a +:+ String c "") = S (String.length a).
Proof. induction a; cbn; congruence. Qed.

(** The text of a group has one to four digits, which read back. *)
Lemma to_hex_fuel_ok fuel : ∀ n, 0 ≤ n < 16 ^ Z.of_nat fuel → (1 ≤ fuel)%nat →
  string_forallb is_hex (to_hex_fuel fuel n) = true ∧ hex_value 0 (to_hex_fuel fuel n) = n ∧
  (1 ≤ String.length (to_hex_fuel fuel n) ≤ fuel)%nat.
Proof.
  induction fuel as [|fuel IH]; intros n Hn Hf; [lia|]. cbn [to_hex_fuel]. destruct (Z.ltb_spec n 16).
  - destruct (hex_digit_ok n) as [H1 H2]; [lia|]. unfold string_forallb. cbn. rewrite H1, H2. repeat split; lia.
  - assert (Hfuel : (1 ≤ fuel)%nat) by (destruct fuel; [cbn in Hn; lia|lia]).
    rewrite Nat2Z.inj_succ, Z.pow_succ_r in Hn by lia.
    destruct (IH (n / 16)) as (H1 & H2 & H3); [split; [apply Z.div_pos; lia|apply Z.div_lt_upper_bound; lia]|done|].
    destruct (hex_digit_ok (n mod 16)) as [H4 H5]; [by apply Z.mod_pos_bound|].
    rewrite string_forallb_app, hex_value_app, length_append_char, H1, H2, H5. unfold string_forallb. cbn. rewrite H4.
    repeat split; [|lia|lia]. rewrite Z.mul_comm, <-Z.div_mod; lia.
Qed.

Lemma to_hex_ok g : group_ok g → is_hex4 (to_hex g) = true ∧ hex_value 0 (to_hex g) = g.
Proof.
  intros Hg. unfold to_hex, is_hex4. destruct (to_hex_fuel_ok 4 g) as (H1 & H2 & H3 & H4); [done|lia|].
  rewrite H1, H2. by rewrite (proj2 (Nat.leb_le _ _) H3), (proj2 (Nat.leb_le _ _) H4).
Qed.

Lemma hex_not_colon c : is_hex c = true → Ascii.eqb ":"%char c = false ∧ Ascii.eqb "."%char c = false ∧ Ascii.eqb "%"%char c = false.
Proof. intros H. repeat split; apply Ascii.eqb_neq; intros <-; discriminate H. Qed.

(** ** Splitting *)

(** A text of hexadecimal digits and single colons. *)
Definition plain (c : ascii) : bool := is_hex c || Ascii.eqb c ":"%char.

Lemma hex_no_colon s : string_forallb is_hex s = true → string_existsb (Ascii.eqb ":"%char) s = false.
Proof.
  unfold string_forallb. induction s as [|c s IH]; [done|]. cbn [string_existsb]. rewrite negb_true_iff, orb_false_iff, negb_false_iff.
  intros [Hc Hs]. rewrite (proj1 (hex_not_colon c Hc)). apply IH. by rewrite Hs.
Qed.

Lemma is_hex4_cons s : is_hex4 s = true → ∃ c s', s = String c s' ∧ is_hex c = true ∧ string_forallb is_hex s' = true.
Proof.
  unfold is_hex4, string_forallb. destruct s as [|c s']; [done|]. cbn [string_existsb].
  rewrite !andb_true_iff, negb_true_iff, orb_false_iff, negb_false_iff. intros [[[H1 H2] _] _].
  exists c, s'. by rewrite H2.
Qed.

(** Splitting at double colons keeps a word of digits together. *)
Lemma split_colons_hex w s : string_forallb is_hex w = true →
  split_colons (w +:+ s) = match split_colons s with x :: xs => (w +:+ x) :: xs | [] => [w] end.
Proof.
  induction w as [|c w IH].
  - intros _. cbn [String.append]. destruct (split_colons s) eqn:E; [|done].
    exfalso. clear -E. destruct s as [|c [|c' s]]; cbn in E; repeat case_match; discriminate.
  - intros Hw. unfold string_forallb in Hw. cbn [string_existsb] in Hw. apply negb_true_iff, orb_false_iff in Hw as [Hc Hw].
    apply negb_false_iff in Hc. specialize (IH ltac:(unfold string_forallb; by rewrite Hw)).
    destruct (hex_not_colon c Hc) as (Hcol & _). rewrite Ascii.eqb_sym in Hcol.
    cbn [String.append split_colons]. rewrite Hcol. cbn [andb].
    destruct (w +:+ s) as [|c' r] eqn:E.
    + destruct w; [|done]. cbn in E. subst s. done.
    + rewrite IH. by destruct (split_colons s).
Qed.

Lemma split_colons_cons s : ∃ x xs, split_colons s = x :: xs.
Proof.
  destruct s as [|c s']; [by exists "", []|]. cbn [split_colons].
  destruct (split_colons s') as [|w ws]; destruct s' as [|c' s'']; repeat case_match; eauto.
Qed.

Lemma split_colons_colon s : (∀ t, s ≠ String ":"%char t) →
  split_colons (String ":"%char s) = match split_colons s with x :: xs => String ":"%char x :: xs | [] => [":"] end.
Proof.
  intros Hs. cbn [split_colons]. destruct s as [|c s']; [done|].
  destruct (Ascii.eqb_spec c ":"%char) as [->|Hc]; [by destruct (Hs s')|].
  rewrite andb_false_r. done.
Qed.

Notation hex_words := (Forall (λ w, is_hex4 w = true)).

Lemma hex4_hex w : is_hex4 w = true → string_forallb is_hex w = true.
Proof. unfold is_hex4. rewrite !andb_true_iff. tauto. Qed.

Lemma join_cons sep w w' ws : join sep (w :: w' :: ws) = w +:+ sep +:+ join sep (w' :: ws).
Proof. done. Qed.

Lemma hex_word_join w ws s : is_hex4 w = true → ∃ c t, join ":" (w :: ws) +:+ s = String c t ∧ is_hex c = true.
Proof.
  intros Hw. destruct (is_hex4_cons w Hw) as (c & w' & -> & Hc & _). exists c. destruct ws; eexists; split; done.
Qed.

Lemma split_colons_join ws s : hex_words ws →
  split_colons (join ":" ws +:+ s) = match split_colons s with x :: xs => (join ":" ws +:+ x) :: xs | [] => [join ":" ws] end.
Proof.
  intros Hws. induction Hws as [|w ws Hw Hws IH]; [destruct (split_colons_cons s) as (x & xs & E); by rewrite E|].
  destruct ws as [|w' ws]; [by apply split_colons_hex, hex4_hex|].
  rewrite join_cons, !append_assoc. rewrite split_colons_hex by by apply hex4_hex.
  change (":" +:+ ?r) with (String ":"%char r). inversion Hws as [|? ? Hw' _]; subst.
  destruct (hex_word_join w' ws s Hw') as (c & t & E & Hc). rewrite split_colons_colon.
  - rewrite IH. destruct (split_colons_cons s) as (x & xs & ->). by rewrite !append_assoc.
  - intros t' Et. rewrite E in Et. injection Et as -> _. discriminate Hc.
Qed.

Lemma join_plain x ws : hex_words ws → is_hex x = false → x ≠ ":"%char → string_existsb (Ascii.eqb x) (join ":" ws) = false.
Proof.
  intros Hws Hx Hcol.
  assert (Hhex : ∀ w, string_forallb is_hex w = true → string_existsb (Ascii.eqb x) w = false).
  { intros w. unfold string_forallb. rewrite negb_true_iff. induction w as [|c w IH]; [done|]. cbn [string_existsb].
    rewrite orb_false_iff, negb_false_iff. intros [Hc Hw]. rewrite (IH Hw), orb_false_r.
    apply Ascii.eqb_neq. intros <-. congruence. }
  induction Hws as [|w ws Hw Hws IH]; [done|]. destruct ws as [|w' ws]; [by apply Hhex, hex4_hex|].
  rewrite join_cons, !string_existsb_append, IH, Hhex by by apply hex4_hex. cbn [string_existsb orb].
  by rewrite (proj2 (Ascii.eqb_neq x ":"%char)).
Qed.

Lemma parseSide_join ws : hex_words ws → parseSide (join ":" ws) = Some (map (hex_value 0) ws).
Proof.
  intros Hws. unfold parseSide. destruct ws as [|w ws]; [done|]. pose proof Hws as Hcopy. apply Forall_cons in Hcopy as [Hw _].
  destruct (hex_word_join w ws "" Hw) as (c & t & E & _). rewrite append_nil_r in E.
  rewrite bool_decide_eq_false_2 by (rewrite E; done).
  change ":" with (String ":"%char ""). rewrite split_join; [|done|].
  - assert (forallb is_hex4 (w :: ws) = true) as ->; [|done]. apply forallb_forall. intros x Hx.
    rewrite Forall_forall in Hws. apply Hws. by apply list_elem_of_In.
  - eapply Forall_impl; [exact Hws|]. intros x Hx. by apply hex_no_colon, hex4_hex.
Qed.

(** ** Texts without a zone and without a dotted tail *)

Definition no_char (x : ascii) (s : string) : Prop := string_existsb (Ascii.eqb x) s = false.

Lemma index_of_none x s : no_char x s → index_of (String x "") s = None.
Proof.
  unfold no_char. induction s as [|c s IH]; [done|]. cbn [string_existsb]. intros [Hc Hs]%orb_false_iff. cbn [index_of].
  assert (starts_with (String x "") (String c s) = false) as ->.
  { apply not_true_iff_false. intros [r Hr]%starts_with_spec. injection Hr as -> _. by rewrite Ascii.eqb_refl in Hc. }
  by rewrite IH.
Qed.

Lemma last_colon_app s p t : last_colon s = Some (p, t) → s = p +:+ t.
Proof.
  revert p. induction s as [|c s IH]; intros p; [done|]. cbn [last_colon]. destruct (last_colon s) as [[p' t']|] eqn:E.
  - intros [= <- ->]. cbn. f_equal. by apply IH.
  - case_match; [|done]. by intros [= <- <-].
Qed.

Lemma without_dotted_none s : no_char "."%char s → without_dotted_tail s = Some s.
Proof.
  intros Hs. unfold without_dotted_tail, dotted_tail. destruct (last_colon s) as [[p t]|] eqn:E; [|done].
  apply last_colon_app in E as ->. unfold no_char in Hs. rewrite string_existsb_append in Hs. apply orb_false_iff in Hs as [_ Ht].
  rewrite (split_char_single _ _ Ht). cbn [length Nat.eqb]. by rewrite andb_false_r.
Qed.

Lemma parse_plain s : no_char "%"%char s → no_char "."%char s → without_dotted_tail (without_zone s) = Some s.
Proof. intros Hp Hd. unfold without_zone. rewrite index_of_none by done. by apply without_dotted_none. Qed.

(** ** The round trip *)

Lemma hex_groups_words gs : Forall group_ok gs → hex_words (map to_hex gs) ∧ map (hex_value 0) (map to_hex gs) = gs.
Proof.
  induction 1 as [|g gs Hg _ [IH1 IH2]]; [done|]. destruct (to_hex_ok g Hg) as [H1 H2].
  cbn [map]. rewrite H2, IH2. split; [by constructor|done].
Qed.

Lemma hex_groups_plain x gs : Forall group_ok gs → is_hex x = false → x ≠ ":"%char → no_char x (hex_groups gs).
Proof. intros Hgs. by apply join_plain, hex_groups_words. Qed.

Lemma parse_words ws : hex_words ws →
  parseIpv6Groups (join ":" ws) = if (length ws =? 8)%nat then Some (map (hex_value 0) ws) else None.
Proof.
  intros Hws. unfold parseIpv6Groups. rewrite parse_plain by by apply join_plain. cbn [mbind option_bind].
  pose proof (split_colons_join ws "" Hws) as Hsplit. rewrite append_nil_r in Hsplit. rewrite Hsplit.
  cbn [split_colons]. rewrite append_nil_r, parseSide_join by done. cbn [mbind option_bind]. by rewrite length_map.
Qed.

Lemma parse_words_compressed hs ts : hex_words hs → hex_words ts → (length hs + length ts <= 7)%nat →
  parseIpv6Groups (join ":" hs +:+ "::" +:+ join ":" ts) =
    Some (map (hex_value 0) hs ++ repeat 0 (8 - length hs - length ts) ++ map (hex_value 0) ts).
Proof.
  intros Hhs Hts Hlen. unfold parseIpv6Groups. rewrite parse_plain.
  2,3: unfold no_char; rewrite !string_existsb_append; by rewrite !join_plain.
  cbn [mbind option_bind]. rewrite split_colons_join by done.
  change (split_colons ("::" +:+ join ":" ts)) with (EmptyString :: split_colons (join ":" ts)).
  pose proof (split_colons_join ts "" Hts) as Htail. rewrite append_nil_r in Htail. rewrite Htail.
  cbn [split_colons]. rewrite !append_nil_r, !parseSide_join by done. cbn [mbind option_bind]. rewrite !length_map.
  destruct (Z.ltb_spec (8 - Z.of_nat (length hs) - Z.of_nat (length ts)) 1); [lia|]. do 4 f_equal. lia.
Qed.

Lemma parse_full gs : groups_ok gs → parseIpv6Groups (hex_groups gs) = Some gs.
Proof.
  intros [Hlen [H1 H2]%hex_groups_words]. unfold hex_groups. by rewrite parse_words, length_map, Hlen, H2.
Qed.

Lemma parse_compressed hs ts : Forall group_ok hs → Forall group_ok ts → (length hs + length ts <= 7)%nat →
  parseIpv6Groups (hex_groups hs +:+ "::" +:+ hex_groups ts) = Some (hs ++ repeat 0 (8 - length hs - length ts) ++ ts).
Proof.
  intros [Hh1 Hh2]%hex_groups_words [Ht1 Ht2]%hex_groups_words Hlen. unfold hex_groups.
  rewrite parse_words_compressed by (rewrite ?length_map; done). by rewrite !length_map, Hh2, Ht2.
Qed.

(** The run that the text leaves out is a run of zeros. *)
Lemma zero_run_spec gs : gs = repeat 0 (zero_run gs) ++ drop (zero_run gs) gs.
Proof.
  induction gs as [|g gs IH]; [done|]. cbn [zero_run]. destruct (Z.eqb_spec g 0) as [->|]; [|done].
  cbn. f_equal. apply IH.
Qed.

Lemma zero_run_length gs : (zero_run gs <= length gs)%nat.
Proof. induction gs as [|g gs IH]; [done|]. cbn. case_match; lia. Qed.

Lemma longest_zeros_spec gs : ∀ i j k, longest_zeros i gs = (j, k) →
  (i <= j)%nat ∧ (j - i + k <= length gs)%nat ∧ gs = take (j - i) gs ++ repeat 0 k ++ drop (j - i + k) gs.
Proof.
  induction gs as [|g gs IH]; intros i j k; cbn [longest_zeros].
  { intros [= <- <-]. rewrite Nat.sub_diag. repeat split; cbn; lia. }
  destruct (longest_zeros (S i) gs) as [j' k'] eqn:E. destruct (IH _ _ _ E) as (H1 & H2 & H3). case_match.
  - intros [= <- <-]. rewrite Nat.sub_diag. split; [lia|].
    split; [apply (zero_run_length (g :: gs))|]. apply (zero_run_spec (g :: gs)).
  - intros [= <- <-]. split; [lia|]. replace (j' - i)%nat with (S (j' - S i)) by lia. cbn. split; [lia|]. by f_equal.
Qed.

Lemma parse_text gs : groups_ok gs → parseIpv6Groups (ipv6_text gs) = Some gs.
Proof.
  intros Hok. unfold ipv6_text. destruct (longest_zeros 0 gs) as [j k] eqn:E. destruct (Nat.leb_spec 2 k); [|by apply parse_full].
  apply longest_zeros_spec in E as (_ & Hlen & Hgs). rewrite Nat.sub_0_r in *. destruct Hok as [Hl Hok].
  rewrite parse_compressed.
  - rewrite length_take, length_drop. replace (8 - _ - _)%nat with k by lia. by rewrite <-Hgs.
  - by apply Forall_take.
  - by apply Forall_drop.
  - rewrite length_take, length_drop. lia.
Qed.

(** ** The reserved IPv6 ranges are the declared blocks *)

(** ** Values and groups *)

(** A prefix of whole groups: the value of those groups. *)
Lemma ipv6_value_app xs ys : ipv6_value (xs ++ ys) = ipv6_value xs * 65536 ^ Z.of_nat (length ys) + ipv6_value ys.
Proof.
  unfold ipv6_value. rewrite foldl_app. generalize (foldl (λ w g, w * 65536 + g) 0 xs). intros w.
  assert (H : ∀ ys w, foldl (λ v g, v * 65536 + g) w ys = w * 65536 ^ Z.of_nat (length ys) + foldl (λ v g, v * 65536 + g) 0 ys).
  { clear. induction ys as [|y ys IH]; intros w; [cbn; lia|]. cbn [foldl length].
    rewrite IH, (IH (0 * 65536 + y)), Nat2Z.inj_succ, Z.pow_succ_r by lia. ring. }
  apply H.
Qed.

Lemma ipv6_value_bound ys : Forall group_ok ys → 0 ≤ ipv6_value ys < 65536 ^ Z.of_nat (length ys).
Proof.
  induction ys as [|y ys IH] using rev_ind; [intros _; cbn; lia|]. rewrite Forall_app. intros [Hys [Hy _]%Forall_cons].
  rewrite ipv6_value_app, length_app, Nat2Z.inj_add, Z.pow_add_r by lia. cbn [length]. change (65536 ^ Z.of_nat 1) with 65536.
  specialize (IH Hys). unfold ipv6_value at 2 4. cbn [foldl]. unfold group_ok in Hy. nia.
Qed.

Lemma value_prefix xs ys : Forall group_ok ys →
  Z.shiftr (ipv6_value (xs ++ ys)) (16 * Z.of_nat (length ys)) = ipv6_value xs.
Proof.
  intros Hys. rewrite Z.shiftr_div_pow2 by lia. rewrite Z.pow_mul_r by lia. change (2 ^ 16) with 65536.
  rewrite ipv6_value_app. apply div_parts with (ipv6_value ys); [done|by apply ipv6_value_bound].
Qed.
Lemma ipv6_value_inj xs : ∀ ys, length xs = length ys → Forall group_ok xs → Forall group_ok ys →
  ipv6_value xs = ipv6_value ys → xs = ys.
Proof.
  induction xs as [|x xs IH]; intros [|y ys]; try done. intros [= Hlen] [Hx Hxs]%Forall_cons [Hy Hys]%Forall_cons.
  change (x :: xs) with ([x] ++ xs). change (y :: ys) with ([y] ++ ys). rewrite !ipv6_value_app, Hlen.
  pose proof (ipv6_value_bound xs Hxs) as H1. pose proof (ipv6_value_bound ys Hys) as H2. rewrite Hlen in H1.
  change (ipv6_value [x]) with (0 * 65536 + x). change (ipv6_value [y]) with (0 * 65536 + y). intros H.
  assert (x = y) as ->.
  { rewrite <-(div_parts x (ipv6_value xs) (65536 ^ Z.of_nat (length ys)) (x * 65536 ^ Z.of_nat (length ys) + ipv6_value xs)) by done.
    apply div_parts with (ipv6_value ys); [lia|done]. }
  cbn. f_equal. apply IH; [done..|lia].
Qed.

Definition group_eqb (xs ys : list Z) : bool := bool_decide (xs = ys).

(** A block of whole groups, and one that ends inside the first group. *)
Lemma in_block_groups xs ps ys : Forall group_ok xs → Forall group_ok ps → Forall group_ok ys → length xs = length ps →
  (length xs + length ys = 8)%nat →
  in_block 128 (ipv6_value (xs ++ ys)) (ipv6_value (ps ++ repeat 0 (length ys)), 16 * Z.of_nat (length xs)) =
    bool_decide (xs = ps).
Proof.
  intros Hxs Hps Hys Hlen H8. unfold in_block. cbn [fst snd].
  replace (128 - 16 * Z.of_nat (length xs)) with (16 * Z.of_nat (length ys)) by lia. rewrite value_prefix by done.
  assert (Hz : Forall group_ok (repeat 0 (length ys))).
  { apply Forall_forall. intros x Hx. apply list_elem_of_In, repeat_spec in Hx as ->. unfold group_ok. lia. }
  pose proof (value_prefix ps _ Hz) as H. rewrite repeat_length in H. rewrite H.
  apply eq_true_iff_eq. rewrite Z.eqb_eq, bool_decide_eq_true. split; [|congruence]. by apply ipv6_value_inj.
Qed.

Lemma in_block_first g ys base len n : Forall group_ok ys → length ys = 7%nat → n = 16 - len → 0 ≤ n → len ≤ 16 →
  in_block 128 (ipv6_value (g :: ys)) (base, len) = (g / 2 ^ n =? Z.shiftr base (112 + n)).
Proof.
  intros Hys Hl -> Hn Hlen. unfold in_block. cbn [fst snd]. replace (128 - len) with (112 + (16 - len)) by lia.
  rewrite <-Z.shiftr_shiftr by lia. pose proof (value_prefix [g] ys Hys) as H. rewrite Hl in H.
  change (16 * Z.of_nat 7) with 112 in H. cbn [app] in H. rewrite H. change (ipv6_value [g]) with g.
  by rewrite Z.shiftr_div_pow2 by lia.
Qed.

Section Groups.
Variables g0 g1 g2 g3 g4 g5 g6 g7 : Z.
Hypothesis Hok : groups_ok [g0; g1; g2; g3; g4; g5; g6; g7].
Notation v := (ipv6_value [g0; g1; g2; g3; g4; g5; g6; g7]).

Lemma group_bounds : (0 ≤ g0 < 65536) ∧ (0 ≤ g1 < 65536) ∧ (0 ≤ g2 < 65536) ∧ (0 ≤ g3 < 65536) ∧
  (0 ≤ g4 < 65536) ∧ (0 ≤ g5 < 65536) ∧ (0 ≤ g6 < 65536) ∧ (0 ≤ g7 < 65536).
Proof. destruct Hok as [_ H]. rewrite !Forall_cons in H. tauto. Qed.

Lemma ipv6_value_sum : v = ipv6_value [g0; g1; g2; g3; g4; g5] * 2 ^ 32 + (g6 * 65536 + g7).
Proof. unfold ipv6_value. cbn [foldl]. change (2 ^ 32) with (65536 * 65536). ring. Qed.

End Groups.
Section Reserved.
Variables g0 g1 g2 g3 g4 g5 g6 g7 : Z.
Hypothesis Hok : groups_ok [g0; g1; g2; g3; g4; g5; g6; g7].
Notation gs := [g0; g1; g2; g3; g4; g5; g6; g7].
Notation v := (ipv6_value gs).

(** The declared blocks, in terms of the groups. *)
Definition reserved_groups : bool :=
  bool_decide (gs = [0; 0; 0; 0; 0; 0; 0; 0]) || bool_decide (gs = [0; 0; 0; 0; 0; 0; 0; 1]) ||
  (g0 / 2 ^ 9 =? 126) || (g0 / 2 ^ 6 =? 1018) || (g0 / 2 ^ 6 =? 1019) || (g0 / 2 ^ 8 =? 255) ||
  bool_decide ([g0; g1] = [8193; 3512]) || bool_decide ([g0; g1; g2] = [100; 65435; 1]) ||
  (bool_decide ([g0; g1; g2; g3; g4; g5] = [0; 0; 0; 0; 0; 65535]) && reserved_ipv4 (g6 * 65536 + g7)) ||
  (bool_decide ([g0; g1; g2; g3; g4; g5] = [100; 65435; 0; 0; 0; 0]) && reserved_ipv4 (g6 * 65536 + g7)) ||
  (bool_decide ([g0; g1; g2; g3; g4; g5] = [0; 0; 0; 0; 0; 0]) && reserved_ipv4 (g6 * 65536 + g7)) ||
  (bool_decide ([g0] = [8194]) && reserved_ipv4 (g1 * 65536 + g2)).

Lemma groups_forall : Forall group_ok gs.
Proof. apply Hok. Qed.

Ltac oks := rewrite ?Forall_cons; pose proof groups_forall as HF; rewrite ?Forall_cons in HF; unfold group_ok in *;
  repeat split; solve [lia | tauto | apply Forall_nil_2].

Lemma block_groups xs ys ps base len : gs = xs ++ ys → length xs = length ps → Forall group_ok ps →
  base = ipv6_value (ps ++ repeat 0 (length ys)) → len = 16 * Z.of_nat (length xs) →
  in_block 128 v (base, len) = bool_decide (xs = ps).
Proof.
  intros Hgs Hlen Hps -> ->. pose proof groups_forall as HF. rewrite Hgs in HF |- *. apply Forall_app in HF as [HF1 HF2].
  apply in_block_groups; [done..|]. rewrite <-length_app, <-Hgs. done.
Qed.

Lemma block_first base len n k : n = 16 - len → 0 ≤ n → len ≤ 16 → Z.shiftr base (112 + n) = k →
  in_block 128 v (base, len) = (g0 / 2 ^ n =? k).
Proof.
  intros Hn H0 Hl <-. pose proof groups_forall as HF. apply Forall_cons in HF as [_ HF].
  by apply (in_block_first g0 _ base len n HF).
Qed.

Lemma embedded_low : Z.shiftr v 0 mod 2 ^ 32 = g6 * 65536 + g7.
Proof.
  rewrite Z.shiftr_0_r, ipv6_value_sum, Z.add_comm, Z.mod_add by lia. apply Z.mod_small.
  pose proof (group_bounds _ _ _ _ _ _ _ _ Hok). lia.
Qed.

Lemma embedded_high : Z.shiftr v 80 mod 2 ^ 32 = g1 * 65536 + g2.
Proof.
  pose proof groups_forall as HF. rewrite !Forall_cons in HF.
  assert (Hys : Forall group_ok [g3; g4; g5; g6; g7]) by (rewrite !Forall_cons; tauto).
  pose proof (value_prefix [g0; g1; g2] _ Hys) as H. cbn [app length] in H. change (16 * Z.of_nat 5) with 80 in H. rewrite H.
  replace (ipv6_value [g0; g1; g2]) with ((g1 * 65536 + g2) + g0 * 2 ^ 32)
    by (unfold ipv6_value; cbn [foldl]; change (2 ^ 32) with (65536 * 65536); ring).
  rewrite Z.mod_add by lia. apply Z.mod_small. unfold group_ok in HF. lia.
Qed.

Lemma reserved_ipv6_groups : reserved_ipv6 v = reserved_groups.
Proof.
  unfold reserved_ipv6, RESERVED_IPV6, IPV4_CARRIERS. cbn [existsb fst snd]. rewrite !embedded_low, !embedded_high.
  rewrite (block_groups gs [] [0; 0; 0; 0; 0; 0; 0; 0] (ipv6_prefix []) 128), (block_groups gs [] [0; 0; 0; 0; 0; 0; 0; 1] 1 128),
    (block_groups [g0; g1] [g2; g3; g4; g5; g6; g7] [8193; 3512] (ipv6_prefix [8193; 3512]) 32),
    (block_groups [g0; g1; g2] [g3; g4; g5; g6; g7] [100; 65435; 1] (ipv6_prefix [100; 65435; 1]) 48),
    (block_groups [g0; g1; g2; g3; g4; g5] [g6; g7] [0; 0; 0; 0; 0; 65535] (Z.shiftl 65535 32) 96),
    (block_groups [g0; g1; g2; g3; g4; g5] [g6; g7] [100; 65435; 0; 0; 0; 0] (ipv6_prefix [100; 65435]) 96),
    (block_groups [g0; g1; g2; g3; g4; g5] [g6; g7] [0; 0; 0; 0; 0; 0] (ipv6_prefix []) 96),
    (block_groups [g0] [g1; g2; g3; g4; g5; g6; g7] [8194] (ipv6_prefix [8194]) 16),
    (block_first (ipv6_prefix [64512]) 7 9 126), (block_first (ipv6_prefix [65152]) 10 6 1018),
    (block_first (ipv6_prefix [65216]) 10 6 1019), (block_first (ipv6_prefix [65280]) 8 8 255).
  1: unfold reserved_groups; btauto.
  all: first [reflexivity | lia | oks].
Qed.
End Reserved.
