(* ===== verification/Ipv6Guard.v ===== *)
(** * The decision on an IPv6 address

    [isBlockedIpv6] on the standard text of an address: exactly the declared
    blocks, and a few unassigned first groups that look like them. *)
From Stdlib Require Import Btauto.
From stdpp Require Import pretty.
From S2P Require Import Prelude.
From S2P Require Import JsString.
From S2P Require Import JsTime.
From S2P Require Import JsJson.
From S2P Require Import IpAddresses.
From S2P Require Import Ipv4Ranges.
From S2P Require Import Ipv6Text.

(** ** The characters of an address *)

Lemma lower_plain c : plain c = true → lower_char c = c.
Proof.
  destruct c as [[] [] [] [] [] [] [] []]; vm_compute; first [discriminate 1 | reflexivity].
Qed.

Lemma to_lower_plain s : string_forallb plain s = true → to_lower s = s.
Proof.
  unfold string_forallb, to_lower. rewrite negb_true_iff. induction s as [|c s IH]; [done|]. cbn [string_existsb string_map].
  intros [Hc Hs]%orb_false_iff. apply negb_false_iff in Hc. by rewrite lower_plain, IH.
Qed.

Lemma forallb_weaken (f g : ascii → bool) s : (∀ c, f c = true → g c = true) → string_forallb f s = true → string_forallb g s = true.
Proof.
  intros Hfg. unfold string_forallb. rewrite !negb_true_iff. induction s as [|c s IH]; [done|]. cbn [string_existsb].
  intros [Hc Hs]%orb_false_iff. apply negb_false_iff in Hc. rewrite (Hfg c Hc). by apply IH.
Qed.

Lemma hex_groups_chars gs : Forall group_ok gs → string_forallb plain (hex_groups gs) = true.
Proof.
  intros [Hws _]%hex_groups_words. unfold hex_groups.
  assert (Hw : ∀ w, is_hex4 w = true → string_forallb plain w = true).
  { intros w Hw. eapply forallb_weaken; [|by apply hex4_hex]. intros c Hc. unfold plain. by rewrite Hc. }
  induction Hws as [|w ws Hw1 Hws IH]; [done|]. destruct ws as [|w' ws]; [by apply Hw|].
  rewrite join_cons, !string_forallb_app, IH, Hw by done. done.
Qed.

Lemma ipv6_text_cases gs : groups_ok gs →
  ipv6_text gs = hex_groups gs ∨
  ∃ j k, (2 <= k)%nat ∧ (j + k <= 8)%nat ∧ gs = take j gs ++ repeat 0 k ++ drop (j + k) gs ∧
    ipv6_text gs = hex_groups (take j gs) +:+ "::" +:+ hex_groups (drop (j + k) gs).
Proof.
  intros [Hlen _]. unfold ipv6_text. destruct (longest_zeros 0 gs) as [j k] eqn:E. destruct (Nat.leb_spec 2 k); [right|by left].
  apply longest_zeros_spec in E as (_ & Hl & Hgs). rewrite Nat.sub_0_r in *. exists j, k. repeat split; [done|lia|done].
Qed.

Lemma ipv6_text_plain gs : groups_ok gs → string_forallb plain (ipv6_text gs) = true.
Proof.
  intros Hok. pose proof Hok as [_ Hgs]. change (Forall group_ok gs) in Hgs.
  destruct (ipv6_text_cases gs Hok) as [->|(j & k & _ & _ & _ & ->)]; [by apply hex_groups_chars|].
  rewrite !string_forallb_app, !hex_groups_chars; [done|by apply Forall_drop|by apply Forall_take].
Qed.

Lemma plain_no_char x s : plain x = false → string_forallb plain s = true → no_char x s.
Proof.
  intros Hx. unfold string_forallb, no_char. rewrite negb_true_iff. induction s as [|c s IH]; [done|]. cbn [string_existsb].
  intros [Hc Hs]%orb_false_iff. rewrite (IH Hs), orb_false_r. apply Ascii.eqb_neq. intros <-. by rewrite Hx in Hc.
Qed.

Lemma ipv6_text_inj gs gs' : groups_ok gs → groups_ok gs' → ipv6_text gs = ipv6_text gs' → gs = gs'.
Proof. intros H H' E. apply parse_text in H, H'. congruence. Qed.

(** ** The beginning of the text *)

Lemma ipv6_text_head g0 g1 rest : groups_ok (g0 :: g1 :: rest) →
  (∃ r, ipv6_text (g0 :: g1 :: rest) = "::" +:+ r ∧ g0 = 0 ∧ g1 = 0) ∨
  (∃ r, ipv6_text (g0 :: g1 :: rest) = to_hex g0 +:+ ":" +:+ ":" +:+ r ∧ g1 = 0) ∨
  (∃ r, ipv6_text (g0 :: g1 :: rest) = to_hex g0 +:+ ":" +:+ to_hex g1 +:+ ":" +:+ r).
Proof.
  intros Hok. pose proof Hok as [Hlen _]. destruct rest as [|g2 rest]; [done|].
  destruct (ipv6_text_cases _ Hok) as [->|(j & k & Hk & _ & Hgs & ->)].
  { right; right. by eexists. }
  destruct j as [|[|j]].
  - left. exists (hex_groups (drop k (g0 :: g1 :: g2 :: rest))). split; [done|].
    destruct k as [|[|k]]; [lia..|]. cbn in Hgs. by injection Hgs as -> -> _.
  - right; left. exists (hex_groups (drop (1 + k) (g0 :: g1 :: g2 :: rest))). split; [done|].
    destruct k as [|k]; [lia|]. cbn in Hgs. by injection Hgs as -> _.
  - right; right. cbn [take]. unfold hex_groups at 1. cbn [map]. rewrite join_cons.
    destruct (take j (g2 :: rest)) as [|x xs]; cbn [map].
    + eexists. cbn [join]. by rewrite !append_assoc.
    + rewrite join_cons, !append_assoc. by eexists.
Qed.

Lemma starts_with_word p w r : no_char ":"%char p → starts_with p (w +:+ ":" +:+ r) = starts_with p w.
Proof.
  unfold no_char. revert w. induction p as [|c p IH]; intros w Hp; [by destruct w|].
  cbn [string_existsb] in Hp. apply orb_false_iff in Hp as [Hc Hp]. destruct w as [|x w].
  - change ("" +:+ ":" +:+ r) with (String ":"%char r). unfold starts_with. cbn [String.prefix].
    destruct (ascii_dec c ":"%char) as [->|]; [by rewrite Ascii.eqb_refl in Hc|done].
  - change (String x w +:+ ":" +:+ r) with (String x (w +:+ ":" +:+ r)). unfold starts_with in *. cbn [String.prefix].
    destruct (ascii_dec c x); [by apply IH|done].
Qed.

(** What holds of the 4096 values of three digits is checked one by one. *)
Lemma digits_check (f : Z → bool) n :
  forallb (λ h, forallb (λ l, f (h * 256 + l)) (seqZ 0 256)) (seqZ 0 16) = true → 0 ≤ n < 4096 → f n = true.
Proof.
  intros H Hn. rewrite forallb_forall in H.
  specialize (H (n / 256) ltac:(apply list_elem_of_In, elem_of_seqZ; split; [apply Z.div_pos; lia|apply Z.div_lt_upper_bound; lia])).
  pose proof (octet_check _ (n mod 256) H ltac:(apply Z.mod_pos_bound; lia)) as H2. cbv beta in H2.
  rewrite Z.mul_comm, <-Z.div_mod in H2; [done|lia].
Qed.

Lemma existsb_ext_in {A} (f g : A → bool) xs : (∀ x, In x xs → f x = g x) → existsb f xs = existsb g xs.
Proof. induction xs as [|x xs IH]; intros H; [done|]. cbn. rewrite H by by left. f_equal. apply IH. intros y Hy. apply H. by right. Qed.

Lemma starts_with_short p w r : (String.length p <= String.length w)%nat → starts_with p (w +:+ r) = starts_with p w.
Proof.
  unfold starts_with. revert w. induction p as [|c p IH]; intros [|x w] Hl; cbn in Hl; try done; try lia; [by destruct r|].
  change (String x w +:+ r) with (String x (w +:+ r)). cbn [String.prefix]. destruct (ascii_dec c x); [apply IH; lia|done].
Qed.

(** First groups of two or three digits whose text starts like a local prefix. *)
Definition short_lookalike (g : Z) : bool :=
  ((252 <=? g) && (g <=? 253)) || ((4032 <=? g) && (g <=? 4063)) || ((4072 <=? g) && (g <=? 4079)).

Definition local_prefixes : list string := ["fc"; "fd"; "fe8"; "fe9"; "fea"; "feb"; "fec"; "fed"; "fee"; "fef"].

Lemma local_prefixes_group g : group_ok g →
  existsb (λ p, starts_with p (to_hex g)) local_prefixes =
    (g / 2 ^ 9 =? 126) || (g / 2 ^ 6 =? 1018) || (g / 2 ^ 6 =? 1019) || short_lookalike g.
Proof.
  unfold group_ok. intros Hg. destruct (Z.lt_ge_cases g 4096) as [Hs|Hb].
  - apply Bool.eqb_prop.
    apply (digits_check (λ g, Bool.eqb ((λ t, existsb (λ p, starts_with p t) local_prefixes) (to_hex g))
      ((g / 2 ^ 9 =? 126) || (g / 2 ^ 6 =? 1018) || (g / 2 ^ 6 =? 1019) || short_lookalike g))); [|lia].
    vm_cast_no_check (eq_refl true).
  - assert (Hn : 256 ≤ g / 16 < 4096) by (split; [apply Z.div_le_lower_bound; lia|apply Z.div_lt_upper_bound; lia]).
    pose proof (digits_check (λ n, (n <? 256) || ((λ t, (String.length t =? 3)%nat &&
      Bool.eqb (existsb (λ p, starts_with p t) local_prefixes) ((n / 32 =? 126) || (n / 4 =? 1018) || (n / 4 =? 1019)))
        (to_hex_fuel 3 n))) (g / 16)) as H.
    specialize (H ltac:(vm_cast_no_check (eq_refl true)) ltac:(lia)). cbv beta in H.
    apply orb_true_iff in H as [H|H]; [apply Z.ltb_lt in H; lia|].
    apply andb_true_iff in H as [Hl H]. apply Nat.eqb_eq in Hl. apply Bool.eqb_prop in H.
    rewrite !Z.div_div in H by lia. change (16 * 32) with (2 ^ 9) in H. change (16 * 4) with (2 ^ 6) in H.
    assert (short_lookalike g = false) as -> by (unfold short_lookalike; bools; lia). rewrite orb_false_r, <-H.
    change (to_hex g) with (if g <? 16 then String (hex_digit g) "" else to_hex_fuel 3 (g / 16) +:+ String (hex_digit (g mod 16)) "").
    destruct (Z.ltb_spec g 16); [lia|]. apply existsb_ext_in. intros p Hp.
    apply starts_with_short. rewrite Hl. cbn in Hp. repeat destruct Hp as [<-|Hp]; cbn; try lia; done.
Qed.

Lemma to_hex_inj g g' : group_ok g → group_ok g' → to_hex g = to_hex g' → g = g'.
Proof. intros H H' E. apply to_hex_ok in H as [_ <-], H' as [_ <-]. by rewrite E. Qed.

Lemma to_hex_no_colon g : group_ok g → no_char ":"%char (to_hex g).
Proof. intros Hg. by apply hex_no_colon, hex4_hex, to_hex_ok. Qed.

Lemma text_local_prefixes g0 g1 rest : groups_ok (g0 :: g1 :: rest) →
  existsb (λ p, starts_with p (ipv6_text (g0 :: g1 :: rest))) local_prefixes =
    (g0 / 2 ^ 9 =? 126) || (g0 / 2 ^ 6 =? 1018) || (g0 / 2 ^ 6 =? 1019) || short_lookalike g0.
Proof.
  intros Hok. pose proof Hok as [_ HF]. apply Forall_cons in HF as [Hg0 _].
  destruct (ipv6_text_head _ _ _ Hok) as [(r & -> & -> & _)|Hcolon]; [done|].
  assert (∃ r, ipv6_text (g0 :: g1 :: rest) = to_hex g0 +:+ ":" +:+ r) as (r & ->)
    by (destruct Hcolon as [(r & -> & _)|(r & ->)]; eauto).
  rewrite <-local_prefixes_group by done. apply existsb_ext_in. intros p Hp. apply starts_with_word.
  cbn in Hp. repeat destruct Hp as [<-|Hp]; done.
Qed.

Lemma text_documentation g0 g1 rest : groups_ok (g0 :: g1 :: rest) →
  starts_with "2001:db8:" (ipv6_text (g0 :: g1 :: rest)) = bool_decide ([g0; g1] = [8193; 3512]).
Proof.
  intros Hok. pose proof Hok as [_ HF]. rewrite !Forall_cons in HF. destruct HF as (Hg0 & Hg1 & _).
  assert (Hsplit : ∀ t, starts_with "2001:db8:" t = true → ∃ ws, split_char ":"%char t = "2001" :: "db8" :: ws).
  { intros t [r ->]%starts_with_spec. exists (split_char ":"%char r).
    change ("2001:db8:" +:+ r) with ("2001" +:+ String ":"%char ("db8" +:+ String ":"%char r)). by rewrite !split_char_app. }
  apply eq_true_iff_eq. rewrite bool_decide_eq_true.
  destruct (ipv6_text_head _ _ _ Hok) as [(r & -> & -> & ->)|[(r & -> & ->)|(r & ->)]].
  - split; [done|intros [=]].
  - split; [|intros [=]]. intros (ws & Hws)%Hsplit.
    change (":" +:+ ":" +:+ r) with (String ":"%char ("" +:+ String ":"%char r)) in Hws.
    rewrite !split_char_app in Hws by first [done|by apply to_hex_no_colon]. discriminate Hws.
  - split.
    + intros (ws & Hws)%Hsplit.
      change (":" +:+ to_hex g1 +:+ ":" +:+ r) with (String ":"%char (to_hex g1 +:+ String ":"%char r)) in Hws.
      rewrite !split_char_app in Hws by by apply to_hex_no_colon. injection Hws as H1 H2 _.
      rewrite (to_hex_inj g0 8193), (to_hex_inj g1 3512); [done|done|unfold group_ok; lia|done|done|unfold group_ok; lia|done].
    + intros [= -> ->]. by apply starts_with_spec; exists r.
Qed.

(** ** Mapped addresses *)

Lemma zero_group_spec m b s rest : zero_group m b s = Some rest →
  ∃ n, (n <= m)%nat ∧ (b = false → 1 <= n)%nat ∧ s = String.string_of_list_ascii (repeat "0"%char n) +:+ String ":"%char rest.
Proof.
  revert b s. induction m as [|m IH]; intros b [|c s]; cbn [zero_group]; try done.
  - destruct (Ascii.eqb_spec c ":"%char) as [->|]; [|by case_match]. destruct b; [|done]. intros [= ->]. by exists O.
  - destruct (Ascii.eqb_spec c ":"%char) as [->|].
    + destruct b; [|done]. intros [= ->]. exists O. repeat split; [lia|done].
    + destruct (Ascii.eqb_spec c "0"%char) as [->|]; [|done]. intros (k & H1 & _ & ->)%IH.
      exists (S k). repeat split; lia.
Qed.

(** A group of zeros is a word of digits of value 0. *)
Lemma zero_word n : (1 <= n <= 4)%nat → let w := String.string_of_list_ascii (repeat "0"%char n) in is_hex4 w = true ∧ hex_value 0 w = 0.
Proof. intros [H1 H4]. do 5 (destruct n as [|n]; [try done; lia|]). lia. Qed.

Definition zero_words (zs : list string) : Prop := Forall (λ w, is_hex4 w = true ∧ hex_value 0 w = 0) zs.

Lemma zero_groups_spec n s k rest : zero_groups n s = (k, rest) →
  ∃ zs, length zs = k ∧ zero_words zs ∧ s = foldr (λ w t, w +:+ String ":"%char t) rest zs.
Proof.
  revert s k. induction n as [|n IH]; intros s k; cbn [zero_groups].
  { intros [= <- <-]. exists []. repeat constructor. }
  destruct (zero_group 4 false s) as [s'|] eqn:E; [|intros [= <- <-]; exists []; repeat constructor].
  destruct (zero_groups n s') as [k' r] eqn:E'. intros [= <- <-].
  apply zero_group_spec in E as (m & Hm & H1 & ->). destruct (IH _ _ E') as (zs & Hl & Hzs & ->).
  exists (String.string_of_list_ascii (repeat "0"%char m) :: zs). repeat split; [cbn; by rewrite Hl|].
  constructor; [apply zero_word; specialize (H1 eq_refl); lia|done].
Qed.

Lemma fold_zero_groups_cases lo hi s :
  fold_zero_groups lo hi s = s ∨
  ∃ zs r, zero_words zs ∧ s = foldr (λ w t, w +:+ String ":"%char t) ("ffff:" +:+ r) zs ∧ fold_zero_groups lo hi s = "::ffff:" +:+ r.
Proof.
  unfold fold_zero_groups. destruct (zero_groups hi s) as [k rest] eqn:E. case_match eqn:Hc; [right|by left].
  apply andb_true_iff in Hc as [_ [r ->]%starts_with_spec]. apply zero_groups_spec in E as (zs & _ & Hzs & ->).
  by exists zs, r.
Qed.

Lemma foldr_join ws t : hex_words ws → t ≠ [] →
  foldr (λ w t, w +:+ String ":"%char t) (join ":" t) ws = join ":" (ws ++ t).
Proof.
  intros Hws Ht. induction Hws as [|w ws Hw _ IH]; [done|]. cbn [foldr app]. rewrite IH.
  destruct (ws ++ t) as [|x xs] eqn:E; [by destruct ws, t|]. by rewrite join_cons.
Qed.

Lemma split_char_back sep s : join (String sep "") (split_char sep s) = s.
Proof.
  induction s as [|c s IH]; [done|]. cbn [split_char]. destruct (split_char sep s) as [|w ws] eqn:E; [by destruct (split_char_nonnil sep s)|].
  destruct (Ascii.eqb_spec c sep) as [->|Hc].
  - rewrite join_cons. change (String sep (join (String sep "") (w :: ws)) = String sep s). by rewrite IH.
  - destruct ws as [|w' ws]; [cbn in *; by subst|]. change (String c (join (String sep "") (w :: w' :: ws)) = String c s). by rewrite IH.
Qed.

Lemma folded_cases t r : fold_zero_groups 1 1 (fold_zero_groups 2 5 t) = "::ffff:" +:+ r →
  t = "::ffff:" +:+ r ∨ ∃ zs, zero_words zs ∧ t = foldr (λ w t, w +:+ String ":"%char t) ("ffff:" +:+ r) zs.
Proof.
  intros Hc. destruct (fold_zero_groups_cases 1 1 (fold_zero_groups 2 5 t)) as [E2|(zs2 & r2 & Hzs2 & Ht2 & E2)];
    rewrite E2 in Hc; destruct (fold_zero_groups_cases 2 5 t) as [E1|(zs & r1 & Hzs & Ht & E1)].
  - left. congruence.
  - right. rewrite E1 in Hc. apply append_inj_l in Hc as ->. eauto.
  - right. apply append_inj_l in Hc as ->. rewrite E1 in Ht2. eauto.
  - exfalso. rewrite E1 in Ht2. destruct zs2 as [|w zs2]; [discriminate Ht2|].
    apply Forall_cons in Hzs2 as [[Hw _] _]. destruct (is_hex4_cons w Hw) as (c & w' & -> & Hx & _).
    injection Ht2 as <- _. discriminate Hx.
Qed.

(** An extracted address sits in the last two groups of a mapped one. *)
Lemma extract_parse t m gs : no_char "."%char t → extractIpv4MappedAddress t = Some m → parseIpv6Groups t = Some gs →
  ∃ h l, gs = [0; 0; 0; 0; 0; 65535; h; l] ∧ m = embedded h l.
Proof.
  intros Hdot Hm Hp. unfold extractIpv4MappedAddress in Hm. case_match eqn:Hs; [|done].
  apply starts_with_spec in Hs as [r Hr]. rewrite Hr in Hm. change (string_drop 7 ("::ffff:" +:+ r)) with r in Hm.
  assert (Hcases := folded_cases _ _ Hr).
  assert (Hdr : no_char "."%char r).
  { clear -Hcases Hdot. unfold no_char in *. destruct Hcases as [->|(zs & _ & ->)].
    - rewrite string_existsb_append in Hdot. by apply orb_false_iff in Hdot as [_ ?].
    - induction zs as [|w zs IH]; cbn [foldr] in Hdot.
      + rewrite string_existsb_append in Hdot. by apply orb_false_iff in Hdot as [_ ?].
      + rewrite string_existsb_append in Hdot. apply orb_false_iff in Hdot as [_ Hdot].
        cbn [string_existsb] in Hdot. apply orb_false_iff in Hdot as [_ Hdot]. by apply IH. }
  rewrite (split_char_single _ _ Hdr) in Hm. cbn [length Nat.eqb andb] in Hm.
  destruct (split_char ":"%char r) as [|hs [|ls [|]]] eqn:Er; try done. case_match eqn:Hx; [|done]. injection Hm as <-.
  apply andb_true_iff in Hx as [Hh Hl]. exists (hex_value 0 hs), (hex_value 0 ls). split; [|done].
  assert (Hw : hex_words ["ffff"; hs; ls]) by (repeat constructor; done).
  assert (Hj : "ffff:" +:+ r = join ":" ["ffff"; hs; ls]).
  { rewrite <-(split_char_back ":"%char r), Er. done. }
  destruct Hcases as [->|(zs & Hzs & ->)].
  - change ("::ffff:" +:+ r) with (join ":" [] +:+ "::" +:+ ("ffff:" +:+ r)) in Hp. rewrite Hj in Hp.
    rewrite parse_words_compressed in Hp by (done || cbn; lia). by injection Hp as <-.
  - rewrite Hj in Hp. assert (Hz : hex_words zs) by (eapply Forall_impl; [exact Hzs|]; naive_solver).
    rewrite foldr_join, parse_words in Hp; [|apply Forall_app; done|done|done]. case_match eqn:H8; [|done]. injection Hp as <-.
    apply Nat.eqb_eq in H8. rewrite length_app in H8. cbn in H8.
    destruct zs as [|z1 [|z2 [|z3 [|z4 [|z5 [|]]]]]]; cbn in H8; try lia. unfold zero_words in Hzs. rewrite !Forall_cons in Hzs.
    destruct Hzs as ([_ E1] & [_ E2] & [_ E3] & [_ E4] & [_ E5] & _). cbn [map app]. by rewrite E1, E2, E3, E4, E5.
Qed.

Lemma embedded_reserved h l : group_ok h → group_ok l →
  isPrivateOrReservedIpv4 (embedded h l) = reserved_ipv4 (h * 65536 + l).
Proof.
  unfold group_ok, embedded, octet. intros Hh Hl. rewrite !Z.shiftr_0_r. change 255 with (Z.ones 8). rewrite !Z.land_ones by lia.
  rewrite !Z.shiftr_div_pow2 by lia. change (2 ^ 8) with 256.
  assert (Hb : ∀ x, 0 ≤ x < 65536 → 0 ≤ (x / 256) mod 256 < 256 ∧ 0 ≤ x mod 256 < 256 ∧ x = (x / 256) mod 256 * 256 + x mod 256).
  { intros x Hx. rewrite (Z.mod_small (x / 256)) by (split; [apply Z.div_pos; lia|apply Z.div_lt_upper_bound; lia]).
    pose proof (Z.mod_pos_bound x 256). pose proof (Z.div_mod x 256). split; [|lia]. split; [apply Z.div_pos; lia|apply Z.div_lt_upper_bound; lia]. }
  destruct (Hb h Hh) as (? & ? & Eh), (Hb l Hl) as (? & ? & El). rewrite reserved_ipv4_dotted by (repeat constructor; lia).
  f_equal. rewrite ipv4_value_sum. lia.
Qed.

Lemma extract_mapped h l : group_ok h → group_ok l →
  extractIpv4MappedAddress (ipv6_text [0; 0; 0; 0; 0; 65535; h; l]) = Some (embedded h l).
Proof.
  intros Hh Hl. assert (Ht : ipv6_text [0; 0; 0; 0; 0; 65535; h; l] = "::ffff:" +:+ to_hex h +:+ ":" +:+ to_hex l).
  { unfold ipv6_text. cbn [longest_zeros zero_run]. destruct (Z.eqb_spec h 0) as [->|], (Z.eqb_spec l 0) as [->|]; reflexivity. }
  rewrite Ht. unfold extractIpv4MappedAddress. set (r := to_hex h +:+ ":" +:+ to_hex l).
  change (fold_zero_groups 1 1 (fold_zero_groups 2 5 ("::ffff:" +:+ r))) with ("::ffff:" +:+ r).
  change (starts_with "::ffff:" ("::ffff:" +:+ r)) with (starts_with "" r).
  assert (starts_with "" r = true) as -> by (by destruct r).
  change (string_drop 7 ("::ffff:" +:+ r)) with r.
  assert (Hsplit : split_char ":"%char r = [to_hex h; to_hex l]).
  { unfold r. change (":" +:+ to_hex l) with (String ":"%char (to_hex l)).
    rewrite split_char_app by by apply to_hex_no_colon. by rewrite split_char_single by by apply to_hex_no_colon. }
  assert (Hdot : no_char "."%char r).
  { change r with (hex_groups [h; l]). apply hex_groups_plain; [by do 2 (apply Forall_cons_2; [done|])|done|done]. }
  rewrite (split_char_single _ _ Hdot), Hsplit. destruct (to_hex_ok h Hh) as [-> ->], (to_hex_ok l Hl) as [-> ->]. done.
Qed.

Section Decision.
Variables g0 g1 g2 g3 g4 g5 g6 g7 : Z.
Hypothesis Hok : groups_ok [g0; g1; g2; g3; g4; g5; g6; g7].
Notation gs := [g0; g1; g2; g3; g4; g5; g6; g7].
Notation text := (ipv6_text gs).

Lemma text_is gs' t : groups_ok gs' → ipv6_text gs' = t → bool_decide (text = t) = bool_decide (gs = gs').
Proof. intros Hok' <-. apply bool_decide_ext. split; [by apply ipv6_text_inj|by intros ->]. Qed.

(** The tests on the text. *)
Definition textual : bool :=
  bool_decide (gs = [0; 0; 0; 0; 0; 0; 0; 0]) || bool_decide (gs = [0; 0; 0; 0; 0; 0; 0; 1]) ||
  (g0 / 2 ^ 9 =? 126) || (g0 / 2 ^ 6 =? 1018) || (g0 / 2 ^ 6 =? 1019) || short_lookalike g0 ||
  bool_decide ([g0; g1] = [8193; 3512]).

Lemma existsb_app_single {A} (f : A → bool) xs x : existsb f (xs ++ [x]) = existsb f xs || f x.
Proof. rewrite existsb_app. cbn. by rewrite orb_false_r. Qed.

Lemma textual_tests :
  bool_decide (text = "::") || bool_decide (text = "::1") ||
  existsb (λ p, starts_with p text) ["fc"; "fd"; "fe8"; "fe9"; "fea"; "feb"; "fec"; "fed"; "fee"; "fef"; "2001:db8:"] = textual.
Proof.
  change ["fc"; "fd"; "fe8"; "fe9"; "fea"; "feb"; "fec"; "fed"; "fee"; "fef"; "2001:db8:"] with (local_prefixes ++ ["2001:db8:"]).
  rewrite existsb_app_single, text_local_prefixes, text_documentation by done.
  rewrite (text_is [0; 0; 0; 0; 0; 0; 0; 0]), (text_is [0; 0; 0; 0; 0; 0; 0; 1]);
    [unfold textual; btauto|split; [done|repeat constructor; lia]|done|split; [done|repeat constructor; lia]|done].
Qed.

(** The tests on the groups. *)
Definition grouped : bool :=
  if Z.land g0 65280 =? 65280 then true
  else if (g0 =? 100) && (g1 =? 65435) && (g2 =? 0) && (g3 =? 0) && (g4 =? 0) && (g5 =? 0) then reserved_ipv4 (g6 * 65536 + g7)
  else if (g0 =? 100) && (g1 =? 65435) && (g2 =? 1) then true
  else if g0 =? 8194 then reserved_ipv4 (g1 * 65536 + g2)
  else if (g0 =? 0) && (g1 =? 0) && (g2 =? 0) && (g3 =? 0) && (g4 =? 0) && (g5 =? 0) then reserved_ipv4 (g6 * 65536 + g7)
  else false.

Lemma blocked_cases :
  isBlockedIpv6 text =
    textual || (if bool_decide ([g0; g1; g2; g3; g4; g5] = [0; 0; 0; 0; 0; 65535]) then reserved_ipv4 (g6 * 65536 + g7) else grouped).
Proof.
  unfold isBlockedIpv6. rewrite to_lower_plain by by apply ipv6_text_plain. rewrite textual_tests. destruct textual; [done|].
  pose proof Hok as [_ HF]. rewrite !Forall_cons in HF. destruct HF as (H0 & H1 & H2 & H3 & H4 & H5 & H6 & H7 & _).
  cbn [orb]. case_bool_decide as Hm.
  - injection Hm as -> -> -> -> -> ->. rewrite extract_mapped by done. by apply embedded_reserved.
  - destruct (extractIpv4MappedAddress text) as [m|] eqn:E.
    + exfalso. apply extract_parse with (gs := gs) in E as (h & l & [= -> -> -> -> -> -> -> ->] & _); [done| |by apply parse_text].
      apply plain_no_char; [done|by apply ipv6_text_plain].
    + rewrite parse_text by done. cbn [lookup list_lookup default id]. unfold grouped.
      rewrite <-!embedded_reserved by done. done.
Qed.
End Decision.

Lemma bool_decide_cons (x y : Z) xs ys : bool_decide (x :: xs = y :: ys) = (x =? y) && bool_decide (xs = ys).
Proof. apply eq_true_iff_eq. rewrite andb_true_iff, Z.eqb_eq, !bool_decide_eq_true. naive_solver. Qed.

Lemma high_byte g : group_ok g → (Z.land g 65280 =? 65280) = (g / 2 ^ 8 =? 255).
Proof.
  intros Hg. assert (E : Z.land g 65280 = Z.shiftl (Z.shiftr g 8) 8).
  { apply Z.bits_inj'. intros n Hn. rewrite Z.land_spec. change 65280 with (Z.shiftl (Z.ones 8) 8).
    rewrite !Z.shiftl_spec by done. destruct (Z.lt_ge_cases n 8) as [Hlt|Hge].
    - rewrite !(Z.testbit_neg_r _ (n - 8)) by lia. by rewrite andb_false_r.
    - rewrite Z.shiftr_spec by lia. replace (n - 8 + 8) with n by lia. destruct (Z.lt_ge_cases n 16) as [Hl|Hh].
      + rewrite Z.ones_spec_low by lia. by rewrite andb_true_r.
      + rewrite Z.ones_spec_high by lia. rewrite andb_false_r. symmetry. apply Z.testbit_false; [lia|].
        rewrite Z.div_small; [done|]. unfold group_ok in Hg. split; [lia|]. assert (2 ^ 16 ≤ 2 ^ n) by (apply Z.pow_le_mono_r; lia). lia. }
  rewrite E, Z.shiftl_mul_pow2, Z.shiftr_div_pow2 by lia. change (2 ^ 8) with 256.
  apply eq_true_iff_eq. rewrite !Z.eqb_eq. lia.
Qed.

(** Case analysis on the comparisons, one at a time. *)
Ltac tests := cbn; try reflexivity;
  repeat (match goal with |- context [?x =? ?y] => destruct (x =? y) end; cbn [andb orb]; try reflexivity);
  repeat match goal with b : bool |- _ => destruct b; cbn [andb orb]; try reflexivity end.

Lemma blocked_reserved g0 g1 g2 g3 g4 g5 g6 g7 : groups_ok [g0; g1; g2; g3; g4; g5; g6; g7] →
  isBlockedIpv6 (ipv6_text [g0; g1; g2; g3; g4; g5; g6; g7]) =
    reserved_ipv6 (ipv6_value [g0; g1; g2; g3; g4; g5; g6; g7]) || short_lookalike g0.
Proof.
  intros Hok. rewrite blocked_cases, reserved_ipv6_groups by done.
  pose proof Hok as [_ HF]. apply Forall_cons in HF as [H0 _]. unfold textual, grouped, reserved_groups. rewrite high_byte by done.
  rewrite !bool_decide_cons, !(bool_decide_eq_true_2 ([] = [])) by done.
  generalize (reserved_ipv4 (g6 * 65536 + g7)) (reserved_ipv4 (g1 * 65536 + g2)). intros low high.
  destruct (Z.eqb_spec g0 0) as [->|N0]; [|destruct (Z.eqb_spec g0 100) as [->|N100];
    [|destruct (Z.eqb_spec g0 8194) as [->|N8194]]].
  - change (0 / 2 ^ 9) with 0. change (0 / 2 ^ 6) with 0. change (0 / 2 ^ 8) with 0. destruct (Z.eqb_spec g5 0) as [->|]; tests.
  - change (100 / 2 ^ 9) with 0. change (100 / 2 ^ 6) with 1. change (100 / 2 ^ 8) with 0. destruct (Z.eqb_spec g2 0) as [->|]; tests.
  - tests.
  - cbn [andb orb]. generalize (short_lookalike g0). intros look. tests.
Qed.

Lemma reserved_ipv6_blocked groups : groups_ok groups →
  reserved_ipv6 (ipv6_value groups) = true → isBlockedIpv6 (ipv6_text groups) = true.
Proof.
  intros Hok Hr. pose proof Hok as [Hlen _].
  destruct groups as [|g0 [|g1 [|g2 [|g3 [|g4 [|g5 [|g6 [|g7 [|]]]]]]]]]; try discriminate Hlen.
  by rewrite blocked_reserved, Hr.
Qed.

(** For every IPv6 address in the standard text of a URL host, the guard's
    tests on the text and on the groups mark it as blocked exactly when a declared
    block contains it, be it a reserved IPv6 block or one that carries a reserved
    IPv4 address (mapped, compatible, NAT64, 6to4); the only other addresses
    blocked have one of 42 unassigned first groups spelt like a local prefix. *)
Theorem reserved_ipv6_exact groups :
  groups_ok groups →
  isBlockedIpv6 (ipv6_text groups) = true ↔
    reserved_ipv6 (ipv6_value groups) = true ∨ short_lookalike (default 0 (groups !! 0%nat)) = true.
Proof.
  intros Hok. pose proof Hok as [Hlen _].
  destruct groups as [|g0 [|g1 [|g2 [|g3 [|g4 [|g5 [|g6 [|g7 [|]]]]]]]]]; try discriminate Hlen.
  rewrite blocked_reserved by done. cbn [lookup list_lookup default id]. by rewrite orb_true_iff.
Qed.

Lemma reserved_ipv6_exact_witness :
  isBlockedIpv6 "::ffff:a9fe:a9fe" = true ∧ ¬ isBlockedIpv6 "2606:4700::1111" = true.
Proof.
  split.
  - apply (reserved_ipv6_exact [0; 0; 0; 0; 0; 65535; 43518; 43518]); [split; [reflexivity|repeat constructor; lia]|].
    left. vm_compute. reflexivity.
  - intros H. apply (reserved_ipv6_exact [9734; 18176; 0; 0; 0; 0; 0; 4369]) in H; [|split; [reflexivity|repeat constructor; lia]].
    destruct H as [H|H]; vm_compute in H; discriminate H.
Defined.
