(* ===== verification/NetworkGuard.v ===== *)
(** * The network guard (packages/policy-engine/src/sandbox/network-guard.ts)

    Which host a text names, which allowlist pattern covers it, and whether a
    tool may reach it, before and after the name is resolved.  The URL parser
    and [isIP] of the platform are an interface. *)
From stdpp Require Import pretty.
From S2P Require Import Prelude.
From S2P Require Import JsString.
From S2P Require Import JsTime.
From S2P Require Import JsJson.
From S2P Require Import IpAddresses.

(** ** The platform: [URL] and [isIP] of node:net *)

Record url := mkUrl {
  url_protocol : string;
  url_host : string;
  url_hostname : string;
  url_origin : string;
}.

(** [parse_url] is [new URL(text)], [resolve_url base text] is
    [new URL(text, base).toString()]; [None] when the constructor throws. *)
Class Platform := {
  parse_url : string → option url;
  resolve_url : string → string → option string;
  isIP : string → Z;
}.

(** ** Texts *)

(** [text.split(/[...]/, 1)[0]]: up to the first character of the class. *)
Definition take_until (f : ascii → bool) (s : string) : string := (span_chars (λ c, negb (f c)) s).1.
Definition ends_authority (c : ascii) : bool := Ascii.eqb c "/"%char || Ascii.eqb c "?"%char || Ascii.eqb c "#"%char.

(** [s.includes(c)], and what follows the last [c]. *)
Definition has_char (c : ascii) (s : string) : bool := string_existsb (Ascii.eqb c) s.
Fixpoint after_last (c : ascii) (s : string) : string :=
  match s with
  | EmptyString => EmptyString
  | String x s' => if has_char c s' then after_last c s' else if Ascii.eqb x c then s' else s
  end.

Definition has_space (s : string) : bool := string_existsb is_space s.
(** [/^\d+$/]. *)
Definition all_digits (s : string) : bool := truthy s && string_forallb is_digit s.

Definition is_scheme_start (c : ascii) : bool :=
  let n := N_of_ascii c in (65 <=? n)%N && (n <=? 90)%N || (97 <=? n)%N && (n <=? 122)%N.
Definition is_scheme_char (c : ascii) : bool :=
  is_scheme_start c || is_digit c || Ascii.eqb c "+"%char || Ascii.eqb c "."%char || Ascii.eqb c "-"%char.

(** A scheme with its colon, and the rest. *)
Definition split_scheme (s : string) : option (string * string) :=
  match s with
  | String c s' =>
      if is_scheme_start c then
        match span_chars is_scheme_char s' with
        | (w, String ":" rest) => Some (String c w +:+ ":", rest)
        | _ => None
        end
      else None
  | EmptyString => None
  end.

(** [input.replace(/^([a-z][a-z0-9+.-]*:)\s*\/\s*\/\s*/i, "$1//")]. *)
Definition normalizeUrlAuthorityWhitespace (input : string) : string :=
  match split_scheme input with
  | Some (scheme, rest) =>
      match trim_start rest with
      | String "/" rest =>
          match trim_start rest with
          | String "/" rest => scheme +:+ "//" +:+ trim_start rest
          | _ => input
          end
      | _ => input
      end
  | None => input
  end.

Section Guard.
Context `{Platform}.

(** ** Hosts *)

Definition redactUrlForError (input : string) : string :=
  if negb (truthy (trim input)) then "<empty>"
  else
    match parse_url (trim input) with
    | Some u => url_protocol u +:+ "//" +:+ url_host u
    | None =>
        let withoutPath := take_until ends_authority (trim input) in
        let withoutUserinfo := after_last "@"%char withoutPath in
        if truthy withoutUserinfo then withoutUserinfo else "<unparseable>"
    end.

Record parsed_host := mkHost {
  ph_host : string;
  ph_hostname : string;
  ph_invalidReason : option string;
}.

Definition invalidHost (input reason : string) : parsed_host :=
  mkHost "" "" (Some (reason +:+ " " +:+ redactUrlForError input)).

(** [/^\d+(?:\.\d+)+$/.test(hostname) && isIP(hostname) !== 4]. *)
Definition isMalformedIpv4Literal (hostname : string) : bool :=
  let parts := split_char "."%char hostname in
  (2 <=? length parts)%nat && forallb all_digits parts && negb (isIP hostname =? 4).

(** The text is no URL with a host. *)
Definition parseBareHost (hostOrUrl trimmed : string) : parsed_host :=
  let withoutPath := take_until (Ascii.eqb "/"%char) trimmed in
  let plain_host :=
    if has_space withoutPath then invalidHost hostOrUrl "Host contains invalid whitespace."
    else
      match split_char ":"%char withoutPath with
      | [hostname; port] =>
          if truthy port && negb (all_digits port) then invalidHost hostOrUrl "Host port is malformed."
          else if isMalformedIpv4Literal hostname then invalidHost hostOrUrl "IPv4 host is malformed."
          else mkHost withoutPath hostname None
      | _ =>
          if isMalformedIpv4Literal withoutPath then invalidHost hostOrUrl "IPv4 host is malformed."
          else mkHost withoutPath withoutPath None
      end in
  match (if starts_with "[" withoutPath then index_of "]" withoutPath else None) with
  | Some close =>
      let host := string_take (S close) withoutPath in
      let portSuffix := string_drop (S close) withoutPath in
      if truthy portSuffix && negb (starts_with ":" portSuffix && all_digits (string_drop 1 portSuffix))
      then invalidHost hostOrUrl "Host port is malformed."
      else mkHost (host +:+ portSuffix) (string_drop 1 (string_take close withoutPath)) None
  | None => plain_host
  end.

Definition parseHost (hostOrUrl : string) : parsed_host :=
  let trimmed := normalizeUrlAuthorityWhitespace (trim hostOrUrl) in
  if negb (truthy trimmed) then mkHost "" "" None
  else
    match parse_url trimmed with
    | Some parsed =>
        if truthy (url_host parsed) || truthy (url_hostname parsed)
        then mkHost (url_host parsed) (stripIpv6Brackets (url_hostname parsed)) None
        else
          match index_of "://" trimmed with
          | Some _ => invalidHost hostOrUrl "Host URL is malformed."
          | None => parseBareHost hostOrUrl trimmed
          end
    | None =>
        match index_of "://" trimmed with
        | Some i =>
            if has_space (take_until ends_authority (string_drop (i + 3) trimmed))
            then invalidHost hostOrUrl "Host contains invalid whitespace."
            else invalidHost hostOrUrl "Host URL is malformed."
        | None => parseBareHost hostOrUrl trimmed
        end
    end.

(** ** The allowlist *)

(** The loop over the segments after the first; the cursor is the text that is
    left of the candidate. *)
Fixpoint match_segments (segments : list string) (left : string) : bool :=
  match segments with
  | [] => true
  | segment :: segments' =>
      if negb (truthy segment) then match_segments segments' left
      else
        match index_of segment left with
        | None => false
        | Some nextIndex => match_segments segments' (string_drop (nextIndex + String.length segment) left)
        end
  end.

Definition matchesAllowlistPattern (candidate pattern : string) : bool :=
  let normalizedCandidate := to_lower candidate in
  let normalizedPattern := to_lower (trim pattern) in
  if negb (has_char "*"%char normalizedPattern) then bool_decide (normalizedCandidate = normalizedPattern)
  else if bool_decide (normalizedPattern = "*") then true
  else
    let segments := split_char "*"%char normalizedPattern in
    let firstSegment := hd "" segments in
    if truthy firstSegment && negb (starts_with firstSegment normalizedCandidate) then false
    else if match_segments (tl segments) (string_drop (String.length firstSegment) normalizedCandidate) then
      let lastSegment := List.last segments "" in
      negb (truthy lastSegment) || ends_with lastSegment normalizedCandidate
    else false.

Definition DISALLOWED_HOSTS : list string :=
  ["0.0.0.0"; "169.254.169.254"; "metadata.google.internal"; "100.100.100.200"].

Definition isPrivateOrReservedHost (hostname : string) : bool :=
  let lower := to_lower hostname in
  if negb (truthy lower) then true
  else if bool_decide (lower ∈ DISALLOWED_HOSTS) then true
  else if bool_decide (lower = "localhost") || ends_with ".local" lower then true
  else
    let ipVersion := isIP lower in
    if ipVersion =? 4 then isPrivateOrReservedIpv4 lower
    else if ipVersion =? 6 then isBlockedIpv6 lower
    else false.

Definition isLanIpv4Literal (hostname : string) : bool :=
  if negb (isIP hostname =? 4) || bool_decide (hostname ∈ DISALLOWED_HOSTS) then false
  else
    let parts := map part_number (split_char "."%char hostname) in
    let a := default (Some (-1)) (parts !! 0%nat) in
    let b := default (Some (-1)) (parts !! 1%nat) in
    is_num a 10 || (is_num a 172 && between b 16 31) || (is_num a 192 && is_num b 168) || (is_num a 100 && between b 64 127).

Definition findExactLanPattern (host hostname : string) (allowlist : list string) : option string :=
  if negb (isLanIpv4Literal hostname) then None
  else List.find (λ pattern,
    let normalized := to_lower (trim pattern) in
    negb (has_char "*"%char normalized) && bool_decide (normalized = host)) allowlist.

Definition isExplicitLoopbackPattern (pattern hostname : string) : bool :=
  let normalizedPattern := trim (to_lower pattern) in
  let normalizedHost := to_lower hostname in
  if bool_decide (normalizedHost = "localhost")
  then bool_decide (normalizedPattern = "localhost") || starts_with "localhost:" normalizedPattern
  else if bool_decide (normalizedHost = "127.0.0.1")
  then bool_decide (normalizedPattern = "127.0.0.1") || starts_with "127.0.0.1:" normalizedPattern
  else if bool_decide (normalizedHost = "::1")
  then bool_decide (normalizedPattern = "::1") || bool_decide (normalizedPattern = "[::1]") ||
       starts_with "[::1]:" normalizedPattern
  else false.

(** A string that may be [undefined] as a condition: the empty string is false. *)
Definition truthy_some (o : option string) : option string :=
  match o with Some s => if truthy s then o else None | None => None end.

(** ** The decision *)

Inductive EgressApprovalState := not_required | approval_required | blocked.

Record EgressDecision := mkDecision {
  target : string;
  ed_hostname : string;
  allowed : bool;
  approvalState : EgressApprovalState;
  reason : string;
  matchedAllowlistPattern : option string;
}.

(** [allowlist.find(...)] on the host with and without its port. *)
Definition find_pattern (host hostname : string) (allowlist : list string) : option string :=
  List.find (λ pattern, matchesAllowlistPattern host pattern || matchesAllowlistPattern hostname pattern) allowlist.

Definition evaluateHostEgress (hostOrUrl : string) (allowlist : list string) : EgressDecision :=
  let parsed := parseHost hostOrUrl in
  let host := to_lower (ph_host parsed) in
  let hostname := to_lower (ph_hostname parsed) in
  match ph_invalidReason parsed with
  | Some reason => mkDecision hostOrUrl hostname false blocked reason None
  | None =>
      if negb (truthy host) && negb (truthy hostname)
      then mkDecision hostOrUrl hostname false blocked "Host is empty." None
      else
        let isPrivateOrReserved := isPrivateOrReservedHost hostname in
        match truthy_some (find_pattern host hostname allowlist) with
        | None =>
            let redacted := redactUrlForError hostOrUrl in
            mkDecision hostOrUrl hostname false (if isPrivateOrReserved then blocked else approval_required)
              (if isPrivateOrReserved then "Private, loopback, or reserved host is blocked: " +:+ redacted
               else "Host is not yet allowlisted: " +:+ redacted) None
        | Some matchedPattern =>
            if negb isPrivateOrReserved
            then mkDecision hostOrUrl hostname true not_required "Host matches network allowlist." (Some matchedPattern)
            else if isExplicitLoopbackPattern matchedPattern hostname
            then mkDecision hostOrUrl hostname true not_required "Loopback host explicitly allowlisted." (Some matchedPattern)
            else
              match truthy_some (findExactLanPattern host hostname allowlist) with
              | Some lanPattern =>
                  mkDecision hostOrUrl hostname true not_required "Private network host explicitly allowlisted." (Some lanPattern)
              | None =>
                  mkDecision hostOrUrl hostname false blocked
                    ("Private, metadata, or reserved host is blocked: " +:+ redactUrlForError hostOrUrl) (Some matchedPattern)
              end
        end
  end.

Definition isHostAllowed (hostOrUrl : string) (allowlist : list string) : bool := allowed (evaluateHostEgress hostOrUrl allowlist).

(** ** Assertions *)

(** What the guard throws: [Error], [HostNotAllowlistedError] and
    [HttpMutationOutcomeUnknownError]. *)
Inductive guard_error :=
  | GuardError (message : string)
  | HostNotAllowlistedError (message host : string)
  | MutationOutcomeUnknown (operation detail : string).

(** [/^(?:[a-z0-9.-]+|\[[0-9a-f:.]+\])(?::\d{1,5})?$/u]. *)
Definition is_port_suffix (s : string) : bool :=
  match s with
  | EmptyString => true
  | String ":" port => all_digits port && (String.length port <=? 5)%nat
  | _ => false
  end.
Definition is_name_char (c : ascii) : bool :=
  let n := N_of_ascii c in (97 <=? n)%N && (n <=? 122)%N || is_digit c || Ascii.eqb c "."%char || Ascii.eqb c "-"%char.
Definition is_bracket_char (c : ascii) : bool := is_hex c || Ascii.eqb c ":"%char || Ascii.eqb c "."%char.
Definition BARE_HOST (s : string) : bool :=
  (let '(name, rest) := span_chars is_name_char s in truthy name && is_port_suffix rest) ||
  match s with
  | String "[" s' =>
      match span_chars is_bracket_char s' with
      | (inside, String "]" rest) => truthy inside && is_port_suffix rest
      | _ => false
      end
  | _ => false
  end.

(** [text.replace(/^[a-z][a-z0-9+.-]*:\/\//iu, "")]. *)
Definition without_scheme (text : string) : string :=
  match split_scheme text with
  | Some (_, rest) => if starts_with "//" rest then string_drop 2 rest else text
  | None => text
  end.

Definition namedHost (hostOrUrl : string) : option string :=
  let host := to_lower (without_scheme (redactUrlForError hostOrUrl)) in
  if BARE_HOST host then Some host else None.

Definition assertHostAllowed (hostOrUrl : string) (allowlist : list string) : outcome guard_error unit :=
  let decision := evaluateHostEgress hostOrUrl allowlist in
  if allowed decision then Ok tt
  else
    match approvalState decision with
    | approval_required =>
        match namedHost hostOrUrl with
        | Some host => Err (if truthy host then HostNotAllowlistedError (reason decision) host else GuardError (reason decision))
        | None => Err (GuardError (reason decision))
        end
    | _ => Err (GuardError (reason decision))
    end.

Definition assertNotPrivateOrReservedHost (hostOrUrl : string) (exactLanAllowlist : option (list string))
    : outcome guard_error unit :=
  let parsed := parseHost hostOrUrl in
  match ph_invalidReason parsed with
  | Some invalidReason => Err (GuardError (trim invalidReason +:+ " (" +:+ redactUrlForError hostOrUrl +:+ ")"))
  | None =>
      if negb (truthy (ph_host parsed)) && negb (truthy (ph_hostname parsed))
      then Err (GuardError ("Host is empty: " +:+ redactUrlForError hostOrUrl))
      else
        let hostname := to_lower (ph_hostname parsed) in
        if negb (isPrivateOrReservedHost hostname) then Ok tt
        else if match exactLanAllowlist with
                | Some list => bool_decide (is_Some (truthy_some (findExactLanPattern (to_lower (ph_host parsed)) hostname list)))
                | None => false
                end
        then Ok tt
        else Err (GuardError ("Private, metadata, or reserved host is blocked: " +:+ redactUrlForError hostOrUrl))
  end.

Record dangerous_bypass := mkBypass {
  db_blocked : bool;
  db_shouldAudit : bool;
  db_hostname : string;
  db_reason : string;
}.

Definition evaluateDangerousHostBypass (hostOrUrl : string) (allowlist : list string) : dangerous_bypass :=
  let decision := evaluateHostEgress hostOrUrl allowlist in
  if allowed decision then mkBypass false false (ed_hostname decision) (reason decision)
  else
    match approvalState decision with
    | blocked => mkBypass true false (ed_hostname decision) (reason decision)
    | _ => mkBypass false true (ed_hostname decision)
             ("Low-level bypass audit marker for public network target outside the allowlist: " +:+ redactUrlForError hostOrUrl)
    end.

Definition assertHostAllowedInDangerProfile (hostOrUrl : string) (allowlist : list string) : outcome guard_error unit :=
  let decision := evaluateDangerousHostBypass hostOrUrl allowlist in
  if db_blocked decision then Err (GuardError (db_reason decision)) else Ok tt.

(** ** Resolved addresses *)

Definition isLoopbackAddress (address : string) : bool :=
  let normalized := stripIpv6Brackets (to_lower address) in
  bool_decide (normalized = "::1") || bool_decide (normalized = "127.0.0.1") || bool_decide (normalized = "::ffff:127.0.0.1").

Definition isResolvedExactLanAllowed (hostOrUrl : string) (allowlist : list string) (resolvedAddress : string) : bool :=
  let parsed := parseHost hostOrUrl in
  match ph_invalidReason parsed with
  | Some _ => false
  | None =>
      let hostname := to_lower (ph_hostname parsed) in
      bool_decide (is_Some (findExactLanPattern (to_lower (ph_host parsed)) hostname allowlist)) &&
      bool_decide (stripIpv6Brackets (to_lower resolvedAddress) = hostname)
  end.

Definition isResolvedLoopbackAllowed (hostOrUrl : string) (allowlist : list string) (resolvedAddress : string) : bool :=
  let parsed := parseHost hostOrUrl in
  match ph_invalidReason parsed with
  | Some _ => false
  | None =>
      let hostname := to_lower (ph_hostname parsed) in
      match truthy_some (find_pattern (to_lower (ph_host parsed)) hostname allowlist) with
      | Some matchedPattern =>
          if negb (isExplicitLoopbackPattern matchedPattern hostname) then false
          else isLoopbackAddress resolvedAddress
      | None => false
      end
  end.

(** An address of a lookup with its family, and the two shapes of an answer. *)
Record LookupAddress := mkAddress { la_address : string; la_family : Z }.
Inductive lookup_answer := one_address (address : string) | addresses (all : list LookupAddress).

Definition answer_addresses (answer : lookup_answer) : list string :=
  match answer with one_address a => [a] | addresses all => map la_address all end.

Definition findBlockedResolvedAddress (hostOrUrl : string) (allowlist : list string) (answer : lookup_answer) : option string :=
  List.find (λ candidate,
    isPrivateOrReservedHost (stripIpv6Brackets (to_lower candidate)) &&
    negb (isResolvedLoopbackAllowed hostOrUrl allowlist candidate) &&
    negb (isResolvedExactLanAllowed hostOrUrl allowlist candidate)) (answer_addresses answer).

Definition inferAddressFamily (address : string) : Z :=
  let version := isIP (stripIpv6Brackets (to_lower address)) in
  if (version =? 4) || (version =? 6) then version else 0.

(** [options.all] asks for every address. *)
Definition normalizeLookupCallbackResult (answer : lookup_answer) (family : option Z) (all : bool) : lookup_answer * option Z :=
  if all then
    (match answer with
     | addresses _ => answer
     | one_address a => addresses [mkAddress a (default (inferAddressFamily a) family)]
     end, None)
  else
    match answer with
    | addresses list => (one_address (default "" (la_address <$> hd_error list)), la_family <$> hd_error list)
    | one_address a => (one_address a, Some (default (inferAddressFamily a) family))
    end.

(** What the guarded lookup passes to its callback: an error or no error, the
    answer and the family.  [found] is what the resolver passed. *)
Definition createGuardedDnsLookup {E} (blocked_error : string → E) (hostOrUrl : string) (allowlist : list string) (all : bool)
    (found : option E * lookup_answer * option Z) : option E * lookup_answer * option Z :=
  let '(error, address, family) := found in
  match error with
  | Some _ => (error, address, family)
  | None =>
      let normalized := normalizeLookupCallbackResult address family all in
      match truthy_some (findBlockedResolvedAddress hostOrUrl allowlist normalized.1) with
      | Some _ =>
          (Some (blocked_error ("Private, metadata, or reserved resolved address is blocked: " +:+ redactUrlForError hostOrUrl)),
           normalized.1, normalized.2)
      | None => (None, normalized.1, normalized.2)
      end
  end.
End Guard.
