(* ===== verification/NetworkGuardTheorems.v ===== *)
(** * What the network guard lets through

    The patterns of the allowlist as wildcards, the egress decision against the
    declared reserved addresses, and the check of the addresses a name resolves
    to. *)
From stdpp Require Import pretty.
From S2P Require Import Prelude.
From S2P Require Import JsString.
From S2P Require Import JsJson.
From S2P Require Import IpAddresses.
From S2P Require Import Ipv4Ranges.
From S2P Require Import NetworkGuard.
From S2P Require Import JsTime.
From S2P Require Import Ipv6Text.
From S2P Require Import Ipv6Guard.

(** ** Searching *)

Lemma index_of_some p s i : index_of p s = Some i → ∃ x r, s = x +:+ p +:+ r ∧ String.length x = i.
Proof.
  revert i. induction s as [|c s IH]; intros i; cbn [index_of]; destruct (starts_with p _) eqn:E.
  - intros [= <-]. apply starts_with_spec in E as [r ->]. by exists "", r.
  - done.
  - intros [= <-]. apply starts_with_spec in E as [r ->]. by exists "", r.
  - intros (j & Hj & ->)%fmap_Some. destruct (IH j Hj) as (x & r & -> & <-). by exists (String c x), r.
Qed.

Lemma starts_with_app p r : starts_with p (p +:+ r) = true.
Proof. apply starts_with_spec. by exists r. Qed.

Lemma index_of_occ p x r : ∃ i, index_of p (x +:+ p +:+ r) = Some i ∧ (i <= String.length x)%nat.
Proof.
  induction x as [|c x (i & Hi & Hle)].
  - exists O. change ("" +:+ p +:+ r) with (p +:+ r). assert (starts_with p (p +:+ r) = true) as E by apply starts_with_app.
    split; [|lia]. destruct (p +:+ r); cbn [index_of]; by rewrite E.
  - change (String c x +:+ p +:+ r) with (String c (x +:+ p +:+ r)). cbn [index_of]. case_match; [exists O; split; [done|cbn; lia]|].
    exists (S i). rewrite Hi. split; [done|cbn; lia].
Qed.

Lemma app_split a b x y : a +:+ b = x +:+ y → (String.length a <= String.length x)%nat → ∃ z, x = a +:+ z ∧ b = z +:+ y.
Proof.
  revert x. induction a as [|c a IH]; intros x E Hl; [by exists x|]. destruct x as [|c' x]; [cbn in Hl; lia|].
  injection E as <- E. cbn in Hl. destruct (IH x E) as (z & -> & ->); [lia|]. by exists z.
Qed.

Lemma string_drop_app2 x p r : string_drop (String.length x + String.length p) (x +:+ p +:+ r) = r.
Proof. rewrite <-length_append, <-append_assoc. apply string_drop_app. Qed.

(** What is left after the leftmost occurrence ends with what is left after any. *)
Lemma index_of_leftmost p x r : ∃ i y, index_of p (x +:+ p +:+ r) = Some i ∧
  string_drop (i + String.length p) (x +:+ p +:+ r) = y +:+ r.
Proof.
  destruct (index_of_occ p x r) as (i & Hi & Hle). destruct (index_of_some _ _ _ Hi) as (x' & r' & E & Hl).
  assert (∃ y, r' = y +:+ r) as [y Hy].
  { rewrite <-!append_assoc in E. symmetry in E. apply app_split in E as (y & _ & ->); [eauto|].
    rewrite !length_append. lia. }
  exists i, y. split; [done|]. by rewrite E, <-Hl, string_drop_app2.
Qed.

Lemma ends_with_spec p s : ends_with p s = true ↔ ∃ x, s = x +:+ p.
Proof.
  unfold ends_with. rewrite andb_true_iff, Nat.leb_le, bool_decide_eq_true. split.
  - intros [Hl E]. exists (string_take (String.length s - String.length p) s). rewrite <-E at 2.
    generalize (String.length s - String.length p)%nat. clear. induction s as [|c s IH]; intros [|n]; [done..|].
    cbn. by rewrite <-IH.
  - intros [x ->]. rewrite length_append. split; [lia|].
    replace (String.length x + String.length p - String.length p)%nat with (String.length x) by lia. apply string_drop_app.
Qed.

(** ** Segments *)

(** The texts that hold the segments in this order, the last one at the end. *)
Fixpoint spaced (segments : list string) (t : string) : Prop :=
  match segments with
  | [] => False
  | [s] => ∃ x, t = x +:+ s
  | s :: segments' => ∃ x r, t = x +:+ s +:+ r ∧ spaced segments' r
  end.

Lemma spaced_prefix segments y r : spaced segments r → spaced segments (y +:+ r).
Proof.
  destruct segments as [|s [|s' segments]]; cbn; [done|..].
  - intros [x ->]. exists (y +:+ x). by rewrite append_assoc.
  - intros (x & r' & -> & H). exists (y +:+ x), r'. by rewrite append_assoc.
Qed.

Lemma ends_with_app s pre left : ends_with s left = true → ends_with s (pre +:+ left) = true.
Proof. rewrite !ends_with_spec. intros [x ->]. exists (pre +:+ x). by rewrite append_assoc. Qed.

Lemma ends_with_left s pre left : (String.length s <= String.length left)%nat →
  ends_with s (pre +:+ left) = true → ends_with s left = true.
Proof.
  rewrite !ends_with_spec. intros Hl [x E]. symmetry in E.
  destruct (Nat.le_gt_cases (String.length pre) (String.length x)).
  - symmetry in E. apply app_split in E as (z & _ & ->); [eauto|done].
  - apply (f_equal String.length) in E as El. rewrite !length_append in El. lia.
Qed.

(** The loop, with the check of the last segment against the whole candidate,
    decides the spaced segments. *)
Lemma match_segments_spaced segments : segments ≠ [] → ∀ pre left,
  match_segments segments left &&
    (negb (truthy (List.last segments "")) || ends_with (List.last segments "") (pre +:+ left)) = true ↔
  spaced segments left.
Proof.
  induction segments as [|s segments IH]; [done|]. intros _ pre left. destruct segments as [|s' segments].
  - cbn [match_segments List.last spaced]. destruct (truthy s) eqn:Hs; cbn [negb orb].
    + rewrite <-ends_with_spec. destruct (index_of s left) as [i|] eqn:Hi.
      * split; [|by apply ends_with_app]. apply ends_with_left. apply index_of_some in Hi as (x & r & -> & _).
        rewrite !length_append. lia.
      * split; [done|]. intros [x ->]%ends_with_spec. destruct (index_of_occ s x "") as (i & Hx & _).
        rewrite append_nil_r in Hx. congruence.
    + destruct s; [|done]. split; [|done]. intros _. exists left. by rewrite append_nil_r.
  - change (List.last (s :: s' :: segments) "") with (List.last (s' :: segments) "").
    change (match_segments (s :: s' :: segments) left) with
      (if negb (truthy s) then match_segments (s' :: segments) left
       else match index_of s left with None => false
            | Some i => match_segments (s' :: segments) (string_drop (i + String.length s) left) end).
    change (spaced (s :: s' :: segments) left) with (∃ x r, left = x +:+ s +:+ r ∧ spaced (s' :: segments) r).
    specialize (IH ltac:(done)). destruct (truthy s) eqn:Hs; cbn [negb].
    + destruct (index_of s left) as [i|] eqn:Hi.
      * destruct (index_of_some _ _ _ Hi) as (x & r & -> & Hx). rewrite <-Hx, string_drop_app2.
        assert (E : pre +:+ x +:+ s +:+ r = (pre +:+ x +:+ s) +:+ r) by by rewrite !append_assoc.
        rewrite E, IH. split; [by exists x, r|]. intros (x' & r' & E' & Hr').
        rewrite E' in Hi. destruct (index_of_leftmost s x' r') as (i' & y & Hi' & Hd).
        rewrite Hi in Hi'. injection Hi' as <-. rewrite <-E', <-Hx, string_drop_app2 in Hd. rewrite Hd. by apply spaced_prefix.
      * split; [done|]. intros (x & r & -> & _). destruct (index_of_occ s x r) as (i & Hx & _). congruence.
    + destruct s; [|done]. rewrite IH. split; [by exists "", left|]. intros (x & r & -> & H). by apply spaced_prefix.
Qed.

(** ** Wildcards *)

(** A star stands for any text. *)
Inductive wildcard : string → string → Prop :=
  | wild_nil : wildcard "" ""
  | wild_star p x r : wildcard p r → wildcard (String "*"%char p) (x +:+ r)
  | wild_char c p r : c ≠ "*"%char → wildcard p r → wildcard (String c p) (String c r).

Lemma wild_star_inv p t : wildcard (String "*"%char p) t → ∃ x r, t = x +:+ r ∧ wildcard p r.
Proof. inversion 1; simplify_eq; eauto. Qed.
Lemma wild_char_inv c p t : c ≠ "*"%char → wildcard (String c p) t → ∃ r, t = String c r ∧ wildcard p r.
Proof. intros Hc. inversion 1; simplify_eq; eauto. Qed.

(** The segments between the stars. *)
Lemma wildcard_segments p : ∀ t,
  wildcard p t ↔
    match split_char "*"%char p with
    | [s] => t = s
    | s :: segments => ∃ r, t = s +:+ r ∧ spaced segments r
    | [] => False
    end.
Proof.
  induction p as [|c p IH]; intros t.
  - cbn. split; [by inversion 1|intros ->; constructor].
  - cbn [split_char]. destruct (split_char "*"%char p) as [|s segments] eqn:E; [by destruct (split_char_nonnil "*"%char p)|].
    destruct (Ascii.eqb_spec c "*"%char) as [->|Hc].
    + split.
      * intros (x & r & -> & Hr)%wild_star_inv. exists (x +:+ r). split; [done|]. apply IH in Hr.
        destruct segments as [|s' segments]; [subst; by exists x|]. destruct Hr as (r' & -> & Hr'). by exists x, r'.
      * intros (r & -> & Hr). change ("" +:+ r) with r. destruct segments as [|s' segments].
        -- destruct Hr as [x ->]. constructor. by apply IH.
        -- destruct Hr as (x & r' & -> & Hr'). constructor. apply IH. by exists r'.
    + destruct segments as [|s' segments].
      * split; [|intros ->; constructor; [done|by apply IH]]. intros (r & -> & Hr)%wild_char_inv; [|done]. f_equal. by apply IH.
      * split.
        -- intros (r & -> & Hr)%wild_char_inv; [|done]. apply IH in Hr as (r' & -> & Hr). by exists r'.
        -- intros (r & -> & Hr). change (String c s +:+ r) with (String c (s +:+ r)). constructor; [done|]. apply IH. by exists r.
Qed.

Lemma split_single sep p : split_char sep p = [p] ∨ ∃ s s' ss, split_char sep p = s :: s' :: ss ∧ string_existsb (Ascii.eqb sep) p = true.
Proof.
  induction p as [|c p IH]; [by left|]. cbn [split_char string_existsb]. rewrite (Ascii.eqb_sym sep).
  destruct (split_char sep p) as [|w ws] eqn:E; [by destruct (split_char_nonnil sep p)|].
  destruct (Ascii.eqb_spec c sep) as [->|Hc].
  - right. exists "", w, ws. done.
  - destruct IH as [IH|(s & s' & ss & IH & Hex)]; [left; by simplify_eq|]. right. simplify_eq. eexists _, _, _. split; [done|]. done.
Qed.

(** An allowlist pattern covers a host exactly when, both in lower case and
    the pattern trimmed, the pattern matches it as a wildcard pattern: the greedy
    cursor loop with its check of the last segment never misses or invents a
    match. *)
Theorem allowlist_pattern_exact candidate pattern :
  matchesAllowlistPattern candidate pattern = true ↔ wildcard (to_lower (trim pattern)) (to_lower candidate).
Proof.
  unfold matchesAllowlistPattern. set (c := to_lower candidate). set (p := to_lower (trim pattern)). clearbody c p.
  rewrite wildcard_segments. destruct (split_single "*"%char p) as [E|(s & s' & ss & E & Hex)].
  - rewrite E. assert (has_char "*"%char p = false) as ->; [|cbn [negb]; by rewrite bool_decide_eq_true].
    unfold has_char. destruct (string_existsb _ p) eqn:Hex; [|done].
    exfalso. clear -E Hex. revert E Hex. induction p as [|x p IH]; [done|]. cbn [split_char string_existsb].
    destruct (split_char "*"%char p) as [|w ws] eqn:Ep; [by destruct (split_char_nonnil "*"%char p)|].
    rewrite (Ascii.eqb_sym "*"%char). destruct (Ascii.eqb_spec x "*"%char) as [->|]; [done|]. intros [= -> ->] Hex. by apply IH.
  - unfold has_char. rewrite Hex, E. cbn [negb hd tl]. case_bool_decide as Hp.
    + subst p. cbn in E. injection E as <- <- <-. split; [|done]. intros _. exists c. split; [done|]. exists c. by rewrite append_nil_r.
    + change (List.last (s :: s' :: ss) "") with (List.last (s' :: ss) "").
      assert (Hgo : ∀ r, match_segments (s' :: ss) r && (negb (truthy (List.last (s' :: ss) "")) || ends_with (List.last (s' :: ss) "") (s +:+ r)) = true
        ↔ spaced (s' :: ss) r) by (intros r; by apply match_segments_spaced).
      destruct (starts_with s c) eqn:Hs.
      * rewrite andb_false_r. apply starts_with_spec in Hs as [r ->]. rewrite string_drop_app. split.
        -- intros H. exists r. split; [done|]. apply Hgo. case_match; [|done]. done.
        -- intros (r' & E' & Hr). apply append_inj_l in E' as <-. apply Hgo, andb_true_iff in Hr as [-> ->]. done.
      * destruct (truthy s) eqn:Ht; [|by destruct s; [destruct c|]]. cbn [andb negb]. split; [done|].
        intros (r & -> & _). by rewrite starts_with_app in Hs.
Qed.

(** ** What the network guard lets through *)

(** What the documentation of node:net promises of [isIP]: 4 on the dotted
    decimal addresses and on nothing else, 6 on the standard text of an IPv6
    address. *)
Class PlatformLaws `{Platform} : Prop := {
  isIP_dotted octets : length octets = 4%nat → octets_ok octets → isIP (dotted octets) = 4;
  isIP_four s : isIP s = 4 → ∃ octets, length octets = 4%nat ∧ octets_ok octets ∧ s = dotted octets;
  isIP_text groups : groups_ok groups → isIP (ipv6_text groups) = 6;
}.

(** The hosts that are not public: the names the guard lists, and the addresses
    of the declared blocks. *)
Inductive reserved_name : string → Prop :=
  | reserved_listed h : h ∈ DISALLOWED_HOSTS → reserved_name h
  | reserved_localhost : reserved_name "localhost"
  | reserved_local x : reserved_name (x +:+ ".local")
  | reserved_v4 a b c d : octets_ok [a; b; c; d] → reserved_ipv4 (ipv4_value a b c d) = true → reserved_name (dotted [a; b; c; d])
  | reserved_v6 groups : groups_ok groups → reserved_ipv6 (ipv6_value groups) = true → reserved_name (ipv6_text groups).

(** A private LAN address: RFC 1918 or carrier-grade NAT. *)
Definition LAN_BLOCKS : list (Z * Z) :=
  [(ipv4_value 10 0 0 0, 8); (ipv4_value 172 16 0 0, 12); (ipv4_value 192 168 0 0, 16); (ipv4_value 100 64 0 0, 10)].
Definition lan_address (h : string) : Prop :=
  ∃ a b c d, octets_ok [a; b; c; d] ∧ h = dotted [a; b; c; d] ∧
    existsb (in_block 32 (ipv4_value a b c d)) LAN_BLOCKS = true ∧ h ∉ DISALLOWED_HOSTS.

Definition loopback_name (h : string) : Prop := h ∈ ["localhost"; "127.0.0.1"; "::1"].

Section Theorems.
Context `{PlatformLaws}.

Lemma lower_digits s : string_forallb (λ c, is_digit c || Ascii.eqb c "."%char) s = true → to_lower s = s.
Proof.
  unfold string_forallb, to_lower. rewrite negb_true_iff. induction s as [|c s IH]; [done|]. cbn [string_existsb string_map].
  intros [Hc Hs]%orb_false_iff. apply negb_false_iff in Hc. rewrite (IH Hs). f_equal.
  destruct c as [[] [] [] [] [] [] [] []]; vm_compute in Hc |- *; first [discriminate Hc | reflexivity].
Qed.

Lemma dotted_chars octets : octets_ok octets → string_forallb (λ c, is_digit c || Ascii.eqb c "."%char) (dotted octets) = true.
Proof.
  unfold dotted. induction 1 as [|o octets Ho Hos IH]; [done|].
  assert (Hp : string_forallb (λ c, is_digit c || Ascii.eqb c "."%char) (pretty o) = true).
  { by apply (octet_check (λ o, string_forallb (λ c, is_digit c || Ascii.eqb c "."%char) (pretty o))); [vm_compute; reflexivity|]. }
  destruct octets as [|o' octets]; [done|]. cbn [map]. rewrite join_cons, !string_forallb_app, Hp.
  cbn [map] in IH. by rewrite IH.
Qed.

Lemma to_lower_dotted octets : octets_ok octets → to_lower (dotted octets) = dotted octets.
Proof. intros Hok. by apply lower_digits, dotted_chars. Qed.

Lemma dotted_nonempty a b c d : truthy (dotted [a; b; c; d]) = true.
Proof. unfold dotted. cbn [map join]. destruct (pretty a); done. Qed.

(** A reserved host is recognised. *)
Lemma reserved_is_private h : reserved_name h → to_lower h = h → isPrivateOrReservedHost h = true.
Proof.
  intros Hr Hl. unfold isPrivateOrReservedHost. rewrite Hl. destruct (truthy h) eqn:Ht; cbn [negb]; [|done].
  case_bool_decide as Hd; [done|]. destruct (bool_decide (h = "localhost") || ends_with ".local" h) eqn:Hn; [done|].
  destruct Hr as [h Hin| |x|a b c d Hok Hres|groups Hok Hres].
  - done.
  - done.
  - assert (ends_with ".local" (x +:+ ".local") = true) as E by (apply ends_with_spec; by exists x).
    rewrite E, orb_true_r in Hn. done.
  - rewrite isIP_dotted by done. cbn [Z.eqb Pos.eqb]. by rewrite reserved_ipv4_dotted.
  - rewrite isIP_text by done. cbn [Z.eqb Pos.eqb]. apply reserved_ipv6_blocked; done.
Qed.

(** An exact LAN literal is an address of a LAN block. *)
Lemma lan_literal h : isLanIpv4Literal h = true → lan_address h.
Proof.
  unfold isLanIpv4Literal. destruct (Z.eqb_spec (isIP h) 4) as [H4|]; cbn [negb orb]; [|done].
  case_bool_decide as Hd; [done|]. destruct (isIP_four h H4) as (octets & Hlen & Hok & ->).
  destruct octets as [|a [|b [|c [|d [|]]]]]; try discriminate Hlen. rewrite dotted_parts by done.
  cbn [map lookup list_lookup default id is_num between]. intros Hb. exists a, b, c, d. repeat split; [done| |done].
  unfold octets_ok in Hok. rewrite !Forall_cons in Hok. destruct Hok as (Ha & Hbb & Hc & Hdd & _).
  unfold LAN_BLOCKS. cbn [existsb]. rewrite block8, block16, block_172, block_100 by lia. rewrite orb_false_r, <-Hb.
  by rewrite !orb_assoc.
Qed.

Lemma exact_lan host hostname list p : findExactLanPattern host hostname list = Some p →
  lan_address hostname ∧ p ∈ list ∧ to_lower (trim p) = host.
Proof.
  unfold findExactLanPattern. destruct (isLanIpv4Literal hostname) eqn:Hl; cbn [negb]; [|done].
  intros [Hin Hp]%List.find_some. apply andb_true_iff in Hp as [_ Hp]. apply bool_decide_eq_true in Hp.
  repeat split; [by apply lan_literal|by apply list_elem_of_In|done].
Qed.

Lemma explicit_loopback p h : to_lower h = h → isExplicitLoopbackPattern p h = true → loopback_name h.
Proof.
  unfold isExplicitLoopbackPattern, loopback_name. intros ->. repeat case_bool_decide; subst; try done; intros _; set_solver.
Qed.

Lemma truthy_some_spec o p : truthy_some o = Some p ↔ o = Some p ∧ truthy p = true.
Proof. destruct o as [s|]; cbn; [|naive_solver]. destruct (truthy s) eqn:E; naive_solver congruence. Qed.

Lemma to_lower_idemp s : to_lower (to_lower s) = to_lower s.
Proof.
  unfold to_lower. induction s as [|c s IH]; [done|]. cbn [string_map]. f_equal; [|done].
  destruct c as [[] [] [] [] [] [] [] []]; vm_compute; reflexivity.
Qed.

(** C18. Whatever the allowlist says, an allowed target whose host is a listed
    name, a local name, or the usual text of an address in a reserved block (the
    dotted text of an IPv4 address, the canonical text of an IPv6 address, which
    is what the URL parser writes between brackets) is either the loopback host,
    named by its own pattern, or a private LAN address that the allowlist names
    exactly.  (Other spellings of a mapped address on a bare host, such as
    0::ffff:127.0.0.1, are not recognised by the guard and not covered here.) *)
Theorem egress_reserved target allowlist :
  let host := to_lower (ph_host (parseHost target)) in
  let hostname := to_lower (ph_hostname (parseHost target)) in
  reserved_name hostname →
  isHostAllowed target allowlist = true →
  (loopback_name hostname ∧ ∃ p, p ∈ allowlist ∧ isExplicitLoopbackPattern p hostname = true) ∨
  (lan_address hostname ∧ ∃ p, p ∈ allowlist ∧ to_lower (trim p) = host).
Proof.
  intros host hostname Hr. unfold isHostAllowed, evaluateHostEgress. fold host hostname.
  pose proof (reserved_is_private hostname Hr (to_lower_idemp _)) as Hp.
  destruct (ph_invalidReason _); [done|]. case_match; [done|].
  destruct (truthy_some (find_pattern host hostname allowlist)) as [p|] eqn:Hf; [|done]. rewrite Hp. cbn [negb].
  apply truthy_some_spec in Hf as [Hf _]. apply List.find_some in Hf as [Hin _]. apply list_elem_of_In in Hin.
  destruct (isExplicitLoopbackPattern p hostname) eqn:Hlo.
  - intros _. left. split; [|by exists p]. apply (explicit_loopback p); [apply to_lower_idemp|done].
  - destruct (truthy_some (findExactLanPattern host hostname allowlist)) as [q|] eqn:Hq; [|done]. intros _. right.
    apply truthy_some_spec in Hq as [Hq _]. apply exact_lan in Hq as (Hlan & Hin' & Hq). split; [done|by exists q].
Qed.

(** A public host, with or without its port, is allowed exactly when some
    pattern of the allowlist matches it as a wildcard; the guard asks for an
    approval when none does. *)
Theorem egress_public target allowlist :
  let parsed := parseHost target in
  let host := to_lower (ph_host parsed) in
  let hostname := to_lower (ph_hostname parsed) in
  ph_invalidReason parsed = None → truthy host = true → truthy hostname = true → isPrivateOrReservedHost hostname = false →
  (isHostAllowed target allowlist = true ↔
    ∃ p, p ∈ allowlist ∧ (wildcard (to_lower (trim p)) host ∨ wildcard (to_lower (trim p)) hostname)) ∧
  (isHostAllowed target allowlist = false → approvalState (evaluateHostEgress target allowlist) = approval_required).
Proof.
  intros parsed host hostname Hi Hh Hn Hpub. unfold isHostAllowed, evaluateHostEgress. fold parsed. rewrite Hi. fold host hostname.
  rewrite Hh, Hpub. cbn [negb andb].
  assert (Hlow : ∀ p, matchesAllowlistPattern host p || matchesAllowlistPattern hostname p = true ↔
    wildcard (to_lower (trim p)) host ∨ wildcard (to_lower (trim p)) hostname).
  { intros p. rewrite orb_true_iff, !allowlist_pattern_exact. unfold host, hostname. by rewrite !to_lower_idemp. }
  destruct (truthy_some (find_pattern host hostname allowlist)) as [p|] eqn:Hf.
  - apply truthy_some_spec in Hf as [Hf _]. apply List.find_some in Hf as [Hin Hp]. split; [|done]. split; [|done].
    intros _. exists p. split; [by apply list_elem_of_In|by apply Hlow].
  - split; [|done]. split; [done|]. intros (p & Hin & Hp). exfalso. apply Hlow in Hp.
    destruct (find_pattern host hostname allowlist) as [q|] eqn:Hq; cbn in Hf.
    + destruct (truthy q) eqn:Htq; [done|]. destruct q; [|done]. apply List.find_some in Hq as [_ Hq]. apply Hlow in Hq.
      change (to_lower (trim "")) with "" in Hq. 
      assert (Hnil : ∀ t, wildcard "" t → t = "") by (by inversion 1).
      destruct Hq as [Hq%Hnil|Hq%Hnil]; [rewrite Hq in Hh|rewrite Hq in Hn]; done.
    + unfold find_pattern in Hq. eapply List.find_none in Hq; [|by apply list_elem_of_In]. congruence.
Qed.

(** The address of a resolved name that may be connected to. *)
Definition may_connect (target : string) (allowlist : list string) (address : string) : Prop :=
  let hostname := to_lower (ph_hostname (parseHost target)) in
  let resolved := stripIpv6Brackets (to_lower address) in
  ¬ reserved_name (to_lower resolved) ∨
  (isLoopbackAddress address = true ∧ loopback_name hostname ∧ ∃ p, p ∈ allowlist ∧ isExplicitLoopbackPattern p hostname = true) ∨
  (resolved = hostname ∧ lan_address hostname ∧ ∃ p, p ∈ allowlist ∧ to_lower (trim p) = to_lower (ph_host (parseHost target))).

Lemma private_lower h : isPrivateOrReservedHost h = isPrivateOrReservedHost (to_lower h).
Proof. unfold isPrivateOrReservedHost. by rewrite to_lower_idemp. Qed.

Lemma unblocked_may_connect target allowlist address :
  isPrivateOrReservedHost (stripIpv6Brackets (to_lower address)) && negb (isResolvedLoopbackAllowed target allowlist address) &&
    negb (isResolvedExactLanAllowed target allowlist address) = false →
  may_connect target allowlist address.
Proof.
  unfold may_connect. intros Hb. destruct (isPrivateOrReservedHost _) eqn:Hp; cbn [andb] in Hb.
  - right. apply andb_false_iff in Hb as [Hb|Hb]; apply negb_false_iff in Hb.
    + left. unfold isResolvedLoopbackAllowed in Hb. destruct (ph_invalidReason _); [done|].
      destruct (truthy_some _) as [p|] eqn:Hf; [|done]. apply truthy_some_spec in Hf as [Hf _].
      apply List.find_some in Hf as [Hin _]. apply list_elem_of_In in Hin.
      destruct (isExplicitLoopbackPattern p _) eqn:He; [|done]. cbn [negb] in Hb. split; [done|].
      split; [|by exists p]. apply (explicit_loopback p); [apply to_lower_idemp|done].
    + right. unfold isResolvedExactLanAllowed in Hb. destruct (ph_invalidReason _); [done|].
      apply andb_true_iff in Hb as [[p Hf]%bool_decide_eq_true Hr%bool_decide_eq_true].
      apply exact_lan in Hf as (Hl & Hin & Hq). split; [done|]. split; [done|]. by exists p.
  - left. intros Hr. rewrite private_lower, (reserved_is_private _ Hr (to_lower_idemp _)) in Hp. discriminate Hp.
Qed.

(** Against DNS rebinding: when the guarded lookup passes an answer on without
    an error, every address in it is public, or a loopback address of an
    explicitly allowlisted loopback host, or the exactly allowlisted LAN address
    that the target itself names; and an error of the resolver stays an error. *)
Theorem guarded_lookup_safe {E} (mk : string → E) target allowlist all error answer family :
  Forall (λ a, a ≠ "") (answer_addresses answer) →
  let result := createGuardedDnsLookup mk target allowlist all (error, answer, family) in
  (error ≠ None → result = (error, answer, family)) ∧
  (result.1.1 = None → ∀ a, a ∈ answer_addresses result.1.2 → a ≠ "" → may_connect target allowlist a).
Proof.
  intros Hne. unfold createGuardedDnsLookup. destruct error as [e|]; [split; [done|]; cbn; done|]. split; [done|].
  set (normalized := normalizeLookupCallbackResult answer family all). unfold findBlockedResolvedAddress.
  destruct (List.find _ _) as [b|] eqn:Hf; cbn [truthy_some].
  - destruct (truthy b) eqn:Hb; [done|]. destruct b; [|done]. cbn. intros _ a Ha Hane. exfalso.
    apply List.find_some in Hf as [Hin _]. apply list_elem_of_In in Hin.
    assert (Hn : "" ∈ answer_addresses answer ∨ answer_addresses normalized.1 = [""]).
    { clear -Hin. subst normalized. unfold normalizeLookupCallbackResult in *. destruct all, answer as [x|[|y ys]]; cbn in *; set_solver. }
    destruct Hn as [Hn|Hn].
    + rewrite Forall_forall in Hne. by apply (Hne "" Hn).
    + rewrite Hn in Ha. set_solver.
  - cbn. intros _ a Ha _. apply unblocked_may_connect.
    eapply List.find_none in Hf; [exact Hf|by apply list_elem_of_In].
Qed.
End Theorems.
