(* ===== verification/GuardedFetch.v ===== *)
(** * Guarded requests (packages/policy-engine/src/sandbox/http-request-policy.ts
      and [fetchAllowlisted] of network-guard.ts)

    The redirect loop of [fetchAllowlisted]: which URLs it requests, which
    redirects it follows and what it refuses to replay.  The network is an
    argument that answers each request; timeouts and aborts are its errors.  Then
    its theorems: the loop ends, asks only hosts that every allowlist allows, never
    replays a mutation and never carries credentials to another origin.  At the
    end, a platform with the promised laws, and requests on it. *)
From stdpp Require Import pretty.
From S2P Require Import Prelude.
From S2P Require Import JsString.
From S2P Require Import JsTime.
From S2P Require Import JsJson.
From S2P Require Import NetworkGuard.
From S2P Require Import IpAddresses.
From S2P Require Import Ipv4Ranges.
From S2P Require Import Ipv6Text.
From S2P Require Import Ipv6Guard.
From S2P Require Import NetworkGuardTheorems.

(** ** http-request-policy.ts *)

(** What the policy reads of a [RequestInit]; [body] tells whether there is one
    ([undefined] and [null] are none).  The header names are valid ones. *)
Record RequestInit := mkInit {
  method : option string;
  body : bool;
  credentials : option string;
  referrer : option string;
  referrerPolicy : option string;
  headers : list (string * string);
}.
Definition no_init : RequestInit := mkInit None false None None None [].

Definition SAFE_RETRY_METHODS : list string := ["GET"; "HEAD"].
Definition NEVER_FORWARD_HEADER_NAMES : list string := ["authorization"; "proxy-authorization"; "cookie"; "cookie2"].

(** The words of [NEVER_FORWARD_HEADER_PATTERN]. *)
Definition with_separators (a b : string) : list string := map (λ sep, a +:+ sep +:+ b) [""; "-"; "_"].
Definition SECRET_WORDS : list string :=
  with_separators "api" "key" ++
  concat (map (λ w, with_separators w "token") ["access"; "auth"; "csrf"; "session"]) ++
  ["token"; "secret"; "credential"; "password"].
Definition is_separator (c : ascii) : bool := Ascii.eqb c "-"%char || Ascii.eqb c "_"%char.
(** A secret word here, up to the end or a separator. *)
Definition secret_word_here (s : string) : bool :=
  existsb (λ w, starts_with w s &&
    match string_drop (String.length w) s with EmptyString => true | String c _ => is_separator c end) SECRET_WORDS.
(** [NEVER_FORWARD_HEADER_PATTERN.test(name)] on a name in lower case. *)
Fixpoint secret_word_in (at_boundary : bool) (s : string) : bool :=
  (at_boundary && secret_word_here s) ||
  match s with String c s' => secret_word_in (is_separator c) s' | EmptyString => false end.
Definition NEVER_FORWARD_HEADER_PATTERN (name : string) : bool := secret_word_in true name.

(** [c.toUpperCase()] on one code unit; the characters whose upper case is not a
    single code unit of the alphabet stay as they are. *)
Definition upper_char (c : ascii) : ascii :=
  let n := N_of_ascii c in
  if (97 <=? n)%N && (n <=? 122)%N || (224 <=? n)%N && (n <=? 254)%N && negb (n =? 247)%N
  then ascii_of_N (n - 32) else c.
Definition to_upper (s : string) : string := string_map upper_char s.

Definition normalizeMethod (m : option string) : string :=
  to_upper (match m with Some t => if truthy (trim t) then trim t else "GET" | None => "GET" end).

Definition isHttpRequestSafeToRetry (init : option RequestInit) : bool :=
  bool_decide (normalizeMethod (init ≫= method) ∈ SAFE_RETRY_METHODS).

Definition hasUntrustedRequestHeaders (hs : list (string * string)) (trustedHeaderNames : list string) : bool :=
  let trusted := List.filter truthy (map (λ name, to_lower (trim name)) trustedHeaderNames) in
  existsb (λ h : string * string,
    let normalized := to_lower h.1 in
    bool_decide (normalized ∈ NEVER_FORWARD_HEADER_NAMES) || NEVER_FORWARD_HEADER_PATTERN normalized ||
    negb (bool_decide (normalized ∈ trusted))) hs.

Section Fetch.
Context `{Platform}.

Definition resolveOrigin (u : string) : string :=
  match parse_url u with Some parsed => url_origin parsed | None => "<invalid-origin>" end.

Definition when (b : bool) (s : string) : list string := if b then [s] else [].

Definition assertSafeRedirectTransition (currentUrl nextUrl : string) (init : RequestInit) (trustedCrossOriginHeaders : list string)
    : outcome guard_error unit :=
  let currentOrigin := resolveOrigin currentUrl in
  let nextOrigin := resolveOrigin nextUrl in
  let m := normalizeMethod (method init) in
  let blockedReasons := when (negb (bool_decide (m ∈ SAFE_RETRY_METHODS))) ("method " +:+ m) ++ when (body init) "request body" in
  if (0 <? length blockedReasons)%nat
  then Err (GuardError ("Redirect blocked from " +:+ currentOrigin +:+ " to " +:+ nextOrigin +:+ ": " +:+
                        join ", " blockedReasons +:+ " cannot be replayed automatically."))
  else if bool_decide (currentOrigin = nextOrigin) then Ok tt
  else
    let crossOriginReasons :=
      when (bool_decide (credentials init = Some "include")) "included credentials" ++
      when (truthy_opt (referrer init) || (truthy_opt (referrerPolicy init) && negb (bool_decide (referrerPolicy init = Some "no-referrer"))))
        "explicit referrer authority" ++
      when (hasUntrustedRequestHeaders (headers init) trustedCrossOriginHeaders) "caller-supplied headers" in
    if (length crossOriginReasons =? 0)%nat then Ok tt
    else Err (GuardError ("Cross-origin redirect blocked from " +:+ currentOrigin +:+ " to " +:+ nextOrigin +:+ ": " +:+
                          join ", " crossOriginReasons +:+ " cannot be forwarded.")).

(** ** fetchAllowlisted *)

Record response := mkResponse {
  resp_status : Z;
  resp_location : option string;
}.

Record FetchAllowlistedOptions := mkOptions {
  fo_allowlist : list string;
  fo_additionalAllowlists : option (list (list string));
  fo_maxRedirects : option Z;
  fo_trustedCrossOriginHeaders : option (list string);
  fo_init : option RequestInit;
}.

Definition DEFAULT_FETCH_MAX_REDIRECTS : Z := 5.

(** The checks of one URL against every allowlist that applies. *)
Definition assert_url (options : FetchAllowlistedOptions) (u : string) : outcome guard_error unit :=
  _ ← assertHostAllowed u (fo_allowlist options);
  foldr (λ additional rest, if (0 <? length additional)%nat then _ ← assertHostAllowed u additional; rest else rest) (Ok tt)
    (default [] (fo_additionalAllowlists options)).

Definition guard_message (e : guard_error) : string :=
  match e with
  | GuardError m | HostNotAllowlistedError m _ => m
  | MutationOutcomeUnknown operation detail =>
      operation +:+ " unknown_after_send: the external mutation endpoint was contacted, but the final outcome is unknown; " +:+
      "manual reconciliation is required. " +:+ detail
  end.

Section Loop.
(** [fetchGuardedOnce]: the answer to a request, after the requests sent so far. *)
Variable net : list string → string → outcome guard_error response.
Variable options : FetchAllowlistedOptions.
Variable first_url : string.

Definition maxRedirects : Z := default DEFAULT_FETCH_MAX_REDIRECTS (fo_maxRedirects options).

(** The errors of a redirect, after a request was sent. *)
Definition after_send {A} (r : outcome guard_error A) : outcome guard_error A :=
  match r with
  | Err e => if isHttpRequestSafeToRetry (fo_init options) then Err e
             else Err (MutationOutcomeUnknown "fetchAllowlisted" (guard_message e))
  | Ok a => Ok a
  end.

(** The next URL of a redirect; [hops] counts it. *)
Definition next_hop (currentUrl location : string) (hops : Z) : outcome guard_error string :=
  _ ← throw_when (maxRedirects <? hops)
        (GuardError ("fetchAllowlisted blocked: too many redirects (" +:+ pretty hops +:+ ") from " +:+ redactUrlForError first_url));
  nextUrl ← match resolve_url currentUrl location with
            | Some u => Ok u
            | None => Err (GuardError ("fetchAllowlisted blocked: malformed redirect Location from " +:+ redactUrlForError first_url))
            end;
  _ ← assertSafeRedirectTransition currentUrl nextUrl (default no_init (fo_init options)) (default [] (fo_trustedCrossOriginHeaders options));
  _ ← assert_url options nextUrl;
  Ok nextUrl.

(** The loop with the requests it sends; [None] when the fuel runs out. *)
Fixpoint fetch_loop (fuel : nat) (hops : Z) (currentUrl : string) (sent : list string)
    : option (outcome guard_error response) * list string :=
  match fuel with
  | O => (None, sent)
  | S fuel' =>
      match assert_url options currentUrl with
      | Err e => (Some (Err e), sent)
      | Ok _ =>
          let sent' := sent ++ [currentUrl] in
          match net sent currentUrl with
          | Err e => (Some (Err e), sent')
          | Ok answer =>
              if (resp_status answer <? 300) || (400 <=? resp_status answer) then (Some (Ok answer), sent')
              else
                match truthy_some (resp_location answer) with
                | None => (Some (Ok answer), sent')
                | Some location =>
                    match after_send (next_hop currentUrl location (hops + 1)) with
                    | Err e => (Some (Err e), sent')
                    | Ok nextUrl => fetch_loop fuel' (hops + 1) nextUrl sent'
                    end
                end
          end
      end
  end.

(** One request more than the redirects is the most there can be. *)
Definition fetchAllowlisted : option (outcome guard_error response) * list string :=
  fetch_loop (S (Z.to_nat maxRedirects)) 0 first_url [].

Definition fetchAllowlistedOnce : outcome guard_error response * list string :=
  match assert_url options first_url with
  | Err e => (Err e, [])
  | Ok _ => (net [] first_url, [first_url])
  end.
End Loop.
End Fetch.

(** ** Reading a body *)

(** The chunks of a body, with the limit of [readBoundedResponseArrayBuffer]. *)
Fixpoint read_chunks {A} (maxBytes : Z) (totalBytes : Z) (seen : list A) (chunks : list (list A)) : outcome guard_error (list A) :=
  match chunks with
  | [] => Ok seen
  | chunk :: chunks' =>
      let totalBytes := totalBytes + Z.of_nat (length chunk) in
      if maxBytes <? totalBytes
      then Err (GuardError ("fetchAllowlisted blocked: response body exceeded " +:+ pretty maxBytes +:+ " bytes"))
      else read_chunks maxBytes totalBytes (seen ++ chunk) chunks'
  end.
Definition readBoundedResponseArrayBuffer {A} (maxBytes : Z) (chunks : list (list A)) : outcome guard_error (list A) :=
  read_chunks maxBytes 0 [] chunks.

Lemma read_bounded_exact {A} maxBytes (chunks : list (list A)) : 0 ≤ maxBytes →
  match readBoundedResponseArrayBuffer maxBytes chunks with
  | Ok bytes => bytes = concat chunks ∧ Z.of_nat (length bytes) ≤ maxBytes
  | Err _ => maxBytes < Z.of_nat (length (concat chunks))
  end.
Proof.
  intros Hmax. unfold readBoundedResponseArrayBuffer.
  assert (Hgo : ∀ chunks (seen : list A), Z.of_nat (length seen) ≤ maxBytes →
    match read_chunks maxBytes (Z.of_nat (length seen)) seen chunks with
    | Ok bytes => bytes = seen ++ concat chunks ∧ Z.of_nat (length bytes) ≤ maxBytes
    | Err _ => maxBytes < Z.of_nat (length (seen ++ concat chunks))
    end); [|by apply (Hgo chunks [])].
  clear chunks. induction chunks as [|chunk chunks IH]; intros seen Hs; cbn [read_chunks concat].
  - by rewrite app_nil_r.
  - destruct (Z.ltb_spec maxBytes (Z.of_nat (length seen) + Z.of_nat (length chunk))).
    + rewrite !length_app. lia.
    + specialize (IH (seen ++ chunk)). rewrite length_app, Nat2Z.inj_add, <-app_assoc in IH. apply IH. lia.
Qed.

(** ** What a guarded request can reach *)

Section Fetch.
Context `{Platform}.

(** A URL that every allowlist in force allows. *)
Definition url_allowed (options : FetchAllowlistedOptions) (u : string) : Prop :=
  isHostAllowed u (fo_allowlist options) = true ∧
  ∀ additional, additional ∈ default [] (fo_additionalAllowlists options) → additional ≠ [] → isHostAllowed u additional = true.

Lemma assertHostAllowed_ok u list : assertHostAllowed u list = Ok tt ↔ isHostAllowed u list = true.
Proof. unfold assertHostAllowed, isHostAllowed. destruct (allowed _); [done|]. split; [|done]. repeat case_match; done. Qed.

Lemma assertHostAllowed_cases u list : assertHostAllowed u list = Ok tt ∨ ∃ e, assertHostAllowed u list = Err e.
Proof. destruct (assertHostAllowed u list) as [[]|e]; eauto. Qed.

Lemma assert_url_ok options u : assert_url options u = Ok tt ↔ url_allowed options u.
Proof.
  unfold assert_url, url_allowed. rewrite <-assertHostAllowed_ok.
  destruct (assertHostAllowed_cases u (fo_allowlist options)) as [->|[e ->]]; cbn [mbind outcome_bind]; [|naive_solver].
  induction (default [] (fo_additionalAllowlists options)) as [|a rest IH]; cbn [foldr].
  { split; [|done]. intros _. split; [done|]. set_solver. }
  destruct a as [|p a]; cbn [length Nat.ltb Nat.leb].
  - rewrite IH. split; intros [_ Hr]; (split; [done|]); [set_solver|]. intros l Hl. apply Hr. by right.
  - destruct (assertHostAllowed_cases u (p :: a)) as [E|[e E]]; rewrite E; cbn [mbind outcome_bind].
    + rewrite IH. split; intros [_ Hr]; (split; [done|]); [|intros l Hl; apply Hr; by right].
      intros l [->|Hl]%elem_of_cons Hne; [by apply assertHostAllowed_ok|by apply Hr].
    + split; [done|]. intros [_ Hr]. specialize (Hr (p :: a) ltac:(left) ltac:(done)). apply assertHostAllowed_ok in Hr. congruence.
Qed.

Variable net : list string → string → outcome guard_error response.
Variable options : FetchAllowlistedOptions.
Variable first_url : string.

Abbreviation the_init := (default no_init (fo_init options)).
Abbreviation trusted := (default [] (fo_trustedCrossOriginHeaders options)).

(** A request that may be sent again to another URL of the origin, and one that
    may be sent to another origin. *)
Definition replayable : Prop := normalizeMethod (method the_init) ∈ SAFE_RETRY_METHODS ∧ body the_init = false.
Definition carries_authority : Prop :=
  credentials the_init = Some "include" ∨ truthy_opt (referrer the_init) = true ∨
  (truthy_opt (referrerPolicy the_init) = true ∧ referrerPolicy the_init ≠ Some "no-referrer") ∨
  hasUntrustedRequestHeaders (headers the_init) trusted = true.

Lemma when_nil b s : when b s = [] ↔ b = false.
Proof. by destruct b. Qed.

Lemma safe_redirect current next : assertSafeRedirectTransition current next the_init trusted = Ok tt →
  replayable ∧ (resolveOrigin current = resolveOrigin next ∨ ¬ carries_authority).
Proof.
  unfold assertSafeRedirectTransition, replayable, carries_authority. intros Hs.
  destruct (when _ _ ++ when (body the_init) _) as [|x xs] eqn:Eb; [|done]. cbn [length Nat.ltb Nat.leb] in Hs.
  apply app_eq_nil in Eb as [Em%when_nil Ebody%when_nil]. apply negb_false_iff, bool_decide_eq_true in Em. split; [done|].
  case_bool_decide as Ho; [by left|]. right. destruct (when _ _ ++ _) as [|x xs] eqn:Ec; [|done].
  apply app_eq_nil in Ec as [Ei%when_nil Ec]. apply app_eq_nil in Ec as [Er%when_nil Eh%when_nil].
  apply bool_decide_eq_false in Ei. apply orb_false_iff in Er as [Er Ep]. rewrite Er, Eh.
  intros [?|[?|[[Hp1 Hp2]|?]]]; [done..| |done]. rewrite Hp1 in Ep. cbn [andb] in Ep.
  apply negb_false_iff, bool_decide_eq_true in Ep. done.
Qed.

Lemma next_hop_ok current location hops next : next_hop options first_url current location hops = Ok next →
  hops ≤ maxRedirects options ∧ replayable ∧ (resolveOrigin current = resolveOrigin next ∨ ¬ carries_authority).
Proof.
  unfold next_hop. rewrite !outcome_bind_ok. intros ([] & Hh & Hn). apply throw_when_ok, Z.ltb_ge in Hh. split; [done|].
  apply outcome_bind_ok in Hn as (u & _ & Hn). apply outcome_bind_ok in Hn as ([] & Hs & Hn).
  apply outcome_bind_ok in Hn as (? & _ & Hn). injection Hn as ->. by apply safe_redirect.
Qed.

(** A URL the loop moves to after [current]. *)
Definition reached (current next : string) : Prop :=
  replayable ∧ (resolveOrigin current = resolveOrigin next ∨ ¬ carries_authority).

(** What the loop sends from [current] on: allowed URLs, each a step from the one
    before, and as many as there are redirects left. *)
Record loop_post (hops : Z) (current : string) (more : list string) : Prop := {
  post_allowed : Forall (url_allowed options) more;
  post_length : (length more ≤ S (Z.to_nat (maxRedirects options - hops)))%nat;
  post_chain : more = [] ∨ ∃ rest, more = current :: rest ∧ (rest = [] ∨ replayable) ∧
    (carries_authority → Forall (λ u, resolveOrigin u = resolveOrigin current) rest);
}.

Lemma post_one hops current : url_allowed options current → loop_post hops current [current].
Proof. intros Ha. split; [by apply Forall_singleton|cbn; lia|]. right. exists []. repeat split; [by left|done]. Qed.

Lemma fetch_loop_sent fuel : ∀ hops current sent,
  (Z.to_nat (maxRedirects options - hops) < fuel)%nat →
  ∃ result more, fetch_loop net options first_url fuel hops current sent = (Some result, sent ++ more) ∧ loop_post hops current more.
Proof.
  induction fuel as [|fuel IH]; intros hops current sent Hf; [lia|]. cbn [fetch_loop].
  destruct (assert_url options current) as [[]|e] eqn:Ha.
  2: { exists (Err e), []. rewrite app_nil_r. split; [done|]. split; [constructor|cbn; lia|by left]. }
  apply assert_url_ok in Ha.
  assert (Hstop : ∀ result : outcome guard_error response, ∃ result' more, (Some result, sent ++ [current]) = (Some result', sent ++ more) ∧ loop_post hops current more).
  { intros result. exists result, [current]. split; [done|]. by apply post_one. }
  destruct (net sent current) as [answer|e]; [|apply Hstop]. case_match; [apply Hstop|].
  destruct (truthy_some (resp_location answer)) as [location|]; [|apply Hstop].
  unfold after_send. destruct (next_hop options first_url current location (hops + 1)) as [next|e] eqn:Hn; [|destruct (isHttpRequestSafeToRetry _); apply Hstop].
  apply next_hop_ok in Hn as (Hh & Hrep & Horig).
  destruct (IH (hops + 1) next (sent ++ [current])) as (result & more & E & [Hall Hlen Hmore]); [lia|].
  exists result, (current :: more). rewrite E, <-app_assoc. split; [done|]. split; [by constructor|cbn [length]; lia|].
  right. exists more. split; [done|]. split; [by right|]. intros Hc. destruct Horig as [Ho|]; [|done].
  destruct Hmore as [->|(rest & -> & _ & Hr)]; [constructor|]. constructor; [done|].
  specialize (Hr Hc). eapply Forall_impl; [exact Hr|]. intros u Hu. cbn in *. congruence.
Qed.

Lemma fetch_sent : ∃ result sent, fetchAllowlisted net options first_url = (Some result, sent) ∧ loop_post 0 first_url sent.
Proof. unfold fetchAllowlisted. destruct (fetch_loop_sent (S (Z.to_nat (maxRedirects options))) 0 first_url []) as (r & more & E & Hp); [lia|]. eauto. Qed.

(** C19. However the servers answer, the guarded request ends after at most one
    request more than its redirect limit, and every URL it requests, the first and
    each redirect target, is allowed by its allowlist and by every additional one
    that is not empty. *)
Theorem fetch_validated :
  ∃ result sent, fetchAllowlisted net options first_url = (Some result, sent) ∧
    (length sent ≤ S (Z.to_nat (maxRedirects options)))%nat ∧ ∀ u, u ∈ sent → url_allowed options u.
Proof.
  destruct fetch_sent as (result & sent & E & [Hall Hlen _]). exists result, sent. split; [done|].
  rewrite Z.sub_0_r in Hlen. split; [done|]. by apply Forall_forall.
Qed.

(** A request that is no GET or HEAD, or that has a body, is sent at most
    once whatever the servers answer; and when a server redirects one that is no
    GET or HEAD, the caller gets the error that its outcome is unknown. *)
Theorem mutation_never_replayed :
  ¬ replayable →
  ∃ result sent, fetchAllowlisted net options first_url = (Some result, sent) ∧ (sent = [] ∨ sent = [first_url]) ∧
    ∀ answer location, url_allowed options first_url → net [] first_url = Ok answer → 300 ≤ resp_status answer < 400 →
      truthy_some (resp_location answer) = Some location → isHttpRequestSafeToRetry (fo_init options) = false →
      ∃ detail, result = Err (MutationOutcomeUnknown "fetchAllowlisted" detail).
Proof.
  intros Hrep. destruct fetch_sent as (result & sent & E & [_ _ Hchain]). exists result, sent. split; [done|]. split.
  { destruct Hchain as [->|(rest & -> & [->|]  & _)]; auto. done. }
  intros answer location Ha Hnet Hst Hloc Hsafe. revert E. unfold fetchAllowlisted. cbn [fetch_loop].
  rewrite (proj2 (assert_url_ok options first_url) Ha), Hnet.
  destruct (Z.ltb_spec (resp_status answer) 300); [lia|]. destruct (Z.leb_spec 400 (resp_status answer)); [lia|]. cbn [orb].
  rewrite Hloc. unfold after_send. destruct (next_hop _ _ _ _ _) as [next|e] eqn:Hn.
  - apply next_hop_ok in Hn as (_ & Hr & _). done.
  - rewrite Hsafe. intros [= <- _]. by eexists.
Qed.

(** A request with included credentials, a referrer of its own or a header
    that is not trusted for other origins, and an authorization, cookie or secret
    header never is, goes only to the origin of its first URL. *)
Theorem authority_stays_home :
  carries_authority →
  ∃ result sent, fetchAllowlisted net options first_url = (Some result, sent) ∧
    ∀ u, u ∈ sent → resolveOrigin u = resolveOrigin first_url.
Proof.
  intros Hc. destruct fetch_sent as (result & sent & E & [_ _ Hchain]). exists result, sent. split; [done|].
  destruct Hchain as [->|(rest & -> & _ & Hr)]; [set_solver|]. specialize (Hr Hc). rewrite Forall_forall in Hr.
  intros u [->|Hu]%elem_of_cons; [done|by apply Hr].
Qed.
End Fetch.

(** A header with a secret name is not trusted, whatever names are. *)
Lemma secret_header_untrusted name value rest trusted :
  to_lower name ∈ NEVER_FORWARD_HEADER_NAMES ∨ NEVER_FORWARD_HEADER_PATTERN (to_lower name) = true →
  hasUntrustedRequestHeaders ((name, value) :: rest) trusted = true.
Proof.
  intros Hs. unfold hasUntrustedRequestHeaders. cbn [existsb fst]. destruct Hs as [Hn| ->]; [|by rewrite orb_true_r].
  by rewrite bool_decide_eq_true_2.
Qed.

(** ** The guard on a concrete platform

    A small [URL] (scheme, host and port of http and https texts) and an [isIP]
    with the documented laws, to run the guard and its theorems. *)
Definition is_octet (part : string) : bool :=
  match part_number part with Some n => (0 <=? n) && (n <? 256) && bool_decide (pretty n = part) | None => false end.
Definition is_dotted (s : string) : bool :=
  let parts := split_char "."%char s in (length parts =? 4)%nat && forallb is_octet parts.

Definition sample_isIP (s : string) : Z :=
  if is_dotted s then 4 else match parseIpv6Groups s with Some _ => 6 | None => 0 end.

Definition sample_url (s : string) : option url :=
  match split_scheme s with
  | Some (protocol, String "/" (String "/" rest)) =>
      let authority := take_until ends_authority rest in
      let host := after_last "@"%char authority in
      let hostname :=
        match index_of "]" host with
        | Some i => string_take (S i) host
        | None => take_until (Ascii.eqb ":"%char) host
        end in
      if truthy hostname then Some (mkUrl protocol host hostname (protocol +:+ "//" +:+ host)) else None
  | _ => None
  end.

#[export] Instance sample_platform : Platform := {|
  parse_url := sample_url;
  resolve_url base text := match sample_url text with Some _ => Some text | None => None end;
  isIP := sample_isIP;
|}.

Lemma is_octet_spec part : is_octet part = true → ∃ n, 0 ≤ n < 256 ∧ pretty n = part.
Proof.
  unfold is_octet. destruct (part_number part) as [n|]; [|done]. rewrite !andb_true_iff, Z.leb_le, Z.ltb_lt, bool_decide_eq_true.
  intros [[? ?] ?]. by exists n.
Qed.

Lemma is_octet_pretty o : 0 ≤ o < 256 → is_octet (pretty o) = true.
Proof. intros Ho. unfold is_octet. destruct (octet_text o Ho) as (-> & _). rewrite bool_decide_eq_true_2 by done. by bools; lia. Qed.

#[export] Instance sample_laws : PlatformLaws.
Proof.
  split.
  - intros octets Hlen Hok. cbn [isIP sample_platform]. unfold sample_isIP. assert (is_dotted (dotted octets) = true) as ->; [|done].
    unfold is_dotted. rewrite split_dotted by (by destruct octets || done). rewrite length_map, Hlen. cbn [Nat.eqb andb].
    apply forallb_forall. intros x (o & <- & Ho)%in_map_iff. apply is_octet_pretty.
    unfold octets_ok in Hok. rewrite Forall_forall in Hok. by apply Hok, list_elem_of_In.
  - intros s. cbn [isIP sample_platform]. unfold sample_isIP. destruct (is_dotted s) eqn:Hd; [intros _|by case_match].
    unfold is_dotted in Hd. apply andb_true_iff in Hd as [Hl Ha]. apply Nat.eqb_eq in Hl. rewrite forallb_forall in Ha.
    assert (Hgo : ∀ parts, (∀ x, In x parts → is_octet x = true) → ∃ octets, length octets = length parts ∧ octets_ok octets ∧ map pretty octets = parts).
    { induction parts as [|p parts IH]; intros Hp; [by exists []; repeat split; constructor|].
      destruct (is_octet_spec p) as (n & Hn & E); [apply Hp; by left|]. destruct IH as (os & H1 & H2 & H3); [intros x Hx; apply Hp; by right|].
      exists (n :: os). cbn [length map]. rewrite H1, E, H3. split; [done|]. split; [by constructor|done]. }
    destruct (Hgo _ Ha) as (octets & H1 & H2 & H3). exists octets. split; [congruence|]. split; [done|].
    unfold dotted. rewrite H3. symmetry. apply split_char_back.
  - intros groups Hok. cbn [isIP sample_platform]. unfold sample_isIP.
    assert (is_dotted (ipv6_text groups) = false) as ->; [|by rewrite parse_text].
    unfold is_dotted. rewrite split_char_single; [done|]. apply plain_no_char; [done|by apply ipv6_text_plain].
Qed.

(** ** Runs *)

Example guard_runs :
  isHostAllowed "https://api.example.com/v1" ["*.example.com"] = true ∧
  isHostAllowed "https://example.com.evil.net/" ["example.com"; "*.example.com"] = false ∧
  isHostAllowed "http://169.254.169.254/latest/meta-data" ["*"; "169.254.169.254"] = false ∧
  isHostAllowed "http://[::ffff:a9fe:a9fe]/" ["*"] = false ∧ isHostAllowed "http : / / 10.0.0.8/" ["*"] = false ∧
  isHostAllowed "http://192.168.0.10:3002/" ["192.168.0.10:3002"] = true ∧
  isHostAllowed "http://192.168.0.10:3003/" ["192.168.0.10:3002"; "192.168.*"] = false ∧
  isHostAllowed "localhost:8080" ["localhost:*"] = true ∧ isHostAllowed "999.1.1.1" ["*"] = false.
Proof. repeat split; vm_compute; reflexivity. Qed.

(** A bare host that spells 127.0.0.1 half compressed is taken for a public one. *)
Example partially_compressed_allowed : isHostAllowed "0::ffff:127.0.0.1" ["*"] = true.
Proof. vm_compute. reflexivity. Qed.

Lemma egress_reserved_witness :
  isHostAllowed "http://192.168.0.10:3002/scrape" ["192.168.0.10:3002"] = true ∧
  lan_address "192.168.0.10" ∧ ∃ p, p ∈ ["192.168.0.10:3002"] ∧ to_lower (trim p) = "192.168.0.10:3002".
Proof.
  assert (Ha : isHostAllowed "http://192.168.0.10:3002/scrape" ["192.168.0.10:3002"] = true) by (vm_compute; reflexivity).
  split; [exact Ha|]. destruct (egress_reserved "http://192.168.0.10:3002/scrape" ["192.168.0.10:3002"]) as [[H _]|H].
  - apply (reserved_v4 192 168 0 10); [repeat constructor; lia|vm_compute; reflexivity].
  - exact Ha.
  - exfalso. vm_compute in H. repeat (apply elem_of_cons in H as [H|H]; [discriminate H|]). by apply not_elem_of_nil in H.
  - exact H.
Defined.

Lemma egress_public_witness :
  isHostAllowed "https://api.example.com:8443/x" ["*.example.com:8443"] = true ∧
  approvalState (evaluateHostEgress "https://api.example.org/x" ["*.example.com"]) = approval_required.
Proof.
  split.
  - apply (egress_public "https://api.example.com:8443/x" ["*.example.com:8443"]); [reflexivity..|].
    exists "*.example.com:8443". split; [by left|left]. apply (wild_star ".example.com:8443" "api"). repeat (constructor; [discriminate|]).
    constructor.
  - apply (egress_public "https://api.example.org/x" ["*.example.com"]); [reflexivity..|vm_compute; reflexivity].
Defined.

Lemma guarded_lookup_safe_witness :
  let result := createGuardedDnsLookup GuardError "https://api.example.com/" ["*.example.com"] false
    (None, addresses [mkAddress "93.184.216.34" 4; mkAddress "10.0.0.1" 4], None) in
  result.1.1 = None ∧ ∀ a, a ∈ answer_addresses result.1.2 → a ≠ "" → may_connect "https://api.example.com/" ["*.example.com"] a.
Proof.
  split; [vm_compute; reflexivity|].
  apply (guarded_lookup_safe GuardError "https://api.example.com/" ["*.example.com"] false None
    (addresses [mkAddress "93.184.216.34" 4; mkAddress "10.0.0.1" 4]) None); [repeat constructor; discriminate|vm_compute; reflexivity].
Defined.

Definition post_options : FetchAllowlistedOptions :=
  mkOptions ["*.example.com"] None None None (Some (mkInit (Some "post") true None None None [("Authorization", "Bearer x")])).
Definition get_options : FetchAllowlistedOptions :=
  mkOptions ["*.example.com"] None None (Some ["Authorization"]) (Some (mkInit None false None None None [("Authorization", "Bearer x")])).
(** Every server redirects to the same address. *)
Definition redirecting (location : string) : list string → string → outcome guard_error response :=
  λ _ _, Ok (mkResponse 307 (Some location)).

Lemma mutation_never_replayed_witness :
  ∃ detail, fetchAllowlisted (redirecting "https://b.example.com/") post_options "https://a.example.com/" =
    (Some (Err (MutationOutcomeUnknown "fetchAllowlisted" detail)), ["https://a.example.com/"]).
Proof.
  destruct (mutation_never_replayed (redirecting "https://b.example.com/") post_options "https://a.example.com/")
    as (result & sent & E & Hs & H).
  - intros [_ H]. discriminate H.
  - destruct (H (mkResponse 307 (Some "https://b.example.com/")) "https://b.example.com/") as [detail Hd].
    + split; [vm_compute; reflexivity|]. intros l Hl. by apply not_elem_of_nil in Hl.
    + reflexivity.
    + cbn. lia.
    + reflexivity.
    + vm_compute. reflexivity.
    + exists detail. rewrite E, Hd. f_equal. destruct Hs as [-> | ->]; [|reflexivity].
      vm_compute in E. discriminate E.
Defined.

Lemma authority_stays_home_witness :
  ∃ result sent, fetchAllowlisted (redirecting "https://b.example.com/") get_options "https://a.example.com/" = (Some result, sent) ∧
    ∀ u, u ∈ sent → resolveOrigin u = resolveOrigin "https://a.example.com/".
Proof.
  apply (authority_stays_home (redirecting "https://b.example.com/") get_options "https://a.example.com/").
  right. right. right. vm_compute. reflexivity.
Defined.
