(* ===== verification/FileSystem.v ===== *)
(** * Paths and file systems

    What the source uses of node:path on POSIX, on texts and on lists of names,
    and of node:fs over a tree of files, directories and symbolic links. *)
From S2P Require Import Prelude.
From S2P Require Import JsString.

Abbreviation path := (list string).

(** A name of a normal path: not empty, no slash, neither [.] nor [..]. *)
Definition plain_name (s : string) : bool :=
  negb (bool_decide (s = "")) && negb (bool_decide (s = ".")) && negb (bool_decide (s = "..")) &&
  negb (string_existsb (Ascii.eqb "/"%char) s).
Definition plain_path (p : path) : Prop := Forall (λ s, plain_name s = true) p.

(** [path.isAbsolute(text)]. *)
Definition isAbsolute (text : string) : bool := starts_with "/" text.

(** The names of a text, and how the normalisation takes one of them: the empty
    name and [.] are dropped, [..] takes the last name away if there is one. *)
Definition names (text : string) : list string := split_char "/"%char text.
Definition push_name (acc : path) (s : string) : path :=
  if bool_decide (s = "") || bool_decide (s = ".") then acc
  else if bool_decide (s = "..") then removelast acc
  else acc ++ [s].
Definition push_names (acc : path) (ss : list string) : path := foldl push_name acc ss.

(** [path.resolve(...texts)] with the working directory [cwd]: what comes before
    the last absolute text is dropped. *)
Definition resolve_text (acc : path) (text : string) : path :=
  push_names (if isAbsolute text then [] else acc) (names text).
Definition path_resolve (cwd : path) (texts : list string) : path := foldl resolve_text cwd texts.

(** The text of a path, [path.dirname] and [path.relative]: the latter keeps
    the names of its result, [[]] for the empty text. *)
Definition path_text (p : path) : string := "/" +:+ join "/" p.
Definition dirname (p : path) : path := removelast p.
Definition path_relative (from to_ : path) : list string :=
  let '(ups, tail, _) := max_prefix from to_ in replicate (length ups) ".." ++ tail.

(** ** Laws *)

Lemma plain_name_spec s : plain_name s = true ↔
  s ≠ "" ∧ s ≠ "." ∧ s ≠ ".." ∧ string_existsb (Ascii.eqb "/"%char) s = false.
Proof.
  unfold plain_name. rewrite !andb_true_iff, !negb_true_iff, !bool_decide_eq_false. naive_solver.
Qed.

Lemma plain_snoc p s : plain_path (p ++ [s]) ↔ plain_path p ∧ plain_name s = true.
Proof. unfold plain_path. by rewrite Forall_app, Forall_singleton. Qed.

Lemma plain_removelast p : plain_path p → plain_path (removelast p).
Proof.
  destruct p as [|s p _] using rev_ind; [done|]. rewrite removelast_last. by intros [? _]%plain_snoc.
Qed.

Lemma push_plain acc s : plain_name s = true → push_name acc s = acc ++ [s].
Proof. intros (? & ? & ? & _)%plain_name_spec. unfold push_name. repeat case_bool_decide; done. Qed.

Lemma push_plain_names acc tail : plain_path tail → push_names acc tail = acc ++ tail.
Proof.
  intros H. revert acc. induction H as [|s tail Hs _ IH]; intros acc; cbn; [by rewrite app_nil_r|].
  unfold push_names in IH. by rewrite push_plain, IH, <-app_assoc.
Qed.

(** The names of a text hold no slash, so normalising gives plain paths. *)
Lemma names_no_slash text : Forall (λ s, string_existsb (Ascii.eqb "/"%char) s = false) (names text).
Proof.
  unfold names. induction text as [|c text IH]; [by constructor|]. cbn [split_char].
  destruct (split_char _ text) as [|w ws] eqn:E; [by apply split_char_nonnil in E|]. apply Forall_cons in IH as [Hw Hws].
  destruct (Ascii.eqb_spec c "/"%char) as [->|Hc]; [apply Forall_cons_2; [done|by apply Forall_cons_2]|].
  apply Forall_cons_2; [|done]. cbn [string_existsb]. rewrite Hw.
  rewrite orb_false_r. apply Ascii.eqb_neq. congruence.
Qed.

Lemma push_name_plain acc s :
  plain_path acc → string_existsb (Ascii.eqb "/"%char) s = false → plain_path (push_name acc s).
Proof.
  intros Hacc Hs. unfold push_name. repeat case_bool_decide; cbn; try done; [by apply plain_removelast|].
  apply plain_snoc. by rewrite plain_name_spec.
Qed.

Lemma push_names_plain acc ss : plain_path acc →
  Forall (λ s, string_existsb (Ascii.eqb "/"%char) s = false) ss → plain_path (push_names acc ss).
Proof.
  intros Hacc H. revert acc Hacc. induction H as [|s ss Hs _ IH]; intros acc Hacc; [done|].
  cbn. by apply IH, push_name_plain.
Qed.

Lemma resolve_text_plain acc text : plain_path acc → plain_path (resolve_text acc text).
Proof. intros H. apply push_names_plain; [by case_match; [constructor|]|apply names_no_slash]. Qed.

Lemma path_resolve_plain cwd texts : plain_path cwd → plain_path (path_resolve cwd texts).
Proof.
  revert cwd. induction texts as [|t texts IH]; intros cwd H; [done|]. by apply IH, resolve_text_plain.
Qed.

(** The text of a plain path resolves to that path. *)
Lemma resolve_path_text cwd p : plain_path p → path_resolve cwd [path_text p] = p.
Proof.
  intros Hp. unfold path_resolve, path_text. cbn [foldl]. unfold resolve_text.
  assert (isAbsolute ("/" +:+ join "/" p) = true) as ->.
  { unfold isAbsolute. apply starts_with_spec. by eexists. }
  assert (names ("/" +:+ join "/" p) = "" :: names (join "/" p)) as ->.
  { unfold names. change ("/" +:+ ?r) with ("" +:+ String "/"%char r). by rewrite split_char_app. }
  destruct p as [|s p]; [done|]. unfold names. rewrite split_join; [|done|].
  - cbn [push_names foldl]. exact (push_plain_names [] (s :: p) Hp).
  - eapply Forall_impl; [exact Hp|]. by intros x (_ & _ & _ & ?)%plain_name_spec.
Qed.

(** [relative] gives back the tail of a path below, and climbs otherwise. *)
Lemma path_relative_below p tail : path_relative p (p ++ tail) = tail.
Proof.
  unfold path_relative. assert (max_prefix p (p ++ tail) = ([], tail, p)) as ->; [|done].
  induction p as [|s p IH]; [by destruct tail|]. cbn. rewrite IH. by case_decide.
Qed.

Lemma path_relative_nil from to_ : path_relative from to_ = [] ↔ from = to_.
Proof.
  split; [|intros ->; rewrite <-(app_nil_r to_) at 2; apply path_relative_below].
  unfold path_relative. destruct (max_prefix from to_) as [[ups tail] k] eqn:E.
  intros [Hr ->]%app_nil. destruct ups; [|done].
  by rewrite (max_prefix_fst_alt _ _ _ _ _ E), (max_prefix_snd_alt _ _ _ _ _ E).
Qed.

Lemma path_relative_head from to_ : ¬ from `prefix_of` to_ →
  ∃ rest, path_relative from to_ = ".." :: rest.
Proof.
  intros Hn. unfold path_relative. destruct (max_prefix from to_) as [[ups tail] k] eqn:E.
  destruct ups as [|u ups]; [|by eexists]. destruct Hn. exists tail.
  by rewrite (max_prefix_fst_alt _ _ _ _ _ E), app_nil_r, (max_prefix_snd_alt _ _ _ _ _ E) at 1.
Qed.

(** ** A file system with symbolic links, as node:fs sees it *)

Inductive Node :=
  | Directory
  | RegularFile
  | SymbolicLink (text : string).
#[export] Instance Node_eq_dec : EqDecision Node.
Proof. solve_decision. Defined.

(** The entries below the root, which is a directory and has none of its own. *)
Abbreviation FileSystem := (gmap path Node).
Definition entry (fs : FileSystem) (p : path) : option Node :=
  match p with [] => Some Directory | _ => fs !! p end.
Definition is_link (n : option Node) : bool := match n with Some (SymbolicLink _) => true | _ => false end.

Inductive FsError := ENOENT | ENOTDIR | ELOOP.
#[export] Instance FsError_eq_dec : EqDecision FsError.
Proof. solve_decision. Defined.

(** The machine: its working directory, how many links a walk may follow, for
    which errors [lstatSync(p, {throwIfNoEntry: false})] returns undefined, and
    the home directories that the environment and the system name. *)
Class Host := {
  cwd : path;
  max_links : nat;
  lstat_absent : FsError → bool;
  env_HOME : option string;
  os_homedir : string;
}.
Class HostLaws (H : Host) := {
  cwd_plain : plain_path cwd;
  lstat_absent_missing : lstat_absent ENOENT = true;
}.

(** ** Walking a path

    [Follow] resolves every link, [NoFollow] all but a last one, and [Create] is
    open(2) with O_CREAT: a missing last name is where the file is created. *)
Inductive NameiMode := Follow | NoFollow | Create.
#[export] Instance NameiMode_eq_dec : EqDecision NameiMode.
Proof. solve_decision. Defined.

Definition link_start (cur : path) (text : string) : path := if isAbsolute text then [] else cur.

Fixpoint namei (fs : FileSystem) (mode : NameiMode) (links : nat) : path → list string → outcome FsError path :=
  fix walk cur ns :=
    match ns with
    | [] => Ok cur
    | x :: rest =>
        if negb (bool_decide (entry fs cur = Some Directory)) then Err ENOTDIR
        else if bool_decide (x = "") || bool_decide (x = ".") then walk cur rest
        else if bool_decide (x = "..") then walk (removelast cur) rest
        else match fs !! (cur ++ [x]) with
             | None => if bool_decide (mode = Create) && bool_decide (rest = []) then Ok (cur ++ [x]) else Err ENOENT
             | Some (SymbolicLink text) =>
                 if bool_decide (mode = NoFollow) && bool_decide (rest = []) then Ok (cur ++ [x])
                 else match links with
                      | O => Err ELOOP
                      | S links' => namei fs mode links' (link_start cur text) (names text ++ rest)
                      end
             | Some _ => walk (cur ++ [x]) rest
             end
    end.

Section calls.
Context `{Host} (fs : FileSystem).

(** [fs.realpathSync.native(p)] and [fs.existsSync(p)]. *)
Definition realpathSync (p : path) : outcome FsError path := namei fs Follow max_links [] p.
Definition existsSync (p : path) : bool := is_ok (realpathSync p).

(** [fs.lstatSync(p, { throwIfNoEntry: false })], and [fs.readlinkSync(p)] of
    the entry it found. *)
Definition lstatSync (p : path) : outcome FsError (option Node) :=
  match namei fs NoFollow max_links [] p with
  | Ok r => Ok (entry fs r)
  | Err e => if lstat_absent e then Ok None else Err e
  end.

(** Where [open(p, O_WRONLY | O_CREAT)] puts the file; a directory is refused. *)
Definition openCreate (p : path) : option path :=
  match namei fs Create max_links [] p with
  | Ok r => if bool_decide (entry fs r = Some Directory) then None else Some r
  | Err _ => None
  end.
End calls.

(** ** Well-formed file systems *)

(** Every entry has a plain name and lies in a directory. *)
Definition fs_wf (fs : FileSystem) : Prop :=
  map_Forall (λ p _, p ≠ [] ∧ entry fs (removelast p) = Some Directory ∧ plain_path p) fs.

(** A real path: an entry that is no link.  No link is above it either. *)
Definition real_path (fs : FileSystem) (p : path) : Prop :=
  is_Some (entry fs p) ∧ is_link (entry fs p) = false.

(** No link at or above [p]. *)
Definition no_links (fs : FileSystem) (p : path) : Prop :=
  ∀ k, k `prefix_of` p → is_link (fs !! k) = false.

Section wf.
Context (fs : FileSystem) (Hwf : fs_wf fs).

Lemma entry_snoc p x : entry fs (p ++ [x]) = fs !! (p ++ [x]).
Proof. by destruct p. Qed.

Lemma root_no_entry : fs !! [] = None.
Proof. destruct (fs !! []) as [n|] eqn:E; [|done]. by destruct (Hwf _ _ E). Qed.

Lemma entry_parent p x n : fs !! (p ++ [x]) = Some n → entry fs p = Some Directory ∧ plain_name x = true.
Proof.
  intros E. destruct (Hwf _ _ E) as (_ & Hp & Hn). rewrite removelast_last in Hp.
  apply plain_snoc in Hn. naive_solver.
Qed.

Lemma entry_is_lookup p : fs !! p = Some Directory → entry fs p = Some Directory.
Proof. by destruct p. Qed.

(** Above an entry there are only directories. *)
Lemma above_entry p k : is_Some (entry fs p) → k `prefix_of` p → k ≠ p → entry fs k = Some Directory.
Proof.
  revert k. induction p as [|x p IH] using rev_ind; intros k [n Hn] Hk Hne; [by apply prefix_nil_inv in Hk|].
  rewrite entry_snoc in Hn. destruct (entry_parent _ _ _ Hn) as [Hp _].
  destruct (decide (k = p)) as [->|Hkp]; [done|]. apply IH; [by rewrite Hp| |done].
  destruct Hk as [t Ht]. destruct t as [|y t _] using rev_ind; [by rewrite app_nil_r in Ht|].
  rewrite app_assoc in Ht. apply app_inj_tail in Ht as [-> _]. by apply prefix_app_r.
Qed.

Lemma real_directory p : entry fs p = Some Directory → real_path fs p.
Proof. intros E. split; rewrite E; [by eexists|done]. Qed.

Lemma real_no_links p : real_path fs p → no_links fs p.
Proof.
  intros [He Hl] k Hk. destruct (decide (k = p)) as [->|Hne].
  - destruct p; [by rewrite root_no_entry|exact Hl].
  - pose proof (above_entry _ _ He Hk Hne) as Hd. destruct k; [by rewrite root_no_entry|].
    cbn in Hd. by rewrite Hd.
Qed.

Lemma real_removelast p : entry fs p = Some Directory → entry fs (removelast p) = Some Directory.
Proof.
  intros Hd. destruct p as [|x p _] using rev_ind; [done|]. rewrite removelast_last.
  rewrite entry_snoc in Hd. by apply entry_parent in Hd as [? _].
Qed.

Lemma real_plain p : real_path fs p → plain_path p.
Proof. intros [[n Hn] _]. destruct p as [|x p]; [constructor|]. by apply (Hwf _ _ Hn). Qed.
End wf.

(** ** What a walk returns *)

Section walks.
Context (fs : FileSystem) (Hwf : fs_wf fs).

(** The equation of a walk at a name. *)
Lemma namei_cons mode links cur x rest :
  namei fs mode links cur (x :: rest) =
    if negb (bool_decide (entry fs cur = Some Directory)) then Err ENOTDIR
    else if bool_decide (x = "") || bool_decide (x = ".") then namei fs mode links cur rest
    else if bool_decide (x = "..") then namei fs mode links (removelast cur) rest
    else match fs !! (cur ++ [x]) with
         | None => if bool_decide (mode = Create) && bool_decide (rest = []) then Ok (cur ++ [x]) else Err ENOENT
         | Some (SymbolicLink text) =>
             if bool_decide (mode = NoFollow) && bool_decide (rest = []) then Ok (cur ++ [x])
             else match links with
                  | O => Err ELOOP
                  | S links' => namei fs mode links' (link_start cur text) (names text ++ rest)
                  end
         | Some _ => namei fs mode links (cur ++ [x]) rest
         end.
Proof. by destruct links. Qed.

Lemma namei_nil mode links cur : namei fs mode links cur [] = Ok cur.
Proof. by destruct links. Qed.

(** The walk follows links only a bounded number of times: induction on that
    bound and on the names left. *)
Lemma namei_ind (P : nat → path → list string → Prop) :
  (∀ links cur, P links cur []) →
  (∀ links cur x rest,
     (∀ cur', P links cur' rest) →
     (∀ links' cur' ns, links = S links' → P links' cur' ns) →
     P links cur (x :: rest)) →
  ∀ links cur ns, P links cur ns.
Proof.
  intros Hnil Hcons links. induction links as [|links IH]; intros cur ns; revert cur;
    (induction ns as [|x rest IHns]; intros cur; [apply Hnil|apply Hcons; [done|]]).
  - done.
  - intros links' cur' ns' [= <-]. apply IH.
Qed.

(** From a real path, following every link, a walk ends in a real path. *)
Lemma namei_real links cur ns r :
  real_path fs cur → namei fs Follow links cur ns = Ok r → real_path fs r.
Proof.
  revert links cur ns. refine (namei_ind _ _ _).
  - intros links cur H. by rewrite namei_nil; intros [= <-].
  - intros links cur x rest IH IHl Hcur. rewrite namei_cons.
    case_bool_decide as Hd; [|done]. cbn [negb]. case_match; [by apply IH|].
    case_match; [apply IH, real_directory, real_removelast; done|].
    destruct (fs !! (cur ++ [x])) as [[| |text]|] eqn:Hn; cbn [bool_decide andb]; [| | |done].
    1-2: apply IH; split; rewrite entry_snoc, Hn; [by eexists|done].
    destruct links as [|links']; [done|]. eapply IHl; [done|]. unfold link_start.
    case_match; [by apply real_directory|done].
Qed.

(** A walk that resolves the first names goes on from where they led. *)
Lemma namei_app links cur p r :
  namei fs Follow links cur p = Ok r →
  ∃ links', ∀ mode tail, tail ≠ [] → namei fs mode links cur (p ++ tail) = namei fs mode links' r tail.
Proof.
  revert links cur p. refine (namei_ind _ _ _).
  - intros links cur. rewrite namei_nil. intros [= <-]. by exists links.
  - intros links cur x rest IH IHl. rewrite namei_cons. case_bool_decide as Hd; [|done]. cbn [negb].
    assert (∀ cur', (namei fs Follow links cur' rest = Ok r) → ∃ links', ∀ mode tail, tail ≠ [] →
      namei fs mode links cur' (rest ++ tail) = namei fs mode links' r tail) as Hgo by (intros; by apply IH).
    destruct (bool_decide (x = "") || bool_decide (x = ".")) eqn:E1.
    { intros [l' Hl']%Hgo. exists l'. intros mode tail Ht. cbn [app].
      by rewrite namei_cons, bool_decide_eq_true_2, E1, Hl'. }
    destruct (bool_decide (x = "..")) eqn:E2.
    { intros [l' Hl']%Hgo. exists l'. intros mode tail Ht. cbn [app].
      by rewrite namei_cons, bool_decide_eq_true_2, E1, E2, Hl'. }
    destruct (fs !! (cur ++ [x])) as [[| |text]|] eqn:Hn; cbn [bool_decide andb]; [| | |done].
    1-2: intros [l' Hl']%Hgo; exists l'; intros mode tail Ht; cbn [app];
         by rewrite namei_cons, bool_decide_eq_true_2, E1, E2, Hn, Hl'.
    destruct links as [|links']; [done|]. intros [l' Hl']%IHl; [|done]. exists l'. intros mode tail Ht. cbn [app].
    rewrite namei_cons, bool_decide_eq_true_2, E1, E2, Hn by done. cbn [negb].
    rewrite (bool_decide_eq_false_2 (rest ++ tail = [])) by (by destruct rest, tail).
    by rewrite andb_false_r, app_assoc, Hl'.
Qed.
End walks.
