(* ===== verification/PathLanding.v ===== *)
(** * Where a path lands

    The relation [lands] follows the links of a path and appends the names that
    are missing: it says where a path leads whether or not its last names exist
    yet.  It depends on the links of the file system only, so it survives the
    creation of files and directories, and every successful walk ends where the
    path lands. *)
From S2P Require Import Prelude.
From S2P Require Import JsString.
From S2P Require Import FileSystem.

Definition skipped (x : string) : bool := bool_decide (x = "") || bool_decide (x = ".").
Definition ordinary (x : string) : Prop := skipped x = false ∧ x ≠ "..".

Inductive lands (fs : FileSystem) : path → list string → path → Prop :=
  | lands_nil cur : lands fs cur [] cur
  | lands_skip cur x rest q : skipped x = true → lands fs cur rest q → lands fs cur (x :: rest) q
  | lands_up cur rest q : lands fs (removelast cur) rest q → lands fs cur (".." :: rest) q
  | lands_link cur x text rest q : ordinary x → fs !! (cur ++ [x]) = Some (SymbolicLink text) →
      lands fs (link_start cur text) (names text ++ rest) q → lands fs cur (x :: rest) q
  | lands_step cur x rest q : ordinary x → is_link (fs !! (cur ++ [x])) = false →
      lands fs (cur ++ [x]) rest q → lands fs cur (x :: rest) q.
Create HintDb landing.
#[export] Hint Constructors lands : landing.

(** The same links, whatever else was created. *)
Definition same_links (fs fs' : FileSystem) : Prop :=
  ∀ p text, fs !! p = Some (SymbolicLink text) ↔ fs' !! p = Some (SymbolicLink text).

(** A link text that climbs only at its start: [../../a/b], not [a/../b]. *)
Fixpoint climbs_first (ns : list string) : bool :=
  match ns with
  | [] => true
  | x :: rest =>
      if skipped x || bool_decide (x = "..") then climbs_first rest
      else forallb (λ y, negb (bool_decide (y = ".."))) rest
  end.
Definition simple_links (fs : FileSystem) : Prop :=
  ∀ p text, fs !! p = Some (SymbolicLink text) → climbs_first (names text) = true.

(** What one name leads to. *)
Lemma lands_cons fs cur x rest q :
  lands fs cur (x :: rest) q ↔
    (skipped x = true ∧ lands fs cur rest q) ∨
    (x = ".." ∧ lands fs (removelast cur) rest q) ∨
    (ordinary x ∧ ∃ text, fs !! (cur ++ [x]) = Some (SymbolicLink text) ∧
       lands fs (link_start cur text) (names text ++ rest) q) ∨
    (ordinary x ∧ is_link (fs !! (cur ++ [x])) = false ∧ lands fs (cur ++ [x]) rest q).
Proof.
  split.
  - inversion 1; subst; eauto 10.
  - intros [[? ?]|[[-> ?]|[(? & t & ? & ?)|(? & ? & ?)]]]; eauto with landing.
Qed.

Lemma ordinary_plain x : plain_name x = true → ordinary x.
Proof.
  intros (? & ? & ? & _)%plain_name_spec. unfold ordinary, skipped.
  by rewrite !bool_decide_eq_false_2.
Qed.

Lemma lands_ordinary fs cur x rest q : ordinary x →
  lands fs cur (x :: rest) q ↔
    match fs !! (cur ++ [x]) with
    | Some (SymbolicLink text) => lands fs (link_start cur text) (names text ++ rest) q
    | _ => lands fs (cur ++ [x]) rest q
    end.
Proof.
  intros Ho. split.
  - rewrite lands_cons. destruct Ho as [Hs Hu].
    intros [[? _]|[[-> _]|[(_ & text & -> & ?)|(_ & Hn & ?)]]]; [congruence|done|done|].
    by destruct (fs !! (cur ++ [x])) as [[]|].
  - intros H. destruct (fs !! (cur ++ [x])) as [[| |text]|] eqn:E.
    1,2,4: apply lands_step; [done|by rewrite E|done].
    by eapply lands_link.
Qed.

Lemma lands_skipped fs cur x rest q : skipped x = true → lands fs cur (x :: rest) q ↔ lands fs cur rest q.
Proof.
  intros Hs. rewrite lands_cons. unfold ordinary. split; [|naive_solver].
  intros [[_ ?]|[[-> _]|[[[? _] _]|[[? _] _]]]]; [done|by vm_compute in Hs|congruence..].
Qed.

Lemma lands_climb fs cur rest q : lands fs cur (".." :: rest) q ↔ lands fs (removelast cur) rest q.
Proof.
  rewrite lands_cons. unfold ordinary. split; [|naive_solver].
  intros [[Hs _]|[[_ ?]|[[[_ ?] _]|[[_ ?] _]]]]; [by vm_compute in Hs|done..].
Qed.

Lemma name_cases x : skipped x = true ∨ x = ".." ∨ ordinary x.
Proof. unfold ordinary. destruct (skipped x), (decide (x = "..")); naive_solver. Qed.

(** A path lands in one place. *)
Lemma lands_functional fs cur ns q q' : lands fs cur ns q → lands fs cur ns q' → q = q'.
Proof.
  intros H. revert q'. induction H as [|????? _ IH|???? IH|????? Ho Hl _ IH|???? Ho Hl _ IH]; intros q'.
  - by inversion 1.
  - rewrite lands_skipped by done. apply IH.
  - rewrite lands_climb. apply IH.
  - rewrite lands_ordinary, Hl by done. apply IH.
  - rewrite lands_ordinary by done. destruct (fs !! _) as [[]|]; [apply IH..|done|apply IH].
Qed.

Lemma lands_same_links fs fs' cur ns q : same_links fs fs' → lands fs cur ns q → lands fs' cur ns q.
Proof.
  intros Hs. induction 1; eauto with landing.
  - eapply lands_link; [done|by apply Hs|done].
  - eapply lands_step; [done| |done]. destruct (fs' !! _) as [[| |t]|] eqn:E; try done.
    apply Hs in E. by rewrite E in *.
Qed.

(** A walk that returns ends where its path lands. *)
Lemma namei_lands fs mode links cur ns r :
  mode ≠ NoFollow → namei fs mode links cur ns = Ok r → lands fs cur ns r.
Proof.
  intros Hm. revert links cur ns. refine (namei_ind _ _ _).
  - intros links cur. rewrite namei_nil. intros [= <-]. constructor.
  - intros links cur x rest IH IHl. rewrite namei_cons. case_match; [done|].
    change (bool_decide (x = "") || bool_decide (x = ".")) with (skipped x).
    destruct (name_cases x) as [Hs|[->|Ho]].
    + rewrite Hs. rewrite lands_skipped by done. apply IH.
    + cbn. rewrite lands_climb. apply IH.
    + destruct Ho as [Hs Hu]. rewrite Hs, bool_decide_eq_false_2 by done. rewrite lands_ordinary by done.
      destruct (fs !! (cur ++ [x])) as [[| |text]|]; [apply IH..| |].
      * rewrite bool_decide_eq_false_2 by done. cbn [andb]. destruct links; [done|]. by apply IHl.
      * case_match eqn:E; [|done]. intros [= <-]. apply andb_true_iff in E as [_ E]. apply bool_decide_eq_true in E as ->.
        constructor.
Qed.

(** The names that a walk resolved can be left out. *)
Lemma lands_through fs links cur p d tail q :
  namei fs Follow links cur p = Ok d → lands fs cur (p ++ tail) q → lands fs d tail q.
Proof.
  revert links cur p. refine (namei_ind _ _ _).
  - intros links cur. rewrite namei_nil. by intros [= <-].
  - intros links cur x rest IH IHl. rewrite namei_cons. case_match; [done|].
    change (bool_decide (x = "") || bool_decide (x = ".")) with (skipped x). cbn [app].
    destruct (name_cases x) as [Hs|[->|Ho]].
    + rewrite Hs. rewrite lands_skipped by done. apply IH.
    + cbn. rewrite lands_climb. apply IH.
    + destruct Ho as [Hs Hu]. rewrite Hs, bool_decide_eq_false_2 by done. rewrite lands_ordinary by done.
      destruct (fs !! (cur ++ [x])) as [[| |text]|]; [apply IH..| |done].
      cbn [bool_decide andb]. destruct links; [done|]. rewrite app_assoc. by apply IHl.
Qed.

(** Below a place without links the names are appended. *)
Lemma lands_plain fs cur p tail q : plain_path p → no_links fs (cur ++ p) →
  lands fs cur (p ++ tail) q ↔ lands fs (cur ++ p) tail q.
Proof.
  intros Hp. revert cur. induction Hp as [|x p Hx Hp IH]; intros cur Hl; [by rewrite app_nil_r|].
  cbn [app]. rewrite lands_ordinary by by apply ordinary_plain.
  change (cur ++ x :: p) with (cur ++ [x] ++ p) in *. rewrite app_assoc in *.
  assert (is_link (fs !! (cur ++ [x])) = false) as Hn by (apply Hl; by eexists).
  destruct (fs !! (cur ++ [x])) as [[]|]; [by apply IH..|done|by apply IH].
Qed.

Lemma lands_self fs p q : plain_path p → no_links fs p → lands fs [] p q → q = p.
Proof.
  intros Hp Hl. rewrite <-(app_nil_r p) at 1. rewrite lands_plain by done. cbn [app]. by inversion 1.
Qed.

(** Empty names and dots can be dropped anywhere. *)
Lemma lands_drop fs cur ns a x b q : skipped x = true → ns = a ++ x :: b → lands fs cur ns q → lands fs cur (a ++ b) q.
Proof.
  intros Hx Hns H. revert a Hns. induction H as [|cur y rest q Hy H IH|cur rest q H IH|cur y text rest q Ho Hl H IH|cur y rest q Ho Hl H IH];
    intros a Hns; destruct a as [|z a]; try done; injection Hns as <- ->; cbn [app] in *.
  - done.
  - apply lands_skip; [done|]. by apply IH.
  - by vm_compute in Hx.
  - apply lands_up. by apply IH.
  - by destruct Ho as [? _]; congruence.
  - eapply lands_link; [done..|]. rewrite app_assoc. apply IH. by rewrite <-app_assoc.
  - by destruct Ho as [? _]; congruence.
  - apply lands_step; [done..|]. by apply IH.
Qed.

Definition kept (ns : list string) : list string := filter (λ x, skipped x = false) ns.

Lemma lands_kept fs ns : ∀ a cur tail q, lands fs cur (a ++ ns ++ tail) q → lands fs cur (a ++ kept ns ++ tail) q.
Proof.
  induction ns as [|x ns IH]; intros a cur tail q H; [done|]. unfold kept. cbn [app] in H. rewrite filter_cons.
  destruct (decide (skipped x = false)) as [Hs|Hs].
  - change (a ++ (x :: ?l) ++ tail) with (a ++ [x] ++ l ++ tail). rewrite app_assoc. apply IH. by rewrite <-app_assoc.
  - apply IH. eapply lands_drop; [|reflexivity|exact H]. by destruct (skipped x).
Qed.

Lemma push_kept cur ns : forallb (λ y, negb (bool_decide (y = ".."))) ns = true → push_names cur ns = cur ++ kept ns.
Proof.
  revert cur. induction ns as [|x ns IH]; intros cur; [by rewrite app_nil_r|]. cbn [forallb].
  rewrite andb_true_iff, negb_true_iff, bool_decide_eq_false. intros [Hx Hns]. unfold kept. rewrite filter_cons.
  change (push_names cur (x :: ns)) with (push_names (push_name cur x) ns). rewrite IH by done. unfold push_name.
  change (bool_decide (x = "") || bool_decide (x = ".")) with (skipped x).
  destruct (skipped x) eqn:E; case_decide; try congruence; [done|].
  rewrite bool_decide_eq_false_2 by done. by rewrite <-app_assoc.
Qed.

Lemma no_links_prefix fs p k : no_links fs p → k `prefix_of` p → no_links fs k.
Proof. intros H Hk l Hl. apply H. by etrans. Qed.

Lemma removelast_prefix (p : path) : removelast p `prefix_of` p.
Proof. destruct p as [|x p _] using rev_ind; [done|]. rewrite removelast_last. by eexists. Qed.

(** A text that climbs only at its start lands where its normal form does. *)
Lemma lands_push fs ns : ∀ cur tail q, plain_path cur → no_links fs cur → climbs_first ns = true →
  lands fs cur (ns ++ tail) q → lands fs [] (push_names cur ns ++ tail) q.
Proof.
  induction ns as [|x ns IH]; intros cur tail q Hp Hl Hc H.
  - cbn [push_names foldl app] in *. by apply lands_plain.
  - cbn [app climbs_first] in *. change (push_names cur (x :: ns)) with (push_names (push_name cur x) ns).
    destruct (name_cases x) as [Hs|[->|[Hs Hu]]].
    + rewrite Hs in Hc. rewrite lands_skipped in H by done. unfold push_name.
      change (bool_decide (x = "") || bool_decide (x = ".")) with (skipped x). rewrite Hs. by apply IH.
    + rewrite lands_climb in H. cbn in Hc. change (push_name cur "..") with (removelast cur).
      apply IH; [by apply plain_removelast|eapply no_links_prefix; [done|apply removelast_prefix]|done|done].
    + rewrite Hs, bool_decide_eq_false_2 in Hc by done. unfold push_name.
      change (bool_decide (x = "") || bool_decide (x = ".")) with (skipped x).
      rewrite Hs, bool_decide_eq_false_2, push_kept by done.
      rewrite <-!app_assoc. cbn [app]. change (cur ++ x :: ?l) with (cur ++ [x] ++ l). rewrite app_assoc.
      apply lands_kept. rewrite <-app_assoc. by apply lands_plain.
Qed.
