(* ===== verification/PathJail.v ===== *)
(** * The path jail (packages/policy-engine/src/sandbox/path-jail.ts)

    Which paths a tool may write and read: a target is resolved through its
    closest existing ancestor, dangling links included, and must lie in a root.
    The file system does not change during one call; the platform is POSIX. *)
From S2P Require Import Prelude.
From S2P Require Import JsString.
From S2P Require Import FileSystem.

Definition MAX_SYMLINK_HOPS : nat := 40.

Record ReadPathAccessDecision := mkAccess {
  resolvedPath : path;
  withinRoots : bool;
}.

(** What a call throws: an error of the file system or one of its own. *)
Inductive path_error :=
  | FsThrows (e : FsError)
  | PathThrows (message : string).
Abbreviation pres := (outcome path_error).
Definition fs_call {A} (r : outcome FsError A) : pres A :=
  match r with Ok a => Ok a | Err e => Err (FsThrows e) end.

(** [{ roots, scope }]. *)
Record rootGuard := mkGuard { guard_roots : list string; guard_scope : string }.

(** ** Containment *)

(** [rel.split(/[\\/]+/u)]. *)
Definition is_path_separator (c : ascii) : bool := Ascii.eqb c "/"%char || Ascii.eqb c "\"%char.
Fixpoint split_runs (f : ascii → bool) (s : string) : list string :=
  match s with
  | EmptyString => [""]
  | String c s' =>
      if f c then
        match s' with
        | String d _ => if f d then split_runs f s' else "" :: split_runs f s'
        | EmptyString => "" :: split_runs f s'
        end
      else
        match split_runs f s' with
        | w :: ws => String c w :: ws
        | [] => [String c ""]
        end
  end.

Definition isWithin (root target : path) : bool :=
  let rel := join "/" (path_relative root target) in
  if bool_decide (rel = "") then true
  else if isAbsolute rel then false
  else negb (bool_decide (".." ∈ split_runs is_path_separator rel)).

Section jail.
Context `{Host} (fs : FileSystem).

Definition normalizedRootsForComparison (root : string) : list path :=
  let resolvedRoot := path_resolve cwd [root] in
  match realpathSync fs resolvedRoot with
  | Ok realRoot => if bool_decide (realRoot = resolvedRoot) then [resolvedRoot] else [resolvedRoot; realRoot]
  | Err _ => [resolvedRoot]
  end.

Definition isWithinAnyRoot (target : path) (roots : list string) : bool :=
  existsb (λ root, existsb (λ normalizedRoot, isWithin normalizedRoot target) (normalizedRootsForComparison root)) roots.

Definition matchingLexicalRoots (target : path) (roots : list string) : list path :=
  List.filter (λ root, isWithin root target) (map (λ root, path_resolve cwd [root]) roots).

Definition assertWithinRoots (target : path) (roots : list string) (scope : string) : pres unit :=
  throw_when (negb (isWithinAnyRoot target roots))
    (PathThrows ("Path is outside " +:+ scope +:+ ": " +:+ path_text target)).

Definition canCreateMissingJailRoot (existingAncestor : path) (lexicalRoots : list path) : bool :=
  existsb (λ root, negb (isWithin root existingAncestor) && isWithin existingAncestor root) lexicalRoots.

(** Both paths are normal already. *)
Definition sameFilesystemPath (left right : path) : bool := bool_decide (left = right).

(** ** Resolution *)

(** [if (rootGuard) assertWithinRoots(...)]. *)
Definition guard_within (target : path) (g : option rootGuard) : pres unit :=
  match g with
  | Some g => assertWithinRoots target (guard_roots g) (guard_scope g)
  | None => Ok tt
  end.

(** The [existsSync(probe)] branch. *)
Definition existing_ancestor (g : option rootGuard) (lexicalRoots : list path) (absoluteTarget probe : path) : pres path :=
  realExisting ← fs_call (realpathSync fs probe);
  let finish :=
    if bool_decide (probe = absoluteTarget) then Ok realExisting
    else
      let resolvedPath := push_names realExisting (path_relative probe absoluteTarget) in
      _ ← guard_within resolvedPath g;
      Ok resolvedPath in
  match g with
  | None => finish
  | Some g' =>
      if negb (isWithinAnyRoot realExisting (guard_roots g')) && canCreateMissingJailRoot probe lexicalRoots then
        if negb (sameFilesystemPath realExisting probe)
        then Err (PathThrows ("Path is outside " +:+ guard_scope g' +:+ ": " +:+ path_text realExisting))
        else Ok absoluteTarget
      else _ ← assertWithinRoots realExisting (guard_roots g') (guard_scope g'); finish
  end.

(** The target of a dangling link at [probe], with the rest of the path. *)
Definition follow_dangling (absoluteTarget probe : path) (text : string) : pres path :=
  directory ← fs_call (realpathSync fs (dirname probe));
  Ok (push_names (resolve_text directory text) (path_relative probe absoluteTarget)).

(** The [while (true)] loop: [rprobe] is the probe from its last name up, and
    [hops] the links it may still follow, so every turn makes one of them
    smaller. *)
Section loop.
Context (targetPath : string) (g : option rootGuard) (lexicalRoots : list path).

Fixpoint probe_loop (hops : nat) : path → list string → pres path :=
  fix up absoluteTarget rprobe :=
    let probe := reverse rprobe in
    link ← fs_call (lstatSync fs probe);
    match link with
    | Some (SymbolicLink text) =>
        if negb (existsSync fs probe) then
          match hops with
          | O => Err (PathThrows ("Path traverses too many symbolic links: " +:+ targetPath))
          | S hops' =>
              target ← follow_dangling absoluteTarget probe text;
              probe_loop hops' target (reverse target)
          end
        else existing_ancestor g lexicalRoots absoluteTarget probe
    | _ =>
        if existsSync fs probe then existing_ancestor g lexicalRoots absoluteTarget probe
        else match rprobe with
             | [] => _ ← guard_within absoluteTarget g; Ok absoluteTarget
             | _ :: rparent => up absoluteTarget rparent
             end
    end.
End loop.

Definition resolvePathViaExistingAncestor (targetPath : string) (g : option rootGuard) : pres path :=
  let absoluteTarget := path_resolve cwd [targetPath] in
  let lexicalRoots := match g with Some g => matchingLexicalRoots absoluteTarget (guard_roots g) | None => [] end in
  probe_loop targetPath g lexicalRoots MAX_SYMLINK_HOPS absoluteTarget (reverse absoluteTarget).

(** ** The assertions *)

Definition assertWritePathInJail (targetPath : string) (writeJailRoots : list string) : pres path :=
  resolvedTarget ← resolvePathViaExistingAncestor targetPath (Some (mkGuard writeJailRoots "write jail"));
  _ ← assertWithinRoots resolvedTarget writeJailRoots "write jail";
  Ok resolvedTarget.

Definition resolveReadPathAccess (targetPath : string) (writeJailRoots readOnlyRoots : list string)
    : pres ReadPathAccessDecision :=
  resolved ← resolvePathViaExistingAncestor targetPath None;
  Ok (mkAccess resolved (isWithinAnyRoot resolved (writeJailRoots ++ readOnlyRoots))).

Definition assertReadPathAllowed (targetPath : string) (writeJailRoots readOnlyRoots : list string) : pres unit :=
  access ← resolveReadPathAccess targetPath writeJailRoots readOnlyRoots;
  throw_when (negb (withinRoots access))
    (PathThrows ("Path is outside read allowlist: " +:+ path_text (resolvedPath access))).

Definition assertExistingPathRealpathAllowed (targetPath : string) (writeJailRoots readOnlyRoots : list string)
    : pres unit :=
  resolvedTarget ← fs_call (realpathSync fs (path_resolve cwd [targetPath]));
  assertWithinRoots resolvedTarget (writeJailRoots ++ readOnlyRoots) "read allowlist".
End jail.

(** ** Tests: the cases of path-jail.test.ts *)

Module PathJailExamples.
#[export] Instance linux : Host := {|
  cwd := ["w"]; max_links := 40; lstat_absent := λ e, bool_decide (e = ENOENT);
  env_HOME := Some "/home/ana"; os_homedir := "/home/ana" |}.
#[export] Instance linux_laws : HostLaws linux.
Proof. split; [by repeat constructor|done]. Qed.

Definition tree : FileSystem := list_to_map [
  (["w"], Directory); (["w"; "workspace"], Directory); (["w"; "workspace"; "a.txt"], RegularFile);
  (["out"], Directory); (["out"; "d"], Directory); (["out"; "secret"], RegularFile);
  (["w"; "workspace"; "link-out"], SymbolicLink "/out");
  (["w"; "workspace"; "out.txt"], SymbolicLink "../outside.txt");
  (["w"; "workspace"; "link"], SymbolicLink "/w/workspace/later");
  (["w"; "workspace"; "p"], SymbolicLink "q"); (["w"; "workspace"; "q"], SymbolicLink "p");
  (["w"; "workspace"; "x"], SymbolicLink "/out/d");
  (["w"; "workspace"; "tricky"], SymbolicLink "x/../new")].

Definition jail := ["./workspace"].
Example jail_cases :
  assertWritePathInJail tree "./workspace/file.txt" jail = Ok ["w"; "workspace"; "file.txt"] ∧
  is_ok (assertWritePathInJail tree "./workspace/../secret.txt" jail) = false ∧
  assertWritePathInJail tree "./workspace/..note.txt" jail = Ok ["w"; "workspace"; "..note.txt"] ∧
  assertWritePathInJail tree "missing/verification/proof.md" ["missing"] = Ok ["w"; "missing"; "verification"; "proof.md"] ∧
  is_ok (assertWritePathInJail tree "missing-sibling/proof.md" ["missing"]) = false ∧
  is_ok (assertWritePathInJail tree "workspace/link-out/pwned.txt" jail) = false ∧
  is_ok (assertWritePathInJail tree "workspace/link-out/missing/pwned.txt" jail) = false ∧
  is_ok (assertWritePathInJail tree "workspace/out.txt" jail) = false ∧
  assertWritePathInJail tree "workspace/p" jail = Err (PathThrows "Path traverses too many symbolic links: workspace/p") ∧
  assertWritePathInJail tree "workspace/link/x.txt" jail = Ok ["w"; "workspace"; "later"; "x.txt"] ∧
  is_ok (assertReadPathAllowed tree "workspace/link-out/secret" jail []) = false ∧
  assertReadPathAllowed tree "workspace/a.txt" jail [] = Ok tt.
Proof. vm_compute. done. Qed.
End PathJailExamples.
