(* ===== verification/PathJailTheorems.v ===== *)
(** * Theorems about the path jail

    The path that a write is checked at has no symbolic link above it and lies in
    a root; a file opened at the requested path is created there, whatever
    directories and files appeared in between, unless a link's text climbs after
    it descends.  Reads of existing paths end inside the roots.  Ordinary paths
    in a root are accepted. *)
From S2P Require Import Prelude.
From S2P Require Import JsString.
From S2P Require Import FileSystem.
From S2P Require Import PathLanding.
From S2P Require Import PathJail.

(** ** Containment *)

Lemma split_runs_sep f c s : f c = true → ∃ rest, split_runs f (String c s) = "" :: rest.
Proof.
  revert c. induction s as [|d s IH]; intros c Hc; [cbn; rewrite Hc; by eexists|].
  change (split_runs f (String c (String d s))) with
    (if f c then if f d then split_runs f (String d s) else "" :: split_runs f (String d s)
     else match split_runs f (String d s) with w :: ws => String c w :: ws | [] => [String c ""] end).
  rewrite Hc. destruct (f d) eqn:E; [by apply IH|by eexists].
Qed.

Lemma split_runs_head f w c s : string_existsb f w = false → f c = true →
  ∃ rest, split_runs f (w +:+ String c s) = w :: rest.
Proof.
  intros Hw Hc. induction w as [|d w IH]; [by apply split_runs_sep|]. cbn [string_existsb] in Hw.
  apply orb_false_iff in Hw as [Hd Hw]. destruct (IH Hw) as [rest Hr]. exists rest.
  change (String d w +:+ String c s) with (String d (w +:+ String c s)). cbn [split_runs]. by rewrite Hd, Hr.
Qed.

Lemma split_runs_single f w : string_existsb f w = false → split_runs f w = [w].
Proof.
  induction w as [|d w IH]; [done|]. cbn [string_existsb split_runs]. intros [-> Hw]%orb_false_iff. by rewrite IH.
Qed.

(** Names without separators are split apart again. *)
Definition simple_name (s : string) : Prop := plain_name s = true ∧ string_existsb is_path_separator s = false.
Definition simple_path (p : path) : Prop := Forall simple_name p.

Lemma split_runs_join p : p ≠ [] → simple_path p → split_runs is_path_separator (join "/" p) = p.
Proof.
  induction p as [|s p IH]; [done|]. intros _ [[Hn Hs] Hp]%Forall_cons.
  destruct p as [|t p]; [by apply split_runs_single|]. specialize (IH ltac:(done) Hp).
  assert (t ≠ "") as Ht by (apply Forall_cons in Hp as [[(? & _)%plain_name_spec _] _]; done).
  assert (string_existsb is_path_separator t = false) as Hts by (apply Forall_cons in Hp as [[_ ?] _]; done).
  change (join "/" (s :: t :: p)) with (s +:+ String "/" (join "/" (t :: p))). clear Hn.
  induction s as [|c s IHs].
  - change ("" +:+ ?r) with r. cbn [split_runs]. change (is_path_separator "/") with true. cbn iota.
    rewrite IH. destruct (join "/" (t :: p)) as [|d r] eqn:E; [by destruct p, t|].
    assert (is_path_separator d = false) as ->; [|done].
    destruct t as [|d' t]; [done|]. cbn [string_existsb] in Hts. apply orb_false_iff in Hts as [Hd' _].
    destruct p; cbn in E; injection E as <- _; done.
  - cbn [string_existsb] in Hs. apply orb_false_iff in Hs as [Hc Hs].
    change (String c s +:+ ?r) with (String c (s +:+ r)). cbn [split_runs]. rewrite Hc. by rewrite IHs.
Qed.

Lemma isWithin_below root target : isWithin root target = true → root `prefix_of` target.
Proof.
  destruct (decide (root `prefix_of` target)) as [|Hn]; [done|]. unfold isWithin.
  destruct (path_relative_head _ _ Hn) as [rest ->]. intros H. exfalso. revert H.
  assert (∃ more, split_runs is_path_separator (join "/" (".." :: rest)) = ".." :: more) as [more Hm].
  { destruct rest as [|s rest]; [by eexists|].
    change (join "/" (".." :: s :: rest)) with (".." +:+ String "/" (join "/" (s :: rest))).
    by apply split_runs_head. }
  rewrite Hm, (bool_decide_eq_true_2 (".." ∈ _)) by left.
  rewrite bool_decide_eq_false_2; [by case_match|]. by destruct rest.
Qed.

Lemma isWithin_app root tail : simple_path tail → isWithin root (root ++ tail) = true.
Proof.
  intros Ht. unfold isWithin. rewrite path_relative_below. case_bool_decide as E; [done|].
  assert (tail ≠ []) as Hne by (by intros ->).
  assert (isAbsolute (join "/" tail) = false) as ->.
  { destruct tail as [|s tail]; [done|]. apply Forall_cons in Ht as [[(He & _ & _ & Hs)%plain_name_spec _] _].
    destruct s as [|c s]; [done|]. cbn [string_existsb] in Hs. apply orb_false_iff in Hs as [Hc _].
    assert (∃ r, join "/" (String c s :: tail) = String c r) as [r ->] by (destruct tail; by eexists).
    unfold isAbsolute, starts_with. cbn [String.prefix]. destruct (ascii_dec "/" c) as [<-|]; [by rewrite Ascii.eqb_refl in Hc|done]. }
  rewrite split_runs_join by done. rewrite bool_decide_eq_false_2; [done|].
  intros Hin. unfold simple_path in Ht. rewrite Forall_forall in Ht. destruct (Ht _ Hin) as [(_ & _ & Hd & _)%plain_name_spec _]. done.
Qed.

(** ** The loop over the ancestors *)

Section loop.
Context `{H : Host} (fs : FileSystem) (Hwf : fs_wf fs).

Lemma root_real : real_path fs [].
Proof. by apply real_directory. Qed.

Lemma realpath_real p r : realpathSync fs p = Ok r → real_path fs r.
Proof. unfold realpathSync. intros E. eapply namei_real; [done|apply root_real|exact E]. Qed.

(** What a single name below a resolved directory is to the three modes. *)
Lemma namei_single mode links r x : ordinary x →
  namei fs mode links r [x] =
    if negb (bool_decide (entry fs r = Some Directory)) then Err ENOTDIR
    else match fs !! (r ++ [x]) with
         | None => if bool_decide (mode = Create) then Ok (r ++ [x]) else Err ENOENT
         | Some (SymbolicLink text) =>
             if bool_decide (mode = NoFollow) then Ok (r ++ [x])
             else match links with
                  | O => Err ELOOP
                  | S links' => namei fs mode links' (link_start r text) (names text)
                  end
         | Some _ => Ok (r ++ [x])
         end.
Proof.
  intros [Hs Hu]. rewrite namei_cons. change (bool_decide (x = "") || bool_decide (x = ".")) with (skipped x).
  rewrite Hs, (bool_decide_eq_false_2 (x = "..")) by done. case_match; [done|].
  destruct (fs !! (r ++ [x])) as [[| |text]|]; rewrite ?namei_nil, ?andb_true_r; [done..| |done].
  case_match; [done|]. destruct links; [done|]. by rewrite app_nil_r.
Qed.

(** The name below the closest existing ancestor: nothing is there. *)
Definition examined (probe : path) (tail : list string) : Prop :=
  match tail with
  | [] => True
  | x :: _ => existsSync fs (probe ++ [x]) = false ∧
              ∀ text, lstatSync fs (probe ++ [x]) ≠ Ok (Some (SymbolicLink text))
  end.

Lemma missing_child probe x r : realpathSync fs probe = Ok r → plain_name x = true →
  examined probe [x] → fs !! (r ++ [x]) = None.
Proof.
  intros Hr Hx%ordinary_plain [He Hl]. destruct (fs !! (r ++ [x])) as [n|] eqn:E; [|done]. exfalso.
  destruct (entry_parent _ Hwf _ _ _ E) as [Hd _]. destruct (namei_app _ _ _ _ _ Hr) as [links' Ha].
  unfold existsSync, realpathSync in He. unfold lstatSync in Hl. rewrite Ha in He, Hl by done.
  rewrite namei_single, bool_decide_eq_true_2, E in He, Hl by done. cbn -[entry] in He, Hl.
  destruct n as [| |text]; [done..|]. apply (Hl text). rewrite bool_decide_eq_true_2 by done. by rewrite entry_snoc, E.
Qed.

Lemma below_missing r x t : fs !! (r ++ [x]) = None → fs !! (r ++ x :: t) = None.
Proof.
  intros E. destruct (fs !! (r ++ x :: t)) as [n|] eqn:Et; [|done].
  change (r ++ x :: t) with (r ++ [x] ++ t) in Et. rewrite app_assoc in Et. destruct t as [|y t].
  { rewrite app_nil_r in Et. congruence. }
  assert (entry fs (r ++ [x]) = Some Directory) as Hd.
  { apply above_entry with (p := (r ++ [x]) ++ y :: t); [done| |by eexists|].
    - exists n. destruct ((r ++ [x]) ++ y :: t) eqn:Ep; [by destruct r|done].
    - intros Hc%(f_equal length). rewrite !length_app in Hc. cbn in Hc. lia. }
  rewrite entry_snoc in Hd. congruence.
Qed.

Lemma tail_no_links r tail : real_path fs r →
  match tail with [] => True | x :: _ => fs !! (r ++ [x]) = None end → no_links fs (r ++ tail).
Proof.
  intros Hr Ht k Hk. destruct tail as [|x tail].
  { rewrite app_nil_r in Hk. by apply (real_no_links _ Hwf _ Hr). }
  destruct (prefix_weak_total k (r ++ [x]) _ Hk) as [Hk'|[t ->]]; [by exists tail; rewrite <-app_assoc| |].
  - destruct (decide (k = r ++ [x])) as [->|Hne]; [by rewrite Ht|]. apply (real_no_links _ Hwf _ Hr).
    destruct Hk' as [t Ht']. destruct t as [|y t _] using rev_ind; [by rewrite app_nil_r in Ht'|].
    rewrite app_assoc in Ht'. apply app_inj_tail in Ht' as [-> _]. by eexists.
  - rewrite <-app_assoc. cbn [app]. by rewrite below_missing.
Qed.

(** ** Where the resolution leads *)

Definition resolves_to (T p : path) : Prop :=
  no_links fs p ∧ plain_path p ∧ (simple_links fs → ∀ q, lands fs [] T q → lands fs [] p q).

Lemma existing_ancestor_sound g lexicalRoots probe tail p :
  plain_path (probe ++ tail) → examined probe tail →
  existing_ancestor fs g lexicalRoots (probe ++ tail) probe = Ok p → resolves_to (probe ++ tail) p.
Proof.
  intros Hp Hex Hea. unfold existing_ancestor in Hea. apply outcome_bind_ok in Hea as (r & Hr & Hea).
  destruct (realpathSync fs probe) as [r'|] eqn:Hreal; [|done]. injection Hr as ->.
  assert (real_path fs r) as Hrr by by eapply realpath_real. pose proof (real_plain _ Hwf _ Hrr) as Hrp.
  apply Forall_app in Hp as [Hpp Hpt].
  assert (match tail with [] => True | x :: _ => fs !! (r ++ [x]) = None end) as Hmiss.
  { destruct tail as [|x tail]; [done|]. eapply missing_child; [done|by apply Forall_cons in Hpt as [? _]|exact Hex]. }
  pose proof (tail_no_links _ _ Hrr Hmiss) as Hnl.
  assert (resolves_to (probe ++ tail) (r ++ tail)) as Hres.
  { split; [done|]. split; [by apply Forall_app|]. intros _ q Hq. apply lands_plain; [done|eapply no_links_prefix; [exact Hnl|by eexists]|].
    by eapply lands_through. }
  assert (∀ p', (if bool_decide (probe = probe ++ tail) then Ok r
    else _ ← guard_within fs (push_names r (path_relative probe (probe ++ tail))) g;
         Ok (push_names r (path_relative probe (probe ++ tail)))) = Ok p' → resolves_to (probe ++ tail) p') as Hfin.
  { intros p'. rewrite path_relative_below, push_plain_names by done. case_bool_decide as Heq.
    - intros [= <-]. assert (tail = []) as -> by (apply (app_inv_head probe); by rewrite app_nil_r). by rewrite !app_nil_r in *.
    - rewrite outcome_bind_ok. by intros (_ & _ & [= <-]). }
  destruct g as [g|]; [|by apply Hfin]. destruct (negb _ && _) in Hea.
  - destruct (sameFilesystemPath r probe) eqn:Hsame; [|done]. cbn in Hea. injection Hea as <-.
    apply bool_decide_eq_true in Hsame as ->. done.
  - apply outcome_bind_ok in Hea as (_ & _ & Hea). by apply Hfin.
Qed.

Lemma probe_loop_eq targetPath g lex hops T rprobe :
  probe_loop fs targetPath g lex hops T rprobe =
    let probe := reverse rprobe in
    link ← fs_call (lstatSync fs probe);
    match link with
    | Some (SymbolicLink text) =>
        if negb (existsSync fs probe) then
          match hops with
          | O => Err (PathThrows ("Path traverses too many symbolic links: " +:+ targetPath))
          | S hops' =>
              target ← follow_dangling fs T probe text;
              probe_loop fs targetPath g lex hops' target (reverse target)
          end
        else existing_ancestor fs g lex T probe
    | _ =>
        if existsSync fs probe then existing_ancestor fs g lex T probe
        else match rprobe with
             | [] => _ ← guard_within fs T g; Ok T
             | _ :: rparent => probe_loop fs targetPath g lex hops T rparent
             end
    end.
Proof. by destruct hops, rprobe. Qed.

(** A dangling link: the path goes on at the link's target. *)
Lemma follow_dangling_sound probe tail text target :
  plain_path (probe ++ tail) → lstatSync fs probe = Ok (Some (SymbolicLink text)) →
  follow_dangling fs (probe ++ tail) probe text = Ok target →
  plain_path target ∧ (simple_links fs → ∀ q, lands fs [] (probe ++ tail) q → lands fs [] target q).
Proof.
  intros Hp Hlink Hf. destruct probe as [|y dir _] using rev_ind.
  { unfold lstatSync in Hlink. by rewrite namei_nil in Hlink. }
  unfold follow_dangling, dirname in Hf. rewrite removelast_last in Hf. apply outcome_bind_ok in Hf as (d & Hd & Hf).
  destruct (realpathSync fs dir) as [d'|] eqn:Hreal; [|done]. injection Hd as ->. injection Hf as <-.
  apply Forall_app in Hp as [[Hdir Hy]%plain_snoc Htail]. rewrite path_relative_below, push_plain_names by done.
  assert (real_path fs d) as Hdr by by eapply realpath_real. pose proof (real_plain _ Hwf _ Hdr) as Hdp.
  split; [by apply Forall_app; split; [apply resolve_text_plain|]|]. intros Hsimple q Hq.
  assert (fs !! (d ++ [y]) = Some (SymbolicLink text)) as Hn.
  { destruct (namei_app _ _ _ _ _ Hreal) as [links' Ha]. unfold lstatSync in Hlink. rewrite Ha in Hlink by done.
    rewrite namei_single in Hlink by by apply ordinary_plain.
    destruct (bool_decide (entry fs d = Some Directory)); cbn [negb] in Hlink; [|by destruct (lstat_absent _)].
    destruct (fs !! (d ++ [y])) as [n|] eqn:E.
    - rewrite (bool_decide_eq_true_2 (NoFollow = NoFollow)) in Hlink by done.
      destruct n; rewrite entry_snoc, E in Hlink; by injection Hlink as <-.
    - rewrite (bool_decide_eq_false_2 (NoFollow = Create)) in Hlink by done. by destruct (lstat_absent _). }
  rewrite <-app_assoc in Hq. apply (lands_through _ _ _ _ _ _ _ Hreal) in Hq. cbn [app] in Hq.
  rewrite lands_ordinary, Hn in Hq by by apply ordinary_plain.
  unfold resolve_text. apply lands_push; [| |by eapply Hsimple|exact Hq]; unfold link_start; case_match;
    [constructor|done|apply (real_no_links _ Hwf), root_real|by apply (real_no_links _ Hwf)].
Qed.

Lemma probe_loop_sound targetPath g lex hops : ∀ T rprobe tail p,
  T = reverse rprobe ++ tail → plain_path T → examined (reverse rprobe) tail →
  probe_loop fs targetPath g lex hops T rprobe = Ok p → resolves_to T p.
Proof.
  induction hops as [|hops IHhops]; intros T rprobe; induction rprobe as [|y rprobe IH]; intros tail p HT Hp Hex Hl;
    rewrite probe_loop_eq in Hl; cbv zeta in Hl; apply outcome_bind_ok in Hl as (link & Hlink & Hl);
    (destruct (lstatSync fs _) as [link'|] eqn:Elink; [|done]); injection Hlink as ->; subst T.
  (* the root exists *)
  1, 3: unfold lstatSync in Elink; rewrite namei_nil in Elink; injection Elink as <-; cbn in Hl;
    unfold existsSync, realpathSync in Hl; rewrite namei_nil in Hl; exact (existing_ancestor_sound g lex [] tail p Hp Hex Hl).
  all: destruct (existsSync fs (reverse (y :: rprobe))) eqn:Eex;
    [destruct link as [[]|]; cbn in Hl; by eapply existing_ancestor_sound|].
  all: destruct (is_link link) eqn:Ekind; [destruct link as [[| |text]|]; try done; cbn in Hl|].
  - assert (probe_loop fs targetPath g lex 0 (reverse (y :: rprobe) ++ tail) rprobe = Ok p) as Hl'
      by by destruct link as [[]|]. clear Hl. eapply (IH (y :: tail)); [|done| |exact Hl'].
    + by rewrite reverse_cons, <-app_assoc.
    + cbn. rewrite <-reverse_cons, Elink. split; [done|]. intros text [= ->]. done.
  - apply outcome_bind_ok in Hl as (target & Hf & Hl).
    destruct (follow_dangling_sound _ _ _ _ Hp Elink Hf) as [Htp Htl].
    apply (IHhops target (reverse target) []) in Hl; [|by rewrite reverse_involutive, app_nil_r|done|done].
    destruct Hl as (? & ? & Hls). split; [done|]. split; [done|]. intros Hs q Hq. by apply Hls, Htl.
  - assert (probe_loop fs targetPath g lex (S hops) (reverse (y :: rprobe) ++ tail) rprobe = Ok p) as Hl'
      by by destruct link as [[]|]. clear Hl. eapply (IH (y :: tail)); [|done| |exact Hl'].
    + by rewrite reverse_cons, <-app_assoc.
    + cbn. rewrite <-reverse_cons, Elink. split; [done|]. intros text [= ->]. done.
Qed.
End loop.

(** ** The assertions *)

Section assertions.
Context `{H : Host} (fs : FileSystem) (Hlaws : HostLaws H) (Hwf : fs_wf fs).

(** [q] lies in a root, as it is written or as it resolves. *)
Definition in_roots (roots : list string) (q : path) : Prop :=
  ∃ root R, root ∈ roots ∧ R ∈ normalizedRootsForComparison fs root ∧ R `prefix_of` q.

Lemma within_any_root target roots : isWithinAnyRoot fs target roots = true → in_roots roots target.
Proof.
  unfold isWithinAnyRoot. rewrite existsb_exists. intros (root & Hroot & Hex).
  apply existsb_exists in Hex as (R & HR & Hw%isWithin_below). exists root, R. by rewrite !list_elem_of_In.
Qed.

Lemma resolve_sound targetPath g p : resolvePathViaExistingAncestor fs targetPath g = Ok p →
  resolves_to fs (path_resolve cwd [targetPath]) p.
Proof.
  apply (probe_loop_sound _ Hwf) with (tail := []); [by rewrite reverse_involutive, app_nil_r| |done].
  apply path_resolve_plain, Hlaws.
Qed.

Lemma opened_lands fs' p q : openCreate fs' p = Some q → lands fs' [] p q.
Proof.
  unfold openCreate. destruct (namei _ _ _ _ _) as [r|] eqn:E; [|done]. case_bool_decide; [done|].
  intros [= ->]. eapply namei_lands; [|exact E]; done.
Qed.

Lemma same_links_sym fs1 fs2 : same_links fs1 fs2 → same_links fs2 fs1.
Proof. intros Hs p text. by rewrite (Hs p text). Qed.

Lemma resolves_where targetPath g p fs' q :
  resolvePathViaExistingAncestor fs targetPath g = Ok p → same_links fs fs' → simple_links fs →
  lands fs' [] (path_resolve cwd [targetPath]) q → q = p.
Proof.
  intros (Hn & Hp & Hl)%resolve_sound Hs%same_links_sym Hsimple Hq. apply (lands_self fs); [done..|].
  apply Hl; [done|]. by eapply lands_same_links.
Qed.

Lemma jail_contained_run targetPath roots p :
  assertWritePathInJail fs targetPath roots = Ok p →
  in_roots roots p ∧
  (∀ fs' q, same_links fs fs' → openCreate fs' p = Some q → q = p) ∧
  (∀ fs' q, same_links fs fs' → simple_links fs →
     openCreate fs' (path_resolve cwd [targetPath]) = Some q → q = p).
Proof.
  unfold assertWritePathInJail. rewrite outcome_bind_ok. intros (r & Hr & Hw).
  apply outcome_bind_ok in Hw as ([] & Hw & [= ->]). apply throw_when_ok, negb_false_iff, within_any_root in Hw.
  split; [done|]. split; intros fs' q Hs.
  - apply resolve_sound in Hr as (Hn & Hp & _). intros Hq%opened_lands.
    apply (lands_self fs); [done..|]. eapply lands_same_links; [by apply same_links_sym|done].
  - intros Hsimple Hq%opened_lands. by eapply resolves_where.
Qed.

(** C20. A passed write check returns a path in a root.  A file opened there is
    created exactly there, and a file opened at the requested path as well when
    no link's text climbs after it descends; in between, directories and files
    may have been created but no links. *)
Theorem write_jail_contained targetPath roots p :
  assertWritePathInJail fs targetPath roots = Ok p →
  in_roots roots p ∧
  (∀ fs' q, same_links fs fs' → openCreate fs' p = Some q → q = p) ∧
  (∀ fs' q, same_links fs fs' → simple_links fs →
     openCreate fs' (path_resolve cwd [targetPath]) = Some q → q = p).
Proof. apply jail_contained_run. Qed.

Lemma existing_resolves targetPath q : realpathSync fs (path_resolve cwd [targetPath]) = Ok q →
  ∀ p, resolvePathViaExistingAncestor fs targetPath None = Ok p → p = q.
Proof.
  intros Hq p. unfold resolvePathViaExistingAncestor. rewrite probe_loop_eq, reverse_involutive. cbv zeta.
  rewrite outcome_bind_ok. intros (link & _ & Hl).
  assert (existsSync fs (path_resolve cwd [targetPath]) = true) as He by (unfold existsSync; by rewrite Hq).
  rewrite He in Hl. assert (existing_ancestor fs None [] (path_resolve cwd [targetPath]) (path_resolve cwd [targetPath]) = Ok p) as Ha
    by by destruct link as [[]|]. clear Hl. unfold existing_ancestor in Ha. rewrite Hq, bool_decide_eq_true_2 in Ha by done.
  cbn in Ha. congruence.
Qed.

(** A passed read check covers what is read: the file that an existing path
    resolves to lies in a write root or a read-only root, and so does any file
    that appears there later when no link's text climbs after it descends. *)
Theorem read_jail_contained targetPath writeRoots readRoots :
  assertReadPathAllowed fs targetPath writeRoots readRoots = Ok tt ∨
  assertExistingPathRealpathAllowed fs targetPath writeRoots readRoots = Ok tt →
  (∀ q, realpathSync fs (path_resolve cwd [targetPath]) = Ok q → in_roots (writeRoots ++ readRoots) q) ∧
  (assertReadPathAllowed fs targetPath writeRoots readRoots = Ok tt → ∀ fs' q,
     same_links fs fs' → simple_links fs →
     realpathSync fs' (path_resolve cwd [targetPath]) = Ok q → in_roots (writeRoots ++ readRoots) q).
Proof.
  assert (∀ p, resolvePathViaExistingAncestor fs targetPath None = Ok p →
    assertReadPathAllowed fs targetPath writeRoots readRoots = Ok tt → in_roots (writeRoots ++ readRoots) p) as Hread.
  { intros p Hp. unfold assertReadPathAllowed, resolveReadPathAccess. rewrite Hp. cbn.
    intros Hw%throw_when_ok. by apply within_any_root, negb_false_iff. }
  assert (assertReadPathAllowed fs targetPath writeRoots readRoots = Ok tt →
    ∃ p, resolvePathViaExistingAncestor fs targetPath None = Ok p) as Hok.
  { unfold assertReadPathAllowed, resolveReadPathAccess. destruct (resolvePathViaExistingAncestor _ _ _); [by eexists|done]. }
  intros Hor. split.
  - intros q Hq. destruct Hor as [Hr|He].
    + destruct (Hok Hr) as [p Hp]. rewrite <-(existing_resolves _ _ Hq _ Hp). by apply Hread.
    + unfold assertExistingPathRealpathAllowed in He. rewrite Hq in He. cbn in He.
      apply throw_when_ok in He. by apply within_any_root, negb_false_iff.
  - intros Hr fs' q Hs Hsimple Hq. destruct (Hok Hr) as [p Hp].
    assert (q = p) as ->; [|by apply Hread]. eapply resolves_where; [done..|]. eapply namei_lands; [|exact Hq]; done.
Qed.
End assertions.

(** ** Acceptance *)

Section acceptance.
Context `{H : Host} (fs : FileSystem) (Hlaws : HostLaws H) (Hwf : fs_wf fs).

(** No file where a directory is needed. *)
Definition no_file_above (p : path) : Prop := ∀ k, k `prefix_of` p → k ≠ p → fs !! k ≠ Some RegularFile.

Lemma namei_no_links mode links p : ∀ cur, mode ≠ Create →
  entry fs cur = Some Directory → plain_path p → no_links fs (cur ++ p) → no_file_above (cur ++ p) →
  namei fs mode links cur p = match entry fs (cur ++ p) with Some _ => Ok (cur ++ p) | None => Err ENOENT end.
Proof.
  induction p as [|x p IH]; intros cur Hm Hd Hp Hl Hf.
  { by rewrite app_nil_r, namei_nil, Hd. }
  apply Forall_cons in Hp as [[Hs Hu]%ordinary_plain Hp]. rewrite namei_cons, bool_decide_eq_true_2 by done.
  change (bool_decide (x = "") || bool_decide (x = ".")) with (skipped x).
  rewrite Hs, (bool_decide_eq_false_2 (x = "..")), (bool_decide_eq_false_2 (mode = Create)) by done. cbn [negb andb].
  assert (cur ++ x :: p = (cur ++ [x]) ++ p) as Happ by by rewrite <-app_assoc. rewrite Happ in *.
  destruct (fs !! (cur ++ [x])) as [[| |text]|] eqn:E.
  - apply IH; [done|by rewrite entry_snoc|done..].
  - destruct p as [|y p]; [by rewrite namei_nil, app_nil_r, entry_snoc, E|].
    exfalso. apply (Hf (cur ++ [x])); [by eexists| |done].
    intros Hc%(f_equal length). rewrite !length_app in Hc. cbn in Hc. lia.
  - exfalso. assert (is_link (fs !! (cur ++ [x])) = false) as Hn by (apply Hl; by eexists). by rewrite E in Hn.
  - assert (entry fs ((cur ++ [x]) ++ p) = None) as ->; [|done].
    rewrite <-Happ. pose proof (below_missing fs Hwf cur x p E) as Hb.
    destruct (cur ++ x :: p) eqn:Ec; [by destruct cur|exact Hb].
Qed.

Context (targetPath : string) (roots : list string) (root : string) (T : path).
Context (Hroot : root ∈ roots) (HT : path_resolve cwd [targetPath] = T).
Context (Hbelow : path_resolve cwd [root] `prefix_of` T) (Hsimple : simple_path T).
Context (Hlinks : no_links fs T) (Hfiles : no_file_above T).

Abbreviation guard := (Some (mkGuard roots "write jail")).

Lemma simple_plain p : simple_path p → plain_path p.
Proof. intros Hs. eapply Forall_impl; [exact Hs|]. by intros x [? _]. Qed.

Lemma prefix_simple p k : simple_path p → k `prefix_of` p → simple_path k.
Proof. intros Hp [t ->]. by apply Forall_app in Hp as [? _]. Qed.

Lemma isWithin_prefix p k : simple_path p → k `prefix_of` p → isWithin k p = true.
Proof. intros Hp [t ->]. apply isWithin_app. by apply Forall_app in Hp as [_ ?]. Qed.

Lemma within_root_any q : path_resolve cwd [root] `prefix_of` q → simple_path q → isWithinAnyRoot fs q roots = true.
Proof.
  intros Hq Hs. apply existsb_exists. exists root. rewrite <-list_elem_of_In. split; [done|].
  apply existsb_exists. exists (path_resolve cwd [root]). rewrite <-list_elem_of_In.
  split; [|by apply isWithin_prefix]. unfold normalizedRootsForComparison. repeat case_match; by left.
Qed.

Lemma walk_in_target mode k : mode ≠ Create → k `prefix_of` T →
  namei fs mode max_links [] k = match entry fs k with Some _ => Ok k | None => Err ENOENT end.
Proof.
  intros Hm Hk. apply (namei_no_links _ _ _ []); [done|done|by eapply simple_plain, prefix_simple|by eapply no_links_prefix|].
  intros l Hl Hne. apply Hfiles; [by etrans|]. intros ->. by apply Hne, (anti_symm prefix).
Qed.

Lemma existing_ancestor_accepts probe : probe `prefix_of` T → is_Some (entry fs probe) →
  existing_ancestor fs guard (matchingLexicalRoots T roots) T probe = Ok T.
Proof.
  intros Hp [n Hn]. unfold existing_ancestor, realpathSync. rewrite walk_in_target, Hn by done. cbn -[isWithinAnyRoot].
  assert (simple_path probe) as Hps by by eapply prefix_simple.
  assert ((if bool_decide (probe = T) then Ok probe
    else _ ← guard_within fs (push_names probe (path_relative probe T)) guard;
         Ok (push_names probe (path_relative probe T))) = Ok T) as Hfin.
  { case_bool_decide as E; [by rewrite E|]. destruct Hp as [tail Ht].
    assert (push_names probe (path_relative probe T) = T) as ->.
    { rewrite Ht, path_relative_below. apply push_plain_names, simple_plain. rewrite Ht in Hsimple.
      by apply Forall_app in Hsimple as [_ ?]. }
    cbn. unfold assertWithinRoots. by rewrite within_root_any. }
  destruct (isWithinAnyRoot fs probe roots) eqn:Ew.
  - cbn [negb andb]. unfold assertWithinRoots. rewrite Ew. exact Hfin.
  - assert (canCreateMissingJailRoot probe (matchingLexicalRoots T roots) = true) as ->.
    { apply existsb_exists. exists (path_resolve cwd [root]). split.
      - apply filter_In. split; [apply in_map_iff; exists root; by rewrite <-list_elem_of_In|by apply isWithin_prefix].
      - destruct (prefix_weak_total _ _ _ Hbelow Hp) as [Hle|Hle].
        + by rewrite within_root_any in Ew.
        + rewrite (isWithin_prefix _ _ (prefix_simple _ _ Hsimple Hbelow) Hle).
          rewrite andb_true_r, negb_true_iff. destruct (isWithin _ probe) eqn:E; [|done].
          apply isWithin_below in E. by rewrite within_root_any in Ew. }
    cbn. unfold sameFilesystemPath. by rewrite bool_decide_eq_true_2.
Qed.

Lemma probe_loop_accepts hops rprobe : reverse rprobe `prefix_of` T →
  probe_loop fs targetPath guard (matchingLexicalRoots T roots) hops T rprobe = Ok T.
Proof.
  induction rprobe as [|x rprobe IH]; intros Hp; rewrite probe_loop_eq; cbv zeta;
    unfold lstatSync, existsSync, realpathSync; rewrite !walk_in_target by done.
  - cbn [reverse]. change (entry fs (reverse [])) with (Some Directory). cbn [is_ok fs_call].
    apply existing_ancestor_accepts; [done|by eexists].
  - assert (is_link (entry fs (reverse (x :: rprobe))) = false) as Hn.
    { specialize (Hlinks _ Hp). destruct (reverse (x :: rprobe)); done. }
    destruct (entry fs (reverse (x :: rprobe))) as [n|] eqn:E.
    + cbn [fs_call]. rewrite E. cbn. destruct n; [|  |done]; apply existing_ancestor_accepts; eauto.
    + rewrite lstat_absent_missing. cbn. apply IH. etrans; [|exact Hp]. rewrite reverse_cons. by eexists.
Qed.

(** A write below a root is accepted at the requested path, whether or not
    the root, the directories and the file exist yet, when the path has no links
    above it, no file where it needs a directory, and no backslash in its names. *)
Theorem write_jail_accepts : assertWritePathInJail fs targetPath roots = Ok T.
Proof.
  unfold assertWritePathInJail, resolvePathViaExistingAncestor. rewrite HT. cbn [guard_roots].
  rewrite probe_loop_accepts by by rewrite reverse_involutive. cbn. unfold assertWithinRoots.
  by rewrite within_root_any.
Qed.
End acceptance.
