(* ===== verification/ToolWriteGate.v ===== *)
(** * The tool write gate (packages/policy-engine/src/sandbox)

    First the POSIX half of the safety rules of write-root-safety.ts for write
    roots and write targets: system, credential, profile and runtime-owned places.
    Paths are texts here, as the source compares them after resolving them again.
    Then tool-write-gate.ts: every write and delete of a tool passes this gate,
    the jail over the roots admitted for the intent, then the places that no root
    opens.  The steps that act on Windows only are left out. *)
From S2P Require Import Prelude.
From S2P Require Import JsString.
From S2P Require Import FileSystem.
From S2P Require Import PathJail.
From S2P Require Import ToolPolicy.

Inductive WriteRootRejection :=
  | control_characters
  | not_absolute
  | filesystem_root
  | drive_root
  | unc_share_root
  | system_directory
  | users_root
  | user_profile_root
  | sensitive_user_directory
  | contains_runtime_root
  | runtime_protected_path
  | not_a_directory
  | symlink_escape.
#[export] Instance WriteRootRejection_eq_dec : EqDecision WriteRootRejection.
Proof. solve_decision. Defined.

(** The context, less the injected file system calls: [realpath] and
    [isDirectory] are those of the machine. *)
Record WriteRootSafetyContext := mkSafety {
  rootDir : option string;
  protectedRuntimePaths : option (list string);
  homeDir : option string;
}.

Inductive WriteRootCanonicalization :=
  | Canonical (canonicalPath : string)
  | Rejected (rejection : WriteRootRejection) (detail : string).

(** ** Texts *)

Definition hasControlCharacters (value : string) : bool :=
  string_existsb (λ c, (N_of_ascii c <? 32)%N || (N_of_ascii c =? 127)%N) value.

(** [value.replace(/[\\/]+$/u, "")]. *)
Definition is_slash (c : ascii) : bool := Ascii.eqb c "/"%char || Ascii.eqb c "\"%char.
Fixpoint strip_end (f : ascii → bool) (s : string) : string :=
  match s with
  | EmptyString => EmptyString
  | String c s' => match strip_end f s' with
                   | EmptyString => if f c then EmptyString else String c EmptyString
                   | r => String c r
                   end
  end.

(** [p.parse(value).root]. *)
Definition parsed_root (value : string) : string := if isAbsolute value then "/" else "".
Definition stripTrailingSeparator (value : string) : string :=
  if (String.length value <=? String.length (parsed_root value))%nat then value else strip_end is_slash value.

(** [p.join(...parts)], not yet normal: every use resolves it. *)
Definition path_join (parts : list string) : string := join "/" (List.filter truthy parts).

Definition SENSITIVE_HOME_SUBPATHS := [".ssh"; ".gnupg"; ".aws"; ".azure"; ".kube"; ".docker"].
Definition SENSITIVE_POSIX_HOME_SUBPATHS := ["Library/Keychains"].
Definition POSIX_SYSTEM_DIRECTORIES :=
  ["/bin"; "/sbin"; "/usr"; "/etc"; "/boot"; "/dev"; "/proc"; "/sys"; "/lib"; "/lib32"; "/lib64"; "/libx32";
   "/System"; "/Library"; "/private/etc"].
Definition DEFAULT_PROTECTED_RUNTIME_SUBPATHS : list (list string) :=
  [["config"]; ["data"; "secrets"]; ["data"; "postgres"]; ["data"; "audit"]; ["data"; "index.db"];
   ["data"; "index.db-wal"]; ["data"; "index.db-shm"]; ["data"; "index.db-journal"]].

(** [a() ?? b()]. *)
Definition or_else {A} (a b : option A) : option A := match a with Some _ => a | None => b end.

Section safety.
Context `{Host}.

Definition resolve1 (text : string) : path := path_resolve cwd [text].

Definition isSamePathOrDescendant (root target : string) : bool :=
  let relative := join "/" (path_relative (resolve1 root) (resolve1 target)) in
  if bool_decide (relative = "") then true
  else negb (isAbsolute relative) && negb (bool_decide (relative = "..")) && negb (starts_with "../" relative).

(** ** Classification *)

Definition classifyFilesystemRoot (target : string) : option WriteRootRejection :=
  if bool_decide (stripTrailingSeparator (parsed_root target) = target) then Some filesystem_root else None.

Definition classifySystemDirectory (target : string) : option WriteRootRejection :=
  if existsb (λ dir, isSamePathOrDescendant dir target) POSIX_SYSTEM_DIRECTORIES then Some system_directory else None.

Definition resolveHomeDir (ctx : WriteRootSafetyContext) : option string :=
  let candidate := match homeDir ctx with
                   | Some h => h
                   | None => match env_HOME with Some h => h | None => os_homedir end
                   end in
  if truthy candidate then Some (stripTrailingSeparator (path_text (resolve1 candidate))) else None.

Definition sensitive_homes (home : string) : list string :=
  map (λ sub, path_join [home; sub]) (SENSITIVE_HOME_SUBPATHS ++ SENSITIVE_POSIX_HOME_SUBPATHS).

Definition classifyUserLocation (target : string) (ctx : WriteRootSafetyContext) : option WriteRootRejection :=
  match resolveHomeDir ctx with
  | Some home =>
      if negb (truthy home) then None
      else if bool_decide (home = target) then Some user_profile_root
      else if isSamePathOrDescendant target home then Some users_root
      else if existsb (λ dir, isSamePathOrDescendant dir target) (sensitive_homes home)
      then Some sensitive_user_directory
      else None
  | None => None
  end.

(** The runtime root ([undefined] when it is empty) and its protected paths. *)
Definition runtime_root (ctx : WriteRootSafetyContext) : option string :=
  match rootDir ctx with
  | Some dir => if truthy dir then Some (path_text (resolve1 dir)) else None
  | None => None
  end.
Definition protected_paths (ctx : WriteRootSafetyContext) : list string :=
  match protectedRuntimePaths ctx with
  | Some paths => paths
  | None => match runtime_root ctx with
            | Some dir => map (λ segments, path_join (dir :: segments)) DEFAULT_PROTECTED_RUNTIME_SUBPATHS
            | None => []
            end
  end.

Definition classifyRuntimeLocation (target : string) (ctx : WriteRootSafetyContext) : option WriteRootRejection :=
  if match runtime_root ctx with Some dir => isSamePathOrDescendant target dir | None => false end
  then Some contains_runtime_root
  else if existsb (λ dir, isSamePathOrDescendant dir target) (protected_paths ctx)
  then Some runtime_protected_path
  else None.

Definition classifyOperatorWriteRoot (target : string) (ctx : WriteRootSafetyContext) : option WriteRootRejection :=
  or_else (classifyFilesystemRoot target)
    (or_else (classifySystemDirectory target)
      (or_else (classifyUserLocation target ctx) (classifyRuntimeLocation target ctx))).

Definition classifyHardForbiddenWritePath (resolvedPath : string) (ctx : WriteRootSafetyContext)
    : option WriteRootRejection :=
  if hasControlCharacters resolvedPath then Some control_characters
  else if negb (isAbsolute resolvedPath) then Some not_absolute
  else classifyOperatorWriteRoot (stripTrailingSeparator (path_text (resolve1 resolvedPath))) ctx.

(** ** Operator write roots *)

Definition describeRejection (rejection : WriteRootRejection) (target : string) : string :=
  match rejection with
  | control_characters => "Folder path contains control characters."
  | not_absolute => "Folder path must be absolute."
  | filesystem_root => "The filesystem root cannot be opened to writes."
  | drive_root => "A drive root cannot be opened to writes."
  | unc_share_root => "A network share root cannot be opened to writes."
  | system_directory => "Operating-system and program folders cannot be opened to writes."
  | users_root => "The users folder (or a folder containing a user profile) cannot be opened to writes."
  | user_profile_root => "The whole user profile cannot be opened to writes; choose a folder inside it."
  | sensitive_user_directory => "Credential and key folders cannot be opened to writes."
  | contains_runtime_root => "A folder containing the GoatCitadel runtime cannot be opened to writes."
  | runtime_protected_path =>
      "GoatCitadel configuration, secrets, database, and audit folders cannot be opened to writes."
  | not_a_directory => "Path is not an existing folder."
  | symlink_escape => "Folder resolves through a link to a protected location."
  end +:+ " (" +:+ target +:+ ")".

(** [fs.statSync(target).isDirectory()], false when it throws. *)
Definition isDirectory (fs : FileSystem) (target : string) : bool :=
  match realpathSync fs (resolve1 target) with
  | Ok r => bool_decide (entry fs r = Some Directory)
  | Err _ => false
  end.

Definition canonicalizeOperatorWriteRoot (fs : FileSystem) (input : string) (ctx : WriteRootSafetyContext)
    : WriteRootCanonicalization :=
  let trimmed := trim input in
  if hasControlCharacters trimmed then Rejected control_characters "Folder path contains control characters."
  else if negb (truthy trimmed) || negb (isAbsolute trimmed) then Rejected not_absolute "Folder path must be absolute."
  else
    let lexicalPath := stripTrailingSeparator (path_text (resolve1 trimmed)) in
    match classifyOperatorWriteRoot lexicalPath ctx with
    | Some rejection => Rejected rejection (describeRejection rejection lexicalPath)
    | None =>
        match realpathSync fs (resolve1 lexicalPath) with
        | Err _ => Rejected not_a_directory ("Folder does not exist: " +:+ lexicalPath)
        | Ok r =>
            let canonicalPath := stripTrailingSeparator (path_text r) in
            if negb (isDirectory fs canonicalPath)
            then Rejected not_a_directory ("Path is not a folder: " +:+ canonicalPath)
            else match classifyOperatorWriteRoot canonicalPath ctx with
                 | Some _ => Rejected symlink_escape
                     ("Folder resolves through a link to a protected location: " +:+ canonicalPath)
                 | None => Canonical canonicalPath
                 end
        end
    end.
End safety.

(** ** tool-write-gate.ts *)

Inductive ToolWriteIntent := WriteIntent | DeleteIntent.
#[export] Instance ToolWriteIntent_eq_dec : EqDecision ToolWriteIntent.
Proof. solve_decision. Defined.

Record RuntimeWriteProtection := mkProtection { rp_rootDir : string; protectedPaths : list string }.

(** The sandbox of the configuration; [carriedAdmission] is the property under the
    process-local symbol, which no configuration file can set. *)
Record ToolSandbox := mkToolSandbox {
  writeJailRoots : list string;
  readOnlyRoots : list string;
  operatorWriteRoots : option (list OperatorWriteRoot);
  runtimeWriteProtection : option RuntimeWriteProtection;
  approvalRequiredOutside : bool;
  carriedAdmission : option (list string);
}.
#[export] Instance eta_ToolSandbox : Eta ToolSandbox := λ s,
  mkToolSandbox (writeJailRoots s) (readOnlyRoots s) (operatorWriteRoots s) (runtimeWriteProtection s)
    (approvalRequiredOutside s) (carriedAdmission s).

Definition operatorWriteRootPaths (sandbox : ToolSandbox) (intent : ToolWriteIntent) : list string :=
  match runtimeWriteProtection sandbox with
  | None => []
  | Some _ =>
      map ow_path (List.filter (λ root, bool_decide (intent = WriteIntent) || ow_allowDelete root)
                     (default [] (operatorWriteRoots sandbox)))
  end.

Definition effectiveToolWriteRoots (sandbox : ToolSandbox) (intent : ToolWriteIntent) : list string :=
  writeJailRoots sandbox ++ operatorWriteRootPaths sandbox intent.

Definition toolReadableWriteRoots (sandbox : ToolSandbox) : list string := effectiveToolWriteRoots sandbox WriteIntent.

Definition withExecutionWriteAdmission (sandbox : ToolSandbox) (admission : option (list string)) : ToolSandbox :=
  match admission with
  | Some (_ :: _) => sandbox <| carriedAdmission := admission |>
  | _ => sandbox
  end.

Definition admittedWriteRoots (sandbox : ToolSandbox) (admission : option (list string)) : list string :=
  default [] admission ++ default [] (carriedAdmission sandbox).

(** The roots in force: [if (intent === "write") roots.push(...)]. *)
Definition gate_roots (sandbox : ToolSandbox) (intent : ToolWriteIntent) (admission : option (list string)) : list string :=
  effectiveToolWriteRoots sandbox intent ++
  match intent with WriteIntent => admittedWriteRoots sandbox admission | DeleteIntent => [] end.

Definition writeSafetyContext (sandbox : ToolSandbox) : WriteRootSafetyContext :=
  match runtimeWriteProtection sandbox with
  | Some p => mkSafety (Some (rp_rootDir p)) (Some (protectedPaths p)) None
  | None => mkSafety None None None
  end.

Section gate.
Context `{Host} (fs : FileSystem).

Definition rejection_text (r : WriteRootRejection) : string :=
  match r with
  | control_characters => "control_characters" | not_absolute => "not_absolute"
  | filesystem_root => "filesystem_root" | drive_root => "drive_root" | unc_share_root => "unc_share_root"
  | system_directory => "system_directory" | users_root => "users_root"
  | user_profile_root => "user_profile_root" | sensitive_user_directory => "sensitive_user_directory"
  | contains_runtime_root => "contains_runtime_root" | runtime_protected_path => "runtime_protected_path"
  | not_a_directory => "not_a_directory" | symlink_escape => "symlink_escape"
  end.

Definition assertNotHardForbiddenWritePath (resolvedTarget : string) (sandbox : ToolSandbox) : pres unit :=
  match classifyHardForbiddenWritePath (path_text (resolve1 resolvedTarget)) (writeSafetyContext sandbox) with
  | Some rejection =>
      Err (PathThrows ("Path is protected and cannot be written by tools (" +:+ rejection_text rejection +:+ "): " +:+ resolvedTarget))
  | None => Ok tt
  end.

Definition assertNotWriteRootItself (resolvedTarget : string) (sandbox : ToolSandbox) : pres unit :=
  let roots := writeJailRoots sandbox ++ operatorWriteRootPaths sandbox WriteIntent in
  throw_when (existsb (λ root, isSamePathOrDescendant root resolvedTarget && isSamePathOrDescendant resolvedTarget root) roots)
    (PathThrows ("A write root cannot be deleted by tools; delete items inside it instead: " +:+ resolvedTarget)).

Definition sandbox_protected (sandbox : ToolSandbox) : list string :=
  match runtimeWriteProtection sandbox with Some p => protectedPaths p | None => [] end.

Definition assertNotProtectedPathAncestor (resolvedTarget : string) (sandbox : ToolSandbox) : pres unit :=
  match List.find (λ protectedPath, isSamePathOrDescendant resolvedTarget protectedPath) (sandbox_protected sandbox) with
  | Some contained =>
      if truthy contained then
        Err (PathThrows ("Path contains a protected runtime folder and cannot be deleted or moved by tools: " +:+
                         resolvedTarget +:+ " (contains " +:+ contained +:+ ")"))
      else Ok tt
  | None => Ok tt
  end.

Definition assertToolWritePath (targetPath : string) (sandbox : ToolSandbox) (intent : ToolWriteIntent)
    (admission : option (list string)) : pres path :=
  resolvedTarget ← assertWritePathInJail fs targetPath (gate_roots sandbox intent admission);
  _ ← assertNotHardForbiddenWritePath (path_text resolvedTarget) sandbox;
  _ ← (match intent with
       | DeleteIntent =>
           _ ← assertNotWriteRootItself (path_text resolvedTarget) sandbox;
           assertNotProtectedPathAncestor (path_text resolvedTarget) sandbox
       | WriteIntent => Ok tt
       end);
  Ok resolvedTarget.
End gate.
