(* ===== verification/ToolWriteTheorems.v ===== *)
(** * Theorems about the tool write gate

    The gate passes exactly the targets that the jail passes and that lie in no
    forbidden place; what is then written lies in an admitted root and in no
    forbidden place. *)
From S2P Require Import Prelude.
From S2P Require Import JsString.
From S2P Require Import FileSystem.
From S2P Require Import PathLanding.
From S2P Require Import PathJail.
From S2P Require Import PathJailTheorems.
From S2P Require Import ToolWriteGate.

(** ** Texts of paths *)

Lemma strip_end_other f s : string_existsb f s = false → strip_end f s = s.
Proof.
  induction s as [|c s IH]; [done|]. cbn [string_existsb strip_end]. intros [Hc Hs]%orb_false_iff.
  rewrite IH by done. destruct s; [by rewrite Hc|done].
Qed.

Lemma strip_end_app f a b : strip_end f b ≠ "" → strip_end f (a +:+ b) = a +:+ strip_end f b.
Proof.
  intros Hb. induction a as [|c a IH]; [done|]. change (String c a +:+ b) with (String c (a +:+ b)). cbn [strip_end].
  rewrite IH. destruct (a +:+ strip_end f b) eqn:E; [|by rewrite <-E]. by destruct a.
Qed.

Lemma path_text_snoc p s : ∃ pre, path_text (p ++ [s]) = pre +:+ s.
Proof.
  unfold path_text. assert (∃ pre, join "/" (p ++ [s]) = pre +:+ s) as [pre ->].
  { induction p as [|t p [pre IH]]; [by exists ""|]. destruct (p ++ [s]) as [|u l] eqn:E; [by destruct p|].
    exists (t +:+ "/" +:+ pre). change (join "/" ((t :: p) ++ [s])) with (join "/" (t :: (p ++ [s]))). rewrite E.
    change (join "/" (t :: u :: l)) with (t +:+ "/" +:+ join "/" (u :: l)). by rewrite IH, !append_assoc. }
  by exists ("/" +:+ pre).
Qed.

Lemma strip_path_text p : simple_path p → stripTrailingSeparator (path_text p) = path_text p.
Proof.
  intros Hp. unfold stripTrailingSeparator. case_match; [done|]. destruct p as [|s p _] using rev_ind; [done|].
  apply Forall_app in Hp as [_ [Hn Hs]%Forall_singleton]. apply plain_name_spec in Hn as (Hne & _).
  destruct (path_text_snoc p s) as [pre ->].
  assert (strip_end is_slash s = s) as E by by apply strip_end_other.
  rewrite strip_end_app; by rewrite E.
Qed.

Lemma path_text_root p : plain_path p → path_text p = "/" ↔ p = [].
Proof.
  intros Hp. split; [|by intros ->]. destruct p as [|s p]; [done|].
  apply Forall_cons in Hp as [(Hne & _)%plain_name_spec _]. unfold path_text. intros [= E].
  destruct s; [done|]. by destruct p.
Qed.

Lemma path_text_absolute p : isAbsolute (path_text p) = true.
Proof. unfold isAbsolute, path_text. apply starts_with_spec. by eexists. Qed.

Lemma names_join p : p ≠ [] → plain_path p → names (join "/" p) = p.
Proof.
  intros Hne Hp. apply split_join; [done|]. eapply Forall_impl; [exact Hp|]. by intros x (_ & _ & _ & ?)%plain_name_spec.
Qed.

(** ** Containment of texts *)

Section gate.
Context `{H : Host} (fs : FileSystem) (Hlaws : HostLaws H).

Lemma resolve1_plain text : plain_path (resolve1 text).
Proof. apply path_resolve_plain, Hlaws. Qed.

Lemma resolve1_text p : plain_path p → resolve1 (path_text p) = p.
Proof. apply resolve_path_text. Qed.

Lemma below_relative tail : plain_path tail → tail ≠ [] →
  join "/" tail ≠ "" ∧ isAbsolute (join "/" tail) = false ∧ join "/" tail ≠ ".." ∧ starts_with "../" (join "/" tail) = false.
Proof.
  intros Hp Hne. pose proof (names_join _ Hne Hp) as Hn. destruct tail as [|s tail]; [done|].
  apply Forall_cons in Hp as [(Hs1 & _ & Hs2 & _)%plain_name_spec _]. repeat split.
  - intros E. rewrite E in Hn. by injection Hn.
  - destruct (isAbsolute _) eqn:E; [|done]. apply starts_with_spec in E as [r Hr]. rewrite Hr in Hn.
    change ("/" +:+ r) with ("" +:+ String "/" r) in Hn. unfold names in Hn. rewrite split_char_app in Hn by done. by injection Hn.
  - intros E. rewrite E in Hn. by injection Hn.
  - destruct (starts_with _ _) eqn:E; [|done]. apply starts_with_spec in E as [r Hr]. rewrite Hr in Hn.
    change ("../" +:+ r) with (".." +:+ String "/" r) in Hn. unfold names in Hn. rewrite split_char_app in Hn by done. by injection Hn.
Qed.

Lemma is_same_spec root target : isSamePathOrDescendant root target = true ↔ resolve1 root `prefix_of` resolve1 target.
Proof.
  unfold isSamePathOrDescendant. destruct (decide (resolve1 root `prefix_of` resolve1 target)) as [[tail Ht]|Hn].
  - split; [by eexists|]. intros _. rewrite Ht, path_relative_below. case_bool_decide; [done|].
    assert (plain_path tail) as Htp.
    { pose proof (resolve1_plain target) as Hp. rewrite Ht in Hp. by apply Forall_app in Hp as [_ ?]. }
    destruct (below_relative tail Htp) as (_ & -> & ? & ->); [by intros ->|]. by rewrite bool_decide_eq_false_2.
  - split; [|done]. intros E. exfalso. revert E. destruct (path_relative_head _ _ Hn) as [rest ->].
    destruct rest as [|s rest]; [done|]. change (join "/" (".." :: s :: rest)) with ("../" +:+ join "/" (s :: rest)).
    rewrite bool_decide_eq_false_2 by done.
    assert (starts_with "../" ("../" +:+ join "/" (s :: rest)) = true) as -> by (apply starts_with_spec; by eexists).
    by rewrite andb_false_r.
Qed.

Lemma exists_same (l : list string) target :
  existsb (λ dir, isSamePathOrDescendant dir target) l = true ↔ ∃ dir, dir ∈ l ∧ resolve1 dir `prefix_of` resolve1 target.
Proof. rewrite existsb_exists. setoid_rewrite is_same_spec. by setoid_rewrite list_elem_of_In. Qed.

(** ** Forbidden places *)

(** The declared rules, on paths. *)
Inductive forbidden_place (ctx : WriteRootSafetyContext) (p : path) : Prop :=
  | forbidden_characters : hasControlCharacters (path_text p) = true → forbidden_place ctx p
  | forbidden_root : p = [] → forbidden_place ctx p
  | forbidden_system dir : dir ∈ POSIX_SYSTEM_DIRECTORIES → resolve1 dir `prefix_of` p → forbidden_place ctx p
  | forbidden_profile home : resolveHomeDir ctx = Some home → home ≠ "" → p `prefix_of` resolve1 home → forbidden_place ctx p
  | forbidden_credentials home sub : resolveHomeDir ctx = Some home → home ≠ "" →
      sub ∈ SENSITIVE_HOME_SUBPATHS ++ SENSITIVE_POSIX_HOME_SUBPATHS →
      resolve1 (path_join [home; sub]) `prefix_of` p → forbidden_place ctx p
  | forbidden_runtime dir : runtime_root ctx = Some dir → p `prefix_of` resolve1 dir → forbidden_place ctx p
  | forbidden_protected dir : dir ∈ protected_paths ctx → resolve1 dir `prefix_of` p → forbidden_place ctx p.

Lemma or_else_none {A} (a b : option A) : or_else a b = None ↔ a = None ∧ b = None.
Proof. destruct a; naive_solver. Qed.

Lemma if_some_none {A} (b : bool) (a : A) : (if b then Some a else None) = None ↔ b = false.
Proof. by destruct b. Qed.

Lemma user_location_none ctx p : plain_path p → classifyUserLocation (path_text p) ctx = None ↔
  ∀ home, resolveHomeDir ctx = Some home → home ≠ "" → ¬ p `prefix_of` resolve1 home ∧
    ∀ sub, sub ∈ SENSITIVE_HOME_SUBPATHS ++ SENSITIVE_POSIX_HOME_SUBPATHS → ¬ resolve1 (path_join [home; sub]) `prefix_of` p.
Proof.
  intros Hp. unfold classifyUserLocation. destruct (resolveHomeDir ctx) as [home|]; [|naive_solver].
  destruct (truthy home) eqn:Ht; cbn [negb].
  2:{ assert (home = "") as -> by by destruct home. naive_solver. }
  apply truthy_spec in Ht. pose proof (is_same_spec (path_text p) home) as Hup. rewrite resolve1_text in Hup by done.
  pose proof (exists_same (sensitive_homes home) (path_text p)) as Hs. rewrite resolve1_text in Hs by done.
  assert (bool_decide (home = path_text p) = true → isSamePathOrDescendant (path_text p) home = true) as Heq.
  { intros ->%bool_decide_eq_true. rewrite Hup, resolve1_text; done. }
  destruct (isSamePathOrDescendant (path_text p) home).
  { split; [by case_bool_decide|]. intros Hn. destruct (Hn home) as [Hn1 _]; [done..|]. exfalso. by apply Hn1, Hup. }
  destruct (bool_decide (home = path_text p)); [by specialize (Heq eq_refl)|].
  destruct (existsb _ _).
  - split; [done|]. intros Hn. exfalso. destruct Hs as [(dir & Hd & Hpre) _]; [done|].
    apply list_elem_of_In, in_map_iff in Hd as (sub & <- & Hsub%list_elem_of_In).
    destruct (Hn home) as [_ Hn2]; [done..|]. by apply (Hn2 sub).
  - split; [|done]. intros _ h [= <-] _. split; [by intros ?%Hup|]. intros sub Hsub Hpre.
    destruct Hs as [_ Hs]. discriminate Hs. exists (path_join [home; sub]). split; [|done].
    apply list_elem_of_In, in_map_iff. exists sub. by rewrite <-list_elem_of_In.
Qed.

(** The classification rejects exactly the forbidden places. *)
Lemma classify_spec ctx p : simple_path p →
  classifyHardForbiddenWritePath (path_text p) ctx = None ↔ ¬ forbidden_place ctx p.
Proof.
  intros Hp. assert (plain_path p) as Hpp by by apply simple_plain.
  unfold classifyHardForbiddenWritePath. rewrite path_text_absolute, resolve1_text, strip_path_text by done. cbn [negb].
  destruct (hasControlCharacters (path_text p)) eqn:Hc; [by split; [|intros []; by apply forbidden_characters]|].
  unfold classifyOperatorWriteRoot. rewrite !or_else_none, user_location_none by done.
  unfold classifyFilesystemRoot, classifySystemDirectory, classifyRuntimeLocation. unfold parsed_root.
  rewrite path_text_absolute, !if_some_none, bool_decide_eq_false.
  change (stripTrailingSeparator "/") with "/".
  pose proof (exists_same POSIX_SYSTEM_DIRECTORIES (path_text p)) as Hsys.
  pose proof (exists_same (protected_paths ctx) (path_text p)) as Hprot. rewrite resolve1_text in Hsys, Hprot by done.
  pose proof (path_text_root p Hpp) as Hroot.
  assert (∀ dir, isSamePathOrDescendant (path_text p) dir = true ↔ p `prefix_of` resolve1 dir) as Hup.
  { intros dir. by rewrite is_same_spec, resolve1_text. }
  split.
  - intros (Hr & Hs & Hu & Hrt) Hf. destruct (match runtime_root ctx with Some _ => _ | None => _ end) eqn:Ert; [done|].
    apply if_some_none in Hrt. destruct Hf as [Hx|Hx|dir Hd Hx|home Hh Hne Hx|home sub Hh Hne Hsub Hx|dir Hd Hx|dir Hd Hx].
    + congruence.
    + by apply (not_eq_sym Hr), Hroot.
    + enough (existsb (λ dir, isSamePathOrDescendant dir (path_text p)) POSIX_SYSTEM_DIRECTORIES = true) by congruence.
      apply Hsys. by exists dir.
    + by destruct (Hu home Hh Hne).
    + destruct (Hu home Hh Hne) as [_ Hn]. by apply (Hn sub).
    + rewrite Hd in Ert. enough (isSamePathOrDescendant (path_text p) dir = true) by congruence. by apply Hup.
    + enough (existsb (λ dir, isSamePathOrDescendant dir (path_text p)) (protected_paths ctx) = true) by congruence.
      apply Hprot. by exists dir.
  - intros Hn. split; [intros Hr; by apply Hn, forbidden_root, Hroot, eq_sym|]. split; [|split].
    + apply not_true_is_false. intros (dir & ? & ?)%Hsys. by eapply Hn, forbidden_system.
    + intros home Hh Hne. split; [intros ?; by eapply Hn, forbidden_profile|].
      intros sub Hsub Hx. by eapply Hn, forbidden_credentials.
    + destruct (match runtime_root ctx with Some _ => _ | None => _ end) eqn:Ert.
      * exfalso. destruct (runtime_root ctx) as [dir|] eqn:Ed; [|done]. apply Hup in Ert. by eapply Hn, forbidden_runtime.
      * apply if_some_none, not_true_is_false. intros (dir & ? & ?)%Hprot. by eapply Hn, forbidden_protected.
Qed.

(** ** The gate *)

(** What a delete may not hit: a write root, or a place above a protected path. *)
Definition undeletable (sandbox : ToolSandbox) (p : path) : Prop :=
  (∃ root, root ∈ writeJailRoots sandbox ++ operatorWriteRootPaths sandbox WriteIntent ∧ resolve1 root = p) ∨
  (∃ dir, dir ∈ sandbox_protected sandbox ∧ p `prefix_of` resolve1 dir).

Lemma delete_checks sandbox p : plain_path p → Forall (λ d, truthy d = true) (sandbox_protected sandbox) →
  ((_ ← assertNotWriteRootItself (path_text p) sandbox; assertNotProtectedPathAncestor (path_text p) sandbox) = Ok tt ↔
   ¬ undeletable sandbox p).
Proof.
  intros Hp Htruthy. rewrite outcome_bind_ok. unfold assertNotWriteRootItself, assertNotProtectedPathAncestor, undeletable.
  assert (∀ root, isSamePathOrDescendant root (path_text p) && isSamePathOrDescendant (path_text p) root = true ↔ resolve1 root = p) as Hsame.
  { intros root. rewrite andb_true_iff, !is_same_spec, resolve1_text by done. split; [intros [? ?]; by apply (anti_symm prefix)|by intros ->]. }
  assert ((∃ dir, dir ∈ sandbox_protected sandbox ∧ p `prefix_of` resolve1 dir) ↔
    ∃ d, List.find (λ d, isSamePathOrDescendant (path_text p) d) (sandbox_protected sandbox) = Some d) as ->.
  { split.
    - intros (dir & Hd & Hpre). destruct (List.find _ _) as [d|] eqn:E; [by eexists|].
      exfalso. assert (isSamePathOrDescendant (path_text p) dir = true) as Ht by by rewrite is_same_spec, resolve1_text.
      eapply find_none in E; [|by apply list_elem_of_In]. cbv beta in E. congruence.
    - intros [d [Hin Hd]%find_some]. exists d. rewrite list_elem_of_In. split; [done|].
      by rewrite is_same_spec, resolve1_text in Hd. }
  split.
  - intros ([] & Hr%throw_when_ok & Hf) [(root & Hin & Hroot)|[d Hd]].
    + apply not_true_iff_false in Hr. apply Hr, existsb_exists. exists root. rewrite <-list_elem_of_In. by rewrite Hsame.
    + rewrite Hd in Hf. apply find_some in Hd as [Hd _]. rewrite Forall_forall in Htruthy.
      by rewrite (Htruthy d) in Hf by by apply list_elem_of_In.
  - intros Hn. exists tt. split.
    + apply throw_when_ok, not_true_iff_false. intros (root & Hin & Hroot)%existsb_exists. apply Hn. left.
      exists root. rewrite list_elem_of_In. by rewrite <-Hsame.
    + destruct (List.find _ _) as [d|] eqn:E; [|done]. destruct Hn. right. by eexists.
Qed.

Lemma gate_run targetPath sandbox intent admission p : simple_path p →
  Forall (λ d, truthy d = true) (sandbox_protected sandbox) →
  assertToolWritePath fs targetPath sandbox intent admission = Ok p ↔
    assertWritePathInJail fs targetPath (gate_roots sandbox intent admission) = Ok p ∧
    ¬ forbidden_place (writeSafetyContext sandbox) p ∧ (intent = DeleteIntent → ¬ undeletable sandbox p).
Proof.
  intros Hp Ht. assert (plain_path p) as Hpp by by apply simple_plain.
  assert (assertNotHardForbiddenWritePath (path_text p) sandbox = Ok tt ↔ ¬ forbidden_place (writeSafetyContext sandbox) p) as Hforb.
  { rewrite <-classify_spec by done. unfold assertNotHardForbiddenWritePath. rewrite resolve1_text by done. by case_match. }
  pose proof (delete_checks sandbox p Hpp Ht) as Hdel.
  unfold assertToolWritePath. rewrite outcome_bind_ok. split.
  - intros (r & Hr & Hrest). apply outcome_bind_ok in Hrest as ([] & Hf & Hrest).
    apply outcome_bind_ok in Hrest as ([] & Hd & [= ->]). split; [done|]. split; [by apply Hforb|]. intros ->. by apply Hdel.
  - intros (Hr & Hf%Hforb & Hd). exists p. split; [done|]. rewrite Hf. cbn [mbind outcome_bind].
    destruct intent; [done|]. apply outcome_bind_ok. exists tt. split; [by apply Hdel, Hd|done].
Qed.

(** The gate passes a target exactly when the jail passes it under the roots
    of the intent, the place it resolves to is not forbidden, and a delete hits
    neither a write root nor a place above a protected path (paths whose names
    hold no backslash). *)
Theorem tool_write_exact targetPath sandbox intent admission p : simple_path p →
  Forall (λ d, truthy d = true) (sandbox_protected sandbox) →
  assertToolWritePath fs targetPath sandbox intent admission = Ok p ↔
    assertWritePathInJail fs targetPath (gate_roots sandbox intent admission) = Ok p ∧
    ¬ forbidden_place (writeSafetyContext sandbox) p ∧ (intent = DeleteIntent → ¬ undeletable sandbox p).
Proof. apply gate_run. Qed.

(** C21. After the gate has passed a write, a file opened at the requested path
    lies in an admitted root and in no forbidden place, whatever directories and
    files appeared in between.  This needs a well-formed tree whose links stay as
    they are and in which no link's text climbs after it descends, a resolved
    path without backslashes in its names, and protected paths that are not
    empty. *)
Theorem tool_write_safe (Hwf : fs_wf fs) targetPath sandbox admission p fs' q :
  assertToolWritePath fs targetPath sandbox WriteIntent admission = Ok p →
  simple_path p → Forall (λ d, truthy d = true) (sandbox_protected sandbox) →
  simple_links fs → same_links fs fs' → openCreate fs' (resolve1 targetPath) = Some q →
  in_roots fs (writeJailRoots sandbox ++ operatorWriteRootPaths sandbox WriteIntent ++ admittedWriteRoots sandbox admission) q ∧
  ¬ forbidden_place (writeSafetyContext sandbox) q.
Proof.
  intros Hg Hp Ht Hsimple Hs Hq. apply gate_run in Hg as (Hj & Hf & _); [|done..].
  destruct (jail_contained_run _ Hlaws Hwf _ _ _ Hj) as (Hin & _ & Hopen).
  rewrite (Hopen fs' q) by done. split; [|done]. unfold gate_roots, effectiveToolWriteRoots in Hin. by rewrite <-app_assoc in Hin.
Qed.
End gate.
