(* ===== verification/OutsideRootWrite.v ===== *)
(** * Writes outside the roots

    packages/policy-engine/src/sandbox/outside-root-write.ts,
    outside-root-write-policy.ts and contracts/src/outside-root-write.ts: which
    targets may be admitted by a folder grant or an approval, and the folders an
    approval may open.  The digest behind the folder ids is a parameter; the
    asynchronous questions are answered by arguments. *)
From S2P Require Import Prelude.
From S2P Require Import JsString.
From S2P Require Import JsTime.
From S2P Require Import FileSystem.
From S2P Require Import PathJail.
From S2P Require Import ToolWriteGate.

Definition OUTSIDE_ROOT_WRITE_GRANT_MAX_TTL_MS : Z := 24 * 60 * 60000.
Definition OUTSIDE_ROOT_WRITE_GRANT_MAX_ROOTS : nat := 4.
Definition MAX_CANDIDATE_DEPTH : nat := 3.
Definition OUTSIDE_ROOT_WRITE_TOOLS :=
  ["fs.write"; "fs.patch"; "fs.copy"; "fs.move"; "artifacts.create"; "documents.create"; "presentations.create";
   "browser.screenshot"; "browser.interact"].
Definition isOutsideRootWriteTool (toolName : string) : bool := bool_decide (toolName ∈ OUTSIDE_ROOT_WRITE_TOOLS).

Record OutsideRootWriteCandidateRoot := mkCandidateRoot { rootId : string; cr_path : string }.
Record WritePathCandidate := mkWriteCandidate { wc_path : string; wc_intent : ToolWriteIntent }.

(** ** Grants (contracts/src/tool-grants.ts)

    Lists that may be left out are empty then, which every reader takes for the
    same; a reference root stands for its path, and the limits are whole
    numbers.  The words are the texts of the source. *)
Record GrantConstraints := mkConstraints {
  allowedHosts : list string;
  allowedPaths : list string;
  referenceRoots : list string;
  maxWritesPerHour : option Z;
  maxCallsPerHour : option Z;
  mutationAllowed : option bool;
  writeRoots : option (list string);
  writeRootsApprovalId : option string;
}.
#[export] Instance eta_GrantConstraints : Eta GrantConstraints := λ c,
  mkConstraints (allowedHosts c) (allowedPaths c) (referenceRoots c) (maxWritesPerHour c) (maxCallsPerHour c)
    (mutationAllowed c) (writeRoots c) (writeRootsApprovalId c).
Record ToolGrantCreateInput := mkGrantInput {
  g_toolPattern : string;
  g_decision : string;
  g_scope : string;
  g_scopeRef : option string;
  g_grantType : option string;
  g_constraints : option GrantConstraints;
  g_createdBy : string;
  g_expiresAt : option string;
  g_usesRemaining : option Z;
}.
#[export] Instance eta_ToolGrantCreateInput : Eta ToolGrantCreateInput := λ g,
  mkGrantInput (g_toolPattern g) (g_decision g) (g_scope g) (g_scopeRef g) (g_grantType g) (g_constraints g)
    (g_createdBy g) (g_expiresAt g) (g_usesRemaining g).
Record ToolGrantRecord := mkGrant {
  tg_grantId : string;
  tg_toolPattern : string;
  tg_decision : string;
  tg_scope : string;
  tg_scopeRef : string;
  tg_grantType : string;
  tg_constraints : option GrantConstraints;
  tg_createdBy : string;
  tg_createdAt : string;
  tg_expiresAt : option string;
  tg_revokedAt : option string;
  tg_revokedBy : option string;
  tg_usesRemaining : option Z;
}.

Inductive OutsideRootWriteEvaluation :=
  | OutsideNone
  | OutsideRequiresApproval (targets : list string) (candidates : list OutsideRootWriteCandidateRoot)
  | OutsideAdmittedByGrant (roots : list string) (grant : ToolGrantRecord)
  | OutsideAdmittedByApproval (roots : list string).

(** [/^[\\/]{2}[^\\/?.]/u.test(value)]. *)
Definition isNetworkPath (value : string) : bool :=
  match value with
  | String a (String b (String c _)) =>
      is_slash a && is_slash b && negb (is_slash c) && negb (Ascii.eqb c "?"%char) && negb (Ascii.eqb c "."%char)
  | _ => false
  end.

Definition isOutsideRootWriteEnabled (sandbox : ToolSandbox) : bool :=
  approvalRequiredOutside sandbox && bool_decide (is_Some (runtimeWriteProtection sandbox)).

Definition outsideRootWriteSafetyContext (sandbox : ToolSandbox) : option WriteRootSafetyContext :=
  match runtimeWriteProtection sandbox with
  | Some p => Some (mkSafety (Some (rp_rootDir p)) (Some (protectedPaths p)) None)
  | None => None
  end.

Section outside.
Context `{Host} (fs : FileSystem) (sha256_hex : string → string).

Definition isInsideToolWriteRoots (target : string) (sandbox : ToolSandbox) : bool :=
  is_ok (assertWritePathInJail fs target (effectiveToolWriteRoots sandbox WriteIntent)).

(** The probe from its last name up, with the names left below it. *)
Fixpoint native_ancestor (absolute rprobe missingTail : path) : path :=
  match realpathSync fs (reverse rprobe) with
  | Ok real => match missingTail with [] => real | _ => push_names real missingTail end
  | Err _ =>
      match rprobe with
      | [] => absolute
      | name :: rparent => native_ancestor absolute rparent (name :: missingTail)
      end
  end.
Definition resolveThroughNativeAncestor (absolute : path) : path := native_ancestor absolute (reverse absolute) [].

(** The resolved target, or why it is refused. *)
Definition resolveOutsideRootWriteTarget (rawPath : string) (ctx : WriteRootSafetyContext) : string + WriteRootRejection :=
  let resolved := path_text (resolveThroughNativeAncestor (resolve1 (trim rawPath))) in
  match classifyHardForbiddenWritePath resolved ctx with
  | Some refusal => inr refusal
  | None => inl resolved
  end.

Definition outsideRootWriteRootId (canonicalPath : string) : string :=
  "owr_" +:+ string_take 16 (sha256_hex canonicalPath).

Definition samePath (left right : string) : bool :=
  isSamePathOrDescendant left right && isSamePathOrDescendant right left.

(** [fs.statSync(probe, { throwIfNoEntry: false })?.isDirectory()]. *)
Definition stat_directory (probe : path) : outcome FsError bool :=
  match realpathSync fs probe with
  | Ok r => Ok (bool_decide (entry fs r = Some Directory))
  | Err e => if lstat_absent e then Ok false else Err e
  end.

Fixpoint nearest_directory (rprobe : path) : pres (option path) :=
  isDir ← fs_call (stat_directory (reverse rprobe));
  if (isDir : bool) then (real ← fs_call (realpathSync fs (reverse rprobe)); Ok (Some real))
  else match rprobe with
       | [] => Ok None
       | _ :: rparent => nearest_directory rparent
       end.
Definition nearestExistingDirectory (start : path) : pres (option path) := nearest_directory (reverse start).

(** One folder: a candidate when it is safe, holds every target and is new. *)
Definition candidate_folder (directory : path) (resolvedTargets : list string) (ctx : WriteRootSafetyContext)
    (candidates : list OutsideRootWriteCandidateRoot) : list OutsideRootWriteCandidateRoot :=
  match canonicalizeOperatorWriteRoot fs (path_text directory) ctx with
  | Canonical canonicalPath =>
      if negb (isNetworkPath canonicalPath) &&
         forallb (λ target, isSamePathOrDescendant canonicalPath target) resolvedTargets &&
         negb (existsb (λ candidate, samePath (cr_path candidate) canonicalPath) candidates)
      then candidates ++ [mkCandidateRoot (outsideRootWriteRootId canonicalPath) canonicalPath]
      else candidates
  | Rejected _ _ => candidates
  end.

Fixpoint candidate_loop (depth : nat) (directory : path) (resolvedTargets : list string) (ctx : WriteRootSafetyContext)
    (candidates : list OutsideRootWriteCandidateRoot) : list OutsideRootWriteCandidateRoot :=
  match depth with
  | O => candidates
  | S depth' =>
      let candidates := candidate_folder directory resolvedTargets ctx candidates in
      let parent := dirname directory in
      if bool_decide (parent = directory) then candidates
      else candidate_loop depth' parent resolvedTargets ctx candidates
  end.

Definition deriveOutsideRootWriteCandidates (resolvedTargets : list string) (ctx : WriteRootSafetyContext)
    : pres (list OutsideRootWriteCandidateRoot) :=
  match resolvedTargets with
  | [] => Ok []
  | first :: _ =>
      if negb (truthy first) then Ok []
      else
        directory ← nearestExistingDirectory (dirname (resolve1 first));
        match directory with
        | Some directory => Ok (candidate_loop MAX_CANDIDATE_DEPTH directory resolvedTargets ctx [])
        | None => Ok []
        end
  end.

(** The folders of a grant that still are what was granted. *)
Definition canonical_roots (roots : list string) (ctx : WriteRootSafetyContext) : list string :=
  concat (map (λ root,
    match canonicalizeOperatorWriteRoot fs root ctx with
    | Canonical canonicalPath =>
        if negb (isNetworkPath canonicalPath) && samePath canonicalPath root then [canonicalPath] else []
    | Rejected _ _ => []
    end) roots).

Definition grantWriteRootsAdmit (roots resolvedTargets : list string) (ctx : WriteRootSafetyContext) : option (list string) :=
  match resolvedTargets with
  | [] => None
  | _ =>
      let canonicalRoots := canonical_roots roots ctx in
      if forallb (λ target, existsb (λ root, isSamePathOrDescendant root target) canonicalRoots) resolvedTargets
      then Some canonicalRoots else None
  end.

(** ** Grants with folders *)

Definition grant_fail {A} (reason : string) : pres A := Err (PathThrows ("Invalid write-root grant: " +:+ reason +:+ ".")).
Definition fail_when (b : bool) (reason : string) : pres unit := if b then grant_fail reason else Ok tt.

Definition assertBoundedExpiry (expiresAt : option string) (nowMs : Z) : pres unit :=
  let expiresMs := match expiresAt with Some t => if truthy t then date_parse t else None | None => None end in
  match expiresMs with
  | None => grant_fail "a future expiresAt is required"
  | Some expiresMs =>
      _ ← fail_when (expiresMs <=? nowMs) "a future expiresAt is required";
      fail_when (OUTSIDE_ROOT_WRITE_GRANT_MAX_TTL_MS <? expiresMs - nowMs) "grants may last at most 24 hours"
  end.

Fixpoint canonical_folders (roots : list string) (ctx : WriteRootSafetyContext) (canonical : list string) : pres (list string) :=
  match roots with
  | [] => Ok canonical
  | root :: roots' =>
      _ ← fail_when (bool_decide (trim root = "*") || negb (isAbsolute (trim root))) "folders must be absolute paths";
      _ ← fail_when (isNetworkPath (trim root)) "network folders cannot be opened from a grant";
      match canonicalizeOperatorWriteRoot fs root ctx with
      | Rejected _ detail => grant_fail detail
      | Canonical canonicalPath =>
          canonical_folders roots' ctx
            (if negb (existsb (λ existing, samePath existing canonicalPath) canonical)
             then canonical ++ [canonicalPath] else canonical)
      end
  end.

Definition validateWriteRootsGrantInput (input : ToolGrantCreateInput) (sandbox : ToolSandbox) (nowMs : Z)
    : pres ToolGrantCreateInput :=
  match g_constraints input with
  | None => Ok input
  | Some constraints =>
      match writeRoots constraints with
      | None => Ok input
      | Some roots =>
          match outsideRootWriteSafetyContext sandbox with
          | None => grant_fail "runtime write protection is unavailable"
          | Some ctx =>
              _ ← fail_when (negb (bool_decide (g_decision input = "allow"))) "only allow grants may carry writeRoots";
              _ ← fail_when (negb (isOutsideRootWriteTool (g_toolPattern input)))
                    "the tool pattern must name one outside-root write tool";
              _ ← fail_when (negb (bool_decide (g_scope input = "session")) && negb (bool_decide (g_scope input = "workspace")))
                    "scope must be session or workspace";
              _ ← fail_when (negb (truthy_opt (trim <$> g_scopeRef input))) "a scopeRef is required";
              _ ← fail_when (negb (bool_decide (g_grantType input = Some "ttl"))) "folder grants must be ttl grants";
              _ ← assertBoundedExpiry (g_expiresAt input) nowMs;
              _ ← fail_when (negb (bool_decide (allowedPaths constraints = [])) || negb (bool_decide (referenceRoots constraints = [])))
                    "writeRoots cannot be combined with allowedPaths or referenceRoots";
              _ ← fail_when (bool_decide (roots = []) || (OUTSIDE_ROOT_WRITE_GRANT_MAX_ROOTS <? length roots)%nat)
                    "between 1 and 4 folders are required";
              canonical ← canonical_folders roots ctx [];
              Ok (input <| g_constraints := Some (constraints <| writeRoots := Some canonical |>) |>)
          end
      end
  end.

(** ** The decision (outside-root-write-policy.ts) *)

Definition INELIGIBLE_ACTOR_SOURCES := ["a2a_peer"; "mesh_node"].

(** The targets resolved in turn; [None] at the first refusal. *)
Fixpoint resolve_outside (outside : list WritePathCandidate) (ctx : WriteRootSafetyContext) : option (list string) :=
  match outside with
  | [] => Some []
  | candidate :: rest =>
      match resolveOutsideRootWriteTarget (wc_path candidate) ctx with
      | inr _ => None
      | inl resolved => r ← resolve_outside rest ctx; Some (resolved :: r)
      end
  end.

(** The first grant whose folders admit every target. *)
Fixpoint admitting_grant (grants : list ToolGrantRecord) (resolved : list string) (ctx : WriteRootSafetyContext)
    : option (list string * ToolGrantRecord) :=
  match grants with
  | [] => None
  | grant :: rest =>
      match tg_constraints grant ≫= writeRoots with
      | Some (root :: roots) =>
          match grantWriteRootsAdmit (root :: roots) resolved ctx with
          | Some admitted => Some (admitted, grant)
          | None => admitting_grant rest resolved ctx
          end
      | _ => admitting_grant rest resolved ctx
      end
  end.

Definition evaluateOutsideRootWrites (toolName : string) (authActorSource : option string)
    (writeCandidates : list WritePathCandidate) (allowGrants : list ToolGrantRecord) (sandbox : ToolSandbox)
    (isEligible : bool) (verifiedApprovalId : option string) (registeredTargets : string → option (list string))
    : pres OutsideRootWriteEvaluation :=
  match outsideRootWriteSafetyContext sandbox with
  | None => Ok OutsideNone
  | Some ctx =>
      if negb (isOutsideRootWriteEnabled sandbox) || negb (isOutsideRootWriteTool toolName) then Ok OutsideNone
      else if match authActorSource with Some s => bool_decide (s ∈ INELIGIBLE_ACTOR_SOURCES) | None => false end
      then Ok OutsideNone
      else
        let outside := List.filter (λ candidate, negb (isInsideToolWriteRoots (wc_path candidate) sandbox)) writeCandidates in
        if bool_decide (outside = []) || existsb (λ candidate, bool_decide (wc_intent candidate = DeleteIntent)) outside
        then Ok OutsideNone
        else
          match resolve_outside outside ctx with
          | None => Ok OutsideNone
          | Some resolved =>
              if negb isEligible then Ok OutsideNone
              else
                match admitting_grant allowGrants resolved ctx with
                | Some (roots, grant) => Ok (OutsideAdmittedByGrant roots grant)
                | None =>
                    let approved :=
                      match verifiedApprovalId with
                      | Some approvalId =>
                          truthy approvalId &&
                          match registeredTargets approvalId with
                          | Some targets => forallb (λ target, existsb (λ r, samePath r target) targets) resolved
                          | None => false
                          end
                      | None => false
                      end in
                    if approved then Ok (OutsideAdmittedByApproval resolved)
                    else
                      candidates ← deriveOutsideRootWriteCandidates resolved ctx;
                      Ok (OutsideRequiresApproval resolved candidates)
                end
          end
  end.
End outside.
