(* ===== verification/OutsideRootWriteTheorems.v ===== *)
(** * Theorems about writes outside the roots

    What an outside write may be admitted to or ask for: write targets of the
    listed tools only, in no forbidden place, below safe folders; and what a grant
    that opens folders must satisfy. *)
From S2P Require Import Prelude.
From S2P Require Import JsString.
From S2P Require Import JsTime.
From S2P Require Import FileSystem.
From S2P Require Import PathLanding.
From S2P Require Import PathJail.
From S2P Require Import PathJailTheorems.
From S2P Require Import ToolWriteGate.
From S2P Require Import ToolWriteTheorems.
From S2P Require Import OutsideRootWrite.

Section outside.
Context `{H : Host} (Hlaws : HostLaws H) (fs : FileSystem) (sha256_hex : string → string).

Lemma same_path_spec a b : samePath a b = true ↔ resolve1 a = resolve1 b.
Proof.
  unfold samePath. rewrite andb_true_iff, !(is_same_spec Hlaws).
  split; [intros [? ?]; by apply (anti_symm prefix)|by intros ->].
Qed.

(** A folder that may be opened: a directory that no rule forbids. *)
Definition safe_folder (ctx : WriteRootSafetyContext) (folder : string) : Prop :=
  classifyOperatorWriteRoot folder ctx = None ∧ isDirectory fs folder = true.

Lemma canonical_safe input ctx c : canonicalizeOperatorWriteRoot fs input ctx = Canonical c → safe_folder ctx c.
Proof.
  unfold canonicalizeOperatorWriteRoot. cbv zeta. repeat (case_match; try done).
  intros [= <-]. split; [done|]. by apply negb_false_iff.
Qed.

(** A list of folders grows by folders that are elsewhere. *)
Definition new_folder (folders : list string) (c : string) : Prop := resolve1 c ∉ map resolve1 folders.

Lemma not_same_new folders c : existsb (λ existing, samePath existing c) folders = false → new_folder folders c.
Proof.
  intros Hn [a [Ha Hin]]%list_elem_of_fmap. apply not_true_iff_false in Hn. apply Hn, existsb_exists. exists a.
  by rewrite <-list_elem_of_In, same_path_spec.
Qed.

Lemma NoDup_snoc_folder folders c : NoDup (map resolve1 folders) → new_folder folders c →
  NoDup (map resolve1 (folders ++ [c])).
Proof.
  intros Hd Hn. rewrite map_app. apply NoDup_app. split; [done|]. split; [|apply NoDup_singleton].
  intros x Hx ->%list_elem_of_singleton. by apply Hn.
Qed.

(** ** Candidate folders *)

Definition good_candidate (ctx : WriteRootSafetyContext) (targets : list string) (c : OutsideRootWriteCandidateRoot) : Prop :=
  safe_folder ctx (cr_path c) ∧ rootId c = outsideRootWriteRootId sha256_hex (cr_path c) ∧
  Forall (λ target, resolve1 (cr_path c) `prefix_of` resolve1 target) targets.

Definition good_candidates ctx targets (cs : list OutsideRootWriteCandidateRoot) : Prop :=
  Forall (good_candidate ctx targets) cs ∧ NoDup (map resolve1 (map cr_path cs)).

Lemma candidate_folder_good directory targets ctx cs :
  good_candidates ctx targets cs → good_candidates ctx targets (candidate_folder fs sha256_hex directory targets ctx cs) ∧
  (length (candidate_folder fs sha256_hex directory targets ctx cs) ≤ S (length cs))%nat.
Proof.
  intros [Hg Hd]. unfold candidate_folder. destruct (canonicalizeOperatorWriteRoot _ _ _) as [c|] eqn:Ec; [|split; [done|lia]].
  destruct (_ && _) eqn:Eb; [|split; [done|lia]]. apply andb_true_iff in Eb as [[_ Ht]%andb_true_iff Hn%negb_true_iff].
  rewrite length_app. split; [|cbn; lia]. split.
  - apply Forall_app. split; [done|]. apply Forall_singleton. split; [by eapply canonical_safe|]. split; [done|].
    apply Forall_forall. intros target Hin. rewrite forallb_forall in Ht. apply (is_same_spec Hlaws), Ht. by apply list_elem_of_In.
  - rewrite map_app. apply NoDup_snoc_folder; [done|]. apply not_same_new.
    apply not_true_iff_false. intros (a & Ha & Hs)%existsb_exists. apply in_map_iff in Ha as (x & <- & Hx).
    apply not_true_iff_false in Hn. apply Hn, existsb_exists. by exists x.
Qed.

Lemma candidate_loop_good depth : ∀ directory targets ctx cs,
  good_candidates ctx targets cs → good_candidates ctx targets (candidate_loop fs sha256_hex depth directory targets ctx cs) ∧
  (length (candidate_loop fs sha256_hex depth directory targets ctx cs) ≤ depth + length cs)%nat.
Proof.
  induction depth as [|depth IH]; intros directory targets ctx cs Hg; [done|]. cbn [candidate_loop].
  destruct (candidate_folder_good directory targets ctx cs Hg) as [Hg' Hlen].
  case_bool_decide; [split; [done|lia]|]. destruct (IH (dirname directory) targets ctx _ Hg') as [? ?]. split; [done|lia].
Qed.

Lemma candidates_good targets ctx cs : deriveOutsideRootWriteCandidates fs sha256_hex targets ctx = Ok cs →
  good_candidates ctx targets cs ∧ (length cs ≤ MAX_CANDIDATE_DEPTH)%nat.
Proof.
  assert (good_candidates ctx targets []) as Hnil by (split; [by constructor|apply NoDup_nil_2]).
  assert (∀ cs', Ok (E := path_error) [] = Ok cs' → good_candidates ctx targets cs' ∧ (length cs' ≤ MAX_CANDIDATE_DEPTH)%nat) as Hempty.
  { intros cs' [= <-]. split; [done|cbn; lia]. }
  unfold deriveOutsideRootWriteCandidates. destruct targets as [|first targets]; [apply Hempty|].
  case_match; [apply Hempty|]. rewrite outcome_bind_ok. intros ([directory|] & _ & Hd); [|by apply Hempty].
  assert (candidate_loop fs sha256_hex MAX_CANDIDATE_DEPTH directory (first :: targets) ctx [] = cs) as <- by congruence.
  destruct (candidate_loop_good MAX_CANDIDATE_DEPTH directory _ _ _ Hnil) as [? Hl].
  split; [done|]. cbn [length] in Hl. lia.
Qed.

(** ** Targets *)

(** Where a path leads: the longest part of it that the system can follow, to
    its real path, and the names that are missing behind it. *)
Definition leads_to (p r : path) : Prop :=
  ∃ found missing real, p = found ++ missing ∧ realpathSync fs found = Ok real ∧
    (∀ k, found `prefix_of` k → k `prefix_of` p → k ≠ found → is_ok (realpathSync fs k) = false) ∧
    r = real ++ missing.

Lemma native_ancestor_leads absolute rprobe : ∀ missing,
  plain_path absolute → absolute = reverse rprobe ++ missing →
  (∀ k, reverse rprobe `prefix_of` k → k `prefix_of` absolute → k ≠ reverse rprobe → is_ok (realpathSync fs k) = false) →
  leads_to absolute (native_ancestor fs absolute rprobe missing).
Proof.
  induction rprobe as [|x rprobe IH]; intros missing Hp Habs Hlong.
  - cbn [native_ancestor]. assert (realpathSync fs (reverse []) = Ok []) as -> by apply namei_nil.
    exists [], missing, []. split; [exact Habs|]. split; [apply namei_nil|]. split; [exact Hlong|].
    destruct missing; [done|]. rewrite push_plain_names; [done|]. by rewrite Habs in Hp.
  - cbn [native_ancestor]. destruct (realpathSync fs (reverse (x :: rprobe))) as [real|err] eqn:E.
    + exists (reverse (x :: rprobe)), missing, real. split_and!; try done.
      destruct missing; [by rewrite app_nil_r|]. rewrite push_plain_names; [done|]. rewrite Habs in Hp. by apply Forall_app in Hp as [_ ?].
    + rewrite reverse_cons in *. apply IH; [done|by rewrite Habs, <-app_assoc|]. intros k Hk Hka Hne.
      destruct (decide (k = reverse rprobe ++ [x])) as [->|Hother]; [by rewrite E|]. apply Hlong; try done.
      destruct Hk as [t ->]. destruct t as [|y t]; [by rewrite app_nil_r in Hne|].
      rewrite Habs, <-app_assoc in Hka. apply prefix_app_inv, prefix_cons_inv_1 in Hka as ->.
      exists t. by rewrite <-app_assoc.
Qed.

(** A file opened at the path is created where the path leads, unless the first
    missing name is a link that dangles. *)
Lemma leads_opens p r q : fs_wf fs → plain_path p → leads_to p r → no_links fs r → openCreate fs p = Some q → q = r.
Proof.
  intros Hwf Hp (found & missing & real & -> & Hreal & _ & ->) Hn Hq. unfold openCreate in Hq.
  destruct (namei fs Create max_links [] (found ++ missing)) as [q'|] eqn:E; [|done]. case_bool_decide; [done|]. injection Hq as ->.
  apply namei_lands in E; [|done]. eapply lands_through in E; [|exact Hreal]. apply Forall_app in Hp as [_ Hm].
  rewrite <-(app_nil_r missing) in E. apply lands_plain in E; [|done..]. by inversion E.
Qed.

(** [target] is the resolved target of a write candidate. *)
Definition target_of (c : WritePathCandidate) (target : string) : Prop :=
  let p := resolve1 (trim (wc_path c)) in
  ∃ r, target = path_text r ∧ leads_to p r ∧ (fs_wf fs → no_links fs r → ∀ q, openCreate fs p = Some q → q = r).

(** ** Admission *)

Lemma grant_admits roots targets ctx admitted : grantWriteRootsAdmit fs roots targets ctx = Some admitted →
  Forall (safe_folder ctx) admitted ∧
  Forall (λ r, ∃ root, root ∈ roots ∧ resolve1 r = resolve1 root) admitted ∧
  Forall (λ target, ∃ r, r ∈ admitted ∧ resolve1 r `prefix_of` resolve1 target) targets.
Proof.
  unfold grantWriteRootsAdmit. destruct targets as [|t targets]; [done|]. destruct (forallb _ _) eqn:Ef; [|done]. intros [= <-].
  assert (∀ r, r ∈ canonical_roots fs roots ctx → safe_folder ctx r ∧ ∃ root, root ∈ roots ∧ resolve1 r = resolve1 root) as Hr.
  { intros r. unfold canonical_roots. rewrite list_elem_of_In, in_concat. intros (l & Hl & Hin).
    apply in_map_iff in Hl as (root & <- & Hroot). destruct (canonicalizeOperatorWriteRoot _ _ _) as [c|] eqn:Ec; [|done].
    destruct (_ && _) eqn:Eb; [|done]. destruct Hin as [->|[]]. apply andb_true_iff in Eb as [_ Es%same_path_spec].
    split; [by eapply canonical_safe|]. exists root. by rewrite list_elem_of_In. }
  split; [apply Forall_forall; intros; by apply Hr|]. split; [apply Forall_forall; intros; by apply Hr|].
  apply Forall_forall. intros target Hin. rewrite forallb_forall in Ef. apply list_elem_of_In, Ef, existsb_exists in Hin as (r & Hin & Hs).
  exists r. by rewrite list_elem_of_In, <-(is_same_spec Hlaws).
Qed.

Lemma admitting_grant_spec grants targets ctx admitted grant : admitting_grant fs grants targets ctx = Some (admitted, grant) →
  grant ∈ grants ∧ ∃ roots, tg_constraints grant ≫= writeRoots = Some roots ∧ grantWriteRootsAdmit fs roots targets ctx = Some admitted.
Proof.
  induction grants as [|g grants IH]; [done|]. cbn [admitting_grant].
  destruct (tg_constraints g ≫= writeRoots) as [[|root roots]|] eqn:Eg.
  1, 3: intros [? ?]%IH; split; [by right|done].
  destruct (grantWriteRootsAdmit _ _ _ _) eqn:Ea.
  - intros [= -> ->]. split; [by left|]. by exists (root :: roots).
  - intros [? ?]%IH; split; [by right|done].
Qed.

Lemma resolve_outside_spec outside ctx : ∀ resolved, resolve_outside fs outside ctx = Some resolved →
  Forall (λ target, classifyHardForbiddenWritePath target ctx = None) resolved ∧ Forall2 target_of outside resolved.
Proof.
  induction outside as [|c outside IH]; intros resolved; cbn [resolve_outside]; [intros [= <-]; by split; constructor|].
  unfold resolveOutsideRootWriteTarget. cbv zeta. destruct (classifyHardForbiddenWritePath _ _) eqn:Ec; [done|].
  intros (r & Hr & [= <-])%bind_Some. destruct (IH r Hr) as [? ?]. split; [by constructor|]. constructor; [|done].
  assert (plain_path (resolve1 (trim (wc_path c)))) as Hp by by apply resolve1_plain.
  assert (leads_to (resolve1 (trim (wc_path c))) (resolveThroughNativeAncestor fs (resolve1 (trim (wc_path c))))) as Hl.
  { unfold resolveThroughNativeAncestor. apply native_ancestor_leads; rewrite ?reverse_involutive, ?app_nil_r; try done.
    intros k Hk Hk' Hne. destruct Hne. by apply (anti_symm prefix). }
  exists (resolveThroughNativeAncestor fs (resolve1 (trim (wc_path c)))). split; [done|]. split; [done|].
  intros Hwf Hn q Hq. by eapply leads_opens.
Qed.

(** What every answer other than "none" rests on, and what each opens. *)
Definition outside_answer_ok (ctx : WriteRootSafetyContext) (allowGrants : list ToolGrantRecord)
    (verifiedApprovalId : option string) (registeredTargets : string → option (list string))
    (resolved : list string) (answer : OutsideRootWriteEvaluation) : Prop :=
  match answer with
  | OutsideNone => True
  | OutsideAdmittedByGrant roots grant =>
      grant ∈ allowGrants ∧ Forall (safe_folder ctx) roots ∧
      Forall (λ target, ∃ r, r ∈ roots ∧ resolve1 r `prefix_of` resolve1 target) resolved
  | OutsideAdmittedByApproval roots =>
      roots = resolved ∧ ∃ id targets, verifiedApprovalId = Some id ∧ registeredTargets id = Some targets ∧
        Forall (λ target, ∃ t, t ∈ targets ∧ resolve1 t = resolve1 target) resolved
  | OutsideRequiresApproval targets candidates =>
      targets = resolved ∧ good_candidates ctx targets candidates ∧ (length candidates ≤ MAX_CANDIDATE_DEPTH)%nat
  end.

(** C22. A write outside the roots is admitted, or may ask for approval, only for a
    listed tool of an eligible local actor with outside writes turned on, when
    every candidate outside the write roots is a write and resolves, each in its
    turn and through the links of its longest existing part, to a target in no
    forbidden place; a grant opens safe folders that hold every target, an approval
    the targets themselves, each of which it has registered, and a question offers
    at most three safe folders that hold them all.  In a well-formed tree a file
    opened for a candidate is created at its target, unless a link dangles there. *)
Theorem outside_write_decision toolName actor writeCandidates allowGrants sandbox isEligible approvalId registered answer :
  evaluateOutsideRootWrites fs sha256_hex toolName actor writeCandidates allowGrants sandbox isEligible approvalId registered
    = Ok answer →
  answer = OutsideNone ∨
  ∃ ctx resolved,
    outsideRootWriteSafetyContext sandbox = Some ctx ∧ approvalRequiredOutside sandbox = true ∧
    toolName ∈ OUTSIDE_ROOT_WRITE_TOOLS ∧ isEligible = true ∧ (∀ s, actor = Some s → s ∉ INELIGIBLE_ACTOR_SOURCES) ∧
    (∀ c, c ∈ writeCandidates → isInsideToolWriteRoots fs (wc_path c) sandbox = false → wc_intent c = WriteIntent) ∧
    resolved ≠ [] ∧ Forall2 target_of (List.filter (λ c, negb (isInsideToolWriteRoots fs (wc_path c) sandbox)) writeCandidates) resolved ∧
    Forall (λ target, classifyHardForbiddenWritePath target ctx = None) resolved ∧
    outside_answer_ok ctx allowGrants approvalId registered resolved answer.
Proof.
  unfold evaluateOutsideRootWrites. destruct (outsideRootWriteSafetyContext sandbox) as [ctx|] eqn:Ectx; [|intros [= <-]; by left].
  destruct (_ || _) eqn:Een; [intros [= <-]; by left|]. apply orb_false_iff in Een as [Hen%negb_false_iff Htool%negb_false_iff].
  apply andb_true_iff in Hen as [Hreq _]. apply bool_decide_eq_true in Htool.
  destruct (match actor with Some _ => _ | None => _ end) eqn:Eactor; [intros [= <-]; by left|]. cbv zeta.
  destruct (bool_decide _ || _) eqn:Eout; [intros [= <-]; by left|]. apply orb_false_iff in Eout as [Hne%bool_decide_eq_false Hdel].
  destruct (resolve_outside _ _ _) as [resolved|] eqn:Eres; [|intros [= <-]; by left].
  destruct isEligible; [|intros [= <-]; by left]. cbn [negb]. intros Ha. right. exists ctx, resolved.
  destruct (resolve_outside_spec _ _ _ Eres) as [Hforb Htargets].
  split; [done|]. split; [done|]. split; [done|]. split; [done|].
  split; [by intros s -> Hin; apply bool_decide_eq_false in Eactor|].
  split. { intros c Hc Hin. destruct (wc_intent c) eqn:Ei; [done|]. apply not_true_iff_false in Hdel. destruct Hdel.
    apply existsb_exists. exists c. rewrite filter_In, <-list_elem_of_In, Hin, Ei. by rewrite bool_decide_eq_true_2. }
  split; [by intros ->; apply Hne; inversion Htargets|]. split; [done|]. split; [done|].
  destruct (admitting_grant _ _ _ _) as [[roots grant]|] eqn:Eg.
  { injection Ha as <-. apply admitting_grant_spec in Eg as (Hin & roots' & _ & Hr). apply grant_admits in Hr as (? & _ & ?). done. }
  destruct approvalId as [id|].
  - destruct (truthy id && _) eqn:Eapp.
    + injection Ha as <-. split; [done|]. apply andb_true_iff in Eapp as [_ Eapp].
      destruct (registered id) as [targets|] eqn:Ereg; [|done]. exists id, targets. split; [done|]. split; [done|].
      apply Forall_forall. intros target Hin. rewrite forallb_forall in Eapp.
      apply list_elem_of_In, Eapp, existsb_exists in Hin as (t & Hin & Hs). exists t. by rewrite list_elem_of_In, <-same_path_spec.
    + apply outcome_bind_ok in Ha as (cs & Hcs & [= <-]). split; [done|]. by apply candidates_good.
  - apply outcome_bind_ok in Ha as (cs & Hcs & [= <-]). split; [done|]. by apply candidates_good.
Qed.

(** ** Grants *)

Lemma fail_when_ok b reason : fail_when b reason = Ok tt ↔ b = false.
Proof. by destruct b. Qed.

Lemma canonical_folders_spec ctx roots : ∀ canonical out, canonical_folders fs roots ctx canonical = Ok out →
  Forall (safe_folder ctx) canonical → NoDup (map resolve1 canonical) →
  Forall (safe_folder ctx) out ∧ NoDup (map resolve1 out) ∧ (length out ≤ length canonical + length roots)%nat ∧
  (canonical ≠ [] ∨ roots ≠ [] → out ≠ []).
Proof.
  induction roots as [|root roots IH]; intros canonical out; cbn [canonical_folders].
  { intros [= <-] ? ?. split; [done|]. split; [done|]. split; [lia|]. by intros [?|?]. }
  intros Hf Hs Hd. apply outcome_bind_ok in Hf as ([] & _ & Hf). apply outcome_bind_ok in Hf as ([] & _ & Hf).
  destruct (canonicalizeOperatorWriteRoot _ _ _) as [c|] eqn:Ec; [|done]. apply canonical_safe in Ec.
  destruct (existsb _ _) eqn:Ee; cbn [negb] in Hf; apply IH in Hf as (? & ? & Hlen & Hne).
  - split; [done|]. split; [done|]. split; [cbn; lia|]. intros _. apply Hne. left. by intros ->.
  - done.
  - done.
  - split; [done|]. split; [done|]. rewrite length_app in Hlen. split; [cbn in *; lia|]. intros _. apply Hne. left.
    by destruct canonical.
  - apply Forall_app. split; [done|]. by apply Forall_singleton.
  - apply NoDup_snoc_folder; [done|]. by apply not_same_new.
Qed.

(** A grant that opens folders is accepted only as an allow grant of one listed
    tool, scoped and with a lifetime that ends within 24 hours, and opens one to
    four distinct safe folders. *)
Theorem folder_grant_bounds input sandbox nowMs constraints roots out :
  g_constraints input = Some constraints → writeRoots constraints = Some roots →
  validateWriteRootsGrantInput fs input sandbox nowMs = Ok out →
  ∃ ctx t expiresMs folders,
    outsideRootWriteSafetyContext sandbox = Some ctx ∧ g_decision input = "allow" ∧
    g_toolPattern input ∈ OUTSIDE_ROOT_WRITE_TOOLS ∧ (g_scope input = "session" ∨ g_scope input = "workspace") ∧
    g_grantType input = Some "ttl" ∧ g_expiresAt input = Some t ∧ date_parse t = Some expiresMs ∧
    nowMs < expiresMs ≤ nowMs + 24 * 60 * 60 * 1000 ∧
    out = input <| g_constraints := Some (constraints <| writeRoots := Some folders |>) |> ∧
    (1 ≤ length folders ≤ 4)%nat ∧ Forall (safe_folder ctx) folders ∧ NoDup (map resolve1 folders).
Proof.
  intros Hc Hr. unfold validateWriteRootsGrantInput. rewrite Hc, Hr.
  destruct (outsideRootWriteSafetyContext sandbox) as [ctx|]; [|done]. intros Hv.
  apply outcome_bind_ok in Hv as ([] & Hdec%fail_when_ok%negb_false_iff%bool_decide_eq_true & Hv).
  apply outcome_bind_ok in Hv as ([] & Htool%fail_when_ok%negb_false_iff%bool_decide_eq_true & Hv).
  apply outcome_bind_ok in Hv as ([] & Hscope%fail_when_ok & Hv).
  apply outcome_bind_ok in Hv as ([] & _ & Hv).
  apply outcome_bind_ok in Hv as ([] & Httl%fail_when_ok%negb_false_iff%bool_decide_eq_true & Hv).
  apply outcome_bind_ok in Hv as ([] & Hexp & Hv). apply outcome_bind_ok in Hv as ([] & _ & Hv).
  apply outcome_bind_ok in Hv as ([] & Hlen%fail_when_ok%orb_false_iff & Hv).
  destruct Hlen as [Hne%bool_decide_eq_false Hmax%Nat.ltb_ge].
  apply outcome_bind_ok in Hv as (folders & Hf & [= <-]).
  apply canonical_folders_spec in Hf as (Hs & Hd & Hl & Hn); [|by constructor|apply NoDup_nil_2].
  unfold assertBoundedExpiry in Hexp. destruct (g_expiresAt input) as [t|] eqn:Eexp; [|done]. cbv zeta in Hexp.
  destruct (truthy t); [|done]. destruct (date_parse t) as [expiresMs|] eqn:Et; [|done].
  apply outcome_bind_ok in Hexp as ([] & Hlo%fail_when_ok%Z.leb_gt & Hhi%fail_when_ok%Z.ltb_ge).
  exists ctx, t, expiresMs, folders. unfold OUTSIDE_ROOT_WRITE_GRANT_MAX_TTL_MS, OUTSIDE_ROOT_WRITE_GRANT_MAX_ROOTS in *.
  assert (g_scope input = "session" ∨ g_scope input = "workspace") as Hsc.
  { apply andb_false_iff in Hscope as [?%negb_false_iff%bool_decide_eq_true|?%negb_false_iff%bool_decide_eq_true]; auto. }
  assert (folders ≠ []) as Hfne by (apply Hn; by right).
  assert (1 ≤ length folders)%nat by (destruct folders; [done|cbn; lia]).
  change (length (A := string) []) with 0%nat in Hl.
  split_and!; try done; try lia. destruct input; cbn in *; by subst.
Qed.
End outside.
