(* ===== verification/SandboxExamples.v ===== *)
(** * The sandbox at work

    Concrete file systems: the theorems applied, and the one link form that leads
    a checked write out of the jail. *)
From S2P Require Import Prelude.
From S2P Require Import JsString.
From S2P Require Import FileSystem.
From S2P Require Import PathLanding.
From S2P Require Import PathJail.
From S2P Require Import PathJailTheorems.
From S2P Require Import ToolWriteGate.
From S2P Require Import ToolWriteTheorems.
From S2P Require Import OutsideRootWrite.
From S2P Require Import OutsideRootWriteTheorems.
Import PathJailExamples.

(** A runtime below /srv/goat with a link from its workspace to a later folder. *)
Definition disk : FileSystem := list_to_map [
  (["srv"], Directory); (["srv"; "goat"], Directory); (["srv"; "goat"; "workspace"], Directory);
  (["srv"; "goat"; "config"], Directory); (["srv"; "goat"; "config"; "policy.json"], RegularFile);
  (["srv"; "goat"; "workspace"; "notes"], RegularFile);
  (["srv"; "goat"; "workspace"; "later"], SymbolicLink "../workspace/drafts");
  (["srv"; "goat"; "workspace"; "cfg"], SymbolicLink "/srv/goat/config"); (["w"], Directory)].

(** The same disk after the linked folder was created. *)
Definition disk_later : FileSystem := <[["srv"; "goat"; "workspace"; "drafts"] := Directory]> disk.

Definition goat_sandbox : ToolSandbox :=
  mkToolSandbox ["/srv/goat"] [] None (Some (mkProtection "/srv/goat" ["/srv/goat/config"])) false None.

Definition links_simple (fs : FileSystem) : Prop :=
  map_Forall (λ _ n, match n with SymbolicLink t => climbs_first (names t) = true | _ => True end) fs.
Lemma simple_links_check fs : links_simple fs → simple_links fs.
Proof. intros Hs p text Hp. exact (Hs _ _ Hp). Qed.

#[export] Instance fs_wf_dec fs : Decision (fs_wf fs).
Proof. unfold fs_wf, plain_path. apply _. Defined.
#[export] Instance links_simple_dec fs : Decision (links_simple fs).
Proof.
  unfold links_simple. apply map_Forall_dec. intros p [| |t]; cbn; apply _.
Defined.

Lemma disk_wf : fs_wf disk.
Proof. apply (bool_decide_unpack _). vm_compute. done. Qed.
Lemma disk_simple : simple_links disk.
Proof. apply simple_links_check, (bool_decide_unpack _). vm_compute. done. Qed.

(** A test of every path above [p]. *)
Lemma prefix_check (f : path → bool) p :
  forallb f (map (λ n, take n p) (seq 0 (S (length p)))) = true → ∀ k, k `prefix_of` p → f k = true.
Proof.
  intros Hf k [t ->]. rewrite forallb_forall in Hf. apply Hf, in_map_iff. exists (length k).
  rewrite take_app_length, in_seq, length_app. split; [done|lia].
Qed.

(** Adding a directory keeps the links. *)
Lemma same_links_mkdir fs p : fs !! p = None → same_links fs (<[p := Directory]> fs).
Proof.
  intros Hp q text. destruct (decide (p = q)) as [<-|Hne]; [|by rewrite lookup_insert_ne].
  rewrite lookup_insert_eq, Hp. done.
Qed.

Lemma disk_later_links : same_links disk disk_later.
Proof. apply same_links_mkdir. vm_compute. done. Qed.

Definition drafts_file := ["srv"; "goat"; "workspace"; "drafts"; "a.md"].

Lemma write_jail_contained_witness :
  assertWritePathInJail disk "/srv/goat/workspace/later/a.md" ["/srv/goat/workspace"] = Ok drafts_file ∧
  openCreate disk_later (path_resolve cwd ["/srv/goat/workspace/later/a.md"]) = Some drafts_file ∧
  in_roots disk ["/srv/goat/workspace"] drafts_file.
Proof.
  assert (assertWritePathInJail disk "/srv/goat/workspace/later/a.md" ["/srv/goat/workspace"] = Ok drafts_file) as Ha
    by (vm_compute; reflexivity).
  destruct (write_jail_contained disk linux_laws disk_wf "/srv/goat/workspace/later/a.md" ["/srv/goat/workspace"] drafts_file Ha)
    as (Hin & _ & Hopen).
  split; [exact Ha|]. split; [|exact Hin].
  assert (openCreate disk_later (path_resolve cwd ["/srv/goat/workspace/later/a.md"]) = Some drafts_file) as Hq
    by (vm_compute; reflexivity).
  pose proof (Hopen disk_later drafts_file disk_later_links disk_simple Hq) as _. exact Hq.
Defined.

Lemma read_jail_contained_witness :
  in_roots disk (["/srv/goat/workspace"] ++ []) ["srv"; "goat"; "workspace"; "notes"].
Proof.
  apply (read_jail_contained disk linux_laws disk_wf "/srv/goat/workspace/notes" ["/srv/goat/workspace"] []).
  - left. vm_compute. reflexivity.
  - vm_compute. reflexivity.
Defined.

Lemma write_jail_accepts_witness :
  assertWritePathInJail disk "/srv/goat/workspace/new/b.md" ["/srv/goat/workspace"] =
    Ok ["srv"; "goat"; "workspace"; "new"; "b.md"].
Proof.
  apply (write_jail_accepts disk linux_laws disk_wf) with (root := "/srv/goat/workspace").
  - by left.
  - reflexivity.
  - by exists ["new"; "b.md"].
  - repeat apply Forall_cons_2; try (split; reflexivity). constructor.
  - intros k Hk. apply negb_true_iff. revert k Hk. apply prefix_check. vm_compute. reflexivity.
  - intros k Hk _. apply (bool_decide_eq_false_1 (disk !! k = Some RegularFile)), negb_true_iff.
    revert k Hk. apply prefix_check. vm_compute. reflexivity.
Defined.

Definition goat_file := ["srv"; "goat"; "workspace"; "new.md"].

Lemma tool_write_exact_witness :
  assertToolWritePath disk "/srv/goat/workspace/new.md" goat_sandbox DeleteIntent None = Ok goat_file ∧
  ¬ forbidden_place (writeSafetyContext goat_sandbox) goat_file.
Proof.
  assert (assertToolWritePath disk "/srv/goat/workspace/new.md" goat_sandbox DeleteIntent None = Ok goat_file) as Ha
    by (vm_compute; reflexivity).
  split; [exact Ha|]. apply (tool_write_exact disk linux_laws) in Ha; [by destruct Ha as (_ & Hf & _)| |].
  - repeat apply Forall_cons_2; try (split; reflexivity). constructor.
  - by apply Forall_singleton.
Defined.

Lemma tool_write_safe_witness :
  assertToolWritePath disk "/srv/goat/workspace/later/a.md" goat_sandbox WriteIntent None = Ok drafts_file ∧
  openCreate disk_later (resolve1 "/srv/goat/workspace/later/a.md") = Some drafts_file ∧
  in_roots disk ["/srv/goat"] drafts_file ∧ ¬ forbidden_place (writeSafetyContext goat_sandbox) drafts_file.
Proof.
  assert (assertToolWritePath disk "/srv/goat/workspace/later/a.md" goat_sandbox WriteIntent None = Ok drafts_file) as Ha
    by (vm_compute; reflexivity).
  assert (openCreate disk_later (resolve1 "/srv/goat/workspace/later/a.md") = Some drafts_file) as Hq
    by (vm_compute; reflexivity).
  split; [exact Ha|]. split; [exact Hq|].
  apply (tool_write_safe disk linux_laws disk_wf) with (5 := disk_later_links) (6 := Hq) in Ha.
  - exact Ha.
  - repeat apply Forall_cons_2; try (split; reflexivity). constructor.
  - by apply Forall_singleton.
  - exact disk_simple.
Defined.

(** The protected folder is refused through a link and by name, a delete of the
    root and of a folder above the protected one too. *)
Example gate_refuses :
  is_ok (assertToolWritePath disk "/srv/goat/workspace/cfg/policy.json" goat_sandbox WriteIntent None) = false ∧
  is_ok (assertToolWritePath disk "/srv/goat/config/policy.json" goat_sandbox WriteIntent None) = false ∧
  is_ok (assertToolWritePath disk "/srv/goat" goat_sandbox DeleteIntent None) = false ∧
  is_ok (assertToolWritePath disk "/etc/passwd" goat_sandbox WriteIntent (Some ["/etc"])) = false.
Proof. vm_compute. done. Qed.

(** ** Writes outside the roots *)

(** Outside writes may ask for approval; the workspace is the only root. *)
Definition open_sandbox : ToolSandbox :=
  mkToolSandbox ["/srv/goat/workspace"] [] None (Some (mkProtection "/srv/goat" ["/srv/goat/config"])) true None.
Definition export_disk : FileSystem := <[["home"; "ana"; "out"] := Directory]>
  (<[["home"; "ana"] := Directory]> (<[["home"] := Directory]> disk)).
Definition export_write := [mkWriteCandidate "/home/ana/out/report.md" WriteIntent].
Definition no_digest (s : string) : string := "0123456789abcdef0123".
Definition folders_only (folders : list string) : GrantConstraints := mkConstraints [] [] [] None None None (Some folders) None.
Definition export_grant : ToolGrantCreateInput :=
  mkGrantInput "fs.write" "allow" "session" (Some "s1") (Some "ttl") (Some (folders_only ["/home/ana/out/"; "/home/ana/out"]))
    "ana" (Some "2026-01-01T01:00:00.000Z") None.

Definition the_question := OutsideRequiresApproval ["/home/ana/out/report.md"] [mkCandidateRoot "owr_0123456789abcdef" "/home/ana/out"].

Lemma outside_write_decision_witness :
  evaluateOutsideRootWrites export_disk no_digest "fs.write" None export_write [] open_sandbox true None (λ _, None)
    = Ok the_question ∧
  ∃ ctx, good_candidates export_disk no_digest ctx ["/home/ana/out/report.md"] [mkCandidateRoot "owr_0123456789abcdef" "/home/ana/out"].
Proof.
  assert (evaluateOutsideRootWrites export_disk no_digest "fs.write" None export_write [] open_sandbox true None (λ _, None)
    = Ok the_question) as Ha by (vm_compute; reflexivity).
  split; [exact Ha|].
  destruct (outside_write_decision linux_laws _ _ _ _ _ _ _ _ _ _ _ Ha) as [Hn|(ctx & resolved & _ & _ & _ & _ & _ & _ & _ & _ & _ & Ho)];
    [discriminate Hn|].
  destruct Ho as (<- & Hg & _). exists ctx. exact Hg.
Defined.

Lemma folder_grant_bounds_witness :
  ∃ out folders, validateWriteRootsGrantInput export_disk export_grant open_sandbox 1767225600000 = Ok out ∧
    (1 ≤ length folders ≤ 4)%nat ∧ out = export_grant <| g_constraints := Some (folders_only folders) |>.
Proof.
  destruct (validateWriteRootsGrantInput export_disk export_grant open_sandbox 1767225600000) as [out|e] eqn:E.
  - destruct (folder_grant_bounds linux_laws export_disk export_grant open_sandbox 1767225600000
      (folders_only ["/home/ana/out/"; "/home/ana/out"]) ["/home/ana/out/"; "/home/ana/out"] out eq_refl eq_refl E)
      as (ctx & t & ms & folders & _ & _ & _ & _ & _ & _ & _ & _ & Hout & Hlen & _).
    exists out, folders. split; [reflexivity|]. split; [exact Hlen|exact Hout].
  - vm_compute in E. discriminate E.
Defined.

(** ** The link that leads out *)

Lemma tree_wf : fs_wf tree.
Proof. apply (bool_decide_unpack _). vm_compute. done. Qed.

(** The jail normalises the text of a dangling link, the system follows it: in
    a well-formed tree a link x/../new below the jail, where x links outside,
    passes the check at new in the jail, and the file is created outside it. *)
Theorem climbing_link_escapes :
  fs_wf tree ∧
  assertWritePathInJail tree "workspace/tricky" ["./workspace"] = Ok ["w"; "workspace"; "new"] ∧
  openCreate tree (path_resolve cwd ["workspace/tricky"]) = Some ["out"; "new"] ∧
  isWithinAnyRoot tree ["out"; "new"] ["./workspace"] = false.
Proof. split; [exact tree_wf|]. vm_compute. done. Qed.
