(* ===== verification/ShellCommands.v ===== *)
(** * Commands of the shell tools

    packages/policy-engine/src/sandbox/shell-command-syntax.ts and the splitting
    of a command in tool-executor.ts.  A command is one program with its
    arguments, never a script: one function looks for shell operators, another
    splits the text into words.  Both walk the text with the same rules of
    quoting.  Then their theorems: [roles] reads a command once, telling plain
    from quoted characters; the scanner is the search for an operator among the
    plain ones, and the words are the text cut at the plain blanks.  Quoting each
    word and joining the results is undone by the splitting. *)
From S2P Require Import Prelude.
From S2P Require Import JsString.
From S2P Require Import Errors.
From S2P Require Import JsRegExp.

(** ** shell-command-syntax.ts *)

Record ShellScriptSyntaxFinding := mkFinding { construct : string }.

(** [/^\$[A-Za-z_{][\w:{}]*\s*(?:=|$|\s)/u]. *)
Definition LEADING_SHELL_VARIABLE : regexp :=
  RxSeq RxStart (RxSeq (RxChar "$") (RxSeq (RxClass (λ c, is_letter c || is_one_of "_{" c))
    (RxSeq (RxStar (RxClass (λ c, is_word c || is_one_of ":{}" c))) (RxSeq (RxStar (RxClass is_space))
      (RxAlt (RxChar "=") (RxAlt RxEnd (RxClass is_space))))))).

(** [/^[A-Za-z_][A-Za-z0-9_]*=/u]. *)
Definition LEADING_ENV_ASSIGNMENT : regexp :=
  RxSeq RxStart (RxSeq (RxClass (λ c, is_letter c || Ascii.eqb c "_")) (RxSeq (RxStar (RxClass is_word)) (RxChar "="))).

(** [/^&(?:\s|$)/u]. *)
Definition call_operator : regexp :=
  RxSeq RxStart (RxSeq (RxChar "&") (RxAlt (RxClass is_space) RxEnd)).

(** [/\s/u.test(x)] on a character that may be missing. *)
Definition space_at (c : option ascii) : bool := match c with Some c => is_space c | None => false end.

Definition first_char (s : string) : option ascii := match s with String c _ => Some c | EmptyString => None end.

Definition unquotedOperatorAt (char : ascii) (next previous : option ascii) : option ShellScriptSyntaxFinding :=
  if Ascii.eqb char lf || Ascii.eqb char cr then Some (mkFinding "a multi-line script")
  else if Ascii.eqb char ";" then Some (mkFinding "a command separator (;)")
  else if Ascii.eqb char "|" then
    Some (mkFinding (if bool_decide (next = Some "|"%char) then "command chaining (||)" else "a pipe (|)"))
  else if Ascii.eqb char "&" then
    if bool_decide (next = Some "&"%char) then Some (mkFinding "command chaining (&&)")
    else if space_at previous && (bool_decide (next = None) || space_at next)
    then Some (mkFinding "a background or call operator (&)")
    else None
  else if Ascii.eqb char ">" || Ascii.eqb char "<" then Some (mkFinding "output or input redirection (> or <)")
  else if Ascii.eqb char "$" then
    if bool_decide (next = Some "("%char) then Some (mkFinding "command substitution ($(...))")
    else if match next with Some c => is_letter c || is_one_of "_{" c | None => false end
    then Some (mkFinding "a shell variable reference ($NAME)")
    else None
  else None.

(** The variables of the two loops. *)
Record quoting := mkQuoting { inSingle : bool; inDouble : bool; escaping : bool }.
Definition unquoted : quoting := mkQuoting false false false.
Definition quoted_now (q : quoting) : bool := inSingle q || inDouble q.

Definition set_escaping (b : bool) (q : quoting) : quoting := mkQuoting (inSingle q) (inDouble q) b.
Definition toggle_single (q : quoting) : quoting := mkQuoting (negb (inSingle q)) (inDouble q) (escaping q).
Definition toggle_double (q : quoting) : quoting := mkQuoting (inSingle q) (negb (inDouble q)) (escaping q).

(** What a backslash escapes. *)
Definition escapable (c : ascii) : bool :=
  Ascii.eqb c dquote || Ascii.eqb c squote || Ascii.eqb c backslash || is_space c.
Definition escapable_next (next : option ascii) : bool := match next with Some c => escapable c | None => false end.

Fixpoint scan_loop (q : quoting) (previous : option ascii) (s : string) : option ShellScriptSyntaxFinding :=
  match s with
  | EmptyString => None
  | String char rest =>
      let next := first_char rest in
      if escaping q then scan_loop (set_escaping false q) (Some char) rest
      else if Ascii.eqb char backslash then scan_loop (set_escaping (escapable_next next) q) (Some char) rest
      else if Ascii.eqb char squote && negb (inDouble q) then scan_loop (toggle_single q) (Some char) rest
      else if Ascii.eqb char dquote && negb (inSingle q) then scan_loop (toggle_double q) (Some char) rest
      else if quoted_now q then scan_loop q (Some char) rest
      else match unquotedOperatorAt char next previous with
           | Some finding => Some finding
           | None => scan_loop q (Some char) rest
           end
  end.

Definition scanUnquotedOperators (input : string) : option ShellScriptSyntaxFinding := scan_loop unquoted None input.

Definition detectShellScriptSyntax (command : string) : option ShellScriptSyntaxFinding :=
  let input := trim command in
  if rx_test LEADING_SHELL_VARIABLE input
  then Some (mkFinding "a shell variable as the first word (for example $dir=...)")
  else if rx_test LEADING_ENV_ASSIGNMENT input
  then Some (mkFinding "an inline environment assignment as the first word (NAME=value)")
  else if rx_test call_operator input then Some (mkFinding "the PowerShell call operator (&)")
  else scanUnquotedOperators input.

Definition in_quotes (s : string) : string := String dquote (s +:+ String dquote "").

Definition formatShellScriptSyntaxError (toolName : string) (finding : ShellScriptSyntaxFinding) : string :=
  join " " [
    toolName +:+ " runs one program with its arguments and does not start a shell, so " +:+ construct finding
      +:+ " cannot work.";
    "Call the program directly (for example: msedge --headless --print-to-pdf=out.pdf page.html),";
    "or run the script through an explicit shell: pwsh -NoProfile -Command " +:+ in_quotes "<script>"
      +:+ " on Windows, sh -c " +:+ in_quotes "<script>" +:+ " elsewhere.";
    "For a long script, write it to a file with fs.write first and run it through its interpreter: pwsh -NoProfile -File script.ps1 or sh script.sh."].

(** ** tool-executor.ts *)

Definition assertNoShellScriptSyntax (toolName command : string) : res unit :=
  match detectShellScriptSyntax command with
  | Some finding => Err (JsError (formatShellScriptSyntaxError toolName finding))
  | None => Ok tt
  end.

Definition push_char (s : string) (c : ascii) : string := s +:+ String c "".

(** The loop of [parseExecFileCommand]: the words so far, the current one, and
    the state of the quotes at the end. *)
Fixpoint split_loop (q : quoting) (tokens : list string) (current : string) (s : string)
    : quoting * list string * string :=
  match s with
  | EmptyString => (q, tokens, current)
  | String char rest =>
      let next := first_char rest in
      if escaping q then split_loop (set_escaping false q) tokens (push_char current char) rest
      else if Ascii.eqb char backslash then
        if negb (escapable_next next) then split_loop q tokens (push_char current char) rest
        else split_loop (set_escaping true q) tokens current rest
      else if Ascii.eqb char squote && negb (inDouble q) then split_loop (toggle_single q) tokens current rest
      else if Ascii.eqb char dquote && negb (inSingle q) then split_loop (toggle_double q) tokens current rest
      else if negb (inSingle q) && negb (inDouble q) && is_space char then
        if (0 <? String.length current)%nat then split_loop q (tokens ++ [current]) "" rest
        else split_loop q tokens current rest
      else split_loop q tokens (push_char current char) rest
  end.

(** [tokens[0]] is missing when there is no word. *)
Record ExecCommand := mkExecCommand { file : option string; args : list string }.

Definition exec_command (tokens : list string) : ExecCommand := mkExecCommand (head tokens) (tail tokens).

Definition parseExecFileCommand (command : string) : res ExecCommand :=
  let input := trim command in
  if string_existsb (Ascii.eqb nul) input then Err (JsError "shell.exec command contains invalid null byte")
  else
    let '(q, tokens, current) := split_loop unquoted [] "" input in
    if escaping q || inSingle q || inDouble q
    then Err (JsError "shell.exec command has unmatched quotes or escape sequence")
    else Ok (exec_command (if (0 <? String.length current)%nat then tokens ++ [current] else tokens)).


(** ** The reading of a command *)

Inductive role := Plain | Quoted | Mark.

#[export] Instance role_eq_dec : EqDecision role.
Proof. solve_decision. Defined.

(** A character together with the part it plays: [Mark] is a quote or a
    backslash that stands for itself nowhere. *)
Fixpoint roles (q : quoting) (s : string) : list (ascii * role) :=
  match s with
  | EmptyString => []
  | String char rest =>
      let next := first_char rest in
      if escaping q then (char, Quoted) :: roles (set_escaping false q) rest
      else if Ascii.eqb char backslash then
        if escapable_next next then (char, Mark) :: roles (set_escaping true q) rest
        else (char, Quoted) :: roles q rest
      else if Ascii.eqb char squote && negb (inDouble q) then (char, Mark) :: roles (toggle_single q) rest
      else if Ascii.eqb char dquote && negb (inSingle q) then (char, Mark) :: roles (toggle_double q) rest
      else (char, if quoted_now q then Quoted else Plain) :: roles q rest
  end.

Fixpoint last_quoting (q : quoting) (s : string) : quoting :=
  match s with
  | EmptyString => q
  | String char rest =>
      let next := first_char rest in
      if escaping q then last_quoting (set_escaping false q) rest
      else if Ascii.eqb char backslash then last_quoting (set_escaping (escapable_next next) q) rest
      else if Ascii.eqb char squote && negb (inDouble q) then last_quoting (toggle_single q) rest
      else if Ascii.eqb char dquote && negb (inSingle q) then last_quoting (toggle_double q) rest
      else last_quoting q rest
  end.

Definition balanced (s : string) : bool :=
  let q := last_quoting unquoted s in negb (escaping q || inSingle q || inDouble q).

(** The words: plain blanks separate them, marks vanish. *)
Fixpoint words (current : string) (rs : list (ascii * role)) : list string :=
  match rs with
  | [] => if bool_decide (current = "") then [] else [current]
  | (c, Mark) :: rs => words current rs
  | (c, Plain) :: rs =>
      if is_space c then (if bool_decide (current = "") then [] else [current]) ++ words "" rs
      else words (push_char current c) rs
  | (c, Quoted) :: rs => words (push_char current c) rs
  end.

(** The first operator among the plain characters. *)
Fixpoint first_operator (previous : option ascii) (rs : list (ascii * role)) : option ShellScriptSyntaxFinding :=
  match rs with
  | [] => None
  | (c, r) :: rs =>
      match (if decide (r = Plain) then unquotedOperatorAt c (fst <$> head rs) previous else None) with
      | Some finding => Some finding
      | None => first_operator (Some c) rs
      end
  end.

Lemma roles_head q s : fst <$> head (roles q s) = first_char s.
Proof. destruct s; cbn; [done|]. by repeat case_match. Qed.

Lemma set_escaping_same q : escaping q = false → set_escaping false q = q.
Proof. destruct q; cbn. by intros ->. Qed.

Lemma scan_first_operator s : ∀ q previous, scan_loop q previous s = first_operator previous (roles q s).
Proof.
  induction s as [|c s IH]; intros q previous; [done|]. cbn [scan_loop roles].
  destruct (escaping q) eqn:He; [cbn [first_operator]; apply IH|].
  destruct (Ascii.eqb c backslash).
  { destruct (escapable_next (first_char s)); cbn [first_operator]; rewrite IH; [done|].
    by rewrite set_escaping_same. }
  destruct (_ && negb (inDouble q)); [cbn; apply IH|]. destruct (_ && negb (inSingle q)); [cbn; apply IH|].
  destruct (quoted_now q) eqn:Hq; cbn [first_operator]; [cbn; apply IH|].
  rewrite decide_True, roles_head, IH by done. done.
Qed.

Lemma nonempty_length s : (0 <? String.length s)%nat = negb (bool_decide (s = "")).
Proof. by destruct s. Qed.

Definition closed_words (current : string) (tokens : list string) : list string :=
  if (0 <? String.length current)%nat then tokens ++ [current] else tokens.

Lemma split_words s : ∀ q tokens current,
  let '(q', tokens', current') := split_loop q tokens current s in
  q' = last_quoting q s ∧ closed_words current' tokens' = tokens ++ words current (roles q s).
Proof.
  induction s as [|c s IH]; intros q tokens current; cbn [split_loop last_quoting roles].
  { split; [done|]. unfold closed_words. rewrite nonempty_length. cbn.
    case_bool_decide; cbn; [by rewrite app_nil_r|done]. }
  destruct (escaping q) eqn:He; [apply IH|]. destruct (Ascii.eqb c backslash) eqn:Hb.
  { destruct (escapable_next (first_char s)); cbn [negb words]; [apply IH|].
    rewrite set_escaping_same by done. apply IH. }
  destruct (_ && negb (inDouble q)); [apply IH|]. destruct (_ && negb (inSingle q)); [apply IH|].
  unfold quoted_now. destruct (inSingle q) eqn:Hs, (inDouble q) eqn:Hd; cbn [negb andb orb words]; try apply IH.
  destruct (is_space c); [|apply IH]. rewrite nonempty_length. case_bool_decide; cbn [negb]; [subst; apply IH|].
  specialize (IH q (tokens ++ [current]) ""). rewrite <-app_assoc in IH. apply IH.
Qed.

(** What [parseExecFileCommand] returns. *)
Lemma parse_exact command :
  parseExecFileCommand command =
    if string_existsb (Ascii.eqb nul) (trim command) then Err (JsError "shell.exec command contains invalid null byte")
    else if balanced (trim command) then Ok (exec_command (words "" (roles unquoted (trim command))))
    else Err (JsError "shell.exec command has unmatched quotes or escape sequence").
Proof.
  unfold parseExecFileCommand, balanced. case_match; [done|]. pose proof (split_words (trim command) unquoted [] "") as Hs.
  destruct (split_loop unquoted [] "" (trim command)) as [[q tokens] current] eqn:E. destruct Hs as [-> Hw].
  cbn [app] in Hw. rewrite <-Hw. unfold closed_words. by destruct (_ || _ || _).
Qed.

(** ** No plain operator *)

Definition blank_or_end (c : option ascii) : Prop := ∀ d, c = Some d → is_space d = true.

#[local] Ltac listed := by apply list_elem_of_In; cbn; auto 10.

(** What a shell would act on, by the characters on both sides: a separator, a
    pipe, a redirection or a line break; a doubled ampersand, or one that stands
    alone; the start of a substitution or of a variable. *)
Inductive shell_operator : option ascii → ascii → option ascii → Prop :=
  | op_separator previous c next : c ∈ [";"; "|"; "<"; ">"; lf; cr]%char → shell_operator previous c next
  | op_and previous : shell_operator previous "&" (Some "&"%char)
  | op_alone previous next : blank_or_end previous → blank_or_end next → shell_operator previous "&" next
  | op_dollar previous c : is_letter c = true ∨ c ∈ ["_"; "{"; "("]%char → shell_operator previous "$" (Some c).

Lemma is_one_of_elem (s : string) c : is_one_of s c = true ↔ c ∈ String.list_ascii_of_string s.
Proof.
  unfold is_one_of. induction s as [|d s IH]; cbn; [by rewrite elem_of_nil|].
  by rewrite orb_true_iff, IH, elem_of_cons, Ascii.eqb_eq.
Qed.

Lemma blank_or_end_spec c : blank_or_end c ↔ bool_decide (c = None) || space_at c = true.
Proof.
  unfold blank_or_end. destruct c as [c|]; cbn; [|naive_solver]. split; [by auto|by intros H d [= <-]].
Qed.

Lemma separator_found (c : ascii) next previous : c ∈ [";"; "|"; "<"; ">"; lf; cr]%char → unquotedOperatorAt c next previous ≠ None.
Proof.
  intros Hc. apply list_elem_of_In in Hc. repeat destruct Hc as [<-|Hc]; [discriminate..|destruct Hc].
Qed.

Lemma operator_spec c next previous :
  unquotedOperatorAt c next previous ≠ None ↔ shell_operator previous c next ∧ ¬ (c = "&"%char ∧ previous = None ∧ next ≠ Some "&"%char).
Proof.
  unfold unquotedOperatorAt. split.
  - destruct (Ascii.eqb_spec c lf) as [->|]; [by split; [constructor; listed|intros [? _]]|].
    destruct (Ascii.eqb_spec c cr) as [->|]; [by split; [constructor; listed|intros [? _]]|].
    destruct (Ascii.eqb_spec c ";") as [->|]; [by split; [constructor; listed|intros [? _]]|].
    destruct (Ascii.eqb_spec c "|") as [->|]; [by split; [constructor; listed|intros [? _]]|].
    destruct (Ascii.eqb_spec c "&") as [->|]; cbn [orb].
    { case_bool_decide as Hn; [subst; by split; [constructor|intros (_ & _ & [])]|].
      destruct (_ && _) eqn:E; [|done]. intros _. apply andb_true_iff in E as [Hp Hx]. apply blank_or_end_spec in Hx.
      split; [apply op_alone; [|done]|intros (_ & -> & _); done]. apply blank_or_end_spec. by rewrite Hp, orb_true_r. }
    destruct (Ascii.eqb_spec c ">") as [->|]; [by split; [constructor; listed|intros [? _]]|].
    destruct (Ascii.eqb_spec c "<") as [->|]; [by split; [constructor; listed|intros [? _]]|].
    destruct (Ascii.eqb_spec c "$") as [->|]; cbn [orb]; [|done]. destruct next as [d|]; [|done].
    case_bool_decide as Hn; [simplify_eq; by split; [apply op_dollar; right; listed|intros [? _]]|].
    destruct (_ || _) eqn:E; [|done]. split; [|by intros [? _]]. apply op_dollar.
    apply orb_true_iff in E as [?|E%is_one_of_elem]; [by left|right]. cbn in E. rewrite !elem_of_cons in *. naive_solver.
  - intros [Ho Hne]. destruct Ho as [previous c next Hc|previous|previous next Hp Hx|previous d Hd].
    + by apply separator_found.
    + done.
    + cbn. case_bool_decide; [done|]. apply blank_or_end_spec in Hp, Hx.
      destruct previous as [x|]; [|by destruct Hne]. rewrite Hx, andb_true_r. change (space_at (Some x) = true) in Hp. by rewrite Hp.
    + change ((if bool_decide (Some d = Some "("%char) then Some (mkFinding "command substitution ($(...))")
        else if is_letter d || is_one_of "_{" d then Some (mkFinding "a shell variable reference ($NAME)") else None) ≠ None).
      case_bool_decide as E; [done|]. destruct Hd as [->|Hd]; [done|].
      assert (is_one_of "_{" d = true) as ->; [|by rewrite orb_true_r].
      apply is_one_of_elem. change (d ∈ ["_"; "{"]%char). rewrite !elem_of_cons in *. naive_solver.
Qed.

Lemma first_operator_none rs : ∀ previous, first_operator previous rs = None ↔
  ∀ l c r, rs = l ++ (c, Plain) :: r →
    unquotedOperatorAt c (fst <$> head r) (if last l is Some x then Some x.1 else previous) = None.
Proof.
  induction rs as [|[d x] rs IH]; intros previous; cbn [first_operator].
  { split; [|done]. intros _ l c r E. by destruct l. }
  transitivity ((x = Plain → unquotedOperatorAt d (fst <$> head rs) previous = None) ∧ first_operator (Some d) rs = None).
  { destruct (decide (x = Plain)); [|naive_solver]. destruct (unquotedOperatorAt _ _ _); naive_solver. }
  rewrite IH. split.
  - intros [Hd Hrs] [|y l] c r E; simplify_eq/=; [by apply Hd|]. specialize (Hrs l c r eq_refl).
    rewrite last_cons. by destruct (last l).
  - intros H. split; [by intros ->; apply (H [])|]. intros l c r ->. specialize (H ((d, x) :: l) c r eq_refl).
    rewrite last_cons in H. by destruct (last l).
Qed.

(** [NAME=] in front. *)
Definition env_assignment (s : string) : Prop :=
  ∃ c name rest, s = String c (name +:+ String "=" rest) ∧ (is_letter c = true ∨ c = "_"%char) ∧ string_forallb is_word name = true.

(** No script: read once, no plain character is one of the shell's operators,
    and the first word sets no variable. *)
Definition no_script (s : string) : Prop :=
  (∀ l c r, roles unquoted s = l ++ (c, Plain) :: r → ¬ shell_operator (fst <$> last l) c (fst <$> head r)) ∧
  ¬ env_assignment s.

Lemma rx_test_anchored r s : rx_test (RxSeq RxStart r) s = true ↔ ∃ q, rx_match r (None, s) q.
Proof.
  rewrite rx_test_spec. setoid_rewrite match_seq_inv. setoid_rewrite match_start_inv. split.
  - intros (a & b & q & -> & t & [Ha ->] & Hq). cbn in Ha. apply last_char_none in Ha as ->. by exists q.
  - intros (q & Hq). exists "", s, q. split; [done|]. by exists (None, s).
Qed.

Lemma env_assignment_spec s : rx_test LEADING_ENV_ASSIGNMENT s = true ↔ env_assignment s.
Proof.
  unfold LEADING_ENV_ASSIGNMENT, env_assignment, RxChar. rewrite rx_test_anchored. setoid_rewrite match_seq_inv.
  setoid_rewrite match_seq_inv. setoid_rewrite match_class_inv. setoid_rewrite match_star_class_inv. split.
  - intros (q & [t1 t2] & (c & E & _ & Hc) & u & (m & b & Em & Hm & ->) & (d & Ed & _ & Hd)). cbn [fst snd] in *.
    apply Ascii.eqb_eq in Hd. subst. exists c, m, q.2. split_and!; [done| |done].
    apply orb_true_iff in Hc as [?|?%Ascii.eqb_eq]; auto.
  - intros (c & name & rest & -> & Hc & Hn). exists (Some "="%char, rest), (Some c, name +:+ String "=" rest). split.
    + exists c. split_and!; [done..|]. apply orb_true_iff. destruct Hc as [?| ->]; auto.
    + exists (last_char (Some c) name, String "=" rest). split; [by exists name, (String "=" rest)|by exists "="%char].
Qed.

Lemma leading_variable_plain s : rx_test LEADING_SHELL_VARIABLE s = true → ∃ c rest,
  s = String "$" (String c rest) ∧ (is_letter c || is_one_of "_{" c) = true.
Proof.
  unfold LEADING_SHELL_VARIABLE, RxChar. rewrite rx_test_anchored. intros (q & H). apply match_seq_inv in H as ([t1 t2] & Hd & H).
  apply match_class_inv in Hd as (d & E & _ & Hd%Ascii.eqb_eq). apply match_seq_inv in H as ([u1 u2] & Hc & _).
  apply match_class_inv in Hc as (c & Ec & _ & Hc). cbn [fst snd] in *. subst. by exists c, u2.
Qed.

Lemma call_operator_spec s : rx_test call_operator s = true ↔ ∃ rest, s = String "&" rest ∧ blank_or_end (first_char rest).
Proof.
  unfold call_operator, RxChar. rewrite rx_test_anchored. setoid_rewrite match_seq_inv. setoid_rewrite match_alt_inv.
  setoid_rewrite match_class_inv. setoid_rewrite match_end_inv. split.
  - intros (q & [t1 t2] & (c & E & _ & Hc%Ascii.eqb_eq) & Hr). cbn [fst snd] in *. subst. exists t2. split; [done|].
    destruct Hr as [(d & -> & _ & Hd)|[-> _]]; [by intros ? [= <-]|done].
  - intros (rest & -> & Hr). destruct rest as [|d rest].
    + exists (Some "&"%char, ""), (Some "&"%char, ""). split; [by exists "&"%char|by right].
    + exists (Some d, rest), (Some "&"%char, String d rest). split; [by exists "&"%char|left]. exists d. cbn. auto.
Qed.

Lemma call_operator_plain s : (∃ rest, s = String "&" rest ∧ blank_or_end (first_char rest)) ↔
  ∃ r, roles unquoted s = ("&"%char, Plain) :: r ∧ blank_or_end (fst <$> head r).
Proof.
  split.
  - intros (rest & -> & Hr). exists (roles unquoted rest). by rewrite roles_head.
  - intros (r & E & Hr). destruct s as [|c s]; [done|]. cbn in E.
    assert (c = "&"%char ∧ r = roles unquoted s) as [-> ->] by (repeat case_match; by simplify_eq).
    exists s. by rewrite roles_head in Hr.
Qed.

(** The check on the syntax of a command refuses exactly the scripts. *)
Lemma no_script_spec toolName command : assertNoShellScriptSyntax toolName command = Ok tt ↔ no_script (trim command).
Proof.
  unfold assertNoShellScriptSyntax, detectShellScriptSyntax, scanUnquotedOperators, no_script. set (s := trim command). clearbody s.
  rewrite scan_first_operator, <-env_assignment_spec.
  transitivity (rx_test LEADING_SHELL_VARIABLE s = false ∧ rx_test LEADING_ENV_ASSIGNMENT s = false ∧
    rx_test call_operator s = false ∧ first_operator None (roles unquoted s) = None).
  { destruct (rx_test LEADING_SHELL_VARIABLE s), (rx_test LEADING_ENV_ASSIGNMENT s), (rx_test call_operator s),
      (first_operator None (roles unquoted s)); naive_solver. }
  rewrite first_operator_none. split.
  - intros (_ & He & Hc & Ho). split; [|by rewrite He]. intros l c r E Hop. specialize (Ho l c r E).
    assert (fst <$> last l = if last l is Some x then Some x.1 else None) as Hl by (by destruct (last l)).
    rewrite Hl in Hop. apply not_true_iff_false in Hc. rewrite call_operator_spec, call_operator_plain in Hc.
    destruct (decide (c = "&"%char ∧ last l = None ∧ fst <$> head r ≠ Some "&"%char)) as [(-> & Hn & Hx)|Hd].
    + apply last_None in Hn as ->. apply Hc. exists r. split; [done|]. inversion Hop; simplify_eq; [by apply list_elem_of_In in H; cbn in H; destruct_or! H|done].
    + apply (operator_spec c (fst <$> head r) (if last l is Some x then Some x.1 else None)); [|done].
      split; [done|]. contradict Hd. destruct Hd as (? & ? & ?). destruct (last l); [done|]. done.
  - intros [Ho He]. apply not_true_iff_false in He. split_and!; [| done| |].
    + apply not_true_iff_false. intros (c & rest & -> & Hc)%leading_variable_plain.
      apply (Ho [] "$"%char (roles unquoted (String c rest)) eq_refl). rewrite roles_head. apply op_dollar.
      apply orb_true_iff in Hc as [?|Hc%is_one_of_elem]; [by left|right]. cbn in Hc. rewrite !elem_of_cons in *. naive_solver.
    + apply not_true_iff_false. rewrite call_operator_spec, call_operator_plain. intros (r & E & Hr).
      by apply (Ho [] _ r E), op_alone.
    + intros l c r E. specialize (Ho l c r E). destruct (unquotedOperatorAt _ _ _) eqn:Eo; [|done]. exfalso. apply Ho.
      apply (operator_spec c (fst <$> head r)). assert (fst <$> last l = if last l is Some x then Some x.1 else None) as ->
        by (by destruct (last l)). by rewrite Eo.
Qed.

(** A command that passes the syntax check and is split is read once: the
    program and its arguments are the words between the plain blanks, every
    quote is closed, and none of the shell's operators reaches the program but
    as quoted text. *)
Lemma accepted_command_is_words toolName command cmd :
  assertNoShellScriptSyntax toolName command = Ok tt ∧ parseExecFileCommand command = Ok cmd ↔
    no_script (trim command) ∧ string_existsb (Ascii.eqb nul) (trim command) = false ∧
    balanced (trim command) = true ∧ cmd = exec_command (words "" (roles unquoted (trim command))).
Proof.
  rewrite no_script_spec, parse_exact. destruct (string_existsb _ _); [naive_solver|]. destruct (balanced _); naive_solver.
Qed.

Example script_examples :
  (∀ toolName, assertNoShellScriptSyntax toolName "grep -n 'a|b' file.txt" = Ok tt) ∧
  parseExecFileCommand "grep -n 'a|b' file.txt" = Ok (mkExecCommand (Some "grep") ["-n"; "a|b"; "file.txt"]) ∧
  ¬ no_script "sleep 9 & ls" ∧ ¬ no_script "& 'C:\a b\c.exe'" ∧ ¬ no_script "A=1 node x" ∧ no_script "R&D -x".
Proof.
  split_and!; [done|done| | | |].
  - by intros H%(no_script_spec "shell.exec" "sleep 9 & ls").
  - by intros H%(no_script_spec "shell.exec" "& 'C:\a b\c.exe'").
  - by intros H%(no_script_spec "shell.exec" "A=1 node x").
  - by apply (no_script_spec "shell.exec" "R&D -x").
Qed.

(** ** Quoting is undone *)

(** A word inside double quotes, with its quotes and backslashes escaped. *)
Fixpoint escape_word (w : string) : string :=
  match w with
  | EmptyString => EmptyString
  | String c w =>
      if Ascii.eqb c dquote || Ascii.eqb c backslash then String backslash (String c (escape_word w))
      else String c (escape_word w)
  end.

Definition quote_word (w : string) : string := in_quotes (escape_word w).
Definition quote_command (ws : list string) : string := join " " (quote_word <$> ws).

Definition in_double : quoting := mkQuoting false true false.

(** [s] is read as [rs] from the state [q] and leaves the state [q']: in front
    of any rest, without a plain character other than a blank. *)
Definition reads (q : quoting) (s : string) (rs : list (ascii * role)) (q' : quoting) : Prop :=
  ∀ rest, roles q (s +:+ rest) = rs ++ roles q' rest ∧ last_quoting q (s +:+ rest) = last_quoting q' rest.

(** [rs] adds [w] to the current word. *)
Definition spells (rs : list (ascii * role)) (w : string) : Prop :=
  Forall (λ x, x.2 ≠ Plain) rs ∧ ∀ current rs', words current (rs ++ rs') = words (current +:+ w) rs'.

Lemma reads_app q s rs q' s' rs' q'' : reads q s rs q' → reads q' s' rs' q'' → reads q (s +:+ s') (rs ++ rs') q''.
Proof.
  intros H H' rest. rewrite append_assoc, <-app_assoc. destruct (H (s' +:+ rest)) as [-> ->].
  by destruct (H' rest) as [-> ->].
Qed.

Lemma push_char_app current c w : push_char current c +:+ w = current +:+ String c w.
Proof. unfold push_char. by rewrite append_assoc. Qed.

Lemma spells_quoted c rs w : spells rs w → spells ((c, Quoted) :: rs) (String c w).
Proof.
  intros [Hf Hw]. split; [by constructor|]. intros current rs'. cbn [app words]. by rewrite Hw, push_char_app.
Qed.

Lemma spells_mark c rs w : spells rs w → spells ((c, Mark) :: rs) w.
Proof. intros [Hf Hw]. split; [by constructor|]. intros current rs'. cbn [app words]. apply Hw. Qed.

Lemma spells_app rs w rs' w' : spells rs w → spells rs' w' → spells (rs ++ rs') (w +:+ w').
Proof.
  intros [Hf Hw] [Hf' Hw']. split; [by apply Forall_app|]. intros current rest.
  by rewrite <-app_assoc, Hw, Hw', append_assoc.
Qed.

Lemma reads_escape_word w : ∃ rs, reads in_double (escape_word w) rs in_double ∧ spells rs w.
Proof.
  induction w as [|c w (rs & Hr & Hs)].
  { exists []. split; [done|]. split; [constructor|]. intros. cbn. by rewrite append_nil_r. }
  cbn [escape_word]. destruct (_ || _) eqn:Hc.
  - exists ((backslash, Mark) :: (c, Quoted) :: rs). split; [|by apply spells_mark, spells_quoted].
    assert (escapable c = true) as He by (unfold escapable; apply orb_true_iff in Hc as [->| ->]; by rewrite ?orb_true_r).
    intros rest. cbn [String.append roles last_quoting escaping in_double].
    change (Ascii.eqb backslash backslash) with true. cbn [first_char escapable_next]. rewrite He.
    change (set_escaping true in_double) with (mkQuoting false true true). cbn [escaping].
    change (set_escaping false _) with in_double. destruct (Hr rest) as [Hr1 Hr2]. cbn beta iota. by rewrite Hr1, Hr2.
  - exists ((c, Quoted) :: rs). split; [|by apply spells_quoted].
    apply orb_false_iff in Hc as [Hd Hb]. intros rest. destruct (Hr rest) as [Hr1 Hr2].
    cbn [String.append roles last_quoting escaping in_double]. rewrite Hb, Hd. cbn [inDouble inSingle negb quoted_now orb].
    rewrite andb_false_r. cbn. by rewrite Hr1, Hr2.
Qed.

Lemma reads_quote_word w : ∃ rs, reads unquoted (quote_word w) rs unquoted ∧ spells rs w.
Proof.
  destruct (reads_escape_word w) as (rs & Hr & Hs). exists ((dquote, Mark) :: rs ++ [(dquote, Mark)]). split.
  - intros rest. destruct (Hr (String dquote rest)) as [Hr1 Hr2].
    unfold quote_word, in_quotes. cbn [String.append]. rewrite append_assoc. cbn.
    change (toggle_double unquoted) with in_double. rewrite Hr1, Hr2. by rewrite <-app_assoc.
  - apply spells_mark. rewrite <-(append_nil_r w). apply spells_app; [done|]. apply spells_mark.
    split; [constructor|]. intros. by rewrite append_nil_r.
Qed.

Lemma quote_command_reads ws : Forall (λ w, w ≠ "") ws →
  words "" (roles unquoted (quote_command ws)) = ws ∧ last_quoting unquoted (quote_command ws) = unquoted ∧
  ∀ previous, first_operator previous (roles unquoted (quote_command ws)) = None.
Proof.
  intros Hws. assert (∀ rs rs', Forall (λ x : ascii * role, x.2 ≠ Plain) rs → (∀ p, first_operator p rs' = None) →
    ∀ p, first_operator p (rs ++ rs') = None) as Hop.
  { intros rs rs'. induction 1 as [|x rs Hx _ IH]; [auto|]. intros Hp p. destruct x as [c r]. cbn in Hx |- *.
    rewrite decide_False by done. by apply IH. }
  induction Hws as [|w ws Hw _ (IH1 & IH2 & IH3)]; [done|].
  destruct (reads_quote_word w) as (rs & Hr & Hf & Hs). unfold quote_command in *.
  destruct ws as [|w' ws].
  - cbn [fmap list_fmap join]. destruct (Hr "") as [Hr1 Hr2]. rewrite append_nil_r in Hr1, Hr2. rewrite Hr1, Hr2, Hs. cbn.
    rewrite bool_decide_eq_false_2 by done. split_and!; [done..|]. by apply Hop.
  - rewrite !fmap_cons in *. set (tail := join " " (quote_word w' :: (quote_word <$> ws))) in *.
    change (join " " _) with (quote_word w +:+ (" " +:+ tail)). destruct (Hr (" " +:+ tail)) as [Hr1 Hr2].
    rewrite Hr1, Hr2, Hs. clearbody tail. cbn. change (is_space " ") with true. cbn.
    rewrite bool_decide_eq_false_2 by done. cbn. rewrite IH1. split_and!; [done..|]. apply Hop; [done|].
    intros p. cbn [first_operator]. rewrite decide_True by done.
    change (unquotedOperatorAt _ _ p) with (@None ShellScriptSyntaxFinding). apply IH3.
Qed.

Lemma quote_command_in_quotes ws : ws ≠ [] → ∃ m, quote_command ws = in_quotes m.
Proof.
  intros Hws. unfold quote_command. induction ws as [|w ws IH]; [done|]. rewrite fmap_cons.
  destruct ws as [|w' ws]; [by exists (escape_word w)|]. destruct IH as (m & E); [done|]. rewrite fmap_cons in *.
  change (join " " _) with (quote_word w +:+ (" " +:+ join " " (quote_word w' :: (quote_word <$> ws)))). rewrite E.
  exists (escape_word w +:+ String dquote (" " +:+ String dquote m)).
  unfold quote_word, in_quotes. cbn [String.append]. by rewrite !append_assoc.
Qed.

Lemma trim_in_quotes m : trim (in_quotes m) = in_quotes m.
Proof.
  unfold trim, in_quotes. cbn [trim_start]. change (is_space dquote) with false. cbv iota.
  change (String dquote (m +:+ String dquote "")) with (String dquote m +:+ String dquote "").
  by rewrite trim_end_app_char.
Qed.

Lemma quote_command_no_nul ws : Forall (λ w, string_existsb (Ascii.eqb nul) w = false) ws →
  string_existsb (Ascii.eqb nul) (quote_command ws) = false.
Proof.
  assert (∀ w, string_existsb (Ascii.eqb nul) w = false → string_existsb (Ascii.eqb nul) (quote_word w) = false) as Hq.
  { intros w Hw. unfold quote_word, in_quotes. cbn [string_existsb]. rewrite string_existsb_append.
    change (Ascii.eqb nul dquote) with false. cbn. rewrite orb_false_r.
    induction w as [|c w IH]; [done|]. cbn in Hw. apply orb_false_iff in Hw as [Hc Hw].
    cbn [escape_word]. destruct (_ || _); cbn; by rewrite Hc, IH. }
  unfold quote_command. induction 1 as [|w ws Hw Hws IH]; [done|]. rewrite fmap_cons.
  destruct ws as [|w' ws]; [by apply Hq|]. rewrite fmap_cons in *.
  change (join " " _) with (quote_word w +:+ (" " +:+ join " " (quote_word w' :: (quote_word <$> ws)))).
  rewrite !string_existsb_append, (Hq w Hw), IH. done.
Qed.

(** C27. A program and its arguments, each put in double quotes with its quotes and
    backslashes escaped, pass the syntax check whatever characters they hold and
    are split back into themselves; only empty words and NUL are out of reach. *)
Theorem quoted_command_roundtrip toolName ws :
  ws ≠ [] → Forall (λ w, w ≠ "" ∧ string_existsb (Ascii.eqb nul) w = false) ws →
  assertNoShellScriptSyntax toolName (quote_command ws) = Ok tt ∧
  parseExecFileCommand (quote_command ws) = Ok (mkExecCommand (head ws) (tail ws)).
Proof.
  intros Hne [Hws Hnul]%Forall_and. destruct (quote_command_reads ws Hws) as (Hw & Hq & Ho).
  destruct (quote_command_in_quotes ws Hne) as (m & E).
  assert (trim (quote_command ws) = quote_command ws) as Ht by (rewrite E; apply trim_in_quotes). split.
  - unfold assertNoShellScriptSyntax, detectShellScriptSyntax, scanUnquotedOperators.
    rewrite Ht, scan_first_operator, Ho, E.
    unfold LEADING_SHELL_VARIABLE, LEADING_ENV_ASSIGNMENT, call_operator. by rewrite !rx_test_start.
  - rewrite parse_exact, Ht, quote_command_no_nul by done. unfold balanced. by rewrite Hq, Hw.
Qed.

Lemma quoted_command_roundtrip_witness :
  let ws := ["git"; "commit"; "-m"; "fix: a | b; rm > $x 'quoted'"] in
  assertNoShellScriptSyntax "shell.exec" (quote_command ws) = Ok tt ∧
  parseExecFileCommand (quote_command ws) = Ok (mkExecCommand (head ws) (tail ws)).
Proof. apply quoted_command_roundtrip; [done|]. repeat constructor; done. Defined.
