(* ===== verification/ShellRisk.v ===== *)
(** * Risky commands and arguments

    packages/policy-engine/src/sandbox: pattern-utils.ts, the patterns of both
    gates; windows-shell-risk.ts, the inspection of commands handed to cmd or
    PowerShell; shell-risk-gate.ts and argument-risk-gate.ts.  What the source
    uses of Node's Buffer is the class [NodeBuffer]. *)
From stdpp Require Import pretty.
From S2P Require Import Prelude.
From S2P Require Import JsString.
From S2P Require Import JsRegExp.
From S2P Require Import JsJson.
From S2P Require Import ToolPatterns.

(** ** pattern-utils.ts *)

(** [(^|\s|[;&|()])] and [($|\s|[;&|()])]. *)
Definition boundary_char (c : ascii) : bool := is_space c || is_one_of ";&|()" c.
Definition RISK_COMMAND_BOUNDARY_START : regexp := RxAlt RxStart (RxClass boundary_char).
Definition RISK_COMMAND_BOUNDARY_END : regexp := RxAlt RxEnd (RxClass boundary_char).

(** The class of [escapeRegExp] is the one of tool-patterns.ts and the star. *)
Fixpoint escapeRegExp (value : string) : string :=
  match value with
  | EmptyString => EmptyString
  | String c rest =>
      if is_escaped c || Ascii.eqb c "*" then String backslash (String c (escapeRegExp rest))
      else String c (escapeRegExp rest)
  end.

(** [replace(/\s+/g, " ")]. *)
Fixpoint collapse_spaces (in_run : bool) (s : string) : string :=
  match s with
  | EmptyString => EmptyString
  | String c rest =>
      if is_space c then if in_run then collapse_spaces true rest else String " " (collapse_spaces true rest)
      else String c (collapse_spaces false rest)
  end.

Definition normalizeRiskText (value : string) : string := collapse_spaces false (trim value).

(** The text between the boundaries. *)
Definition risk_source (pattern : string) : string :=
  if has_star pattern then replace_all "\*" ".*" (escapeRegExp pattern) else escapeRegExp pattern.

(** A term under the flag [i]. *)
Definition term_regexp (t : regex_term) : regexp :=
  match t with
  | RChar c => RxCharCI c
  | RDot => RxClass is_dot
  | RDotStar => RxStar (RxClass is_dot)
  end.

Fixpoint terms_regexp (terms : list regex_term) (after : regexp) : regexp :=
  match terms with [] => after | t :: terms => RxSeq (term_regexp t) (terms_regexp terms after) end.

(** [pattern.startsWith("*")] and [pattern.endsWith("*")]. *)
Definition compileBoundedRiskPattern (pattern : string) : regexp :=
  let terms := default [] (parse_regex (risk_source pattern)) in
  let prefix := if has_star pattern && starts_with "*" pattern then RxEmpty else RISK_COMMAND_BOUNDARY_START in
  let suffix := if has_star pattern && ends_with "*" pattern then RxEmpty else RISK_COMMAND_BOUNDARY_END in
  RxSeq prefix (terms_regexp terms suffix).

(** ** windows-shell-risk.ts *)

(** What is used of [Buffer]: [Buffer.from(s, "base64")] as bytes, and
    [toString] of bytes in base64 and in UTF-16. *)
Class NodeBuffer := {
  from_base64 : string → string;
  to_base64 : string → string;
  to_utf16le : string → string
}.

Definition MAX_COMMAND_CHARS : nat := 32768.
Definition MAX_TOKENS : nat := 512.
Definition MAX_NESTING : nat := 3.

(** [ALIASES[name] ?? name.replace(/\.exe$/, "")]: the text of the value, and
    whether it is a string.  Two lower-case names are found on the prototype of
    every object. *)
Definition alias_or_name (name : string) : string * bool :=
  if bool_decide (name = "remove-item") then ("rm", true)
  else if bool_decide (name = "ri") then ("rm", true)
  else if bool_decide (name = "rd") then ("rmdir", true)
  else if bool_decide (name = "erase") then ("del", true)
  else if bool_decide (name = "constructor") then ("function Object() { [native code] }", false)
  else if bool_decide (name = "__proto__") then ("[object Object]", false)
  else (if ends_with ".exe" name then string_take (String.length name - 4) name else name, true).

Definition INDIRECT_COMMANDS : list string :=
  ["invoke-expression"; "iex"; "start-process"; "saps"; "invoke-command"; "icm"; "set-alias"; "new-alias"; "sal";
   "nal"; "call"; "cmd"; "cmd.exe"; "powershell"; "powershell.exe"; "pwsh"; "pwsh.exe"].

Record Token := mkToken { value : string; quoted : bool }.

(** [(value.split(/[\\/]/).at(-1) ?? value).toLowerCase()]. *)
Fixpoint last_segment (segment s : string) : string :=
  match s with
  | EmptyString => segment
  | String c rest => if is_one_of "\/" c then last_segment "" rest else last_segment (segment +:+ String c "") rest
  end.
Definition basename (v : string) : string := to_lower (last_segment "" v).

(** The text in front of the first [q], if there is one. *)
Fixpoint upto (q : ascii) (s : string) : option string :=
  match s with
  | EmptyString => None
  | String c rest => if Ascii.eqb c q then Some "" else String c <$> upto q rest
  end.

Fixpoint nonspace_run (s : string) : string :=
  match s with
  | EmptyString => EmptyString
  | String c rest => if is_space c then "" else String c (nonspace_run rest)
  end.

(** The first word as the expression of [inspectWindowsShellRisk] captures it: the
    text in a pair of quotes, or the run up to a blank; empty without a match. *)
Definition executable_word (command : string) : string :=
  let s := trim_start command in
  match s with
  | EmptyString => ""
  | String c rest =>
      if Ascii.eqb c dquote || Ascii.eqb c squote then
        match upto c rest with Some (String _ _ as word) => word | _ => nonspace_run s end
      else nonspace_run s
  end.

Definition is_powershell (name : string) : bool :=
  bool_decide (name ∈ ["powershell"; "pwsh"; "powershell.exe"; "pwsh.exe"]).
Definition is_cmd (name : string) : bool := bool_decide (name ∈ ["cmd"; "cmd.exe"]).

(** The loop of [tokenize]; [None] is a throw, which the caller turns into the
    same answer whatever its message. *)
Record tokenizer := mkTokenizer { tk_tokens : list Token; tk_value : string; tk_quote : option ascii; tk_quoted : bool }.

Definition emit (t : tokenizer) : option tokenizer :=
  let tokens := if truthy (tk_value t) || tk_quoted t then tk_tokens t ++ [mkToken (tk_value t) (tk_quoted t)] else tk_tokens t in
  if (MAX_TOKENS <? length tokens)%nat then None else Some (mkTokenizer tokens "" (tk_quote t) false).

Definition add_char (c : ascii) (t : tokenizer) : tokenizer :=
  mkTokenizer (tk_tokens t) (tk_value t +:+ String c "") (tk_quote t) (tk_quoted t).
Definition add_token (text : string) (t : tokenizer) : tokenizer :=
  mkTokenizer (tk_tokens t ++ [mkToken text false]) (tk_value t) (tk_quote t) (tk_quoted t).
Definition set_quote (q : option ascii) (quoted : bool) (t : tokenizer) : tokenizer :=
  mkTokenizer (tk_tokens t) (tk_value t) q quoted.

Fixpoint tokenize_loop (script : bool) (t : tokenizer) (source : string) : option tokenizer :=
  match source with
  | EmptyString => Some t
  | String char rest =>
      match tk_quote t with
      | Some q =>
          if Ascii.eqb char q then
            match rest with
            | String next rest' =>
                if Ascii.eqb next q then tokenize_loop script (add_char char t) rest'
                else tokenize_loop script (set_quote None (tk_quoted t) t) rest
            | EmptyString => tokenize_loop script (set_quote None (tk_quoted t) t) rest
            end
          else if script && Ascii.eqb q dquote && is_one_of "$`!%" char then None
          else tokenize_loop script (add_char char t) rest
      | None =>
          if Ascii.eqb char dquote || Ascii.eqb char squote then tokenize_loop script (set_quote (Some char) true t) rest
          else if script && is_one_of "$`{}()<>!%^" char then None
          else if is_space char then
            t ← emit t;
            tokenize_loop script (if script && (Ascii.eqb char cr || Ascii.eqb char lf) then add_token ";" t else t) rest
          else if script && is_one_of ";&|" char then
            t ← emit t;
            match rest with
            | String next rest' =>
                if Ascii.eqb next char && negb (Ascii.eqb char ";")
                then tokenize_loop script (add_token (String char (String next "")) t) rest'
                else tokenize_loop script (add_token (String char "") t) rest
            | EmptyString => tokenize_loop script (add_token (String char "") t) rest
            end
          else tokenize_loop script (add_char char t) rest
      end
  end.

Definition tokenize (source : string) (script : bool) : option (list Token) :=
  t ← tokenize_loop script (mkTokenizer [] "" None false) source;
  match tk_quote t with Some _ => None | None => tk_tokens <$> emit t end.

(** The runs between separators, empty ones left out. *)
Definition is_command_separator (t : Token) : bool := negb (quoted t) && bool_decide (value t ∈ [";"; "|"; "&"; "&&"; "||"]).
Fixpoint segments (segment : list Token) (tokens : list Token) : list (list Token) :=
  match tokens with
  | [] => match segment with [] => [] | _ => [segment] end
  | t :: tokens =>
      if is_command_separator t then match segment with [] => [] | _ => [segment] end ++ segments [] tokens
      else segments (segment ++ [t]) tokens
  end.

(** ** inspectWindowsShellRisk *)

Definition windows_shell_uninspectable : string := "windows_shell_uninspectable".
Definition windows_shell_indirect_execution : string := "windows_shell_indirect_execution".

(** The flags before the script, compared without case. *)
Definition is_flag (powershell : bool) (v : string) : bool :=
  bool_decide (to_lower v ∈ if powershell then ["-command"; "-c"; "-encodedcommand"; "-enc"] else ["/c"]).
Definition is_switch (powershell : bool) (v : string) : bool :=
  bool_decide (to_lower v ∈ if powershell then ["-noprofile"; "-nologo"; "-noninteractive"] else ["/d"; "/s"; "/q"]).

(** The switches in front of the first flag behind the program, that flag, and
    the words of the script; [None] when there is no flag. *)
Fixpoint split_flag (powershell : bool) (words : list Token) : option (list Token * string * list Token) :=
  match words with
  | [] => None
  | t :: words =>
      if is_flag powershell (value t) then Some ([], to_lower (value t), words)
      else '(switches, flag, rest) ← split_flag powershell words; Some (t :: switches, flag, rest)
  end.

(** [/^[a-z0-9+/]+={0,2}$/i]. *)
Definition base64_text : regexp :=
  let equal := RxAlt RxEmpty (RxChar "=") in
  let digit := RxClass (λ c, is_alnum c || is_one_of "+/" c) in
  RxSeq RxStart (RxSeq digit (RxSeq (RxStar digit) (RxSeq equal (RxSeq equal RxEnd)))).

Section windows.
Context `{NodeBuffer}.

(** The script that PowerShell decodes. *)
Definition decode_script (script : string) : option string :=
  if negb (rx_test base64_text script) then None
  else
    let bytes := from_base64 script in
    if negb (Nat.even (String.length bytes)) || negb (bool_decide (to_base64 bytes = script)) then None
    else Some (to_utf16le bytes).

(** The script of a command for the shell, or [None] when it cannot be read. *)
Definition inspected_script (powershell : bool) (command : string) : option string :=
  if (MAX_COMMAND_CHARS <? String.length command)%nat then None
  else
    words ← tokenize command false;
    '(switches, flag, rest) ← split_flag powershell (tail words);
    if existsb (λ t, negb (is_switch powershell (value t))) switches then None
    else
      let script := join " " (value <$> rest) in
      script ← (if powershell && bool_decide (flag ∈ ["-encodedcommand"; "-enc"]) then decode_script script else Some script);
      if negb (truthy (trim script)) || (MAX_COMMAND_CHARS <? String.length script)%nat then None else Some script.

(** [basename(tokens[0]?.value ?? "")]. *)
Definition segment_name (tokens : list Token) : string := basename (default "" (value <$> head tokens)).

Definition runs_script_file (name : string) : bool :=
  ends_with ".ps1" name || ends_with ".cmd" name || ends_with ".bat" name || bool_decide (name = ".").

(** A segment as one command line again. *)
Definition nested_command (tokens : list Token) : string :=
  join " " ((λ t, if quoted t
                  then String dquote (replace_char dquote (String backslash (String dquote "")) (value t) +:+ String dquote "")
                  else value t) <$> tokens).

(** [normalizedPattern.split(/\s/)[0]?.toLowerCase()]. *)
Definition expected_command (normalizedPattern : string) : string := to_lower (nonspace_run normalizedPattern).

Definition segment_pattern_risk (patterns : list string) (tokens : list Token) : option string :=
  let '(name, is_string) := alias_or_name (segment_name tokens) in
  let surface := join " " (name :: (value <$> tail tokens)) in
  List.find (λ pattern,
    let normalizedPattern := normalizeRiskText pattern in
    let expected := expected_command normalizedPattern in
    (starts_with "*" normalizedPattern || has_star expected || (is_string && bool_decide (expected = name))) &&
    rx_test (compileBoundedRiskPattern normalizedPattern) surface) patterns.

(** One round of the loop over the segments; [nested] inspects a shell inside. *)
Definition segment_risk (nested : string → option string) (patterns : list string) (tokens : list Token) : option string :=
  let name := segment_name tokens in
  if runs_script_file name then Some windows_shell_uninspectable
  else if bool_decide (name ∈ INDIRECT_COMMANDS) then
    if is_cmd name || is_powershell name then
      match nested (nested_command tokens) with
      | Some risk => if truthy risk then Some risk else segment_pattern_risk patterns tokens
      | None => segment_pattern_risk patterns tokens
      end
    else Some windows_shell_indirect_execution
  else segment_pattern_risk patterns tokens.

Fixpoint first_risk (risk : list Token → option string) (l : list (list Token)) : option string :=
  match l with
  | [] => None
  | tokens :: l => match risk tokens with Some r => Some r | None => first_risk risk l end
  end.

(** [inspectWindowsShellRisk] at the depth [MAX_NESTING - fuel]. *)
Fixpoint inspect_windows (fuel : nat) (patterns : list string) (command : string) : option string :=
  let executable := basename (executable_word command) in
  let powershell := is_powershell executable in
  if negb powershell && negb (is_cmd executable) then None
  else
    match fuel with
    | O => Some windows_shell_uninspectable
    | S fuel =>
        match inspected_script powershell command with
        | None => Some windows_shell_uninspectable
        | Some script =>
            match tokenize script true with
            | None => Some windows_shell_uninspectable
            | Some words => first_risk (segment_risk (inspect_windows fuel patterns) patterns) (segments [] words)
            end
        end
    end.

Definition inspectWindowsShellRisk (command : string) (patterns : list string) : option string :=
  inspect_windows MAX_NESTING patterns command.

(** ** shell-risk-gate.ts *)

Record ShellRiskDecision := mkShellRisk { risky : bool; matchedPattern : option string }.

Definition MAX_SHELL_RISK_PATTERN_LENGTH : nat := 512.

Definition usable_pattern (pattern : string) : bool :=
  let normalized := normalizeRiskText pattern in
  (0 <? String.length normalized)%nat && (String.length normalized <=? MAX_SHELL_RISK_PATTERN_LENGTH)%nat.

Definition classifyShellRisk (command : string) (riskyPatterns : list string) : ShellRiskDecision :=
  let validPatterns := List.filter usable_pattern riskyPatterns in
  let windowsRisk := match validPatterns with [] => None | _ => inspectWindowsShellRisk command validPatterns end in
  if truthy_opt windowsRisk then mkShellRisk true windowsRisk
  else
    let normalizedCommand := normalizeRiskText command in
    match List.find (λ pattern,
            let normalizedPattern := normalizeRiskText pattern in
            negb (bool_decide (normalizedCommand = "") || bool_decide (normalizedPattern = "") ||
                  (MAX_SHELL_RISK_PATTERN_LENGTH <? String.length normalizedPattern)%nat) &&
            rx_test (compileBoundedRiskPattern normalizedPattern) normalizedCommand) riskyPatterns with
    | Some pattern => mkShellRisk true (Some pattern)
    | None => mkShellRisk false None
    end.
End windows.
