(* ===== verification/RiskGates.v ===== *)
(** * The gates in front of risky calls

    argument-risk-gate.ts, the two questions that the policy engine puts to the
    gates (evaluateShellRisk and evaluateArgumentRisk of engine.ts), and the
    checks that the shell tools make before a process starts (shellExec and
    shellExecBackground of tool-executor.ts). *)
From stdpp Require Import pretty.
From S2P Require Import Prelude.
From S2P Require Import JsString.
From S2P Require Import Errors.
From S2P Require Import JsJson.
From S2P Require Import JsRegExp.
From S2P Require Import ToolPatterns.
From S2P Require Import ToolPolicy.
From S2P Require Import ShellCommands.
From S2P Require Import ShellRisk.

(** ** argument-risk-gate.ts *)

Record ArgumentRiskDecision := mkArgumentRisk {
  argument_risky : bool;
  argument_matchedPattern : option string;
  argument_toolNamePattern : option string
}.

Definition MAX_ARG_RISK_PATTERN_LENGTH : nat := 512.

Definition matchesToolName (toolName namePattern : string) : bool :=
  let normalizedPattern := trim namePattern in
  if negb (truthy normalizedPattern) then true else matchesToolPattern normalizedPattern toolName.

(** What a path reaches: a value, or the prototype of an object or of an array.
    The other inherited members are functions, whose text is empty like that of
    a missing one. *)
Inductive ReachedValue :=
  | Reached (v : json)
  | ObjectPrototype
  | ArrayPrototype.

Definition reach (segment : string) (current : ReachedValue) : option ReachedValue :=
  match current with
  | Reached (JObject fields) =>
      match List.find (λ f : string * json, bool_decide (f.1 = segment)) fields with
      | Some f => Some (Reached f.2)
      | None => if bool_decide (segment = "__proto__") then Some ObjectPrototype else None
      end
  | Reached (JArray elements) =>
      match List.find (λ e : nat * json, bool_decide (pretty (N.of_nat e.1) = segment)) (imap pair elements) with
      | Some e => Some (Reached e.2)
      | None =>
          if bool_decide (segment = "length") then Some (Reached (JNumber (pretty (N.of_nat (length elements)))))
          else if bool_decide (segment = "__proto__") then Some ArrayPrototype
          else None
      end
  | ArrayPrototype =>
      if bool_decide (segment = "length") then Some (Reached (JNumber "0"))
      else if bool_decide (segment = "__proto__") then Some ObjectPrototype
      else None
  | Reached _ | ObjectPrototype => None
  end.

Fixpoint reach_path (path : list string) (current : ReachedValue) : option ReachedValue :=
  match path with
  | [] => Some current
  | segment :: path => reach segment current ≫= reach_path path
  end.

Definition reached_text (r : ReachedValue) : string :=
  match r with
  | Reached (JString s) => s
  | Reached JNull => ""
  | Reached v => json_stringify v
  | ObjectPrototype => "{}"
  | ArrayPrototype => "[]"
  end.

Definition resolveArgumentValue (args : option json) (path : option string) : string :=
  match args with
  | None => ""
  | Some args =>
      match path with
      | Some path =>
          if truthy (trim path) then default "" (reached_text <$> reach_path (split_char "." path) (Reached args))
          else json_stringify args
      | None => json_stringify args
      end
  end.

Definition value_pattern_matches (normalizedValue valuePattern : string) : bool :=
  let normalizedPattern := normalizeRiskText valuePattern in
  negb (bool_decide (normalizedPattern = "") || (MAX_ARG_RISK_PATTERN_LENGTH <? String.length normalizedPattern)%nat) &&
  rx_test (compileBoundedRiskPattern normalizedPattern) normalizedValue.

(** One round of the outer loop: the value pattern that matches, if any. *)
Definition argument_pattern_risk (toolName : string) (args : option json) (pattern : ToolRiskyArgumentPattern) : option string :=
  if negb (matchesToolName toolName (ra_toolNamePattern pattern)) then None
  else
    let normalizedValue := normalizeRiskText (resolveArgumentValue args (ra_argumentPath pattern)) in
    if bool_decide (normalizedValue = "") then None
    else List.find (value_pattern_matches normalizedValue) (ra_valuePatterns pattern).

Fixpoint classify_arguments (toolName : string) (args : option json) (patterns : list ToolRiskyArgumentPattern)
    : ArgumentRiskDecision :=
  match patterns with
  | [] => mkArgumentRisk false None None
  | pattern :: patterns =>
      match argument_pattern_risk toolName args pattern with
      | Some valuePattern => mkArgumentRisk true (Some valuePattern) (Some (ra_toolNamePattern pattern))
      | None => classify_arguments toolName args patterns
      end
  end.

Definition classifyArgumentRisk (toolName : string) (args : option json) (patterns : option (list ToolRiskyArgumentPattern))
    : ArgumentRiskDecision :=
  match patterns with
  | None | Some [] => mkArgumentRisk false None None
  | Some patterns => classify_arguments toolName args patterns
  end.

(** ** engine.ts *)

Definition isShellCommandTool (toolName : string) : bool :=
  bool_decide (toolName = "shell.exec") || bool_decide (toolName = "shell.exec_background").

(** [args.command] as a string. *)
Definition json_field (name : string) (v : json) : option json :=
  match v with
  | JObject fields => snd <$> List.find (λ f : string * json, bool_decide (f.1 = name)) fields
  | _ => None
  end.

Section gates.
Context `{NodeBuffer}.

(** [Some pattern] asks for an approval. *)
Definition evaluateShellRisk (sandbox : SandboxConfig) (toolName : string) (args : option json) : option string :=
  if negb (isShellCommandTool toolName) then None
  else
    let command := match args ≫= json_field "command" with Some (JString s) => s | _ => "" end in
    if negb (truthy (trim command)) then None
    else
      let risk := classifyShellRisk command (sb_riskyShellPatterns sandbox) in
      if negb (risky risk) || negb (sb_requireApprovalForRiskyShell sandbox) then None
      else Some (default "unknown" (matchedPattern risk)).

Definition evaluateArgumentRisk (sandbox : SandboxConfig) (toolName : string) (args : option json)
    : option (string * option string) :=
  match sb_riskyArgumentPatterns sandbox with
  | None | Some [] => None
  | Some _ =>
      let risk := classifyArgumentRisk toolName args (sb_riskyArgumentPatterns sandbox) in
      if negb (argument_risky risk) then None
      else Some (default "unknown" (argument_matchedPattern risk), argument_toolNamePattern risk)
  end.

(** ** tool-executor.ts *)

Definition asString (v : option json) : option string :=
  match v with Some (JString s) => let trimmed := trim s in if truthy trimmed then Some trimmed else None | _ => None end.

Definition required (v : option json) (field : string) : res string :=
  match asString v with Some s => Ok s | None => Err (JsError (field +:+ " is required")) end.

(** What [shellExec] and [shellExecBackground] do before a process may start:
    [cwdAllowed] is the answer of [resolveOptionalCwd], [approvalBypass] that of
    [hasVerifiedApprovalBypass]. *)
Definition shellExec_admission (sandbox : SandboxConfig) (toolName : string) (args : json) (cwdAllowed : res unit)
    (approvalBypass : bool) : res ExecCommand :=
  command ← required (json_field "command" args) "command";
  _ ← assertNoShellScriptSyntax toolName command;
  _ ← cwdAllowed;
  let shellRisk := classifyShellRisk command (sb_riskyShellPatterns sandbox) in
  if risky shellRisk && sb_requireApprovalForRiskyShell sandbox && negb approvalBypass
  then Err (JsError ("Risky shell command requires approval (matched pattern: " +:+
                     default "unknown" (matchedPattern shellRisk) +:+ ")"))
  else parseExecFileCommand command.
End gates.
