(* ===== verification/ShellRiskTheorems.v ===== *)
(** * Theorems about risky commands

    A risk pattern means a glob between two word boundaries; the shell gate finds
    every command that contains one, and no other but for the Windows shells;
    what the tools start passed every check, and what passes them is started;
    and the quoting that the gate does not read. *)
From S2P Require Import Prelude.
From S2P Require Import JsString.
From S2P Require Import Errors.
From S2P Require Import JsJson.
From S2P Require Import JsRegExp.
From S2P Require Import ToolPatterns.
From S2P Require Import ToolPolicy.
From S2P Require Import ShellCommands.
From S2P Require Import ShellRisk.
From S2P Require Import RiskGates.

(** ** The text of a pattern is read back as its own characters *)






(** ** What a pattern means *)















Example risk_pattern_examples :
  rx_test (compileBoundedRiskPattern "git clean *") "sudo GIT clean -xfd" = true ∧
  rx_test (compileBoundedRiskPattern "rm") "node warm-cache.mjs" = false ∧
  rx_test (compileBoundedRiskPattern "a.c") "abc" = false.
Proof. by vm_compute. Qed.

(** ** The shell gate *)



Section gate.
Context `{NodeBuffer}.

Definition windows_risk (command : string) (patterns : list string) : option string :=
  let valid := List.filter usable_pattern patterns in
  match valid with [] => None | _ => inspectWindowsShellRisk command valid end.





(** A command for cmd or PowerShell. *)
Definition for_windows_shell (command : string) : bool :=
  let executable := basename (executable_word command) in is_powershell executable || is_cmd executable.

Lemma other_shell_no_windows_risk command patterns : for_windows_shell command = false → windows_risk command patterns = None.
Proof.
  unfold for_windows_shell, windows_risk. cbv zeta. intros [Hp Hc]%orb_false_iff.
  destruct (List.filter _ _); [done|]. unfold inspectWindowsShellRisk, MAX_NESTING. cbn [inspect_windows]. by rewrite Hp, Hc.
Qed.



(** ** The question of the engine and the refusal of the tool *)

Lemma classify_other_shell command patterns : for_windows_shell command = false →
  classifyShellRisk command patterns =
    match List.find (λ pattern,
            let normalizedPattern := normalizeRiskText pattern in
            negb (bool_decide (normalizeRiskText command = "") || bool_decide (normalizedPattern = "") ||
                  (MAX_SHELL_RISK_PATTERN_LENGTH <? String.length normalizedPattern)%nat) &&
            rx_test (compileBoundedRiskPattern normalizedPattern) (normalizeRiskText command)) patterns with
    | Some pattern => mkShellRisk true (Some pattern)
    | None => mkShellRisk false None
    end.
Proof.
  intros Hw%(other_shell_no_windows_risk _ patterns). unfold windows_risk in Hw. unfold classifyShellRisk. cbv zeta.
  by destruct (List.filter _ _); rewrite ?Hw.
Qed.

Lemma trim_end_cons c s : is_space c = false → trim_end (String c s) = String c (trim_end s).
Proof. intros Hc. cbn. destruct (trim_end s); [by rewrite Hc|done]. Qed.

Lemma upto_trim_end q s : is_space q = false → upto q (trim_end s) = upto q s.
Proof.
  intros Hq. induction s as [|c s IH]; [done|]. cbn [upto]. destruct (Ascii.eqb_spec c q) as [->|Hne].
  { rewrite trim_end_cons by done. cbn. by rewrite Ascii.eqb_refl. }
  rewrite <-IH. cbn [trim_end]. destruct (trim_end s) as [|d t]; cbn [upto].
  - destruct (is_space c); cbn [upto]; [done|]. by rewrite (proj2 (Ascii.eqb_neq c q) Hne).
  - by rewrite (proj2 (Ascii.eqb_neq c q) Hne).
Qed.

Lemma nonspace_run_trim_end s : nonspace_run (trim_end s) = nonspace_run s.
Proof.
  induction s as [|c s IH]; [done|]. cbn [nonspace_run]. destruct (is_space c) eqn:Hc.
  - cbn [trim_end]. rewrite Hc. destruct (trim_end s); cbn; by rewrite ?Hc.
  - rewrite trim_end_cons by done. cbn. by rewrite Hc, IH.
Qed.

Lemma executable_word_trim command : executable_word (trim command) = executable_word command.
Proof.
  unfold executable_word, trim. destruct (trim_start command) as [|c s] eqn:E; [done|].
  pose proof (trim_start_head _ _ _ E) as Hc. rewrite trim_end_cons, trim_start_fix by done.
  rewrite <-(trim_end_cons c s), nonspace_run_trim_end by done.
  destruct (Ascii.eqb_spec c dquote) as [->|]; [by rewrite upto_trim_end|].
  by destruct (Ascii.eqb_spec c squote) as [->|]; [rewrite upto_trim_end|].
Qed.

Lemma classify_trim command patterns : for_windows_shell command = false →
  classifyShellRisk (trim command) patterns = classifyShellRisk command patterns.
Proof.
  intros Hw. rewrite !classify_other_shell; [|done|].
  - assert (normalizeRiskText (trim command) = normalizeRiskText command) as ->; [|done].
    unfold normalizeRiskText. by rewrite trim_idemp.
  - unfold for_windows_shell in *. by rewrite executable_word_trim.
Qed.

Definition risk_refusal (pattern : string) : js_error :=
  JsError ("Risky shell command requires approval (matched pattern: " +:+ pattern +:+ ")").

Lemma append_inj_r c : ∀ a b, a +:+ c = b +:+ c → a = b.
Proof.
  induction a as [|x a IH]; intros [|y b] E; cbn in E; [done| | |by injection E as -> ->%IH].
  all: apply (f_equal String.length) in E; cbn in E; rewrite length_append in E; lia.
Qed.

(** What the engine asks about before the call and what the tool refuses at
    the call are the same: without an approval, a command that is no script and
    is not for cmd or PowerShell is refused for a pattern exactly when the engine
    had asked about that pattern. *)
Theorem risk_question_agrees sandbox toolName args command pattern :
  isShellCommandTool toolName = true → json_field "command" args = Some (JString command) →
  for_windows_shell command = false → trim command ≠ "" → assertNoShellScriptSyntax toolName (trim command) = Ok tt →
  evaluateShellRisk sandbox toolName (Some args) = Some pattern ↔
    shellExec_admission sandbox toolName args (Ok tt) false = Err (risk_refusal pattern).
Proof.
  intros Ht Ha Hw Hc Hs. unfold evaluateShellRisk, shellExec_admission, required, asString. cbn [mbind option_bind].
  rewrite Ht, Ha. apply truthy_spec in Hc. cbn. rewrite Hc. cbn. rewrite Hs, classify_trim by done. cbn.
  set (risk := classifyShellRisk command (sb_riskyShellPatterns sandbox)).
  destruct (risky risk), (sb_requireApprovalForRiskyShell sandbox); cbn.
  1: { fold (risk_refusal (default "unknown" (matchedPattern risk))). split; [by intros [= ->]|].
       intros [= E]. f_equal. by apply append_inj_r in E. }
  all: split; [done|]; intros E; exfalso; rewrite parse_exact in E.
  all: destruct (string_existsb _ _); [done|]; by destruct (balanced _).
Qed.
End gate.

Lemma risk_question_agrees_witness :
  let _ := Build_NodeBuffer id id id in
  let sandbox := mkSandbox [] [] None [] ["rm"; "git push"] true None None in
  let args := JObject [("command", JString " git push --force ")] in
  evaluateShellRisk sandbox "shell.exec" (Some args) = Some "git push" ↔
    shellExec_admission sandbox "shell.exec" args (Ok tt) false = Err (risk_refusal "git push").
Proof. intros buffer sandbox args. by apply (risk_question_agrees sandbox _ args " git push --force "). Defined.

(** The gate reads the text of a command, the tool starts its words: with
    quotes inside the name of the program, the configured pattern is not found,
    no approval is asked for, and the program starts all the same. *)
Theorem quoting_evades_risk_gate `{NodeBuffer} :
  let sandbox := mkSandbox [] [] None []
    ["rm"; "rmdir"; "del"; "format"; "shutdown"; "reboot"; "git push"; "git reset --hard"] true None None in
  let call command := JObject [("command", JString command)] in
  evaluateShellRisk sandbox "shell.exec" (Some (call "rm -rf data")) = Some "rm" ∧
  evaluateShellRisk sandbox "shell.exec" (Some (call "r''m -rf data")) = None ∧
  shellExec_admission sandbox "shell.exec" (call "r''m -rf data") (Ok tt) false =
    Ok (mkExecCommand (Some "rm") ["-rf"; "data"]).
Proof. by vm_compute. Qed.
