(* ===== verification/RemoteActionTokens.v ===== *)
(** * Remote action tokens (packages/storage/src/remote-action-token-repo.ts)

    The table [remote_action_tokens] on SQLite: tokens that let a remote surface
    resolve an approval or change a connector once.  [randomUUID()], the time of
    the process and the database clock (in milliseconds) are arguments. *)
From S2P Require Import Prelude.
From S2P Require Import JsString.
From S2P Require Import JsTime.
From S2P Require Import JsJson.
From S2P Require Import JsJsonText.
From S2P Require Import JsObject.
From S2P Require Import Errors.

Inductive RemoteActionTokenState := token_pending | token_consumed | token_expired.
#[export] Instance RemoteActionTokenState_eq_dec : EqDecision RemoteActionTokenState.
Proof. solve_decision. Defined.
Inductive RemoteActionType := approval_resolve | connector_mutation.
#[export] Instance RemoteActionType_eq_dec : EqDecision RemoteActionType.
Proof. solve_decision. Defined.

Record RemoteActionTokenRow := mkTokenRow {
  tk_hash : string;
  tk_action_type : RemoteActionType;
  tk_approval_id : option string;
  tk_connector_id : string;
  tk_mutation_json : string;
  tk_created_at : string;
  tk_expires_at : string;
  tk_state : RemoteActionTokenState;
  tk_consumed_at : option string;
  tk_consumed_by : option string;
}.
#[export] Instance eta_TokenRow : Eta RemoteActionTokenRow := λ r,
  mkTokenRow (tk_hash r) (tk_action_type r) (tk_approval_id r) (tk_connector_id r) (tk_mutation_json r) (tk_created_at r)
    (tk_expires_at r) (tk_state r) (tk_consumed_at r) (tk_consumed_by r).

Record RemoteActionTokenRecord := mkTokenRecord {
  tokenId : string;
  ta_actionType : RemoteActionType;
  ta_approvalId : option string;
  ta_connectorId : string;
  ta_mutation : json;
  ta_createdAt : string;
  ta_expiresAt : string;
  ta_state : RemoteActionTokenState;
  ta_consumedAt : option string;
  ta_consumedBy : option string;
}.

Inductive RemoteActionTokenClaimOutcome := claimed | resumed | fingerprint_mismatch | unavailable.
#[export] Instance ClaimOutcome_eq_dec : EqDecision RemoteActionTokenClaimOutcome.
Proof. solve_decision. Defined.
Record RemoteActionTokenClaimResult := mkClaimResult {
  cl_outcome : RemoteActionTokenClaimOutcome;
  cl_record : RemoteActionTokenRecord;
}.

Definition REMOTE_ACTION_CLAIM_FINGERPRINT_MUTATION_KEY : string := "__remoteActionClaimFingerprint".
Definition MAX_REMOTE_ACTION_TOKEN_TTL_MS : Z := 24 * 60 * 60 * 1000.

Abbreviation token_table := (gmap string RemoteActionTokenRow).
Abbreviation tokens := (M js_error token_table).

(** ** Columns *)

Definition normalizeMutation (value : option json) : list (string * json) := default [] (object_fields <$> value).
Definition mapTokenRow (id : string) (row : RemoteActionTokenRow) : RemoteActionTokenRecord :=
  mkTokenRecord id (tk_action_type row) (tk_approval_id row) (tk_connector_id row)
    (safeJsonParse (tk_mutation_json row) (JObject [])) (tk_created_at row) (tk_expires_at row) (tk_state row)
    (tk_consumed_at row) (tk_consumed_by row).

Definition readRemoteActionTokenClaimFingerprint (record : RemoteActionTokenRecord) : option string :=
  match field REMOTE_ACTION_CLAIM_FINGERPRINT_MUTATION_KEY (ta_mutation record) with
  | Some (JString value) => if truthy (trim value) then Some (trim value) else None
  | _ => None
  end.

Definition field_required (name : string) : js_error := ValidationError (Some FIELD_REQUIRED) (Some name) None.
Definition token_invalid (message : string) : js_error := ValidationError None None (Some message).

(** ** Statements *)

(** [freshExpiryPredicate] and [expiredByDatabaseClockPredicate]: a text that is no
    timestamp counts as expired. *)
Definition token_fresh (clock : Z) (row : RemoteActionTokenRow) : bool := after_clock (Some (tk_expires_at row)) clock.
Definition token_expired_by_clock (clock : Z) (row : RemoteActionTokenRow) : bool :=
  match julianday (tk_expires_at row) with Some t => t <=? clock | None => true end.
Definition token_is (s : RemoteActionTokenState) (row : RemoteActionTokenRow) : bool := bool_decide (tk_state row = s).

(** [INSERT]: the id is the primary key and the hash is unique. *)
Definition insertTokenStmt (id : string) (row : RemoteActionTokenRow) : tokens unit := λ t,
  match t !! id with
  | Some _ => (Err (SqliteConstraintError "remote_action_tokens.token_id"), t)
  | None =>
      if existsb (λ r, bool_decide (tk_hash r = tk_hash row)) (map_to_list t).*2
      then (Err (SqliteConstraintError "remote_action_tokens.token_hash"), t)
      else (Ok tt, <[id := row]> t)
  end.

Definition update_token (cond : RemoteActionTokenRow → bool) (f : RemoteActionTokenRow → RemoteActionTokenRow) (id : string)
    : tokens Z := λ t, let '(n, t') := sql_update cond f id t in (Ok n, t').

Definition setStateStmt (id : string) (s : RemoteActionTokenState) (consumedAt consumedBy : option string) : tokens Z :=
  update_token (λ _, true) (λ row, row <| tk_state := s |> <| tk_consumed_at := consumedAt |> <| tk_consumed_by := consumedBy |>) id.

Definition consumed_row (clock : Z) (by_ : string) (row : RemoteActionTokenRow) : RemoteActionTokenRow :=
  row <| tk_state := token_consumed |> <| tk_consumed_at := sqlite_iso clock |> <| tk_consumed_by := Some by_ |>.
Definition consumable_token (clock : Z) (row : RemoteActionTokenRow) : bool := token_is token_pending row && token_fresh clock row.

Definition consumePendingStmt (clock : Z) (id by_ : string) : tokens Z :=
  update_token (consumable_token clock) (consumed_row clock by_) id.
Definition claimPendingStmt (clock : Z) (id by_ mutationJson : string) : tokens Z :=
  update_token (consumable_token clock) (λ row, consumed_row clock by_ row <| tk_mutation_json := mutationJson |>) id.
Definition expirePendingStmt (id : string) : tokens Z :=
  update_token (token_is token_pending) (λ row, row <| tk_state := token_expired |>) id.
Definition expirePendingIfExpiredStmt (clock : Z) (id : string) : tokens Z :=
  update_token (λ row, token_is token_pending row && token_expired_by_clock clock row)
    (λ row, row <| tk_state := token_expired |>) id.

Definition of_approval (approvalId : string) (row : RemoteActionTokenRow) : bool :=
  bool_decide (tk_approval_id row = Some approvalId) && token_is token_pending row.
Definition expirePendingByApprovalStmt (approvalId : string) : tokens Z := λ t,
  (Ok (Z.of_nat (length (List.filter (of_approval approvalId) (map_to_list t).*2))),
   (λ row, if of_approval approvalId row then row <| tk_state := token_expired |> else row) <$> t).

(** [SELECT ... ORDER BY key, token_id]. *)
Definition select_tokens (cond : RemoteActionTokenRow → bool) (key : RemoteActionTokenRow → string) (t : token_table)
    : list (string * RemoteActionTokenRow) :=
  order_by (λ x y, negb (pair_ltb (key y.2, y.1) (key x.2, x.1))) (List.filter (λ x, cond x.2) (map_to_list t)).

(** ** Methods *)

Definition token_not_found (id : string) : js_error := NotFoundError (NotFoundEntity "Remote action token" (Some id)).

Definition get (id : string) : tokens RemoteActionTokenRecord := λ t,
  match t !! id with
  | Some row => (Ok (mapTokenRow id row), t)
  | None => (Err (token_not_found id), t)
  end.

Record CreateTokenInput := mkCreateToken {
  ci_tokenId : option string;
  ci_tokenHash : string;
  ci_actionType : RemoteActionType;
  ci_approvalId : option string;
  ci_connectorId : string;
  ci_mutation : option json;
}.

Definition clean_mutation (input : CreateTokenInput) : string :=
  json_stringify (JObject (delete_field REMOTE_ACTION_CLAIM_FINGERPRINT_MUTATION_KEY (normalizeMutation (ci_mutation input)))).

Definition create (uuid nowIso : string) (input : CreateTokenInput) (createdAt : option string) (expiresAt : string)
    : tokens RemoteActionTokenRecord :=
  let id := default uuid (ci_tokenId input) in
  guard_throw (negb (truthy (trim (ci_tokenHash input)))) (field_required "tokenHash") ;;
  guard_throw (negb (truthy (trim (ci_connectorId input)))) (field_required "connectorId") ;;
  insertTokenStmt id (mkTokenRow (trim (ci_tokenHash input)) (ci_actionType input) (trimmed_or_none (ci_approvalId input))
    (trim (ci_connectorId input)) (clean_mutation input) (default nowIso createdAt) expiresAt token_pending None None) ;;
  get id.

(** The lifetime as a whole number of milliseconds; [None] is not finite.  A time
    past SQLite's range is NULL, which the column refuses. *)
Definition createWithTtl (uuid : string) (clock : Z) (input : CreateTokenInput) (expiresInMs : option Z)
    : tokens RemoteActionTokenRecord :=
  let id := default uuid (ci_tokenId input) in
  guard_throw (negb (truthy (trim (ci_tokenHash input)))) (field_required "tokenHash") ;;
  guard_throw (negb (truthy (trim (ci_connectorId input)))) (field_required "connectorId") ;;
  ttl ← lift (match expiresInMs with
              | Some n => if n <? 1 then Err (token_invalid "Remote action token TTL must be a positive duration.")
                          else if MAX_REMOTE_ACTION_TOKEN_TTL_MS <? n
                          then Err (token_invalid "Remote action token TTL cannot exceed 24 hours.")
                          else Ok n
              | None => Err (token_invalid "Remote action token TTL must be a positive duration.")
              end);
  match sqlite_iso clock, sqlite_iso (clock + ttl) with
  | Some now, Some expires =>
      insertTokenStmt id (mkTokenRow (trim (ci_tokenHash input)) (ci_actionType input) (trimmed_or_none (ci_approvalId input))
        (trim (ci_connectorId input)) (clean_mutation input) now expires token_pending None None) ;;
      get id
  | _, _ => throw (SqliteConstraintError "remote_action_tokens.expires_at")
  end.

Definition findPendingFresh (clock : Z) (id : string) : tokens (option RemoteActionTokenRecord) := gets (λ t,
  row ← t !! id; if consumable_token clock row then Some (mapTokenRow id row) else None).

Definition findByTokenHash (hash : string) : tokens (option RemoteActionTokenRecord) := gets (λ t,
  head (map (λ x, mapTokenRow x.1 x.2) (List.filter (λ x, bool_decide (tk_hash x.2 = hash)) (map_to_list t)))).

Definition listByApprovalId (approvalId : string) : tokens (list RemoteActionTokenRecord) :=
  guard_throw (negb (truthy (trim approvalId))) (field_required "approvalId") ;;
  gets (λ t, map (λ x, mapTokenRow x.1 x.2)
    (select_tokens (λ row, bool_decide (tk_approval_id row = Some (trim approvalId))) tk_created_at t)).

(** [Number.isInteger(limit) ? clamp : 100]; [None] is no integer. *)
Definition bounded_limit (limit : option Z) : Z := match limit with Some n => Z.max 1 (Z.min 1000 n) | None => 100 end.

Definition listPendingExpiredAtOrBefore (boundaryAt : string) (limit : option Z) : tokens (list RemoteActionTokenRecord) :=
  guard_throw (bool_decide (date_parse boundaryAt = None))
    (token_invalid "Remote action token expiry boundary must be a valid timestamp.") ;;
  gets (λ t, map (λ x, mapTokenRow x.1 x.2) (sql_limit (bounded_limit limit) (select_tokens (λ row,
    token_is token_pending row &&
    match julianday (tk_expires_at row), julianday boundaryAt with Some e, Some b => e <=? b | _, _ => false end)
    tk_expires_at t))).

Definition listPendingExpired (clock : Z) (limit : option Z) : tokens (list RemoteActionTokenRecord) :=
  gets (λ t, map (λ x, mapTokenRow x.1 x.2) (sql_limit (bounded_limit limit) (select_tokens (λ row,
    token_is token_pending row && token_expired_by_clock clock row) tk_expires_at t))).

Definition expirePendingByApprovalId (approvalId : string) : tokens Z :=
  guard_throw (negb (truthy (trim approvalId))) (field_required "approvalId") ;;
  expirePendingByApprovalStmt (trim approvalId).

Definition updateState (id : string) (s : RemoteActionTokenState) (consumedAt consumedBy : option string)
    : tokens RemoteActionTokenRecord :=
  current ← get id;
  setStateStmt id s (match consumedAt with Some x => Some x | None => ta_consumedAt current end)
    (match consumedBy with Some x => Some x | None => ta_consumedBy current end) ;;
  get id.

Definition consumePending (clock : Z) (id by_ : string) : tokens (option RemoteActionTokenRecord) :=
  changes ← consumePendingStmt clock id by_;
  if 0 <? changes then (r ← get id; mret (Some r)) else mret None.

Definition classifyExistingClaim (record : RemoteActionTokenRecord) (claimFingerprint : string)
    : option RemoteActionTokenClaimResult :=
  match ta_state record with
  | token_pending => None
  | token_expired => Some (mkClaimResult unavailable record)
  | token_consumed =>
      Some (mkClaimResult
        (if bool_decide (readRemoteActionTokenClaimFingerprint record = Some claimFingerprint)
         then resumed else fingerprint_mismatch) record)
  end.

Definition claimed_mutation (current : RemoteActionTokenRecord) (claimFingerprint : string) : json :=
  JObject (set_field_json REMOTE_ACTION_CLAIM_FINGERPRINT_MUTATION_KEY (JString claimFingerprint)
    (object_fields (ta_mutation current))).

(** The clock moves between the first read and the statement, other calls cannot:
    SQLite answers synchronously. *)
Definition claimPending (clock : Z) (id by_ fingerprint : string) : tokens RemoteActionTokenClaimResult :=
  guard_throw (negb (truthy (trim fingerprint))) (field_required "claimFingerprint") ;;
  current ← get id;
  match classifyExistingClaim current (trim fingerprint) with
  | Some existing => mret existing
  | None =>
      changes ← claimPendingStmt clock id by_ (json_stringify (claimed_mutation current (trim fingerprint)));
      if 0 <? changes then (r ← get id; mret (mkClaimResult claimed r))
      else
        persisted ← get id;
        mret (default (mkClaimResult unavailable persisted) (classifyExistingClaim persisted (trim fingerprint)))
  end.

Definition expirePending (id : string) : tokens (option RemoteActionTokenRecord) :=
  changes ← expirePendingStmt id;
  if 0 <? changes then (r ← get id; mret (Some r)) else mret None.

Definition expirePendingIfExpired (clock : Z) (id : string) : tokens RemoteActionTokenRecord :=
  expirePendingIfExpiredStmt clock id ;; get id.

Definition expirePendingAtOrBefore (id boundaryAt : string) : tokens RemoteActionTokenRecord :=
  match date_parse boundaryAt with
  | None => throw (token_invalid "Remote action token expiry boundary must be a valid timestamp.")
  | Some boundaryMs =>
      current ← get id;
      if match date_parse (ta_expiresAt current) with
         | Some expiresAt => negb (bool_decide (ta_state current = token_pending)) || (boundaryMs <? expiresAt)
         | None => true
         end
      then mret current
      else
        expired ← expirePending id;
        match expired with Some r => mret r | None => get id end
  end.
