(* ===== verification/RemoteActionTokenTheorems.v ===== *)
(** * Theorems about remote action tokens

    A token is claimed at most once and only while the database clock says it is
    fresh; the claim is bound to one fingerprint, whose retries resume it. *)
From S2P Require Import Prelude.
From S2P Require Import JsString.
From S2P Require Import JsTime.
From S2P Require Import JsJson.
From S2P Require Import JsJsonText.
From S2P Require Import JsObject.
From S2P Require Import Errors.
From S2P Require Import RemoteActionTokens.

(** ** Histories of calls *)

Inductive token_call :=
  | CreateCall (uuid nowIso : string) (input : CreateTokenInput) (createdAt : option string) (expiresAt : string)
  | CreateTtlCall (uuid : string) (clock : Z) (input : CreateTokenInput) (expiresInMs : option Z)
  | ConsumeCall (clock : Z) (id by_ : string)
  | ClaimCall (clock : Z) (id by_ fingerprint : string)
  | ExpireByApprovalCall (approvalId : string)
  | ExpireCall (id : string)
  | ExpireIfExpiredCall (clock : Z) (id : string)
  | ExpireAtCall (id boundaryAt : string)
  | UpdateStateCall (id : string) (s : RemoteActionTokenState) (consumedAt consumedBy : option string).

Definition run_call (c : token_call) (t : token_table) : token_table :=
  match c with
  | CreateCall uuid now input createdAt expiresAt => (create uuid now input createdAt expiresAt t).2
  | CreateTtlCall uuid clock input ttl => (createWithTtl uuid clock input ttl t).2
  | ConsumeCall clock id by_ => (consumePending clock id by_ t).2
  | ClaimCall clock id by_ fp => (claimPending clock id by_ fp t).2
  | ExpireByApprovalCall a => (expirePendingByApprovalId a t).2
  | ExpireCall id => (expirePending id t).2
  | ExpireIfExpiredCall clock id => (expirePendingIfExpired clock id t).2
  | ExpireAtCall id boundary => (expirePendingAtOrBefore id boundary t).2
  | UpdateStateCall id s a b => (updateState id s a b t).2
  end.
Definition run_calls (cs : list token_call) (t : token_table) : token_table := foldl (λ t c, run_call c t) t cs.

(** [updateState] writes any state; it is the one call that can undo a claim. *)
Definition spares (id : string) (c : token_call) : Prop :=
  match c with UpdateStateCall id' _ _ _ => id' ≠ id | _ => True end.

(** ** Settled rows stay *)

(** Rows that are no longer pending are as they were. *)
Definition settled_stay (id : string) (t t' : token_table) : Prop :=
  ∀ row, t !! id = Some row → tk_state row ≠ token_pending → t' !! id = Some row.
#[export] Instance settled_stay_preorder id : PreOrder (settled_stay id).
Proof. split; [by intros t row|]. intros a b c Hab Hbc row Hr Hs. by apply Hbc, Hs; apply Hab. Qed.

Lemma update_token_run cond f id t : update_token cond f id t = (Ok (sql_update cond f id t).1, (sql_update cond f id t).2).
Proof. unfold update_token. by destruct (sql_update cond f id t). Qed.

Lemma update_settled id cond f id' : (∀ row, cond row = true → tk_state row = token_pending) →
  moves (settled_stay id) (update_token cond f id').
Proof.
  intros Hc t row Hr Hs. rewrite update_token_run. cbn [snd]. rewrite sql_update_lookup. case_decide as E; [subst id'|done].
  rewrite Hr. cbn. destruct (cond row) eqn:Ec; [|done]. by apply Hc in Ec.
Qed.

Lemma update_other id cond f id' : id' ≠ id → moves (settled_stay id) (update_token cond f id').
Proof. intros Hne t row Hr _. rewrite update_token_run. cbn [snd]. by rewrite sql_update_lookup, decide_False. Qed.

Lemma insert_settled id id' row' : moves (settled_stay id) (insertTokenStmt id' row').
Proof.
  intros t row Hr _. unfold insertTokenStmt. destruct (t !! id') eqn:E; [done|]. case_match; [done|]. cbn.
  rewrite lookup_insert_ne; [done|]. congruence.
Qed.

Lemma get_settled id id' : moves (settled_stay id) (get id').
Proof. intros t row Hr _. unfold get. by case_match. Qed.

Lemma expire_approval_settled id a : moves (settled_stay id) (expirePendingByApprovalStmt a).
Proof.
  intros t row Hr Hs. unfold expirePendingByApprovalStmt. cbn [snd]. rewrite lookup_fmap, Hr. cbn.
  unfold of_approval, token_is. rewrite (bool_decide_eq_false_2 (tk_state row = token_pending)) by done. by rewrite andb_false_r.
Qed.

Lemma consumable_token_pending clock row : consumable_token clock row = true → tk_state row = token_pending.
Proof. unfold consumable_token, token_is. by intros [?%bool_decide_eq_true _]%andb_true_iff. Qed.

Create HintDb settled.
#[export] Hint Resolve get_settled insert_settled expire_approval_settled consumable_token_pending : settled.
#[export] Hint Extern 1 (moves (settled_stay _) (update_token _ _ _)) =>
  apply update_settled; [by eauto using consumable_token_pending] : settled.

Lemma expirePending_settled id id' : moves (settled_stay id) (expirePending id').
Proof.
  unfold expirePending, expirePendingStmt. moves; [|case_match; moves; apply get_settled].
  apply update_settled. by intros row Hr%bool_decide_eq_true.
Qed.

Lemma call_settled id c : spares id c → ∀ t, settled_stay id t (run_call c t).
Proof.
  intros Hc t. revert t. destruct c as [uuid now input createdAt expiresAt|uuid clock input ttl|clock i b|clock i b fp|a|i|clock i|i boundary|i s a b];
    cbn [run_call spares] in *.
  - change (moves (settled_stay id) (create uuid now input createdAt expiresAt)). unfold create. moves; eauto with settled.
  - change (moves (settled_stay id) (createWithTtl uuid clock input ttl)). unfold createWithTtl. moves.
    repeat case_match; moves; eauto with settled.
  - change (moves (settled_stay id) (consumePending clock i b)). unfold consumePending, consumePendingStmt. moves; [eauto with settled|].
    case_match; moves; eauto with settled.
  - change (moves (settled_stay id) (claimPending clock i b fp)). unfold claimPending, claimPendingStmt. moves; [eauto with settled|].
    case_match; moves; [eauto with settled|]. case_match; moves; eauto with settled.
  - change (moves (settled_stay id) (expirePendingByApprovalId a)). unfold expirePendingByApprovalId. moves; eauto with settled.
  - apply expirePending_settled.
  - change (moves (settled_stay id) (expirePendingIfExpired clock i)). unfold expirePendingIfExpired, expirePendingIfExpiredStmt.
    moves; [|eauto with settled]. apply update_settled. by intros row [?%bool_decide_eq_true _]%andb_true_iff.
  - change (moves (settled_stay id) (expirePendingAtOrBefore i boundary)). unfold expirePendingAtOrBefore.
    case_match; moves; [eauto with settled|].
    destruct (match date_parse (ta_expiresAt _) with Some _ => _ | None => _ end); [moves|].
    apply moves_bind; [apply _|apply expirePending_settled|intros [r|]]; [moves|apply get_settled].
  - change (moves (settled_stay id) (updateState i s a b)). unfold updateState, setStateStmt. moves; [eauto with settled| |eauto with settled].
    by apply update_other.
Qed.

Lemma calls_settled id cs : Forall (spares id) cs → ∀ t, settled_stay id t (run_calls cs t).
Proof.
  intros H. induction H as [|c cs Hc _ IH]; intros t; [by intros row|]. cbn. etrans; [by apply call_settled|apply IH].
Qed.

(** ** The mutation column *)

(** Every row's mutation is the text of an object. *)
Definition row_mutation (row : RemoteActionTokenRow) (fields : list (string * json)) : Prop :=
  tk_mutation_json row = json_stringify (JObject fields) ∧ object_ok fields.
Definition tokens_wf (t : token_table) : Prop := map_Forall (λ _ row, ∃ fields, row_mutation row fields) t.

Lemma mutation_read id row fields : row_mutation row fields → ta_mutation (mapTokenRow id row) = JObject fields.
Proof. intros [E Hok]. cbn. by rewrite E, safeJsonParse_stringify. Qed.

Definition keep_tokens (t t' : token_table) : Prop := tokens_wf t → tokens_wf t'.
#[export] Instance keep_tokens_preorder : PreOrder keep_tokens.
Proof. split; [by intros t Ht|]. intros a b c Hab Hbc Ha. by apply Hbc, Hab. Qed.

Lemma get_keeps id : moves keep_tokens (get id).
Proof. intros t Ht. unfold get. by case_match. Qed.

Lemma update_keeps cond f id : (∀ row, tk_mutation_json (f row) = tk_mutation_json row) →
  moves keep_tokens (update_token cond f id).
Proof.
  intros Hf t Ht. rewrite update_token_run. cbn [snd]. unfold sql_update. destruct (t !! id) as [row|] eqn:Er; [|done].
  destruct (cond row); [|done]. cbn [snd]. apply map_Forall_insert_2; [|done]. destruct (Ht _ _ Er) as [fields [E Hok]].
  exists fields. split; [by rewrite Hf|done].
Qed.

Lemma insert_keeps id row : (∃ fields, row_mutation row fields) → moves keep_tokens (insertTokenStmt id row).
Proof. intros Hr t Ht. unfold insertTokenStmt. repeat case_match; [done..|]. by apply map_Forall_insert_2. Qed.

Lemma claim_keeps clock id by_ fp current t fields row :
  t !! id = Some row → row_mutation row fields → current = mapTokenRow id row → tokens_wf t →
  tokens_wf (claimPendingStmt clock id by_ (json_stringify (claimed_mutation current fp)) t).2.
Proof.
  intros Hr Hm -> Ht. unfold claimPendingStmt. rewrite update_token_run. cbn [snd]. unfold sql_update. rewrite Hr.
  case_match; [|done]. apply map_Forall_insert_2; [|done]. unfold claimed_mutation. rewrite (mutation_read id row fields Hm).
  eexists. split; [done|]. apply set_field_ok; [by destruct Hm|constructor].
Qed.

(** ** The claim *)

Definition fingerprint_of (fields : list (string * json)) : option string :=
  match lookup_field REMOTE_ACTION_CLAIM_FINGERPRINT_MUTATION_KEY fields with
  | Some (JString value) => if truthy (trim value) then Some (trim value) else None
  | _ => None
  end.

(** The row that a claim writes. *)
Definition claimed_row (clock : Z) (by_ fp : string) (fields : list (string * json)) (row : RemoteActionTokenRow)
    : RemoteActionTokenRow :=
  consumed_row clock by_ row <| tk_mutation_json :=
    json_stringify (JObject (set_field_json REMOTE_ACTION_CLAIM_FINGERPRINT_MUTATION_KEY (JString fp) fields)) |>.

Lemma token_claim_run clock id by_ fp t row fields :
  t !! id = Some row → row_mutation row fields → truthy (trim fp) = true →
  claimPending clock id by_ fp t =
    match tk_state row with
    | token_consumed =>
        (Ok (mkClaimResult (if bool_decide (fingerprint_of fields = Some (trim fp)) then resumed else fingerprint_mismatch)
           (mapTokenRow id row)), t)
    | token_expired => (Ok (mkClaimResult unavailable (mapTokenRow id row)), t)
    | token_pending =>
        if token_fresh clock row
        then (Ok (mkClaimResult claimed (mapTokenRow id (claimed_row clock by_ (trim fp) fields row))),
              <[id := claimed_row clock by_ (trim fp) fields row]> t)
        else (Ok (mkClaimResult unavailable (mapTokenRow id row)), t)
    end.
Proof.
  intros Hr Hm Hfp. unfold claimPending. rewrite Hfp. cbn [negb].
  assert (get id t = (Ok (mapTokenRow id row), t)) as Hget by (unfold get; by rewrite Hr).
  unfold guard_throw. rewrite M_lift_bind. cbn [throw_when]. rewrite (bind_run _ _ _ _ _ Hget).
  unfold classifyExistingClaim at 1. change (ta_state (mapTokenRow id row)) with (tk_state row).
  destruct (tk_state row) eqn:Es.
  - unfold claimPendingStmt, claimed_mutation. rewrite (mutation_read id row fields Hm). cbn [object_fields].
    unfold mbind at 1, M_bind at 1. rewrite update_token_run. unfold sql_update. rewrite Hr. unfold consumable_token, token_is.
    rewrite Es, bool_decide_eq_true_2 by done. cbn [andb]. destruct (token_fresh clock row); cbn [fst snd].
    + cbn. unfold mbind, M_bind, get. rewrite lookup_insert_eq. done.
    + cbn. unfold mbind, M_bind. rewrite Hget. unfold classifyExistingClaim. change (ta_state (mapTokenRow id row)) with (tk_state row).
      by rewrite Es.
  - unfold readRemoteActionTokenClaimFingerprint. rewrite (mutation_read id row fields Hm). done.
  - done.
Qed.

(** Inputs are JavaScript values: objects of JSON values. *)
Definition input_ok (input : CreateTokenInput) : Prop := ∀ v, ci_mutation input = Some v → json_wf v.
Definition call_ok (c : token_call) : Prop :=
  match c with CreateCall _ _ input _ _ | CreateTtlCall _ _ input _ => input_ok input | _ => True end.

Lemma clean_ok input : input_ok input → object_ok (delete_field REMOTE_ACTION_CLAIM_FINGERPRINT_MUTATION_KEY (normalizeMutation (ci_mutation input))).
Proof.
  intros Hi. apply delete_field_ok. unfold normalizeMutation. destruct (ci_mutation input) as [v|] eqn:E; [|by repeat constructor].
  specialize (Hi _ E). destruct v; cbn; try (by repeat constructor). exact Hi.
Qed.

Lemma expirePending_keeps id : moves keep_tokens (expirePending id).
Proof.
  unfold expirePending, expirePendingStmt. moves; [by apply update_keeps|]. case_match; moves; apply get_keeps.
Qed.

Lemma claimPending_keeps clock id by_ fp : moves keep_tokens (claimPending clock id by_ fp).
Proof.
  intros t Ht. destruct (truthy (trim fp)) eqn:Hfp.
  - destruct (t !! id) as [row|] eqn:Hr.
    + destruct (Ht _ _ Hr) as [fields Hm]. rewrite (token_claim_run _ _ _ _ _ _ _ Hr Hm Hfp). destruct (tk_state row); [|done..].
      case_match; [|done]. apply map_Forall_insert_2; [|done]. eexists. split; [done|].
      apply set_field_ok; [by destruct Hm|constructor].
    + unfold claimPending, guard_throw. rewrite Hfp, M_lift_bind. cbn. unfold mbind, M_bind, get. by rewrite Hr.
  - unfold claimPending, guard_throw. by rewrite Hfp, M_lift_bind.
Qed.

Lemma call_keeps c : call_ok c → ∀ t, keep_tokens t (run_call c t).
Proof.
  intros Hc t. revert t. destruct c as [uuid now input createdAt expiresAt|uuid clock input ttl|clock i b|clock i b fp|a|i|clock i|i boundary|i s a b];
    cbn [run_call call_ok] in *.
  - change (moves keep_tokens (create uuid now input createdAt expiresAt)). unfold create. moves; [|apply get_keeps].
    apply insert_keeps. eexists. split; [done|by apply clean_ok].
  - change (moves keep_tokens (createWithTtl uuid clock input ttl)). unfold createWithTtl. moves.
    repeat case_match; moves; [|apply get_keeps]. apply insert_keeps. eexists. split; [done|by apply clean_ok].
  - change (moves keep_tokens (consumePending clock i b)). unfold consumePending, consumePendingStmt. moves; [by apply update_keeps|].
    case_match; moves; apply get_keeps.
  - apply claimPending_keeps.
  - change (moves keep_tokens (expirePendingByApprovalId a)). unfold expirePendingByApprovalId. moves.
    intros t Ht. unfold expirePendingByApprovalStmt. cbn [snd]. intros id row. rewrite lookup_fmap.
    intros (row' & Hr & ->)%fmap_Some. destruct (Ht _ _ Hr) as [fields [E Hok]]. exists fields. split; [by case_match|done].
  - apply expirePending_keeps.
  - change (moves keep_tokens (expirePendingIfExpired clock i)). unfold expirePendingIfExpired, expirePendingIfExpiredStmt.
    moves; [by apply update_keeps|apply get_keeps].
  - change (moves keep_tokens (expirePendingAtOrBefore i boundary)). unfold expirePendingAtOrBefore.
    case_match; moves; [apply get_keeps|].
    destruct (match date_parse (ta_expiresAt _) with Some _ => _ | None => _ end); [moves|].
    apply moves_bind; [apply _|apply expirePending_keeps|intros [r|]]; [moves|apply get_keeps].
  - change (moves keep_tokens (updateState i s a b)). unfold updateState, setStateStmt. moves; [apply get_keeps|by apply update_keeps|apply get_keeps].
Qed.

Lemma calls_wf cs : Forall call_ok cs → tokens_wf (run_calls cs ∅).
Proof.
  assert (∀ t, tokens_wf t → Forall call_ok cs → tokens_wf (run_calls cs t)) as Hall.
  { induction cs as [|c cs IH]; intros t Ht Hc; [done|]. apply Forall_cons in Hc as [Hc Hcs]. cbn.
    apply IH; [by apply call_keeps|done]. }
  intros Hc. apply Hall; [apply map_Forall_empty|done].
Qed.

Lemma claimed_cases clock id by_ fp t r t1 row : tokens_wf t → t !! id = Some row →
  claimPending clock id by_ fp t = (Ok (mkClaimResult claimed r), t1) →
  ∃ fields, row_mutation row fields ∧ truthy (trim fp) = true ∧ tk_state row = token_pending ∧ token_fresh clock row = true ∧
    r = mapTokenRow id (claimed_row clock by_ (trim fp) fields row) ∧ t1 = <[id := claimed_row clock by_ (trim fp) fields row]> t.
Proof.
  intros Ht Hr Hc. destruct (truthy (trim fp)) eqn:Hfp.
  2:{ unfold claimPending, guard_throw in Hc. by rewrite Hfp, M_lift_bind in Hc. }
  destruct (Ht _ _ Hr) as [fields Hm]. rewrite (token_claim_run _ _ _ _ _ _ _ Hr Hm Hfp) in Hc.
  destruct (tk_state row) eqn:Es; [|by case_bool_decide|done].
  destruct (token_fresh clock row) eqn:Ef; [|done]. injection Hc as <- <-. by exists fields.
Qed.

Lemma claimed_exists clock id by_ fp t r t1 : claimPending clock id by_ fp t = (Ok r, t1) → is_Some (t !! id).
Proof.
  intros Hc. unfold claimPending, guard_throw in Hc. rewrite M_lift_bind in Hc. destruct (throw_when _ _); [|done].
  unfold mbind, M_bind, get in Hc. destruct (t !! id); [by eexists|done].
Qed.

(** C35. A token is claimed once, unless its state is rewritten by hand: the claim
    finds it pending and fresh by the database clock, and after it, whatever
    calls follow but [updateState] on this token, the same fingerprint resumes
    the same record, another one is told apart, and nothing consumes the token
    again. *)
Theorem token_claimed_once before clock id by_ fp r t1 after :
  Forall call_ok before →
  claimPending clock id by_ fp (run_calls before ∅) = (Ok (mkClaimResult claimed r), t1) →
  Forall (spares id) after →
  (∃ row, run_calls before ∅ !! id = Some row ∧ tk_state row = token_pending ∧ token_fresh clock row = true) ∧
  (∀ clock' by' fp', truthy (trim fp') = true →
     claimPending clock' id by' fp' (run_calls after t1) =
       (Ok (mkClaimResult (if bool_decide (trim fp' = trim fp) then resumed else fingerprint_mismatch) r), run_calls after t1)) ∧
  (∀ clock' by', consumePending clock' id by' (run_calls after t1) = (Ok None, run_calls after t1)).
Proof.
  intros Hb%calls_wf Hc Ha. destruct (claimed_exists _ _ _ _ _ _ _ Hc) as [row Hr].
  destruct (claimed_cases _ _ _ _ _ _ _ _ Hb Hr Hc) as (fields & [Em Hok] & Hfp & Hs & Hf & -> & ->).
  set (row' := claimed_row clock by_ (trim fp) fields row) in *.
  assert (run_calls after (<[id := row']> (run_calls before ∅)) !! id = Some row') as Hafter.
  { apply (calls_settled id after Ha); [apply lookup_insert_eq|done]. }
  split; [by exists row|]. split.
  - intros clock' by' fp' Hfp'.
    set (fields' := set_field_json REMOTE_ACTION_CLAIM_FINGERPRINT_MUTATION_KEY (JString (trim fp)) fields).
    assert (row_mutation row' fields') as Hm' by (split; [done|apply set_field_ok; [done|constructor]]).
    rewrite (token_claim_run _ _ _ _ _ _ _ Hafter Hm' Hfp'). change (tk_state row') with token_consumed. cbv iota.
    unfold fingerprint_of, fields'. rewrite lookup_set_field, trim_idemp, Hfp.
    rewrite (bool_decide_ext (Some (trim fp) = Some (trim fp')) (trim fp' = trim fp)); [done|]. split; [by intros [= ->]|by intros ->].
  - intros clock' by'. unfold consumePending, consumePendingStmt. unfold mbind, M_bind. rewrite update_token_run.
    unfold sql_update. rewrite Hafter. unfold consumable_token, token_is. change (tk_state row') with token_consumed.
    by rewrite bool_decide_eq_false_2.
Qed.

(** What a claim answers in every state of the token: it takes a fresh pending
    token, refuses a stale or expired one, and leaves a consumed one as it is. *)
Theorem token_claim_exact before clock id by_ fp row :
  Forall call_ok before → run_calls before ∅ !! id = Some row → truthy (trim fp) = true →
  ∃ fields, row_mutation row fields ∧
    claimPending clock id by_ fp (run_calls before ∅) =
      match tk_state row with
      | token_pending =>
          if token_fresh clock row
          then (Ok (mkClaimResult claimed (mapTokenRow id (claimed_row clock by_ (trim fp) fields row))),
                <[id := claimed_row clock by_ (trim fp) fields row]> (run_calls before ∅))
          else (Ok (mkClaimResult unavailable (mapTokenRow id row)), run_calls before ∅)
      | token_consumed =>
          (Ok (mkClaimResult (if bool_decide (fingerprint_of fields = Some (trim fp)) then resumed else fingerprint_mismatch)
             (mapTokenRow id row)), run_calls before ∅)
      | token_expired => (Ok (mkClaimResult unavailable (mapTokenRow id row)), run_calls before ∅)
      end.
Proof.
  intros Hb%calls_wf Hr Hfp. destruct (Hb _ _ Hr) as [fields Hm]. exists fields. split; [done|].
  rewrite (token_claim_run _ _ _ _ _ _ _ Hr Hm Hfp). by destruct (tk_state row).
Qed.

(** ** A token at work *)

Definition token_input : CreateTokenInput :=
  mkCreateToken None "hash-1" approval_resolve (Some " a1 ") "slack" (Some (JObject [("decision", JString "approve")])).
Definition token_calls := [CreateTtlCall "t1" 1767225600000 token_input (Some 60000)].
Definition claim_of_t1 := (claimPending 1767225600001 "t1" "ana" " fp-1 " (run_calls token_calls ∅)).

Lemma token_inputs_ok : Forall call_ok token_calls.
Proof.
  apply Forall_singleton. intros v [= <-]. constructor; [apply NoDup_singleton|].
  apply Forall_singleton. constructor.
Qed.

Lemma token_claimed_once_witness :
  ∃ r, (claim_of_t1).1 = Ok (mkClaimResult claimed r) ∧
    claimPending 1767229200000 "t1" "bob" "fp-1" (run_calls [ExpireCall "t1"] claim_of_t1.2) =
      (Ok (mkClaimResult resumed r), run_calls [ExpireCall "t1"] claim_of_t1.2).
Proof.
  destruct claim_of_t1 as [[[[] r]|e] t1] eqn:E; try (vm_compute in E; discriminate E).
  exists r. split; [reflexivity|]. cbn [fst snd].
  destruct (token_claimed_once token_calls 1767225600001 "t1" "ana" " fp-1 " r t1 [ExpireCall "t1"]
    token_inputs_ok E) as (_ & Hclaim & _).
  - apply Forall_cons_2; [exact I|constructor].
  - exact (Hclaim 1767229200000 "bob" "fp-1" eq_refl).
Defined.

Lemma token_claim_exact_witness :
  ∃ row fields, run_calls token_calls ∅ !! "t1" = Some row ∧ row_mutation row fields ∧
    (claimPending 1767225660000 "t1" "ana" "fp-1" (run_calls token_calls ∅)).2 = run_calls token_calls ∅.
Proof.
  destruct (run_calls token_calls ∅ !! "t1") as [row|] eqn:E; [|vm_compute in E; discriminate E].
  destruct (token_claim_exact token_calls 1767225660000 "t1" "ana" "fp-1" row token_inputs_ok E eq_refl) as (fields & Hm & Hc).
  exists row, fields. split; [reflexivity|]. split; [exact Hm|]. vm_compute. reflexivity.
Defined.
