(* ===== verification/Approvals.v ===== *)
(** * Approvals (packages/storage/src/approval-repo.ts)

    The table [approvals] on SQLite: requests that an operator decides once.  The
    columns of payload, preview and linkage are JSON texts; [randomUUID()], the
    time of the process and the database clock (in milliseconds) are arguments.
    The listing by pages and the lookups by LIKE are left out. *)
From S2P Require Import Prelude.
From S2P Require Import JsString.
From S2P Require Import JsTime.
From S2P Require Import JsJson.
From S2P Require Import JsJsonText.
From S2P Require Import JsObject.
From S2P Require Import Errors.

(** ** Contracts (packages/contracts/src/approvals.ts) *)

Inductive ApprovalStatus := approval_pending | approval_approved | approval_rejected | approval_edited.
#[export] Instance ApprovalStatus_eq_dec : EqDecision ApprovalStatus.
Proof. solve_decision. Defined.

Inductive ApprovalExplanationStatus :=
  explanation_not_requested | explanation_pending | explanation_completed | explanation_failed.
#[export] Instance ExplanationStatus_eq_dec : EqDecision ApprovalExplanationStatus.
Proof. solve_decision. Defined.

Inductive ApprovalRiskLevel := risk_safe | risk_caution | risk_danger | risk_nuclear.
#[export] Instance ApprovalRiskLevel_eq_dec : EqDecision ApprovalRiskLevel.
Proof. solve_decision. Defined.

(** [ApprovalResolveInput["decision"]]. *)
Inductive ApprovalDecision := decide_approve | decide_reject | decide_edit.
#[export] Instance ApprovalDecision_eq_dec : EqDecision ApprovalDecision.
Proof. solve_decision. Defined.

Definition APPROVAL_EXPIRY_ACTOR_ID : string := "system:approval-expiry".
Definition MESH_CAPABILITY_ACTIVATION_APPROVAL_KIND : string := "mesh.capability.activate".
Definition APPROVAL_LINKAGE_KEY : string := "__gcApprovalLinkage".

Abbreviation object := (list (string * json)).

Record ApprovalRequest := mkApproval {
  approvalId : string;
  ar_kind : string;
  riskLevel : ApprovalRiskLevel;
  ar_status : ApprovalStatus;
  ar_payload : object;
  ar_preview : object;
  rollbackNote : option string;
  linkage : option object;
  ar_createdAt : string;
  ar_expiresAt : option string;
  resolvedAt : option string;
  resolvedBy : option string;
  resolutionNote : option string;
  explanationStatus : ApprovalExplanationStatus;
  explanation : option json;
  explanationError : option string;
  shellExplanations : option json
}.

Record ApprovalRow := mkApprovalRow {
  ap_kind : string;
  ap_risk_level : ApprovalRiskLevel;
  ap_status : ApprovalStatus;
  ap_linkage_json : option string;
  ap_payload_json : string;
  ap_preview_json : string;
  ap_explanation_status : ApprovalExplanationStatus;
  ap_explanation_json : option string;
  ap_explanation_error : option string;
  ap_explanation_updated_at : option string;
  ap_created_at : string;
  ap_expires_at : option string;
  ap_resolved_at : option string;
  ap_resolved_by : option string;
  ap_resolution_note : option string;
  ap_shell_explanations_json : option string
}.
#[export] Instance eta_ApprovalRow : Eta ApprovalRow := λ r,
  mkApprovalRow (ap_kind r) (ap_risk_level r) (ap_status r) (ap_linkage_json r) (ap_payload_json r) (ap_preview_json r)
    (ap_explanation_status r) (ap_explanation_json r) (ap_explanation_error r) (ap_explanation_updated_at r)
    (ap_created_at r) (ap_expires_at r) (ap_resolved_at r) (ap_resolved_by r) (ap_resolution_note r)
    (ap_shell_explanations_json r).

Abbreviation approval_table := (gmap string ApprovalRow).
Abbreviation approvals := (M js_error approval_table).

(** ** Linkage *)

(** A field that holds a text with more than blanks in it. *)
Definition is_text_field (f : string * json) : bool :=
  match f.2 with JString s => truthy (trim s) | _ => false end.

Definition normalizeApprovalLinkage (candidate : option json) : option object :=
  match candidate with
  | Some (JObject fields) =>
      match List.filter is_text_field fields with [] => None | normalized => Some normalized end
  | _ => None
  end.

Definition stripApprovalLinkage (payload : object) : object := delete_field APPROVAL_LINKAGE_KEY payload.

Definition embedApprovalLinkage (payload : object) (l : option object) : object :=
  match l with
  | None => stripApprovalLinkage payload
  | Some l =>
      match List.filter is_text_field l with
      | [] => stripApprovalLinkage payload
      | normalizedLinkage => stripApprovalLinkage payload ++ [(APPROVAL_LINKAGE_KEY, JObject normalizedLinkage)]
      end
  end.

Definition readApprovalLinkage (payload : object) : option object :=
  normalizeApprovalLinkage (lookup_field APPROVAL_LINKAGE_KEY payload).

Definition serializeApprovalLinkage (l : option object) : option string :=
  (λ fields, json_stringify (JObject fields)) <$> normalizeApprovalLinkage (JObject <$> l).

(** [safeJsonParse(raw, undefined)]. *)
Definition parse_column (raw : option string) : option json :=
  match raw with Some raw => if truthy raw then json_parse raw else None | None => None end.

Definition deserializeApprovalLinkage (raw : option string) : option object :=
  normalizeApprovalLinkage (parse_column raw).

(** ** Rows *)

Definition readApprovalString (v : option json) : option string :=
  match v with Some (JString s) => if truthy (trim s) then Some (trim s) else None | _ => None end.

Definition first_of {A} (x y : option A) : option A := match x with Some a => Some a | None => y end.

Definition mapApprovalRow (id : string) (row : ApprovalRow) : ApprovalRequest :=
  let rawPayload := column_fields (ap_payload_json row) in
  let rawPreview := column_fields (ap_preview_json row) in
  mkApproval id (ap_kind row) (ap_risk_level row) (ap_status row) (stripApprovalLinkage rawPayload)
    (stripApprovalLinkage rawPreview)
    (readApprovalString (first_of (present (lookup_field "rollbackNote" rawPayload)) (lookup_field "rollbackNote" rawPreview)))
    (first_of (deserializeApprovalLinkage (ap_linkage_json row))
       (first_of (readApprovalLinkage rawPayload) (readApprovalLinkage rawPreview)))
    (ap_created_at row) (ap_expires_at row) (ap_resolved_at row) (ap_resolved_by row) (ap_resolution_note row)
    (ap_explanation_status row) (parse_column (ap_explanation_json row)) (ap_explanation_error row)
    (parse_column (ap_shell_explanations_json row)).

(** ** Statements *)

(** [expires_at IS NULL OR (julianday(expires_at) IS NOT NULL AND
    julianday(expires_at) > now)], and its opposite on a date that is set. *)
Definition approval_active (clock : Z) (row : ApprovalRow) : bool :=
  match ap_expires_at row with None => true | Some at_ => after_clock (Some at_) clock end.
Definition approval_expired (clock : Z) (row : ApprovalRow) : bool :=
  match ap_expires_at row with
  | None => false
  | Some at_ => match julianday at_ with Some t => t <=? clock | None => true end
  end.
Definition approval_is (s : ApprovalStatus) (row : ApprovalRow) : bool := bool_decide (ap_status row = s).

Definition insertApprovalStmt (id : string) (row : ApprovalRow) : approvals unit := λ t,
  match t !! id with
  | Some _ => (Err (SqliteConstraintError "approvals.approval_id"), t)
  | None => (Ok tt, <[id := row]> t)
  end.

Definition update_approval (cond : ApprovalRow → bool) (f : ApprovalRow → ApprovalRow) (id : string) : approvals Z := λ t,
  let '(n, t') := sql_update cond f id t in (Ok n, t').

(** The row that the [CREATE] statements write. *)
Definition new_approval_row (kind : string) (risk : ApprovalRiskLevel) (linkageJson : option string)
    (payloadJson previewJson createdAt : string) (expiresAt : option string) : ApprovalRow :=
  mkApprovalRow kind risk approval_pending linkageJson payloadJson previewJson explanation_not_requested None None None
    createdAt expiresAt None None None None.

(** [databaseTtlWindowStmt]: a date outside SQLite's range is NULL. *)
Definition databaseTtlWindow (clock ttlMs : Z) : option (string * string) :=
  createdAt ← sqlite_iso clock; expiresAt ← sqlite_iso (clock + ttlMs); Some (createdAt, expiresAt).

Definition resolvable (clock : Z) (allowExpired : bool) (row : ApprovalRow) : bool :=
  approval_is approval_pending row && (allowExpired || approval_active clock row).

Definition resolve_row (clock : Z) (s : ApprovalStatus) (linkageJson : option string) (payloadJson by_ : string)
    (note : option string) (row : ApprovalRow) : ApprovalRow :=
  row <| ap_status := s |> <| ap_linkage_json := linkageJson |> <| ap_payload_json := payloadJson |>
      <| ap_resolved_at := sqlite_iso clock |> <| ap_resolved_by := Some by_ |> <| ap_resolution_note := note |>.

Definition resolveStmt (clock : Z) (id : string) (s : ApprovalStatus) (linkageJson : option string)
    (payloadJson by_ : string) (note : option string) (allowExpired : bool) : approvals Z :=
  update_approval (resolvable clock allowExpired) (resolve_row clock s linkageJson payloadJson by_ note) id.

Definition updatePayloadStmt (id : string) (linkageJson : option string) (payloadJson : string) : approvals Z :=
  update_approval (λ _, true) (λ row, row <| ap_linkage_json := linkageJson |> <| ap_payload_json := payloadJson |>) id.

(** ** Methods *)

Definition approval_not_found (id : string) : js_error := NotFoundError (NotFoundEntity "Approval" (Some id)).

Definition getForUpdateRow (id : string) : approvals ApprovalRow := λ t,
  match t !! id with
  | Some row => (Ok row, t)
  | None => (Err (approval_not_found id), t)
  end.

Definition get (id : string) : approvals ApprovalRequest :=
  row ← getForUpdateRow id; mret (mapApprovalRow id row).

Definition getForUpdate (id : string) : approvals ApprovalRequest :=
  row ← getForUpdateRow id; mret (mapApprovalRow id row).

Definition resolved_before (id : string) : js_error :=
  ConflictError (Some STATE_CONFLICT) ("Approval " +:+ id +:+ " is already resolved").
Definition approval_expired_error (id : string) : js_error :=
  ConflictError (Some STATE_CONFLICT) ("Approval " +:+ id +:+ " has expired and can no longer be resolved").
Definition field_invalid (name : string) (message : option string) : js_error :=
  ValidationError (Some FIELD_INVALID) (Some name) message.

Definition lockPendingForUpdate (id : string) : approvals ApprovalRequest :=
  approval ← getForUpdate id;
  guard_throw (negb (bool_decide (ar_status approval = approval_pending))) (resolved_before id) ;;
  mret approval.

Definition lockApprovedForUpdate (id : string) : approvals ApprovalRequest :=
  approval ← getForUpdate id;
  guard_throw (negb (bool_decide (ar_status approval = approval_approved)))
    (ConflictError (Some STATE_CONFLICT) "An approved action is required") ;;
  mret approval.

(** [ApprovalCreateInput]. *)
Record ApprovalCreateInput := mkCreateApproval {
  cr_kind : string;
  cr_riskLevel : ApprovalRiskLevel;
  cr_payload : object;
  cr_preview : object;
  cr_linkage : option object;
  cr_rollbackNote : option string;
  cr_expiresAt : option string
}.

Definition is_lifecycle (kind : string) : bool := bool_decide (kind = "skill_hub.lifecycle").

(** The payload as it is stored. *)
Definition created_payload (input : ApprovalCreateInput) : object :=
  if is_lifecycle (cr_kind input) then stripApprovalLinkage (cr_payload input)
  else embedApprovalLinkage
         (match cr_rollbackNote input with
          | Some note => if truthy note then set_field_json "rollbackNote" (JString note) (cr_payload input) else cr_payload input
          | None => cr_payload input
          end) (cr_linkage input).

Definition createAt (uuid : string) (input : ApprovalCreateInput) (expiresAt : option string) (now : string)
    : approvals ApprovalRequest :=
  insertApprovalStmt uuid (new_approval_row (cr_kind input) (cr_riskLevel input) (serializeApprovalLinkage (cr_linkage input))
    (json_stringify (JObject (created_payload input))) (json_stringify (JObject (cr_preview input))) now expiresAt) ;;
  get uuid.

Definition create (uuid nowIso : string) (input : ApprovalCreateInput) : approvals ApprovalRequest :=
  createAt uuid input (cr_expiresAt input) nowIso.

(** The lifetime as a whole number of milliseconds; [None] is not finite. *)
Definition normalizeApprovalTtlMs (ttlMs : option Z) : res Z :=
  match ttlMs with
  | Some n => if n <=? 0 then Err (field_invalid "ttlMs" (Some "ttlMs must be a positive duration.")) else Ok n
  | None => Err (field_invalid "ttlMs" (Some "ttlMs must be a positive duration."))
  end.

Definition readDatabaseTtlWindow (clock ttlMs : Z) : res (string * string) :=
  match databaseTtlWindow clock ttlMs with
  | Some window => Ok window
  | None => Err (JsError "Database did not return an approval TTL window.")
  end.

Definition createWithTtlDuration (uuid : string) (clock : Z) (input : ApprovalCreateInput) (ttlMs : option Z)
    : approvals ApprovalRequest :=
  ttl ← lift (normalizeApprovalTtlMs ttlMs);
  transaction (
    window ← lift (readDatabaseTtlWindow clock ttl);
    createAt uuid input (Some window.2) window.1).

Definition setShellExplanations (id explanationsJson : string) : approvals bool :=
  n ← update_approval (λ _, true) (λ row, row <| ap_shell_explanations_json := Some explanationsJson |>) id;
  mret (0 <? n).

Definition isExpiredPendingAtDatabaseNow (clock : Z) (id : string) : approvals bool := gets (λ t : approval_table,
  match t !! id with Some row => approval_is approval_pending row && approval_expired clock row | None => false end).

(** [SELECT ... ORDER BY created_at DESC LIMIT n]. *)
Definition latest_first (x y : string * ApprovalRow) : bool :=
  negb (string_ltb (ap_created_at x.2) (ap_created_at y.2)).
Definition select_approvals (cond : ApprovalRow → bool) (limit : Z) (t : approval_table) : list ApprovalRequest :=
  (λ x, mapApprovalRow x.1 x.2) <$>
    sql_limit limit (order_by latest_first (List.filter (λ x, cond x.2) (map_to_list t))).

Definition of_workspace (workspaceId : string) (approval : ApprovalRequest) : bool :=
  match linkage approval ≫= lookup_field "workspaceId" with Some (JString w) => bool_decide (w = workspaceId) | _ => false end.

(** [slice(0, limit)]: a negative end counts from the back. *)
Definition slice_to {A} (limit : Z) (l : list A) : list A :=
  take (Z.to_nat (if limit <? 0 then Z.max 0 (Z.of_nat (length l) + limit) else limit)) l.

Definition list_approvals (clock : Z) (status : option ApprovalStatus) (limit : Z) (workspaceId : option string)
    : approvals (list ApprovalRequest) :=
  let scoped := trimmed_or_none workspaceId in
  let fetchLimit := match scoped with Some _ => Z.max (limit * 10) 1000 | None => limit end in
  gets (λ t,
    let mapped :=
      match status with
      | Some approval_pending => select_approvals (λ row, approval_is approval_pending row && approval_active clock row) fetchLimit t
      | Some s => select_approvals (approval_is s) fetchLimit t
      | None => select_approvals (λ _, true) fetchLimit t
      end in
    match scoped with
    | None => mapped
    | Some workspaceId => slice_to limit (List.filter (of_workspace workspaceId) mapped)
    end).

(** [ORDER BY julianday(expires_at) ASC, approval_id ASC]: NULL comes first. *)
Definition expires_first (x y : string * ApprovalRow) : bool :=
  match ap_expires_at x.2 ≫= julianday, ap_expires_at y.2 ≫= julianday with
  | Some a, Some b => (a <? b) || (a =? b) && string_leb x.1 y.1
  | None, Some _ => true
  | Some _, None => false
  | None, None => string_leb x.1 y.1
  end.

(** [Number.isFinite(limit) ? clamp(floor(limit), 1, 500) : 100]. *)
Definition expired_limit (limit : option Z) : Z := match limit with Some n => Z.max 1 (Z.min n 500) | None => 100 end.

Definition listExpiredPending (clock : Z) (limit : option Z) (excludedKind : option string) : approvals (list ApprovalRequest) :=
  gets (λ t, (λ x, mapApprovalRow x.1 x.2) <$>
    sql_limit (expired_limit limit) (order_by expires_first (List.filter (λ x,
      approval_is approval_pending x.2 && approval_expired clock x.2 &&
      match trimmed_or_none excludedKind with Some kind => negb (bool_decide (ap_kind x.2 = kind)) | None => true end)
      (map_to_list t)))).

(** Approvals whose bytes are what is approved. *)
Definition exact_detached (kind : string) : bool :=
  bool_decide (kind = MESH_CAPABILITY_ACTIVATION_APPROVAL_KIND) || bool_decide (kind = "remote_worker.native_runtime") ||
  bool_decide (kind = "remote_worker.native_runtime_install").

Definition immutable_payload : js_error :=
  field_invalid "editedPayload" (Some "This execution approval is immutable; reject and create a new request.").
Definition immutable_linkage : js_error :=
  field_invalid "linkage" (Some "This execution approval linkage is immutable.").
Definition expired_only_rejected : js_error :=
  field_invalid "allowExpired" (Some "Expired approvals may only be rejected by the system expiry reconciler.").

(** [ApprovalResolveInput]. *)
Record ApprovalResolveInput := mkResolve {
  re_decision : ApprovalDecision;
  re_editedPayload : option object;
  re_resolvedBy : string;
  re_resolutionNote : option string
}.

Definition decided_status (d : ApprovalDecision) : ApprovalStatus :=
  match d with decide_approve => approval_approved | decide_reject => approval_rejected | decide_edit => approval_edited end.

(** The payload bytes of a resolved approval. *)
Definition resolved_payload (current : ApprovalRequest) (input : ApprovalResolveInput) : object :=
  let payload := default (ar_payload current) (re_editedPayload input) in
  if is_lifecycle (ar_kind current) then stripApprovalLinkage payload else embedApprovalLinkage payload (linkage current).

Definition resolve (clock : Z) (id : string) (input : ApprovalResolveInput) (allowExpired : bool) : approvals ApprovalRequest :=
  guard_throw (allowExpired && (negb (bool_decide (re_decision input = decide_reject)) ||
                                negb (bool_decide (re_resolvedBy input = APPROVAL_EXPIRY_ACTOR_ID)))) expired_only_rejected ;;
  transaction (
    currentRow ← getForUpdateRow id;
    let current := mapApprovalRow id currentRow in
    let exact := exact_detached (ar_kind current) in
    guard_throw (exact && (bool_decide (re_decision input = decide_edit) ||
                           match re_editedPayload input with Some _ => true | None => false end)) immutable_payload ;;
    changed ← resolveStmt clock id (decided_status (re_decision input))
      (if exact then ap_linkage_json currentRow else serializeApprovalLinkage (linkage current))
      (if exact then ap_payload_json currentRow else json_stringify (JObject (resolved_payload current input)))
      (re_resolvedBy input) (re_resolutionNote input) allowExpired;
    if changed <? 1 then
      latest ← get id;
      expired ← isExpiredPendingAtDatabaseNow clock id;
      if bool_decide (ar_status latest = approval_pending) && negb allowExpired && expired
      then throw (approval_expired_error id)
      else throw (resolved_before id)
    else get id).

Definition other_turn : js_error := ConflictError None "Approval withdrawal belongs to another Chat turn.".

(** [linkage?.[name] === value]. *)
Definition linked_to (name value : string) (l : option object) : bool :=
  match l ≫= lookup_field name with Some (JString s) => bool_decide (s = value) | _ => false end.

Definition withdrawPendingChatTurn (clock : Z) (id sessionId turnId by_ note : string) : approvals ApprovalRequest :=
  transaction (
    row ← getForUpdateRow id;
    let current := mapApprovalRow id row in
    guard_throw (negb (linked_to "sessionId" sessionId (linkage current)) || negb (linked_to "turnId" turnId (linkage current)))
      other_turn ;;
    changed ← resolveStmt clock id approval_rejected (ap_linkage_json row) (ap_payload_json row) by_ (Some note) true;
    guard_throw (negb (changed =? 1)) (resolved_before id) ;;
    get id).

Definition mergeLinkage (id : string) (linkagePatch : object) : approvals ApprovalRequest :=
  transaction (
    row ← getForUpdateRow id;
    guard_throw (exact_detached (ap_kind row)) immutable_linkage ;;
    let payload := column_fields (ap_payload_json row) in
    let currentLinkage := default [] (first_of (deserializeApprovalLinkage (ap_linkage_json row)) (readApprovalLinkage payload)) in
    let nextLinkage := spread currentLinkage (List.filter is_text_field linkagePatch) in
    updatePayloadStmt id (serializeApprovalLinkage (Some nextLinkage))
      (json_stringify (JObject (if is_lifecycle (ap_kind row) then stripApprovalLinkage payload
                                else embedApprovalLinkage payload (Some nextLinkage)))) ;;
    get id).

Definition markExplanationPending (nowIso id : string) : approvals bool :=
  n ← update_approval (λ row, bool_decide (ap_explanation_status row = explanation_not_requested))
    (λ row, row <| ap_explanation_status := explanation_pending |> <| ap_explanation_error := None |>
                <| ap_explanation_updated_at := Some nowIso |>) id;
  mret (0 <? n).

Definition setExplanation (nowIso id explanationJson : string) : approvals ApprovalRequest :=
  update_approval (λ _, true)
    (λ row, row <| ap_explanation_status := explanation_completed |> <| ap_explanation_json := Some explanationJson |>
                <| ap_explanation_error := None |> <| ap_explanation_updated_at := Some nowIso |>) id ;;
  get id.

Definition setExplanationFailed (nowIso id error : string) : approvals ApprovalRequest :=
  update_approval (λ _, true)
    (λ row, row <| ap_explanation_status := explanation_failed |> <| ap_explanation_error := Some error |>
                <| ap_explanation_updated_at := Some nowIso |>) id ;;
  get id.

(** ** Deterministic detached approvals *)

(** [canonicalJsonString] (packages/contracts/src/canonical-json.ts): the keys of
    every object in the order of their code units. *)
Definition key_order (f g : string * json) : bool := string_leb f.1 g.1.
Fixpoint canonical (v : json) : json :=
  match v with
  | JArray l => JArray (map canonical l)
  | JObject l => JObject (order_by key_order (map (λ f, (f.1, canonical f.2)) l))
  | v => v
  end.
Definition canonicalJsonString (v : json) : string := json_stringify (canonical v).

(** [assertCanonicalApprovalIdentifier] (approval-input-guards.ts): the text is its
    own NFKC form, trimmed, of 1 to 256 units, without control characters.  The
    characters below are those of this alphabet that NFKC replaces. *)
Definition nfkc_changes (c : ascii) : bool :=
  existsb (N.eqb (N_of_ascii c)) [160; 168; 170; 175; 178; 179; 180; 181; 184; 185; 186; 188; 189; 190]%N.
Definition is_control (c : ascii) : bool := char_between 0 31 c || char_between 127 159 c.

Definition assertCanonicalApprovalIdentifier (value name : string) : res unit :=
  throw_when (string_existsb nfkc_changes value || negb (bool_decide (value = trim value)) ||
    (String.length value <? 1)%nat || (256 <? String.length value)%nat || string_existsb is_control value)
    (field_invalid name None).

(** [DeterministicDetachedApprovalCreateInput]: the checks of its shape and of the
    plain objects inside are its typing. *)
Record DetachedCreateInput := mkDetached {
  de_approvalId : string;
  de_kind : string;
  de_riskLevel : ApprovalRiskLevel;
  de_payload : object;
  de_preview : object;
  de_linkage : option object
}.

Definition assertDeterministicDetachedApprovalInput (input : DetachedCreateInput) : res unit :=
  _ ← assertCanonicalApprovalIdentifier (de_approvalId input) "approvalId";
  assertCanonicalApprovalIdentifier (de_kind input) "kind".

(** The bytes that the request stands for. *)
Definition detached_linkage (input : DetachedCreateInput) : option string := (λ l, canonicalJsonString (JObject l)) <$> de_linkage input.
Definition detached_payload (input : DetachedCreateInput) : string := canonicalJsonString (JObject (de_payload input)).
Definition detached_preview (input : DetachedCreateInput) : string := canonicalJsonString (JObject (de_preview input)).

Definition different_bytes (id : string) : js_error :=
  ConflictError (Some STATE_CONFLICT) ("Approval " +:+ id +:+ " already exists with different immutable request bytes.").

Definition same_request (row : ApprovalRow) (input : DetachedCreateInput) : bool :=
  bool_decide (ap_kind row = de_kind input) && bool_decide (ap_risk_level row = de_riskLevel input) &&
  bool_decide (ap_linkage_json row = detached_linkage input) && bool_decide (ap_payload_json row = detached_payload input) &&
  bool_decide (ap_preview_json row = detached_preview input).

Definition mapExactDetachedReplay (row : ApprovalRow) (input : DetachedCreateInput) : res ApprovalRequest :=
  if negb (same_request row input) then Err (different_bytes (de_approvalId input))
  else Ok (mapApprovalRow (de_approvalId input) row).

Definition createDeterministicDetachedStmt (id : string) (row : ApprovalRow) : approvals Z := λ t,
  let '(n, t') := sql_insert_ignore id row t in (Ok n, t').

(** [{ approval, created }]. *)
Definition createDeterministicDetachedWithTtlDuration (clock : Z) (input : DetachedCreateInput) (ttlMs : option Z)
    : approvals (ApprovalRequest * bool) :=
  lift (assertDeterministicDetachedApprovalInput input) ;;
  ttl ← lift (normalizeApprovalTtlMs ttlMs);
  transaction (
    existing ← gets (λ t : approval_table, t !! de_approvalId input);
    match existing with
    | Some existing => approval ← lift (mapExactDetachedReplay existing input); mret (approval, false)
    | None =>
        window ← lift (readDatabaseTtlWindow clock ttl);
        inserted ← createDeterministicDetachedStmt (de_approvalId input)
          (new_approval_row (de_kind input) (de_riskLevel input) (detached_linkage input) (detached_payload input)
             (detached_preview input) window.1 (Some window.2));
        stored ← gets (λ t : approval_table, t !! de_approvalId input);
        match stored with
        | None => throw (JsError ("Approval " +:+ de_approvalId input +:+ " was not readable after deterministic creation."))
        | Some stored => approval ← lift (mapExactDetachedReplay stored input); mret (approval, 0 <? inserted)
        end
    end).
