(* ===== verification/ApprovalTheorems.v ===== *)
(** * Theorems about approvals

    What resolving does on every branch; a decision is final, whatever calls
    follow; and an approval that stands was given in time by a call of
    [resolve]. *)
From S2P Require Import Prelude.
From S2P Require Import JsString.
From S2P Require Import JsTime.
From S2P Require Import JsJson.
From S2P Require Import JsJsonText.
From S2P Require Import JsObject.
From S2P Require Import Errors.
From S2P Require Import Approvals.

(** ** Statements *)

Lemma update_approval_run cond f id t :
  update_approval cond f id t = (Ok (sql_update cond f id t).1, (sql_update cond f id t).2).
Proof. unfold update_approval. by destruct (sql_update cond f id t). Qed.

Lemma approval_get_run id row t : t !! id = Some row → get id t = (Ok (mapApprovalRow id row), t).
Proof. intros H. unfold get, getForUpdateRow, mbind, M_bind. by rewrite H. Qed.

Lemma get_for_update_run id row t : t !! id = Some row → getForUpdateRow id t = (Ok row, t).
Proof. intros H. unfold getForUpdateRow. by rewrite H. Qed.

(** A date that is set has passed or has not. *)
Lemma not_active_expired clock row : approval_active clock row = false → approval_expired clock row = true.
Proof.
  unfold approval_active, approval_expired, after_clock. destruct (ap_expires_at row) as [at_|]; [|done]. cbn.
  destruct (julianday at_); [|done]. rewrite Z.ltb_ge, Z.leb_le. done.
Qed.

(** ** What [resolve] does *)

(** The row that a decision leaves. *)
Definition decided_row (clock : Z) (id : string) (input : ApprovalResolveInput) (row : ApprovalRow) : ApprovalRow :=
  let current := mapApprovalRow id row in
  let exact := exact_detached (ap_kind row) in
  resolve_row clock (decided_status (re_decision input))
    (if exact then ap_linkage_json row else serializeApprovalLinkage (linkage current))
    (if exact then ap_payload_json row else json_stringify (JObject (resolved_payload current input)))
    (re_resolvedBy input) (re_resolutionNote input) row.

Definition edits (input : ApprovalResolveInput) : bool :=
  bool_decide (re_decision input = decide_edit) || match re_editedPayload input with Some _ => true | None => false end.

Definition may_touch_expired (input : ApprovalResolveInput) : bool :=
  bool_decide (re_decision input = decide_reject) && bool_decide (re_resolvedBy input = APPROVAL_EXPIRY_ACTOR_ID).

Lemma resolve_run clock id input allowExpired t :
  resolve clock id input allowExpired t =
    if allowExpired && negb (may_touch_expired input) then (Err expired_only_rejected, t)
    else match t !! id with
         | None => (Err (approval_not_found id), t)
         | Some row =>
             if exact_detached (ap_kind row) && edits input then (Err immutable_payload, t)
             else if resolvable clock allowExpired row
             then (Ok (mapApprovalRow id (decided_row clock id input row)), <[id := decided_row clock id input row]> t)
             else (Err (if approval_is approval_pending row then approval_expired_error id else resolved_before id), t)
         end.
Proof.
  unfold resolve, may_touch_expired. rewrite negb_andb. unfold guard_throw. rewrite M_lift_bind.
  destruct (allowExpired && _) eqn:Hg; [done|]. cbn. unfold transaction, mbind at 1, M_bind at 1, getForUpdateRow at 1.
  destruct (t !! id) as [row|] eqn:Hr; [|done]. cbn [fst snd]. fold (edits input).
  change (ar_kind (mapApprovalRow id row)) with (ap_kind row). cbv zeta.
  rewrite M_lift_bind. destruct (exact_detached (ap_kind row) && edits input); [done|]. cbn [throw_when].
  unfold resolveStmt. unfold mbind at 1, M_bind at 1. rewrite update_approval_run.
  unfold sql_update. rewrite Hr. destruct (resolvable clock allowExpired row) eqn:Hs; cbn [fst snd].
  - change (1 <? 1) with false. cbv iota. erewrite approval_get_run by apply lookup_insert_eq. done.
  - change (0 <? 1) with true. cbv iota. unfold mbind, M_bind. erewrite approval_get_run by done.
    cbn [isExpiredPendingAtDatabaseNow gets fst snd]. unfold isExpiredPendingAtDatabaseNow, gets. rewrite Hr.
    change (ar_status (mapApprovalRow id row)) with (ap_status row). unfold resolvable, approval_is in *.
    destruct (bool_decide (ap_status row = approval_pending)); cbn in *; [|by rewrite ?andb_false_r].
    destruct allowExpired; [done|]. cbn in *. by rewrite (not_active_expired _ _ Hs).
Qed.

Lemma withdraw_run clock id sessionId turnId by_ note t :
  withdrawPendingChatTurn clock id sessionId turnId by_ note t =
    match t !! id with
    | None => (Err (approval_not_found id), t)
    | Some row =>
        let l := linkage (mapApprovalRow id row) in
        if negb (linked_to "sessionId" sessionId l) || negb (linked_to "turnId" turnId l) then (Err other_turn, t)
        else if approval_is approval_pending row then
          let row' := resolve_row clock approval_rejected (ap_linkage_json row) (ap_payload_json row) by_ (Some note) row in
          (Ok (mapApprovalRow id row'), <[id := row']> t)
        else (Err (resolved_before id), t)
    end.
Proof.
  unfold withdrawPendingChatTurn, guard_throw, transaction, mbind at 1, M_bind at 1, getForUpdateRow.
  destruct (t !! id) as [row|] eqn:Hr; [|done]. cbv zeta. rewrite M_lift_bind.
  destruct (negb _ || negb _); [done|]. cbn [throw_when]. unfold resolveStmt. unfold mbind at 1, M_bind at 1.
  rewrite update_approval_run. unfold sql_update. rewrite Hr. unfold resolvable. cbn [orb]. rewrite andb_true_r.
  destruct (approval_is approval_pending row); cbn [fst snd]; rewrite M_lift_bind; [|done]. cbn [throw_when].
  by erewrite approval_get_run by apply lookup_insert_eq.
Qed.

(** ** Histories of calls *)

Inductive approval_call :=
  | CreateCall (uuid nowIso : string) (input : ApprovalCreateInput)
  | CreateTtlCall (uuid : string) (clock : Z) (input : ApprovalCreateInput) (ttlMs : option Z)
  | DetachedCall (clock : Z) (input : DetachedCreateInput) (ttlMs : option Z)
  | ResolveCall (clock : Z) (id : string) (input : ApprovalResolveInput) (allowExpired : bool)
  | WithdrawCall (clock : Z) (id sessionId turnId by_ note : string)
  | MergeCall (id : string) (patch : object)
  | ExplanationPendingCall (nowIso id : string)
  | ExplanationCall (nowIso id explanationJson : string)
  | ExplanationFailedCall (nowIso id error : string)
  | ShellExplanationsCall (id explanationsJson : string).

Definition run_call (c : approval_call) (t : approval_table) : approval_table :=
  match c with
  | CreateCall uuid now input => (create uuid now input t).2
  | CreateTtlCall uuid clock input ttl => (createWithTtlDuration uuid clock input ttl t).2
  | DetachedCall clock input ttl => (createDeterministicDetachedWithTtlDuration clock input ttl t).2
  | ResolveCall clock id input allow => (resolve clock id input allow t).2
  | WithdrawCall clock id s turn by_ note => (withdrawPendingChatTurn clock id s turn by_ note t).2
  | MergeCall id patch => (mergeLinkage id patch t).2
  | ExplanationPendingCall now id => (markExplanationPending now id t).2
  | ExplanationCall now id e => (setExplanation now id e t).2
  | ExplanationFailedCall now id e => (setExplanationFailed now id e t).2
  | ShellExplanationsCall id e => (setShellExplanations id e t).2
  end.
Definition run_calls (cs : list approval_call) (t : approval_table) : approval_table := foldl (λ t c, run_call c t) t cs.

(** The columns that do not explain. *)
Definition decision_columns (row : ApprovalRow) :=
  (ap_kind row, ap_risk_level row, ap_status row, ap_linkage_json row, ap_payload_json row, ap_preview_json row,
   ap_created_at row, ap_expires_at row, ap_resolved_at row, ap_resolved_by row, ap_resolution_note row).

(** The row that [mergeLinkage] leaves. *)
Definition merged_linkage (patch : object) (row : ApprovalRow) : object :=
  spread (default [] (first_of (deserializeApprovalLinkage (ap_linkage_json row))
                              (readApprovalLinkage (column_fields (ap_payload_json row)))))
    (List.filter is_text_field patch).
Definition merged_row (patch : object) (row : ApprovalRow) : ApprovalRow :=
  let payload := column_fields (ap_payload_json row) in
  row <| ap_linkage_json := serializeApprovalLinkage (Some (merged_linkage patch row)) |>
      <| ap_payload_json := json_stringify (JObject (if is_lifecycle (ap_kind row) then stripApprovalLinkage payload
           else embedApprovalLinkage payload (Some (merged_linkage patch row)))) |>.

(** What one call may write: a new pending row, or one change of a row. *)
Inductive row_change : approval_call → string → ApprovalRow → ApprovalRow → Prop :=
  | change_resolve clock id input allowExpired row :
      allowExpired && negb (may_touch_expired input) = false → exact_detached (ap_kind row) && edits input = false →
      resolvable clock allowExpired row = true →
      row_change (ResolveCall clock id input allowExpired) id row (decided_row clock id input row)
  | change_withdraw clock id sessionId turnId by_ note row : approval_is approval_pending row = true →
      row_change (WithdrawCall clock id sessionId turnId by_ note) id row
        (resolve_row clock approval_rejected (ap_linkage_json row) (ap_payload_json row) by_ (Some note) row)
  | change_merge id patch row : exact_detached (ap_kind row) = false →
      row_change (MergeCall id patch) id row (merged_row patch row)
  | change_explain c id row row' : decision_columns row' = decision_columns row → row_change c id row row'.

Inductive created_row : approval_call → string → ApprovalRow → Prop :=
  | created_plain uuid now input :
      created_row (CreateCall uuid now input) uuid
        (new_approval_row (cr_kind input) (cr_riskLevel input) (serializeApprovalLinkage (cr_linkage input))
           (json_stringify (JObject (created_payload input))) (json_stringify (JObject (cr_preview input))) now (cr_expiresAt input))
  | created_ttl uuid clock input ttlMs ttl window : ttlMs = Some ttl → 0 < ttl → databaseTtlWindow clock ttl = Some window →
      created_row (CreateTtlCall uuid clock input ttlMs) uuid
        (new_approval_row (cr_kind input) (cr_riskLevel input) (serializeApprovalLinkage (cr_linkage input))
           (json_stringify (JObject (created_payload input))) (json_stringify (JObject (cr_preview input))) window.1 (Some window.2))
  | created_detached clock input ttlMs ttl window : ttlMs = Some ttl → 0 < ttl → databaseTtlWindow clock ttl = Some window →
      created_row (DetachedCall clock input ttlMs) (de_approvalId input)
        (new_approval_row (de_kind input) (de_riskLevel input) (detached_linkage input) (detached_payload input)
           (detached_preview input) window.1 (Some window.2)).

Definition effect (c : approval_call) (t t' : approval_table) : Prop :=
  t' = t ∨ (∃ id row', t !! id = None ∧ created_row c id row' ∧ t' = <[id := row']> t) ∨
  (∃ id row row', t !! id = Some row ∧ row_change c id row row' ∧ t' = <[id := row']> t).

Lemma effect_none c t : effect c t t.
Proof. by left. Qed.

Lemma effect_explain c cond f id t : (∀ row, decision_columns (f row) = decision_columns row) →
  effect c t (sql_update cond f id t).2.
Proof.
  intros Hf. unfold sql_update. destruct (t !! id) as [row|] eqn:Hr; [|by left]. destruct (cond row); [|by left].
  right; right. exists id, row, (f row). split_and!; [done|by apply change_explain|done].
Qed.

Lemma create_at_run uuid input expiresAt now t :
  createAt uuid input expiresAt now t =
    let row := new_approval_row (cr_kind input) (cr_riskLevel input) (serializeApprovalLinkage (cr_linkage input))
      (json_stringify (JObject (created_payload input))) (json_stringify (JObject (cr_preview input))) now expiresAt in
    match t !! uuid with
    | Some _ => (Err (SqliteConstraintError "approvals.approval_id"), t)
    | None => (Ok (mapApprovalRow uuid row), <[uuid := row]> t)
    end.
Proof.
  unfold createAt, mbind, M_bind, insertApprovalStmt. destruct (t !! uuid) eqn:E; [done|].
  by erewrite approval_get_run by apply lookup_insert_eq.
Qed.

Lemma normalize_ttl_ok ttlMs ttl : normalizeApprovalTtlMs ttlMs = Ok ttl ↔ ttlMs = Some ttl ∧ 0 < ttl.
Proof.
  unfold normalizeApprovalTtlMs. destruct ttlMs as [n|]; [|naive_solver]. destruct (Z.leb_spec n 0); naive_solver lia.
Qed.

Lemma ttl_window_ok clock ttl w : readDatabaseTtlWindow clock ttl = Ok w ↔ databaseTtlWindow clock ttl = Some w.
Proof. unfold readDatabaseTtlWindow. destruct (databaseTtlWindow clock ttl); naive_solver. Qed.

Lemma create_ttl_run uuid clock input ttlMs t :
  createWithTtlDuration uuid clock input ttlMs t =
    match normalizeApprovalTtlMs ttlMs ≫= readDatabaseTtlWindow clock with
    | Ok window => createAt uuid input (Some window.2) window.1 t
    | Err e => (Err e, t)
    end.
Proof.
  unfold createWithTtlDuration. rewrite M_lift_bind. destruct (normalizeApprovalTtlMs ttlMs) as [ttl|e]; [|done].
  unfold transaction. rewrite M_lift_bind. cbn. destruct (readDatabaseTtlWindow clock ttl) as [w|e]; [|done].
  rewrite create_at_run. cbn. by destruct (t !! uuid).
Qed.

Lemma same_request_new input createdAt expiresAt :
  same_request (new_approval_row (de_kind input) (de_riskLevel input) (detached_linkage input) (detached_payload input)
    (detached_preview input) createdAt expiresAt) input = true.
Proof. unfold same_request. cbn. by rewrite !bool_decide_eq_true_2. Qed.

Lemma detached_run clock input ttlMs t :
  createDeterministicDetachedWithTtlDuration clock input ttlMs t =
    match assertDeterministicDetachedApprovalInput input, normalizeApprovalTtlMs ttlMs with
    | Err e, _ | Ok _, Err e => (Err e, t)
    | Ok _, Ok ttl =>
        match t !! de_approvalId input with
        | Some row => (if same_request row input then Ok (mapApprovalRow (de_approvalId input) row, false)
                       else Err (different_bytes (de_approvalId input)), t)
        | None =>
            match readDatabaseTtlWindow clock ttl with
            | Err e => (Err e, t)
            | Ok window =>
                let row := new_approval_row (de_kind input) (de_riskLevel input) (detached_linkage input)
                  (detached_payload input) (detached_preview input) window.1 (Some window.2) in
                (Ok (mapApprovalRow (de_approvalId input) row, true), <[de_approvalId input := row]> t)
            end
        end
    end.
Proof.
  unfold createDeterministicDetachedWithTtlDuration. rewrite M_lift_bind.
  destruct (assertDeterministicDetachedApprovalInput input); [|done]. rewrite M_lift_bind.
  destruct (normalizeApprovalTtlMs ttlMs) as [ttl|]; [|done]. unfold transaction. rewrite M_gets_bind.
  destruct (t !! de_approvalId input) as [row|] eqn:Hr.
  - rewrite M_lift_bind. unfold mapExactDetachedReplay. by destruct (same_request row input).
  - rewrite M_lift_bind. destruct (readDatabaseTtlWindow clock ttl) as [w|]; [|done].
    unfold createDeterministicDetachedStmt. unfold mbind at 1, M_bind at 1. unfold sql_insert_ignore. rewrite Hr.
    rewrite M_gets_bind, lookup_insert_eq, M_lift_bind. unfold mapExactDetachedReplay. by rewrite same_request_new.
Qed.

Lemma merge_run id patch t :
  mergeLinkage id patch t =
    match t !! id with
    | None => (Err (approval_not_found id), t)
    | Some row =>
        if exact_detached (ap_kind row) then (Err immutable_linkage, t)
        else (Ok (mapApprovalRow id (merged_row patch row)), <[id := merged_row patch row]> t)
    end.
Proof.
  unfold mergeLinkage, guard_throw, transaction, mbind at 1, M_bind at 1, getForUpdateRow.
  destruct (t !! id) as [row|] eqn:Hr; [|done]. rewrite M_lift_bind.
  destruct (exact_detached (ap_kind row)); [done|]. cbn [throw_when]. cbv zeta. unfold updatePayloadStmt.
  unfold mbind, M_bind. rewrite update_approval_run. unfold sql_update. rewrite Hr. cbn [fst snd].
  by erewrite approval_get_run by apply lookup_insert_eq.
Qed.

Lemma update_then_get cond f id id' t :
  ((update_approval cond f id ;; get id') t).2 = (sql_update cond f id t).2.
Proof.
  unfold mbind, M_bind. rewrite update_approval_run. unfold get, getForUpdateRow, mbind, M_bind.
  by destruct ((sql_update cond f id t).2 !! id').
Qed.

(** Every call has one effect of that kind or none. *)
Lemma call_effect c t : effect c t (run_call c t).
Proof.
  destruct c as [uuid now input|uuid clock input ttl|clock input ttl|clock id input allow|clock id s turn by_ note|id patch
    |now id|now id e|now id e|id e]; cbn [run_call].
  - unfold create. rewrite create_at_run. cbv zeta. destruct (t !! uuid) eqn:E; [by left|].
    right; left. eexists _, _. split_and!; [done|constructor|done].
  - rewrite create_ttl_run. destruct (normalizeApprovalTtlMs ttl ≫= _) as [w|e] eqn:Ew; [|by left].
    apply outcome_bind_ok in Ew as (n & [-> Hn]%normalize_ttl_ok & Hw%ttl_window_ok).
    rewrite create_at_run. cbv zeta. destruct (t !! uuid) eqn:E; [by left|].
    right; left. eexists _, _. split_and!; [done|by econstructor|done].
  - rewrite detached_run. destruct (assertDeterministicDetachedApprovalInput input); [|by left].
    destruct (normalizeApprovalTtlMs ttl) as [n|] eqn:En; [|by left]. apply normalize_ttl_ok in En as [-> Hn].
    destruct (t !! de_approvalId input) as [row|] eqn:E; [by left|].
    destruct (readDatabaseTtlWindow clock n) as [w|] eqn:Ew; [|by left]. apply ttl_window_ok in Ew.
    right; left. eexists _, _. split_and!; [done|by econstructor|done].
  - rewrite resolve_run. destruct (allow && _) eqn:Hg; [by left|]. destruct (t !! id) as [row|] eqn:E; [|by left].
    destruct (exact_detached _ && _) eqn:Hx; [by left|]. destruct (resolvable clock allow row) eqn:Hr; [|by left].
    right; right. eexists _, _, _. split_and!; [done|by constructor|done].
  - rewrite withdraw_run. destruct (t !! id) as [row|] eqn:E; [|by left]. cbv zeta. case_match; [by left|].
    destruct (approval_is approval_pending row) eqn:Hr; [|by left].
    right; right. eexists _, _, _. split_and!; [done|by constructor|done].
  - rewrite merge_run. destruct (t !! id) as [row|] eqn:E; [|by left].
    destruct (exact_detached (ap_kind row)) eqn:Hx; [by left|].
    right; right. eexists _, _, _. split_and!; [done|by constructor|done].
  - unfold markExplanationPending, mbind, M_bind. rewrite update_approval_run. by apply effect_explain.
  - unfold setExplanation. rewrite update_then_get. by apply effect_explain.
  - unfold setExplanationFailed. rewrite update_then_get. by apply effect_explain.
  - unfold setShellExplanations, mbind, M_bind. rewrite update_approval_run. by apply effect_explain.
Qed.

(** ** Decisions are final *)

(** What a row keeps for ever, once it is decided, and while it is exact. *)
Definition row_evolves (r r' : ApprovalRow) : Prop :=
  (ap_kind r', ap_risk_level r', ap_preview_json r', ap_created_at r', ap_expires_at r') =
  (ap_kind r, ap_risk_level r, ap_preview_json r, ap_created_at r, ap_expires_at r) ∧
  (ap_status r ≠ approval_pending →
    (ap_status r', ap_resolved_at r', ap_resolved_by r', ap_resolution_note r') =
    (ap_status r, ap_resolved_at r, ap_resolved_by r, ap_resolution_note r)) ∧
  (exact_detached (ap_kind r) = true → (ap_linkage_json r', ap_payload_json r') = (ap_linkage_json r, ap_payload_json r)).

#[export] Instance row_evolves_preorder : PreOrder row_evolves.
Proof.
  split; [by intros r|]. intros a b c (E1 & S1 & X1) (E2 & S2 & X2). injection E1 as K1 R1 P1 C1 T1.
  split_and!; [congruence| |].
  - intros Hs. specialize (S1 Hs). injection S1 as Q1 Q2 Q3 Q4. rewrite S2 by congruence. congruence.
  - intros Hx. specialize (X1 Hx). injection X1 as Q1 Q2. rewrite X2 by congruence. congruence.
Qed.

Lemma change_evolves c id row row' : row_change c id row row' → row_evolves row row'.
Proof.
  destruct 1 as [clock id input allow row Hg Hx Hr|clock id s turn by_ note row Hp|id patch row Hx|c id row row' E].
  - apply andb_true_iff in Hr as [Hp%bool_decide_eq_true _]. unfold decided_row. split_and!; [done|by intros []|].
    intros He. cbn. by rewrite He.
  - apply bool_decide_eq_true in Hp. split_and!; [done|by intros []|done].
  - split_and!; [done|done|]. by rewrite Hx.
  - unfold decision_columns in E. injection E. intros. split_and!; [congruence|intros; congruence..].
Qed.

Lemma effect_evolves c t t' id row : effect c t t' → t !! id = Some row →
  ∃ row', t' !! id = Some row' ∧ row_evolves row row'.
Proof.
  intros [->|[(i & r & Hn & _ & ->)|(i & r & r' & Hi & Hc & ->)]] Hr.
  - by exists row.
  - exists row. rewrite lookup_insert_ne by congruence. done.
  - destruct (decide (i = id)) as [->|Hne]; [|exists row; by rewrite lookup_insert_ne].
    exists r'. rewrite lookup_insert_eq. split; [done|]. simplify_eq. by eapply change_evolves.
Qed.

Lemma calls_evolve cs : ∀ t id row, t !! id = Some row →
  ∃ row', run_calls cs t !! id = Some row' ∧ row_evolves row row'.
Proof.
  induction cs as [|c cs IH]; intros t id row Hr; [by exists row|]. cbn.
  destruct (effect_evolves c t (run_call c t) id row (call_effect c t) Hr) as (r1 & H1 & E1).
  destruct (IH _ _ _ H1) as (r2 & H2 & E2). exists r2. split; [done|]. by etrans.
Qed.

(** ** The payload as it is read *)

(** The text of an object. *)
Definition text_of_object (raw : string) : Prop := ∃ fields, raw = json_stringify (JObject fields) ∧ object_ok fields.

Definition row_objects (row : ApprovalRow) : Prop :=
  text_of_object (ap_payload_json row) ∧ text_of_object (ap_preview_json row) ∧
  ∀ raw, ap_linkage_json row = Some raw → text_of_object raw.
Definition approvals_wf (t : approval_table) : Prop := map_Forall (λ _, row_objects) t.

Definition object_ok_opt (o : option object) : Prop := match o with Some fields => object_ok fields | None => True end.

(** The objects that a call brings are objects of the language. *)
Definition call_ok (c : approval_call) : Prop :=
  match c with
  | CreateCall _ _ input | CreateTtlCall _ _ input _ =>
      object_ok (cr_payload input) ∧ object_ok (cr_preview input) ∧ object_ok_opt (cr_linkage input)
  | DetachedCall _ input _ => object_ok (de_payload input) ∧ object_ok (de_preview input) ∧ object_ok_opt (de_linkage input)
  | ResolveCall _ _ input _ => object_ok_opt (re_editedPayload input)
  | MergeCall _ patch => object_ok patch
  | _ => True
  end.

Lemma text_of_object_fields raw : text_of_object raw → object_ok (column_fields raw).
Proof. intros (fields & -> & H). by rewrite column_fields_stringify. Qed.

Lemma text_of_object_intro fields : object_ok fields → text_of_object (json_stringify (JObject fields)).
Proof. by exists fields. Qed.

Lemma text_fields_ok l : object_ok l → object_ok (List.filter is_text_field l).
Proof.
  rewrite !object_ok_spec. intros [Hd Hf]. split.
  - clear Hf. induction l as [|f l IH]; [done|]. rewrite fmap_cons, NoDup_cons in Hd. destruct Hd as [Hn Hd]. cbn.
    destruct (is_text_field f); [|by apply IH]. rewrite fmap_cons, NoDup_cons. split; [|by apply IH].
    contradict Hn. apply list_elem_of_fmap in Hn as (g & E & Hg). apply list_elem_of_fmap. exists g. split; [done|].
    apply list_elem_of_In, filter_In in Hg as [Hg _]. by apply list_elem_of_In.
  - rewrite Forall_forall in Hf |- *. intros x Hx. apply Hf. apply list_elem_of_In, filter_In in Hx as [Hx _].
    by apply list_elem_of_In.
Qed.

Lemma normalize_linkage_ok v l : (∀ fields, v = Some (JObject fields) → object_ok fields) →
  normalizeApprovalLinkage v = Some l → object_ok l.
Proof.
  intros Hv. unfold normalizeApprovalLinkage. destruct v as [[| | | | |fields]|]; try done.
  destruct (List.filter is_text_field fields) eqn:E; [done|]. intros [= <-]. rewrite <-E. apply text_fields_ok. by apply Hv.
Qed.

Lemma embed_ok payload l : object_ok payload → (∀ fields, l = Some fields → object_ok fields) →
  object_ok (embedApprovalLinkage payload l).
Proof.
  intros Hp Hl. assert (object_ok (stripApprovalLinkage payload)) as Hs by by apply delete_field_ok.
  unfold embedApprovalLinkage. destruct l as [l|]; [|done].
  destruct (List.filter is_text_field l) as [|f fs] eqn:E; [done|]. rewrite <-E.
  rewrite <-set_field_fresh by apply delete_field_keys. apply set_field_ok; [done|]. apply text_fields_ok. by apply Hl.
Qed.

(** What [stripApprovalLinkage] reads back is the payload that was embedded. *)
Lemma strip_embed payload l : stripApprovalLinkage (embedApprovalLinkage payload l) = stripApprovalLinkage payload.
Proof.
  assert (stripApprovalLinkage (stripApprovalLinkage payload) = stripApprovalLinkage payload) as Hs.
  { apply delete_field_id, delete_field_keys. }
  unfold embedApprovalLinkage. destruct l as [l|]; [|done]. destruct (List.filter is_text_field l); [done|].
  unfold stripApprovalLinkage at 1. rewrite delete_field_app. fold (stripApprovalLinkage (stripApprovalLinkage payload)).
  rewrite Hs. unfold delete_field at 1. rewrite filter_cons_False by by intros []. cbn. by rewrite app_nil_r.
Qed.

Lemma serialize_ok l raw : object_ok_opt l → serializeApprovalLinkage l = Some raw → text_of_object raw.
Proof.
  unfold serializeApprovalLinkage. intros Hl. destruct (normalizeApprovalLinkage _) as [n|] eqn:E; [|done].
  intros [= <-]. apply text_of_object_intro. eapply normalize_linkage_ok; [|exact E]. intros fields.
  destruct l; [|done]. by intros [= <-].
Qed.

Lemma deserialize_ok row l : row_objects row → deserializeApprovalLinkage (ap_linkage_json row) = Some l → object_ok l.
Proof.
  intros (_ & _ & Hl). unfold deserializeApprovalLinkage. apply normalize_linkage_ok. intros fields. unfold parse_column.
  destruct (ap_linkage_json row) as [raw|]; [|done]. destruct (Hl raw eq_refl) as (o & -> & Ho).
  case_match; [|done]. rewrite json_parse_stringify by done. by intros [= <-].
Qed.

Lemma read_linkage_ok payload l : object_ok payload → readApprovalLinkage payload = Some l → object_ok l.
Proof.
  intros [_ Hf]%object_ok_spec. apply normalize_linkage_ok. intros fields Hk.
  induction Hf as [|[k v] rest Hv _ IH]; [done|]. cbn in Hk. case_bool_decide; [|by apply IH].
  injection Hk as ->. done.
Qed.

Lemma linkage_ok id row : row_objects row → object_ok_opt (linkage (mapApprovalRow id row)).
Proof.
  intros Hr. destruct Hr as (Hp & Hv & Hl) eqn:E. cbn. unfold first_of.
  destruct (deserializeApprovalLinkage (ap_linkage_json row)) as [l|] eqn:E1; [by eapply deserialize_ok|].
  destruct (readApprovalLinkage (column_fields (ap_payload_json row))) as [l|] eqn:E2.
  { eapply read_linkage_ok; [|exact E2]. by apply text_of_object_fields. }
  destruct (readApprovalLinkage (column_fields (ap_preview_json row))) as [l|] eqn:E3; [|done].
  eapply read_linkage_ok; [|exact E3]. by apply text_of_object_fields.
Qed.

Lemma embed_text payload l : object_ok payload → object_ok_opt l →
  text_of_object (json_stringify (JObject (embedApprovalLinkage payload l))).
Proof. intros Hp Hl. apply text_of_object_intro, embed_ok; [done|]. intros fields ->. done. Qed.

Lemma strip_ok payload : object_ok payload → object_ok (stripApprovalLinkage payload).
Proof. apply delete_field_ok. Qed.

Lemma canonical_ok v : json_wf v → json_wf (canonical v).
Proof.
  induction v as [| | | |l IH|l IH] using json_rect'; cbn; try done; intros Hwf; inversion Hwf as [| | | |? Hl|? Hd Hl]; subst.
  - constructor. clear Hwf. induction IH as [|x l Hx _ IHl]; cbn; [done|]. apply Forall_cons in Hl as [? ?].
    constructor; auto.
  - apply object_ok_spec. rewrite order_by_Permutation. split.
    + by rewrite map_values_keys.
    + clear Hwf Hd. induction IH as [|x l Hx _ IHl]; cbn; [done|]. apply Forall_cons in Hl as [? ?]. constructor; auto.
Qed.

Lemma canonical_text fields : object_ok fields → text_of_object (canonicalJsonString (JObject fields)).
Proof.
  intros H. unfold canonicalJsonString. cbn [canonical]. apply text_of_object_intro.
  change (json_wf (canonical (JObject fields))). by apply canonical_ok.
Qed.

Lemma created_objects c id row : call_ok c → created_row c id row → row_objects row.
Proof.
  intros Hc Hr. assert (∀ input, object_ok (cr_payload input) → object_ok_opt (cr_linkage input) →
    text_of_object (json_stringify (JObject (created_payload input)))) as Hpl.
  { intros input Hp Hl. unfold created_payload. destruct (is_lifecycle _).
    - by apply text_of_object_intro, strip_ok.
    - apply embed_text; [|done]. destruct (cr_rollbackNote input); [|done]. case_match; [|done].
      apply set_field_ok; [done|constructor]. }
  destruct Hr as [uuid now input|uuid clock input t ttl w ->|clock input t ttl w ->]; cbn in Hc; destruct Hc as (Hp & Hv & Hl).
  1,2: split_and!; cbn; [by apply Hpl|by apply text_of_object_intro|intros raw; by apply serialize_ok].
  split_and!; cbn; [by apply canonical_text|by apply canonical_text|].
  unfold detached_linkage. destruct (de_linkage input) as [l|]; [|done]. intros raw [= <-]. by apply canonical_text.
Qed.

Lemma decided_objects clock id input row : row_objects row → object_ok_opt (re_editedPayload input) →
  row_objects (decided_row clock id input row).
Proof.
  intros Hr He. pose proof (linkage_ok id row Hr) as Hlk. destruct Hr as (Hp & Hv & Hl). unfold decided_row.
  split_and!; cbn -[mapApprovalRow]; [|done|].
  - destruct (exact_detached _); [done|]. unfold resolved_payload.
    assert (object_ok (default (ar_payload (mapApprovalRow id row)) (re_editedPayload input))) as Ho.
    { destruct (re_editedPayload input); [done|]. by apply strip_ok, text_of_object_fields. }
    destruct (is_lifecycle _); [by apply text_of_object_intro, strip_ok|by apply embed_text].
  - destruct (exact_detached _); [done|]. intros raw. by apply serialize_ok.
Qed.

Lemma merged_objects patch row : row_objects row → object_ok patch → row_objects (merged_row patch row).
Proof.
  intros Hr Hpatch. assert (object_ok (merged_linkage patch row)) as Hm.
  { apply spread_ok; [|by apply text_fields_ok]. unfold first_of.
    destruct (deserializeApprovalLinkage (ap_linkage_json row)) as [l|] eqn:E1; [by eapply deserialize_ok|].
    destruct (readApprovalLinkage _) as [l|] eqn:E2; [|apply object_ok_spec; by repeat constructor].
    eapply read_linkage_ok; [|exact E2]. apply text_of_object_fields. by destruct Hr. }
  destruct Hr as (Hp & Hv & Hl). unfold merged_row. split_and!; [|done|intros raw; by apply (serialize_ok (Some (merged_linkage patch row)))].
  cbn -[json_stringify embedApprovalLinkage stripApprovalLinkage]. apply text_of_object_fields in Hp. destruct (is_lifecycle _); [by apply text_of_object_intro, strip_ok|by apply embed_text].
Qed.

Lemma change_objects c id row row' : call_ok c → row_change c id row row' → row_objects row → row_objects row'.
Proof.
  intros Hc Hr Ho. destruct Hr as [| |id patch row|c id row row' E]; [by apply decided_objects|done|by apply merged_objects|].
  unfold decision_columns in E. injection E as _ _ _ El Ep Ev _ _ _ _ _. unfold row_objects in *. by rewrite El, Ep, Ev.
Qed.

(** Histories keep the table well formed. *)
Lemma call_wf c t : call_ok c → approvals_wf t → approvals_wf (run_call c t).
Proof.
  intros Hc Ht. destruct (call_effect c t) as [->|[(i & r & Hn & Hr & ->)|(i & r & r' & Hi & Hr & ->)]]; [done|..].
  - apply map_Forall_insert_2; [by eapply created_objects|done].
  - apply map_Forall_insert_2; [|done]. eapply change_objects; [done..|]. by apply (Ht i).
Qed.

Lemma approval_calls_wf cs : ∀ t, Forall call_ok cs → approvals_wf t → approvals_wf (run_calls cs t).
Proof.
  induction cs as [|c cs IH]; intros t Hc Ht; [done|]. apply Forall_cons in Hc as [Hc Hcs]. cbn. apply IH; [done|].
  by apply call_wf.
Qed.

(** The parts of an approval that a decision is about. *)
Definition decision (approval : ApprovalRequest) :=
  (ar_kind approval, riskLevel approval, ar_status approval, ar_payload approval, ar_preview approval, ar_createdAt approval,
   ar_expiresAt approval, (resolvedAt approval, resolvedBy approval, resolutionNote approval)).

Lemma merge_keeps_payload patch row : row_objects row → object_ok patch →
  stripApprovalLinkage (column_fields (ap_payload_json (merged_row patch row))) =
    stripApprovalLinkage (column_fields (ap_payload_json row)).
Proof.
  intros Hr Hp. destruct (merged_objects patch row Hr Hp) as ((fields & E & Hok) & _).
  rewrite E, column_fields_stringify by done. revert E Hok. unfold merged_row.
  cbn -[json_stringify embedApprovalLinkage stripApprovalLinkage]. set (payload := column_fields _).
  set (stored := if is_lifecycle _ then _ else _). intros E Hok.
  assert (object_ok stored) as Hs.
  { assert (object_ok payload) by by (apply text_of_object_fields; destruct Hr). subst stored.
    destruct (is_lifecycle _); [by apply strip_ok|]. apply embed_ok; [done|]. intros l [= <-].
    apply spread_ok; [|by apply text_fields_ok]. unfold first_of.
    destruct (deserializeApprovalLinkage (ap_linkage_json row)) as [l|] eqn:E1; [by eapply deserialize_ok|].
    destruct (readApprovalLinkage _) as [l|] eqn:E2; [|apply object_ok_spec; by repeat constructor].
    by eapply read_linkage_ok. }
  apply (f_equal column_fields) in E. rewrite !column_fields_stringify in E by done. subst fields stored.
  destruct (is_lifecycle _); [|apply strip_embed]. apply delete_field_id, delete_field_keys.
Qed.

Lemma change_keeps_decision c id row row' : call_ok c → row_change c id row row' → row_objects row →
  ap_status row ≠ approval_pending → ∀ i, decision (mapApprovalRow i row') = decision (mapApprovalRow i row).
Proof.
  intros Hc Hch Ho Hs i. destruct Hch as [clock id input allow row _ _ Hr|clock id s turn by_ note row Hp|id patch row _|c id row row' E].
  - by apply andb_true_iff in Hr as [?%bool_decide_eq_true _].
  - by apply bool_decide_eq_true in Hp.
  - unfold decision. cbn -[merged_row column_fields]. rewrite merge_keeps_payload by done. done.
  - unfold decision_columns in E. injection E as E1 E2 E3 E4 E5 E6 E7 E8 E9 E10 E11. unfold decision. cbn.
    by rewrite E1, E2, E3, E5, E6, E7, E8, E9, E10, E11.
Qed.

Lemma decision_final_run cs : ∀ t id row, Forall call_ok cs → approvals_wf t → t !! id = Some row →
  ap_status row ≠ approval_pending →
  ∃ row', run_calls cs t !! id = Some row' ∧ decision (mapApprovalRow id row') = decision (mapApprovalRow id row).
Proof.
  induction cs as [|c cs IH]; intros t id row Hc Ht Hr Hs; [by exists row|].
  apply Forall_cons in Hc as [Hc Hcs]. cbn. pose proof (call_wf c t Hc Ht) as Ht'.
  assert (∃ r, run_call c t !! id = Some r ∧ decision (mapApprovalRow id r) = decision (mapApprovalRow id row)) as (r & Hr' & E).
  { destruct (call_effect c t) as [->|[(i & r & Hn & _ & ->)|(i & r & r' & Hi & Hch & ->)]]; [by exists row|..].
    - exists row. by rewrite lookup_insert_ne by congruence.
    - destruct (decide (i = id)) as [->|Hne]; [|exists row; by rewrite lookup_insert_ne]. simplify_eq.
      exists r'. rewrite lookup_insert_eq. split; [done|]. eapply change_keeps_decision; [done..| |done]. by apply (Ht id). }
  destruct (IH _ _ r Hcs Ht' Hr') as (row' & H1 & H2).
  { unfold decision in E. injection E as _ _ E _ _ _ _ _ _ _. cbn in E. congruence. }
  exists row'. split; [done|]. congruence.
Qed.

(** C32. A decision is final: once an approval is approved, rejected or edited, no
    later call changes its status, who decided it, when and with which note, or
    the kind, the risk, the payload and the preview that were decided on. *)
Theorem decision_is_final cs t id row :
  Forall call_ok cs → approvals_wf t → t !! id = Some row → ap_status row ≠ approval_pending →
  ∃ row', run_calls cs t !! id = Some row' ∧ decision (mapApprovalRow id row') = decision (mapApprovalRow id row).
Proof. apply decision_final_run. Qed.

(** ** Where a decision comes from *)

Lemma change_status c id row row' s : row_change c id row row' → ap_status row' = s → s ≠ approval_pending →
  ap_status row = s ∨
  (ap_status row = approval_pending ∧
   ((∃ clock input allowExpired, c = ResolveCall clock id input allowExpired ∧ s = decided_status (re_decision input) ∧
       row' = decided_row clock id input row ∧ allowExpired && negb (may_touch_expired input) = false ∧
       exact_detached (ap_kind row) && edits input = false ∧ resolvable clock allowExpired row = true) ∨
    (∃ clock sessionId turnId by_ note, c = WithdrawCall clock id sessionId turnId by_ note ∧ s = approval_rejected))).
Proof.
  intros Hch Hs Hp. destruct Hch as [clock id input allow row Hg Hx Hr|clock id sid turn by_ note row Hq|id patch row _|c id row row' E].
  - right. pose proof Hr as Hr'. apply andb_true_iff in Hr' as [?%bool_decide_eq_true _]. split; [done|]. left.
    exists clock, input, allow. by split_and!.
  - right. apply bool_decide_eq_true in Hq. split; [done|]. right. by exists clock, sid, turn, by_, note.
  - by left.
  - left. unfold decision_columns in E. injection E. congruence.
Qed.

(** The call and the row from which an approval was approved. *)
Definition approved_by (cs : list approval_call) (t : approval_table) (id : string) : Prop :=
  ∃ before after clock input row,
    cs = before ++ ResolveCall clock id input false :: after ∧ re_decision input = decide_approve ∧
    run_calls before t !! id = Some row ∧ ap_status row = approval_pending ∧ approval_active clock row = true ∧
    ∃ row', run_calls cs t !! id = Some row' ∧
      decision (mapApprovalRow id row') = decision (mapApprovalRow id (decided_row clock id input row)).

Lemma run_calls_app a b t : run_calls (a ++ b) t = run_calls b (run_calls a t).
Proof. apply foldl_app. Qed.

Lemma approved_by_run cs : ∀ t id row', Forall call_ok cs → approvals_wf t →
  run_calls cs t !! id = Some row' → ap_status row' = approval_approved →
  (∀ row, t !! id = Some row → ap_status row ≠ approval_approved) → approved_by cs t id.
Proof.
  induction cs as [|c cs IH]; intros t id row' Hc Ht Hr' Hs Hn; [by apply Hn in Hr'|].
  apply Forall_cons in Hc as [Hc Hcs]. cbn in Hr'. pose proof (call_wf c t Hc Ht) as Ht'.
  assert (Hcases : (∀ row, run_call c t !! id = Some row → ap_status row ≠ approval_approved) ∨
    ∃ clock input row, c = ResolveCall clock id input false ∧ re_decision input = decide_approve ∧ t !! id = Some row ∧
      ap_status row = approval_pending ∧ approval_active clock row = true ∧
      run_call c t !! id = Some (decided_row clock id input row)).
  { destruct (call_effect c t) as [->|[(i & r & Hi & Hcr & E)|(i & r & r1 & Hi & Hch & E)]]; [by left|..]; rewrite E;
      (destruct (decide (i = id)) as [->|Hne]; [|left; intros row; rewrite lookup_insert_ne by done; apply Hn]).
    - left. intros row. rewrite lookup_insert_eq. intros [= <-]. by destruct Hcr.
    - destruct (decide (ap_status r1 = approval_approved)) as [Ha|Ha];
        [|left; intros row; rewrite lookup_insert_eq; by intros [= <-]].
      destruct (change_status _ _ _ _ _ Hch Ha) as [H|(Hp & [(clock & input & allow & -> & Hd & -> & Hg & _ & Hv)|(? & ? & ? & ? & ? & _ & ?)])];
        [done|by apply Hn in Hi|right|done].
      destruct (re_decision input) eqn:Ed; try done. exists clock, input, r. rewrite lookup_insert_eq.
      unfold may_touch_expired in Hg. rewrite Ed in Hg. destruct allow; [done|].
      unfold resolvable in Hv. apply andb_true_iff in Hv as [_ Hv]. by split_and!. }
  destruct Hcases as [Hn'|(clock & input & row & -> & Hd & Hrow & Hp & Ha & Hrun)].
  - destruct (IH _ _ _ Hcs Ht' Hr' Hs Hn') as (b & a & clock & input & row & -> & H).
    exists (c :: b), a, clock, input, row. done.
  - exists [], cs, clock, input, row. split_and!; [done..|].
    destruct (decision_final_run cs _ id _ Hcs Ht' Hrun) as (r2 & H1 & H2); [cbn; by rewrite Hd|].
    exists r2. done.
Qed.

(** Every approval that stands was given: an approved request was approved by
    a call of [resolve] with that decision, made while the request was pending
    and had not expired by the database's clock, and what is approved now is
    what that call approved. *)
Theorem approval_was_given cs id row :
  Forall call_ok cs → run_calls cs ∅ !! id = Some row → ap_status row = approval_approved → approved_by cs ∅ id.
Proof.
  intros Hc Hr Hs. eapply approved_by_run; [done| |done..|]; [apply map_Forall_empty|].
  intros r. by rewrite lookup_empty.
Qed.
