(* ===== verification/PendingActions.v ===== *)
(** * Pending approval actions (packages/storage/src/pending-approval-action-repo.ts)

    The table [pending_approval_actions] on SQLite: what is to be done once an
    approval is given.  The time of the process and the database clock (in
    milliseconds) are arguments.  Then histories of calls: a settled action stays
    settled. *)
From S2P Require Import Prelude.
From S2P Require Import JsString.
From S2P Require Import JsTime.
From S2P Require Import JsJson.
From S2P Require Import JsJsonText.
From S2P Require Import JsObject.
From S2P Require Import Errors.

Inductive PendingActionType := tool_invoke | code_mode_run | code_mode_aider_promote | integration_dry_run_commit.
#[export] Instance PendingActionType_eq_dec : EqDecision PendingActionType.
Proof. solve_decision. Defined.

Inductive ResolutionStatus := action_pending | action_executed | action_rejected | action_failed.
#[export] Instance ResolutionStatus_eq_dec : EqDecision ResolutionStatus.
Proof. solve_decision. Defined.

Record PendingApprovalAction := mkPendingAction {
  pa_approvalId : string;
  actionType : PendingActionType;
  pa_request : json;
  pa_createdAt : string;
  pa_expiresAt : option string;
  pa_resolvedAt : option string;
  resolutionStatus : ResolutionStatus;
  pa_result : option json
}.

Record PendingActionRow := mkPendingRow {
  pr_action_type : PendingActionType;
  pr_request_json : string;
  pr_created_at : string;
  pr_expires_at : option string;
  pr_resolved_at : option string;
  pr_resolution_status : ResolutionStatus;
  pr_result_json : option string
}.
#[export] Instance eta_PendingActionRow : Eta PendingActionRow := λ r,
  mkPendingRow (pr_action_type r) (pr_request_json r) (pr_created_at r) (pr_expires_at r) (pr_resolved_at r)
    (pr_resolution_status r) (pr_result_json r).

Abbreviation pending_table := (gmap string PendingActionRow).
Abbreviation pendings := (M js_error pending_table).

Definition mapPendingRow (id : string) (row : PendingActionRow) : PendingApprovalAction :=
  mkPendingAction id (pr_action_type row)
    (default (JObject []) (loadAndSanitize (Some (pr_request_json row)) (Some (JObject []))))
    (pr_created_at row) (pr_expires_at row) (pr_resolved_at row) (pr_resolution_status row)
    (if truthy_opt (pr_result_json row) then loadAndSanitize (pr_result_json row) (Some (JObject [])) else None).

Definition row_is (s : ResolutionStatus) (row : PendingActionRow) : bool := bool_decide (pr_resolution_status row = s).

(** ** Statements *)

Definition upsertPendingStmt (id : string) (kind : PendingActionType) (requestJson createdAt : string) (expiresAt : option string)
    : pendings unit := λ t,
  (Ok tt, sql_upsert
    (λ old new, if row_is action_pending old
                then old <| pr_action_type := pr_action_type new |> <| pr_request_json := pr_request_json new |>
                         <| pr_created_at := pr_created_at new |> <| pr_expires_at := pr_expires_at new |>
                else old)
    id (mkPendingRow kind requestJson createdAt expiresAt None action_pending None) t).

(** The condition of [findFreshPendingStmt]: a date of its own, or the time of
    creation and the lifetime, after the clock. *)
Definition row_fresh (clock defaultTtlMs : Z) (row : PendingActionRow) : bool :=
  match pr_expires_at row with
  | Some at_ => after_clock (Some at_) clock
  | None => match julianday (pr_created_at row) with Some t => clock <? t + defaultTtlMs | None => false end
  end.
Definition fresh_pending (clock defaultTtlMs : Z) (row : PendingActionRow) : bool :=
  row_is action_pending row && row_fresh clock defaultTtlMs row.

Definition update_pending (cond : PendingActionRow → bool) (f : PendingActionRow → PendingActionRow) (id : string)
    : pendings Z := λ t, let '(n, t') := sql_update cond f id t in (Ok n, t').

Definition resolveStmt (id resolvedAt : string) (s : ResolutionStatus) (resultJson : option string) : pendings Z :=
  update_pending (row_is action_pending)
    (λ row, row <| pr_resolved_at := Some resolvedAt |> <| pr_resolution_status := s |> <| pr_result_json := resultJson |>) id.

Definition reclassifyExecutedAsFailedStmt (id expectedResultJson nextResultJson : string) : pendings Z :=
  update_pending (λ row, row_is action_executed row && bool_decide (pr_result_json row = Some expectedResultJson))
    (λ row, row <| pr_resolution_status := action_failed |> <| pr_result_json := Some nextResultJson |>) id.

(** ** Methods *)

Definition pending_not_found (id : string) : js_error := NotFoundError (NotFoundEntity "pending approval action" (Some id)).

Definition find (id : string) (t : pending_table) : option PendingApprovalAction := mapPendingRow id <$> t !! id.

Definition get (id : string) : pendings PendingApprovalAction := λ t,
  (match find id t with Some action => Ok action | None => Err (pending_not_found id) end, t).

Definition upsertPending (nowIso id : string) (kind : PendingActionType) (request : json) (createdAt expiresAt : option string)
    : pendings PendingApprovalAction :=
  upsertPendingStmt id kind (json_stringify request) (default nowIso createdAt) expiresAt ;;
  get id.

(** The lifetime in whole milliseconds. *)
Definition findFreshPending (clock : Z) (id : string) (defaultTtlMs : Z) (t : pending_table) : option PendingApprovalAction :=
  match t !! id with
  | Some row => if fresh_pending clock (Z.max 0 defaultTtlMs) row then Some (mapPendingRow id row) else None
  | None => None
  end.

Definition markResolved (nowIso id : string) (s : ResolutionStatus) (result : option json) : pendings PendingApprovalAction :=
  changes ← resolveStmt id nowIso s (json_stringify <$> result);
  if changes =? 0 then
    existing ← gets (find id);
    match existing with
    | Some action => mret action
    | None => throw (pending_not_found id)
    end
  else get id.

Definition reclassify_conflict (id : string) : js_error :=
  ConflictError (Some STATE_CONFLICT)
    ("Pending approval action " +:+ id +:+ " changed before its executed result could be reclassified as failed.").

Definition reclassifyExecutedAsFailed (id : string) (expectedResult nextResult : json) : pendings PendingApprovalAction :=
  changes ← reclassifyExecutedAsFailedStmt id (json_stringify expectedResult) (json_stringify nextResult);
  if 0 <? changes then get id
  else
    existing ← gets (find id);
    match existing with
    | None => throw (pending_not_found id)
    | Some existing => if bool_decide (resolutionStatus existing = action_failed) then mret existing else throw (reclassify_conflict id)
    end.

(** ** Histories *)

Inductive pending_call :=
  | UpsertPendingCall (nowIso id : string) (kind : PendingActionType) (request : json) (createdAt expiresAt : option string)
  | MarkResolvedCall (nowIso id : string) (s : ResolutionStatus) (result : option json)
  | ReclassifyCall (id : string) (expectedResult nextResult : json).

Definition run_pending (c : pending_call) (t : pending_table) : pending_table :=
  match c with
  | UpsertPendingCall now id kind request created expires => (upsertPending now id kind request created expires t).2
  | MarkResolvedCall now id s result => (markResolved now id s result t).2
  | ReclassifyCall id expected next => (reclassifyExecutedAsFailed id expected next t).2
  end.
Definition run_pendings (cs : list pending_call) (t : pending_table) : pending_table := foldl (λ t c, run_pending c t) t cs.

(** A settled action: it may still turn from executed to failed, and changes in
    nothing else. *)
Definition settled_as (row row' : PendingActionRow) : Prop :=
  (pr_action_type row', pr_request_json row', pr_created_at row', pr_expires_at row', pr_resolved_at row') =
  (pr_action_type row, pr_request_json row, pr_created_at row, pr_expires_at row, pr_resolved_at row) ∧
  (row' = row ∨ (pr_resolution_status row = action_executed ∧ pr_resolution_status row' = action_failed)).

(** ** Theorems about pending actions *)

Lemma update_pending_run cond f id t :
  update_pending cond f id t = (Ok (sql_update cond f id t).1, (sql_update cond f id t).2).
Proof. unfold update_pending. by destruct (sql_update cond f id t). Qed.

Lemma pending_get_run id t : get id t = (match t !! id with Some row => Ok (mapPendingRow id row) | None => Err (pending_not_found id) end, t).
Proof. unfold get, find. by destruct (t !! id). Qed.

Lemma upsert_pending_run now id kind request created expires t :
  upsertPending now id kind request created expires t =
    let fresh := mkPendingRow kind (json_stringify request) (default now created) expires None action_pending None in
    let row := match t !! id with
               | Some old => if row_is action_pending old
                             then mkPendingRow kind (json_stringify request) (default now created) expires (pr_resolved_at old)
                                    action_pending (pr_result_json old)
                             else old
               | None => fresh
               end in
    (Ok (mapPendingRow id row), <[id := row]> t).
Proof.
  unfold upsertPending, mbind, M_bind, upsertPendingStmt, sql_upsert. destruct (t !! id) as [old|] eqn:Ho.
  - rewrite pending_get_run, lookup_insert_eq. cbv zeta. unfold row_is. case_bool_decide as E; [|done].
    destruct old; cbn in *. by subst.
  - by rewrite pending_get_run, lookup_insert_eq.
Qed.

Lemma mark_resolved_run now id s result t :
  markResolved now id s result t =
    match t !! id with
    | None => (Err (pending_not_found id), t)
    | Some row =>
        if row_is action_pending row then
          let row' := mkPendingRow (pr_action_type row) (pr_request_json row) (pr_created_at row) (pr_expires_at row) (Some now) s
                        (json_stringify <$> result) in
          (Ok (mapPendingRow id row'), <[id := row']> t)
        else (Ok (mapPendingRow id row), t)
    end.
Proof.
  unfold markResolved, resolveStmt, mbind at 1, M_bind at 1. rewrite update_pending_run. unfold sql_update.
  destruct (t !! id) as [row|] eqn:Hr; cbn [fst snd].
  - destruct (row_is action_pending row); cbn [fst snd]; cbn -[get].
    + by rewrite pending_get_run, lookup_insert_eq.
    + unfold mbind, M_bind, gets, find. by rewrite Hr.
  - cbn. unfold mbind, M_bind, gets, find. by rewrite Hr.
Qed.

Lemma reclassify_run id expected next t :
  reclassifyExecutedAsFailed id expected next t =
    match t !! id with
    | None => (Err (pending_not_found id), t)
    | Some row =>
        if row_is action_executed row && bool_decide (pr_result_json row = Some (json_stringify expected)) then
          let row' := mkPendingRow (pr_action_type row) (pr_request_json row) (pr_created_at row) (pr_expires_at row)
                        (pr_resolved_at row) action_failed (Some (json_stringify next)) in
          (Ok (mapPendingRow id row'), <[id := row']> t)
        else if row_is action_failed row then (Ok (mapPendingRow id row), t)
        else (Err (reclassify_conflict id), t)
    end.
Proof.
  unfold reclassifyExecutedAsFailed, reclassifyExecutedAsFailedStmt, mbind at 1, M_bind at 1. rewrite update_pending_run.
  unfold sql_update. destruct (t !! id) as [row|] eqn:Hr; cbn [fst snd].
  - destruct (row_is action_executed row && _); cbn [fst snd]; cbn -[get].
    + by rewrite pending_get_run, lookup_insert_eq.
    + unfold mbind, M_bind, gets, find. rewrite Hr. cbn. unfold row_is. by case_bool_decide.
  - cbn. unfold mbind, M_bind, gets, find. by rewrite Hr.
Qed.

(** ** Settled actions *)

Lemma settled_refl row : settled_as row row.
Proof. split; [done|by left]. Qed.

Lemma settled_trans a b c : settled_as a b → settled_as b c → settled_as a c.
Proof.
  intros [E1 S1] [E2 S2]. split; [congruence|].
  destruct S1 as [->|[Ha Hb]]; [done|]. destruct S2 as [->|[Hb' _]]; [by right|congruence].
Qed.

Lemma settled_not_pending a b : settled_as a b → pr_resolution_status a ≠ action_pending → pr_resolution_status b ≠ action_pending.
Proof. intros [_ [->|[_ ->]]]; done. Qed.

Lemma settled_step c t id row : t !! id = Some row → pr_resolution_status row ≠ action_pending →
  ∃ row', run_pending c t !! id = Some row' ∧ settled_as row row'.
Proof.
  intros Hr Hs. assert (row_is action_pending row = false) as Hp by by apply bool_decide_eq_false.
  destruct c as [now i kind r created expires|now i s result|i expected next]; cbn [run_pending].
  - rewrite upsert_pending_run. cbv zeta; cbn [snd]. destruct (decide (i = id)) as [->|Hne]; [|exists row; rewrite lookup_insert_ne by done; split; [done|apply settled_refl]].
    exists row. rewrite lookup_insert_eq, Hr, Hp. split; [done|apply settled_refl].
  - rewrite mark_resolved_run. destruct (decide (i = id)) as [->|Hne].
    + rewrite Hr, Hp. exists row. split; [done|apply settled_refl].
    + exists row. split; [|apply settled_refl]. destruct (t !! i); [|done]. case_match; [|done]. cbv zeta; cbn [snd].
      by rewrite lookup_insert_ne.
  - rewrite reclassify_run. destruct (decide (i = id)) as [->|Hne].
    + rewrite Hr. destruct (row_is action_executed row && _) eqn:He.
      * cbv zeta; cbn [snd]. rewrite lookup_insert_eq. eexists. split; [done|]. split; [done|]. right.
        by apply andb_true_iff in He as [?%bool_decide_eq_true _].
      * exists row. split; [|apply settled_refl]. by destruct (row_is action_failed row).
    + exists row. split; [|apply settled_refl]. destruct (t !! i); [|done]. case_match; [|by case_match]. cbv zeta; cbn [snd].
      by rewrite lookup_insert_ne.
Qed.

Lemma settled_run cs : ∀ t id row, t !! id = Some row → pr_resolution_status row ≠ action_pending →
  ∃ row', run_pendings cs t !! id = Some row' ∧ settled_as row row'.
Proof.
  induction cs as [|c cs IH]; intros t id row Hr Hs; [exists row; auto using settled_refl|]. cbn.
  destruct (settled_step c t id row Hr Hs) as (r1 & H1 & S1).
  destruct (IH _ _ _ H1 (settled_not_pending _ _ S1 Hs)) as (r2 & H2 & S2). exists r2. split; [done|].
  by eapply settled_trans.
Qed.
