(* ===== verification/ToolRequests.v ===== *)
(** * Tool requests

    A tool request as the engine reads it: the fields of an object (the signal
    that aborts a call is not among them).  The trust of its sources
    (packages/policy-engine/src/tool-security.ts), the record that is kept while
    an approval is pending and the request that is rebuilt from it
    (packages/policy-engine/src/engine.ts, approval-action-secrets.ts). *)
From S2P Require Import Prelude.
From S2P Require Import JsString.
From S2P Require Import JsJson.
From S2P Require Import JsJsonText.
From S2P Require Import JsNumber.
From S2P Require Import JsObject.
From S2P Require Import Errors.

Abbreviation request := (list (string * json)).

(** [request.k]. *)
Definition prop (k : string) (r : request) : option json := lookup_field k r.

Definition is_string (v : option json) : bool := match v with Some (JString _) => true | _ => false end.
Definition is_array (v : option json) : bool := match v with Some (JArray _) => true | _ => false end.
Definition is_boolean (v : option json) : bool := match v with Some (JBool _) => true | _ => false end.
(** [v && typeof v === "object"]. *)
Definition is_objectish (v : option json) : bool := match v with Some (JObject _ | JArray _) => true | _ => false end.
Definition is_plain_object (v : option json) : bool := match v with Some v => is_object v | None => false end.
Definition keep (test : option json → bool) (v : option json) : option json := if test v then v else None.
Definition is_one (texts : list string) (v : option json) : bool :=
  match v with Some (JString s) => bool_decide (s ∈ texts) | _ => false end.

(** ** Trust (tool-security.ts) *)

Inductive ToolExecutionTrustLevel := trusted_operator | trusted_workspace | mixed_untrusted | untrusted_external.
#[export] Instance TrustLevel_eq_dec : EqDecision ToolExecutionTrustLevel.
Proof. solve_decision. Defined.

Definition TRUST_RESTRICTIVENESS (t : ToolExecutionTrustLevel) : Z :=
  match t with trusted_operator => 0 | trusted_workspace => 1 | mixed_untrusted => 2 | untrusted_external => 3 end.

Definition normalizeToolTrustLevel (value : option json) : option ToolExecutionTrustLevel :=
  match value with
  | Some (JString s) =>
      if bool_decide (s = "trusted_operator") then Some trusted_operator
      else if bool_decide (s = "trusted_workspace") then Some trusted_workspace
      else if bool_decide (s = "mixed_untrusted") then Some mixed_untrusted
      else if bool_decide (s = "untrusted_external") then Some untrusted_external
      else None
  | _ => None
  end.

(** [for (const source of value ?? [])]: the elements of an array; the characters of
    a text have no properties of their own. *)
Definition sources_of (value : option json) : res (list json) :=
  match value with
  | None | Some JNull | Some (JString _) => Ok []
  | Some (JArray l) => Ok l
  | _ => Err (JsTypeError "sourceAttribution is not iterable")
  end.

Fixpoint strictest (effectiveTrust : ToolExecutionTrustLevel) (sources : list json) : res ToolExecutionTrustLevel :=
  match sources with
  | [] => Ok effectiveTrust
  | JNull :: _ => Err (JsTypeError "Cannot read properties of null (reading 'trustLevel')")
  | source :: rest =>
      strictest
        (match normalizeToolTrustLevel (field "trustLevel" source) with
         | Some t => if TRUST_RESTRICTIVENESS effectiveTrust <? TRUST_RESTRICTIVENESS t then t else effectiveTrust
         | None => effectiveTrust
         end) rest
  end.

Definition resolveToolTrustLevel (r : request) : res ToolExecutionTrustLevel :=
  sources ← sources_of (prop "sourceAttribution" r);
  strictest (default trusted_operator (normalizeToolTrustLevel (prop "trustLevel" r))) sources.

(** ** Secrets (approval-action-secrets.ts) *)

(** A match of /grat_[A-Za-z0-9_-]{43}/i at the beginning of a text. *)
Definition is_bearer_char (c : ascii) : bool := is_word c || Ascii.eqb c "-".
Definition bearer_here (s : string) : bool :=
  starts_with "grat_" (to_lower (string_take 5 s)) &&
  (let tail := string_take 43 (string_drop 5 s) in (String.length tail =? 43)%nat && string_forallb is_bearer_char tail).
Fixpoint has_bearer (s : string) : bool :=
  bearer_here s || match s with String _ s' => has_bearer s' | EmptyString => false end.

Definition assertNoRawRemoteApprovalBearer (value : json) : res unit :=
  throw_when (has_bearer (json_stringify value))
    (JsError "Raw remote approval bearers are not accepted in tool arguments; use a protected template.").

(** ** The record of a pending action (engine.ts) *)

Definition withoutEngineOwnedApproval (r : request) : request := delete_field "approvedByApprovalId" r.

Definition toPendingApprovalRequestRecord (r : request) : request := delete_field "signal" r.

(** ** The rebuilt request *)

(** [String(value)]. *)
Fixpoint String_of (v : json) : string :=
  match v with
  | JNull => "null"
  | JBool b => if b then "true" else "false"
  | JNumber n => n
  | JString s => s
  | JArray l => join "," (map (λ x, match x with JNull => "" | x => String_of x end) l)
  | JObject _ => "[object Object]"
  end.

(** [String(value ?? x)] for the empty text, and [value ? String(value) : undefined]. *)
Definition string_or_empty (v : option json) : string := match present v with Some v => String_of v | None => "" end.
Definition string_if_truthy (v : option json) : option string :=
  match v with Some x => if truthy_json v then Some (String_of x) else None | None => None end.

(** [typeof value === "string" && value.trim() ? value : undefined]. *)
Definition nonblank_text (v : option json) : option json :=
  match v with Some (JString s) => if truthy (trim s) then v else None | _ => None end.

Definition all_strings (v : option json) : bool :=
  match v with Some (JArray l) => forallb (λ x, is_string (Some x)) l | _ => false end.

Definition parse_application (item : json) : option json :=
  let f k := field k item in
  if is_object item && is_string (f "skillId") && is_string (f "treeSha256") && is_string (f "instructionSha256") &&
     all_strings (f "modules")
  then Some (JObject (fields_of [("skillId", f "skillId"); ("treeSha256", f "treeSha256");
                                ("instructionSha256", f "instructionSha256"); ("modules", f "modules")]))
  else None.

Definition parseRuntimeSkillApplications (value : option json) : option json :=
  match value with
  | Some (JArray l) => match omap parse_application l with [] => None | parsed => Some (JArray parsed) end
  | _ => None
  end.

Definition parseWritePathRepair (value : option json) : option json :=
  match value with
  | Some (JObject fields) =>
      let f k := lookup_field k fields in
      if is_string (f "originalPath") && is_string (f "repairedPath") && all_strings (f "originalReasonCodes") &&
         all_strings (f "repairedReasonCodes")
      then Some (JObject (fields_of [("originalPath", f "originalPath"); ("repairedPath", f "repairedPath");
                                    ("originalReasonCodes", f "originalReasonCodes"); ("repairedReasonCodes", f "repairedReasonCodes")]))
      else None
  | _ => None
  end.

(** [typeof v === "number" && Number.isSafeInteger(v) && v >= 0]. *)
Definition safe_count (v : option json) : option Z :=
  match v with
  | Some (JNumber literal) =>
      let x := num_of_literal literal in
      n ← num_floor x; if SFeqb x (num_of_Z n) && (0 <=? n) && (n <? 2 ^ 53) then Some n else None
  | _ => None
  end.

(** [parseOptionalNonNegativeInteger]. *)
Definition parseOptionalNonNegativeInteger (value : option json) : option json :=
  match safe_count value with Some _ => value | None => None end.

Definition parsePresentationGrounding (value : option json) : option json :=
  match value with
  | Some (JObject fields) =>
      let f k := lookup_field k fields in
      match safe_count (f "sourceTermCount"), safe_count (f "matchedSourceTermCount") with
      | Some terms, Some matched =>
          let sourceUrlCount := safe_count (f "sourceUrlCount") in
          let matchedSourceUrlCount := safe_count (f "matchedSourceUrlCount") in
          let has (x : option json) := match x with Some _ => true | None => false end in
          let counted (x : option Z) := match x with Some _ => true | None => false end in
          if (terms <? matched) || (has (f "sourceUrlCount") && negb (counted sourceUrlCount)) ||
             (has (f "matchedSourceUrlCount") && negb (counted matchedSourceUrlCount)) ||
             negb (Bool.eqb (counted sourceUrlCount) (counted matchedSourceUrlCount)) ||
             match sourceUrlCount, matchedSourceUrlCount with Some u, Some m => u <? m | _, _ => false end
          then None
          else Some (JObject (fields_of [("sourceTermCount", f "sourceTermCount"); ("matchedSourceTermCount", f "matchedSourceTermCount");
                                        ("sourceUrlCount", parseOptionalNonNegativeInteger (f "sourceUrlCount"));
                                        ("matchedSourceUrlCount", parseOptionalNonNegativeInteger (f "matchedSourceUrlCount"))]))
      | _, _ => None
      end
  | _ => None
  end.

Definition SURFACES : list string := ["chat"; "cowork"; "code"; "tools"; "mcp"; "all"].

Definition rebuilt_consent (value : option json) : option json :=
  match value with
  | Some v =>
      if is_objectish value
      then Some (JObject (fields_of [("operatorId", keep is_string (field "operatorId" v)); ("source", field "source" v);
                                    ("reason", keep is_string (field "reason" v))]))
      else None
  | None => None
  end.

Definition trust_name (v : option json) : option json :=
  match normalizeToolTrustLevel v with Some _ => v | None => None end.

(** The rebuilt request; an undefined field is left out. *)
Definition rebuilt_literal (value : request) : list (string * option json) :=
  let v k := prop k value in
  [
    ("toolName", Some (JString (string_or_empty (v "toolName"))));
    ("args", Some (default (JObject []) (present (v "args"))));
    ("agentId", Some (JString (string_or_empty (v "agentId"))));
    ("sessionId", Some (JString (string_or_empty (v "sessionId"))));
    ("turnId", nonblank_text (v "turnId"));
    ("toolRunId", nonblank_text (v "toolRunId"));
    ("citadelId", nonblank_text (v "citadelId"));
    ("workspaceId", JString <$> string_if_truthy (v "workspaceId"));
    ("taskId", JString <$> string_if_truthy (v "taskId"));
    ("runId", JString <$> string_if_truthy (v "runId"));
    ("trustLevel", trust_name (v "trustLevel"));
    ("sourceAttribution", keep is_array (v "sourceAttribution"));
    ("authContext", keep is_plain_object (v "authContext"));
    ("consentContext", rebuilt_consent (v "consentContext"));
    ("permissionProfileId", JString <$> string_if_truthy (v "permissionProfileId"));
    ("localOperatorOverrideId", JString <$> string_if_truthy (v "localOperatorOverrideId"));
    ("surface", keep (is_one SURFACES) (v "surface"));
    ("policyContext", keep is_objectish (v "policyContext"));
    ("dryRun", keep is_boolean (v "dryRun"));
    ("externalRuntime", keep is_boolean (v "externalRuntime"));
    ("runtimeSkillApplications", parseRuntimeSkillApplications (v "runtimeSkillApplications"));
    ("writePathRepair", parseWritePathRepair (v "writePathRepair"));
    ("presentationGrounding", parsePresentationGrounding (v "presentationGrounding"))].
Definition rebuilt_fields (value : request) : request := fields_of (rebuilt_literal value).

Definition asToolInvokeRequest (value : request) : res request :=
  let empty k := negb (truthy (string_or_empty (prop k value))) in
  if empty "toolName" || empty "agentId" || empty "sessionId"
  then Err (JsError "Invalid pending action request payload")
  else Ok (rebuilt_fields value).
