(* ===== verification/ApprovalBypass.v ===== *)
(** * Approval bypass

    Whether a request may run on an approval that was given
    (packages/policy-engine/src/approval-bypass.ts), and the request that an
    approved action runs as: [executeApprovedAction] of
    packages/policy-engine/src/engine.ts up to the evaluation of the policy.  The
    reads of the two tables may lie apart: each is an argument. *)
From S2P Require Import Prelude.
From S2P Require Import JsString.
From S2P Require Import JsJson.
From S2P Require Import JsJsonText.
From S2P Require Import JsObject.
From S2P Require Import Errors.
From S2P Require Import Approvals.
From S2P Require Import PendingActions.
From S2P Require Import ToolRequests.

Definition DEFAULT_APPROVAL_TTL_MS : Z := 15 * 60000.

Section locale.
(** [String.prototype.localeCompare] of the host's locale. *)
Variable localeCompare : string → string → Z.

(** ** Values up to the order of their fields *)

(** The keys sorted, as they are set on a new object: to set [__proto__] is to set
    no field. *)
Definition locale_order (f g : string * json) : bool := localeCompare f.1 g.1 <=? 0.
Fixpoint sortValue (value : json) : json :=
  match value with
  | JArray l => JArray (map sortValue l)
  | JObject fields =>
      JObject (delete_field "__proto__" (order_by locale_order (map (λ f, (f.1, sortValue f.2)) fields)))
  | v => v
  end.
Definition stableStringify (value : json) : string := json_stringify (sortValue value).

(** ** The reference to an approval *)

(** /^approval:([A-Za-z0-9_-]+)$/ *)
Definition approval_reference (reason : string) : option string :=
  if starts_with "approval:" reason
  then let id := string_drop 9 reason in if truthy id && string_forallb is_bearer_char id then Some id else None
  else None.

Definition extractApprovalId (r : request) : option string :=
  match prop "consentContext" r ≫= field "reason" with
  | Some (JString reason) => approval_reference (trim reason)
  | _ => None
  end.

(** ** The comparison with the stored request *)

Definition governanceField (r : request) (key : string) : option json :=
  match prop key r with
  | Some (JString s) => Some (JString s)
  | _ => match prop "policyContext" r ≫= field key with Some (JString s) => Some (JString s) | _ => None end
  end.

Definition same_text (k : string) (a b : request) : bool := strict_eq (prop k a) (prop k b).
Definition same_optional (k : string) (a b : request) : bool := strict_eq (present (prop k a)) (present (prop k b)).
Definition same_governance (k : string) (a b : request) : bool := strict_eq (governanceField a k) (governanceField b k).
Definition same_value (k : string) (fallback : json) (a b : request) : bool :=
  bool_decide (stableStringify (default fallback (present (prop k a))) = stableStringify (default fallback (present (prop k b)))).

Definition requestMatchesPendingApproval (r stored : request) : res bool :=
  if negb (same_text "toolName" stored r && same_text "agentId" stored r && same_text "sessionId" stored r &&
           same_optional "turnId" stored r && same_optional "toolRunId" stored r && same_optional "workspaceId" stored r &&
           same_optional "taskId" stored r && same_optional "runId" stored r)
  then Ok false
  else
    a ← resolveToolTrustLevel stored;
    b ← resolveToolTrustLevel r;
    Ok (bool_decide (a = b) &&
        same_governance "permissionProfileId" stored r && same_governance "localOperatorOverrideId" stored r &&
        same_governance "surface" stored r &&
        same_value "sourceAttribution" (JArray []) stored r && same_value "authContext" (JObject []) stored r &&
        same_optional "dryRun" stored r && same_optional "externalRuntime" stored r &&
        same_value "runtimeSkillApplications" (JArray []) stored r && same_value "writePathRepair" (JObject []) stored r &&
        same_value "presentationGrounding" (JObject []) stored r && same_value "args" (JObject []) stored r).

(** ** The bypass *)

Definition getVerifiedApprovalBypassId (clock : Z) (r : request) (p : pending_table) (a : approval_table) : res (option string) :=
  match extractApprovalId r with
  | None => Ok None
  | Some approvalId =>
      match findFreshPending clock approvalId DEFAULT_APPROVAL_TTL_MS p with
      | None => Ok None
      | Some pending =>
          if negb (bool_decide (actionType pending = tool_invoke)) || negb (bool_decide (resolutionStatus pending = action_pending))
          then Ok None
          else match (Approvals.get approvalId a).1 with
               | Err _ => Ok None
               | Ok approval =>
                   if negb (bool_decide (ar_status approval = approval_approved)) then Ok None
                   else matches ← requestMatchesPendingApproval r (object_fields (pa_request pending));
                        Ok (if (matches : bool) then Some approvalId else None)
               end
      end
  end.

Definition hasVerifiedApprovalBypass (clock : Z) (r : request) (p : pending_table) (a : approval_table) : res bool :=
  id ← getVerifiedApprovalBypassId clock r p a;
  Ok (match id with Some _ => true | None => false end).

(** ** Running an approved action *)

(** [x ?? "ui"] and the reference to the approval. *)
Definition approved_request (approvalId : string) (r : request) : request :=
  let consent := match present (prop "consentContext" r) with Some v => object_fields v | None => [] end in
  set_field_json "consentContext"
    (JObject (set_field_json "reason" (JString ("approval:" +:+ approvalId))
       (set_field_json "source" (default (JString "ui") (present (lookup_field "source" consent))) consent))) r.

Definition mismatch_reason : string := "pending approval action is expired, resolved, or no longer matches the stored request".

(** The request that goes on to the evaluation of the policy, if any, and the
    table of pending actions; the events beside it are left out. *)
Definition executeApprovedAction_admission (nowIso : string) (clock : Z) (approvalId : string)
    (deferResolution externalRuntimeReplay : bool) (a : approval_table) : pendings (option request) :=
  let fail (result : request) : pendings (option request) :=
    if deferResolution then mret None
    else markResolved nowIso approvalId action_failed (Some (JObject result)) ;; mret None in
  pending ← gets (PendingActions.find approvalId);
  match pending with
  | None => mret None
  | Some pending =>
      if negb (bool_decide (resolutionStatus pending = action_pending)) then mret None
      else if negb (bool_decide (actionType pending = tool_invoke))
      then fail [("error", JString ("unsupported pending action type " +:+
                    match actionType pending with
                    | tool_invoke => "tool.invoke" | code_mode_run => "code_mode.run"
                    | code_mode_aider_promote => "code_mode.aider_promote"
                    | integration_dry_run_commit => "integration.dry_run_commit"
                    end))]
      else
        lift (assertNoRawRemoteApprovalBearer (pa_request pending)) ;;
        r ← lift (asToolInvokeRequest (object_fields (pa_request pending)));
        let approvedRequest := approved_request approvalId r in
        p ← gets id;
        verified ← lift (hasVerifiedApprovalBypass clock approvedRequest p a);
        if negb (verified : bool) then fail [("reason", JString mismatch_reason)]
        else mret (Some (if externalRuntimeReplay
                         then set_field_json "externalRuntime" (JBool true) (delete_field "dryRun" approvedRequest)
                         else approvedRequest))
  end.
End locale.
