(* ===== verification/ApprovalBypassTheorems.v ===== *)
(** * Theorems about the approval bypass

    When a reference to an approval is verified; that such an approval was given
    and that its action is spent once; and that the action of an approved request
    goes on to the policy as it was stored. *)
From S2P Require Import Prelude.
From S2P Require Import JsString.
From S2P Require Import JsJson.
From S2P Require Import JsJsonText.
From S2P Require Import JsObject.
From S2P Require Import Errors.
From S2P Require Import Approvals.
From S2P Require Import ApprovalTheorems.
From S2P Require Import PendingActions.
From S2P Require Import ToolRequests.
From S2P Require Import ApprovalBypass.

(** ** Values up to the order of their fields *)

(** The same value but for the order of the fields of its objects, and for fields
    named [__proto__]. *)
Inductive same_json : json → json → Prop :=
  | same_scalar v : same_json v v
  | same_array l l' : Forall2 same_json l l' → same_json (JArray l) (JArray l')
  | same_object fields fields' perm :
      perm ≡ₚ delete_field "__proto__" fields' →
      Forall2 (λ f g, f.1 = g.1 ∧ same_json f.2 g.2) (delete_field "__proto__" fields) perm →
      same_json (JObject fields) (JObject fields').

Section locale.
Variable localeCompare : string → string → Z.
Abbreviation sortValue := (sortValue localeCompare).
Abbreviation stableStringify := (stableStringify localeCompare).

Lemma delete_field_perm k (a b : list (string * json)) : a ≡ₚ b → delete_field k a ≡ₚ delete_field k b.
Proof. intros H. unfold delete_field. by rewrite H. Qed.

Lemma delete_field_map k (g : json → json) fields :
  delete_field k (map (λ f, (f.1, g f.2)) fields) = map (λ f, (f.1, g f.2)) (delete_field k fields).
Proof.
  unfold delete_field. induction fields as [|[k' v] fields IH]; [done|]. cbn [map]. rewrite !filter_cons. cbn [fst].
  destruct (decide (k' = k)) as [->|Hne]; [by rewrite !decide_False by naive_solver|]. rewrite !decide_True by done.
  cbn [map fst snd]. by rewrite IH.
Qed.

Lemma sort_value_wf v : json_wf v → json_wf (sortValue v).
Proof.
  induction v as [| | | |l IH|l IH] using json_rect'; cbn; try done; intros Hwf; inversion Hwf as [| | | |? Hl|? Hd Hl]; subst.
  - constructor. clear Hwf. induction IH as [|x l Hx _ IHl]; cbn; [done|]. apply Forall_cons in Hl as [? ?].
    constructor; auto.
  - apply delete_field_ok. apply object_ok_spec. rewrite order_by_Permutation. split.
    + by rewrite map_values_keys.
    + clear Hwf Hd. induction IH as [|x l Hx _ IHl]; cbn; [done|]. apply Forall_cons in Hl as [? ?]. constructor; auto.
Qed.

Lemma sort_value_array l v : sortValue v = JArray l → ∃ l', v = JArray l' ∧ map sortValue l' = l.
Proof. destruct v; try done. cbn. intros [= <-]. eauto. Qed.

Lemma sort_value_object l v : sortValue v = JObject l → ∃ l', v = JObject l' ∧
  delete_field "__proto__" (order_by (locale_order localeCompare) (map (λ f, (f.1, sortValue f.2)) l')) = l.
Proof. destruct v; try done. cbn. intros [= <-]. eauto. Qed.

Lemma order_fields_perm l :
  delete_field "__proto__" (order_by (locale_order localeCompare) (map (λ f, (f.1, sortValue f.2)) l))
  ≡ₚ map (λ f, (f.1, sortValue f.2)) (delete_field "__proto__" l).
Proof. rewrite (delete_field_perm _ _ _ (order_by_Permutation _ _)). by rewrite delete_field_map. Qed.

(** Values with one sorted form are the same but for the order. *)
Lemma sort_value_same v : ∀ w, sortValue v = sortValue w → same_json v w.
Proof.
  induction v as [| | | |l IH|l IH] using json_rect'; intros w H; symmetry in H.
  1-4: destruct w; try discriminate H; try injection H as ->; constructor.
  - apply sort_value_array in H as (l' & -> & H). constructor. revert l' H.
    induction IH as [|x l Hx _ IHl]; intros [|y l'] H; try discriminate H; constructor; cbn in H; injection H as H1 H2.
    + by apply Hx.
    + by apply IHl.
  - apply sort_value_object in H as (l' & -> & H).
    assert (Hp : map (λ f, (f.1, sortValue f.2)) (delete_field "__proto__" l') ≡ₚ
                 map (λ f, (f.1, sortValue f.2)) (delete_field "__proto__" l)).
    { etrans; [symmetry; apply order_fields_perm|]. etrans; [|apply order_fields_perm]. by apply reflexive_eq. }
    symmetry in Hp. apply Permutation_map_inv in Hp as (perm & Hperm & Hp). apply same_object with perm; [done|].
    assert (IH' : Forall (λ f : string * json, ∀ w, sortValue f.2 = sortValue w → same_json f.2 w) (delete_field "__proto__" l)).
    { apply Forall_forall. intros f [_ Hf]%list_elem_of_filter. rewrite Forall_forall in IH. by apply IH. }
    clear IH H Hp. revert perm Hperm. induction IH' as [|f fs Hf _ IHf]; intros [|g gs] Hperm; try discriminate Hperm; constructor.
    + cbn in Hperm. injection Hperm as H1 H2 _. split; [done|]. by apply Hf.
    + apply IHf. cbn in Hperm. by injection Hperm.
Qed.

Lemma stable_stringify_same v w : json_wf v → json_wf w → stableStringify v = stableStringify w → same_json v w.
Proof.
  intros Hv Hw H. apply sort_value_same. apply (f_equal json_parse) in H. unfold ApprovalBypass.stableStringify in H.
  rewrite !json_parse_stringify in H by by apply sort_value_wf. congruence.
Qed.

(** ** When a reference is verified *)

Definition stored_request (row : PendingActionRow) : request := object_fields (pa_request (mapPendingRow "" row)).

Lemma strict_eq_true a b : strict_eq a b = true → a = b.
Proof.
  destruct a as [[]|], b as [[]|]; cbn; try done.
  - by intros ->%eqb_prop.
  - by intros ->%bool_decide_eq_true.
  - by intros ->%bool_decide_eq_true.
Qed.

Abbreviation getVerifiedApprovalBypassId := (getVerifiedApprovalBypassId localeCompare).
Abbreviation requestMatchesPendingApproval := (requestMatchesPendingApproval localeCompare).

Lemma get_approval id a :
  (Approvals.get id a).1 = match a !! id with Some row => Ok (mapApprovalRow id row) | None => Err (approval_not_found id) end.
Proof. unfold Approvals.get, getForUpdateRow, mbind, M_bind. by destruct (a !! id). Qed.

(** A condition that fails. *)
Ltac refused := split; [discriminate|]; intros (? & ? & ? & ? & ? & ? & ? & ? & ?); simplify_eq; congruence.

(** Every condition of the bypass. *)
Lemma bypass_spec clock r p a id :
  getVerifiedApprovalBypassId clock r p a = Ok (Some id) ↔
  extractApprovalId r = Some id ∧ ∃ row arow,
    p !! id = Some row ∧ fresh_pending clock DEFAULT_APPROVAL_TTL_MS row = true ∧ pr_action_type row = tool_invoke ∧
    a !! id = Some arow ∧ ap_status arow = approval_approved ∧
    requestMatchesPendingApproval r (stored_request row) = Ok true.
Proof.
  unfold ApprovalBypass.getVerifiedApprovalBypassId, findFreshPending. destruct (extractApprovalId r) as [i|]; [|split; [discriminate|by intros [? _]]].
  change (Z.max 0 DEFAULT_APPROVAL_TTL_MS) with DEFAULT_APPROVAL_TTL_MS.
  destruct (p !! i) as [row|] eqn:Hp; [|refused].
  destruct (fresh_pending clock _ row) eqn:Hf; [|refused].
  pose proof Hf as [Hs _]%andb_true_iff. apply bool_decide_eq_true in Hs.
  change (actionType (mapPendingRow i row)) with (pr_action_type row).
  change (resolutionStatus (mapPendingRow i row)) with (pr_resolution_status row).
  rewrite (bool_decide_eq_true_2 _ Hs). cbn [negb orb]. rewrite orb_false_r.
  destruct (bool_decide_reflect (pr_action_type row = tool_invoke)) as [Ht|Ht]; cbn [negb]; [|refused].
  rewrite get_approval. destruct (a !! i) as [arow|] eqn:Ha; [|refused].
  change (ar_status (mapApprovalRow i arow)) with (ap_status arow).
  destruct (bool_decide_reflect (ap_status arow = approval_approved)) as [Hs2|Hs2]; cbn [negb]; [|refused].
  change (object_fields (pa_request (mapPendingRow i row))) with (stored_request row).
  destruct (requestMatchesPendingApproval r (stored_request row)) as [[|]|e] eqn:Hm; cbn; [|refused..]. split.
  - intros [= <-]. split; [done|]. by exists row, arow.
  - by intros [[= ->] _].
Qed.

(** What a request and the stored one have in common. *)
Record agreement (stored r : request) : Prop := {
  agree_text : ∀ k, k ∈ ["toolName"; "agentId"; "sessionId"] → prop k r = prop k stored;
  agree_optional : ∀ k, k ∈ ["turnId"; "toolRunId"; "workspaceId"; "taskId"; "runId"; "dryRun"; "externalRuntime"] →
    present (prop k r) = present (prop k stored);
  agree_trust : ∃ level, resolveToolTrustLevel r = Ok level ∧ resolveToolTrustLevel stored = Ok level;
  agree_governance : ∀ k, k ∈ ["permissionProfileId"; "localOperatorOverrideId"; "surface"] →
    governanceField r k = governanceField stored k;
  agree_list : ∀ k, k ∈ ["sourceAttribution"; "runtimeSkillApplications"] →
    same_json (default (JArray []) (present (prop k stored))) (default (JArray []) (present (prop k r)));
  agree_object : ∀ k, k ∈ ["authContext"; "writePathRepair"; "presentationGrounding"; "args"] →
    same_json (default (JObject []) (present (prop k stored))) (default (JObject []) (present (prop k r)))
}.

Lemma prop_wf k r v : object_ok r → prop k r = Some v → json_wf v.
Proof.
  intros [_ Hf]%object_ok_spec H%lookup_field_elem. rewrite Forall_forall in Hf. by apply (Hf _ H).
Qed.

Lemma same_value_same k fallback stored r : object_ok stored → object_ok r → json_wf fallback →
  same_value localeCompare k fallback stored r = true →
  same_json (default fallback (present (prop k stored))) (default fallback (present (prop k r))).
Proof.
  intros Hs Hr Hf H%bool_decide_eq_true. apply stable_stringify_same; [| |done].
  - destruct (prop k stored) as [v|] eqn:E; [|done]. pose proof (prop_wf _ _ _ Hs E). by destruct v.
  - destruct (prop k r) as [v|] eqn:E; [|done]. pose proof (prop_wf _ _ _ Hr E). by destruct v.
Qed.

Lemma matches_agree r stored : object_ok r → object_ok stored →
  requestMatchesPendingApproval r stored = Ok true → agreement stored r.
Proof.
  intros Hr Hs. unfold ApprovalBypass.requestMatchesPendingApproval. destruct (negb _) eqn:H1; [done|].
  apply negb_false_iff in H1. intros H. apply outcome_bind_ok in H as (x & Hx & H). apply outcome_bind_ok in H as (y & Hy & H).
  injection H as H2. repeat (apply andb_true_iff in H1; destruct H1 as [H1 ?]).
  repeat (apply andb_true_iff in H2; destruct H2 as [H2 ?]). apply bool_decide_eq_true in H2 as ->.
  assert (json_wf (JArray []) ∧ json_wf (JObject [])) as [Ha Ho] by by repeat constructor.
  unfold same_text, same_optional, same_governance in *.
  split.
  - intros k Hk. set_unfold. destruct Hk as [->|[->|[->|[]]]]; symmetry; by apply strict_eq_true.
  - intros k Hk. set_unfold. repeat (destruct Hk as [->|Hk]; [symmetry; by apply strict_eq_true|]). done.
  - by exists y.
  - intros k Hk. set_unfold. repeat (destruct Hk as [->|Hk]; [symmetry; by apply strict_eq_true|]). done.
  - intros k Hk. set_unfold. repeat (destruct Hk as [->|Hk]; [by apply same_value_same|]). done.
  - intros k Hk. set_unfold. repeat (destruct Hk as [->|Hk]; [by apply same_value_same|]). done.
Qed.
(** ** The stored requests *)

(** A request that is stored is an object of the language. *)
Definition pending_call_ok (c : pending_call) : Prop :=
  match c with
  | UpsertPendingCall _ _ _ r _ _ => ∃ fields, r = JObject fields ∧ object_ok fields
  | _ => True
  end.
Definition pendings_wf (p : pending_table) : Prop := map_Forall (λ _ row, text_of_object (pr_request_json row)) p.

Lemma stored_request_ok row : text_of_object (pr_request_json row) → object_ok (stored_request row).
Proof.
  intros (fields & E & Hok). unfold stored_request. cbn. rewrite E, object_text_truthy, json_parse_stringify by done. done.
Qed.

Lemma pending_wf_step c p : pending_call_ok c → pendings_wf p → pendings_wf (run_pending c p).
Proof.
  intros Hc Hp. destruct c as [now i kind r created expires|now i s result|i expected next]; cbn [run_pending].
  - destruct Hc as (fields & -> & Hok). rewrite upsert_pending_run. cbv zeta; cbn [snd]. apply map_Forall_insert_2; [|done].
    destruct (p !! i) as [old|] eqn:Ho; [|by exists fields]. case_match; [by exists fields|]. exact (Hp i old Ho).
  - rewrite mark_resolved_run. destruct (p !! i) as [row|] eqn:Ho; [|done]. case_match; [|done]. cbv zeta; cbn [snd].
    apply map_Forall_insert_2; [|done]. exact (Hp i row Ho).
  - rewrite reclassify_run. destruct (p !! i) as [row|] eqn:Ho; [|done]. case_match; [|by case_match]. cbv zeta; cbn [snd].
    apply map_Forall_insert_2; [|done]. exact (Hp i row Ho).
Qed.

Lemma pendings_wf_run ps : ∀ p, Forall pending_call_ok ps → pendings_wf p → pendings_wf (run_pendings ps p).
Proof.
  induction ps as [|c ps IH]; intros p Hps Hp; [done|]. apply Forall_cons in Hps as [Hc Hps]. cbn. apply IH; [done|].
  by apply pending_wf_step.
Qed.

(** The pending action under which a request is verified. *)
Definition pending_for (clock : Z) (id : string) (p : pending_table) (r : request) : Prop :=
  ∃ row, p !! id = Some row ∧ pr_resolution_status row = action_pending ∧
    row_fresh clock DEFAULT_APPROVAL_TTL_MS row = true ∧ pr_action_type row = tool_invoke ∧ agreement (stored_request row) r.

Lemma bypass_approved_run clock r ps cs id :
  Forall call_ok cs → Forall pending_call_ok ps → object_ok r →
  getVerifiedApprovalBypassId clock r (run_pendings ps ∅) (run_calls cs ∅) = Ok (Some id) →
  approved_by cs ∅ id ∧ pending_for clock id (run_pendings ps ∅) r.
Proof.
  intros Hcs Hps Hr (Hid & row & arow & Hp & Hf & Ht & Ha & Hs & Hm)%bypass_spec. split.
  - eapply approved_by_run; [done|apply map_Forall_empty|done|done|]. intros ?. by rewrite lookup_empty.
  - apply andb_true_iff in Hf as [Hf1%bool_decide_eq_true Hf2]. exists row. split_and!; [done..|].
    apply matches_agree; [done| |done]. apply stored_request_ok.
    apply (pendings_wf_run ps ∅ Hps (map_Forall_empty _) id). done.
Qed.


(** ** An action is spent once *)

Lemma settled_not_verified clock r p a id row : p !! id = Some row → pr_resolution_status row ≠ action_pending →
  getVerifiedApprovalBypassId clock r p a ≠ Ok (Some id).
Proof.
  intros Hr Hs (_ & row' & _ & Hp & Hf & _)%bypass_spec. simplify_eq.
  by apply andb_true_iff in Hf as [?%bool_decide_eq_true _].
Qed.

Lemma settled_not_run now clock id defer replay a p row : p !! id = Some row → pr_resolution_status row ≠ action_pending →
  executeApprovedAction_admission localeCompare now clock id defer replay a p = (Ok None, p).
Proof.
  intros Hr Hs. unfold executeApprovedAction_admission. rewrite M_gets_bind. unfold PendingActions.find. rewrite Hr.
  cbn [fmap option_fmap option_map]. change (resolutionStatus (mapPendingRow id row)) with (pr_resolution_status row).
  by rewrite bool_decide_eq_false_2.
Qed.

Lemma resolved_settles now id s result p action p' : s ≠ action_pending → markResolved now id s result p = (Ok action, p') →
  ∃ row, p' !! id = Some row ∧ pr_resolution_status row ≠ action_pending.
Proof.
  intros Hs. rewrite mark_resolved_run. destruct (p !! id) as [row|] eqn:Hr; [|done].
  destruct (row_is action_pending row) eqn:He; cbv zeta; intros [= _ <-].
  - rewrite lookup_insert_eq. eexists. by split.
  - exists row. split; [done|]. by apply bool_decide_eq_false in He.
Qed.

(** An approved action is spent once: when it has been marked as executed,
    rejected or failed, then whatever calls follow, another registration under its
    id included, no request is verified under it and its execution is not begun. *)
Theorem approved_action_spent now id s result p action p' :
  s ≠ action_pending → markResolved now id s result p = (Ok action, p') →
  ∀ ps clock a, let q := run_pendings ps p' in
    (∀ r, getVerifiedApprovalBypassId clock r q a ≠ Ok (Some id)) ∧
    (∀ now' defer replay, executeApprovedAction_admission localeCompare now' clock id defer replay a q = (Ok None, q)).
Proof.
  intros Hs (row & Hr & Hn)%resolved_settles ps clock a q; [|done].
  destruct (settled_run ps p' id row Hr Hn) as (row' & Hr' & Hset). pose proof (settled_not_pending _ _ Hset Hn).
  split; intros; [by eapply settled_not_verified|by eapply settled_not_run].
Qed.

(** ** What an approved action runs as *)

Abbreviation executeApprovedAction_admission := (executeApprovedAction_admission localeCompare).

(** The changes of a replay on an external runtime. *)
Definition replayed (replay : bool) (r : request) : request :=
  if replay then set_field_json "externalRuntime" (JBool true) (delete_field "dryRun" r) else r.

Lemma admission_some now clock id defer replay a p req p' :
  executeApprovedAction_admission now clock id defer replay a p = (Ok (Some req), p') ↔
  p' = p ∧ ∃ row r, p !! id = Some row ∧ pr_resolution_status row = action_pending ∧ pr_action_type row = tool_invoke ∧
    assertNoRawRemoteApprovalBearer (pa_request (mapPendingRow id row)) = Ok tt ∧
    asToolInvokeRequest (stored_request row) = Ok r ∧
    hasVerifiedApprovalBypass localeCompare clock (approved_request id r) p a = Ok true ∧
    req = replayed replay (approved_request id r).
Proof.
  unfold ApprovalBypass.executeApprovedAction_admission. rewrite M_gets_bind. unfold PendingActions.find.
  assert (Hfail : ∀ result, (if defer then mret None
      else (markResolved now id action_failed (Some (JObject result)) ;; mret None : pendings (option request))) p ≠ (Ok (Some req), p')).
  { intros result. destruct defer; [done|]. unfold mbind, M_bind. destruct (markResolved _ _ _ _ p) as [[]]; done. }
  destruct (p !! id) as [row|] eqn:Hr; cbn [fmap option_fmap option_map]; [|split; [done|by intros (_ & ? & ? & ? & _)]].
  change (resolutionStatus (mapPendingRow id row)) with (pr_resolution_status row).
  change (actionType (mapPendingRow id row)) with (pr_action_type row).
  change (object_fields (pa_request (mapPendingRow id row))) with (stored_request row).
  destruct (bool_decide_reflect (pr_resolution_status row = action_pending)) as [Hs|Hs]; cbn [negb];
    [|split; [done|by intros (_ & ? & ? & [= <-] & ? & _)]].
  destruct (bool_decide_reflect (pr_action_type row = tool_invoke)) as [Ht|Ht]; cbn [negb];
    [|split; [by intros ?%Hfail|by intros (_ & ? & ? & [= <-] & _ & ? & _)]].
  rewrite M_lift_bind. destruct (assertNoRawRemoteApprovalBearer _) as [[]|e] eqn:Hb;
    [|split; [done|intros (_ & ? & ? & [= <-] & _ & _ & ? & _); congruence]].
  rewrite M_lift_bind. destruct (asToolInvokeRequest (stored_request row)) as [r|e] eqn:Hq;
    [|split; [done|intros (_ & ? & ? & [= <-] & _ & _ & _ & ? & _); congruence]].
  rewrite M_gets_bind. cbv zeta. change (Datatypes.id p) with p. rewrite M_lift_bind.
  destruct (hasVerifiedApprovalBypass localeCompare clock (approved_request id r) p a) as [[|]|e] eqn:Hv; cbn [negb].
  - split.
    + unfold mret, M_ret. intros [= <- <-]. split; [done|]. by exists row, r.
    + intros (-> & row' & r' & [= <-] & _ & _ & _ & H1 & _ & ->). rewrite Hq in H1. by injection H1 as ->.
  - split; [by intros ?%Hfail|]. intros (_ & row2 & r2 & [= <-] & _ & _ & _ & H1 & H2 & _). rewrite Hq in H1. injection H1 as ->. congruence.
  - split; [done|]. intros (_ & row2 & r2 & [= <-] & _ & _ & _ & H1 & H2 & _). rewrite Hq in H1. injection H1 as ->. congruence.
Qed.

Lemma has_bypass_true clock r p a :
  hasVerifiedApprovalBypass localeCompare clock r p a = Ok true ↔ ∃ id, getVerifiedApprovalBypassId clock r p a = Ok (Some id).
Proof.
  unfold hasVerifiedApprovalBypass. destruct (getVerifiedApprovalBypassId clock r p a) as [[id|]|e]; cbn; split; try done.
  - by exists id.
  - by intros [? ?].
  - by intros [? ?].
Qed.

(** The reference that the engine writes is read back as the approval's id. *)
Definition reference_id (id : string) : bool := truthy id && string_forallb is_bearer_char id.

Lemma bearer_not_space c : is_bearer_char c = true → is_space c = false.
Proof. destruct c as [[] [] [] [] [] [] [] []]; done. Qed.

Lemma reference_not_space id : string_forallb is_bearer_char id = true → string_existsb is_space id = false.
Proof.
  unfold string_forallb. intros H%negb_true_iff. induction id as [|c id IH]; [done|]. cbn in H |- *.
  apply orb_false_iff in H as [Hc H]. rewrite (bearer_not_space c) by by destruct (is_bearer_char c). by apply IH.
Qed.

Lemma approval_reference_read id : reference_id id = true → approval_reference (trim ("approval:" +:+ id)) = Some id.
Proof.
  intros [Ht Hid]%andb_true_iff. rewrite trim_no_space by by apply reference_not_space in Hid.
  unfold approval_reference. rewrite (proj2 (starts_with_spec _ _)) by by exists id.
  change (string_drop 9 ("approval:" +:+ id)) with id. cbv zeta. by rewrite Ht, Hid.
Qed.

(** The consent of the request that runs. *)
Lemma approved_request_reason id r : extractApprovalId (approved_request id r) = approval_reference (trim ("approval:" +:+ id)).
Proof.
  unfold extractApprovalId, approved_request, prop. rewrite lookup_set_field. cbn [mbind option_bind field].
  by rewrite lookup_set_field.
Qed.

Lemma extract_approved id r : reference_id id = true → extractApprovalId (approved_request id r) = Some id.
Proof. intros H. by rewrite approved_request_reason, approval_reference_read. Qed.

Lemma approval_reference_some s i : approval_reference s = Some i → s = "approval:" +:+ i ∧ reference_id i = true.
Proof.
  unfold approval_reference. destruct (starts_with "approval:" s) eqn:E; [|done].
  apply starts_with_spec in E as [t ->]. change (string_drop 9 ("approval:" +:+ t)) with t. cbv zeta.
  destruct (truthy t && string_forallb is_bearer_char t) eqn:Ht; [|done]. by intros [= <-].
Qed.

(** *** The rebuilt request is an object *)

Lemma keep_wf test v : wf_opt v → wf_opt (keep test v).
Proof. unfold keep. by case_match. Qed.

Lemma nonblank_text_wf v : wf_opt (nonblank_text v).
Proof. destruct v as [[]|]; cbn; try done. case_match; cbn; [constructor|done]. Qed.

Lemma string_opt_wf (v : option string) : wf_opt (JString <$> v).
Proof. destruct v; cbn; [constructor|done]. Qed.

Lemma trust_name_wf v : wf_opt v → wf_opt (trust_name v).
Proof. unfold trust_name. by case_match. Qed.

Lemma application_wf item v : json_wf item → parse_application item = Some v → json_wf v.
Proof.
  intros Hi. unfold parse_application. case_match; [|done]. intros H'. apply Some_inj in H' as <-. apply fields_of_ok.
  - distinct_keys.
  - repeat constructor; cbn; by apply field_wf.
Qed.

Lemma applications_wf v : wf_opt v → wf_opt (parseRuntimeSkillApplications v).
Proof.
  intros Hv. destruct v as [[| | | |l|]|]; try done. cbn [wf_opt] in Hv. inversion Hv as [| | | |? Hl|]; subst. cbn.
  destruct (omap parse_application l) as [|x parsed] eqn:E; [done|]. rewrite <-E. constructor. apply Forall_forall.
  intros y (z & Hz & Hy)%list_elem_of_omap. rewrite Forall_forall in Hl. eapply application_wf; [by apply Hl|done].
Qed.

Lemma write_path_repair_wf v : wf_opt v → wf_opt (parseWritePathRepair v).
Proof.
  intros Hv. destruct v as [[| | | | |fields]|]; try done. cbn -[fields_of]. case_match; [|done]. apply fields_of_ok.
  - distinct_keys.
  - repeat constructor; cbn; by apply lookup_field_wf.
Qed.

Lemma optional_count_wf v : wf_opt v → wf_opt (parseOptionalNonNegativeInteger v).
Proof. unfold parseOptionalNonNegativeInteger. by case_match. Qed.

Lemma grounding_wf v : wf_opt v → wf_opt (parsePresentationGrounding v).
Proof.
  intros Hv. destruct v as [[| | | | |fields]|]; try done. unfold parsePresentationGrounding. cbv zeta.
  destruct (safe_count _); [|done]. destruct (safe_count _); [|done]. case_match; [done|]. apply fields_of_ok.
  - distinct_keys.
  - repeat constructor; cbn -[parseOptionalNonNegativeInteger]; try apply optional_count_wf; by apply lookup_field_wf.
Qed.

Lemma consent_wf v : wf_opt v → wf_opt (rebuilt_consent v).
Proof.
  intros Hv. destruct v as [v|]; [|done]. unfold rebuilt_consent. case_match; [|done]. apply fields_of_ok.
  - distinct_keys.
  - repeat constructor; cbn -[field]; try apply keep_wf; by apply field_wf.
Qed.

Lemma rebuilt_keys value : NoDup (rebuilt_literal value).*1.
Proof. unfold rebuilt_literal. distinct_keys. Qed.

Lemma rebuilt_ok value : object_ok value → object_ok (rebuilt_fields value).
Proof.
  intros Hv. assert (Hp : ∀ k, wf_opt (prop k value)) by (intros; by apply lookup_field_wf).
  apply fields_of_ok; [apply rebuilt_keys|]. unfold rebuilt_literal.
  repeat (apply Forall_cons; split; [cbn [fst snd]|]); [..|by apply Forall_nil];
    try (by apply Hp); try apply string_opt_wf; try apply nonblank_text_wf; try (by apply keep_wf); try (constructor; fail).
  - destruct (prop "args" value) as [[]|] eqn:E; specialize (Hp "args"); rewrite E in Hp; cbn; first [done|by repeat constructor].
  - by apply trust_name_wf.
  - by apply consent_wf.
  - by apply applications_wf.
  - by apply write_path_repair_wf.
  - by apply grounding_wf.
Qed.

Lemma rebuilt_prop k value : prop k (rebuilt_fields value) = literal_field k (rebuilt_literal value).
Proof. apply lookup_fields_of, rebuilt_keys. Qed.

Lemma as_request_ok value r : asToolInvokeRequest value = Ok r → r = rebuilt_fields value.
Proof. unfold asToolInvokeRequest. cbv zeta. case_match; [done|]. by intros [= <-]. Qed.

Lemma approved_request_ok id value : object_ok value → object_ok (approved_request id (rebuilt_fields value)).
Proof.
  intros Hv%rebuilt_ok. unfold approved_request. apply set_field_ok; [done|].
  set (consent := match present _ with Some v => object_fields v | None => [] end).
  assert (object_ok consent) as Hc.
  { subst consent. pose proof (lookup_field_wf "consentContext" _ Hv) as Hf. fold (prop "consentContext" (rebuilt_fields value)) in Hf.
    destruct (prop "consentContext" _) as [[]|]; cbn in *; first [done|by apply object_ok_spec; split; constructor]. }
  apply set_field_ok; [|constructor]. apply set_field_ok; [done|].
  pose proof (lookup_field_wf "source" _ Hc) as Hs. destruct (lookup_field "source" consent) as [[]|]; cbn in *; first [done|constructor].
Qed.

(** Running an approved action begins only with a request that its approval
    was given for: the rebuilt request that goes on to the policy refers to the
    approval, is verified under it, agrees with the stored request, and the
    pending action is left as it is until the outcome is known. *)
Theorem approved_action_is_stored cs ps now clock id defer replay req p' :
  Forall call_ok cs → Forall pending_call_ok ps → reference_id id = true →
  executeApprovedAction_admission now clock id defer replay (run_calls cs ∅) (run_pendings ps ∅) = (Ok (Some req), p') →
  p' = run_pendings ps ∅ ∧ approved_by cs ∅ id ∧
  ∃ r, req = replayed replay r ∧ extractApprovalId r = Some id ∧ pending_for clock id (run_pendings ps ∅) r.
Proof.
  intros Hcs Hps Hid (-> & row & r & Hrow & Hs & Ht & _ & Hr%as_request_ok & (i & Hi)%has_bypass_true & ->)%admission_some.
  subst r. assert (Hx := extract_approved id (rebuilt_fields (stored_request row)) Hid).
  assert (i = id) as -> by (apply bypass_spec in Hi as [Hi _]; congruence).
  assert (object_ok (stored_request row)) as Hok.
  { apply stored_request_ok. exact (pendings_wf_run ps ∅ Hps (map_Forall_empty _) id row Hrow). }
  destruct (bypass_approved_run clock _ ps cs id Hcs Hps (approved_request_ok id _ Hok) Hi) as [Ha Hp].
  split; [done|]. split; [done|]. by eexists.
Qed.

(** *** Typed requests run as they were stored *)

(** What the type of the requests says of the fields that are rebuilt. *)
Record typed_request (r : request) : Prop := {
  typed_ids k : k ∈ ["toolName"; "agentId"; "sessionId"] → ∃ s, prop k r = Some (JString s) ∧ truthy s = true;
  typed_marks k : k ∈ ["turnId"; "toolRunId"; "citadelId"] →
    prop k r = None ∨ ∃ s, prop k r = Some (JString s) ∧ truthy (trim s) = true;
  typed_texts k : k ∈ ["workspaceId"; "taskId"; "runId"; "permissionProfileId"; "localOperatorOverrideId"] →
    prop k r = None ∨ ∃ s, prop k r = Some (JString s) ∧ truthy s = true;
  typed_args : ∃ fields, prop "args" r = Some (JObject fields);
  typed_trust : prop "trustLevel" r = None ∨ ∃ level, normalizeToolTrustLevel (prop "trustLevel" r) = Some level;
  typed_sources : prop "sourceAttribution" r = None ∨ ∃ l, prop "sourceAttribution" r = Some (JArray l) ∧ JNull ∉ l;
  typed_objects k : k ∈ ["authContext"; "policyContext"] → prop k r = None ∨ ∃ fields, prop k r = Some (JObject fields);
  typed_surface : prop "surface" r = None ∨ ∃ s, prop "surface" r = Some (JString s) ∧ s ∈ SURFACES;
  typed_flags k : k ∈ ["dryRun"; "externalRuntime"] → prop k r = None ∨ ∃ b, prop k r = Some (JBool b);
  typed_applications : parseRuntimeSkillApplications (prop "runtimeSkillApplications" r) = prop "runtimeSkillApplications" r;
  typed_repair : parseWritePathRepair (prop "writePathRepair" r) = prop "writePathRepair" r;
  typed_grounding : parsePresentationGrounding (prop "presentationGrounding" r) = prop "presentationGrounding" r
}.

(** *** Typed fields come back *)

Lemma text_back v : (∃ s, v = Some (JString s) ∧ truthy s = true) → Some (JString (string_or_empty v)) = v.
Proof. by intros (s & -> & _). Qed.

Lemma mark_back v : v = None ∨ (∃ s, v = Some (JString s) ∧ truthy (trim s) = true) → nonblank_text v = v.
Proof. intros [->|(s & -> & H)]; [done|]. cbn. by rewrite H. Qed.

Lemma truthy_back v : v = None ∨ (∃ s, v = Some (JString s) ∧ truthy s = true) → JString <$> string_if_truthy v = v.
Proof. intros [->|(s & -> & H)]; [done|]. unfold string_if_truthy. cbn [truthy_json]. by rewrite H. Qed.

Lemma keep_back test v : v = None ∨ test v = true → keep test v = v.
Proof. unfold keep. intros [-> | ->]; [by case_match|done]. Qed.

Lemma trust_back v : v = None ∨ (∃ level, normalizeToolTrustLevel v = Some level) → trust_name v = v.
Proof. unfold trust_name. intros [->|[level ->]]; done. Qed.

(** A request that is stored as its type says is rebuilt field by field. *)
Definition rebuilt_value (r : request) (k : string) : option json :=
  if bool_decide (k = "consentContext") then rebuilt_consent (prop k r) else prop k r.
Definition rebuilt_names : list string :=
  ["toolName"; "args"; "agentId"; "sessionId"; "turnId"; "toolRunId"; "citadelId"; "workspaceId"; "taskId"; "runId"; "trustLevel";
   "sourceAttribution"; "authContext"; "consentContext"; "permissionProfileId"; "localOperatorOverrideId"; "surface";
   "policyContext"; "dryRun"; "externalRuntime"; "runtimeSkillApplications"; "writePathRepair"; "presentationGrounding"].

Ltac field_by_field :=
  lazymatch goal with
  | |- _ :: _ = _ :: _ => apply (f_equal2 cons); [apply (f_equal2 pair); [reflexivity|]|field_by_field]
  | |- _ => reflexivity
  end.

Lemma rebuilt_literal_typed r : typed_request r → rebuilt_literal r = map (λ k, (k, rebuilt_value r k)) rebuilt_names.
Proof.
  intros [Hids Hmarks Htexts [args Hargs] Htrust Hsources Hobj Hsurface Hflags Happ Hrep Hgr].
  unfold rebuilt_literal, rebuilt_names. cbv zeta. cbn [map].
  field_by_field;
    lazymatch goal with
    | |- rebuilt_consent _ = _ => reflexivity
    | |- _ = rebuilt_value r ?k => change (rebuilt_value r k) with (prop k r)
    end;
    try (apply text_back, Hids; decided); try (apply mark_back, Hmarks; decided); try (apply truthy_back, Htexts; decided);
    try done.
  - by rewrite Hargs.
  - by apply trust_back.
  - apply keep_back. destruct Hsources as [->|(l & -> & _)]; auto.
  - apply keep_back. destruct (Hobj "authContext") as [->|(l & ->)]; [decided|auto..].
  - apply keep_back. destruct Hsurface as [->|(s & -> & Hs)]; [by left|right]. by apply bool_decide_eq_true.
  - apply keep_back. destruct (Hobj "policyContext") as [->|(l & ->)]; [decided|auto..].
  - apply keep_back. destruct (Hflags "dryRun") as [->|(l & ->)]; [decided|auto..].
  - apply keep_back. destruct (Hflags "externalRuntime") as [->|(l & ->)]; [decided|auto..].
Qed.

Lemma literal_field_map g k names : k ∈ names → literal_field k (map (λ k, (k, g k)) names) = g k.
Proof.
  induction names as [|n names IH]; [by intros ?%not_elem_of_nil|]. cbn. case_bool_decide as E; [by subst|].
  intros [->|Hk]%elem_of_cons; [done|by apply IH].
Qed.

Lemma rebuilt_kept r k : typed_request r → k ∈ rebuilt_names → k ≠ "consentContext" → prop k (rebuilt_fields r) = prop k r.
Proof.
  intros Ht Hk Hc. rewrite rebuilt_prop, rebuilt_literal_typed, literal_field_map by done. unfold rebuilt_value.
  by rewrite bool_decide_eq_false_2.
Qed.

(** Undefined, texts and flags are compared by value. *)
Definition comparable (v : option json) : Prop := v = None ∨ (∃ s, v = Some (JString s)) ∨ ∃ b, v = Some (JBool b).

Lemma strict_eq_refl v : comparable v → strict_eq v v = true.
Proof. intros [->|[[s ->]|[b ->]]]; cbn; [done|by apply bool_decide_eq_true|by destruct b]. Qed.

Lemma present_comparable v : comparable v → comparable (present v).
Proof. by intros [->|[[s ->]|[b ->]]]; [left|right; left; exists s|right; right; exists b]. Qed.

Lemma governance_comparable r k : comparable (governanceField r k).
Proof.
  unfold governanceField, comparable.
  destruct (prop k r) as [[]|]; [..|destruct (prop "policyContext" r ≫= field k) as [[]|]]; eauto;
    destruct (prop "policyContext" r ≫= field k) as [[]|]; eauto.
Qed.

Lemma strictest_ok l : ∀ t, JNull ∉ l → ∃ level, strictest t l = Ok level.
Proof.
  induction l as [|x l IH]; intros t Hl; [by exists t|]. apply not_elem_of_cons in Hl as [Hx Hl]. destruct x; [done|by apply IH..].
Qed.

Lemma typed_trust_ok r : typed_request r → ∃ level, resolveToolTrustLevel r = Ok level.
Proof.
  intros Ht. unfold resolveToolTrustLevel. destruct (typed_sources r Ht) as [->|(l & -> & Hl)]; [by eexists|]. by apply strictest_ok.
Qed.

Lemma typed_comparable r k : typed_request r →
  k ∈ ["toolName"; "agentId"; "sessionId"; "turnId"; "toolRunId"; "workspaceId"; "taskId"; "runId"; "dryRun"; "externalRuntime"] →
  comparable (prop k r).
Proof.
  intros [Hids Hmarks Htexts _ _ _ _ _ Hflags _ _ _] Hk. unfold comparable. rewrite !elem_of_cons in Hk.
  assert (Hs : (∃ s, prop k r = Some (JString s) ∧ truthy s = true) → ∃ s, prop k r = Some (JString s)) by (intros (s & H & _); eauto).
  repeat (destruct Hk as [->|Hk]); [..|by apply not_elem_of_nil in Hk];
    lazymatch goal with
    | |- prop ?k r = None ∨ _ =>
        first [right; left; apply Hs, Hids; decided
              |destruct (Hmarks k) as [?|(? & ? & _)]; [decided|eauto..]
              |destruct (Htexts k) as [?|(? & ? & _)]; [decided|eauto..]
              |destruct (Hflags k) as [?|(? & ?)]; [decided|eauto..]]
    end.
Qed.

(** A request that agrees with the typed one in every kept field matches it. *)
Lemma kept_matches stored r : typed_request stored →
  (∀ k, k ∈ rebuilt_names → k ≠ "consentContext" → prop k r = prop k stored) →
  requestMatchesPendingApproval r stored = Ok true.
Proof.
  intros Ht Hk. assert (Hkept : ∀ k, bool_decide (k ∈ rebuilt_names ∧ k ≠ "consentContext") = true → prop k r = prop k stored).
  { intros k [? ?]%bool_decide_eq_true. by apply Hk. }
  clear Hk. unfold ApprovalBypass.requestMatchesPendingApproval.
  assert (Htext : ∀ k, bool_decide (k ∈ rebuilt_names ∧ k ≠ "consentContext") = true → comparable (prop k stored) →
    same_text k stored r = true) by (intros k H1 H2; unfold same_text; by rewrite Hkept, strict_eq_refl).
  assert (Hopt : ∀ k, bool_decide (k ∈ rebuilt_names ∧ k ≠ "consentContext") = true → comparable (prop k stored) →
    same_optional k stored r = true).
  { intros k H1 H2. unfold same_optional. rewrite Hkept by done. by apply strict_eq_refl, present_comparable. }
  assert (Hval : ∀ k fallback, bool_decide (k ∈ rebuilt_names ∧ k ≠ "consentContext") = true →
    same_value localeCompare k fallback stored r = true).
  { intros k fb H1. unfold same_value. rewrite Hkept by done. by apply bool_decide_eq_true. }
  assert (Hgov : ∀ k, bool_decide (k ∈ rebuilt_names ∧ k ≠ "consentContext") = true → same_governance k stored r = true).
  { intros k H1. unfold same_governance. replace (governanceField r k) with (governanceField stored k);
      [by apply strict_eq_refl, governance_comparable|]. unfold governanceField. by rewrite !Hkept. }
  assert (Htrust : resolveToolTrustLevel r = resolveToolTrustLevel stored).
  { unfold resolveToolTrustLevel. by rewrite !Hkept. }
  assert (Hc := typed_comparable stored). destruct (typed_trust_ok stored Ht) as [level Hl].
  rewrite !Htext, !Hopt by first [reflexivity|apply Hc; [done|decided]]. cbn [negb andb]. rewrite Htrust, Hl. cbn [mbind outcome_bind].
  rewrite !Hgov, !Hval, ?Hopt by first [reflexivity|apply Hc; [done|decided]]. by rewrite bool_decide_eq_true_2.
Qed.

Lemma rebuilt_fresh r k : k ∉ rebuilt_names → prop k (rebuilt_fields r) = None.
Proof.
  rewrite rebuilt_prop. change rebuilt_names with ((rebuilt_literal r).*1). generalize (rebuilt_literal r). intros fields.
  induction fields as [|[n v] fields IH]; [done|]. cbn. intros [Hn Hk]%not_elem_of_cons. rewrite bool_decide_eq_false_2 by done. by apply IH.
Qed.

(** The fields that the run itself decides. *)
Definition replaced (replay : bool) : list string := "consentContext" :: if replay then ["dryRun"; "externalRuntime"] else [].

Lemma replayed_kept replay (id : string) (r : request) (k : string) : k ∉ replaced replay → prop k (replayed replay (approved_request id r)) = prop k r.
Proof.
  unfold replaced, replayed, approved_request, prop. intros [Hc Hk]%not_elem_of_cons. destruct replay.
  - rewrite !not_elem_of_cons in Hk. destruct Hk as (? & ? & _). by rewrite lookup_set_field_ne, lookup_delete_field_ne, lookup_set_field_ne.
  - by rewrite lookup_set_field_ne.
Qed.

Lemma replayed_approval replay r : extractApprovalId (replayed replay r) = extractApprovalId r.
Proof.
  unfold extractApprovalId, replayed, prop. destruct replay; [|done].
  by rewrite lookup_set_field_ne, lookup_delete_field_ne.
Qed.

Lemma replayed_flags r : prop "dryRun" (replayed true r) = None ∧ prop "externalRuntime" (replayed true r) = Some (JBool true).
Proof.
  unfold replayed, prop. split; [|apply lookup_set_field]. rewrite lookup_set_field_ne by done.
  apply lookup_field_None, delete_field_keys.
Qed.

(** C33. An approved action can run, replayed on an external runtime or not: when
    its approval stands, the action is pending and in date, and the stored
    request is of its type and carries no secret of an approval, then the
    request that goes on to the policy exists and refers to the approval; the
    fields that are rebuilt are those of the stored one, but for the consent and,
    in a replay, for the two flags, which say that it runs for real on the
    runtime; and it has no other field (the snapshot of routed context, which the
    type has as well, is lost). *)
Theorem approved_action_admitted now clock id defer replay p a row arow :
  p !! id = Some row → fresh_pending clock DEFAULT_APPROVAL_TTL_MS row = true → pr_action_type row = tool_invoke →
  a !! id = Some arow → ap_status arow = approval_approved → reference_id id = true →
  typed_request (stored_request row) → has_bearer (json_stringify (JObject (stored_request row))) = false →
  ∃ req, executeApprovedAction_admission now clock id defer replay a p = (Ok (Some req), p) ∧
    extractApprovalId req = Some id ∧
    (∀ k, k ∈ rebuilt_names → k ∉ replaced replay → prop k req = prop k (stored_request row)) ∧
    (replay = true → prop "dryRun" req = None ∧ prop "externalRuntime" req = Some (JBool true)) ∧
    (∀ k, k ∉ rebuilt_names → prop k req = None).
Proof.
  intros Hp Hf Hty Ha Hs Hid Ht Hb. set (r := rebuilt_fields (stored_request row)).
  assert (Hk : ∀ k, k ∈ rebuilt_names → k ≠ "consentContext" → prop k (approved_request id r) = prop k (stored_request row)).
  { intros k H1 H2. unfold approved_request, prop at 1. rewrite lookup_set_field_ne by done. by apply rebuilt_kept. }
  exists (replayed replay (approved_request id r)). split; [|split; [|split; [|split]]].
  - apply admission_some. split; [done|]. pose proof Hf as [Hst%bool_decide_eq_true _]%andb_true_iff. exists row, r.
    split_and!; try done.
    + unfold assertNoRawRemoteApprovalBearer. replace (pa_request (mapPendingRow id row)) with (JObject (stored_request row)); [by rewrite Hb|].
      unfold stored_request. cbn. case_match; [done|]. destruct (json_parse _) as [[]|]; done.
    + unfold asToolInvokeRequest. cbv zeta.
      destruct (typed_ids _ Ht "toolName") as (s1 & H1 & T1); [decided|]. destruct (typed_ids _ Ht "agentId") as (s2 & H2 & T2); [decided|].
      destruct (typed_ids _ Ht "sessionId") as (s3 & H3 & T3); [decided|]. rewrite H1, H2, H3. cbn [string_or_empty present String_of].
      by rewrite T1, T2, T3.
    + apply has_bypass_true. exists id. apply bypass_spec. split; [by apply extract_approved|]. exists row, arow. split_and!; try done.
      by apply kept_matches.
  - by rewrite replayed_approval, extract_approved.
  - intros k H1 H2. rewrite replayed_kept by done. apply rebuilt_kept; [done..|]. intros ->. by destruct H2; left.
  - intros ->. apply replayed_flags.
  - intros k Hn. rewrite replayed_kept; [by apply rebuilt_fresh|]. intros Hr. apply Hn. revert Hr. unfold replaced.
    rewrite elem_of_cons. destruct replay; [rewrite !elem_of_cons|]; intros Hr; destruct_or! Hr; subst; try decided; by apply not_elem_of_nil in Hr.
Qed.
End locale.
