(* ===== verification/ApprovalExamples.v ===== *)
(** * Examples of approvals

    One request of a tool, from its approval to its end, at which the theorems
    about approvals apply; and requests whose approval cannot be used. *)
From S2P Require Import Prelude.
From S2P Require Import JsString.
From S2P Require Import JsJson.
From S2P Require Import JsJsonText.
From S2P Require Import JsObject.
From S2P Require Import Errors.
From S2P Require Import Approvals.
From S2P Require Import ApprovalTheorems.
From S2P Require Import PendingActions.
From S2P Require Import ToolRequests.
From S2P Require Import ApprovalBypass.
From S2P Require Import ApprovalBypassTheorems.

(** 2026-01-01T00:00:00.000Z. *)
Definition new_year : Z := 1767225600000.
Definition minute : Z := 60000.

Definition by_units (a b : string) : Z := if string_ltb a b then -1 else if string_ltb b a then 1 else 0.

Definition write_args : list (string * json) := [("path", JString "notes/a.txt"); ("content", JString "hello")].
Definition write_input : ApprovalCreateInput :=
  mkCreateApproval "fs.write" risk_danger write_args [("toolName", JString "fs.write")]
    (Some [("sessionId", JString "s-1"); ("turnId", JString "t-1")]) None None.
Definition approve : ApprovalResolveInput := mkResolve decide_approve None "operator" None.

Definition write_calls : list approval_call :=
  [CreateTtlCall "appr-1" new_year write_input (Some (15 * minute)); ResolveCall (new_year + minute) "appr-1" approve false].

(** The request as it is stored. *)
Definition write_request : request :=
  [("toolName", JString "fs.write"); ("args", JObject write_args); ("agentId", JString "agent"); ("sessionId", JString "s-1");
   ("turnId", JString "t-1"); ("trustLevel", JString "trusted_operator"); ("surface", JString "chat")].
Definition write_pending : list pending_call :=
  [UpsertPendingCall "2026-01-01T00:00:00.000Z" "appr-1" tool_invoke (JObject write_request) None (Some "2026-01-01T00:15:00.000Z")].

(** The request that refers to the approval, its arguments in another order. *)
Definition resent_request : request :=
  [("toolName", JString "fs.write"); ("args", JObject [("content", JString "hello"); ("path", JString "notes/a.txt")]);
   ("agentId", JString "agent"); ("sessionId", JString "s-1"); ("turnId", JString "t-1"); ("surface", JString "chat");
   ("consentContext", JObject [("reason", JString "approval:appr-1")])].

Lemma texts_ok (fields : list (string * json)) : NoDup fields.*1 → Forall (λ f, json_wf f.2) fields → object_ok fields.
Proof. intros. by apply object_ok_spec. Defined.
Ltac texts := apply texts_ok; [distinct_keys|repeat constructor].

Lemma write_args_ok : object_ok write_args.
Proof. texts. Defined.

Lemma write_calls_ok : Forall call_ok write_calls.
Proof.
  constructor; [split; [apply write_args_ok|split; texts]|]. constructor; [exact I|constructor].
Defined.

Lemma write_request_ok : object_ok write_request.
Proof.
  apply texts_ok; [distinct_keys|]. repeat (apply Forall_cons; split; [first [apply wf_string|apply write_args_ok]|]).
  by apply Forall_nil.
Defined.

Lemma write_pending_ok : Forall pending_call_ok write_pending.
Proof. constructor; [|constructor]. exists write_request. split; [reflexivity|apply write_request_ok]. Defined.


(** ** The theorems at this request *)

Definition write_table : approval_table := run_calls write_calls ∅.
Definition write_actions : pending_table := run_pendings write_pending ∅.

Example write_is_approved :
  (λ row, (ap_status row, ap_resolved_at row, ap_expires_at row)) <$> write_table !! "appr-1" =
    Some (approval_approved, Some "2026-01-01T00:01:00.000Z", Some "2026-01-01T00:15:00.000Z").
Proof. vm_compute. reflexivity. Qed.

Definition approved_row : ApprovalRow :=
  default (new_approval_row "" risk_safe None "" "" "" None) (write_table !! "appr-1").
Lemma approved_row_found : write_table !! "appr-1" = Some approved_row ∧ ap_status approved_row = approval_approved.
Proof. split; vm_compute; reflexivity. Defined.

(** A late rejection and another linkage change nothing of the decision. *)
Definition later_calls : list approval_call :=
  [ResolveCall (new_year + 2 * minute) "appr-1" (mkResolve decide_reject None "operator" None) false;
   MergeCall "appr-1" [("runId", JString "run-1")]].

Lemma later_calls_ok : Forall call_ok later_calls.
Proof. constructor; [exact I|]. constructor; [texts|constructor]. Defined.

Lemma write_table_wf : approvals_wf write_table.
Proof. exact (approval_calls_wf write_calls ∅ write_calls_ok (map_Forall_empty _)). Qed.

Lemma decision_is_final_witness :
  ∃ row', run_calls later_calls write_table !! "appr-1" = Some row' ∧
    decision (mapApprovalRow "appr-1" row') = decision (mapApprovalRow "appr-1" approved_row).
Proof.
  apply (decision_is_final later_calls write_table "appr-1" approved_row later_calls_ok write_table_wf).
  - exact (proj1 approved_row_found).
  - rewrite (proj2 approved_row_found). discriminate.
Defined.

Lemma approval_was_given_witness : approved_by write_calls ∅ "appr-1".
Proof. exact (approval_was_given write_calls "appr-1" approved_row write_calls_ok (proj1 approved_row_found) (proj2 approved_row_found)). Defined.


(** Other arguments, or a clock past the date, are not let through. *)
Example bypass_refuses :
  getVerifiedApprovalBypassId by_units (new_year + 2 * minute)
    (set_field_json "args" (JObject [("path", JString "notes/b.txt"); ("content", JString "hello")]) resent_request)
    write_actions write_table = Ok None ∧
  getVerifiedApprovalBypassId by_units (new_year + 15 * minute) resent_request write_actions write_table = Ok None.
Proof. split; vm_compute; reflexivity. Qed.

Definition executed : list pending_call := [MarkResolvedCall "2026-01-01T00:03:00.000Z" "appr-1" action_executed None].

Lemma approved_action_spent_witness :
  getVerifiedApprovalBypassId by_units (new_year + 4 * minute) resent_request
    (run_pendings write_pending (run_pendings executed write_actions)) write_table ≠ Ok (Some "appr-1").
Proof.
  destruct (markResolved "2026-01-01T00:03:00.000Z" "appr-1" action_executed None write_actions) as [o p'] eqn:E.
  destruct o as [action|e]; [|exfalso; vm_compute in E; discriminate E].
  assert (Hp : run_pendings executed write_actions = p').
  { change (run_pendings executed write_actions) with
      (markResolved "2026-01-01T00:03:00.000Z" "appr-1" action_executed None write_actions).2. by rewrite E. }
  rewrite Hp.
  exact (proj1 (approved_action_spent by_units "2026-01-01T00:03:00.000Z" "appr-1" action_executed None write_actions action p'
    ltac:(discriminate) E write_pending (new_year + 4 * minute) write_table) resent_request).
Defined.

(** The request that an approved action runs. *)
Definition run_request : request := approved_request "appr-1" (rebuilt_fields write_request).

Lemma approved_action_is_stored_witness :
  ∃ r, run_request = replayed false r ∧ extractApprovalId r = Some "appr-1" ∧
    pending_for (new_year + 2 * minute) "appr-1" write_actions r.
Proof.
  assert (executeApprovedAction_admission by_units "2026-01-01T00:02:00.000Z" (new_year + 2 * minute) "appr-1" false false write_table
    write_actions = (Ok (Some run_request), write_actions)) as H by (vm_compute; reflexivity).
  exact (proj2 (proj2 (approved_action_is_stored by_units write_calls write_pending "2026-01-01T00:02:00.000Z" (new_year + 2 * minute)
    "appr-1" false false run_request write_actions write_calls_ok write_pending_ok eq_refl H))).
Defined.

Definition write_row : PendingActionRow :=
  mkPendingRow tool_invoke (json_stringify (JObject write_request)) "2026-01-01T00:00:00.000Z" (Some "2026-01-01T00:15:00.000Z")
    None action_pending None.
Lemma write_row_request : stored_request write_row = write_request.
Proof. vm_compute. reflexivity. Qed.

Lemma write_request_typed : typed_request write_request.
Proof.
  split; try (by left); try reflexivity; try (intros k Hk; rewrite !elem_of_cons in Hk;
    repeat (destruct Hk as [->|Hk]); [..|by apply not_elem_of_nil in Hk]; first [by left|by eexists|by right; eexists]).
  - by eexists.
  - right. by eexists.
  - right. eexists. split; [reflexivity|]. decided.
Qed.

Lemma approved_action_admitted_witness :
  ∃ req, executeApprovedAction_admission by_units "2026-01-01T00:02:00.000Z" (new_year + 2 * minute) "appr-1" true true write_table
      write_actions = (Ok (Some req), write_actions) ∧
    extractApprovalId req = Some "appr-1" ∧
    (∀ k, k ∈ rebuilt_names → k ∉ replaced true → prop k req = prop k (stored_request write_row)) ∧
    (true = true → prop "dryRun" req = None ∧ prop "externalRuntime" req = Some (JBool true)) ∧
    (∀ k, k ∉ rebuilt_names → prop k req = None).
Proof.
  apply (approved_action_admitted by_units "2026-01-01T00:02:00.000Z" (new_year + 2 * minute) "appr-1" true true write_actions write_table
    write_row approved_row).
  - vm_compute. reflexivity.
  - vm_compute. reflexivity.
  - reflexivity.
  - exact (proj1 approved_row_found).
  - exact (proj2 approved_row_found).
  - reflexivity.
  - rewrite write_row_request. exact write_request_typed.
  - vm_compute. reflexivity.
Defined.

(** ** Approvals that cannot be used *)

(** An empty workspace, which asking for the approval lets through, is rebuilt as
    none: the approved action is failed as no longer matching. *)
Definition blank_request : request := set_field_json "workspaceId" (JString "") write_request.
Example blank_workspace_never_runs :
  let actions := run_pendings [UpsertPendingCall "2026-01-01T00:00:00.000Z" "appr-1" tool_invoke (JObject blank_request) None
                                 (Some "2026-01-01T00:15:00.000Z")] ∅ in
  let after := executeApprovedAction_admission by_units "2026-01-01T00:02:00.000Z" (new_year + 2 * minute) "appr-1" false false
                 write_table actions in
  after.1 = Ok None ∧
  (λ row, (pr_resolution_status row, pr_result_json row)) <$> after.2 !! "appr-1" =
    Some (action_failed, Some (json_stringify (JObject [("reason", JString mismatch_reason)]))).
Proof. vm_compute. split; reflexivity. Qed.

(** The binding of a context tool to its snapshot is not rebuilt. *)
Example snapshot_binding_dropped value : prop "routedContextSnapshotId" (rebuilt_fields value) = None.
Proof. rewrite rebuilt_prop. reflexivity. Qed.
