(* ===== verification/ToolTrust.v ===== *)
(** * Trust and capabilities of tools (packages/policy-engine/src/tool-security.ts)

    What a tool may do, as the engine derives it from its name and category, and
    the rule that content from outside does not reach privileged tools. *)
From S2P Require Import Prelude.
From S2P Require Import JsString.
From S2P Require Import JsJson.
From S2P Require Import JsJsonText.
From S2P Require Import JsObject.
From S2P Require Import Errors.
From S2P Require Import ToolRequests.
From S2P Require Import OutsideRootWrite.

Inductive ToolFamily :=
  family_memory | family_filesystem_read | family_filesystem_write | family_network_read | family_network_write |
  family_process_execution | family_browser_read | family_browser_control | family_mcp | family_comms | family_knowledge |
  family_git | family_ops | family_other.
#[export] Instance ToolFamily_eq_dec : EqDecision ToolFamily.
Proof. solve_decision. Defined.

Record ToolCapabilityPolicy := mkCapability {
  cp_toolName : string;
  family : ToolFamily;
  usesNetwork : bool;
  readsFilesystem : bool;
  mutatesFilesystem : bool;
  mutatesRemoteState : bool;
  resolvesSecrets : bool;
  executesProcess : bool;
  controlsBrowser : bool;
  invokesMcp : bool;
  blocksUntrustedEscalation : bool
}.

Definition named (toolNames : list string) (toolName : string) : bool := bool_decide (toolName ∈ toolNames).
Definition prefixed (prefixes : list string) (toolName : string) : bool := existsb (λ p, starts_with p toolName) prefixes.

Definition CHANNEL_PREFIXES : list string :=
  ["channel."; "slack."; "discord."; "telegram."; "teams."; "whatsapp."; "imessage."; "mattermost."; "google-chat."; "line.";
   "nextcloud-talk."; "zalo"].

Definition isBrowserRead := named ["browser.search"; "browser.navigate"; "browser.extract"; "browser.screenshot"].
Definition isBrowserControl (toolName : string) : bool :=
  named ["browser.interact"; "browser.context.configure"] toolName || prefixed ["browser.cookies."; "browser.storage."] toolName.
Definition isNetworkRead (toolName : string) : bool := named ["http.get"] toolName || isBrowserRead toolName.
Definition isNetworkWrite := named ["http.post"; "webhook.send"].
Definition isMeshInvocation := named ["mesh.invoke"].
Definition tool_mutatesFilesystem :=
  named ["fs.write"; "fs.move"; "fs.delete"; "artifacts.create"; "documents.create"; "presentations.create"].
Definition tool_mutatesRemoteState (toolName : string) : bool :=
  isMeshInvocation toolName || isNetworkWrite toolName ||
  prefixed (["gmail.send"; "smtp.send"; "calendar.create_event"] ++ CHANNEL_PREFIXES ++ ["git."]) toolName ||
  named ["mcp.invoke"] toolName.
Definition tool_resolvesSecrets (toolName : string) : bool :=
  isMeshInvocation toolName || named ["mcp.invoke"] toolName ||
  prefixed (["gmail."; "smtp."; "calendar."] ++ CHANNEL_PREFIXES) toolName.
Definition tool_executesProcess := named ["shell.exec"; "shell.exec_background"; "tests.run"; "lint.run"; "build.run"].

Definition tool_family (toolName : string) (category : option string) : ToolFamily :=
  let in_category c := bool_decide (category = Some c) in
  if starts_with "memory." toolName then family_memory
  else if named ["fs.read"; "file.read_range"; "file.find"; "code.search"; "code.search_files"; "fs.list"; "fs.stat"; "fs.copy"] toolName
  then family_filesystem_read
  else if tool_mutatesFilesystem toolName then family_filesystem_write
  else if isNetworkRead toolName || in_category "research" then (if isBrowserRead toolName then family_browser_read else family_network_read)
  else if isNetworkWrite toolName then family_network_write
  else if tool_executesProcess toolName then family_process_execution
  else if isBrowserControl toolName then family_browser_control
  else if named ["mcp.invoke"] toolName then family_mcp
  else if in_category "comms" then family_comms
  else if in_category "knowledge" then family_knowledge
  else if in_category "git" then family_git
  else if in_category "ops" then family_ops
  else family_other.

(** The category is that of the tool's definition, if there is one. *)
Definition deriveToolCapabilityPolicy (toolName : string) (category : option string) : ToolCapabilityPolicy :=
  let family := tool_family toolName category in
  mkCapability toolName family
    (isNetworkRead toolName || isNetworkWrite toolName || isMeshInvocation toolName || bool_decide (family = family_mcp) ||
     bool_decide (category = Some "comms") || named ["docs.ingest"] toolName)
    (bool_decide (family = family_filesystem_read) || named ["docs.ingest"] toolName)
    (tool_mutatesFilesystem toolName) (tool_mutatesRemoteState toolName) (tool_resolvesSecrets toolName)
    (tool_executesProcess toolName) (isBrowserControl toolName) (named ["mcp.invoke"] toolName)
    (tool_mutatesFilesystem toolName || tool_mutatesRemoteState toolName || tool_resolvesSecrets toolName ||
     tool_executesProcess toolName || isBrowserControl toolName || named ["mcp.invoke"] toolName).

Definition isUntrustedToolEscalation (trustLevel : ToolExecutionTrustLevel) (capabilityPolicy : ToolCapabilityPolicy) : bool :=
  (bool_decide (trustLevel = untrusted_external) || bool_decide (trustLevel = mixed_untrusted)) &&
  blocksUntrustedEscalation capabilityPolicy.

Inductive SecretResolutionBoundary := provider_boundary | tool_host_boundary.
Definition defaultSecretBoundaryForTool (toolName : string) : SecretResolutionBoundary :=
  if prefixed (["gmail."; "smtp."; "calendar."] ++ CHANNEL_PREFIXES) toolName || named ["mcp.invoke"] toolName
  then tool_host_boundary else provider_boundary.

(** ** The strictest source decides *)

Definition is_untrusted (t : ToolExecutionTrustLevel) : bool := 2 <=? TRUST_RESTRICTIVENESS t.

(** The levels that a request carries: its own and those of its sources. *)
Definition carried_levels (r : request) (sources : list json) : list ToolExecutionTrustLevel :=
  default trusted_operator (normalizeToolTrustLevel (prop "trustLevel" r)) ::
  omap (λ source, normalizeToolTrustLevel (field "trustLevel" source)) sources.

Lemma strictest_spec sources : ∀ t level, strictest t sources = Ok level →
  let levels := t :: omap (λ source, normalizeToolTrustLevel (field "trustLevel" source)) sources in
  level ∈ levels ∧ ∀ t', t' ∈ levels → TRUST_RESTRICTIVENESS t' ≤ TRUST_RESTRICTIVENESS level.
Proof.
  induction sources as [|source sources IH]; intros t level.
  - intros [= ->]. cbn. split; [by apply elem_of_cons; left|]. intros t' [->|[]%not_elem_of_nil]%elem_of_cons. lia.
  - set (t1 := match normalizeToolTrustLevel (field "trustLevel" source) with
               | Some x => if TRUST_RESTRICTIVENESS t <? TRUST_RESTRICTIVENESS x then x else t | None => t end).
    intros H. assert (strictest t1 sources = Ok level) as H1 by by destruct source.
    apply IH in H1 as [Hin Hle]. cbn [omap list_omap]. revert Hin Hle. subst t1.
    destruct (normalizeToolTrustLevel (field "trustLevel" source)) as [x|]; [|done].
    destruct (Z.ltb_spec (TRUST_RESTRICTIVENESS t) (TRUST_RESTRICTIVENESS x)); intros Hin Hle; rewrite elem_of_cons in Hin; split.
    + rewrite !elem_of_cons. tauto.
    + intros t' Ht'. rewrite !elem_of_cons in Ht'. destruct Ht' as [->|Ht']; [|apply Hle; by apply elem_of_cons].
      specialize (Hle x ltac:(by apply elem_of_cons; left)). lia.
    + rewrite !elem_of_cons. tauto.
    + intros t' Ht'. rewrite !elem_of_cons in Ht'. destruct Ht' as [->|[->|Ht']]; [apply Hle; by apply elem_of_cons; left| |
        apply Hle; by apply elem_of_cons; right].
      specialize (Hle t ltac:(by apply elem_of_cons; left)). lia.
Qed.

Lemma trust_spec r level : resolveToolTrustLevel r = Ok level →
  ∃ sources, sources_of (prop "sourceAttribution" r) = Ok sources ∧ level ∈ carried_levels r sources ∧
    ∀ t, t ∈ carried_levels r sources → TRUST_RESTRICTIVENESS t ≤ TRUST_RESTRICTIVENESS level.
Proof. intros (sources & Hs & H%strictest_spec)%outcome_bind_ok. by exists sources. Qed.

Lemma untrusted_escalation_spec t policy :
  isUntrustedToolEscalation t policy = is_untrusted t && blocksUntrustedEscalation policy.
Proof. by destruct t. Qed.

(** Content from outside does not reach privileged tools: when a request or any
    of its sources is marked as untrusted or mixed, every tool that runs a
    process, changes remote state, resolves secrets, controls the browser or
    calls an MCP server is an escalation, and so are the file tools that are
    named as mutating; otherwise none is. *)
Theorem untrusted_privilege_blocked r level toolName category :
  resolveToolTrustLevel r = Ok level →
  let policy := deriveToolCapabilityPolicy toolName category in
  isUntrustedToolEscalation level policy = true ↔
    (∃ sources t, sources_of (prop "sourceAttribution" r) = Ok sources ∧ t ∈ carried_levels r sources ∧ is_untrusted t = true) ∧
    (mutatesFilesystem policy || mutatesRemoteState policy || resolvesSecrets policy || executesProcess policy ||
     controlsBrowser policy || invokesMcp policy) = true.
Proof.
  intros (sources & Hs & Hin & Hle)%trust_spec policy. rewrite untrusted_escalation_spec, andb_true_iff. apply and_iff_compat_r. split.
  - intros Hu. by exists sources, level.
  - intros (sources' & t & Hs' & Ht & Hu). rewrite Hs in Hs'. injection Hs' as <-. apply Hle in Ht. unfold is_untrusted in *. apply Z.leb_le in Hu. by apply Z.leb_le; lia.
Qed.

(** Of the tools that write files by themselves, outside the roots too, three
    are not named as mutating: under untrusted content fs.patch, fs.copy and
    browser.screenshot are no escalation, and all the others are. *)
Theorem untrusted_write_gap t toolName category : toolName ∈ OUTSIDE_ROOT_WRITE_TOOLS → is_untrusted t = true →
  isUntrustedToolEscalation t (deriveToolCapabilityPolicy toolName category) = false ↔
  toolName ∈ ["fs.patch"; "fs.copy"; "browser.screenshot"].
Proof.
  intros Hn Ht. rewrite untrusted_escalation_spec, Ht. cbn [andb]. revert Hn. unfold OUTSIDE_ROOT_WRITE_TOOLS.
  rewrite !elem_of_cons.
  intros Hn. repeat (destruct Hn as [->|Hn]); [..|by apply not_elem_of_nil in Hn];
    (split; [intros H; first [discriminate H|tauto]|intros H; first [reflexivity|exfalso]]);
    repeat (destruct H as [H|H]; [discriminate H|]); by apply not_elem_of_nil in H.
Qed.

Lemma untrusted_write_gap_witness :
  isUntrustedToolEscalation untrusted_external (deriveToolCapabilityPolicy "fs.copy" (Some "fs")) = false.
Proof. apply (untrusted_write_gap untrusted_external "fs.copy" (Some "fs")); [decided|reflexivity|decided]. Defined.

(** A fetched page among the sources. *)
Definition fetched_request : request :=
  [("toolName", JString "shell.exec"); ("trustLevel", JString "trusted_operator");
   ("sourceAttribution", JArray [JObject [("trustLevel", JString "untrusted_external")]])].
Lemma untrusted_privilege_blocked_witness :
  isUntrustedToolEscalation untrusted_external (deriveToolCapabilityPolicy "shell.exec" (Some "shell")) = true.
Proof.
  apply (untrusted_privilege_blocked fetched_request untrusted_external "shell.exec" (Some "shell") eq_refl).
  split; [|reflexivity]. exists [JObject [("trustLevel", JString "untrusted_external")]], untrusted_external.
  split; [reflexivity|]. split; [|reflexivity]. decided.
Defined.
