(* ===== verification/ToolGrants.v ===== *)
(** * Tool grants (packages/storage/src/tool-grant-repo.ts)

    The table [tool_grants] on SQLite: standing permissions and refusals for
    tools, with a lifetime or a number of uses.  [randomUUID()], the time of the
    process and the database clock (in milliseconds) are arguments; the column of
    the constraints stands for the value that its text encodes.  Then histories of
    calls: a one-time grant is spent at most once, and a revoked one stays so. *)
From S2P Require Import Prelude.
From S2P Require Import JsString.
From S2P Require Import JsTime.
From S2P Require Import Errors.
From S2P Require Import OutsideRootWrite.

Record ToolGrantRow := mkGrantRow {
  gr_tool_pattern : string;
  gr_decision : string;
  gr_scope : string;
  gr_scope_ref : string;
  gr_grant_type : string;
  gr_constraints : option GrantConstraints;
  gr_created_by : string;
  gr_created_at : string;
  gr_expires_at : option string;
  gr_revoked_at : option string;
  gr_revoked_by : option string;
  gr_uses_remaining : option Z;
}.
#[export] Instance eta_ToolGrantRow : Eta ToolGrantRow := λ r,
  mkGrantRow (gr_tool_pattern r) (gr_decision r) (gr_scope r) (gr_scope_ref r) (gr_grant_type r) (gr_constraints r)
    (gr_created_by r) (gr_created_at r) (gr_expires_at r) (gr_revoked_at r) (gr_revoked_by r) (gr_uses_remaining r).

Abbreviation grant_table := (gmap string ToolGrantRow).
Abbreviation grants := (M js_error grant_table).

Definition mapGrantRow (id : string) (row : ToolGrantRow) : ToolGrantRecord :=
  mkGrant id (gr_tool_pattern row) (gr_decision row) (gr_scope row) (gr_scope_ref row) (gr_grant_type row)
    (gr_constraints row) (gr_created_by row) (gr_created_at row) (gr_expires_at row) (gr_revoked_at row)
    (gr_revoked_by row) (gr_uses_remaining row).

(** ** What a new grant may say *)

Definition normalizeScopeRef (scope : string) (scopeRef : option string) : res string :=
  if bool_decide (scope = "global") then Ok "global"
  else
    let value := default "" (trim <$> scopeRef) in
    if truthy value then Ok value
    else Err (ValidationError (Some FIELD_REQUIRED) (Some "scopeRef")
                (Some ("scopeRef is required for " +:+ scope +:+ " grants"))).

Definition lifetime_error (code : GoatErrorCode) (field message : string) : js_error :=
  ValidationError (Some code) (Some field) (Some message).

(** The date of expiry and the uses of a grant. *)
Definition normalizeGrantLifetime (input : ToolGrantCreateInput) (grantType : string) : res (option string * option Z) :=
  let expires := truthy_opt (g_expiresAt input) in
  if bool_decide (grantType = "one_time") then
    _ ← throw_when expires (lifetime_error FIELD_INVALID "expiresAt" "one_time grants cannot set expiresAt.");
    _ ← throw_when (bool_decide (is_Some (g_usesRemaining input)) && negb (bool_decide (g_usesRemaining input = Some 1)))
          (lifetime_error FIELD_INVALID "usesRemaining" "one_time grants must use exactly one remaining use.");
    Ok (None, Some 1)
  else if bool_decide (grantType = "ttl") then
    _ ← throw_when (negb expires) (lifetime_error FIELD_REQUIRED "expiresAt" "ttl grants require expiresAt.");
    _ ← throw_when (bool_decide (g_expiresAt input ≫= date_parse = None))
          (lifetime_error FIELD_INVALID "expiresAt" "ttl grants require a valid expiresAt.");
    _ ← throw_when (bool_decide (is_Some (g_usesRemaining input)))
          (lifetime_error FIELD_INVALID "usesRemaining" "ttl grants cannot set usesRemaining.");
    Ok (g_expiresAt input, None)
  else
    _ ← throw_when expires (lifetime_error FIELD_INVALID "expiresAt" "persistent grants cannot set expiresAt.");
    _ ← throw_when (bool_decide (is_Some (g_usesRemaining input)))
          (lifetime_error FIELD_INVALID "usesRemaining" "persistent grants cannot set usesRemaining.");
    Ok (None, None).

(** ** Statements *)

Definition createGrantStmt (id : string) (row : ToolGrantRow) : grants unit := λ t,
  match t !! id with
  | Some _ => (Err (SqliteConstraintError "tool_grants.grant_id"), t)
  | None => (Ok tt, <[id := row]> t)
  end.

(** [expires_at IS NULL OR julianday(expires_at) > julianday('now')]. *)
Definition expiry_is_active (clock : Z) (row : ToolGrantRow) : bool :=
  match gr_expires_at row with None => true | Some at_ => after_clock (Some at_) clock end.
Definition unrevoked (row : ToolGrantRow) : bool := bool_decide (gr_revoked_at row = None).
Definition uses_left (row : ToolGrantRow) : bool :=
  match gr_uses_remaining row with None => true | Some n => 0 <? n end.
Definition grant_active (clock : Z) (row : ToolGrantRow) : bool :=
  unrevoked row && expiry_is_active clock row && uses_left row.
Definition one_time (row : ToolGrantRow) : bool := bool_decide (gr_grant_type row = "one_time").

Definition update_grant (cond : ToolGrantRow → bool) (f : ToolGrantRow → ToolGrantRow) (id : string) : grants Z := λ t,
  let '(n, t') := sql_update cond f id t in (Ok n, t').

Definition revokeStmt (id revokedAt revokedBy : string) : grants Z :=
  update_grant unrevoked (λ row, row <| gr_revoked_at := Some revokedAt |> <| gr_revoked_by := Some revokedBy |>) id.

Definition consumable (clock : Z) (row : ToolGrantRow) : bool :=
  bool_decide (gr_decision row = "allow") && unrevoked row && expiry_is_active clock row &&
  (negb (one_time row) || match gr_uses_remaining row with Some n => 0 <? n | None => false end).
Definition consumed (row : ToolGrantRow) : ToolGrantRow :=
  if one_time row then row <| gr_uses_remaining := (λ n, n - 1) <$> gr_uses_remaining row |> else row.
Definition consumeStmt (clock : Z) (id : string) : grants Z := update_grant (consumable clock) consumed id.

(** [databaseTtlWindowStmt] of this table: a date outside SQLite's range is NULL. *)
Definition grant_ttl_window (clock ttlMs : Z) : option (string * string) :=
  createdAt ← sqlite_iso clock; expiresAt ← sqlite_iso (clock + ttlMs); Some (createdAt, expiresAt).

(** ** Methods *)

Definition grant_not_found (id : string) : js_error := NotFoundError (NotFoundEntity "Tool grant" (Some id)).

Definition get (id : string) : grants ToolGrantRecord := λ t,
  (match t !! id with Some row => Ok (mapGrantRow id row) | None => Err (grant_not_found id) end, t).

Definition create (grantId nowIso : string) (clock : Z) (input : ToolGrantCreateInput) : grants ToolGrantRecord :=
  scopeRef ← lift (normalizeScopeRef (g_scope input) (g_scopeRef input));
  let grantType := default "persistent" (g_grantType input) in
  guard_throw (bool_decide (g_decision input = "deny") && bool_decide (grantType = "one_time"))
    (lifetime_error FIELD_INVALID "grantType" "one_time grants can only be allow grants.") ;;
  lifetime ← lift (normalizeGrantLifetime input grantType);
  transaction (
    guard_throw (bool_decide (grantType = "ttl") && negb (after_clock lifetime.1 clock))
      (lifetime_error FIELD_INVALID "expiresAt" "ttl grants require a future expiresAt according to the database clock.") ;;
    createGrantStmt grantId
      (mkGrantRow (trim (g_toolPattern input)) (g_decision input) (g_scope input) scopeRef grantType (g_constraints input)
         (g_createdBy input) nowIso lifetime.1 None None lifetime.2) ;;
    get grantId).

(** The duration in whole milliseconds. *)
Definition createTtlForDuration (grantId : string) (clock : Z) (input : ToolGrantCreateInput) (ttlMs : Z) : grants ToolGrantRecord :=
  guard_throw (ttlMs <=? 0) (lifetime_error FIELD_INVALID "ttlMs" "ttlMs must be a positive duration.") ;;
  transaction (
    match grant_ttl_window clock ttlMs with
    | None => throw (JsError "Database did not return a tool-grant TTL window.")
    | Some (createdAt, expiresAt) =>
        create grantId createdAt clock
          (input <| g_grantType := Some "ttl" |> <| g_expiresAt := Some expiresAt |> <| g_usesRemaining := None |>)
    end).

Definition findActive (clock : Z) (id : string) (t : grant_table) : option ToolGrantRecord :=
  match t !! id with
  | Some row => if grant_active clock row then Some (mapGrantRow id row) else None
  | None => None
  end.

(** The records of the rows that meet a condition, newest first; rows of the same
    time come in no promised order. *)
Definition newest_first (a b : ToolGrantRecord) : bool := string_leb (tg_createdAt b) (tg_createdAt a).
Definition select_grants (cond : ToolGrantRow → bool) (t : grant_table) : list ToolGrantRecord :=
  order_by newest_first
    (map (λ e : string * ToolGrantRow, mapGrantRow e.1 e.2) (List.filter (λ e, cond e.2) (map_to_list t))).

(** [if (value) clauses.push("column = @value")]. *)
Definition clause (value : option string) (column : string) : bool :=
  negb (truthy_opt value) || bool_decide (value = Some column).
Definition in_scope (scope scopeRef : option string) (row : ToolGrantRow) : bool :=
  clause scope (gr_scope row) && clause scopeRef (gr_scope_ref row).

Definition listGrants (scope scopeRef : option string) (limit : Z) (t : grant_table) : list ToolGrantRecord :=
  sql_limit limit (select_grants (in_scope scope scopeRef) t).

Definition listActive (clock : Z) (scope scopeRef : option string) (t : grant_table) : list ToolGrantRecord :=
  select_grants (λ row, grant_active clock row && in_scope scope scopeRef row) t.

Definition revoke (id revokedAt : string) (revokedBy : option string) : grants bool :=
  let normalizedRevokedBy := default "" (trim <$> revokedBy) in
  guard_throw (negb (truthy normalizedRevokedBy)) (ValidationError (Some FIELD_REQUIRED) (Some "revokedBy") None) ;;
  changes ← revokeStmt id revokedAt normalizedRevokedBy;
  mret (0 <? changes).

Definition consumeOne (clock : Z) (id : string) : grants bool :=
  get id ;;
  changes ← consumeStmt clock id;
  mret (0 <? changes).

(** ** Histories *)

Inductive grant_call :=
  | CreateGrantCall (grantId nowIso : string) (clock : Z) (input : ToolGrantCreateInput)
  | CreateTtlCall (grantId : string) (clock : Z) (input : ToolGrantCreateInput) (ttlMs : Z)
  | RevokeGrantCall (id revokedAt : string) (revokedBy : option string)
  | ConsumeGrantCall (clock : Z) (id : string).

(** The table after a call, and whether it spent a use of the grant [id]. *)
Definition run_grant (c : grant_call) (t : grant_table) : grant_table :=
  match c with
  | CreateGrantCall id now clock input => (create id now clock input t).2
  | CreateTtlCall id clock input ttlMs => (createTtlForDuration id clock input ttlMs t).2
  | RevokeGrantCall id at_ by_ => (revoke id at_ by_ t).2
  | ConsumeGrantCall clock id => (consumeOne clock id t).2
  end.
Definition call_spends (id : string) (c : grant_call) (t : grant_table) : bool :=
  match c with
  | ConsumeGrantCall clock id' => bool_decide (id' = id) && match (consumeOne clock id' t).1 with Ok spent => spent | Err _ => false end
  | _ => false
  end.

Definition run_grants (cs : list grant_call) (t : grant_table) : grant_table := foldl (λ t c, run_grant c t) t cs.
Fixpoint times_spent (id : string) (cs : list grant_call) (t : grant_table) : nat :=
  match cs with
  | [] => 0
  | c :: cs => (if call_spends id c t then 1 else 0) + times_spent id cs (run_grant c t)
  end.

(** What every row of the table says: its lifetime fits its type. *)
Definition grant_row_ok (row : ToolGrantRow) : Prop :=
  gr_scope_ref row ≠ "" ∧
  (gr_grant_type row = "one_time" →
     gr_decision row ≠ "deny" ∧ gr_expires_at row = None ∧ (gr_uses_remaining row = Some 1 ∨ gr_uses_remaining row = Some 0)) ∧
  (gr_grant_type row = "ttl" → gr_uses_remaining row = None ∧ ∃ at_, gr_expires_at row = Some at_ ∧ is_Some (date_parse at_)) ∧
  (gr_grant_type row ≠ "one_time" → gr_grant_type row ≠ "ttl" → gr_expires_at row = None ∧ gr_uses_remaining row = None).

(** ** What the calls do *)

(** The row that [create] writes, or why it refuses. *)
Definition created_row (nowIso : string) (clock : Z) (input : ToolGrantCreateInput) : res ToolGrantRow :=
  scopeRef ← normalizeScopeRef (g_scope input) (g_scopeRef input);
  let grantType := default "persistent" (g_grantType input) in
  _ ← throw_when (bool_decide (g_decision input = "deny") && bool_decide (grantType = "one_time"))
        (lifetime_error FIELD_INVALID "grantType" "one_time grants can only be allow grants.");
  lifetime ← normalizeGrantLifetime input grantType;
  _ ← throw_when (bool_decide (grantType = "ttl") && negb (after_clock lifetime.1 clock))
        (lifetime_error FIELD_INVALID "expiresAt" "ttl grants require a future expiresAt according to the database clock.");
  Ok (mkGrantRow (trim (g_toolPattern input)) (g_decision input) (g_scope input) scopeRef grantType (g_constraints input)
        (g_createdBy input) nowIso lifetime.1 None None lifetime.2).

Definition insert_created (grantId : string) (r : res ToolGrantRow) (t : grant_table) : res ToolGrantRecord * grant_table :=
  match r with
  | Err e => (Err e, t)
  | Ok row =>
      match t !! grantId with
      | Some _ => (Err (SqliteConstraintError "tool_grants.grant_id"), t)
      | None => (Ok (mapGrantRow grantId row), <[grantId := row]> t)
      end
  end.

Lemma grant_get_run id t : get id t = (match t !! id with Some row => Ok (mapGrantRow id row) | None => Err (grant_not_found id) end, t).
Proof. done. Qed.

Lemma create_run id now clock input t : create id now clock input t = insert_created id (created_row now clock input) t.
Proof.
  unfold create, created_row. destruct (normalizeScopeRef _ _) as [scopeRef|e]; [|done].
  rewrite M_lift_bind. cbv zeta. unfold mbind, M_bind, outcome_bind, guard_throw, lift, throw_when.
  destruct (bool_decide (g_decision input = "deny") && _); [done|].
  destruct (normalizeGrantLifetime _ _) as [lifetime|e]; [|done].
  unfold transaction. destruct (bool_decide (_ = "ttl") && _); [done|].
  unfold createGrantStmt, insert_created. destruct (t !! id) eqn:E; [done|]. by rewrite grant_get_run, lookup_insert_eq.
Qed.

Lemma grant_ttl_run id clock input ttlMs t :
  createTtlForDuration id clock input ttlMs t =
    if ttlMs <=? 0 then (Err (lifetime_error FIELD_INVALID "ttlMs" "ttlMs must be a positive duration."), t)
    else match grant_ttl_window clock ttlMs with
         | None => (Err (JsError "Database did not return a tool-grant TTL window."), t)
         | Some (createdAt, expiresAt) =>
             insert_created id (created_row createdAt clock
               (input <| g_grantType := Some "ttl" |> <| g_expiresAt := Some expiresAt |> <| g_usesRemaining := None |>)) t
         end.
Proof.
  unfold createTtlForDuration, mbind, M_bind, guard_throw, lift, throw_when. destruct (ttlMs <=? 0); [done|].
  unfold transaction. destruct (grant_ttl_window clock ttlMs) as [[c e]|]; [|done].
  rewrite create_run. unfold insert_created. destruct (created_row _ _ _) as [row|]; [|done]. by destruct (t !! id).
Qed.

Definition revoked_row (at_ by_ : string) (row : ToolGrantRow) : ToolGrantRow :=
  row <| gr_revoked_at := Some at_ |> <| gr_revoked_by := Some by_ |>.

Lemma revoke_run id at_ by_ t :
  revoke id at_ by_ t =
    let name := default "" (trim <$> by_) in
    if negb (truthy name) then (Err (ValidationError (Some FIELD_REQUIRED) (Some "revokedBy") None), t)
    else match t !! id with
         | Some row => if unrevoked row then (Ok true, <[id := revoked_row at_ name row]> t) else (Ok false, t)
         | None => (Ok false, t)
         end.
Proof.
  unfold revoke, mbind, M_bind, guard_throw, lift, throw_when. cbv zeta. destruct (negb _); [done|].
  unfold revokeStmt, update_grant, sql_update. destruct (t !! id) as [row|]; [|done]. by destruct (unrevoked row).
Qed.

Lemma consume_run clock id t :
  consumeOne clock id t =
    match t !! id with
    | None => (Err (grant_not_found id), t)
    | Some row => if consumable clock row then (Ok true, <[id := consumed row]> t) else (Ok false, t)
    end.
Proof.
  unfold consumeOne, mbind, M_bind. rewrite grant_get_run. destruct (t !! id) as [row|] eqn:E; [|done].
  unfold consumeStmt, update_grant, sql_update. rewrite E. by destruct (consumable clock row).
Qed.

(** ** Rows *)

Lemma scope_ref_nonempty scope ref out : normalizeScopeRef scope ref = Ok out → out ≠ "".
Proof.
  unfold normalizeScopeRef. case_bool_decide; [by intros [= <-]|]. cbv zeta.
  destruct (truthy _) eqn:E; [|done]. intros [= <-] Hempty. by rewrite Hempty in E.
Qed.

Lemma created_row_ok now clock input row : created_row now clock input = Ok row → grant_row_ok row ∧ unrevoked row = true ∧
  gr_uses_remaining row = (if one_time row then Some 1 else None).
Proof.
  intros (scopeRef & Href%scope_ref_nonempty & H)%outcome_bind_ok. cbv zeta in H.
  apply outcome_bind_ok in H as ([] & Hdeny%throw_when_ok & H).
  apply outcome_bind_ok in H as (lifetime & Hl & H). apply outcome_bind_ok in H as ([] & _ & [= <-]).
  unfold normalizeGrantLifetime in Hl. cbv zeta in Hl. unfold grant_row_ok, unrevoked, one_time. cbn.
  set (kind := default "persistent" (g_grantType input)) in *.
  destruct (decide (kind = "one_time")) as [Ek|Nk].
  { rewrite (bool_decide_eq_true_2 (kind = "one_time")) in * by done.
    apply outcome_bind_ok in Hl as ([] & _ & Hl). apply outcome_bind_ok in Hl as ([] & _ & [= <-]).
    rewrite andb_true_r in Hdeny. apply bool_decide_eq_false in Hdeny. rewrite Ek. split_and!; try done. intros _. split_and!; [done|done|by left]. }
  rewrite (bool_decide_eq_false_2 (kind = "one_time")) in * by done.
  destruct (decide (kind = "ttl")) as [Et|Nt].
  { rewrite (bool_decide_eq_true_2 (kind = "ttl")) in * by done.
    apply outcome_bind_ok in Hl as ([] & _ & Hl).
    apply outcome_bind_ok in Hl as ([] & Hd%throw_when_ok%bool_decide_eq_false & Hl).
    apply outcome_bind_ok in Hl as ([] & _ & [= <-]). cbn.
    destruct (g_expiresAt input) as [at_|]; cbn in Hd; [|done].
    split_and!; try done. intros _. split; [done|]. exists at_. by destruct (date_parse at_). }
  rewrite (bool_decide_eq_false_2 (kind = "ttl")) in Hl by done.
  apply outcome_bind_ok in Hl as ([] & _ & Hl). apply outcome_bind_ok in Hl as ([] & _ & [= <-]). by split_and!.
Qed.

Lemma consumed_ok clock row : consumable clock row = true → grant_row_ok row → grant_row_ok (consumed row).
Proof.
  unfold consumable, consumed, one_time. intros Hc (Href & H1 & H2 & H3).
  destruct (decide (gr_grant_type row = "one_time")) as [E|Ne]; [|by rewrite (bool_decide_eq_false_2 (gr_grant_type row = _))].
  rewrite (bool_decide_eq_true_2 (gr_grant_type row = _)) in * by done. destruct (H1 E) as (Hd & Hx & Hu). apply andb_true_iff in Hc as [_ Hc].
  split_and!; cbn; try done; [|by rewrite E]. intros _. split_and!; try done.
  destruct Hu as [Hu|Hu]; rewrite Hu in *; [by right|done].
Qed.

(** ** One call *)

(** How a call may change the row of a grant. *)
Inductive grant_change (id : string) (c : grant_call) (t : grant_table) : option ToolGrantRow → option ToolGrantRow → Prop :=
  | row_kept o : call_spends id c t = false → grant_change id c t o o
  | row_created row : call_spends id c t = false → grant_row_ok row → unrevoked row = true →
      gr_uses_remaining row = (if one_time row then Some 1 else None) → grant_change id c t None (Some row)
  | row_revoked row at_ by_ : call_spends id c t = false → unrevoked row = true → by_ ≠ "" →
      grant_change id c t (Some row) (Some (revoked_row at_ by_ row))
  | row_spent row clock : call_spends id c t = true → consumable clock row = true →
      grant_change id c t (Some row) (Some (consumed row)).

Lemma insert_created_change id id' c r t : call_spends id c t = false →
  (∀ row, r = Ok row → grant_row_ok row ∧ unrevoked row = true ∧ gr_uses_remaining row = (if one_time row then Some 1 else None)) →
  grant_change id c t (t !! id) ((insert_created id' r t).2 !! id).
Proof.
  intros Hs Hr. unfold insert_created. destruct r as [row|]; [|by apply row_kept].
  destruct (t !! id') eqn:E; [by apply row_kept|]. cbn.
  destruct (decide (id' = id)) as [->|Hne]; [|by rewrite lookup_insert_ne by done; apply row_kept].
  destruct (Hr row eq_refl) as (? & ? & ?). rewrite lookup_insert_eq, E. by apply row_created.
Qed.

Lemma grant_call_change id c t : grant_change id c t (t !! id) (run_grant c t !! id).
Proof.
  destruct c as [id' now clock input|id' clock input ttlMs|id' at_ by_|clock id']; cbn [run_grant].
  - rewrite create_run. apply insert_created_change; [done|]. intros row. apply created_row_ok.
  - rewrite grant_ttl_run. destruct (ttlMs <=? 0); [by apply row_kept|].
    destruct (grant_ttl_window clock ttlMs) as [[a b]|]; [|by apply row_kept].
    apply insert_created_change; [done|]. intros row. apply created_row_ok.
  - rewrite revoke_run. cbv zeta. destruct (negb _) eqn:Eb; [by apply row_kept|].
    destruct (t !! id') as [row|] eqn:E; [|by apply row_kept]. destruct (unrevoked row) eqn:Eu; [|by apply row_kept]. cbn.
    destruct (decide (id' = id)) as [->|Hne]; [|by rewrite lookup_insert_ne by done; apply row_kept].
    rewrite lookup_insert_eq, E. apply row_revoked; [done|done|]. intros H. by rewrite H in Eb.
  - assert (call_spends id (ConsumeGrantCall clock id') t =
      bool_decide (id' = id) && match t !! id' with Some row => consumable clock row | None => false end) as Hspend.
    { cbn. rewrite consume_run. destruct (t !! id') as [row|]; [|done]. by destruct (consumable clock row). }
    rewrite consume_run. destruct (t !! id') as [row|] eqn:E; [|by apply row_kept; rewrite Hspend, andb_false_r].
    destruct (consumable clock row) eqn:Ec; [|by apply row_kept; rewrite Hspend, andb_false_r]. cbn.
    destruct (decide (id' = id)) as [->|Hne].
    + rewrite lookup_insert_eq, E. apply row_spent with clock; [|done]. by rewrite Hspend, bool_decide_eq_true_2.
    + rewrite lookup_insert_ne by done. apply row_kept. by rewrite Hspend, bool_decide_eq_false_2.
Qed.

(** ** The lists *)

Lemma elem_of_select_grants cond t g :
  g ∈ select_grants cond t ↔ ∃ row, t !! tg_grantId g = Some row ∧ g = mapGrantRow (tg_grantId g) row ∧ cond row = true.
Proof.
  unfold select_grants. rewrite order_by_Permutation, list_elem_of_fmap. split.
  - intros ([id row] & -> & Hin). rewrite list_elem_of_In, filter_In, <-list_elem_of_In, elem_of_map_to_list in Hin.
    destruct Hin as [Hrow Hc]. by exists row.
  - intros (row & Hrow & Hg & Hc). exists (tg_grantId g, row). split; [done|].
    by rewrite list_elem_of_In, filter_In, <-list_elem_of_In, elem_of_map_to_list.
Qed.

Lemma elem_of_listActive clock scope ref t g :
  g ∈ listActive clock scope ref t ↔
    ∃ row, t !! tg_grantId g = Some row ∧ g = mapGrantRow (tg_grantId g) row ∧ grant_active clock row = true ∧
      in_scope scope ref row = true.
Proof.
  unfold listActive. rewrite elem_of_select_grants. split; intros (row & Hrow & Hg & Hc); exists row.
  - by apply andb_true_iff in Hc.
  - by rewrite andb_true_iff.
Qed.

(** ** Histories *)

(** A grant that no call brings back: revoked, or a one-time grant without uses. *)
Definition grant_dead (row : ToolGrantRow) : bool :=
  negb (unrevoked row) || (one_time row && bool_decide (gr_uses_remaining row = Some 0)).

Lemma dead_inactive clock row : grant_dead row = true → grant_active clock row = false ∧ consumable clock row = false.
Proof.
  unfold grant_dead, grant_active, consumable, uses_left. intros [->%negb_true_iff|[-> ->%bool_decide_eq_true]%andb_true_iff]%orb_true_iff.
  - by rewrite !andb_false_r.
  - by rewrite !andb_false_r.
Qed.

(** The account of a grant: how often it was spent, beside its row. *)
Definition account_ok (o : option ToolGrantRow) (spent : nat) : Prop :=
  match o with
  | None => spent = 0%nat
  | Some row => grant_row_ok row ∧ (one_time row = true → (spent ≤ 1)%nat ∧ gr_uses_remaining row = Some (1 - Z.of_nat spent))
  end.

Lemma account_step id c t o o' n : grant_change id c t o o' → account_ok o n →
  account_ok o' ((if call_spends id c t then 1 else 0) + n).
Proof.
  intros Hchange Hacc. destruct Hchange as [o ->|row -> Hok _ Hu|row at_ by_ -> _ _|row clock -> Hc]; cbn [account_ok].
  - done.
  - cbn in Hacc. subst n. split; [done|]. intros H1. rewrite H1 in Hu. split; [lia|done].
  - destruct Hacc as [Hok Hn]. split; [by destruct Hok as (?&?&?&?)|done].
  - destruct Hacc as [Hok Hn]. split; [by eapply consumed_ok|]. unfold consumed. destruct (one_time row) eqn:E; [|by rewrite E].
    intros _. destruct (Hn eq_refl) as [Hle Hu]. unfold consumable in Hc. rewrite E, Hu in Hc. cbn. rewrite Hu. cbn.
    apply andb_true_iff in Hc as [_ Hc%Z.ltb_lt]. split; [lia|]. f_equal. lia.
Qed.

Lemma account_history id cs : ∀ t n, account_ok (t !! id) n → account_ok (run_grants cs t !! id) (times_spent id cs t + n).
Proof.
  induction cs as [|c cs IH]; intros t n Hn; [done|]. cbn [times_spent run_grants foldl].
  specialize (IH _ _ (account_step _ _ _ _ _ _ (grant_call_change id c t) Hn)).
  by replace ((if call_spends id c t then 1 else 0) + times_spent id cs (run_grant c t) + n)%nat
    with (times_spent id cs (run_grant c t) + ((if call_spends id c t then 1 else 0) + n))%nat by lia.
Qed.

(** A permission for one use is used once: after any history of calls, every
    grant of the table has a lifetime that fits its type, and a one-time grant
    was spent at most once, its remaining uses being what that leaves. *)
Theorem one_time_grant_once cs id :
  let t := run_grants cs ∅ in
  match t !! id with
  | None => times_spent id cs ∅ = 0%nat
  | Some row =>
      grant_row_ok row ∧
      (gr_grant_type row = "one_time" →
        (times_spent id cs ∅ ≤ 1)%nat ∧ gr_uses_remaining row = Some (1 - Z.of_nat (times_spent id cs ∅)))
  end.
Proof.
  intros t. pose proof (account_history id cs ∅ 0) as Ha. rewrite lookup_empty, Nat.add_0_r in Ha. specialize (Ha eq_refl).
  subst t. destruct (run_grants cs ∅ !! id) as [row|]; [|done]. destruct Ha as [Hok Hn]. split; [done|].
  intros Ht. apply Hn. by apply bool_decide_eq_true.
Qed.

Lemma dead_step id c t row : t !! id = Some row → grant_dead row = true →
  ∃ row', run_grant c t !! id = Some row' ∧ grant_dead row' = true ∧ call_spends id c t = false.
Proof.
  intros Ho Hd. pose proof (grant_call_change id c t) as Hc. rewrite Ho in Hc. revert Hd.
  inversion Hc as [o Hs|row' Hs|row' at_ by_ Hs Hu|row' clock Hs Hcons]; simplify_eq; intros Hd.
  - by exists row.
  - eexists. split_and!; [done|done|done].
  - destruct (dead_inactive clock _ Hd) as [_ Hno]. congruence.
Qed.

Lemma dead_history id cs : ∀ t row, t !! id = Some row → grant_dead row = true →
  times_spent id cs t = 0%nat ∧ ∃ row', run_grants cs t !! id = Some row' ∧ grant_dead row' = true.
Proof.
  induction cs as [|c cs IH]; intros t row Ho Hd; [by split; [|exists row]|].
  destruct (dead_step id c t row Ho Hd) as (row' & Ho' & Hd' & Hs). cbn [times_spent]. rewrite Hs. by eapply IH.
Qed.

(** Nothing revives a grant: once it was revoked, or its one use was spent, no
    later history spends it, and it is in no list of active grants at any time. *)
Theorem dead_grant_stays_dead t id row cs :
  t !! id = Some row → unrevoked row = false ∨ (gr_grant_type row = "one_time" ∧ gr_uses_remaining row = Some 0) →
  times_spent id cs t = 0%nat ∧
  ∀ clock, findActive clock id (run_grants cs t) = None ∧
    ∀ scope ref g, g ∈ listActive clock scope ref (run_grants cs t) → tg_grantId g ≠ id.
Proof.
  intros Ho Hdead. assert (grant_dead row = true) as Hd.
  { unfold grant_dead, one_time. destruct Hdead as [->|[-> ->]]; [done|]. by rewrite orb_true_r. }
  destruct (dead_history id cs t row Ho Hd) as (Hs & row' & Ho' & Hd'). split; [done|]. intros clock.
  destruct (dead_inactive clock row' Hd') as [Hi _]. unfold findActive. rewrite Ho', Hi. split; [done|].
  intros scope ref g (row2 & Hr & _ & Ha & _)%elem_of_listActive <-. congruence.
Qed.
