(* ===== verification/AccessLog.v ===== *)
(** * The log of access decisions (packages/storage/src/tool-access-decision-repo.ts)

    The table [tool_access_decisions] on SQLite, which the hourly limits of grants
    count.  [randomUUID()] and the time of the process are arguments; the column of
    the reason codes stands for the value that its text encodes, and the workspace
    that chat_session_meta gives a session is a function.  At the end, what one
    recorded decision adds to a count. *)
From S2P Require Import Prelude.
From S2P Require Import JsString.
From S2P Require Import JsTime.
From S2P Require Import Errors.

(** [ToolRiskLevel] (packages/contracts/src/tools.ts). *)
Inductive ToolRiskLevel := tool_safe | tool_caution | tool_danger | tool_nuclear.
#[export] Instance ToolRiskLevel_eq_dec : EqDecision ToolRiskLevel.
Proof. solve_decision. Defined.

Record ToolAccessDecisionInput := mkDecisionInput {
  ad_toolName : string;
  ad_policyToolName : option string;
  ad_agentId : string;
  ad_sessionId : string;
  ad_workspaceId : option string;
  ad_taskId : option string;
  ad_runId : option string;
  ad_allowed : bool;
  ad_reasonCodes : list string;
  ad_matchedGrantId : option string;
  ad_requiresApproval : bool;
  ad_riskLevel : ToolRiskLevel;
  ad_permissionProfileId : option string;
  ad_localOperatorOverrideId : option string;
  ad_countsTowardLimits : option bool;
}.
Record ToolAccessDecisionRecord := mkDecisionRecord {
  ad_decisionId : string;
  ad_timestamp : string;
  ad_input : ToolAccessDecisionInput;
}.

(** [policy_tool_name] and the flags as the table keeps them. *)
Record ToolAccessDecisionRow := mkDecisionRow {
  dr_timestamp : string;
  dr_tool_name : string;
  dr_policy_tool_name : option string;
  dr_agent_id : string;
  dr_session_id : string;
  dr_workspace_id : option string;
  dr_task_id : option string;
  dr_run_id : option string;
  dr_allowed : bool;
  dr_reason_codes : list string;
  dr_matched_grant_id : option string;
  dr_requires_approval : bool;
  dr_risk_level : ToolRiskLevel;
  dr_permission_profile_id : option string;
  dr_local_operator_override_id : option string;
  dr_counts_toward_limits : bool;
}.

Abbreviation decision_table := (gmap string ToolAccessDecisionRow).
Abbreviation decisions := (M js_error decision_table).

Definition mapToolAccessDecisionRow (id : string) (row : ToolAccessDecisionRow) : ToolAccessDecisionRecord :=
  mkDecisionRecord id (dr_timestamp row)
    (mkDecisionInput (dr_tool_name row) (dr_policy_tool_name row) (dr_agent_id row) (dr_session_id row) (dr_workspace_id row)
       (dr_task_id row) (dr_run_id row) (dr_allowed row) (dr_reason_codes row) (dr_matched_grant_id row)
       (dr_requires_approval row) (dr_risk_level row) (dr_permission_profile_id row) (dr_local_operator_override_id row)
       (Some (dr_counts_toward_limits row))).

Definition decision_row (now : string) (input : ToolAccessDecisionInput) : ToolAccessDecisionRow :=
  mkDecisionRow now (ad_toolName input) (ad_policyToolName input) (ad_agentId input) (ad_sessionId input) (ad_workspaceId input)
    (ad_taskId input) (ad_runId input) (ad_allowed input) (ad_reasonCodes input) (ad_matchedGrantId input)
    (ad_requiresApproval input) (ad_riskLevel input) (ad_permissionProfileId input) (ad_localOperatorOverrideId input)
    (negb (bool_decide (ad_countsTowardLimits input = Some false))).

Definition record (decisionId now : string) (input : ToolAccessDecisionInput) : decisions ToolAccessDecisionRecord := λ t,
  match t !! decisionId with
  | Some _ => (Err (SqliteConstraintError "tool_access_decisions.decision_id"), t)
  | None => (Ok (mkDecisionRecord decisionId now input), <[decisionId := decision_row now input]> t)
  end.

Definition get (id : string) (t : decision_table) : option ToolAccessDecisionRecord := mapToolAccessDecisionRow id <$> t !! id.

(** ** Conditions *)

Definition CAUTION_MUTATING_TOOL_SQL_NAMES : list string :=
  ["fs.write"; "fs.copy"; "fs.move"; "fs.delete"; "http.post"; "shell.exec"; "shell.exec_background"; "git.add"; "git.commit";
   "git.branch.create"; "git.branch.switch"; "git.worktree.create"; "git.worktree.remove"; "browser.screenshot";
   "browser.interact"; "browser.cookies.set"; "browser.cookies.clear"; "browser.storage.set"; "browser.storage.clear";
   "browser.context.configure"; "mcp.invoke"; "gmail.send"; "memory.write"; "memory.upsert"; "docs.ingest"; "embeddings.index";
   "artifacts.create"; "documents.create"; "presentations.create"; "calendar.create_event"].

(** [column LIKE '%suffix']: letters of either case match. *)
Definition like_suffix (suffix column : string) : bool := ends_with suffix (to_lower column).

Definition writeDecisionPredicate (row : ToolAccessDecisionRow) : bool :=
  bool_decide (dr_risk_level row = tool_danger) || bool_decide (dr_risk_level row = tool_nuclear) ||
  bool_decide (dr_tool_name row ∈ CAUTION_MUTATING_TOOL_SQL_NAMES) ||
  match dr_policy_tool_name row with Some name => bool_decide (name ∈ ["mcp.invoke"; "mesh.invoke"]) | None => false end ||
  like_suffix ".send" (dr_tool_name row) || like_suffix ".react" (dr_tool_name row) || like_suffix ".unsend" (dr_tool_name row).

(** [tool_name = @toolName OR policy_tool_name = @toolName]. *)
Definition of_tool (toolName : string) (row : ToolAccessDecisionRow) : bool :=
  bool_decide (dr_tool_name row = toolName) || bool_decide (dr_policy_tool_name row = Some toolName).

(** [counts_toward_limits = 1 AND timestamp >= @since]. *)
Definition counted_since (since : string) (row : ToolAccessDecisionRow) : bool :=
  dr_counts_toward_limits row && string_leb since (dr_timestamp row).

Record CountScope := mkCountScope {
  cs_scope : string;
  cs_agentId : string;
  cs_sessionId : string;
  cs_workspaceId : option string;
  cs_taskId : option string;
  cs_excludeDecisionId : option string;
}.

(** ** Counts *)

Section counts.
Context (sessionWorkspace : string → option string).

(** The condition of each scope's statement, or [None] for a scope that the
    request has no id of: [switch (input.scope)], whose default is the session. *)
Definition scope_condition (input : CountScope) : option (ToolAccessDecisionRow → bool) :=
  if bool_decide (cs_scope input = "global") then Some (λ _, true)
  else if bool_decide (cs_scope input = "agent") then Some (λ row, bool_decide (dr_agent_id row = cs_agentId input))
  else if bool_decide (cs_scope input = "workspace") then
    if negb (truthy_opt (cs_workspaceId input)) then None
    else Some (λ row, bool_decide (dr_workspace_id row = cs_workspaceId input) ||
                      (bool_decide (dr_workspace_id row = None) &&
                       bool_decide (sessionWorkspace (dr_session_id row) = cs_workspaceId input)))
  else if bool_decide (cs_scope input = "task") then
    if negb (truthy_opt (cs_taskId input)) then None
    else Some (λ row, bool_decide (dr_task_id row = cs_taskId input))
  else Some (λ row, bool_decide (dr_session_id row = cs_sessionId input)).

(** [SELECT COUNT( * )]. *)
Definition count_rows (cond : ToolAccessDecisionRow → bool) (t : decision_table) : Z := Z.of_nat (length (sql_rows cond t)).

(** The condition that [excludedCount] puts on the scope: no join here. *)
Definition excluded_scope (input : CountScope) (row : ToolAccessDecisionRow) : bool :=
  if bool_decide (cs_scope input = "global") then true
  else if bool_decide (cs_scope input = "agent") then bool_decide (dr_agent_id row = cs_agentId input)
  else if bool_decide (cs_scope input = "workspace")
  then bool_decide (dr_workspace_id row = Some (default "" (cs_workspaceId input)))
  else if bool_decide (cs_scope input = "task") then bool_decide (dr_task_id row = Some (default "" (cs_taskId input)))
  else bool_decide (dr_session_id row = cs_sessionId input).

Definition excludedCount (input : CountScope) (since : string) (toolName : option string) (t : decision_table) : Z :=
  match cs_excludeDecisionId input with
  | Some id =>
      if negb (truthy id) then 0
      else match t !! id with
           | Some row =>
               if counted_since since row && excluded_scope input row &&
                  match toolName with
                  | Some name => if truthy name then of_tool name row else writeDecisionPredicate row
                  | None => writeDecisionPredicate row
                  end
               then 1 else 0
           | None => 0
           end
  | None => 0
  end.

(** [new Date(Date.now() - 60 * 60 * 1000).toISOString()]. *)
Definition hour_ago (nowMs : Z) : res string :=
  match to_iso (nowMs - 60 * 60 * 1000) with Some since => Ok since | None => Err (JsRangeError "Invalid time value") end.

(** The condition that the statement of a tool's calls has in its scope. *)
Definition tool_calls (toolName since : string) (in_scope : ToolAccessDecisionRow → bool) (row : ToolAccessDecisionRow) : bool :=
  of_tool toolName row && in_scope row && counted_since since row.
Definition write_calls (since : string) (in_scope : ToolAccessDecisionRow → bool) (row : ToolAccessDecisionRow) : bool :=
  in_scope row && dr_allowed row && counted_since since row && writeDecisionPredicate row.

Definition countToolCallsInLastHourInScope (nowMs : Z) (toolName : string) (input : CountScope) (t : decision_table) : res Z :=
  since ← hour_ago nowMs;
  match scope_condition input with
  | None => Ok 0
  | Some in_scope => Ok (Z.max 0 (count_rows (tool_calls toolName since in_scope) t - excludedCount input since (Some toolName) t))
  end.

Definition countWritesInLastHourInScope (nowMs : Z) (input : CountScope) (t : decision_table) : res Z :=
  since ← hour_ago nowMs;
  match scope_condition input with
  | None => Ok 0
  | Some in_scope => Ok (Z.max 0 (count_rows (write_calls since in_scope) t - excludedCount input since None t))
  end.

Definition session_scope (agentId sessionId : string) : CountScope := mkCountScope "session" agentId sessionId None None None.
Definition countToolCallsInLastHour (nowMs : Z) (toolName agentId sessionId : string) (t : decision_table) : res Z :=
  countToolCallsInLastHourInScope nowMs toolName (session_scope agentId sessionId) t.
Definition countWritesInLastHour (nowMs : Z) (agentId sessionId : string) (t : decision_table) : res Z :=
  countWritesInLastHourInScope nowMs (session_scope agentId sessionId) t.

(** ** What a decision adds *)

Lemma count_record id now input t cond r t' : record id now input t = (Ok r, t') →
  count_rows cond t' = count_rows cond t + (if cond (decision_row now input) then 1 else 0).
Proof.
  unfold record. destruct (t !! id) eqn:E; [done|]. intros [= _ <-]. unfold count_rows, sql_rows.
  assert (length (List.filter cond (map_to_list (<[id:=decision_row now input]> t)).*2) =
          length (List.filter cond (decision_row now input :: (map_to_list t).*2))) as ->.
  { assert (∀ l l' : list ToolAccessDecisionRow, l ≡ₚ l' → length (List.filter cond l) = length (List.filter cond l')) as Hp.
    { induction 1 as [|x l l' _ IH|x y l|l1 l2 l3 _ IH1 _ IH2]; cbn; [done| | |congruence].
      - destruct (cond x); cbn; congruence.
      - by destruct (cond x), (cond y). }
    apply Hp. by rewrite map_to_list_insert. }
  cbn. destruct (cond _); cbn [length]; lia.
Qed.

Lemma get_recorded id now input t r t' : record id now input t = (Ok r, t') →
  get id t' = Some (mapToolAccessDecisionRow id (decision_row now input)) ∧ r = mkDecisionRecord id now input.
Proof.
  unfold record, get. destruct (t !! id) eqn:E; [done|]. intros [= <- <-]. by rewrite lookup_insert_eq.
Qed.

(** No count of the last hour is negative, and a count without an exclusion is
    the number of the decisions that it names. *)
Lemma tool_count_spec nowMs toolName input t n : cs_excludeDecisionId input = None →
  countToolCallsInLastHourInScope nowMs toolName input t = Ok n →
  match scope_condition input with
  | None => n = 0
  | Some in_scope => ∃ since, hour_ago nowMs = Ok since ∧ n = count_rows (tool_calls toolName since in_scope) t
  end.
Proof.
  intros Hx (since & Hs & H)%outcome_bind_ok. destruct (scope_condition input) as [in_scope|]; [|by injection H as <-].
  exists since. split; [done|]. injection H as <-. unfold excludedCount. rewrite Hx. unfold count_rows. lia.
Qed.

(** A grant of a Citadel or of a Chamber is counted within one session. *)
Theorem citadel_limit_by_session nowMs toolName input t : cs_scope input = "citadel" ∨ cs_scope input = "chamber" →
  countToolCallsInLastHourInScope nowMs toolName input t =
  countToolCallsInLastHourInScope nowMs toolName
    (mkCountScope "session" (cs_agentId input) (cs_sessionId input) (cs_workspaceId input) (cs_taskId input)
       (cs_excludeDecisionId input)) t.
Proof. destruct input. cbn. by intros [-> | ->]. Qed.
End counts.
