(* ===== verification/AccessDecision.v ===== *)
(** * The access decision (packages/policy-engine/src/engine.ts)

    What the engine answers to a tool request: [evaluateAccessInternal] with the
    Wards (contracts/src/citadel-wards.ts), the choice of a grant and its
    constraints, the structural checks, and the reasons for asking the operator.

    The database is given by its tables; what is asked of other parts of the
    program is answered by [AccessWorld].  The file system does not change during
    one decision. *)
From stdpp Require Import pretty.
From S2P Require Import Prelude.
From S2P Require Import JsString.
From S2P Require Import JsJson.
From S2P Require Import JsJsonText.
From S2P Require Import JsObject.
From S2P Require Import Errors.
From S2P Require Import ToolGroups.
From S2P Require Import ToolPatterns.
From S2P Require Import ToolPolicy.
From S2P Require Import NetworkGuard.
From S2P Require Import FileSystem.
From S2P Require Import PathJail.
From S2P Require Import ToolWriteGate.
From S2P Require Import OutsideRootWrite.
From S2P Require Import ShellRisk.
From S2P Require Import RiskGates.
From S2P Require Import ToolRequests.
From S2P Require Import ToolTrust.
From S2P Require Import ToolGrants.
From S2P Require Import AccessLog.

(** ** Wards (contracts/src/citadel-wards.ts) *)

Inductive WardEffect := ward_allow | ward_deny | ward_require_approval | ward_require_dry_run | ward_redact | ward_route_local.
#[export] Instance WardEffect_eq_dec : EqDecision WardEffect.
Proof. solve_decision. Defined.

Record CitadelWard := mkWard { wd_name : string; wd_actionPattern : string; wd_effect : WardEffect }.

(** The same text for [RegExp] as in tool-patterns.ts, with other limits. *)
Definition wardMatchesAction (actionPattern action : string) : bool := regex_test (compile_pattern actionPattern) action.

Definition has_effect (e : WardEffect) (w : CitadelWard) : bool := bool_decide (wd_effect w = e).

Definition evaluateWardsForActions (wards : list CitadelWard) (actions : list string) : WardEffect :=
  let matching := List.filter (λ w, existsb (wardMatchesAction (wd_actionPattern w)) actions) wards in
  if existsb (has_effect ward_deny) matching then ward_deny
  else if existsb (has_effect ward_require_approval) matching then ward_require_approval
  else if existsb (has_effect ward_require_dry_run) matching then ward_require_dry_run
  else if existsb (has_effect ward_route_local) matching then ward_route_local
  else if existsb (has_effect ward_redact) matching then ward_redact
  else ward_allow.
Definition evaluateWards (wards : list CitadelWard) (action : string) : WardEffect := evaluateWardsForActions wards [action].

(** ** Requests and tools *)

Record ToolPolicyActorContext := mkContext {
  pc_permissionProfileId : option string;
  pc_permissionProfile : option PermissionProfileRecord;
  pc_localOperatorOverride : option LocalOperatorOverrideRecord;
  pc_authActorSource : option string;
  pc_approvedCodeModeRunId : option string;
  pc_fullWebAccess : option bool;
}.

Record ToolAccessEvaluateRequest := mkAccessRequest {
  rq_toolName : string;
  rq_agentId : string;
  rq_sessionId : string;
  rq_workspaceId : option string;
  rq_citadelId : option string;
  rq_chamberId : option string;
  rq_taskId : option string;
  rq_runId : option string;
  rq_args : option (list (string * json));
  rq_trustLevel : option json;
  rq_sourceAttribution : option json;
  rq_policyContext : option ToolPolicyActorContext;
}.
#[export] Instance eta_ToolAccessEvaluateRequest : Eta ToolAccessEvaluateRequest := λ r,
  mkAccessRequest (rq_toolName r) (rq_agentId r) (rq_sessionId r) (rq_workspaceId r) (rq_citadelId r) (rq_chamberId r)
    (rq_taskId r) (rq_runId r) (rq_args r) (rq_trustLevel r) (rq_sourceAttribution r) (rq_policyContext r).

(** [request.args?.k], [request.args] as a value, and what the trust rules read. *)
Definition arg (k : string) (r : ToolAccessEvaluateRequest) : option json := rq_args r ≫= lookup_field k.
Definition args_value (r : ToolAccessEvaluateRequest) : option json := JObject <$> rq_args r.
Definition trust_fields (r : ToolAccessEvaluateRequest) : request :=
  fields_of [("trustLevel", rq_trustLevel r); ("sourceAttribution", rq_sourceAttribution r)].

(** [td_required] is [argSchema?.required], empty when it is no array. *)
Record ToolDefinition := mkTool {
  td_name : string;
  td_category : string;
  td_riskLevel : ToolRiskLevel;
  td_requiresApproval : bool;
  td_required : list string;
}.
Definition MESH_TOOL_POLICY_DEFINITION : ToolDefinition := mkTool "mesh.invoke" "ops" tool_danger true [].
Definition NATIVE_INSTALLATION_POLICY : ToolDefinition := mkTool "remote_worker.native_runtime_install" "ops" tool_danger true [].
Definition CODE_MODE_REQUEST_TOOL_NAME : string := "code_mode.request".

Definition capability_of (toolName : string) (def : option ToolDefinition) : ToolCapabilityPolicy :=
  deriveToolCapabilityPolicy toolName (td_category <$> def).

Definition CAUTION_MUTATING_TOOL_NAMES : list string :=
  ["fs.copy"; "git.branch.create"; "memory.write"; "memory.upsert"; "docs.ingest"; "embeddings.index"; "artifacts.create";
   "documents.create"; "presentations.create"].
Definition isKnownMutatingToolName (toolName : string) : bool :=
  bool_decide (toolName ∈ CAUTION_MUTATING_TOOL_NAMES) ||
  existsb (λ suffix, ends_with suffix toolName) [".send"; ".react"; ".unsend"] ||
  bool_decide (toolName = "webhook.send") || bool_decide (toolName = "calendar.create_event").
Definition isMutationTool (def : option ToolDefinition) : bool :=
  match def with
  | None => false
  | Some d => bool_decide (td_riskLevel d = tool_danger) || bool_decide (td_riskLevel d = tool_nuclear) ||
              isKnownMutatingToolName (td_name d)
  end.

Definition PATH_ARGUMENT_NAMES : list string := ["path"; "from"; "to"; "relativePath"; "outputPath"; "cwd"].
Definition hasRequiredPathArgument (def : option ToolDefinition) : bool :=
  match def with Some d => existsb (λ name, bool_decide (name ∈ PATH_ARGUMENT_NAMES)) (td_required d) | None => false end.
Definition requiresExplicitPathForGrantConstraints (toolName : string) : bool :=
  bool_decide (toolName = "browser.screenshot") || bool_decide (toolName = "git.add").
Definition requiresExplicitWritePath (toolName : string) : bool := bool_decide (toolName = "fs.delete").

Definition full_web_tools : list string :=
  ["browser.search"; "browser.navigate"; "browser.extract"; "browser.screenshot"; "http.get"; "docs.ingest"].
Definition isFullWebAccessEligibleTool (toolName : string) : bool := bool_decide (toolName ∈ full_web_tools).
Definition hasFullWebAccess (r : ToolAccessEvaluateRequest) : bool :=
  isFullWebAccessEligibleTool (rq_toolName r) && negb (bool_decide (rq_policyContext r ≫= pc_fullWebAccess = Some false)).

(** ** The engine and its world *)

Record PluginToolGroupHold := mkHold { ph_groupId : string; ph_pluginId : string; ph_pluginName : string }.

(** The configuration, of which [eng_sandbox] is the sandbox section as the write
    gate reads it; the registry; and the groups that plugins hold off. *)
Record ToolPolicyEngine := mkEngine {
  eng_config : ToolPolicyConfig;
  eng_sandbox : ToolSandbox;
  eng_registry : string → option ToolDefinition;
  pluginToolGroupHolds : list PluginToolGroupHold;
  holdsUnavailable : bool;
}.

(** The answers of the rest of the program while one request is evaluated: the
    times of the process and of the database, the tables, the Wards of a Citadel
    (if the storage has them), the approval that getVerifiedApprovalBypassId finds
    for the request, what the Gateway says of writes outside the roots, the hosts
    that a grant must allow, the path that a document or presentation gets, and
    the checks of Firecrawl endpoints, search hosts and browser steps. *)
Record AccessWorld := mkWorld {
  w_now : Z;
  w_clock : Z;
  w_grants : grant_table;
  w_decisions : decision_table;
  w_sessionWorkspace : string → option string;
  w_listWards : option (string → list CitadelWard);
  w_verifiedApprovalId : option string;
  w_outsideRootWriteEligible : bool;
  w_registeredTargets : string → option (list string);
  w_grantHosts : ToolAccessEvaluateRequest → list string * option string;
  w_artifactPath : string → list (string * json) → option string;
  w_firecrawlEndpoint : option (list (string * json)) → res unit;
  w_searchHosts : ToolAccessEvaluateRequest → res unit;
  w_interactionSteps : list (string * json) → res unit;
}.

(** ** The target of an invocation *)

Record RemoteToolIdentity := mkRemoteTool { canonicalName : string; policyToolName : string }.

(** [ToolPolicyEvaluateOptions]: the handles of the Gateway, as the canonical names
    that they were minted for, and whether the delivery marker is a minted one. *)
Record ToolPolicyEvaluateOptions := mkOptions {
  mcpToolBinding : option string;
  meshToolBinding : option string;
  mcpApprovalRelief : option string;
  ownDelivery : bool;
}.
Definition no_options : ToolPolicyEvaluateOptions := mkOptions None None None false.

Definition readToolPolicyBinding (policyName message : string) (binding : option string) (name : string)
    : res (option RemoteToolIdentity) :=
  match binding with
  | None => Ok None
  | Some target => if bool_decide (target = name) then Ok (Some (mkRemoteTool name policyName)) else Err (JsError message)
  end.
Definition readMcpToolPolicyBinding := readToolPolicyBinding "mcp.invoke" "Missing or mismatched native MCP policy binding".
Definition readMeshToolPolicyBinding := readToolPolicyBinding "mesh.invoke" "Missing or mismatched mesh policy binding".

Definition readMcpApprovalRelief (relief : option string) (name : option string) : res bool :=
  match relief with
  | None => Ok false
  | Some target => if bool_decide (Some target = name) then Ok true else Err (JsError "Missing or mismatched MCP approval relief")
  end.

(** [/^[a-zA-Z0-9][a-zA-Z0-9._-]{0,254}$/]. *)
Definition is_alphanumeric (c : ascii) : bool :=
  let n := N_of_ascii c in (48 <=? n)%N && (n <=? 57)%N || (65 <=? n)%N && (n <=? 90)%N || (97 <=? n)%N && (n <=? 122)%N.
Definition canonical_mcp_name (s : string) : bool :=
  match s with
  | String c s' =>
      is_alphanumeric c && (String.length s' <=? 254)%nat &&
      string_forallb (λ c, is_alphanumeric c || existsb (Ascii.eqb c) ["."%char; "_"%char; "-"%char]) s'
  | EmptyString => false
  end.

Definition trimmed_text (v : option json) : string := match v with Some (JString s) => trim s | _ => "" end.

Definition readMcpPolicyTargetFromWrapper (r : ToolAccessEvaluateRequest) : res (option RemoteToolIdentity) :=
  if negb (bool_decide (rq_toolName r = "mcp.invoke")) then Ok None
  else
    let serverId := trimmed_text (arg "serverId" r) in
    let nativeToolName := trimmed_text (arg "toolName" r) in
    if negb (truthy serverId) || negb (truthy nativeToolName) then Ok None
    else
      let name := "mcp." +:+ serverId +:+ "." +:+ nativeToolName in
      if canonical_mcp_name name then Ok (Some (mkRemoteTool name "mcp.invoke")) else Err (JsError "Invalid MCP policy target").

Record InvocationPolicy := mkInvocation {
  ip_mappedTarget : option RemoteToolIdentity;
  ip_toolDef : option ToolDefinition;
  ip_accountingToolName : string;
  ip_evaluationRequest : ToolAccessEvaluateRequest;
  ip_mcpApprovalRelief : bool;
  ip_capabilityPolicy : ToolCapabilityPolicy;
}.

Definition resolveInvocationPolicy (e : ToolPolicyEngine) (r : ToolAccessEvaluateRequest) (options : ToolPolicyEvaluateOptions)
    : res InvocationPolicy :=
  _ ← throw_when (bool_decide (is_Some (mcpToolBinding options)) && bool_decide (is_Some (meshToolBinding options)))
        (JsError "Remote policy mappings are mutually exclusive");
  mcpBinding ← readMcpToolPolicyBinding (mcpToolBinding options) (rq_toolName r);
  meshBinding ← readMeshToolPolicyBinding (meshToolBinding options) (rq_toolName r);
  let binding := match mcpBinding with Some b => Some b | None => meshBinding end in
  mappedTarget ← (match binding with Some b => Ok (Some b) | None => readMcpPolicyTargetFromWrapper r end);
  _ ← throw_when (match mappedTarget ≫= λ b, eng_registry e (canonicalName b) with Some _ => true | None => false end)
        (JsError "Remote policy mapping collides with a registered tool");
  _ ← throw_when (match meshBinding ≫= λ b, eng_registry e (policyToolName b) with Some _ => true | None => false end)
        (JsError "Mesh policy template collides with a registered tool");
  relief ← readMcpApprovalRelief (mcpApprovalRelief options)
             (match meshBinding with Some _ => None | None => canonicalName <$> mappedTarget end);
  let policyName := match mappedTarget with Some b => policyToolName b | None => rq_toolName r end in
  let toolDef := match meshBinding with Some _ => Some MESH_TOOL_POLICY_DEFINITION | None => eng_registry e policyName end in
  let accountingToolName := match mappedTarget with Some b => canonicalName b | None => rq_toolName r end in
  let mcpArguments := match arg "arguments" r with Some (JObject fields) => fields | _ => [] end in
  let evaluationRequest :=
    match mappedTarget with
    | Some _ =>
        r <| rq_toolName := accountingToolName |>
          <| rq_args := if bool_decide (rq_toolName r = "mcp.invoke") then Some mcpArguments else rq_args r |>
    | None => r
    end in
  Ok (mkInvocation mappedTarget toolDef accountingToolName evaluationRequest relief (capability_of policyName toolDef)).

(** ** The switched-off groups *)

Definition policyConfig (e : ToolPolicyEngine) : ToolPolicyConfig :=
  withHeldToolGroups (eng_config e)
    (if holdsUnavailable e then SWITCHABLE_TOOL_GROUP_IDS else map ph_groupId (pluginToolGroupHolds e)).

Definition listSwitchedOffToolNames (e : ToolPolicyEngine) : gset string :=
  dom (toolNamesSwitchedOff (tc_disabledGroups (cfg_tools (policyConfig e)))).

Definition setPluginToolGroupHolds (holds : list PluginToolGroupHold) (e : ToolPolicyEngine) : ToolPolicyEngine :=
  mkEngine (eng_config e) (eng_sandbox e) (eng_registry e) holds false.
Definition setPluginToolGroupHoldsUnavailable (e : ToolPolicyEngine) : ToolPolicyEngine :=
  mkEngine (eng_config e) (eng_sandbox e) (eng_registry e) (pluginToolGroupHolds e) true.

(** [name.replace(/[\p{Cc}\s]+/gu, " ").trim()]: a run of blanks and of control
    characters becomes one blank. *)
Definition is_blank_or_control (c : ascii) : bool :=
  let n := N_of_ascii c in is_space c || (n <? 32)%N || (127 <=? n)%N && (n <=? 159)%N.
Fixpoint one_line (after_blank : bool) (s : string) : string :=
  match s with
  | EmptyString => EmptyString
  | String c s' =>
      if is_blank_or_control c then (if after_blank then one_line true s' else String " " (one_line true s'))
      else String c (one_line false s')
  end.

Definition pluginHoldingTool (e : ToolPolicyEngine) (toolName : string) : string :=
  let groupId := group_id <$> toolGroupForTool toolName in
  let holder := List.find (λ hold, bool_decide (Some (ph_groupId hold) = groupId)) (pluginToolGroupHolds e) in
  let pluginName := default "" ((λ hold, trim (one_line false (ph_pluginName hold))) <$> holder) in
  if truthy pluginName then "the plugin " +:+ pluginName else "a plugin".

(** ** Evaluations *)

Record AccessEvaluation := mkEvaluation {
  ev_allowed : bool;
  ev_reasonCodes : list string;
  ev_requiresApproval : bool;
  ev_matchedGrantId : option string;
  ev_riskLevel : ToolRiskLevel;
  ev_policyReason : string;
  ev_grantToConsume : option string;
  ev_permissionProfileId : option string;
  ev_localOperatorOverrideId : option string;
  ev_approvalMode : option ToolApprovalMode;
  ev_matchedGrantAllowedHosts : option (list string);
  ev_wardEffect : option WardEffect;
  ev_outsideRootWrite : option (list string * list OutsideRootWriteCandidateRoot);
}.
#[export] Instance eta_AccessEvaluation : Eta AccessEvaluation := λ e,
  mkEvaluation (ev_allowed e) (ev_reasonCodes e) (ev_requiresApproval e) (ev_matchedGrantId e) (ev_riskLevel e)
    (ev_policyReason e) (ev_grantToConsume e) (ev_permissionProfileId e) (ev_localOperatorOverrideId e) (ev_approvalMode e)
    (ev_matchedGrantAllowedHosts e) (ev_wardEffect e) (ev_outsideRootWrite e).

Definition deny (riskLevel : ToolRiskLevel) (code reason : string) : AccessEvaluation :=
  mkEvaluation false [code] false None riskLevel reason None None None None None None None.
Definition withReasonCode (evaluation : AccessEvaluation) (code : string) : AccessEvaluation :=
  evaluation <| ev_reasonCodes := ev_reasonCodes evaluation ++ [code] |>.

(** [withPolicy] and [withWard] of [evaluateAccessInternal]. *)
Definition withPolicy (policy : EffectiveToolPolicy) (evaluation : AccessEvaluation) : AccessEvaluation :=
  evaluation <| ev_permissionProfileId := ep_permissionProfileId policy |>
             <| ev_localOperatorOverrideId := ep_localOperatorOverrideId policy |>
             <| ev_approvalMode := Some (ep_approvalMode policy) |>.
Definition withWard (matchedWardEffect : option WardEffect) (evaluation : AccessEvaluation) : AccessEvaluation :=
  evaluation <| ev_wardEffect := matchedWardEffect |>.

Definition PLUGIN_TOOL_GROUP_HOLDS_UNAVAILABLE_REASON : string :=
  "GoatCitadel can't read which tool groups plugins keep off, so it keeps those tools off until it can".

Definition switchedOffDenial (e : ToolPolicyEngine) (name toolName : string) (riskLevel : ToolRiskLevel) : AccessEvaluation :=
  let label := default "" (group_label <$> toolGroupForTool name) in
  let group := if truthy label then " (" +:+ label +:+ ")" else "" in
  let denial reason := deny riskLevel "tool_group_off" ("tool " +:+ toolName +:+ reason) in
  if bool_decide (is_Some (toolNamesSwitchedOff (tc_disabledGroups (cfg_tools (eng_config e))) !! name))
  then denial (" is in a tool group switched off by the operator" +:+ group)
  else if holdsUnavailable e
  then withReasonCode (denial (" is in a tool group kept off" +:+ group +:+ ": " +:+ PLUGIN_TOOL_GROUP_HOLDS_UNAVAILABLE_REASON))
         "plugin_tool_group_holds_unavailable"
  else withReasonCode (denial (" is in a tool group switched off by " +:+ pluginHoldingTool e name +:+ group))
         "plugin_tool_group_hold".

(** ** Texts of a request *)

(** [parseIngestionSourceType] and [parseIngestionBackend] (ingestion-source-type.ts). *)
Definition quoted (v : option json) : string := match v with Some v => json_stringify v | None => "undefined" end.
Definition parseIngestionSourceType (v : option json) : res string :=
  if is_one ["file"; "url"; "text"] v then Ok (match v with Some (JString s) => s | _ => "" end)
  else Err (JsError ("sourceType must be one of file|url|text (got " +:+ quoted v +:+ ")")).
Definition parseIngestionBackend (v : option json) : res string :=
  match present v with
  | None => Ok "native"
  | Some v' =>
      if is_one ["native"; "firecrawl"] v then Ok (match v' with JString s => s | _ => "" end)
      else Err (JsError ("backend must be one of native|firecrawl (got " +:+ quoted v +:+ ")"))
  end.

Definition readDocsIngestSourceType (r : ToolAccessEvaluateRequest) : res (option string) :=
  if negb (bool_decide (rq_toolName r = "docs.ingest")) then Ok None
  else t ← parseIngestionSourceType (arg "sourceType" r); Ok (Some t).
Definition readDocsIngestSourceTypeIfValid (r : ToolAccessEvaluateRequest) : option string :=
  match readDocsIngestSourceType r with Ok t => t | Err _ => None end.
Definition readDocsIngestBackend (r : ToolAccessEvaluateRequest) : res string :=
  if negb (bool_decide (rq_toolName r = "docs.ingest")) then Ok "native" else parseIngestionBackend (arg "backend" r).

(** Texts that are not blank, trimmed; the elements of an array. *)
Definition texts (values : list (option json)) : list string := omap RiskGates.asString values.
Definition array_of (v : option json) : option (list (option json)) :=
  match v with Some (JArray l) => Some (map Some l) | _ => None end.
Definition listed (v : option json) : list (option json) := default [] (array_of v).

Definition extractPathCandidates (r : ToolAccessEvaluateRequest) : list string :=
  texts (map (λ k, arg k r) PATH_ARGUMENT_NAMES ++ listed (arg "paths" r)).

(** [readGitAddPaths] (tool-executor.ts). *)
Definition readGitAddPaths (v : option json) : list string := texts (listed v).

Definition extractGrantPathCandidates (r : ToolAccessEvaluateRequest) : list string :=
  if bool_decide (rq_toolName r = "git.add") then readGitAddPaths (arg "paths" r)
  else unique (extractPathCandidates r ++
               (if bool_decide (readDocsIngestSourceTypeIfValid r = Some "file") then texts [arg "source" r] else [])).

Definition string_arg (k : string) (r : ToolAccessEvaluateRequest) : list string :=
  match arg k r with Some (JString s) => [s] | _ => [] end.

Definition path_reading_tools : list string :=
  ["fs.read"; "file.read_range"; "file.find"; "code.search"; "code.search_files"; "fs.list"; "fs.stat"].
Definition extractReadPathCandidates (r : ToolAccessEvaluateRequest) : res (list string) :=
  match rq_args r with
  | None => Ok []
  | Some _ =>
      if bool_decide (rq_toolName r ∈ path_reading_tools) then Ok (string_arg "path" r)
      else if bool_decide (rq_toolName r = "fs.copy") then Ok (string_arg "from" r)
      else sourceType ← readDocsIngestSourceType r;
           Ok (if bool_decide (sourceType = Some "file") then string_arg "source" r else [])
  end.

(** [extractWritePathCandidates] (write-path-candidates.ts). *)
Definition candidates (intent : ToolWriteIntent) (values : list (option json)) : list WritePathCandidate :=
  map (λ p, mkWriteCandidate p intent) (texts values).
Definition extractWritePathCandidates (w : AccessWorld) (r : ToolAccessEvaluateRequest) : list WritePathCandidate :=
  match rq_args r with
  | None => []
  | Some args =>
      let tool := rq_toolName r in
      let artifact := match w_artifactPath w tool args with Some p => Some (JString p) | None => arg "path" r end in
      if bool_decide (tool ∈ ["fs.write"; "fs.patch"; "artifacts.create"]) then candidates WriteIntent [arg "path" r]
      else if bool_decide (tool ∈ ["documents.create"; "presentations.create"]) then candidates WriteIntent [artifact]
      else if bool_decide (tool = "fs.delete") then candidates DeleteIntent [arg "path" r; arg "from" r]
      else if bool_decide (tool = "fs.copy") then candidates WriteIntent [arg "to" r]
      else if bool_decide (tool = "fs.move") then candidates DeleteIntent [arg "from" r] ++ candidates WriteIntent [arg "to" r]
      else if bool_decide (tool ∈ ["browser.screenshot"; "browser.interact"])
      then candidates WriteIntent [arg "outputPath" r; arg "path" r]
      else []
  end.

(** ** Official searches (research-search-official-providers.ts) *)

Definition lower_text (v : option json) : option string := match v with Some (JString s) => Some (to_lower (trim s)) | _ => None end.

Definition isOfficialResearchSearchInvocation (r : ToolAccessEvaluateRequest) : bool :=
  let backend := lower_text (arg "backend" r) in
  let engine := lower_text (arg "engine" r) in
  if bool_decide (backend ∈ [Some "native"; Some "firecrawl"; Some "ollama"]) then false
  else bool_decide (backend = Some "official") || bool_decide (engine ∈ [Some "brave"; Some "parallel"]) ||
       is_array (arg "providers" r).

Definition resolveOfficialSearchProviders (r : ToolAccessEvaluateRequest) : list string :=
  let engine := lower_text (arg "engine" r) in
  let selected :=
    match array_of (arg "providers" r), array_of (arg "engines" r) with
    | Some l, _ => l
    | None, engines =>
        if bool_decide (engine ∈ [Some "brave"; Some "parallel"]) then [JString <$> engine]
        else match engines with
             | Some l => l
             | None => map (λ p, Some (JString p)) (if is_one ["research"] (arg "mode" r) then ["brave"; "parallel"] else ["brave"])
             end
    end in
  unique (List.filter (λ p, bool_decide (p ∈ ["brave"; "parallel"])) (omap lower_text selected)).

Definition isOfficialSearchRequest (r : ToolAccessEvaluateRequest) : bool :=
  bool_decide (rq_toolName r = "browser.search") && isOfficialResearchSearchInvocation r.

(** The hostname of a provider's address in [OFFICIAL_SEARCH_PROVIDER_URLS]. *)
Definition official_host (provider : string) : string :=
  if bool_decide (provider = "brave") then "api.search.brave.com" else "api.parallel.ai".

Definition normalized_hosts (hosts : list string) : list string := unique (List.filter truthy (map (λ h, to_lower (trim h)) hosts)).

Definition grant_allowedHosts (g : ToolGrantRecord) : list string := default [] (allowedHosts <$> tg_constraints g).

Definition resolveOfficialSearchConsentGrant (r : ToolAccessEvaluateRequest) (allowGrants : list ToolGrantRecord)
    : option ToolGrantRecord :=
  let requiredHosts := unique (map official_host (resolveOfficialSearchProviders r)) in
  if bool_decide (requiredHosts = []) then None
  else List.find (λ g,
         bool_decide (tg_decision g = "allow") && bool_decide (tg_toolPattern g = "browser.search") &&
         (let hosts := normalized_hosts (grant_allowedHosts g) in
          (length hosts =? length requiredHosts)%nat && forallb (λ host, bool_decide (host ∈ hosts)) requiredHosts)) allowGrants.

(** ** Grants (selection) *)

Definition getAllowedGrantHosts (c : option GrantConstraints) : option (list string) :=
  match List.filter truthy (map trim (default [] (allowedHosts <$> c))) with [] => None | hosts => Some hosts end.
Definition getReferenceRootPaths (c : option GrantConstraints) : list string := default [] (referenceRoots <$> c).
Definition getAllowedReadPaths (c : option GrantConstraints) : list string :=
  default [] (allowedPaths <$> c) ++ getReferenceRootPaths c.

Definition matchesHostAllowlist (host : string) (patterns : list string) : bool :=
  let normalizedHost := to_lower host in
  existsb (λ pattern,
    let normalized := trim (to_lower pattern) in
    if negb (truthy normalized) then false
    else if bool_decide (normalized = "*") then true
    else if starts_with "*." normalized then ends_with (string_drop 1 normalized) normalizedHost
    else bool_decide (normalizedHost = normalized)) patterns.

Definition buildScopeCandidates (r : ToolAccessEvaluateRequest) : list (string * string) :=
  let optional scope (ref : option string) := match ref with Some ref => if truthy ref then [(scope, ref)] else [] | None => [] end in
  optional "task" (rq_taskId r) ++ [("agent", rq_agentId r); ("session", rq_sessionId r)] ++ optional "chamber" (rq_chamberId r) ++
  optional "citadel" (rq_citadelId r) ++ optional "workspace" (rq_workspaceId r) ++ [("global", "global")].

Definition first_error (a b : res (option string)) : res (option string) :=
  x ← a; match x with Some reason => Ok (Some reason) | None => b end.
Definition refuse_when (b : bool) (reason : string) : res (option string) := Ok (if b then Some reason else None).

Inductive GrantDecision :=
  | GrantDenies (grant : ToolGrantRecord)
  | GrantAllows (grant : ToolGrantRecord) (allowGrants : list ToolGrantRecord)
  | GrantConstrained (grant : ToolGrantRecord) (constraintsError : string).

(** What one grant says to a request: a reservation of a native run carries the
    grant that it was admitted by and the decision that it is counted as. *)
Record NativeExecutionReservation := mkReservation { nr_grant : option ToolGrantRecord; nr_decisionId : string }.

Definition HOST_CONSTRAINED_BROWSER_SEARCH_GRANT_INAPPLICABLE : string :=
  "host-constrained browser.search grant requires an official or explicit outbound target".
Definition WRITE_ROOT_GRANT_INAPPLICABLE : string := "write-root grant does not apply to this request".

(** ** Asking the operator *)

(** What the last part of [evaluateAccessInternal] goes by. *)
Record EscalationFacts := mkFacts {
  ef_mode : ToolApprovalMode;
  ef_riskLevel : ToolRiskLevel;
  ef_toolRequiresApproval : bool;
  ef_wardEffect : option WardEffect;
  ef_hasAllowGrant : bool;
  ef_mcpApprovalReliefApplied : bool;
  ef_firstMutation : bool;
  ef_shellRisk : option string;
  ef_argumentRisk : option string;
  ef_outsideRead : bool;
  ef_outsideWrite : bool;
  ef_codeModeRunPreapproved : bool;
  ef_isRemoteA2APeer : bool;
  ef_consentRequired : bool;
  ef_codeModeRequest : bool;
}.

Definition wardRequiresApproval (f : EscalationFacts) : bool := bool_decide (ef_wardEffect f = Some ward_require_approval).
Definition some {A} (o : option A) : bool := match o with Some _ => true | None => false end.

(** The reasons that neither bypass mode nor a pre-approved run clears. *)
Definition uncleared (f : EscalationFacts) : bool :=
  wardRequiresApproval f || bool_decide (ef_riskLevel f = tool_nuclear) || some (ef_shellRisk f) || some (ef_argumentRisk f) ||
  ef_outsideRead f || ef_outsideWrite f.

(** [requiresApproval], assignment by assignment. *)
Definition requires_approval (f : EscalationFacts) : bool :=
  let asks := wardRequiresApproval f ||
    (negb (ef_hasAllowGrant f) && negb (ef_mcpApprovalReliefApplied f) &&
     (bool_decide (ef_mode f = approve_all) || ef_toolRequiresApproval f)) in
  let asks := if ef_firstMutation f then true else asks in
  let asks := if bool_decide (ef_riskLevel f = tool_nuclear) then true else asks in
  let asks := if some (ef_shellRisk f) then true else asks in
  let asks := if some (ef_argumentRisk f) then true else asks in
  let asks := if ef_outsideRead f then true else asks in
  let asks := if ef_outsideWrite f then true else asks in
  let asks := if bool_decide (ef_mode f = approve_risky) && negb (bool_decide (ef_riskLevel f = tool_safe)) &&
                 negb (ef_hasAllowGrant f) && negb (ef_mcpApprovalReliefApplied f) then true else asks in
  let asks := if ef_codeModeRunPreapproved f && negb (uncleared f) then false else asks in
  let asks := if bool_decide (ef_mode f = bypass) && negb (ef_isRemoteA2APeer f) && negb (uncleared f) then false else asks in
  let asks := if ef_consentRequired f then true else asks in
  if ef_codeModeRequest f then true else asks.

(** A text between double quotes. *)
Definition in_quotes (s : string) : string := String dquote s +:+ String dquote "".
Definition code_when (b : bool) (code : string) : list string := if b then [code] else [].

Definition ward_code (effect : option WardEffect) : list string :=
  match effect with
  | Some ward_require_dry_run => ["citadel_ward_require_dry_run"]
  | Some ward_route_local => ["citadel_ward_route_local"]
  | Some ward_redact => ["citadel_ward_redact"]
  | _ => []
  end.

Definition mode_codes (f : EscalationFacts) : list string :=
  if bool_decide (ef_mode f = bypass)
  then "approval_bypass_mode" :: code_when (bool_decide (ef_riskLevel f = tool_nuclear)) "nuclear_risk_requires_approval"
  else if ef_mcpApprovalReliefApplied f && negb (ef_hasAllowGrant f) then code_when (negb (requires_approval f)) "mcp_approval_relief"
  else if bool_decide (ef_mode f = approve_all) && negb (ef_hasAllowGrant f) then ["approval_mode_all"]
  else code_when (negb (bool_decide (ef_riskLevel f = tool_safe)) && negb (ef_hasAllowGrant f)) "approval_mode_risky".

Definition mode_reason (f : EscalationFacts) : string :=
  if wardRequiresApproval f then "approval required by Citadel Ward"
  else if bool_decide (ef_mode f = bypass) && bool_decide (ef_riskLevel f = tool_nuclear)
  then "nuclear-risk tools require approval even when normal approvals are bypassed"
  else if ef_codeModeRunPreapproved f && negb (requires_approval f) then "allowed by approved Code Mode run"
  else if bool_decide (ef_mode f = bypass) then "allowed by bypass approval mode"
  else if requires_approval f then "approval required by approval mode"
  else if bool_decide ("mcp_approval_relief" ∈ mode_codes f) then "allowed by the MCP server's approval setting"
  else "allowed".

Definition buildAccessReason (policy : EffectiveToolPolicy) (f : EscalationFacts) : list string * string :=
  (["allowed"] ++
   code_when (truthy_opt (ep_permissionProfileId policy)) "permission_profile" ++
   code_when (truthy_opt (ep_localOperatorOverrideId policy)) "local_operator_override" ++
   code_when (ef_codeModeRunPreapproved f) "approved_code_mode_run" ++
   code_when (wardRequiresApproval f) "citadel_ward_requires_approval" ++
   ward_code (ef_wardEffect f) ++ mode_codes f ++
   code_when (some (ef_shellRisk f)) "shell_risky_requires_approval" ++
   code_when (some (ef_argumentRisk f)) "argument_risky_requires_approval" ++
   code_when (ef_outsideRead f) "outside_roots_read_requires_approval",
   let reason := mode_reason f in
   let reason := match ef_shellRisk f with
                 | Some p => "risky shell command matched policy pattern " +:+ in_quotes p | None => reason end in
   let reason := match ef_argumentRisk f with
                 | Some p => "risky tool argument matched policy pattern " +:+ in_quotes p | None => reason end in
   if ef_outsideRead f then "file access outside trusted roots requires approval" else reason).

(** The codes and the reason with what is added after [buildAccessReason]. *)
Definition access_reason (policy : EffectiveToolPolicy) (f : EscalationFacts) (outside : OutsideRootWriteEvaluation)
    : list string * string :=
  let '(codes, reason) := buildAccessReason policy f in
  let '(codes, reason) :=
    if ef_consentRequired f
    then (codes ++ ["official_search_provider_consent_required"], "official search provider consent is required")
    else (codes, reason) in
  let '(codes, reason) :=
    if ef_codeModeRequest f
    then (codes ++ ["code_mode_request_requires_approval"], "running code needs the operator's approval")
    else (codes, reason) in
  match outside with
  | OutsideRequiresApproval _ _ =>
      (codes ++ ["outside_root_write_requires_approval"], "writing outside the write roots requires approval")
  | OutsideAdmittedByGrant _ _ => (codes ++ ["outside_root_write_grant"], reason)
  | OutsideAdmittedByApproval _ => (codes ++ ["outside_root_write_approved_once"], reason)
  | OutsideNone => (codes, reason)
  end.

#[export] Instance PermissionProfileScope_eq_dec : EqDecision PermissionProfileScope.
Proof. solve_decision. Defined.
#[export] Instance PermissionProfileRecord_eq_dec : EqDecision PermissionProfileRecord.
Proof. solve_decision. Defined.

(** [isDeepStrictEqual] on profiles without fields set to undefined. *)
Definition isExactBuiltInHeartbeatProfile (r : ToolAccessEvaluateRequest) : bool :=
  bool_decide (rq_policyContext r ≫= pc_permissionProfileId = Some HEARTBEAT_PERMISSION_PROFILE_ID) &&
  bool_decide (rq_policyContext r ≫= pc_permissionProfile = Some HEARTBEAT_RESTRICTED_PROFILE).

Section engine.
Context `{Platform} `{Host} `{NodeBuffer} (fs : FileSystem) (sha256_hex : string → string) (fs_message : FsError → string).
Context (e : ToolPolicyEngine) (w : AccessWorld).

(** Errors as values of one type. *)
Definition from_path {A} (r : pres A) : res A :=
  match r with
  | Ok a => Ok a
  | Err (FsThrows err) => Err (JsError (fs_message err))
  | Err (PathThrows message) => Err (JsError message)
  end.
Definition from_guard {A} (r : outcome guard_error A) : res A :=
  match r with
  | Ok a => Ok a
  | Err (GuardError m | HostNotAllowlistedError m _ | MutationOutcomeUnknown _ m) => Err (JsError m)
  end.

(** ** Paths within roots *)

(** [.replaceAll("\\", "/").replace(/\/+$/, "")]. *)
Fixpoint strip_slashes (s : string) : string :=
  match s with
  | EmptyString => EmptyString
  | String c s' => match strip_slashes s' with
                   | EmptyString => if Ascii.eqb c "/"%char then EmptyString else String c EmptyString
                   | t => String c t
                   end
  end.
Definition match_text (p : path) : string := strip_slashes (replace_char "\"%char "/" (path_text p)).

Definition normalizePathForMatch (value : string) : string := match_text (path_resolve cwd [value]).
Definition normalizePathVariantsForMatch (value : string) : list string :=
  let resolvedValue := normalizePathForMatch value in
  match realpathSync fs (path_resolve cwd [value]) with
  | Ok real => let realValue := match_text real in
               if bool_decide (realValue = resolvedValue) then [resolvedValue] else [resolvedValue; realValue]
  | Err _ => [resolvedValue]
  end.
Definition isPathWithinAnyRoot (candidate : string) (roots : list string) : bool :=
  let resolvedCandidate := normalizePathForMatch candidate in
  existsb (λ root, bool_decide (trim root = "*") ||
    existsb (λ resolvedRoot, bool_decide (resolvedCandidate = resolvedRoot) || starts_with (resolvedRoot +:+ "/") resolvedCandidate)
      (normalizePathVariantsForMatch root)) roots.

Definition read_access (target : string) : res ReadPathAccessDecision :=
  from_path (resolveReadPathAccess fs target (toolReadableWriteRoots (eng_sandbox e)) (readOnlyRoots (eng_sandbox e))).

Definition resolvePathForGrantConstraint (pathValue : string) : string :=
  match resolveReadPathAccess fs pathValue (writeJailRoots (eng_sandbox e)) (readOnlyRoots (eng_sandbox e)) with
  | Ok access => path_text (resolvedPath access)
  | Err _ => path_text (path_resolve cwd [pathValue])
  end.

Definition grantAllowsReadPath (resolved : path) (g : ToolGrantRecord) : bool :=
  match getAllowedReadPaths (tg_constraints g) with
  | [] => false
  | allowed => isPathWithinAnyRoot (path_text resolved) allowed
  end.
Definition anyGrantAllowsReadPath (grants : list ToolGrantRecord) (resolved : path) : bool :=
  existsb (grantAllowsReadPath resolved) grants.

Definition hasApprovalBypass : bool := bool_decide (is_Some (w_verifiedApprovalId w)).

(** ** The constraints of a grant *)

Definition evaluateOutsideRootWritesFor (r : ToolAccessEvaluateRequest) (allowGrants : list ToolGrantRecord) (ignoreApproval : bool)
    : res OutsideRootWriteEvaluation :=
  from_path (evaluateOutsideRootWrites fs sha256_hex (rq_toolName r) (rq_policyContext r ≫= pc_authActorSource)
    (extractWritePathCandidates w r) allowGrants (eng_sandbox e) (w_outsideRootWriteEligible w)
    (if ignoreApproval then None else w_verifiedApprovalId w) (w_registeredTargets w)).

Definition count_scope (r : ToolAccessEvaluateRequest) (g : ToolGrantRecord) (reservation : option NativeExecutionReservation)
    : CountScope :=
  mkCountScope (tg_scope g) (rq_agentId r) (rq_sessionId r) (rq_workspaceId r) (rq_taskId r) (nr_decisionId <$> reservation).

(** The name that a grant's calls are counted by. *)
Definition counted_name (r : ToolAccessEvaluateRequest) (g : ToolGrantRecord) (policyName : option string) : string :=
  match policyName with
  | Some name => if truthy name && matchesToolPattern (tg_toolPattern g) name then name else rq_toolName r
  | None => rq_toolName r
  end.

Definition hourly_calls r g policyName reservation : res Z :=
  countToolCallsInLastHourInScope (w_sessionWorkspace w) (w_now w) (counted_name r g policyName) (count_scope r g reservation)
    (w_decisions w).
Definition hourly_writes r g reservation : res Z :=
  countWritesInLastHourInScope (w_sessionWorkspace w) (w_now w) (count_scope r g reservation) (w_decisions w).

Definition write_roots_constraint r g (c : GrantConstraints) : res (option string) :=
  match writeRoots c with
  | None => Ok None
  | Some _ =>
      admission ← evaluateOutsideRootWritesFor r [g] true;
      refuse_when (match admission with OutsideAdmittedByGrant _ _ => false | _ => true end) WRITE_ROOT_GRANT_INAPPLICABLE
  end.

Definition calls_constraint r g policyName reservation (c : GrantConstraints) : res (option string) :=
  match maxCallsPerHour c with
  | None => Ok None
  | Some max =>
      count ← hourly_calls r g policyName reservation;
      refuse_when (max <=? count) ("grant maxCallsPerHour exceeded (" +:+ pretty max +:+ ")")
  end.

Definition writes_constraint r g (def : option ToolDefinition) reservation (c : GrantConstraints) : res (option string) :=
  match maxWritesPerHour c with
  | None => Ok None
  | Some max =>
      if negb (isMutationTool def) then Ok None
      else
        count ← hourly_writes r g reservation;
        refuse_when (max <=? count) ("grant maxWritesPerHour exceeded (" +:+ pretty max +:+ ")")
  end.

Definition hosts_constraint r (c : GrantConstraints) : res (option string) :=
  let docs := bool_decide (rq_toolName r = "docs.ingest") in
  if bool_decide (allowedHosts c = []) then Ok None
  else if docs && negb (bool_decide (readDocsIngestSourceTypeIfValid r = Some "url"))
  then Ok (Some "grant host constraints require a URL docs.ingest source")
  else
    let '(hosts, blockedReason) := w_grantHosts w r in
    if truthy_opt blockedReason then Ok blockedReason
    else if bool_decide (hosts = []) && bool_decide (rq_toolName r = "browser.search")
    then Ok (Some HOST_CONSTRAINED_BROWSER_SEARCH_GRANT_INAPPLICABLE)
    else if bool_decide (hosts = []) && docs then Ok (Some "grant host constraints require a URL docs.ingest source")
    else refuse_when (existsb (λ host, negb (matchesHostAllowlist host (allowedHosts c))) hosts)
           "grant host constraints blocked this action".

Definition constrained_paths r : list string := map resolvePathForGrantConstraint (extractGrantPathCandidates r).

Definition paths_constraint r (def : option ToolDefinition) (c : GrantConstraints) : res (option string) :=
  let docs := bool_decide (rq_toolName r = "docs.ingest") in
  if bool_decide (allowedPaths c = []) then Ok None
  else if docs && negb (bool_decide (readDocsIngestSourceTypeIfValid r = Some "file"))
  then Ok (Some "grant path constraints require a file docs.ingest source")
  else if bool_decide (constrained_paths r = []) &&
          (requiresExplicitPathForGrantConstraints (rq_toolName r) || docs || hasRequiredPathArgument def)
  then Ok (Some "grant path constraints require an explicit output path")
  else refuse_when (existsb (λ candidate, negb (isPathWithinAnyRoot candidate (allowedPaths c))) (constrained_paths r))
         "grant path constraints blocked this action".

Definition references_constraint r (def : option ToolDefinition) (c : GrantConstraints) : res (option string) :=
  if bool_decide (referenceRoots c = []) then Ok None
  else if bool_decide (constrained_paths r = []) && requiresExplicitPathForGrantConstraints (rq_toolName r)
  then Ok (Some "grant path constraints require an explicit output path")
  else refuse_when (isMutationTool def && existsb (λ candidate, isPathWithinAnyRoot candidate (referenceRoots c)) (constrained_paths r))
         "reference roots are read-only".

Definition applyGrantConstraints r g (def : option ToolDefinition) (policyName : option string)
    (reservation : option NativeExecutionReservation) : res (option string) :=
  match tg_constraints g with
  | None => Ok None
  | Some c =>
      first_error (write_roots_constraint r g c)
      (first_error (refuse_when (bool_decide (mutationAllowed c = Some false) && isMutationTool def) "grant disallows mutation actions")
      (first_error (calls_constraint r g policyName reservation c)
      (first_error (writes_constraint r g def reservation c)
      (first_error (hosts_constraint r c)
      (first_error (paths_constraint r def c) (references_constraint r def c))))))
  end.

(** ** The choice of a grant *)

Definition grant_names r (policyName : option string) (g : ToolGrantRecord) : bool :=
  matchesToolPattern (tg_toolPattern g) (rq_toolName r) ||
  match policyName with Some name => matchesToolPattern (tg_toolPattern g) name | None => false end.

Definition grants_of_scope r policyName (candidate : string * string) : list ToolGrantRecord :=
  List.filter (λ g, bool_decide (tg_scope g = candidate.1) && bool_decide (tg_scopeRef g = candidate.2) && grant_names r policyName g)
    (listActive (w_clock w) (Some candidate.1) (Some candidate.2) (w_grants w)).

Definition same_scope (g : ToolGrantRecord) (candidate : string * string) : bool :=
  bool_decide (candidate.1 = tg_scope g) && bool_decide (candidate.2 = tg_scopeRef g).

(** The grant of the reservation joins the first scope that is its own. *)
Fixpoint with_reserved r (reserved : ToolGrantRecord) (scopes : list ((string * string) * list ToolGrantRecord))
    : list ((string * string) * list ToolGrantRecord) :=
  match scopes with
  | [] => []
  | (candidate, grants) :: scopes =>
      if same_scope reserved candidate then
        (candidate,
         if matchesToolPattern (tg_toolPattern reserved) (rq_toolName r) &&
            negb (existsb (λ g, bool_decide (tg_grantId g = tg_grantId reserved)) grants)
         then grants ++ [reserved] else grants) :: scopes
      else (candidate, grants) :: with_reserved r reserved scopes
  end.

Definition matching_grants r policyName (reservation : option NativeExecutionReservation) : list ToolGrantRecord :=
  let scopes := map (λ candidate, (candidate, grants_of_scope r policyName candidate)) (buildScopeCandidates r) in
  let scopes := match reservation ≫= nr_grant with Some reserved => with_reserved r reserved scopes | None => scopes end in
  concat (map snd scopes).

Definition is_decision (d : string) (g : ToolGrantRecord) : bool := bool_decide (tg_decision g = d).

(** The loop over the allow grants: those that apply, and the first that is
    refused by a constraint. *)
Fixpoint allow_grants r (def : option ToolDefinition) policyName reservation (grants : list ToolGrantRecord)
    : res (list ToolGrantRecord * option (ToolGrantRecord * string)) :=
  match grants with
  | [] => Ok ([], None)
  | g :: grants =>
      if negb (is_decision "allow" g) then allow_grants r def policyName reservation grants
      else
        constraintsError ← applyGrantConstraints r g def policyName reservation;
        rest ← allow_grants r def policyName reservation grants;
        match constraintsError with
        | None => Ok (g :: rest.1, rest.2)
        | Some reason =>
            if bool_decide (reason ∈ [HOST_CONSTRAINED_BROWSER_SEARCH_GRANT_INAPPLICABLE; WRITE_ROOT_GRANT_INAPPLICABLE])
            then Ok rest else Ok (rest.1, Some (g, reason))
        end
  end.

Definition resolveGrantDecision r (def : option ToolDefinition) (policyName : option string)
    (reservation : option NativeExecutionReservation) : res (option GrantDecision) :=
  let matchingGrants := matching_grants r policyName reservation in
  match List.find (is_decision "deny") matchingGrants with
  | Some denyGrant => Ok (Some (GrantDenies denyGrant))
  | None =>
      allowed ← allow_grants r def policyName reservation matchingGrants;
      Ok (match allowed with
          | ((g :: _) as allowedGrants, _) => Some (GrantAllows g allowedGrants)
          | ([], Some (g, reason)) => Some (GrantConstrained g reason)
          | ([], None) => None
          end)
  end.

Definition isFirstMutationInScope r g policyName : res bool :=
  count ← hourly_calls r g policyName None; Ok (count =? 0).

(** ** Reads outside the roots *)

(** [validateReadPaths]: the first target that is refused ends the loop. *)
Fixpoint validate_reads (mode : FilesystemReadAccessMode) (allowGrants : list ToolGrantRecord) (targets : list string)
    : res (option string) :=
  match targets with
  | [] => Ok None
  | target :: targets =>
      access ← read_access target;
      if withinRoots access || bool_decide (mode = full_disk) || (bool_decide (mode = ToolPolicy.approval_required) && hasApprovalBypass) ||
         anyGrantAllowsReadPath allowGrants (resolvedPath access) || bool_decide (mode = ToolPolicy.approval_required)
      then validate_reads mode allowGrants targets
      else Ok (Some ("Path is outside read allowlist: " +:+ path_text (resolvedPath access)))
  end.
Definition validateReadPaths r (policy : EffectiveToolPolicy) (allowGrants : list ToolGrantRecord) : res (option string) :=
  targets ← extractReadPathCandidates r; validate_reads (ep_readAccessMode policy) allowGrants targets.

Fixpoint outside_read (allowGrants : list ToolGrantRecord) (targets : list string) : res bool :=
  match targets with
  | [] => Ok false
  | target :: targets =>
      access ← read_access target;
      if negb (withinRoots access) && negb (anyGrantAllowsReadPath allowGrants (resolvedPath access)) then Ok true
      else outside_read allowGrants targets
  end.
Definition requiresApprovalForOutsideRootsRead r (policy : EffectiveToolPolicy) (allowGrants : list ToolGrantRecord) : res bool :=
  if negb (bool_decide (ep_readAccessMode policy = ToolPolicy.approval_required)) || hasApprovalBypass then Ok false
  else targets ← extractReadPathCandidates r; outside_read allowGrants targets.

Fixpoint reading_grant (allowGrants : list ToolGrantRecord) (targets : list string) : res (option ToolGrantRecord) :=
  match targets with
  | [] => Ok None
  | target :: targets =>
      access ← read_access target;
      if withinRoots access then reading_grant allowGrants targets
      else match List.find (grantAllowsReadPath (resolvedPath access)) allowGrants with
           | Some g => Ok (Some g)
           | None => reading_grant allowGrants targets
           end
  end.
Definition resolveGrantForOutsideRootsRead r (policy : EffectiveToolPolicy) (allowGrants : list ToolGrantRecord)
    : res (option ToolGrantRecord) :=
  if bool_decide (allowGrants = []) || bool_decide (ep_readAccessMode policy = full_disk) ||
     (bool_decide (ep_readAccessMode policy = ToolPolicy.approval_required) && hasApprovalBypass) then Ok None
  else targets ← extractReadPathCandidates r; reading_grant allowGrants targets.
Definition resolveEffectiveAllowGrant r policy (fallback : ToolGrantRecord) (allowGrants : list ToolGrantRecord) : res ToolGrantRecord :=
  g ← resolveGrantForOutsideRootsRead r policy allowGrants; Ok (default fallback g).

(** ** Structural safety *)

Definition networkAllowlist : list string := sb_networkAllowlist (cfg_sandbox (eng_config e)).
Definition assertHostAllowedForRequest (hostOrUrl : string) r : res unit :=
  from_guard (assertHostAllowed hostOrUrl (if hasFullWebAccess r then networkAllowlist ++ ["*"] else networkAllowlist)).

Definition outside_paths (r : ToolAccessEvaluateRequest) : list string :=
  map wc_path (List.filter (λ c, negb (isInsideToolWriteRoots fs (wc_path c) (eng_sandbox e))) (extractWritePathCandidates w r)).

Definition check_write_target r (referenceRoots : list string) (outside : OutsideRootWriteEvaluation) (c : WritePathCandidate)
    : res unit :=
  let hard := assertNotHardForbiddenWritePath (path_text (path_resolve cwd [wc_path c])) (eng_sandbox e) in
  let gate admission := _ ← assertToolWritePath fs (wc_path c) (eng_sandbox e) (wc_intent c) admission; Ok tt in
  from_path (
    if negb (bool_decide (referenceRoots = [])) && isPathWithinAnyRoot (wc_path c) referenceRoots then hard
    else if bool_decide (wc_path c ∈ outside_paths r) then
      match outside with
      | OutsideAdmittedByGrant roots _ | OutsideAdmittedByApproval roots => gate (Some roots)
      | OutsideRequiresApproval _ _ => hard
      | OutsideNone => gate None
      end
    else gate None).

Fixpoint check_write_targets r referenceRoots outside (cs : list WritePathCandidate) : res unit :=
  match cs with
  | [] => Ok tt
  | c :: cs => _ ← check_write_target r referenceRoots outside c; check_write_targets r referenceRoots outside cs
  end.

(** The checks of the network tools, each as [undefined] or a thrown message. *)
Definition check_http r : res (option string) :=
  if starts_with "http." (rq_toolName r) || bool_decide (rq_toolName r = "webhook.send") then
    let url := present (arg "url" r) in
    let target := string_or_empty (match url with Some _ => url | None => arg "host" r end) in
    if negb (truthy target) then Ok (Some (rq_toolName r +:+ " requires a url or host target."))
    else _ ← assertHostAllowedForRequest target r; Ok None
  else Ok None.

Definition check_docs_ingest r : res (option string) :=
  sourceType ← readDocsIngestSourceType r;
  if negb (bool_decide (sourceType = Some "url")) then
    (match sourceType with Some _ => _ ← readDocsIngestBackend r; Ok None | None => Ok None end)
  else
    backend ← readDocsIngestBackend r;
    let source := string_or_empty (arg "source" r) in
    _ ← (if truthy source then assertHostAllowedForRequest source r else Ok tt);
    _ ← (if bool_decide (backend = "firecrawl") then w_firecrawlEndpoint w (rq_args r) else Ok tt);
    Ok None.

Definition check_browser r : res (option string) :=
  if negb (starts_with "browser." (rq_toolName r)) then Ok None
  else
    let target := string_or_empty (arg "url" r) in
    _ ← (if truthy target then assertHostAllowedForRequest target r else Ok tt);
    _ ← (if bool_decide (lower_text (arg "backend" r) = Some "firecrawl") then w_firecrawlEndpoint w (rq_args r) else Ok tt);
    _ ← (if bool_decide (rq_toolName r = "browser.search") then w_searchHosts w r else Ok tt);
    _ ← (if bool_decide (rq_toolName r = "browser.interact") then w_interactionSteps w (default [] (rq_args r)) else Ok tt);
    Ok None.

(** [try { ... } catch (error) { return error.message }]. *)
Definition validateStructuralSafety r policy (allowGrants : list ToolGrantRecord) (outside : OutsideRootWriteEvaluation) : option string :=
  let writeTargets := extractWritePathCandidates w r in
  let references := getReferenceRootPaths (head allowGrants ≫= tg_constraints) in
  match first_error (validateReadPaths r policy allowGrants)
       (first_error (refuse_when (requiresExplicitWritePath (rq_toolName r) && bool_decide (map wc_path writeTargets = []))
                       (rq_toolName r +:+ " requires a target path."))
       (_ ← check_write_targets r references outside writeTargets;
        first_error (check_http r) (first_error (check_docs_ingest r) (check_browser r)))) with
  | Ok reason => reason
  | Err error => Some (error_message error)
  end.

(** ** The decision *)

(** What the evaluation goes by when no gate refuses. *)
Record AdmittedAccess := mkAdmitted {
  aa_policy : EffectiveToolPolicy;
  aa_allowGrants : list ToolGrantRecord;
  aa_grant : option ToolGrantRecord;
  aa_outsideRootWrite : OutsideRootWriteEvaluation;
  aa_officialSearchRequest : bool;
  aa_facts : EscalationFacts;
}.

Definition effective_policy r : EffectiveToolPolicy :=
  resolveEffectivePolicy (w_now w) (policyConfig e) (rq_agentId r) (rq_policyContext r ≫= pc_permissionProfile)
    (rq_policyContext r ≫= pc_localOperatorOverride).

Definition evaluateCitadelWards (citadelId : string) (actions : list string) : option WardEffect :=
  (λ listWards, evaluateWardsForActions (listWards citadelId) actions) <$> w_listWards w.
Definition raw_ward_effect r (toolNames : list string) : option WardEffect :=
  match rq_citadelId r with
  | Some citadelId => if truthy citadelId then evaluateCitadelWards citadelId toolNames else None
  | None => None
  end.

(** The gates in front of the database: [inl] is the refusal, [inr] the tool. *)
Definition policy_gates r (ip : InvocationPolicy) (policy : EffectiveToolPolicy) (toolNames : list string) (ownDelivery : bool)
    : AccessEvaluation + ToolDefinition :=
  let riskLevel := default tool_caution (td_riskLevel <$> ip_toolDef ip) in
  let refuse code reason := inl (deny riskLevel code reason) in
  if existsb (matchesAnyToolPattern (ep_denySet policy)) toolNames then refuse "policy_deny" "tool denied by policy"
  else match (if ownDelivery then None
              else List.find (λ name, bool_decide (is_Some (ep_switchedOffTools policy !! name))) toolNames) with
       | Some name => inl (switchedOffDenial e name (rq_toolName r) riskLevel)
       | None =>
           match ip_toolDef ip with
           | None => refuse "unknown_tool" ("unknown tool " +:+ rq_toolName r)
           | Some def =>
               match rq_policyContext r ≫= pc_permissionProfile with
               | None => inr def
               | Some profile =>
                   if negb (bool_decide (pp_status profile = profile_active))
                   then refuse "permission_profile_upper_bound" "permission profile is not active"
                   else if negb (existsb (matchesAnyToolPattern (unique (pp_toolPatterns profile))) toolNames)
                   then refuse "permission_profile_upper_bound" "tool not available in resolved policy"
                   else inr def
               end
           end
       end.

(** [grantDecision?.decision === "allow"]: the grant, the grants for the later
    checks ([grantDecision.allowGrants ?? [grant]], none for an official search
    with a constraint error), and the constraint error. *)
Definition allowing (d : option GrantDecision) (officialSearch : bool)
    : option ToolGrantRecord * list ToolGrantRecord * option string :=
  match d with
  | Some (GrantAllows g grants) => (Some g, grants, None)
  | Some (GrantConstrained g reason) => (Some g, if officialSearch then [] else [g], Some reason)
  | Some (GrantDenies _) | None => (None, [], None)
  end.

Definition grant_refusal (code reason : string) (g : ToolGrantRecord) (riskLevel : ToolRiskLevel) : AccessEvaluation :=
  deny riskLevel code reason <| ev_matchedGrantId := Some (tg_grantId g) |>.

(** What the decision goes by once no gate refuses. *)
Definition admitted_access r (ip : InvocationPolicy) (policy : EffectiveToolPolicy) (def : ToolDefinition)
    (wardEffect : option WardEffect) (officialSearch : bool) (grant : option ToolGrantRecord) (allowGrants : list ToolGrantRecord)
    (hasAllowGrant : bool) (outside : OutsideRootWriteEvaluation) : res AdmittedAccess :=
  let riskLevel := td_riskLevel def in
  let isRemoteA2APeer := bool_decide (rq_policyContext r ≫= pc_authActorSource = Some "a2a_peer") in
  outsideRead ← requiresApprovalForOutsideRootsRead r policy allowGrants;
  firstMutation ←
    (match grant with
     | Some g =>
         if bool_decide (riskLevel = tool_danger) && isMutationTool (Some def) then
           effective ← resolveEffectiveAllowGrant r policy g allowGrants;
           isFirstMutationInScope r effective (policyToolName <$> ip_mappedTarget ip)
         else Ok false
     | None => Ok false
     end);
  Ok (mkAdmitted policy allowGrants grant outside officialSearch
    (mkFacts (ep_approvalMode policy) riskLevel (td_requiresApproval def) wardEffect hasAllowGrant
       (ip_mcpApprovalRelief ip && negb isRemoteA2APeer) firstMutation
       (evaluateShellRisk (cfg_sandbox (eng_config e)) (rq_toolName r) (args_value r))
       (fst <$> evaluateArgumentRisk (cfg_sandbox (eng_config e)) (rq_toolName r) (args_value r))
       outsideRead (match outside with OutsideRequiresApproval _ _ => true | _ => false end)
       (truthy_opt (rq_policyContext r ≫= pc_approvedCodeModeRunId)) isRemoteA2APeer
       (officialSearch && negb (some (resolveOfficialSearchConsentGrant r allowGrants)))
       (bool_decide (rq_toolName r = CODE_MODE_REQUEST_TOOL_NAME)))).

(** The gates behind the choice of a grant. *)
Definition later_gates r (ip : InvocationPolicy) (policy : EffectiveToolPolicy) (toolNames : list string) (def : ToolDefinition)
    (wardEffect : option WardEffect) (officialSearch : bool)
    (choice : option ToolGrantRecord * list ToolGrantRecord * option string) : res (AccessEvaluation + AdmittedAccess) :=
  let '(grant, allowGrants, constraintsError) := choice in
  let riskLevel := td_riskLevel def in
  let refuse ev := Ok (inl (withPolicy policy ev)) in
  outside ← evaluateOutsideRootWritesFor r allowGrants false;
  let structuralError := validateStructuralSafety r policy allowGrants outside in
  if truthy_opt structuralError then refuse (deny riskLevel "structural_safety_block" (default "" structuralError))
  else
    trust ← resolveToolTrustLevel (trust_fields r);
    if isUntrustedToolEscalation trust (ip_capabilityPolicy ip) then
      refuse (deny riskLevel "untrusted_source_privileged_tool_block"
        ("tool " +:+ rq_toolName r +:+
         " is blocked because untrusted external content cannot escalate into privileged execution"))
    else
      let constraintRefusal :=
        match grant, constraintsError with
        | Some g, Some reason => if officialSearch then None else Some (grant_refusal "grant_constraints_block" reason g riskLevel)
        | _, _ => None
        end in
      match constraintRefusal with
      | Some refusal => refuse refusal
      | None =>
          let inProfile := existsb (matchesAnyToolPattern (ep_effectiveTools policy)) toolNames in
          let hasAllowGrant := some grant && negb (some constraintsError) in
          if negb inProfile && negb hasAllowGrant
          then refuse (deny riskLevel "policy_disallow" "tool not available in resolved policy")
          else a ← admitted_access r ip policy def wardEffect officialSearch grant allowGrants hasAllowGrant outside; Ok (inr a)
      end.

(** The choice of a grant and the gates behind it. *)
Definition grant_gates r (ip : InvocationPolicy) (policy : EffectiveToolPolicy) (toolNames : list string) (def : ToolDefinition)
    (wardEffect : option WardEffect) (reservation : option NativeExecutionReservation) (nativeInstallation : bool)
    : res (AccessEvaluation + AdmittedAccess) :=
  selectedGrant ← resolveGrantDecision r (Some def) (policyToolName <$> ip_mappedTarget ip) reservation;
  match selectedGrant with
  | Some (GrantDenies g) =>
      Ok (inl (withPolicy policy (grant_refusal "grant_deny" "tool denied by scoped grant" g (td_riskLevel def))))
  | _ =>
      let officialSearch := isOfficialSearchRequest r in
      let grantDecision := if nativeInstallation then None else selectedGrant in
      later_gates r ip policy toolNames def wardEffect officialSearch (allowing grantDecision officialSearch)
  end.

(** The answer behind the gates. *)
Definition final_evaluation r (a : AdmittedAccess) : res AccessEvaluation :=
  let f := aa_facts a in
  let '(reasonCodes, policyReason) := access_reason (aa_policy a) f (aa_outsideRootWrite a) in
  if requires_approval f && isExactBuiltInHeartbeatProfile r then
    Ok (withPolicy (aa_policy a)
          (deny (ef_riskLevel f) "" "silent heartbeat tool escalation is blocked because interactive approval is unavailable"
             <| ev_reasonCodes := unique (reasonCodes ++ ["heartbeat_interactive_approval_forbidden"]) |>))
  else
    effectiveAllowGrant ←
      (if aa_officialSearchRequest a then Ok (resolveOfficialSearchConsentGrant r (aa_allowGrants a))
       else match aa_outsideRootWrite a, aa_grant a with
            | OutsideAdmittedByGrant _ g, _ => Ok (Some g)
            | _, Some g => g' ← resolveEffectiveAllowGrant r (aa_policy a) g (aa_allowGrants a); Ok (Some g')
            | _, None => Ok None
            end);
    let grantId := tg_grantId <$> effectiveAllowGrant in
    Ok (withPolicy (aa_policy a)
          (mkEvaluation true reasonCodes (requires_approval f) grantId (ef_riskLevel f) policyReason grantId None None None
             (effectiveAllowGrant ≫= λ g, getAllowedGrantHosts (tg_constraints g)) None
             (match aa_outsideRootWrite a with OutsideRequiresApproval targets cs => Some (targets, cs) | _ => None end))).

(** The effect that callers see: none when no Ward matched, or one that allows. *)
Definition matched_ward_effect (raw : option WardEffect) : option WardEffect :=
  match raw with Some ward_allow => None | effect => effect end.

Definition installation_policy (input : ToolAccessEvaluateRequest) : InvocationPolicy :=
  mkInvocation None (Some NATIVE_INSTALLATION_POLICY) (rq_toolName input) input false
    (capability_of (td_name NATIVE_INSTALLATION_POLICY) (Some NATIVE_INSTALLATION_POLICY)).

(** What the request is evaluated as, and the names that it goes by. *)
Definition invocation_of (input : ToolAccessEvaluateRequest) (options : ToolPolicyEvaluateOptions) (nativeInstallation : bool)
    : res InvocationPolicy :=
  if nativeInstallation then Ok (installation_policy input) else resolveInvocationPolicy e input options.
Definition tool_names (ip : InvocationPolicy) : list string :=
  rq_toolName (ip_evaluationRequest ip) :: match ip_mappedTarget ip with Some b => [policyToolName b] | None => [] end.

Definition evaluateAccessInternal (input : ToolAccessEvaluateRequest) (options : ToolPolicyEvaluateOptions)
    (reservation : option NativeExecutionReservation) (nativeInstallation : bool) : res AccessEvaluation :=
  ip ← invocation_of input options nativeInstallation;
  let r := ip_evaluationRequest ip in
  let policy := effective_policy r in
  match policy_gates r ip policy (tool_names ip) (ownDelivery options) with
  | inl refusal => Ok (withPolicy policy refusal)
  | inr def =>
      let raw := raw_ward_effect r (tool_names ip) in
      let wardEffect := matched_ward_effect raw in
      if bool_decide (raw = Some ward_deny)
      then Ok (withWard wardEffect (withPolicy policy
             (deny (td_riskLevel def) "citadel_ward_deny" ("tool " +:+ rq_toolName r +:+ " denied by a Citadel Ward"))))
      else
        gates ← grant_gates r ip policy (tool_names ip) def wardEffect reservation nativeInstallation;
        evaluation ←
          (match gates with
           | inl refusal => Ok refusal
           | inr admitted => final_evaluation r admitted
           end);
        Ok (withWard wardEffect evaluation)
  end.

(** ** The callers *)

Record ToolAccessEvaluateResponse := mkResponse {
  re_toolName : string;
  re_allowed : bool;
  re_reasonCodes : list string;
  re_requiresApproval : bool;
  re_matchedGrantId : option string;
  re_riskLevel : ToolRiskLevel;
  re_permissionProfileId : option string;
  re_localOperatorOverrideId : option string;
  re_wardEffect : option WardEffect;
}.
Definition toToolAccessEvaluateResponse (toolName : string) (ev : AccessEvaluation) : ToolAccessEvaluateResponse :=
  mkResponse toolName (ev_allowed ev) (ev_reasonCodes ev) (ev_requiresApproval ev) (ev_matchedGrantId ev) (ev_riskLevel ev)
    (ev_permissionProfileId ev) (ev_localOperatorOverrideId ev) (ev_wardEffect ev).

Definition inspectAccess input options : res ToolAccessEvaluateResponse :=
  ev ← evaluateAccessInternal input options None false;
  Ok (toToolAccessEvaluateResponse (rq_toolName input) ev).

Definition logged (input : ToolAccessEvaluateRequest) (ip : InvocationPolicy) (ev : AccessEvaluation) (requiresApproval counts : bool)
    : ToolAccessDecisionInput :=
  mkDecisionInput (ip_accountingToolName ip) (policyToolName <$> ip_mappedTarget ip) (rq_agentId input) (rq_sessionId input)
    (rq_workspaceId input) (rq_taskId input) (rq_runId input) (ev_allowed ev) (ev_reasonCodes ev) (ev_matchedGrantId ev)
    requiresApproval (ev_riskLevel ev) (ev_permissionProfileId ev) (ev_localOperatorOverrideId ev) (Some counts).

Definition evaluateAccess (decisionId now : string) input options : decisions ToolAccessEvaluateResponse :=
  ip ← lift (resolveInvocationPolicy e input options);
  ev ← lift (evaluateAccessInternal input options None false);
  record decisionId now (logged input ip ev (ev_requiresApproval ev) false) ;;
  mret (toToolAccessEvaluateResponse (rq_toolName input) ev).

(** [dryRun] is [request.dryRun === true]; the tables of the world are those that
    the transaction reads. *)
Definition evaluateInvocationAccess (decisionId now : string) input options (dryRun approved : bool) : decisions AccessEvaluation :=
  ip ← lift (resolveInvocationPolicy e input options);
  transaction (
    ev ← lift (evaluateAccessInternal input options None false);
    record decisionId now
      (logged input ip ev (if approved then false else ev_requiresApproval ev)
         (ev_allowed ev && (approved || (negb (ev_requiresApproval ev) && negb dryRun)))) ;;
    mret ev).
End engine.
