(* ===== verification/AccessTheorems.v ===== *)
(** * What the access decision guarantees

    When a request may run without an operator, which refusals nothing overrides,
    and how grants bound what they allow; then the decision at work. *)
From stdpp Require Import pretty.
From S2P Require Import Prelude.
From S2P Require Import JsString.
From S2P Require Import JsTime.
From S2P Require Import JsJson.
From S2P Require Import JsJsonText.
From S2P Require Import JsObject.
From S2P Require Import Errors.
From S2P Require Import ToolGroups.
From S2P Require Import ToolPatterns.
From S2P Require Import ToolPolicy.
From S2P Require Import NetworkGuard.
From S2P Require Import FileSystem.
From S2P Require Import PathJail.
From S2P Require Import ToolWriteGate.
From S2P Require Import OutsideRootWrite.
From S2P Require Import ShellRisk.
From S2P Require Import RiskGates.
From S2P Require Import ToolRequests.
From S2P Require Import ToolTrust.
From S2P Require Import ToolGrants.
From S2P Require Import AccessLog.
From S2P Require Import AccessDecision.
From S2P Require Import GuardedFetch.

(** ** Wards *)

(** How strict an effect is; the strictest of the matching Wards applies. *)
Definition ward_rank (effect : WardEffect) : nat :=
  match effect with
  | ward_allow => 0 | ward_redact => 1 | ward_route_local => 2 | ward_require_dry_run => 3 | ward_require_approval => 4 | ward_deny => 5
  end.
Definition ward_matches (actions : list string) (w : CitadelWard) : bool :=
  existsb (wardMatchesAction (wd_actionPattern w)) actions.

(** The strictest Ward wins, whatever their order: the effect for an invocation is
    that of some Ward that matches one of its names, or none is in force, and no
    matching Ward is stricter than it. *)
Theorem strictest_ward_wins wards actions :
  let effect := evaluateWardsForActions wards actions in
  (effect = ward_allow ∨ ∃ w, w ∈ wards ∧ ward_matches actions w = true ∧ wd_effect w = effect) ∧
  ∀ w, w ∈ wards → ward_matches actions w = true → (ward_rank (wd_effect w) ≤ ward_rank effect)%nat.
Proof.
  cbv zeta. unfold evaluateWardsForActions. fold (ward_matches actions).
  set (matching := List.filter _ wards).
  assert (∀ w, w ∈ matching ↔ w ∈ wards ∧ ward_matches actions w = true) as Hm
    by (intros w; subst matching; by rewrite list_elem_of_In, filter_In, <-list_elem_of_In).
  assert (∀ x, existsb (has_effect x) matching = true ↔ ∃ w, w ∈ matching ∧ wd_effect w = x) as Hx.
  { intros x. rewrite existsb_exists. setoid_rewrite list_elem_of_In. unfold has_effect. by setoid_rewrite bool_decide_eq_true. }
  assert (∀ x, existsb (has_effect x) matching = false → ∀ w, w ∈ matching → wd_effect w ≠ x) as Hno.
  { intros x Hf w Hw He. apply not_true_iff_false in Hf. apply Hf, Hx. eauto. }
  repeat match goal with
  | |- context [existsb (has_effect ?x) matching] => destruct (existsb (has_effect x) matching) eqn:?; cbv iota
  end.
  all: split; [try by left|].
  all: try match goal with H : _ = true |- _ ∨ _ => right; apply Hx in H as (w & [? ?]%Hm & ?); by exists w end.
  all: intros w Hw Hmat; pose proof (proj2 (Hm w) (conj Hw Hmat)) as Hin;
    destruct (wd_effect w) eqn:Ew; cbn; try lia; exfalso; refine (Hno _ _ w Hin Ew); assumption.
Qed.

(** ** When the operator is asked *)

Lemma asks_if (b x : bool) : (if b then true else x) = false ↔ b = false ∧ x = false.
Proof. destruct b; intuition congruence. Qed.
Lemma clears_if (b x : bool) : (if b then false else x) = false ↔ b = true ∨ x = false.
Proof. destruct b; intuition congruence. Qed.

(** Nothing on the way asks: no first mutation, and the mode does not, or a grant
    or the relief stands in for it. *)
Definition mode_silent (f : EscalationFacts) : Prop :=
  ef_firstMutation f = false ∧
  (ef_hasAllowGrant f = true ∨ ef_mcpApprovalReliefApplied f = true ∨
   (ef_mode f ≠ approve_all ∧ ef_toolRequiresApproval f = false ∧ (ef_mode f = approve_risky → ef_riskLevel f = tool_safe))).

Lemma uncleared_false f : uncleared f = false ↔
  ef_wardEffect f ≠ Some ward_require_approval ∧ ef_riskLevel f ≠ tool_nuclear ∧ ef_shellRisk f = None ∧ ef_argumentRisk f = None ∧
  ef_outsideRead f = false ∧ ef_outsideWrite f = false.
Proof.
  unfold uncleared, wardRequiresApproval, some. rewrite !orb_false_iff, !bool_decide_eq_false.
  destruct (ef_shellRisk f), (ef_argumentRisk f); intuition congruence.
Qed.

Lemma mode_asks (mode : ToolApprovalMode) (risk : ToolRiskLevel) (grant relief tool : bool) :
  bool_decide (mode = approve_risky) && negb (bool_decide (risk = tool_safe)) && negb grant && negb relief = false ∧
  negb grant && negb relief && (bool_decide (mode = approve_all) || tool) = false ↔
  grant = true ∨ relief = true ∨ (mode ≠ approve_all ∧ tool = false ∧ (mode = approve_risky → risk = tool_safe)).
Proof. destruct mode, risk, grant, relief, tool; cbn; naive_solver. Qed.

(** When a call may run unasked: exactly when none of the reasons holds that no
    mode clears (a Ward, nuclear risk, a risky command or argument, a read or a
    write outside the roots, a missing consent, a request to run code), and
    besides it belongs to an approved Code Mode run, or bypass mode is on for a
    caller that is no remote peer, or neither mode nor tool asks. *)
Theorem unasked_exactly f :
  requires_approval f = false ↔
  uncleared f = false ∧ ef_consentRequired f = false ∧ ef_codeModeRequest f = false ∧
  (ef_codeModeRunPreapproved f = true ∨ (ef_mode f = bypass ∧ ef_isRemoteA2APeer f = false) ∨ mode_silent f).
Proof.
  unfold requires_approval, mode_silent. cbv zeta. rewrite !asks_if, !clears_if, !asks_if, !andb_true_iff, <-mode_asks.
  unfold wardRequiresApproval. pose proof (uncleared_false f) as Hu.
  destruct (uncleared f).
  - split; [|by intros [? _]]. intros (_ & _ & [[_ ?]|[[_ ?]|H]]); [done|done|]. destruct Hu as [_ Hu]. exfalso.
    destruct H as (_ & ? & ? & Harg & Hshell & Hn & _ & [Hw _]%orb_false_iff). apply bool_decide_eq_false in Hw, Hn.
    discriminate Hu. split_and!; try done; [by destruct (ef_shellRisk f)|by destruct (ef_argumentRisk f)].
  - destruct Hu as [Hu _]. destruct (Hu eq_refl) as (Hw & Hn & -> & -> & -> & ->). clear Hu.
    rewrite (bool_decide_eq_false_2 _ Hw), (bool_decide_eq_false_2 _ Hn), bool_decide_eq_true, negb_true_iff. cbn [some negb orb].
    tauto.
Qed.

(** ** Through the gates *)

Section decision.
Context `{Platform} `{Host} `{NodeBuffer} (fs : FileSystem) (sha256_hex : string → string) (fs_message : FsError → string).
Context (e : ToolPolicyEngine) (w : AccessWorld).
Implicit Types (r : ToolAccessEvaluateRequest) (ip : InvocationPolicy) (policy : EffectiveToolPolicy) (ev : AccessEvaluation).

Abbreviation evaluate := (evaluateAccessInternal fs sha256_hex fs_message e w).
Abbreviation gates_of := (grant_gates fs sha256_hex fs_message e w).
Abbreviation final := (final_evaluation fs fs_message e w).

(** A refusal: neither allowed nor waiting for the operator. *)
Definition refused ev : Prop := ev_allowed ev = false ∧ ev_requiresApproval ev = false.

(** The requirements of [policy_gates] on a request that goes by [names]. *)
Definition policy_admits r policy (names : list string) (own : bool) : Prop :=
  (∀ name, name ∈ names → matchesAnyToolPattern (ep_denySet policy) name = false) ∧
  (own = false → ∀ name, name ∈ names → ep_switchedOffTools policy !! name = None) ∧
  ∀ profile, rq_policyContext r ≫= pc_permissionProfile = Some profile →
    pp_status profile = profile_active ∧ ∃ name, name ∈ names ∧ matchesAnyToolPattern (unique (pp_toolPatterns profile)) name = true.

Lemma existsb_false_all (f : string → bool) l : existsb f l = false ↔ ∀ x, x ∈ l → f x = false.
Proof.
  induction l as [|y l IH]; cbn.
  - split; [by intros _ x ?%not_elem_of_nil|done].
  - rewrite orb_false_iff, IH. setoid_rewrite elem_of_cons. naive_solver.
Qed.
Lemma existsb_true_some (f : string → bool) l : existsb f l = true ↔ ∃ x, x ∈ l ∧ f x = true.
Proof. rewrite existsb_exists. by setoid_rewrite list_elem_of_In. Qed.

Lemma switched_denial_refused name tool risk : refused (switchedOffDenial e name tool risk).
Proof. unfold switchedOffDenial. cbv zeta. by case_bool_decide; [|destruct (holdsUnavailable e)]. Qed.

Lemma find_none_spec {A} (f : A → bool) l : List.find f l = None ↔ ∀ x, x ∈ l → f x = false.
Proof.
  induction l as [|y l IH]; cbn.
  - split; [by intros _ x ?%not_elem_of_nil|done].
  - setoid_rewrite elem_of_cons. destruct (f y) eqn:E; [|rewrite IH; naive_solver].
    split; [done|]. intros Hall. by rewrite (Hall y (or_introl eq_refl)) in E.
Qed.

Lemma policy_gates_spec r ip policy names own :
  match policy_gates e r ip policy names own with
  | inl ev => refused ev
  | inr def => ip_toolDef ip = Some def ∧ policy_admits r policy names own
  end.
Proof.
  unfold policy_gates. cbv zeta. destruct (existsb _ names) eqn:Ed; [done|]. rewrite existsb_false_all in Ed.
  destruct (if own then None else _) as [name|] eqn:Es; [apply switched_denial_refused|].
  destruct (ip_toolDef ip) as [def|]; [|done].
  assert (own = false → ∀ name, name ∈ names → ep_switchedOffTools policy !! name = None) as Hs.
  { intros ->. rewrite find_none_spec in Es. intros name Hn. specialize (Es name Hn).
    apply bool_decide_eq_false in Es. by apply eq_None_not_Some. }
  destruct (rq_policyContext r ≫= pc_permissionProfile) as [profile|] eqn:Ep;
    [|split; [done|]; split; [done|]; split; [done|]; intros profile; by rewrite Ep].
  destruct (negb (bool_decide _)) eqn:Ea; [done|]. apply negb_false_iff, bool_decide_eq_true in Ea.
  destruct (negb (existsb _ _)) eqn:Ex; [done|]. apply negb_false_iff, existsb_true_some in Ex.
  split; [done|]. split; [done|]. split; [done|]. rewrite Ep. by intros ? [= <-].
Qed.

(** The grants that the checks behind the choice go by: those that allow the call,
    and none for a native installation. *)
Definition consulted (native : bool) (selected : option GrantDecision) : list ToolGrantRecord :=
  match (if native then None else selected) with Some (GrantAllows _ grants) => grants | _ => [] end.

(** What [grant_gates] requires, and what it hands on. *)
Record admitted_by r ip policy (names : list string) (def : ToolDefinition) (ward : option WardEffect)
    (reservation : option NativeExecutionReservation) (native : bool) (a : AdmittedAccess) : Prop := mkAdmittedBy {
  ab_policy : aa_policy a = policy;
  ab_ward : ef_wardEffect (aa_facts a) = ward;
  ab_tool : ef_riskLevel (aa_facts a) = td_riskLevel def ∧ ef_toolRequiresApproval (aa_facts a) = td_requiresApproval def ∧
    ef_mode (aa_facts a) = ep_approvalMode policy;
  ab_decision : ∃ selected, resolveGrantDecision fs sha256_hex fs_message e w r (Some def) (policyToolName <$> ip_mappedTarget ip)
      reservation = Ok selected ∧ (∀ g, selected ≠ Some (GrantDenies g)) ∧
    (∀ g, aa_grant a = Some g → native = false ∧
       (selected = Some (GrantAllows g (aa_allowGrants a)) ∨ ∃ reason, selected = Some (GrantConstrained g reason) ∧
          aa_officialSearchRequest a = true ∧ aa_allowGrants a = [])) ∧
    (aa_grant a = None → aa_allowGrants a = []) ∧
    (ef_hasAllowGrant (aa_facts a) = true → ∃ g, aa_grant a = Some g ∧ selected = Some (GrantAllows g (aa_allowGrants a))) ∧
    aa_allowGrants a = consulted native selected;
  ab_outside : evaluateOutsideRootWritesFor fs sha256_hex fs_message e w r (aa_allowGrants a) false = Ok (aa_outsideRootWrite a);
  ab_structure : truthy_opt (validateStructuralSafety fs fs_message e w r policy (aa_allowGrants a) (aa_outsideRootWrite a)) = false;
  ab_trust : ∃ trust, resolveToolTrustLevel (trust_fields r) = Ok trust ∧ isUntrustedToolEscalation trust (ip_capabilityPolicy ip) = false;
  ab_profile : (∃ name, name ∈ names ∧ matchesAnyToolPattern (ep_effectiveTools policy) name = true) ∨
    ef_hasAllowGrant (aa_facts a) = true;
  ab_outside_read : requiresApprovalForOutsideRootsRead fs fs_message e w r policy (aa_allowGrants a) = Ok (ef_outsideRead (aa_facts a));
  ab_outside_write : ef_outsideWrite (aa_facts a) =
    match aa_outsideRootWrite a with OutsideRequiresApproval _ _ => true | _ => false end;
  ab_risks : ef_shellRisk (aa_facts a) = evaluateShellRisk (cfg_sandbox (eng_config e)) (rq_toolName r) (args_value r) ∧
    ef_argumentRisk (aa_facts a) = (fst <$> evaluateArgumentRisk (cfg_sandbox (eng_config e)) (rq_toolName r) (args_value r));
  ab_peer : ef_isRemoteA2APeer (aa_facts a) = bool_decide (rq_policyContext r ≫= pc_authActorSource = Some "a2a_peer") ∧
    ef_mcpApprovalReliefApplied (aa_facts a) = ip_mcpApprovalRelief ip && negb (ef_isRemoteA2APeer (aa_facts a)) ∧
    ef_codeModeRunPreapproved (aa_facts a) = truthy_opt (rq_policyContext r ≫= pc_approvedCodeModeRunId) ∧
    ef_codeModeRequest (aa_facts a) = bool_decide (rq_toolName r = CODE_MODE_REQUEST_TOOL_NAME) ∧
    ef_consentRequired (aa_facts a) =
      isOfficialSearchRequest r && negb (some (resolveOfficialSearchConsentGrant r (aa_allowGrants a)));
}.

(** The part of [ab_decision] about the choice of the grant. *)
Definition chosen (native officialSearch : bool) (selected : option GrantDecision)
    (choice : option ToolGrantRecord * list ToolGrantRecord * option string) : Prop :=
  let '(grant, allowGrants, constraintsError) := choice in
  (∀ g, selected ≠ Some (GrantDenies g)) ∧
  (∀ g, grant = Some g → native = false ∧
     (selected = Some (GrantAllows g allowGrants) ∧ constraintsError = None ∨
      ∃ reason, selected = Some (GrantConstrained g reason) ∧ constraintsError = Some reason ∧
        allowGrants = if officialSearch then [] else [g])) ∧
  (grant = None → allowGrants = []) ∧ (grant = None → consulted native selected = []).

Lemma chosen_spec native officialSearch selected :
  (∀ g, selected ≠ Some (GrantDenies g)) →
  chosen native officialSearch selected (allowing (if native then None else selected) officialSearch).
Proof.
  intros Hno. destruct native; cbn; [by split_and!|].
  destruct selected as [[g|g gs|g reason]|]; cbn; [by destruct (Hno g)| | |by split_and!].
  - split_and!; [done| |done|done]. intros ? [= <-]. split; [done|]. by left.
  - split_and!; [done| |done|done]. intros ? [= <-]. split; [done|]. right. by exists reason.
Qed.

Lemma later_gates_spec r ip policy names def ward reservation (native : bool) selected out :
  resolveGrantDecision fs sha256_hex fs_message e w r (Some def) (policyToolName <$> ip_mappedTarget ip) reservation = Ok selected →
  (∀ g, selected ≠ Some (GrantDenies g)) →
  later_gates fs sha256_hex fs_message e w r ip policy names def ward (isOfficialSearchRequest r)
    (allowing (if native then None else selected) (isOfficialSearchRequest r)) = Ok out →
  match out with
  | inl ev => refused ev
  | inr a => admitted_by r ip policy names def ward reservation native a
  end.
Proof.
  intros Hsel Hno. pose proof (chosen_spec native (isOfficialSearchRequest r) selected Hno) as Hchosen.
  destruct (allowing _ _) as [[grant allowGrants] constraintsError]. destruct Hchosen as (_ & Hgrant & Hnone & Hcons).
  unfold later_gates. cbv zeta. intros (outside & Hout & H2)%outcome_bind_ok.
  destruct (truthy_opt _) eqn:Estr; [by injection H2 as <-|].
  apply outcome_bind_ok in H2 as (trust & Htrust & H2). destruct (isUntrustedToolEscalation trust _) eqn:Eesc; [by injection H2 as <-|].
  destruct (match grant, constraintsError with Some _, Some _ => _ | _, _ => None end) as [refusal|] eqn:Econ.
  { destruct grant as [g|]; [|done]. destruct constraintsError as [reason|]; [|done].
    destruct (isOfficialSearchRequest r); [done|]. injection Econ as <-. by injection H2 as <-. }
  destruct (_ && _) eqn:Eprofile; [by injection H2 as <-|].
  apply outcome_bind_ok in H2 as (a & Ha & [= <-]). unfold admitted_access in Ha. cbv zeta in Ha.
  apply outcome_bind_ok in Ha as (outsideRead & Hread & Ha). apply outcome_bind_ok in Ha as (firstMutation & _ & [= <-]).
  constructor; cbn; try done.
  - exists selected. split; [done|]. split; [done|]. split; [|split; [done|split]].
    + intros g Hg. destruct (Hgrant g Hg) as [Hn [[Hs _]|(reason & Hs & Hr & Hl)]]; (split; [done|]); [by left|right].
      exists reason. split; [done|]. subst grant constraintsError. by destruct (isOfficialSearchRequest r).
    + intros Hhas. destruct grant as [g|]; [|done]. destruct constraintsError as [|]; [done|].
      exists g. split; [done|]. destruct (Hgrant g eq_refl) as [_ [[Hs _]|(reason & _ & ? & _)]]; done.
    + destruct grant as [g|].
      * unfold consulted. destruct (Hgrant g eq_refl) as [-> [[-> _]|(reason & -> & -> & ->)]]; [done|]. by destruct (isOfficialSearchRequest r).
      * by rewrite Hnone, Hcons by done.
  - by exists trust.
  - apply andb_false_iff in Eprofile as [Hin|Hg]; [left|right]; apply negb_false_iff in Hin || apply negb_false_iff in Hg; [|done].
    by apply existsb_true_some.
Qed.

Lemma grant_gates_spec r ip policy names def ward reservation native out :
  gates_of r ip policy names def ward reservation native = Ok out →
  match out with
  | inl ev => refused ev
  | inr a => admitted_by r ip policy names def ward reservation native a
  end.
Proof.
  unfold grant_gates. cbv zeta. intros (selected & Hsel & Hout)%outcome_bind_ok.
  destruct selected as [[g|g gs|g reason]|].
  - by injection Hout as <-.
  - by eapply later_gates_spec in Hout.
  - by eapply later_gates_spec in Hout.
  - by eapply later_gates_spec in Hout.
Qed.

(** ** The answer *)

Lemma final_spec r a ev : final r a = Ok ev →
  if requires_approval (aa_facts a) && isExactBuiltInHeartbeatProfile r then refused ev
  else ev_allowed ev = true ∧ ev_requiresApproval ev = requires_approval (aa_facts a) ∧ ev_riskLevel ev = ef_riskLevel (aa_facts a).
Proof.
  unfold final_evaluation. cbv zeta. destruct (access_reason _ _ _) as [codes reason].
  destruct (_ && _); [by intros [= <-]|]. by intros (g & _ & [= <-])%outcome_bind_ok.
Qed.

(** Where an answer comes from: a refusal on the way, or the end of all gates. *)
Inductive answered input options reservation native ev : Prop :=
  | answered_refusal : refused ev → answered input options reservation native ev
  | answered_behind ip def a ev0 :
      invocation_of e input options native = Ok ip →
      let r := ip_evaluationRequest ip in
      let policy := effective_policy e w r in
      let raw := raw_ward_effect w r (tool_names ip) in
      ip_toolDef ip = Some def → policy_admits r policy (tool_names ip) (ownDelivery options) → raw ≠ Some ward_deny →
      admitted_by r ip policy (tool_names ip) def (matched_ward_effect raw) reservation native a →
      requires_approval (aa_facts a) && isExactBuiltInHeartbeatProfile r = false →
      final r a = Ok ev0 → ev = withWard (matched_ward_effect raw) ev0 →
      ev_allowed ev = true → ev_requiresApproval ev = requires_approval (aa_facts a) → ev_riskLevel ev = td_riskLevel def →
      answered input options reservation native ev.

Lemma evaluate_spec input options reservation native ev :
  evaluate input options reservation native = Ok ev → answered input options reservation native ev.
Proof.
  unfold evaluateAccessInternal. intros (ip & Hip & Hev)%outcome_bind_ok. cbv zeta in Hev.
  set (r := ip_evaluationRequest ip) in *. set (policy := effective_policy e w r) in *.
  pose proof (policy_gates_spec r ip policy (tool_names ip) (ownDelivery options)) as Hgates.
  destruct (policy_gates _ _ _ _ _ _) as [refusal|def]; [injection Hev as <-; by apply answered_refusal|].
  destruct Hgates as [Hdef Hadm]. case_bool_decide as Eward; [injection Hev as <-; by apply answered_refusal|].
  apply outcome_bind_ok in Hev as (gates & Hg%grant_gates_spec & Hev).
  apply outcome_bind_ok in Hev as (ev0 & Hev0 & [= <-]). destruct gates as [refusal|a]; [injection Hev0 as <-; by apply answered_refusal|].
  pose proof (final_spec r a ev0 Hev0) as Hf. destruct (_ && _) eqn:Eheart; [by apply answered_refusal|].
  destruct Hf as (Hall & Hreq & Hrisk). eapply answered_behind; [done..|]. rewrite <-(proj1 (ab_tool _ _ _ _ _ _ _ _ _ Hg)). exact Hrisk.
Qed.

(** The consent to an official search: a grant of exactly browser.search whose hosts
    are exactly those of the providers that the request selects, and there are some. *)
Definition consents r (g : ToolGrantRecord) : Prop :=
  tg_decision g = "allow" ∧ tg_toolPattern g = "browser.search" ∧ resolveOfficialSearchProviders r ≠ [] ∧
  ∀ host, host ∈ normalized_hosts (grant_allowedHosts g) ↔ host ∈ map official_host (resolveOfficialSearchProviders r).

Lemma consent_found r grants : some (resolveOfficialSearchConsentGrant r grants) = true → ∃ g, g ∈ grants ∧ consents r g.
Proof.
  unfold resolveOfficialSearchConsentGrant. cbv zeta. case_bool_decide as Hne; [done|].
  destruct (List.find _ grants) as [g|] eqn:E; [|done]. intros _. apply find_some in E as [Hin Hg].
  rewrite !andb_true_iff, !bool_decide_eq_true, Nat.eqb_eq, forallb_forall in Hg. destruct Hg as [[Hd Hp] [Hlen Hall]].
  exists g. split; [by apply list_elem_of_In|]. split_and!; [done|done|by intros E; rewrite E in Hne|].
  assert (unique (map official_host (resolveOfficialSearchProviders r)) ≡ₚ normalized_hosts (grant_allowedHosts g)) as Hperm.
  { apply submseteq_length_Permutation; [|by rewrite Hlen]. apply NoDup_submseteq; [apply NoDup_unique|].
    intros x Hx. apply list_elem_of_In, Hall in Hx. by apply bool_decide_eq_true in Hx. }
  intros host. by rewrite <-Hperm, elem_of_unique.
Qed.

(** No read waits for an approval: where outside reads ask and the call has none,
    every path that it reads is in a root or allowed by one of the grants. *)
Definition reads_admitted r policy (grants : list ToolGrantRecord) : Prop :=
  ep_readAccessMode policy = ToolPolicy.approval_required → w_verifiedApprovalId w = None →
  ∃ targets, extractReadPathCandidates r = Ok targets ∧
    ∀ target, target ∈ targets → ∃ access, read_access fs fs_message e target = Ok access ∧
      (withinRoots access = true ∨ ∃ g, g ∈ grants ∧ grantAllowsReadPath fs (resolvedPath access) g = true).

Lemma reads_admitted_spec r policy grants :
  requiresApprovalForOutsideRootsRead fs fs_message e w r policy grants = Ok false → reads_admitted r policy grants.
Proof.
  unfold requiresApprovalForOutsideRootsRead, reads_admitted, hasApprovalBypass. intros Hreq Hmode Hv. revert Hreq.
  rewrite Hmode, Hv, bool_decide_eq_true_2, bool_decide_eq_false_2 by (done || by intros [? ?]). cbn [negb orb].
  intros (targets & Ht & Ho)%outcome_bind_ok. exists targets. split; [done|]. clear Ht.
  induction targets as [|target targets IH]; [by intros ? ?%not_elem_of_nil|]. cbn [outside_read] in Ho.
  apply outcome_bind_ok in Ho as (access & Ha & Ho). destruct (_ && _) eqn:E; [done|].
  intros x [->|Hx]%elem_of_cons; [|by apply IH]. exists access. split; [done|].
  apply andb_false_iff in E as [?%negb_false_iff|E%negb_false_iff]; [by left|right].
  unfold anyGrantAllowsReadPath in E. apply existsb_exists in E as (g & Hg & ?). exists g. by rewrite list_elem_of_In.
Qed.

(** C4. What stands behind a call that runs unasked: an active tool that is neither
    nuclear nor a request to run code; no risky command or argument; no Ward that
    refuses or asks; no read or write outside the roots that waits for an
    approval, going by the grants that the choice of a grant selected for this
    request and by no others; for an official search, one of these grants that
    consents to its providers; and one of: an approved Code Mode run, bypass mode
    for a caller that is no remote peer, a grant that allows the call, the
    setting of its connector, or a mode and a tool that do not ask. *)
Theorem unasked_access input options reservation native ev :
  evaluate input options reservation native = Ok ev → ev_allowed ev = true → ev_requiresApproval ev = false →
  ∃ ip def selected outside,
    invocation_of e input options native = Ok ip ∧ ip_toolDef ip = Some def ∧
    let r := ip_evaluationRequest ip in
    let policy := effective_policy e w r in
    let sandbox := cfg_sandbox (eng_config e) in
    resolveGrantDecision fs sha256_hex fs_message e w r (Some def) (policyToolName <$> ip_mappedTarget ip) reservation = Ok selected ∧
    let grants := consulted native selected in
    td_riskLevel def ≠ tool_nuclear ∧ rq_toolName r ≠ CODE_MODE_REQUEST_TOOL_NAME ∧
    evaluateShellRisk sandbox (rq_toolName r) (args_value r) = None ∧
    evaluateArgumentRisk sandbox (rq_toolName r) (args_value r) = None ∧
    raw_ward_effect w r (tool_names ip) ∉ [Some ward_deny; Some ward_require_approval] ∧
    evaluateOutsideRootWritesFor fs sha256_hex fs_message e w r grants false = Ok outside ∧
    (∀ targets folders, outside ≠ OutsideRequiresApproval targets folders) ∧
    reads_admitted r policy grants ∧
    (isOfficialSearchRequest r = true → ∃ g, g ∈ grants ∧ consents r g) ∧
    let peer := rq_policyContext r ≫= pc_authActorSource = Some "a2a_peer" in
    (truthy_opt (rq_policyContext r ≫= pc_approvedCodeModeRunId) = true ∨
     (ep_approvalMode policy = bypass ∧ ¬ peer) ∨
     (native = false ∧ ∃ g, selected = Some (GrantAllows g grants)) ∨
     (ip_mcpApprovalRelief ip = true ∧ ¬ peer) ∨
     (ep_approvalMode policy ≠ approve_all ∧ td_requiresApproval def = false ∧
      (ep_approvalMode policy = approve_risky → td_riskLevel def = tool_safe))).
Proof.
  intros [[Hno _]|ip def a ev0 Hip r policy raw Hdef Hadm Hraw Hab _ _ _ _ Hreq _]%evaluate_spec Hall Hask; [congruence|].
  rewrite Hask in Hreq. symmetry in Hreq. apply unasked_exactly in Hreq as (Hu & Hconsent & Hcode & Hwhy).
  apply uncleared_false in Hu as (Hward & Hnuc & Hshell & Harg & Hread & Hwrite).
  destruct Hab as [Hpol Hw (Hrisk & Htool & Hmode) (sel & Hsel & _ & Hchoice & _ & Hgrant & Hcons) Hout _ _ _ Horead Howrite (Hs & Ha)
    (Hpeer & Hrel & Hrun & Hreqname & Hconsents)]. rewrite Hcons in *.
  exists ip, def, sel, (aa_outsideRootWrite a). split; [done|]. split; [done|]. cbv zeta. fold r policy raw. split; [done|].
  split; [by rewrite <-Hrisk|]. split; [by rewrite Hreqname in Hcode; apply bool_decide_eq_false in Hcode|].
  split; [by rewrite <-Hs|]. split; [rewrite Ha in Harg; by destruct (evaluateArgumentRisk _ _ _)|].
  split. { rewrite !elem_of_cons, elem_of_nil. intros [?|[Hra|[]]]; [done|]. rewrite Hw, Hra in Hward. by apply Hward. }
  split; [done|]. split; [intros targets folders Ho; by rewrite Howrite, Ho in Hwrite|].
  split; [apply reads_admitted_spec; by rewrite <-Hread|].
  split. { intros Hoff. apply consent_found. rewrite Hconsents, Hoff in Hconsent. by apply negb_false_iff in Hconsent. }
  rewrite Hmode, Hrun, Hpeer, bool_decide_eq_false in Hwhy. unfold mode_silent in Hwhy.
  destruct Hwhy as [?|[?|[_ [Hg|[Hr|?]]]]]; [by left|by right; left| | |].
  - right; right; left. destruct (Hgrant Hg) as (g & Hga & Hse). split; [by apply (Hchoice g)|]. by exists g.
  - right; right; right; left. rewrite Hrel, Hpeer in Hr. apply andb_true_iff in Hr as [? ?%negb_true_iff%bool_decide_eq_false]. done.
  - right; right; right; right. by rewrite Hmode, Htool, Hrisk in *.
Qed.

(** C5. Every refusal wins: a request that is allowed, asked or not, goes by no name
    that the policy denies or that a switched-off group holds, names a tool
    within the ceiling of an active profile, meets no Ward and no scoped grant
    that denies it, fails no structural check, does not lead content from outside
    to a privileged tool, and is in the policy's tools unless a grant allows it. *)
Theorem refusals_win input options reservation native ev :
  evaluate input options reservation native = Ok ev → ev_allowed ev = true →
  ∃ ip def grants outside selected trust,
    invocation_of e input options native = Ok ip ∧ ip_toolDef ip = Some def ∧
    let r := ip_evaluationRequest ip in
    let policy := effective_policy e w r in
    policy_admits r policy (tool_names ip) (ownDelivery options) ∧
    raw_ward_effect w r (tool_names ip) ≠ Some ward_deny ∧
    resolveGrantDecision fs sha256_hex fs_message e w r (Some def) (policyToolName <$> ip_mappedTarget ip) reservation = Ok selected ∧
    (∀ g, selected ≠ Some (GrantDenies g)) ∧
    evaluateOutsideRootWritesFor fs sha256_hex fs_message e w r grants false = Ok outside ∧
    truthy_opt (validateStructuralSafety fs fs_message e w r policy grants outside) = false ∧
    resolveToolTrustLevel (trust_fields r) = Ok trust ∧ isUntrustedToolEscalation trust (ip_capabilityPolicy ip) = false ∧
    ((∃ name, name ∈ tool_names ip ∧ matchesAnyToolPattern (ep_effectiveTools policy) name = true) ∨
     ∃ g, selected = Some (GrantAllows g grants)).
Proof.
  intros [[Hno _]|ip def a ev0 Hip r policy raw Hdef Hadm Hraw Hab _ _ _ _ _ _]%evaluate_spec Hall; [congruence|].
  destruct Hab as [_ _ _ (sel & Hsel & Hdeny & _ & _ & Hgrant & _) Hout Hstr (trust & Htrust & Hesc) Hprof _ _ _ _].
  exists ip, def, (aa_allowGrants a), (aa_outsideRootWrite a), sel, trust. cbv zeta. fold r policy raw.
  split_and!; try done. destruct Hprof as [?|Hg]; [by left|right]. destruct (Hgrant Hg) as (g & _ & ->). by exists g.
Qed.

(** ** What a request is evaluated as *)

(** The name and the arguments may be those of the mapped target; all else is the
    caller's. *)
Definition same_caller (r input : ToolAccessEvaluateRequest) : Prop :=
  buildScopeCandidates r = buildScopeCandidates input ∧ rq_policyContext r = rq_policyContext input.

Lemma binding_policy_name policyName message binding name b :
  readToolPolicyBinding policyName message binding name = Ok (Some b) → b = mkRemoteTool name policyName.
Proof. unfold readToolPolicyBinding. destruct binding; [|done]. case_bool_decide; [|done]. by intros [= <-]. Qed.

Lemma wrapper_policy_name input b : readMcpPolicyTargetFromWrapper input = Ok (Some b) → policyToolName b = "mcp.invoke".
Proof.
  unfold readMcpPolicyTargetFromWrapper. destruct (negb _); [done|]. cbv zeta. destruct (_ || _); [done|].
  destruct (canonical_mcp_name _); [|done]. by intros [= <-].
Qed.

Lemma invocation_spec input options ip : resolveInvocationPolicy e input options = Ok ip →
  same_caller (ip_evaluationRequest ip) input ∧ rq_toolName (ip_evaluationRequest ip) = ip_accountingToolName ip ∧
  match ip_mappedTarget ip with
  | Some b => ip_accountingToolName ip = canonicalName b ∧ policyToolName b ∈ ["mcp.invoke"; "mesh.invoke"]
  | None => ip_evaluationRequest ip = input ∧ ip_accountingToolName ip = rq_toolName input ∧
            ip_toolDef ip = eng_registry e (rq_toolName input)
  end.
Proof.
  unfold resolveInvocationPolicy. intros ([] & _ & Hip)%outcome_bind_ok.
  apply outcome_bind_ok in Hip as (mcp & Hmcp & Hip). apply outcome_bind_ok in Hip as (mesh & Hmesh & Hip). cbv zeta in Hip.
  apply outcome_bind_ok in Hip as (target & Htarget & Hip). apply outcome_bind_ok in Hip as ([] & _ & Hip).
  apply outcome_bind_ok in Hip as ([] & _ & Hip). apply outcome_bind_ok in Hip as (relief & _ & [= <-]). cbn.
  assert (∀ b, target = Some b → policyToolName b ∈ ["mcp.invoke"; "mesh.invoke"]) as Hname.
  { intros b ->. rewrite !elem_of_cons. destruct mcp as [b'|]; [|destruct mesh as [b'|]].
    - injection Htarget as ->. apply binding_policy_name in Hmcp as ->. by left.
    - injection Htarget as ->. apply binding_policy_name in Hmesh as ->. by right; left.
    - apply wrapper_policy_name in Htarget. by left. }
  destruct target as [b|]; [by split; [by destruct input|split; [|split; [|apply Hname]]]|].
  split; [done|]. split; [done|]. destruct mesh; [by destruct mcp|done].
Qed.

Lemma invocation_of_caller input options native ip : invocation_of e input options native = Ok ip →
  same_caller (ip_evaluationRequest ip) input.
Proof. unfold invocation_of. destruct native; [by intros [= <-]|]. by intros (? & _)%invocation_spec. Qed.

(** The silent heartbeat never waits for an operator: under its exact built-in
    profile no answer asks for an approval. *)
Theorem heartbeat_never_waits input options reservation native ev :
  isExactBuiltInHeartbeatProfile input = true → evaluate input options reservation native = Ok ev →
  ev_requiresApproval ev = false.
Proof.
  intros Hheart [[_ Hno]|ip def a ev0 Hip r policy raw _ _ _ _ Hf _ _ _ Hreq _]%evaluate_spec; [done|].
  apply invocation_of_caller in Hip as [_ Hctx]. fold r in Hctx. unfold isExactBuiltInHeartbeatProfile in *. rewrite Hctx, Hheart, andb_true_r in Hf.
  by rewrite Hreq.
Qed.

(** ** Denials in the table *)

Lemma candidate_in_list (P : string * string → list ToolGrantRecord) cs c g :
  c ∈ cs → g ∈ P c → g ∈ concat (map snd (map (λ c, (c, P c)) cs)).
Proof.
  intros Hc Hg. rewrite map_map. cbn. rewrite list_elem_of_In, in_concat. exists (P c).
  rewrite in_map_iff, <-list_elem_of_In. split; [|done]. exists c. by rewrite <-list_elem_of_In.
Qed.

Lemma with_reserved_keeps r reserved scopes g :
  g ∈ concat (map snd scopes) → g ∈ concat (map snd (with_reserved r reserved scopes)).
Proof.
  induction scopes as [|[c gs] scopes IH]; [done|]. cbn. destruct (same_scope reserved c); cbn; rewrite !elem_of_app.
  - intros [?|?]; [left|by right]. destruct (_ && _); [apply elem_of_app; by left|done].
  - intros [?|?]; [by left|right; by apply IH].
Qed.

Lemma active_grant_matches r policyName reservation id row :
  w_grants w !! id = Some row → grant_active (w_clock w) row = true →
  (gr_scope row, gr_scope_ref row) ∈ buildScopeCandidates r →
  grant_names r policyName (mapGrantRow id row) = true →
  mapGrantRow id row ∈ matching_grants w r policyName reservation.
Proof.
  intros Hrow Hact Hscope Hnames. unfold matching_grants. cbv zeta.
  assert (mapGrantRow id row ∈ concat (map snd (map (λ c, (c, grants_of_scope w r policyName c)) (buildScopeCandidates r)))) as Hin.
  { eapply candidate_in_list; [done|]. unfold grants_of_scope. rewrite list_elem_of_In, filter_In, <-list_elem_of_In. split.
    - apply elem_of_listActive. exists row. split_and!; try done. unfold in_scope, clause. cbn.
      by rewrite !(bool_decide_eq_true_2 _ eq_refl), !orb_true_r.
    - cbn. by rewrite !(bool_decide_eq_true_2 _ eq_refl). }
  destruct (reservation ≫= nr_grant); [by apply with_reserved_keeps|done].
Qed.

Lemma deny_found r def policyName reservation g selected :
  g ∈ matching_grants w r policyName reservation → tg_decision g = "deny" →
  resolveGrantDecision fs sha256_hex fs_message e w r def policyName reservation = Ok selected →
  ∃ g', selected = Some (GrantDenies g').
Proof.
  intros Hin Hdeny. unfold resolveGrantDecision. cbv zeta. destruct (List.find _ _) as [g'|] eqn:E; [intros [= <-]; by exists g'|].
  rewrite find_none_spec in E. specialize (E g Hin). unfold is_decision in E. by rewrite Hdeny, bool_decide_eq_true_2 in E.
Qed.

(** C6. A scoped denial cannot be argued with: while the table of grants has a
    denial that is not revoked, expired or used up, in any scope of the request
    and for a name that it goes by, no mode, grant, profile, reservation or
    setting lets the request through. *)
Theorem active_denial_wins input options reservation native ip id row ev :
  invocation_of e input options native = Ok ip →
  w_grants w !! id = Some row → gr_decision row = "deny" → grant_active (w_clock w) row = true →
  (gr_scope row, gr_scope_ref row) ∈ buildScopeCandidates input →
  (∃ name, name ∈ tool_names ip ∧ matchesToolPattern (gr_tool_pattern row) name = true) →
  evaluate input options reservation native = Ok ev → ev_allowed ev = false.
Proof.
  intros Hip Hrow Hdeny Hact Hscope (name & Hname & Hmatch) Hev. apply evaluate_spec in Hev.
  destruct Hev as [[Hno _]|ip' def a ev0 Hip' r policy raw _ _ _ Hab _ _ _ _ _ _]; [done|].
  assert (ip' = ip) as -> by congruence.
  destruct (invocation_of_caller _ _ _ _ Hip) as [Hsame _]. change (buildScopeCandidates r = buildScopeCandidates input) in Hsame.
  destruct Hab as [_ _ _ (sel & Hsel & Hno & _) _ _ _ _ _ _ _ _].
  assert (mapGrantRow id row ∈ matching_grants w r (policyToolName <$> ip_mappedTarget ip) reservation) as Hin.
  { apply active_grant_matches; [done|done|by rewrite Hsame|]. unfold grant_names. cbn.
    unfold tool_names in Hname. fold r in Hname. apply elem_of_cons in Hname as [->|Hname]; [by rewrite Hmatch|].
    destruct (ip_mappedTarget ip) as [b|]; [|by apply not_elem_of_nil in Hname]. apply list_elem_of_singleton in Hname as ->. cbn.
    by rewrite Hmatch, orb_true_r. }
  destruct (deny_found _ _ _ _ _ _ Hin Hdeny Hsel) as [g' ->]. by destruct (Hno g').
Qed.

(** ** What a grant allows *)

Lemma first_error_none (a b : res (option string)) : first_error a b = Ok None ↔ a = Ok None ∧ b = Ok None.
Proof. unfold first_error. destruct a as [[|]|]; cbn; naive_solver. Qed.
Lemma refuse_when_none b reason : refuse_when b reason = Ok None ↔ b = false.
Proof. unfold refuse_when. destruct b; naive_solver. Qed.

Abbreviation constraints_of := (applyGrantConstraints fs sha256_hex fs_message e w).
Abbreviation calls_of := (hourly_calls w).
Abbreviation writes_of := (hourly_writes w).

(** The limits of a grant that applies are not reached yet. *)
Lemma limits_open r g def policyName reservation c : tg_constraints g = Some c →
  constraints_of r g def policyName reservation = Ok None →
  (∀ max, maxCallsPerHour c = Some max → ∃ n, calls_of r g policyName reservation = Ok n ∧ n < max) ∧
  (∀ max, maxWritesPerHour c = Some max → isMutationTool def = true → ∃ n, writes_of r g reservation = Ok n ∧ n < max) ∧
  (mutationAllowed c = Some false → isMutationTool def = false).
Proof.
  intros Hc. unfold applyGrantConstraints. rewrite Hc, !first_error_none, refuse_when_none.
  intros (_ & Hmut & Hcalls & Hwrites & _). split_and!.
  - intros max Hmax. unfold calls_constraint in Hcalls. rewrite Hmax in Hcalls.
    apply outcome_bind_ok in Hcalls as (n & Hn & Hle%refuse_when_none%Z.leb_gt). by exists n.
  - intros max Hmax Hm. unfold writes_constraint in Hwrites. rewrite Hmax, Hm in Hwrites.
    apply outcome_bind_ok in Hwrites as (n & Hn & Hle%refuse_when_none%Z.leb_gt). by exists n.
  - intros Hf. by rewrite (bool_decide_eq_true_2 _ Hf) in Hmut.
Qed.

Lemma allow_grants_spec r def policyName reservation grants out :
  allow_grants fs sha256_hex fs_message e w r def policyName reservation grants = Ok out →
  ∀ g, g ∈ out.1 → g ∈ grants ∧ tg_decision g = "allow" ∧ constraints_of r g def policyName reservation = Ok None.
Proof.
  revert out. induction grants as [|g grants IH]; intros out; cbn [allow_grants]; [intros [= <-]; by intros g ?%not_elem_of_nil|].
  unfold is_decision. destruct (bool_decide (tg_decision g = "allow")) eqn:Ed; cbn [negb].
  - apply bool_decide_eq_true in Ed. intros (error & He & H3)%outcome_bind_ok. apply outcome_bind_ok in H3 as (rest & Hrest & H3).
    assert (∀ g', g' ∈ rest.1 → g' ∈ g :: grants ∧ tg_decision g' = "allow" ∧ constraints_of r g' def policyName reservation = Ok None) as Hall.
    { intros g' Hin. destruct (IH rest Hrest g' Hin) as (? & ? & ?). split_and!; [by apply elem_of_cons; right|done|done]. }
    destruct error as [reason|]; [destruct (bool_decide _); by injection H3 as <-|]. injection H3 as <-. cbn.
    intros g' [->|Hin]%elem_of_cons; [|by apply Hall]. split_and!; [by apply elem_of_cons; left|done|done].
  - intros Hout g' Hin. destruct (IH out Hout g' Hin) as (? & ? & ?). split_and!; [by apply elem_of_cons; right|done|done].
Qed.

Lemma allows_spec r def policyName reservation g gs :
  resolveGrantDecision fs sha256_hex fs_message e w r def policyName reservation = Ok (Some (GrantAllows g gs)) →
  g ∈ gs ∧ ∀ g', g' ∈ gs → g' ∈ matching_grants w r policyName reservation ∧ tg_decision g' = "allow" ∧
    constraints_of r g' def policyName reservation = Ok None.
Proof.
  unfold resolveGrantDecision. cbv zeta. destruct (List.find _ _); [done|]. intros (out & Hout & H3)%outcome_bind_ok.
  destruct out as [[|g0 gs0] x]; [destruct x as [[]|]; done|]. injection H3 as <- <-.
  split; [by apply elem_of_cons; left|]. intros g' Hin. by apply (allow_grants_spec _ _ _ _ _ _ Hout).
Qed.

Lemma reading_grant_in grants targets g : reading_grant fs fs_message e grants targets = Ok (Some g) → g ∈ grants.
Proof.
  induction targets as [|target targets IH]; [done|]. cbn [reading_grant]. intros (access & _ & H3)%outcome_bind_ok.
  destruct (withinRoots access); [by apply IH|]. destruct (List.find _ grants) as [g'|] eqn:E; [|by apply IH].
  injection H3 as ->. apply list_elem_of_In. by eapply find_some.
Qed.

Lemma effective_grant_in r policy g grants g' : g ∈ grants →
  resolveEffectiveAllowGrant fs fs_message e w r policy g grants = Ok g' → g' ∈ grants.
Proof.
  intros Hg (o & Ho & [= <-])%outcome_bind_ok. unfold resolveGrantForOutsideRootsRead in Ho.
  destruct (_ || _); [by injection Ho as <-|]. apply outcome_bind_ok in Ho as (targets & _ & Ho).
  destruct o as [g'|]; [|done]. by eapply reading_grant_in.
Qed.

Lemma admitting_in grants resolved ctx roots g : admitting_grant fs grants resolved ctx = Some (roots, g) → g ∈ grants.
Proof.
  induction grants as [|g0 grants IH]; [done|]. cbn [admitting_grant]. rewrite elem_of_cons.
  destruct (tg_constraints g0 ≫= writeRoots) as [[|]|]; [by right; apply IH| |by right; apply IH].
  destruct (grantWriteRootsAdmit _ _ _ _); [intros [= _ ->]; by left|by right; apply IH].
Qed.

Lemma outside_grant_in r grants ignore roots g :
  evaluateOutsideRootWritesFor fs sha256_hex fs_message e w r grants ignore = Ok (OutsideAdmittedByGrant roots g) → g ∈ grants.
Proof.
  unfold evaluateOutsideRootWritesFor, from_path, evaluateOutsideRootWrites.
  destruct (outsideRootWriteSafetyContext _) as [ctx|]; [|done]. destruct (_ || _); [done|].
  destruct (match _ with Some _ => _ | None => _ end); [done|]. destruct (_ || _); [done|].
  destruct (resolve_outside _ _ _) as [resolved|]; [|done]. destruct (negb _); [done|].
  destruct (admitting_grant _ _ _ _) as [[roots' g']|] eqn:Eg; [intros [= -> ->]; by eapply admitting_in|].
  destruct (match (if ignore then None else w_verifiedApprovalId w) with Some _ => _ | None => _ end); [done|].
  destruct (deriveOutsideRootWriteCandidates _ _ _ _) as [cs|[]]; done.
Qed.

(** The grant that an answer names is one of those that apply. *)
Lemma used_grant r ip policy names def ward reservation native a ev gid :
  admitted_by r ip policy names def ward reservation native a → final r a = Ok ev → ev_matchedGrantId ev = Some gid →
  ∃ g g0, resolveGrantDecision fs sha256_hex fs_message e w r (Some def) (policyToolName <$> ip_mappedTarget ip) reservation =
      Ok (Some (GrantAllows g0 (aa_allowGrants a))) ∧ g ∈ aa_allowGrants a ∧ tg_grantId g = gid ∧ ev_grantToConsume ev = Some gid.
Proof.
  intros [_ _ _ (sel & Hsel & _ & Hgrant & Hnone & _) Hout _ _ _ _ _ _ _] Hfinal Hgid.
  assert (∀ g, g ∈ aa_allowGrants a → ∃ g0, sel = Some (GrantAllows g0 (aa_allowGrants a))) as Hallows.
  { intros g Hin. destruct (aa_grant a) as [g0|]; [|by rewrite (Hnone eq_refl) in Hin; apply not_elem_of_nil in Hin].
    destruct (Hgrant g0 eq_refl) as [_ [->|(? & _ & _ & Hnil)]]; [by exists g0|]. by rewrite Hnil in Hin; apply not_elem_of_nil in Hin. }
  unfold final_evaluation in Hfinal. cbv zeta in Hfinal. destruct (access_reason _ _ _) as [codes reason].
  destruct (_ && _); [by injection Hfinal as <-|]. apply outcome_bind_ok in Hfinal as (o & Ho & [= <-]). cbn in *.
  destruct o as [g|]; [|done]. injection Hgid as Hgid.
  assert (g ∈ aa_allowGrants a) as Hin; [|destruct (Hallows g Hin) as [g0 ->]; exists g, g0; cbn; rewrite Hgid; by split_and!].
  assert (∀ g0 g', aa_grant a = Some g0 →
    resolveEffectiveAllowGrant fs fs_message e w r (aa_policy a) g0 (aa_allowGrants a) = Ok g' → aa_officialSearchRequest a = false →
    g' ∈ aa_allowGrants a) as Heff.
  { intros g0 g' Ha He Hoff. eapply effective_grant_in, He. destruct (Hgrant g0 Ha) as [_ [->|(? & _ & Hoff' & _)]]; [|congruence].
    by apply allows_spec in Hsel as [? _]. }
  destruct (aa_officialSearchRequest a).
  { injection Ho as Ho. unfold resolveOfficialSearchConsentGrant in Ho. cbv zeta in Ho.
    destruct (bool_decide _); [done|]. apply list_elem_of_In. by eapply find_some. }
  destruct (aa_outsideRootWrite a) as [| |roots g'|] eqn:Eo; [| |injection Ho as ->; by eapply outside_grant_in|].
  all: destruct (aa_grant a) as [g0|]; [|done].
  all: apply outcome_bind_ok in Ho as (g' & He & [= ->]); by eapply Heff.
Qed.

Lemma scoped_grant r policyName g : g ∈ matching_grants w r policyName None →
  ∃ row, w_grants w !! tg_grantId g = Some row ∧ g = mapGrantRow (tg_grantId g) row ∧ grant_active (w_clock w) row = true ∧
    (tg_scope g, tg_scopeRef g) ∈ buildScopeCandidates r ∧ grant_names r policyName g = true.
Proof.
  unfold matching_grants. cbn. rewrite map_map, list_elem_of_In, in_concat. intros (l & Hl & Hin).
  apply in_map_iff in Hl as (c & <- & Hc). cbn in Hin. unfold grants_of_scope in Hin.
  apply filter_In in Hin as [Hin Hg]. rewrite !andb_true_iff, !bool_decide_eq_true in Hg. destruct Hg as [[Hs Href] Hn].
  apply list_elem_of_In, elem_of_listActive in Hin as (row & Hrow & Hmap & Hact & _). exists row. split_and!; try done.
  rewrite Hs, Href. destruct c. by apply list_elem_of_In.
Qed.

(** Steps of an invocation that succeeded. *)
Lemma invocation_run decisionId now input options dryRun approved ev t t' :
  evaluateInvocationAccess fs sha256_hex fs_message e w decisionId now input options dryRun approved t = (Ok ev, t') →
  ∃ ip rec, resolveInvocationPolicy e input options = Ok ip ∧ evaluate input options None false = Ok ev ∧
    record decisionId now (logged input ip ev (if approved then false else ev_requiresApproval ev)
      (ev_allowed ev && (approved || (negb (ev_requiresApproval ev) && negb dryRun)))) t = (Ok rec, t').
Proof.
  intros Hrun. unfold evaluateInvocationAccess in Hrun. apply M_bind_ok in Hrun as (ip & t1 & Hip & Hrun).
  injection Hip as Hip <-. unfold transaction in Hrun.
  destruct ((lift _ ≫= _) _) as [[ev1|] t2] eqn:Htx; [|done]. injection Hrun as -> ->.
  apply M_bind_ok in Htx as (ev2 & t1 & Hev & Htx). injection Hev as Hev <-.
  apply M_bind_ok in Htx as (rec & t3 & Hrec & [= -> ->]). by exists ip, rec.
Qed.

(** C7. A grant bounds what it allows: when an invocation is admitted under a grant,
    that grant is an active permission of the table, in a scope of the request and
    for a name of the tool; it does not exclude mutations if the tool is one; and
    the calls of the last hour that its limit counts, this one included, do not
    exceed the limit. *)
Theorem granted_call_within_limit decisionId now input options dryRun approved ev t' gid :
  evaluateInvocationAccess fs sha256_hex fs_message e w decisionId now input options dryRun approved (w_decisions w) = (Ok ev, t') →
  ev_allowed ev = true → ev_matchedGrantId ev = Some gid →
  ∃ ip row, resolveInvocationPolicy e input options = Ok ip ∧
    let g := mapGrantRow gid row in
    let name := counted_name (ip_evaluationRequest ip) g (policyToolName <$> ip_mappedTarget ip) in
    w_grants w !! gid = Some row ∧ grant_active (w_clock w) row = true ∧ gr_decision row = "allow" ∧
    (gr_scope row, gr_scope_ref row) ∈ buildScopeCandidates input ∧ ev_grantToConsume ev = Some gid ∧
    ∀ c, gr_constraints row = Some c →
      (mutationAllowed c = Some false → isMutationTool (ip_toolDef ip) = false) ∧
      ∀ max in_scope, maxCallsPerHour c = Some max →
        scope_condition (w_sessionWorkspace w) (count_scope (ip_evaluationRequest ip) g None) = Some in_scope →
        ∃ since, hour_ago (w_now w) = Ok since ∧ count_rows (tool_calls name since in_scope) t' ≤ max.
Proof.
  intros (ip & rec & Hip & Hev & Hrec)%invocation_run Hall Hgid.
  exists ip. apply evaluate_spec in Hev as [[? _]|ip' def a ev0 Hip' r policy raw Hdef _ _ Hab _ Hfinal -> _ _ _]; [congruence|].
  assert (ip' = ip) as -> by (unfold invocation_of in Hip'; congruence).
  destruct (used_grant _ _ _ _ _ _ _ _ _ _ _ Hab Hfinal Hgid) as (g & g0 & Hsel & Hin & <- & Huse).
  apply allows_spec in Hsel as [_ Hgs]. destruct (Hgs g Hin) as (Hmatch & Hallow & Hcons).
  apply scoped_grant in Hmatch as (row & Hrow & Hg & Hact & Hscope & _). exists row. split; [done|]. cbv zeta. rewrite <-Hg.
  destruct (invocation_spec _ _ _ Hip) as ([Hsame _] & _). change (buildScopeCandidates r = buildScopeCandidates input) in Hsame.
  split; [done|]. split; [done|]. split; [by rewrite Hg in Hallow|]. split; [rewrite Hg, Hsame in Hscope; exact Hscope|].
  split; [done|]. intros c Hc. assert (tg_constraints g = Some c) as Hc' by (rewrite Hg; exact Hc).
  destruct (limits_open _ _ _ _ _ _ Hc' Hcons) as (Hcalls & _ & Hmut). rewrite Hdef. split; [exact Hmut|].
  intros max in_scope Hmax Hsc. destruct (Hcalls max Hmax) as (n & Hn & Hlt).
  apply tool_count_spec in Hn; [|done]. fold r in Hsc. rewrite Hsc in Hn. destruct Hn as (since & Hs & ->). exists since. split; [done|].
  rewrite (count_record _ _ _ _ _ _ _ Hrec). fold r. destruct (tool_calls _ _ _ (decision_row _ _)); cbn; lia.
Qed.

(** ** Mutations are counted *)

Lemma string_map_app f a b : string_map f (a +:+ b) = string_map f a +:+ string_map f b.
Proof. induction a as [|c a IH]; [done|]. cbn. by f_equal. Qed.

Lemma string_take_drop n s : string_take n s +:+ string_drop n s = s.
Proof. revert s. induction n as [|n IH]; intros [|c s]; [done..|]. cbn. f_equal. apply IH. Qed.

Lemma ends_with_suffix p s : ends_with p s = true ↔ ∃ q, s = q +:+ p.
Proof.
  unfold ends_with. rewrite andb_true_iff, bool_decide_eq_true, Nat.leb_le. split.
  - intros [_ Hd]. exists (string_take (String.length s - String.length p) s). rewrite <-Hd at 2. symmetry. apply string_take_drop.
  - intros [q ->]. rewrite length_append. split; [lia|]. replace (_ - _)%nat with (String.length q) by lia. apply string_drop_app.
Qed.

Lemma lower_suffix suffix s : to_lower suffix = suffix → ends_with suffix s = true → like_suffix suffix s = true.
Proof.
  intros Hlow [q ->]%ends_with_suffix. apply ends_with_suffix. exists (to_lower q). unfold to_lower in *. by rewrite string_map_app, Hlow.
Qed.

Lemma known_mutating_counts row : isKnownMutatingToolName (dr_tool_name row) = true → writeDecisionPredicate row = true.
Proof.
  unfold isKnownMutatingToolName, writeDecisionPredicate. rewrite !orb_true_iff, !bool_decide_eq_true, existsb_true_some.
  intros [[[Hin|(suffix & Hin & He)]| ->]| ->].
  - left; left; left; left; right. assert (Forall (λ x, x ∈ CAUTION_MUTATING_TOOL_SQL_NAMES) CAUTION_MUTATING_TOOL_NAMES) as Hall by decided.
    rewrite Forall_forall in Hall. by apply Hall.
  - rewrite !elem_of_cons, elem_of_nil in Hin. destruct Hin as [->|[->|[->|[]]]]; apply lower_suffix in He; auto.
  - left; left; right. reflexivity.
  - left; left; left; left; right. decided.
Qed.

(** C8. What changes something is counted as a write: an invocation of a tool that
    the gates treat as mutating leaves, when it goes on to run, a decision in the
    log that every hourly count of writes in its scope includes, whichever name
    the tool goes by. *)
Theorem mutation_is_counted decisionId now input options dryRun approved ev t t' ip :
  (∀ name def, eng_registry e name = Some def → td_name def = name) →
  evaluateInvocationAccess fs sha256_hex fs_message e w decisionId now input options dryRun approved t = (Ok ev, t') →
  resolveInvocationPolicy e input options = Ok ip → isMutationTool (ip_toolDef ip) = true →
  ev_allowed ev = true → approved = true ∨ (ev_requiresApproval ev = false ∧ dryRun = false) →
  ∃ row, t' !! decisionId = Some row ∧ dr_timestamp row = now ∧ dr_session_id row = rq_sessionId input ∧
    ∀ since in_scope, in_scope row = true → string_leb since now = true →
      count_rows (write_calls since in_scope) t' = count_rows (write_calls since in_scope) t + 1.
Proof.
  intros Hreg (ip' & rec & Hip' & Hev & Hrec)%invocation_run Hip Hmut Hall Hgo. assert (ip' = ip) as -> by congruence.
  set (row := decision_row now (logged input ip ev (if approved then false else ev_requiresApproval ev)
    (ev_allowed ev && (approved || (negb (ev_requiresApproval ev) && negb dryRun))))).
  assert (dr_counts_toward_limits row = true) as Hcounts.
  { cbn. rewrite Hall. destruct Hgo as [-> | [-> ->]]; [done|]. by rewrite orb_true_r. }
  assert (writeDecisionPredicate row = true) as Hwrite.
  { apply evaluate_spec in Hev as [[? _]|ip2 def a ev0 Hip2 r policy raw Hdef _ _ _ _ _ _ _ _ Hrisk]; [congruence|].
    assert (ip2 = ip) as -> by (unfold invocation_of in Hip2; congruence). rewrite Hdef in Hmut. unfold isMutationTool in Hmut.
    apply orb_true_iff in Hmut as [Hd|Hname].
    { unfold writeDecisionPredicate. cbn. by rewrite Hrisk, Hd. }
    destruct (invocation_spec _ _ _ Hip) as (_ & _ & Hmapped). destruct (ip_mappedTarget ip) as [b|] eqn:Eb.
    - unfold writeDecisionPredicate. cbn. rewrite Eb. cbn. rewrite (bool_decide_eq_true_2 _ (proj2 Hmapped)). by rewrite !orb_true_r.
    - destruct Hmapped as (_ & Hacc & Htool). apply known_mutating_counts. cbn. rewrite Hacc.
      rewrite Hdef in Htool. symmetry in Htool. by rewrite <-(Hreg _ _ Htool). }
  exists row. split. { unfold record in Hrec. destruct (t !! decisionId); [done|]. injection Hrec as _ <-. by rewrite lookup_insert_eq. }
  split; [done|]. split; [done|]. intros since in_scope Hin Hsince. rewrite (count_record _ _ _ _ _ _ _ Hrec). fold row.
  unfold write_calls, counted_since. rewrite Hin, Hwrite, Hcounts. cbn. by rewrite Hall, Hsince.
Qed.
End decision.

(** ** The decision at work *)

Module AccessExamples.
Import PathJailExamples.
#[local] Instance plain_buffer : NodeBuffer := Build_NodeBuffer id id id.

(** Some tools of the registry, an open policy in bypass mode, and an engine. *)
Definition some_tools : list ToolDefinition := [
  mkTool "fs.read" "fs" tool_caution false ["path"]; mkTool "fs.write" "fs" tool_danger true ["path"];
  mkTool "memory.write" "knowledge" tool_caution false []; mkTool "memory.read" "knowledge" tool_safe false [];
  mkTool "browser.screenshot" "research" tool_danger false []; mkTool "mcp.invoke" "ops" tool_danger true []].
Definition registry (name : string) : option ToolDefinition := List.find (λ d, bool_decide (td_name d = name)) some_tools.
Definition open_config (mode : ToolApprovalMode) : ToolPolicyConfig :=
  mkConfig (mkTools (Some mode) ["*"] [] None) ∅ (mkSandbox ["./workspace"] [] (Some roots_only) [] [] true None None).
Definition engine_in (mode : ToolApprovalMode) : ToolPolicyEngine :=
  mkEngine (open_config mode) (mkToolSandbox ["./workspace"] [] None None false None) registry [] false.

Definition noon : Z := 1767268800000.
Definition noon_iso : string := "2026-01-01T12:00:00.000Z".
Definition world_with (grants : grant_table) (log : decision_table) (wards : list CitadelWard) : AccessWorld :=
  mkWorld noon noon grants log (λ _, None) (Some (λ _, wards)) None false (λ _, None) (λ _, ([], None)) (λ _ _, None)
    (λ _, Ok tt) (λ _, Ok tt) (λ _, Ok tt).

Definition context_of (source : string) (profile : option PermissionProfileRecord) : ToolPolicyActorContext :=
  mkContext (pp_profileId <$> profile) profile None (Some source) None None.
Definition call (tool : string) (args : list (string * json)) (c : ToolPolicyActorContext) : ToolAccessEvaluateRequest :=
  mkAccessRequest tool "agent" "s1" None (Some "c1") None None None (Some args) None None (Some c).

Abbreviation answer mode w r := (evaluateAccessInternal tree id (λ _, "io error") (engine_in mode) w r no_options None false).
Definition answer_of (r : res AccessEvaluation) : AccessEvaluation := match r with Ok ev => ev | Err _ => deny tool_nuclear "" "" end.
Abbreviation invoke mode w r := (evaluateInvocationAccess tree id (λ _, "io error") (engine_in mode) w "d1" noon_iso r no_options false false).

Lemma registry_named mode name def : eng_registry (engine_in mode) name = Some def → td_name def = name.
Proof. cbn [eng_registry engine_in]. unfold registry. intros [_ Hd]%(find_some (λ d, bool_decide (td_name d = name))). by apply bool_decide_eq_true in Hd. Qed.

(** A screenshot into the write jail. *)
Definition screenshot : list (string * json) := [("outputPath", JString "./workspace/shot.png")].

Definition quiet := world_with ∅ ∅ [].

(** A remote peer rides the bypass mode of the operator after all: for a dangerous
    tool that does not ask by itself the mode leaves nothing to be cleared.  A tool
    that asks by itself still does, and gives the bypass as its reason. *)
Example a2a_peer_rides_bypass :
  let shot := answer_of (answer bypass quiet (call "browser.screenshot" screenshot (context_of "a2a_peer" None))) in
  let write := answer_of (answer bypass quiet (call "fs.write" [("path", JString "./workspace/a.txt")] (context_of "a2a_peer" None))) in
  ev_riskLevel shot = tool_danger ∧ ev_allowed shot = true ∧ ev_requiresApproval shot = false ∧
  ev_requiresApproval write = true ∧ ev_policyReason write = "allowed by bypass approval mode".
Proof. by vm_compute. Qed.

(** Two calls of fs.write an hour, granted to the session; one was made. *)
Definition two_writes : ToolGrantRow :=
  mkGrantRow "fs.write" "allow" "session" "s1" "persistent" (Some (mkConstraints [] [] [] None (Some 2) None None None)) "ana"
    noon_iso None None None None.
Definition made_call : ToolAccessDecisionRow :=
  decision_row "2026-01-01T11:30:00.000Z"
    (mkDecisionInput "fs.write" None "agent" "s1" None None None true [] (Some "g1") false tool_danger None None (Some true)).
Definition granted_world := world_with {[ "g1" := two_writes ]} {[ "d0" := made_call ]} [mkWard "dry" "fs.*" ward_require_dry_run].
Definition write_call := call "fs.write" [("path", JString "./workspace/a.txt")] (context_of "operator" None).
Definition granted_answer := answer_of (answer approve_risky granted_world write_call).

Lemma granted_runs : answer approve_risky granted_world write_call = Ok granted_answer ∧
  ev_allowed granted_answer = true ∧ ev_requiresApproval granted_answer = false ∧ ev_matchedGrantId granted_answer = Some "g1".
Proof. by vm_compute. Qed.

Lemma unasked_access_witness :
  ev_allowed granted_answer = true ∧ ev_requiresApproval granted_answer = false ∧
  ∃ ip selected outside, invocation_of (engine_in approve_risky) write_call no_options false = Ok ip ∧
    evaluateOutsideRootWritesFor tree id (λ _, "io error") (engine_in approve_risky) granted_world (ip_evaluationRequest ip)
      (consulted false selected) false = Ok outside ∧ ∀ targets folders, outside ≠ OutsideRequiresApproval targets folders.
Proof.
  destruct granted_runs as (Hev & Hall & Hask & _). split; [exact Hall|]. split; [exact Hask|].
  destruct (unasked_access tree id (λ _, "io error") (engine_in approve_risky) granted_world write_call no_options None false granted_answer
    Hev Hall Hask) as (ip & def & selected & outside & Hip & _ & _ & _ & _ & _ & _ & _ & Hout & Hno & _).
  exists ip, selected, outside. split; [exact Hip|]. split; [exact Hout|exact Hno].
Defined.

Lemma refusals_win_witness :
  ev_allowed granted_answer = true ∧
  ∃ ip, invocation_of (engine_in approve_risky) write_call no_options false = Ok ip ∧
    raw_ward_effect granted_world (ip_evaluationRequest ip) (tool_names ip) ≠ Some ward_deny.
Proof.
  destruct granted_runs as (Hev & Hall & _ & _). split; [exact Hall|].
  destruct (refusals_win tree id (λ _, "io error") (engine_in approve_risky) granted_world write_call no_options None false granted_answer
    Hev Hall) as (ip & def & grants & outside & selected & trust & Hip & _ & _ & Hward & _).
  exists ip. split; [exact Hip|exact Hward].
Defined.

(** The second call, and the log that it leaves. *)
Definition second_log := snd (invoke approve_risky granted_world write_call (w_decisions granted_world)).
Lemma second_call_runs : invoke approve_risky granted_world write_call (w_decisions granted_world) = (Ok granted_answer, second_log).
Proof. by vm_compute. Qed.

Lemma granted_call_within_limit_witness :
  ∃ since, hour_ago noon = Ok since ∧
    count_rows (tool_calls "fs.write" since (λ row, bool_decide (dr_session_id row = "s1"))) second_log ≤ 2.
Proof.
  destruct granted_runs as (_ & Hall & _ & Hgrant).
  destruct (granted_call_within_limit tree id (λ _, "io error") (engine_in approve_risky) granted_world "d1" noon_iso write_call no_options
    false false granted_answer second_log "g1" second_call_runs Hall Hgrant)
    as (ip & row & Hip & Hrow & _ & _ & _ & _ & Hc).
  injection Hip as <-. injection Hrow as <-. destruct (Hc _ eq_refl) as [_ Hmax]. exact (Hmax _ _ eq_refl eq_refl).
Defined.

(** A denial of everything for an agent, under the bypass mode. *)
Definition denial : ToolGrantRow := mkGrantRow "*" "deny" "agent" "agent" "persistent" None "ana" noon_iso None None None None.
Definition denied_world := world_with {[ "g0" := denial; "g1" := two_writes ]} {[ "d0" := made_call ]} [].

Lemma active_denial_wins_witness :
  answer bypass denied_world write_call = Ok (answer_of (answer bypass denied_world write_call)) ∧
  ev_allowed (answer_of (answer bypass denied_world write_call)) = false.
Proof.
  assert (answer bypass denied_world write_call = Ok (answer_of (answer bypass denied_world write_call))) as Hev by (by vm_compute).
  split; [exact Hev|]. eapply (active_denial_wins tree id (λ _, "io error") (engine_in bypass) denied_world write_call no_options None false)
    with (id := "g0") (row := denial).
  - reflexivity.
  - reflexivity.
  - reflexivity.
  - vm_compute. reflexivity.
  - apply (bool_decide_unpack _). vm_compute. exact I.
  - exists "fs.write". split; [by left|]. vm_compute. reflexivity.
  - exact Hev.
Defined.

(** A tool of an MCP server, named through the wrapper. *)
Definition put_call :=
  call "mcp.invoke" [("serverId", JString "files"); ("toolName", JString "put"); ("arguments", JObject [])] (context_of "operator" None).
Definition put_answer := answer_of (answer bypass quiet put_call).
Definition put_log := snd (invoke bypass quiet put_call ∅).
Lemma put_runs : invoke bypass quiet put_call ∅ = (Ok put_answer, put_log) ∧ ev_allowed put_answer = true ∧
  ev_requiresApproval put_answer = false ∧ dr_tool_name <$> put_log !! "d1" = Some "mcp.files.put".
Proof. by vm_compute. Qed.

Lemma mutation_is_counted_witness :
  ∃ row, put_log !! "d1" = Some row ∧ dr_tool_name row = "mcp.files.put" ∧
    count_rows (write_calls "2026-01-01T11:00:00.000Z" (λ row, bool_decide (dr_session_id row = "s1"))) put_log =
    count_rows (write_calls "2026-01-01T11:00:00.000Z" (λ row, bool_decide (dr_session_id row = "s1"))) ∅ + 1.
Proof.
  destruct put_runs as (Hrun & Hall & Hask & Hname).
  destruct (mutation_is_counted tree id (λ _, "io error") (engine_in bypass) quiet "d1" noon_iso put_call no_options false false put_answer
    ∅ put_log _ (registry_named bypass) Hrun eq_refl eq_refl Hall (or_intror (conj Hask eq_refl))) as (row & Hrow & _ & Hsession & Hcount).
  exists row. split; [exact Hrow|]. split; [rewrite Hrow in Hname; by injection Hname|]. apply Hcount; [|vm_compute; reflexivity].
  by rewrite Hsession.
Defined.

(** A Ward that asks, met by a silent heartbeat. *)
Definition heartbeat_call := call "memory.read" [] (context_of "operator" (Some HEARTBEAT_RESTRICTED_PROFILE)).
Definition warded := world_with ∅ ∅ [mkWard "ask" "memory.*" ward_require_approval].
Lemma heartbeat_never_waits_witness :
  let ev := answer_of (answer bypass warded heartbeat_call) in ev_allowed ev = false ∧ ev_requiresApproval ev = false.
Proof.
  split; [by vm_compute|].
  apply (heartbeat_never_waits tree id (λ _, "io error") (engine_in bypass) warded heartbeat_call no_options None false).
  - by vm_compute.
  - by vm_compute.
Defined.
End AccessExamples.
