(* ===== verification/FolderGrants.v ===== *)
(** * Folder grants (packages/policy-engine/src/engine.ts)

    An operator who approves a write outside the write roots may open its folder
    for a while: [mintOutsideRootWriteGrant] with what it reads, the events of the
    approval (storage/src/approval-event-repo.ts) and the details registered there
    (contracts/src/outside-root-write.ts); the other calls of the engine on
    grants; and the check before a tool writes
    (tool-executor/outside-root-write-admission.ts).  Then what a minted grant
    opens, and that an approval opens one folder only. *)
From S2P Require Import Prelude.
From S2P Require Import JsString.
From S2P Require Import JsTime.
From S2P Require Import JsJson.
From S2P Require Import JsJsonText.
From S2P Require Import JsObject.
From S2P Require Import Errors.
From S2P Require Import ToolPatterns.
From S2P Require Import FileSystem.
From S2P Require Import PathJail.
From S2P Require Import ToolWriteGate.
From S2P Require Import OutsideRootWrite.
From S2P Require Import OutsideRootWriteTheorems.
From S2P Require Import Approvals.
From S2P Require Import PendingActions.
From S2P Require Import ToolRequests.
From S2P Require Import ToolGrants.
From S2P Require Import AccessDecision.

(** ** The events of an approval (storage/src/approval-event-repo.ts) *)

Record ApprovalEventRow := mkEventRow {
  ae_approval_id : string;
  ae_event_type : string;
  ae_actor_id : string;
  ae_timestamp : string;
  ae_payload_json : string;
}.
Record ApprovalReplayEvent := mkReplayEvent {
  ev_eventId : string;
  ev_approvalId : string;
  ev_eventType : string;
  ev_actorId : string;
  ev_timestamp : string;
  ev_payload : json;
}.
Abbreviation event_table := (gmap string ApprovalEventRow).

(** [eventId] is [randomUUID()], [nowIso] the time of the process. *)
Definition append (eventId nowIso approvalId eventType actorId : string) (timestamp : option string) (payload : list (string * json))
    : M js_error event_table ApprovalReplayEvent := λ t,
  let at_ := default nowIso timestamp in
  match t !! eventId with
  | Some _ => (Err (SqliteConstraintError "approval_events.event_id"), t)
  | None => (Ok (mkReplayEvent eventId approvalId eventType actorId at_ (JObject payload)),
             <[eventId := mkEventRow approvalId eventType actorId at_ (json_stringify (JObject payload))]> t)
  end.

Definition event_of (id : string) (row : ApprovalEventRow) : ApprovalReplayEvent :=
  mkReplayEvent id (ae_approval_id row) (ae_event_type row) (ae_actor_id row) (ae_timestamp row)
    (safeJsonParse (ae_payload_json row) (JObject [])).

(** [ORDER BY timestamp ASC]; events of one time come in no promised order. *)
Definition earlier_event (a b : ApprovalReplayEvent) : bool := string_leb (ev_timestamp a) (ev_timestamp b).
Definition listByApprovalId (approvalId : string) (t : event_table) : list ApprovalReplayEvent :=
  order_by earlier_event
    (map (λ e : string * ApprovalEventRow, event_of e.1 e.2)
       (List.filter (λ e, bool_decide (ae_approval_id e.2 = approvalId)) (map_to_list t))).

(** ** The registered details (contracts/src/outside-root-write.ts) *)

Definition OUTSIDE_ROOT_WRITE_GRANT_DURATIONS : list (string * Z) := [("15m", 15 * 60000); ("1h", 60 * 60000); ("8h", 8 * 60 * 60000)].
Definition OUTSIDE_ROOT_WRITE_GRANT_MINT_WINDOW_MS : Z := 15 * 60000.
Definition duration_ms (duration : string) : option Z :=
  snd <$> List.find (λ d, bool_decide (d.1 = duration)) OUTSIDE_ROOT_WRITE_GRANT_DURATIONS.
Definition isOutsideRootWriteGrantDuration (value : json) : bool :=
  match value with JString s => bool_decide (is_Some (duration_ms s)) | _ => false end.

Record OutsideRootWriteApprovalDetails := mkDetails {
  od_targets : list string;
  od_candidates : list OutsideRootWriteCandidateRoot;
  od_durations : list string;
  od_defaultDuration : string;
}.

Definition isNonEmptyString (value : option json) : bool :=
  match value with Some (JString s) => truthy (trim s) | _ => false end.
Definition isCandidateRoot (value : json) : bool :=
  isNonEmptyString (field "rootId" value) && isNonEmptyString (field "path" value).
Definition text_of (value : option json) : string := match value with Some (JString s) => s | _ => "" end.

Definition readOutsideRootWriteApprovalDetails (value : option json) : option OutsideRootWriteApprovalDetails :=
  match value with
  | Some (JObject fields) =>
      let f k := lookup_field k fields in
      if negb (is_one ["outside_root_write"] (f "kind")) then None
      else match f "targets", f "candidates", f "durations", f "defaultDuration" with
           | Some (JArray targets), Some (JArray candidates), Some (JArray durations), Some defaultDuration =>
               if bool_decide (length targets = 0%nat) || negb (forallb (λ t, isNonEmptyString (Some t)) targets) ||
                  negb (forallb isCandidateRoot candidates) || negb (forallb isOutsideRootWriteGrantDuration durations) ||
                  negb (isOutsideRootWriteGrantDuration defaultDuration)
               then None
               else Some (mkDetails (map (λ t, text_of (Some t)) targets)
                      (map (λ c, mkCandidateRoot (text_of (field "rootId" c)) (text_of (field "path" c))) candidates)
                      (map (λ d, text_of (Some d)) durations) (text_of (Some defaultDuration)))
           | _, _, _, _ => None
           end
  | _ => None
  end.

(** [readRegisteredOutsideRootWrite] (outside-root-write-policy.ts). *)
Definition readRegisteredOutsideRootWrite (events : list ApprovalReplayEvent) : option OutsideRootWriteApprovalDetails :=
  let registration := List.find (λ e, bool_decide (ev_eventType e = "pending_action_registered")) events in
  readOutsideRootWriteApprovalDetails (registration ≫= λ e, field "outsideRootWrite" (ev_payload e)).

Definition describeOutsideRootWriteApproval (approvalId : string) (t : event_table) : option OutsideRootWriteApprovalDetails :=
  readRegisteredOutsideRootWrite (listByApprovalId approvalId t).

(** ** The calls of the engine on grants *)

Definition MINT_DUPLICATE_SCAN_LIMIT : Z := 100000.

(** [input.scope] is one of two words. *)
Record MintGrantInput := mkMint {
  mi_approvalId : string;
  mi_rootId : string;
  mi_duration : string;
  mi_workspaceScope : bool;
  mi_scopeRef : string;
  mi_createdBy : string;
}.
Definition scope_word (workspaceScope : bool) : string := if workspaceScope then "workspace" else "session".

(** What one minting meets: the tables it reads, the times of the process at its
    three readings, the time of the database, and the new id. *)
Record MintWorld := mkMintWorld {
  mw_fs : FileSystem;
  mw_approvals : approval_table;
  mw_pending : pending_table;
  mw_events : event_table;
  mw_checkedAt : Z;
  mw_issuedAt : Z;
  mw_validatedAt : Z;
  mw_clock : Z;
  mw_grantId : string;
}.

(** [request.k] of a rebuilt request, a text or undefined. *)
Definition text_prop (k : string) (r : request) : option string :=
  match prop k r with Some (JString s) => Some s | _ => None end.

(** The request that an approval stands for: of a pending [tool.invoke]. *)
Definition request_of_pending (approvalId : string) (p : pending_table) : res (option request) :=
  match PendingActions.find approvalId p with
  | Some pending =>
      if bool_decide (actionType pending = tool_invoke)
      then r ← asToolInvokeRequest (object_fields (pa_request pending)); Ok (Some r)
      else Ok None
  | None => Ok None
  end.

Section folders.
Context `{Host} (fs_message : FsError → string) (sandbox : ToolSandbox).

(** The approval must stand, and be fresh. *)
Definition check_approval (w : MintWorld) (approvalId : string) : res unit :=
  approval ← (Approvals.get approvalId (mw_approvals w)).1;
  _ ← throw_when (negb (bool_decide (ar_status approval = approval_approved)))
        (JsError "A folder grant needs an approved outside-root write approval.");
  let resolvedAtMs := match resolvedAt approval with Some t => if truthy t then date_parse t else None | None => None end in
  throw_when (match resolvedAtMs with Some ms => OUTSIDE_ROOT_WRITE_GRANT_MINT_WINDOW_MS <? mw_checkedAt w - ms | None => true end)
    (JsError "The approval is too old to open a folder; approve a new request instead.").

(** The tool, the session and the workspace of the approved request. *)
Definition approved_write (w : MintWorld) (approvalId : string) : res (string * string * option string) :=
  stored ← request_of_pending approvalId (mw_pending w);
  match stored with
  | Some r =>
      let toolName := default "" (text_prop "toolName" r) in
      if isOutsideRootWriteTool toolName
      then Ok (toolName, default "" (text_prop "sessionId" r), text_prop "workspaceId" r)
      else Err (JsError "The approval is not an outside-root write.")
  | None => Err (JsError "The approval is not an outside-root write.")
  end.

(** The chosen folder, as it is now. *)
Definition chosen_roots (w : MintWorld) (ctx : WriteRootSafetyContext) (input : MintGrantInput) : option (list string) :=
  details ← describeOutsideRootWriteApproval (mi_approvalId input) (mw_events w);
  candidate ← List.find (λ c, bool_decide (rootId c = mi_rootId input)) (od_candidates details);
  grantWriteRootsAdmit (mw_fs w) [cr_path candidate] (od_targets details) ctx.

(** The grants that the approval already opened, in either scope. *)
Definition opened_by (approvalId : string) (g : ToolGrantRecord) : bool :=
  bool_decide (tg_constraints g ≫= writeRootsApprovalId = Some approvalId).
Definition scope_grants (scope : string) (scopeRef : option string) (t : grant_table) : list ToolGrantRecord :=
  match scopeRef with
  | Some ref => if truthy ref then listGrants (Some scope) (Some ref) MINT_DUPLICATE_SCAN_LIMIT t else []
  | None => []
  end.

Definition mintOutsideRootWriteGrant (w : MintWorld) (input : MintGrantInput) : grants ToolGrantRecord :=
  match outsideRootWriteSafetyContext sandbox with
  | None => throw (JsError "Outside-root write approvals are disabled.")
  | Some ctx =>
      guard_throw (negb (isOutsideRootWriteEnabled sandbox)) (JsError "Outside-root write approvals are disabled.") ;;
      ttlMs ← lift (match duration_ms (mi_duration input) with
                    | Some ms => Ok ms | None => Err (JsError "Unsupported folder-grant duration.") end);
      lift (check_approval w (mi_approvalId input)) ;;
      approved ← lift (approved_write w (mi_approvalId input));
      let '(toolName, sessionId, workspaceId) := approved in
      let scope := scope_word (mi_workspaceScope input) in
      let approvedScopeRef := if mi_workspaceScope input then workspaceId else Some sessionId in
      guard_throw (negb (truthy_opt approvedScopeRef) || negb (bool_decide (Some (mi_scopeRef input) = approvedScopeRef)))
        (JsError ("A folder grant must be scoped to the approved request's own " +:+ scope +:+ ".")) ;;
      roots ← lift (match chosen_roots w ctx input with
                    | Some roots => Ok roots
                    | None => Err (JsError "The chosen folder is not available for this approval.") end);
      expiresAt ← lift (match to_iso (mw_issuedAt w + ttlMs) with
                        | Some iso => Ok iso | None => Err (JsRangeError "Invalid time value") end);
      validated ← lift (from_path fs_message (validateWriteRootsGrantInput (mw_fs w)
        (mkGrantInput toolName "allow" scope approvedScopeRef (Some "ttl")
           (Some (mkConstraints [] [] [] None None None (Some roots) (Some (mi_approvalId input)))) (mi_createdBy input)
           (Some expiresAt) None) sandbox (mw_validatedAt w)));
      transaction (
        existing ← gets (λ t, scope_grants "session" (Some sessionId) t ++ scope_grants "workspace" workspaceId t);
        guard_throw (existsb (opened_by (mi_approvalId input)) existing)
          (JsError "This approval already opened a folder; approve a new request to open another.") ;;
        createTtlForDuration (mw_grantId w) (mw_clock w) (validated <| g_grantType := None |> <| g_expiresAt := None |>) ttlMs)
  end.

Definition createGrant (fs : FileSystem) (grantId nowIso : string) (nowMs clock : Z) (input : ToolGrantCreateInput)
    : grants ToolGrantRecord :=
  validated ← lift (from_path fs_message (validateWriteRootsGrantInput fs input sandbox nowMs));
  ToolGrants.create grantId nowIso clock validated.

Definition revokeGrant (grantId revokedAt revokedBy : string) : grants bool :=
  guard_throw (negb (truthy (trim revokedBy))) (JsError "revokedBy is required to revoke a tool grant") ;;
  ToolGrants.revoke grantId revokedAt (Some revokedBy).

Definition listActiveGrants (clock : Z) (scope scopeRef : option string) (limit : Z) (t : grant_table) : list ToolGrantRecord :=
  slice_to limit (listActive clock scope scopeRef t).

(** ** Before a tool writes (tool-executor/outside-root-write-admission.ts) *)

(** [matchedGrantId] is the field of the policy context. *)
Definition resolveScopedFolderGrant (clock : Z) (matchedGrantId : option string) (r : ToolAccessEvaluateRequest) (t : grant_table)
    : option ToolGrantRecord :=
  let grantId := default "" (trim <$> matchedGrantId) in
  if negb (truthy grantId) then None
  else
    grant ← ToolGrants.findActive clock grantId t;
    if negb (bool_decide (tg_decision grant = "allow")) || bool_decide (default [] (tg_constraints grant ≫= writeRoots) = []) ||
       negb (matchesToolPattern (tg_toolPattern grant) (rq_toolName r))
    then None
    else if (bool_decide (tg_scope grant = "session") && bool_decide (tg_scopeRef grant = rq_sessionId r)) ||
            (bool_decide (tg_scope grant = "workspace") && truthy_opt (rq_workspaceId r) &&
             bool_decide (Some (tg_scopeRef grant) = rq_workspaceId r))
    then Some grant else None.

(** The hook that answers eligibility may be absent. *)
Definition resolveExecutionWriteAdmission (fs : FileSystem) (sha256_hex : string → string) (w : AccessWorld) (isEligible : option bool)
    (matchedGrantId : option string) (events : event_table) (r : ToolAccessEvaluateRequest) : res (option (list string)) :=
  match isEligible with
  | None => Ok None
  | Some eligible =>
      if negb (isOutsideRootWriteTool (rq_toolName r)) || negb (isOutsideRootWriteEnabled sandbox) then Ok None
      else
        let grant := resolveScopedFolderGrant (w_clock w) matchedGrantId r (w_grants w) in
        evaluation ← from_path fs_message
          (evaluateOutsideRootWrites fs sha256_hex (rq_toolName r) (rq_policyContext r ≫= pc_authActorSource)
             (extractWritePathCandidates w r) (match grant with Some g => [g] | None => [] end) sandbox eligible
             (w_verifiedApprovalId w) (λ id, od_targets <$> describeOutsideRootWriteApproval id events));
        Ok (match evaluation with
            | OutsideAdmittedByGrant roots _ | OutsideAdmittedByApproval roots => Some roots
            | _ => None
            end)
  end.
End folders.

(** ** What a minting did *)

Section minted.
Context `{Host} (Hlaws : HostLaws _) (fs_message : FsError → string) (sandbox : ToolSandbox).

Abbreviation mint := (mintOutsideRootWriteGrant fs_message sandbox).

(** The reference that a grant in the chosen scope gets. *)
Definition scope_ref_of (input : MintGrantInput) (sessionId : string) (workspaceId : option string) : option string :=
  if mi_workspaceScope input then workspaceId else Some sessionId.

(** The row of a minted grant. *)
Definition folder_row (input : MintGrantInput) (toolName ref : string) (folders : list string) (createdAt expiresAt : string) : ToolGrantRow :=
  mkGrantRow toolName "allow" (scope_word (mi_workspaceScope input)) ref "ttl"
    (Some (mkConstraints [] [] [] None None None (Some folders) (Some (mi_approvalId input)))) (mi_createdBy input) createdAt
    (Some expiresAt) None None None.

Lemma lift_run {E S A} (r : outcome E A) (s s' : S) a : lift r s = (Ok a, s') → r = Ok a ∧ s' = s.
Proof. unfold lift. by intros [= -> <-]. Qed.

Lemma from_path_ok {A} (r : pres A) a : from_path fs_message r = Ok a → r = Ok a.
Proof. unfold from_path. destruct r as [b|[]]; [by intros [= <-]|done|done]. Qed.

Lemma trim_tool toolName : isOutsideRootWriteTool toolName = true → trim toolName = toolName.
Proof.
  unfold isOutsideRootWriteTool. rewrite bool_decide_eq_true. revert toolName. apply Forall_forall.
  repeat (apply Forall_cons_2; [reflexivity|]). constructor.
Qed.

Lemma duration_bounds d ms : duration_ms d = Some ms → 0 < ms ≤ 8 * 60 * 60 * 1000.
Proof.
  unfold duration_ms. destruct (List.find _ _) as [[d' ms']|] eqn:E; [|done]. intros [= <-]. apply find_some in E as [Hin _]. cbn.
  revert Hin. cbn. intros [[= _ <-]|[[= _ <-]|[[= _ <-]|[]]]]; lia.
Qed.

(** What [check_approval] has seen. *)
Lemma check_approval_ok w id : check_approval w id = Ok tt →
  ∃ approval resolvedMs, (Approvals.get id (mw_approvals w)).1 = Ok approval ∧ ar_status approval = approval_approved ∧
    resolvedAt approval ≫= date_parse = Some resolvedMs ∧ mw_checkedAt w ≤ resolvedMs + 15 * 60 * 1000.
Proof.
  unfold check_approval. intros (approval & Ha & Hc)%outcome_bind_ok.
  apply outcome_bind_ok in Hc as ([] & Hs%throw_when_ok%negb_false_iff%bool_decide_eq_true & Hc%throw_when_ok).
  destruct (resolvedAt approval) as [at_|] eqn:Er; [|done]. destruct (truthy at_); [|done].
  destruct (date_parse at_) as [ms|] eqn:Ed; [|done]. apply Z.ltb_ge in Hc. unfold OUTSIDE_ROOT_WRITE_GRANT_MINT_WINDOW_MS in Hc.
  exists approval, ms. rewrite Er. cbn. split_and!; try done. lia.
Qed.

(** A validated folder grant has the canonical folders. *)
Lemma validated_folders fs input nowMs constraints roots ctx out :
  g_constraints input = Some constraints → writeRoots constraints = Some roots → outsideRootWriteSafetyContext sandbox = Some ctx →
  validateWriteRootsGrantInput fs input sandbox nowMs = Ok out →
  ∃ folders, canonical_folders fs roots ctx [] = Ok folders ∧
    out = input <| g_constraints := Some (constraints <| writeRoots := Some folders |>) |>.
Proof.
  intros Hc Hr Hctx. unfold validateWriteRootsGrantInput. rewrite Hc, Hr, Hctx. intros Hv.
  do 8 (apply outcome_bind_ok in Hv as ([] & _ & Hv)). apply outcome_bind_ok in Hv as (folders & Hf & [= <-]). by exists folders.
Qed.

(** The row that a folder grant is created as. *)
Lemma created_folder_row input toolName ref folders createdAt clock expiresAt row : isOutsideRootWriteTool toolName = true →
  created_row createdAt clock
    (mkGrantInput toolName "allow" (scope_word (mi_workspaceScope input)) (Some ref) (Some "ttl")
       (Some (mkConstraints [] [] [] None None None (Some folders) (Some (mi_approvalId input)))) (mi_createdBy input)
       (Some expiresAt) None) = Ok row →
  row = folder_row input toolName (trim ref) folders createdAt expiresAt.
Proof.
  intros Htool (scopeRef & Href & Hrow)%outcome_bind_ok. cbv zeta in Hrow.
  apply outcome_bind_ok in Hrow as ([] & _ & Hrow). apply outcome_bind_ok in Hrow as (lifetime & Hlife & Hrow).
  apply outcome_bind_ok in Hrow as ([] & _ & [= <-]).
  unfold normalizeGrantLifetime in Hlife. cbn in Hlife.
  apply outcome_bind_ok in Hlife as ([] & _ & Hlife). apply outcome_bind_ok in Hlife as ([] & _ & [= <-]). cbn. rewrite trim_tool by done.
  unfold normalizeScopeRef in Href. rewrite bool_decide_eq_false_2 in Href by (by destruct (mi_workspaceScope input)).
  cbn in Href. destruct (truthy (trim ref)); [|done]. by injection Href as <-.
Qed.

Lemma mint_run w input t g t' : mint w input t = (Ok g, t') →
  ∃ ctx toolName sessionId workspaceId ref roots folders ttlMs createdAt expiresAt,
    outsideRootWriteSafetyContext sandbox = Some ctx ∧ isOutsideRootWriteEnabled sandbox = true ∧
    duration_ms (mi_duration input) = Some ttlMs ∧ check_approval w (mi_approvalId input) = Ok tt ∧
    approved_write w (mi_approvalId input) = Ok (toolName, sessionId, workspaceId) ∧
    scope_ref_of input sessionId workspaceId = Some ref ∧ mi_scopeRef input = ref ∧ truthy ref = true ∧
    chosen_roots w ctx input = Some roots ∧ canonical_folders (mw_fs w) roots ctx [] = Ok folders ∧
    existsb (opened_by (mi_approvalId input)) (scope_grants "session" (Some sessionId) t ++ scope_grants "workspace" workspaceId t) = false ∧
    grant_ttl_window (mw_clock w) ttlMs = Some (createdAt, expiresAt) ∧ t !! mw_grantId w = None ∧
    t' = <[mw_grantId w := folder_row input toolName (trim ref) folders createdAt expiresAt]> t ∧
    g = mapGrantRow (mw_grantId w) (folder_row input toolName (trim ref) folders createdAt expiresAt).
Proof.
  unfold mintOutsideRootWriteGrant. destruct (outsideRootWriteSafetyContext sandbox) as [ctx|] eqn:Ectx; [|done].
  intros ([] & t1 & [Hen ->]%lift_run & Hm)%M_bind_ok. apply throw_when_ok, negb_false_iff in Hen.
  apply M_bind_ok in Hm as (ttlMs & t1 & [Httl ->]%lift_run & Hm).
  destruct (duration_ms (mi_duration input)) as [ms|] eqn:Edur; [|done]. injection Httl as ->.
  apply M_bind_ok in Hm as ([] & t1 & [Happ ->]%lift_run & Hm).
  apply M_bind_ok in Hm as ([[toolName sessionId] workspaceId] & t1 & [Hreq ->]%lift_run & Hm). cbv zeta in Hm.
  fold (scope_ref_of input sessionId workspaceId) in Hm.
  apply M_bind_ok in Hm as ([] & t1 & [Hscope ->]%lift_run & Hm). apply throw_when_ok, orb_false_iff in Hscope as [Hn Hsame].
  apply negb_false_iff, bool_decide_eq_true in Hsame.
  apply M_bind_ok in Hm as (roots & t1 & [Hroots ->]%lift_run & Hm). destruct (chosen_roots w ctx input) as [roots'|] eqn:Ec; [|done].
  injection Hroots as ->. apply M_bind_ok in Hm as (expiresText & t1 & [_ ->]%lift_run & Hm).
  apply M_bind_ok in Hm as (validated & t1 & [Hval%from_path_ok ->]%lift_run & Hm).
  eapply validated_folders in Hval as (folders & Hfolders & Hval); [|reflexivity|reflexivity|exact Ectx].
  rewrite transaction_ok in Hm. apply M_bind_ok in Hm as (existing & t1 & [-> ->]%gets_ok & Hm).
  apply M_bind_ok in Hm as ([] & t1 & [Hopened ->]%guard_throw_ok & Hm).
  subst validated. rewrite grant_ttl_run in Hm. destruct (ttlMs <=? 0); [done|].
  destruct (grant_ttl_window (mw_clock w) ttlMs) as [[createdAt expiresAt]|] eqn:Ewin; [|done].
  destruct (scope_ref_of input sessionId workspaceId) as [ref|] eqn:Eref; [|done]. injection Hsame as Hsame.
  apply negb_false_iff in Hn.
  destruct (created_row _ _ _) as [row|] eqn:Erow; [|done]. cbn in Hm. destruct (t !! mw_grantId w) eqn:Et; [done|].
  injection Hm as <- <-.
  assert (isOutsideRootWriteTool toolName = true) as Htool.
  { unfold approved_write in Hreq. apply outcome_bind_ok in Hreq as ([r|] & _ & Hreq); [|done]. cbv zeta in Hreq.
    destruct (isOutsideRootWriteTool _) eqn:E; [|done]. by injection Hreq as <- _ _. }
  apply created_folder_row in Erow as ->; [|done].
  exists ctx, toolName, sessionId, workspaceId, ref, roots, folders, ttlMs, createdAt, expiresAt. by split_and!.
Qed.
(** C23. A folder is opened only as the operator approved it: a minted grant stands
    on an approval that was given at most fifteen minutes before, allows the
    approved tool in the approved request's own session or workspace, for the
    chosen time of at most eight hours by the database's clock, and opens a folder
    that was offered with the approval, that no rule forbids, and in which all
    registered targets lie. *)
Theorem folder_grant_from_approval w input t g t' : mint w input t = (Ok g, t') →
  ∃ ctx approval resolvedMs toolName sessionId workspaceId ref details candidate roots folders ttlMs createdAt expiresAt,
    outsideRootWriteSafetyContext sandbox = Some ctx ∧ approvalRequiredOutside sandbox = true ∧
    (Approvals.get (mi_approvalId input) (mw_approvals w)).1 = Ok approval ∧ ar_status approval = approval_approved ∧
    resolvedAt approval ≫= date_parse = Some resolvedMs ∧ mw_checkedAt w ≤ resolvedMs + 15 * 60 * 1000 ∧
    approved_write w (mi_approvalId input) = Ok (toolName, sessionId, workspaceId) ∧ toolName ∈ OUTSIDE_ROOT_WRITE_TOOLS ∧
    scope_ref_of input sessionId workspaceId = Some ref ∧
    describeOutsideRootWriteApproval (mi_approvalId input) (mw_events w) = Some details ∧
    candidate ∈ od_candidates details ∧ rootId candidate = mi_rootId input ∧
    Forall (λ r, resolve1 r = resolve1 (cr_path candidate)) roots ∧
    Forall (λ target, ∃ r, r ∈ roots ∧ resolve1 r `prefix_of` resolve1 target) (od_targets details) ∧
    canonical_folders (mw_fs w) roots ctx [] = Ok folders ∧ Forall (safe_folder (mw_fs w) ctx) (roots ++ folders) ∧
    duration_ms (mi_duration input) = Some ttlMs ∧ ttlMs ≤ 8 * 60 * 60 * 1000 ∧
    grant_ttl_window (mw_clock w) ttlMs = Some (createdAt, expiresAt) ∧
    g = mapGrantRow (mw_grantId w) (folder_row input toolName (trim ref) folders createdAt expiresAt) ∧
    t' = <[mw_grantId w := folder_row input toolName (trim ref) folders createdAt expiresAt]> t.
Proof.
  intros (ctx & toolName & sessionId & workspaceId & ref & roots & folders & ttlMs & createdAt & expiresAt & Hctx & Hen & Hdur &
    (approval & resolvedMs & ? & ? & ? & ?)%check_approval_ok & Hreq & Href & _ & _ & Hroots & Hfolders & _ & Hwin & _ & -> & ->)%mint_run.
  unfold chosen_roots in Hroots. apply bind_Some in Hroots as (details & Hdet & Hroots).
  apply bind_Some in Hroots as (candidate & Hcand & (Hsafe & Hsame & Htargets)%(grant_admits Hlaws)).
  apply find_some in Hcand as [Hin%list_elem_of_In Hid%bool_decide_eq_true].
  apply canonical_folders_spec in Hfolders as Hfs; [|done|by constructor|apply NoDup_nil_2]. destruct Hfs as (Hsafe' & _).
  apply andb_true_iff in Hen as [Hen _].
  assert (toolName ∈ OUTSIDE_ROOT_WRITE_TOOLS) as Htool.
  { unfold approved_write in Hreq. apply outcome_bind_ok in Hreq as ([r|] & _ & Hreq); [|done]. cbv zeta in Hreq.
    destruct (isOutsideRootWriteTool _) eqn:E; [|done]. injection Hreq as <- _ _. by apply bool_decide_eq_true in E. }
  pose proof (duration_bounds _ _ Hdur) as [_ ?].
  exists ctx, approval, resolvedMs, toolName, sessionId, workspaceId, ref, details, candidate, roots, folders, ttlMs, createdAt, expiresAt.
  split_and!; try done.
  - eapply Forall_impl; [exact Hsame|]. by intros r (root & ->%list_elem_of_singleton & ->).
  - by apply Forall_app.
Qed.

(** ** One folder for one approval *)

Inductive folder_step :=
  | GrantStep (c : grant_call)
  | MintStep (w : MintWorld) (input : MintGrantInput).

Definition run_step (s : folder_step) (t : grant_table) : grant_table :=
  match s with GrantStep c => run_grant c t | MintStep w input => (mint w input t).2 end.
Definition run_steps (steps : list folder_step) (t : grant_table) : grant_table := foldl (λ t s, run_step s t) t steps.

(** Whether a step minted a grant for an approval, and how many did. *)
Definition step_mints (approvalId : string) (s : folder_step) (t : grant_table) : bool :=
  match s with
  | MintStep w input => bool_decide (mi_approvalId input = approvalId) && is_ok (mint w input t).1
  | GrantStep _ => false
  end.
Fixpoint times_minted (approvalId : string) (steps : list folder_step) (t : grant_table) : nat :=
  match steps with
  | [] => 0
  | s :: steps => (if step_mints approvalId s t then 1 else 0) + times_minted approvalId steps (run_step s t)
  end.

(** The mintings of an approval read one request, of this session and workspace. *)
Definition stands_for (approvalId sessionId : string) (workspaceId : option string) (s : folder_step) : Prop :=
  match s with
  | MintStep w input =>
      mi_approvalId input = approvalId → ∀ toolName session workspace,
        approved_write w approvalId = Ok (toolName, session, workspace) → session = sessionId ∧ workspace = workspaceId
  | GrantStep _ => True
  end.

(** A grant that the approval opened is in the table, in one of its two scopes. *)
Definition opened (approvalId sessionId : string) (workspaceId : option string) (t : grant_table) : Prop :=
  ∃ id row, t !! id = Some row ∧ gr_constraints row ≫= writeRootsApprovalId = Some approvalId ∧ gr_scope_ref row ≠ "" ∧
    (gr_scope row = "session" ∧ gr_scope_ref row = sessionId ∨ gr_scope row = "workspace" ∧ Some (gr_scope_ref row) = workspaceId).
(** The rows of a table stay, with their scope and constraints. *)
Definition rows_stay (t t' : grant_table) : Prop :=
  (size t ≤ size t')%nat ∧
  ∀ id row, t !! id = Some row → ∃ row', t' !! id = Some row' ∧
    gr_constraints row' = gr_constraints row ∧ gr_scope row' = gr_scope row ∧ gr_scope_ref row' = gr_scope_ref row.

#[local] Instance rows_stay_preorder : PreOrder rows_stay.
Proof.
  split; [intros t; split; [done|]; intros id row Hr; by exists row|].
  intros t1 t2 t3 [Hs1 H1] [Hs2 H2]. split; [lia|]. intros id row Hr.
  destruct (H1 id row Hr) as (row' & Hr' & ? & ? & ?). destruct (H2 id row' Hr') as (row2 & ? & ? & ? & ?).
  exists row2. split_and!; congruence.
Qed.

Lemma insert_created_stays id r t : rows_stay t (insert_created id r t).2.
Proof.
  unfold insert_created. destruct r as [row|]; [|reflexivity]. destruct (t !! id) eqn:E; [reflexivity|]. cbn.
  split; [rewrite map_size_insert_None by done; lia|]. intros id' row' Hr. exists row'.
  rewrite lookup_insert_ne by congruence. done.
Qed.

Lemma row_change_stays id row row' t : t !! id = Some row →
  gr_constraints row' = gr_constraints row → gr_scope row' = gr_scope row → gr_scope_ref row' = gr_scope_ref row →
  rows_stay t (<[id := row']> t).
Proof.
  intros Hr ? ? ?. split; [rewrite map_size_insert_Some by (by eexists); done|]. intros id' r Hr'.
  destruct (decide (id = id')) as [<-|Hne]; [exists row'; rewrite lookup_insert_eq; simplify_eq; done|].
  exists r. by rewrite lookup_insert_ne.
Qed.

Lemma run_grant_stays c t : rows_stay t (run_grant c t).
Proof.
  destruct c as [id now clock input|id clock input ttlMs|id at_ by_|clock id]; cbn [run_grant].
  - rewrite create_run. apply insert_created_stays.
  - rewrite grant_ttl_run. destruct (ttlMs <=? 0); [reflexivity|].
    destruct (grant_ttl_window clock ttlMs) as [[a b]|]; [apply insert_created_stays|reflexivity].
  - rewrite revoke_run. cbv zeta. destruct (negb _); [reflexivity|]. destruct (t !! id) as [row|] eqn:E; [|reflexivity].
    destruct (unrevoked row); [|reflexivity]. by eapply row_change_stays.
  - rewrite consume_run. destruct (t !! id) as [row|] eqn:E; [|reflexivity]. destruct (consumable clock row); [|reflexivity].
    unfold consumed. by destruct (one_time row); eapply row_change_stays.
Qed.

Lemma mint_stays w input : moves rows_stay (mint w input).
Proof.
  unfold mintOutsideRootWriteGrant. destruct (outsideRootWriteSafetyContext sandbox) as [ctx|]; [|apply moves_throw; apply _].
  do 3 (apply moves_bind; [apply _|by moves|intros ?]). apply moves_bind; [apply _|by moves|].
  intros [[toolName sessionId] workspaceId]. cbv zeta. do 4 (apply moves_bind; [apply _|by moves|intros ?]).
  apply moves_transaction; [apply _|]. do 2 (apply moves_bind; [apply _|by moves|intros ?]).
  intros t. apply (run_grant_stays (CreateTtlCall _ _ _ _)).
Qed.

Lemma run_step_stays s t : rows_stay t (run_step s t).
Proof. destruct s as [c|w input]; [apply run_grant_stays|apply mint_stays]. Qed.
Lemma run_steps_stays steps : ∀ t, rows_stay t (run_steps steps t).
Proof.
  induction steps as [|s steps IH]; intros t; [reflexivity|]. cbn. etrans; [apply run_step_stays|apply IH].
Qed.

Lemma rows_stay_opened approvalId sessionId workspaceId t t' : rows_stay t t' →
  opened approvalId sessionId workspaceId t → opened approvalId sessionId workspaceId t'.
Proof.
  intros [_ Hs] (id & row & Hrow & Ha & Hn & Hscope). destruct (Hs id row Hrow) as (row' & Hrow' & Ec & Es & Er).
  exists id, row'. rewrite Ec, Es, Er. by split_and!.
Qed.

(** The scan of a small enough table is complete. *)
Lemma scope_grants_complete scope ref t id row : ref ≠ "" → Z.of_nat (size t) ≤ MINT_DUPLICATE_SCAN_LIMIT →
  t !! id = Some row → gr_scope row = scope → gr_scope_ref row = ref → truthy scope = true →
  mapGrantRow id row ∈ scope_grants scope (Some ref) t.
Proof.
  intros Hne Hsize Hrow Hscope Href Hts. unfold scope_grants, listGrants. rewrite (proj2 (truthy_spec ref) Hne). unfold sql_limit.
  rewrite (proj2 (Z.ltb_ge _ _)) by done. rewrite take_ge.
  - apply elem_of_select_grants. exists row. split_and!; try done. unfold in_scope, clause. cbn. rewrite Hscope, Href.
    by rewrite !bool_decide_eq_true_2, !orb_true_r.
  - unfold select_grants. rewrite order_by_Permutation, length_map; etrans; [apply List.filter_length_le|].
    rewrite length_map_to_list. lia.
Qed.

Lemma opened_seen approvalId sessionId workspaceId t : Z.of_nat (size t) ≤ MINT_DUPLICATE_SCAN_LIMIT →
  opened approvalId sessionId workspaceId t →
  existsb (opened_by approvalId) (scope_grants "session" (Some sessionId) t ++ scope_grants "workspace" workspaceId t) = true.
Proof.
  intros Hsize (id & row & Hrow & Ha & Hn & Hscope). apply existsb_exists. exists (mapGrantRow id row).
  split; [|by apply bool_decide_eq_true_2]. rewrite <-list_elem_of_In, elem_of_app.
  destruct Hscope as [[Hs <-]|[Hs <-]]; [left|right]; by apply scope_grants_complete.
Qed.

Lemma mint_opens approvalId sessionId workspaceId w input t g t' :
  trim sessionId = sessionId → (∀ ws, workspaceId = Some ws → trim ws = ws) →
  stands_for approvalId sessionId workspaceId (MintStep w input) → mi_approvalId input = approvalId →
  mint w input t = (Ok g, t') → opened approvalId sessionId workspaceId t'.
Proof.
  intros Hs Hws Hstands Ha (ctx & toolName & session & workspace & ref & roots & folders & ttlMs & createdAt & expiresAt & _ & _ & _ & _ &
    Hreq & Href & _ & Hne & _ & _ & _ & _ & _ & -> & _)%mint_run.
  rewrite Ha in Hreq. destruct (Hstands Ha _ _ _ Hreq) as [-> ->]. apply truthy_spec in Hne.
  assert (trim ref = ref) as Htrim.
  { unfold scope_ref_of in Href. destruct (mi_workspaceScope input); [by apply Hws|by injection Href as <-]. }
  exists (mw_grantId w), (folder_row input toolName (trim ref) folders createdAt expiresAt). rewrite lookup_insert_eq, Htrim. cbn.
  split_and!; [done|by rewrite Ha|done|]. unfold scope_ref_of, scope_word in *.
  destruct (mi_workspaceScope input); [by right|left]. by injection Href.
Qed.

Lemma opened_mints_no_more approvalId sessionId workspaceId s t :
  stands_for approvalId sessionId workspaceId s → opened approvalId sessionId workspaceId t →
  Z.of_nat (size t) ≤ MINT_DUPLICATE_SCAN_LIMIT → step_mints approvalId s t = false.
Proof.
  intros Hstands Hopened Hsize. destruct s as [c|w input]; [done|]. cbn.
  destruct (bool_decide _) eqn:Ha; [|done]. apply bool_decide_eq_true in Ha. cbn.
  destruct (mint w input t) as [[g|e] t'] eqn:Hm; [|done].
  apply mint_run in Hm as (ctx & toolName & session & workspace & ref & roots & folders & ttlMs & createdAt & expiresAt & _ & _ & _ & _ &
    Hreq & _ & _ & _ & _ & _ & Hnone & _).
  rewrite Ha in Hreq, Hnone. destruct (Hstands Ha _ _ _ Hreq) as [-> ->]. by rewrite opened_seen in Hnone.
Qed.

Lemma opened_times approvalId sessionId workspaceId steps : Forall (stands_for approvalId sessionId workspaceId) steps →
  ∀ t, opened approvalId sessionId workspaceId t → Z.of_nat (size (run_steps steps t)) ≤ MINT_DUPLICATE_SCAN_LIMIT →
  times_minted approvalId steps t = 0%nat.
Proof.
  induction 1 as [|s steps Hs _ IH]; intros t Hopened Hsize; [done|]. cbn.
  pose proof (run_step_stays s t) as Hstep. pose proof (run_steps_stays steps (run_step s t)) as [Hlater _].
  change (run_steps (s :: steps) t) with (run_steps steps (run_step s t)) in Hsize.
  rewrite (opened_mints_no_more _ _ _ s t Hs Hopened) by (destruct Hstep; lia).
  rewrite IH; [done| |done]. by eapply rows_stay_opened.
Qed.

(** C24. One approval opens at most one folder: in every sequence of grant calls
    and mintings, by whoever and with whatever is read from the tables at each
    one, at most one minting of an approval succeeds, in whichever of its two
    scopes, and also after the grant was revoked or has expired; as long as the
    approval stands for the same session and workspace throughout, their names
    have no surrounding blanks, and the table is within the limit of the scan. *)
Theorem one_folder_per_approval approvalId sessionId workspaceId steps :
  Forall (stands_for approvalId sessionId workspaceId) steps →
  trim sessionId = sessionId → (∀ ws, workspaceId = Some ws → trim ws = ws) →
  Z.of_nat (size (run_steps steps ∅)) ≤ MINT_DUPLICATE_SCAN_LIMIT →
  (times_minted approvalId steps ∅ ≤ 1)%nat.
Proof.
  intros Hsteps Hs Hws. generalize (∅ : grant_table) as t. induction Hsteps as [|s steps Hstands Hsteps IH]; intros t Hsize; [cbn; lia|].
  cbn in *. destruct (step_mints approvalId s t) eqn:E; [|by apply IH]. destruct s as [c|w input]; [done|]. cbn in E.
  apply andb_true_iff in E as [Ha%bool_decide_eq_true E]. destruct (mint w input t) as [[g|e] t'] eqn:Hm; [|done].
  cbn [run_step] in *. rewrite Hm in *. cbn in *.
  rewrite (opened_times approvalId sessionId workspaceId); [lia|done| |done]. by eapply mint_opens.
Qed.
End minted.
