(* ===== verification/FolderExamples.v ===== *)
(** * Folder grants at work

    A write outside the roots, from its approval to the folder that the operator
    opens with it: the theorems about folder grants applied. *)
From S2P Require Import Prelude.
From S2P Require Import JsString.
From S2P Require Import JsJson.
From S2P Require Import ToolPatterns.
From S2P Require Import FileSystem.
From S2P Require Import PathJail.
From S2P Require Import ToolWriteGate.
From S2P Require Import ToolGrants.
From S2P Require Import OutsideRootWrite.
From S2P Require Import AccessDecision.
From S2P Require Import FolderGrants.
From S2P Require Import SandboxExamples.
From S2P Require Import Approvals.
From S2P Require Import ApprovalTheorems.
From S2P Require Import PendingActions.
From S2P Require Import ToolRequests.
From S2P Require Import ApprovalBypass.
From S2P Require Import ApprovalExamples.
Import PathJailExamples.

(** A write to /home/ana/out, asked for, registered with its folder, approved. *)
Definition report_args : list (string * json) := [("path", JString "/home/ana/out/report.md"); ("content", JString "hello")].
Definition report_input : ApprovalCreateInput :=
  mkCreateApproval "fs.write" risk_danger report_args [("toolName", JString "fs.write")] None None None.
Definition report_approvals : approval_table :=
  run_calls [CreateTtlCall "appr-9" new_year report_input (Some (15 * minute)); ResolveCall (new_year + minute) "appr-9" approve false] ∅.
Definition report_request : request :=
  [("toolName", JString "fs.write"); ("args", JObject report_args); ("agentId", JString "agent"); ("sessionId", JString "s-1");
   ("workspaceId", JString "home"); ("surface", JString "chat")].
Definition report_pending : pending_table :=
  run_pendings [UpsertPendingCall "2026-01-01T00:00:00.000Z" "appr-9" tool_invoke (JObject report_request) None
                  (Some "2026-01-01T00:15:00.000Z")] ∅.
Definition report_details : json := JObject [
  ("kind", JString "outside_root_write"); ("targets", JArray [JString "/home/ana/out/report.md"]);
  ("candidates", JArray [JObject [("rootId", JString "owr_1"); ("path", JString "/home/ana/out")]]);
  ("durations", JArray [JString "15m"; JString "1h"; JString "8h"]); ("defaultDuration", JString "1h")].
Definition report_events : event_table :=
  (append "ev-2" "2026-01-01T00:00:01.000Z" "appr-9" "pending_action_registered" "system" None [("outsideRootWrite", report_details)]
    (append "ev-1" "2026-01-01T00:00:00.000Z" "appr-9" "created" "system" None [] ∅).2).2.

Definition world_at (time : Z) (id : string) : MintWorld :=
  mkMintWorld export_disk report_approvals report_pending report_events time time time time id.
Definition for_session : MintGrantInput := mkMint "appr-9" "owr_1" "1h" false "s-1" "ana".
Definition for_workspace : MintGrantInput := mkMint "appr-9" "owr_1" "8h" true "home" "ana".
Abbreviation mint time id input := (mintOutsideRootWriteGrant (λ _, "io error") open_sandbox (world_at time id) input).

Definition minted_row : ToolGrantRow :=
  folder_row for_session "fs.write" "s-1" ["/home/ana/out"] "2026-01-01T00:05:00.000Z" "2026-01-01T01:05:00.000Z".
Example session_folder : mint (new_year + 5 * minute) "g-1" for_session ∅ = (Ok (mapGrantRow "g-1" minted_row), {[ "g-1" := minted_row ]}).
Proof. vm_compute. reflexivity. Qed.

(** Not later, and not another folder. *)
Example no_folder :
  is_ok (mint (new_year + 17 * minute) "g-1" for_session ∅).1 = false ∧
  is_ok (mint (new_year + 5 * minute) "g-1" (mkMint "appr-9" "owr_2" "1h" false "s-1" "ana") ∅).1 = false ∧
  is_ok (mint (new_year + 5 * minute) "g-1" (mkMint "appr-9" "owr_1" "1h" false "s-2" "ana") ∅).1 = false.
Proof. by vm_compute. Qed.

Lemma folder_grant_from_approval_witness :
  ∃ approval, (Approvals.get "appr-9" report_approvals).1 = Ok approval ∧ ar_status approval = approval_approved ∧
    approved_write (world_at (new_year + 5 * minute) "g-1") "appr-9" = Ok ("fs.write", "s-1", Some "home").
Proof.
  destruct (folder_grant_from_approval linux_laws (λ _, "io error") open_sandbox (world_at (new_year + 5 * minute) "g-1") for_session ∅
    (mapGrantRow "g-1" minted_row) {[ "g-1" := minted_row ]} session_folder)
    as (_ & approval & _ & toolName & sessionId & workspaceId & _ & _ & _ & _ & _ & _ & _ & _ & _ & _ & Ha & Hs & _).
  exists approval. split; [exact Ha|]. split; [exact Hs|]. vm_compute. reflexivity.
Defined.

(** Opened, closed, and asked for again: for the workspace, and for the session. *)
Definition folder_steps : list folder_step := [
  MintStep (world_at (new_year + 5 * minute) "g-1") for_session; GrantStep (RevokeGrantCall "g-1" "2026-01-01T00:06:00.000Z" (Some "ana"));
  MintStep (world_at (new_year + 7 * minute) "g-2") for_workspace; MintStep (world_at (new_year + 8 * minute) "g-3") for_session].

Lemma report_write time id : approved_write (world_at time id) "appr-9" = Ok ("fs.write", "s-1", Some "home").
Proof. vm_compute. reflexivity. Qed.

Lemma folder_steps_stand : Forall (stands_for "appr-9" "s-1" (Some "home")) folder_steps.
Proof.
  repeat apply Forall_cons_2; try exact I; try apply Forall_nil_2; intros _ toolName session workspace; rewrite report_write;
    by intros [= _ <- <-].
Qed.

Abbreviation minted_times := (times_minted (λ _, "io error") open_sandbox "appr-9" folder_steps ∅).
Example workspace_folder_alone : is_ok (mint (new_year + 7 * minute) "g-2" for_workspace ∅).1 = true.
Proof. vm_compute. reflexivity. Qed.

Lemma one_folder_per_approval_witness : minted_times = 1%nat ∧ (minted_times ≤ 1)%nat.
Proof.
  split; [vm_compute; reflexivity|].
  apply (one_folder_per_approval (λ _, "io error") open_sandbox "appr-9" "s-1" (Some "home") folder_steps folder_steps_stand).
  - reflexivity.
  - by intros ws [= <-].
  - vm_compute. discriminate.
Defined.

(** A session with a blank around its name: the grants are stored under the
    trimmed name, the scan looks under the other, and both mintings succeed. *)
Definition padded_world (id : string) : MintWorld :=
  mkMintWorld export_disk report_approvals
    (run_pendings [UpsertPendingCall "2026-01-01T00:00:00.000Z" "appr-9" tool_invoke
       (JObject (set_field_json "sessionId" (JString "s-1 ") report_request)) None (Some "2026-01-01T00:15:00.000Z")] ∅)
    report_events (new_year + 5 * minute) (new_year + 5 * minute) (new_year + 5 * minute) (new_year + 5 * minute) id.
Definition in_padded : MintGrantInput := mkMint "appr-9" "owr_1" "1h" false "s-1 " "ana".
Example padded_session_opens_twice :
  times_minted (λ _, "io error") open_sandbox "appr-9" [MintStep (padded_world "g-1") in_padded; MintStep (padded_world "g-2") in_padded] ∅
    = 2%nat.
Proof. vm_compute. reflexivity. Qed.
