(* ===== verification/Invocation.v ===== *)
(** * Invocations (packages/policy-engine/src/engine.ts)

    [invoke] and [executeApprovedAction] over the tables of the engine: the access
    decision, the question to the operator with its registered action, the use of
    a grant, the run of the tool, and the rows that record what became of it
    (approval-gate.ts for the creation of the approval, own-delivery.ts for the
    delivery marker).  What the tool does is the argument [ic_execute]; the audit
    log is the answer [ic_audit] to each of its lines; the callbacks of the
    caller are their outcomes.  The state has a list of what the outside has seen,
    which the program does not keep.

    The approval is created as without the Gateway's own lifecycle
    ([createApproval]).  Left out are the columns of arguments, results and
    details, which are sanitised texts, and the views of a result for the model. *)
From S2P Require Import Prelude.
From S2P Require Import JsString.
From S2P Require Import JsJson.
From S2P Require Import JsJsonText.
From S2P Require Import JsObject.
From S2P Require Import Errors.
From S2P Require Import ToolPolicy.
From S2P Require Import NetworkGuard.
From S2P Require Import FileSystem.
From S2P Require Import OutsideRootWrite.
From S2P Require Import ShellRisk.
From S2P Require Import Approvals.
From S2P Require Import PendingActions.
From S2P Require Import ToolRequests.
From S2P Require Import ApprovalBypass.
From S2P Require Import ToolGrants.
From S2P Require Import AccessLog.
From S2P Require Import AccessDecision.
From S2P Require Import FolderGrants.

(** ** The tables *)

Record InvocationRow := mkInvocationRow {
  in_timestamp : string;
  in_agent_id : string;
  in_session_id : string;
  in_task_id : option string;
  in_run_id : option string;
  in_tool_name : string;
  in_outcome : string;
  in_policy_reason : string;
  in_approval_id : option string;
  in_matched_grant_id : option string;
  in_permission_profile_id : option string;
  in_local_operator_override_id : option string;
  in_approval_mode : option ToolApprovalMode;
  in_reason_codes : option (list string);
}.
Record BlockRow := mkBlockRow {
  bl_timestamp : string;
  bl_agent_id : string;
  bl_session_id : string;
  bl_task_id : option string;
  bl_run_id : option string;
  bl_tool_name : string;
  bl_reason : string;
  bl_matched_grant_id : option string;
  bl_permission_profile_id : option string;
  bl_local_operator_override_id : option string;
  bl_approval_mode : option ToolApprovalMode;
  bl_reason_codes : option (list string);
}.

(** What the outside has seen: the marks of an external effect, and the tools run. *)
Inductive outside_event :=
  | EffectStarted (auditEventId : string)
  | EffectNotRequired (auditEventId : string)
  | ToolRan (auditEventId : string) (executed : request) (underApproval usedGrant : option string).

Record EngineTables := mkTables {
  et_grants : grant_table;
  et_decisions : decision_table;
  et_approvals : approval_table;
  et_pending : pending_table;
  et_events : event_table;
  et_invocations : gmap string InvocationRow;
  et_blocks : gmap string BlockRow;
  et_outside : list outside_event;
}.
#[export] Instance eta_EngineTables : Eta EngineTables := λ s,
  mkTables (et_grants s) (et_decisions s) (et_approvals s) (et_pending s) (et_events s) (et_invocations s) (et_blocks s) (et_outside s).
Definition no_tables : EngineTables := mkTables ∅ ∅ ∅ ∅ ∅ ∅ ∅ [].

#[export] Instance eta_ToolPolicyEvaluateOptions : Eta ToolPolicyEvaluateOptions := λ o,
  mkOptions (mcpToolBinding o) (meshToolBinding o) (mcpApprovalRelief o) (ownDelivery o).
#[export] Instance eta_AccessWorld : Eta AccessWorld := λ w,
  mkWorld (w_now w) (w_clock w) (w_grants w) (w_decisions w) (w_sessionWorkspace w) (w_listWards w) (w_verifiedApprovalId w)
    (w_outsideRootWriteEligible w) (w_registeredTargets w) (w_grantHosts w) (w_artifactPath w) (w_firecrawlEndpoint w)
    (w_searchHosts w) (w_interactionSteps w).

(** What a call throws: [SpawnRefused] is the executor's word that the process was
    not started, with its cause. *)
Inductive engine_error :=
  | Thrown (e : js_error)
  | ToolExecutionPreconditionError (message : string) (result : option (list (string * json)))
  | HttpMutationOutcomeUnknownError (message : string)
  | ToolBeforeProcessSpawnError (cancelled : bool) (boundaryCause : engine_error).
Abbreviation engine := (M engine_error EngineTables).

Fixpoint error_text (e : engine_error) : string :=
  match e with
  | Thrown e => error_message e
  | ToolExecutionPreconditionError message _ | HttpMutationOutcomeUnknownError message => message
  | ToolBeforeProcessSpawnError cancelled cause =>
      if cancelled then "Tool process spawn was cancelled before execution."
      else "Tool process spawn precondition failed: " +:+ error_text cause
  end.

Definition thrown {A} (r : res A) : outcome engine_error A := match r with Ok a => Ok a | Err e => Err (Thrown e) end.
Definition throwing {S A} (m : M js_error S A) : M engine_error S A := λ s, let '(r, s') := m s in (thrown r, s').
Definition in_grants {A} (m : grants A) : engine A := zoom et_grants (λ t s, s <| et_grants := t |>) (throwing m).
Definition in_decisions {A} (m : decisions A) : engine A := zoom et_decisions (λ t s, s <| et_decisions := t |>) (throwing m).
Definition in_approvals {A} (m : approvals A) : engine A := zoom et_approvals (λ t s, s <| et_approvals := t |>) (throwing m).
Definition in_pending {A} (m : pendings A) : engine A := zoom et_pending (λ t s, s <| et_pending := t |>) (throwing m).
Definition in_events {A} (m : M js_error event_table A) : engine A := zoom et_events (λ t s, s <| et_events := t |>) (throwing m).
Definition see (events : list outside_event) : engine unit := modify (λ s, s <| et_outside := et_outside s ++ events |>).

(** What a refused spawn counts as; a cause that is no precondition goes on. *)
Definition normal_error (err : engine_error) : outcome engine_error engine_error :=
  match err with
  | ToolBeforeProcessSpawnError true _ =>
      Ok (ToolExecutionPreconditionError "tool invocation was cancelled before process spawn" None)
  | ToolBeforeProcessSpawnError false (ToolExecutionPreconditionError message result) =>
      Ok (ToolExecutionPreconditionError message result)
  | ToolBeforeProcessSpawnError false cause => Err cause
  | _ => Ok err
  end.

(** ** One call *)

(** The lines that a call writes to the audit log. *)
Inductive audit_line := NetworkLine | InvocationLine | BlockLine.

(** What one call meets.  [ic_world] has the answers of the parts that are not
    modelled here, with the clock of the database and the time of the process;
    [ic_networkTargets] says whether an outbound target is to be reported;
    [ic_markStarted] is absent when the caller does not ask for the marks;
    [ic_execute] is what the tool does with the hooks it is given: whether it
    announced an external effect, and how it ended.  A process tool calls
    [beforeExecute] itself, before it starts the process. *)
Record InvokeCall := mkInvokeCall {
  ic_world : AccessWorld;
  ic_nowIso : string;
  ic_auditEventId : string;
  ic_decisionId : string;
  ic_approvalId : string;
  ic_eventId : string;
  ic_registrationId : string;
  ic_options : ToolPolicyEvaluateOptions;
  ic_ownReason : string;
  ic_preview : list (string * json);
  ic_linkage : option (list (string * json));
  ic_bindDelivery : res unit;
  ic_networkTargets : bool;
  ic_audit : audit_line → outcome engine_error unit;
  ic_beforeExecute : outcome engine_error unit;
  ic_markStarted : option (outcome engine_error unit);
  ic_execute : request → bool * outcome engine_error (list (string * json));
}.
Definition ic_clock (c : InvokeCall) : Z := w_clock (ic_world c).

Inductive invoke_outcome := outcome_executed | outcome_approval_required | outcome_blocked.
#[export] Instance invoke_outcome_eq_dec : EqDecision invoke_outcome.
Proof. solve_decision. Defined.
Definition outcome_word (o : invoke_outcome) : string :=
  match o with outcome_executed => "executed" | outcome_approval_required => "approval_required" | outcome_blocked => "blocked" end.
Inductive tool_error_kind := policy_block | approval_needed | execution_error.

(** [ToolInvokeResult] without the views of the same values for the model. *)
Record ToolInvokeResult := mkInvokeResult {
  ir_outcome : invoke_outcome;
  ir_policyReason : string;
  ir_auditEventId : string;
  ir_approvalId : option string;
  ir_expiresAt : option string;
  ir_result : option (list (string * json));
  ir_wardEffect : option WardEffect;
  ir_errorKind : option tool_error_kind;
}.
Definition blocked_result (c : InvokeCall) (reason : string) (result : option (list (string * json))) (kind : tool_error_kind)
    : ToolInvokeResult :=
  mkInvokeResult outcome_blocked reason (ic_auditEventId c) None None result None (Some kind).
(** The reason, the result and the kind of a failed run. *)
Definition failure_of (err : engine_error) : string * option (list (string * json)) * tool_error_kind :=
  match err with
  | ToolExecutionPreconditionError message result => ("blocked: " +:+ message, result, policy_block)
  | _ => ("execution error: " +:+ error_text err, None, execution_error)
  end.
Definition executed_result (c : InvokeCall) (reason : string) (result : list (string * json)) (ward : option WardEffect)
    : ToolInvokeResult :=
  mkInvokeResult outcome_executed reason (ic_auditEventId c) None None (Some result) ward None.

Definition isDeepProcessBoundaryTool (toolName : string) : bool :=
  bool_decide (toolName ∈ ["shell.exec"; "shell.exec_background"; "tests.run"; "lint.run"; "build.run"]).
Definition executorReportsConcreteExternalSideEffectBoundary (toolName : string) : bool :=
  bool_decide (toolName ∈ ["http.post"; "webhook.send"; "calendar.create_event"]) ||
  existsb (λ suffix, ends_with suffix toolName) [".send"; ".react"; ".unsend"].

Definition strings_json (l : list string) : json := JArray (map JString l).
Definition ward_word (effect : WardEffect) : string :=
  match effect with
  | ward_allow => "allow" | ward_deny => "deny" | ward_require_approval => "require_approval"
  | ward_require_dry_run => "require_dry_run" | ward_redact => "redact" | ward_route_local => "route_local"
  end.

(** [request.k === true]. *)
Definition is_true (k : string) (r : request) : bool := match prop k r with Some (JBool true) => true | _ => false end.

(** The grant that the executor may read the hosts of. *)
Definition withExecutionGrantContext (r : request) (ev : AccessEvaluation) : request :=
  let context := object_fields (default (JObject []) (present (prop "policyContext" r))) in
  if negb (truthy_opt (ev_matchedGrantId ev)) && negb (bool_decide (is_Some (ev_matchedGrantAllowedHosts ev))) then r
  else
    let context := match ev_matchedGrantId ev with
                   | Some id => set_field_json "matchedGrantId" (JString id) context | None => context end in
    let context := match ev_matchedGrantAllowedHosts ev with
                   | Some hosts => set_field_json "matchedGrantAllowedHosts"
                                     (strings_json (List.filter (λ h, truthy (trim h)) hosts)) context
                   | None => context end in
    set_field_json "policyContext" (JObject context) r.

(** [details] of an outside write, as it is written into the events. *)
Definition candidate_json (c : OutsideRootWriteCandidateRoot) : json :=
  JObject [("rootId", JString (rootId c)); ("path", JString (cr_path c))].
Definition outside_details (targets : list string) (candidates : list OutsideRootWriteCandidateRoot) : json :=
  JObject [("kind", JString "outside_root_write"); ("targets", strings_json targets);
           ("candidates", JArray (map candidate_json candidates));
           ("durations", strings_json OUTSIDE_ROOT_WRITE_GRANT_DURATIONS.*1);
           ("defaultDuration", JString "1h")].
Definition outside_field (ev : AccessEvaluation) : option json :=
  (λ o, outside_details o.1 o.2) <$> ev_outsideRootWrite ev.

(** own-delivery.ts: the fact that a registration keeps, and the marker minted from it. *)
Definition OWN_DELIVERY_REASONS : list string := ["channel_reply"; "operator_action"].
Definition ownDeliveryRegistrationFact (c : InvokeCall) : option json :=
  if ownDelivery (ic_options c) then Some (JString (ic_ownReason c)) else None.
Definition mintOwnDeliveryFromRegistration (events : list ApprovalReplayEvent) (toolName : string) : bool :=
  match List.filter (λ ev, bool_decide (ev_eventType ev = "pending_action_registered")) events with
  | [registration] =>
      let f k := field k (ev_payload registration) in
      is_one ["tool.invoke"] (f "actionType") && is_one [toolName] (f "toolName") &&
      is_one OWN_DELIVERY_REASONS (f "ownDelivery")
  | _ => false
  end.

Definition risk_word (r : ToolRiskLevel) : string :=
  match r with tool_safe => "safe" | tool_caution => "caution" | tool_danger => "danger" | tool_nuclear => "nuclear" end.
Definition action_type_word (t : PendingActionType) : string :=
  match t with
  | tool_invoke => "tool.invoke" | code_mode_run => "code_mode.run" | code_mode_aider_promote => "code_mode.aider_promote"
  | integration_dry_run_commit => "integration.dry_run_commit"
  end.
Definition no_expiry : js_error := JsError "Database-owned approval creation did not return an expiry timestamp.".
(** [{ ...base, ...over }]. *)
Definition default_fields (over base : list (string * json)) : list (string * json) :=
  fold_left (λ o f, set_field_json f.1 f.2 o) over base.

Definition approval_risk (r : ToolRiskLevel) : ApprovalRiskLevel :=
  match r with tool_safe => risk_safe | tool_caution => risk_caution | tool_danger => risk_danger | tool_nuclear => risk_nuclear end.

Section engine.
Context `{Platform} `{Host} `{NodeBuffer} (fs : FileSystem) (sha256_hex : string → string) (fs_message : FsError → string).
Context (e : ToolPolicyEngine) (localeCompare : string → string → Z).
(** The fields of a request as the access decision reads them. *)
Context (typed : request → ToolAccessEvaluateRequest).
Context (c : InvokeCall).

(** ** Records of a call *)

Definition insert_block (r : request) (reason : string) (ev : option AccessEvaluation) (matchedGrantId : option string) : engine unit := λ s,
  match et_blocks s !! ic_auditEventId c with
  | Some _ => (Err (Thrown (SqliteConstraintError "policy_blocks.audit_event_id")), s)
  | None =>
      let q := typed r in
      let codes := List.filter truthy (map trim (default [] (ev_reasonCodes <$> ev))) in
      (Ok tt, s <| et_blocks := <[ic_auditEventId c :=
         mkBlockRow (ic_nowIso c) (rq_agentId q) (rq_sessionId q) (rq_taskId q) (rq_runId q) (rq_toolName q) reason
           (trimmed_or_none matchedGrantId) (trimmed_or_none (ev ≫= ev_permissionProfileId))
           (trimmed_or_none (ev ≫= ev_localOperatorOverrideId)) (ev ≫= ev_approvalMode)
           (if bool_decide (codes = []) then None else Some codes)]> (et_blocks s) |>)
  end.

(** [commitAlongsideBlock] is what is written in one transaction with the row. *)
Definition recordBlocked (r : request) (reason : string) (ev : option AccessEvaluation) (matchedGrantId : option string)
    (commitAlongsideBlock : option (engine unit)) (tolerateAuditDeliveryFailure : bool) : engine unit :=
  match commitAlongsideBlock with
  | Some commit => transaction (insert_block r reason ev matchedGrantId ;; commit)
  | None => insert_block r reason ev matchedGrantId
  end ;;
  try_catch (lift (ic_audit c BlockLine)) (λ err, if tolerateAuditDeliveryFailure then mret tt else throw err).

Definition recordInvocationRow (r : request) (outcome : invoke_outcome) (policyReason : string) (approval : option string)
    (ev : AccessEvaluation) : engine unit := λ s,
  match et_invocations s !! ic_auditEventId c with
  | Some _ => (Err (Thrown (SqliteConstraintError "tool_invocations.audit_event_id")), s)
  | None =>
      let q := typed r in
      (Ok tt, s <| et_invocations := <[ic_auditEventId c :=
         mkInvocationRow (ic_nowIso c) (rq_agentId q) (rq_sessionId q) (rq_taskId q) (rq_runId q) (rq_toolName q)
           (outcome_word outcome) policyReason approval (ev_matchedGrantId ev) (ev_permissionProfileId ev)
           (ev_localOperatorOverrideId ev) (ev_approvalMode ev) (Some (ev_reasonCodes ev))]> (et_invocations s) |>)
  end.
Definition recordInvocation r outcome policyReason approval ev : engine unit :=
  recordInvocationRow r outcome policyReason approval ev ;; lift (ic_audit c InvocationLine).

(** [recordDangerProfileNetworkBypassIfNeeded] with the branch for full web access. *)
Definition recordNetworkUse (r : request) (ev : AccessEvaluation) : engine unit :=
  let skipped := is_true "dryRun" r || ev_requiresApproval ev ||
                 (if hasFullWebAccess (typed r) then negb (ev_allowed ev) else negb (bool_decide (ev_approvalMode ev = Some bypass))) in
  if skipped || negb (ic_networkTargets c) then mret tt else lift (ic_audit c NetworkLine).

(** ** The decision *)

(** The tables are those of the state, the verified approval the one that the
    request refers to. *)
Definition world_of (s : EngineTables) (verified : option string) : AccessWorld :=
  ic_world c <| w_grants := et_grants s |> <| w_decisions := et_decisions s |> <| w_verifiedApprovalId := verified |>
    <| w_registeredTargets := λ id, od_targets <$> describeOutsideRootWriteApproval id (et_events s) |>.

Definition verified_id (r : request) (s : EngineTables) : res (option string) :=
  getVerifiedApprovalBypassId localeCompare (ic_clock c) r (et_pending s) (et_approvals s).

Definition evaluate (r : request) (options : ToolPolicyEvaluateOptions) (approved : bool) : engine AccessEvaluation :=
  verified ← (λ s, (thrown (verified_id r s), s));
  world ← gets (λ s, world_of s verified);
  in_decisions (evaluateInvocationAccess fs sha256_hex fs_message e world (ic_decisionId c) (ic_nowIso c) (typed r) options
    (is_true "dryRun" r) approved).

(** ** The run of an allowed request *)

Definition mark_started : engine unit :=
  match ic_markStarted c with
  | Some marked => lift marked ;; see [EffectStarted (ic_auditEventId c)]
  | None => mret tt
  end.
Definition marks : bool := bool_decide (is_Some (ic_markStarted c)).

(** [executeTool]: the executor announces an external effect through the hook,
    once; a process that is not started is no run. *)
Definition executeTool (r : request) (started : bool) (underApproval usedGrant : option string) : engine (list (string * json)) :=
  let '(announced, ended) := ic_execute c r in
  match ended with
  | Err (ToolBeforeProcessSpawnError _ _) => mret tt
  | _ => see ((if announced && marks && negb started then [EffectStarted (ic_auditEventId c)] else []) ++
              [ToolRan (ic_auditEventId c) r underApproval usedGrant])
  end ;;
  lift ended.

Definition unknown_outcome (message : string) : list (string * json) :=
  [("status", JString "failed"); ("deliveryStatus", JString "manual_reconciliation_required");
   ("externalOutcome", JString "unknown_after_send"); ("manualReconciliationRequired", JBool true);
   ("error", JString message); ("fallbackReason", JString message)].

(** The [catch] of a run. *)
Definition caught (r : request) (policyReason : string) (approval : option string) (ev : AccessEvaluation) (started : bool)
    (err : engine_error) : engine ToolInvokeResult :=
  (if marks && negb started then see [EffectNotRequired (ic_auditEventId c)] else mret tt) ;;
  err ← lift (normal_error err);
  match err with
  | HttpMutationOutcomeUnknownError message =>
      let reason := "execution outcome unknown: " +:+ message in
      recordInvocation r outcome_executed reason approval ev ;;
      mret (executed_result c reason (unknown_outcome message) (ev_wardEffect ev))
  | _ =>
      let '(reason, result, kind) := failure_of err in
      recordBlocked r reason (Some ev) (ev_matchedGrantId ev) None false ;;
      mret (blocked_result c reason result kind)
  end.

(** The [try] of a run. *)
Definition conservative_mark (r : request) : bool :=
  marks && isMutationTool (eng_registry e (rq_toolName (typed r))) &&
  negb (executorReportsConcreteExternalSideEffectBoundary (rq_toolName (typed r))).
Definition used_grant (ev : AccessEvaluation) : option string :=
  if truthy_opt (ev_grantToConsume ev) then ev_grantToConsume ev else None.
Definition tool_body (r executionRequest : request) (policyReason : string) (approval : option string) (ev : AccessEvaluation)
    : engine ToolInvokeResult :=
  let conservative := conservative_mark executionRequest in
  let started := conservative || ((ic_execute c executionRequest).1 && marks) in
  try_catch
    (result ← executeTool executionRequest conservative approval (used_grant ev);
     (if marks && negb started then see [EffectNotRequired (ic_auditEventId c)] else mret tt) ;;
     recordInvocation r outcome_executed policyReason approval ev ;;
     mret (executed_result c policyReason result (ev_wardEffect ev)))
    (caught r policyReason approval ev started).

(** The executor sees an approval only when this run is under it. *)
Definition execution_request (r : request) (approval : option string) (ev : AccessEvaluation) : request :=
  let granted := withExecutionGrantContext (withoutEngineOwnedApproval r) ev in
  match approval with Some id => set_field_json "approvedByApprovalId" (JString id) granted | None => granted end.

(** What follows once the grant was consumed. *)
Definition allowed_body (r : request) (policyReason : string) (approval : option string) (ev : AccessEvaluation)
    : engine ToolInvokeResult :=
  let executionRequest := execution_request r approval ev in
  if truthy_json (prop "externalRuntime" r) then
    let result := fields_of [("externalRuntime", Some (JBool true)); ("toolName", prop "toolName" r);
                             ("policyContext", prop "policyContext" executionRequest)] in
    recordInvocation r outcome_executed policyReason approval ev ;;
    mret (executed_result c policyReason result (ev_wardEffect ev))
  else
    (if isDeepProcessBoundaryTool (rq_toolName (typed executionRequest)) then mret tt else lift (ic_beforeExecute c)) ;;
    (if conservative_mark executionRequest then mark_started else mret tt) ;;
    tool_body r executionRequest policyReason approval ev.

Definition consume_step (ev : AccessEvaluation) : engine bool :=
  match used_grant ev with Some id => in_grants (consumeOne (ic_clock c) id) | None => mret true end.

Definition executeAllowedRequest (r : request) (policyReason : string) (approval : option string) (ev : AccessEvaluation)
    : engine ToolInvokeResult :=
  available ← consume_step ev;
  if negb available then
    let reason := "blocked: one-time tool grant is no longer available" in
    recordBlocked r reason (Some ev) (match ev_matchedGrantId ev with Some id => Some id | None => used_grant ev end) None false ;;
    mret (blocked_result c reason None policy_block)
  else allowed_body r policyReason approval ev.

(** ** An approved action *)

Definition event (eventId approval eventType actor : string) (payload : list (string * option json)) : engine unit :=
  in_events (FolderGrants.append eventId (ic_nowIso c) approval eventType actor None (fields_of payload)) ;; mret tt.
Definition resolved (approval : string) (s : ResolutionStatus) (result : list (string * option json)) : engine unit :=
  in_pending (markResolved (ic_nowIso c) approval s (Some (JObject (fields_of result)))) ;; mret tt.
Definition action_event (approval : string) (payload : list (string * option json)) : engine unit :=
  event (ic_eventId c) approval "approved_action_executed" "system" payload.

(** [identity.binding]: a handle that was given and passed its checks. *)
Definition binding (options : ToolPolicyEvaluateOptions) : bool :=
  bool_decide (is_Some (mcpToolBinding options)) || bool_decide (is_Some (meshToolBinding options)).
Definition needs_owner (options : ToolPolicyEvaluateOptions) (r : request) : engine unit :=
  _ ← lift (thrown (resolveInvocationPolicy e (typed r) options));
  guard_throw (binding options && negb (is_true "externalRuntime" r))
    (ToolExecutionPreconditionError "Mapped remote tools require the external runtime owner" None).

Definition resolveApprovedOwnDelivery (approval toolName : string) (options : ToolPolicyEvaluateOptions) (t : event_table) : bool :=
  ownDelivery options ||
  (negb (bool_decide (listSwitchedOffToolNames e = ∅)) && mintOwnDeliveryFromRegistration (FolderGrants.listByApprovalId approval t) toolName).

(** The request of an approval, once it is verified. *)
Definition approved_action (approval : string) (deferResolution : bool) : engine (option request) :=
  pending ← gets (λ s, PendingActions.find approval (et_pending s));
  match pending with
  | None => mret None
  | Some pending =>
      if negb (bool_decide (resolutionStatus pending = action_pending)) then mret None
      else if negb (bool_decide (actionType pending = tool_invoke)) then
        (if deferResolution then mret tt
         else resolved approval action_failed
                [("error", Some (JString ("unsupported pending action type " +:+ action_type_word (actionType pending))))]) ;;
        mret None
      else
        lift (thrown (assertNoRawRemoteApprovalBearer (pa_request pending))) ;;
        r ← lift (thrown (asToolInvokeRequest (object_fields (pa_request pending))));
        let approvedRequest := approved_request approval r in
        verified ← (λ s, (thrown (hasVerifiedApprovalBypass localeCompare (ic_clock c) approvedRequest (et_pending s) (et_approvals s)), s));
        if (verified : bool) then mret (Some approvedRequest)
        else
          (if deferResolution then mret tt
           else transaction (
             resolved approval action_failed [("reason", Some (JString mismatch_reason))] ;;
             action_event approval [("outcome", Some (JString "blocked")); ("reason", Some (JString mismatch_reason))])) ;;
          mret None
  end.

Definition executeApprovedAction (approval : string) (deferResolution externalRuntimeReplay : bool)
    (options : ToolPolicyEvaluateOptions) : engine (option ToolInvokeResult) :=
  approved ← approved_action approval deferResolution;
  match approved with
  | None => mret None
  | Some approvedRequest =>
      let r := if externalRuntimeReplay
               then set_field_json "externalRuntime" (JBool true) (delete_field "dryRun" approvedRequest) else approvedRequest in
      needs_owner options r ;;
      own ← gets (λ s, resolveApprovedOwnDelivery approval (rq_toolName (typed r)) options (et_events s));
      ev ← evaluate r (options <| ownDelivery := own |>) true;
      if negb (ev_allowed ev) then
        let reason := "blocked: " +:+ ev_policyReason ev in
        recordBlocked r reason (Some ev) (ev_matchedGrantId ev)
          (if deferResolution then None
           else Some (resolved approval action_failed [("reason", Some (JString reason))] ;;
                      action_event approval [("outcome", Some (JString "blocked")); ("reason", Some (JString reason));
                                             ("auditEventId", Some (JString (ic_auditEventId c)))]))
          true ;;
        mret (Some (blocked_result c reason None policy_block))
      else
        result ← executeAllowedRequest r ("allowed_via_approval:" +:+ approval) (Some approval) ev;
        (if deferResolution then mret tt
         else
           let outcome := JString (outcome_word (ir_outcome result)) in
           resolved approval (if bool_decide (ir_outcome result = outcome_executed) then action_executed else action_failed)
             [("outcome", Some outcome); ("policyReason", Some (JString (ir_policyReason result)));
              ("auditEventId", Some (JString (ic_auditEventId c))); ("result", JObject <$> ir_result result)] ;;
           action_event approval
             [("toolName", prop "toolName" approvedRequest); ("outcome", Some outcome);
              ("policyReason", Some (JString (ir_policyReason result))); ("auditEventId", Some (JString (ic_auditEventId c)))]) ;;
        mret (Some result)
  end.

(** ** An invocation *)

(** [ApprovalGate.create] and its callback, in one transaction; then the lines of
    the audit log, whose loss is tolerated.  The payload is compared by its text:
    the program reads it back in the order in which it was written. *)
Definition requestApproval (r : request) (ev : AccessEvaluation) : engine ToolInvokeResult :=
  let args := object_fields (default (JObject []) (prop "args" r)) in
  let preview := default_fields (fields_of [("outsideRootWrite", outside_field ev);
                   ("outsideRootRead", if bool_decide ("outside_roots_read_requires_approval" ∈ ev_reasonCodes ev)
                                       then Some (JBool true) else None)]) (ic_preview c) in
  expiresAt ← transaction (
    approval ← in_approvals (createWithTtlDuration (ic_approvalId c) (ic_clock c)
      (mkCreateApproval (rq_toolName (typed r)) (approval_risk (ev_riskLevel ev)) args preview (ic_linkage c) None None)
      (Some DEFAULT_APPROVAL_TTL_MS));
    guard_throw (negb (bool_decide (json_stringify (JObject (ar_payload approval)) = json_stringify (JObject args))))
      (Thrown (JsError "approval.create.before cannot mutate executable tool arguments; reject and submit a new tool request instead.")) ;;
    expiresAt ← lift (match ar_expiresAt approval with
                      | Some t => if truthy t then Ok t else Err (Thrown no_expiry)
                      | None => Err (Thrown no_expiry) end);
    in_pending (upsertPending (ic_nowIso c) (approvalId approval) tool_invoke (JObject (toPendingApprovalRequestRecord r)) None
                  (Some expiresAt)) ;;
    lift (thrown (ic_bindDelivery c)) ;;
    event (ic_registrationId c) (approvalId approval) "pending_action_registered" (rq_agentId (typed r))
      [("actionType", Some (JString "tool.invoke")); ("toolName", prop "toolName" r); ("sessionId", prop "sessionId" r);
       ("taskId", prop "taskId" r); ("matchedGrantId", JString <$> ev_matchedGrantId ev);
       ("reasonCodes", Some (strings_json (ev_reasonCodes ev)));
       ("wardEffect", (λ w, JString (ward_word w)) <$> ev_wardEffect ev); ("outsideRootWrite", outside_field ev);
       ("ownDelivery", ownDeliveryRegistrationFact c)] ;;
    recordInvocationRow r outcome_approval_required (ev_policyReason ev) (Some (approvalId approval)) ev ;;
    mret expiresAt);
  mret (mkInvokeResult outcome_approval_required (ev_policyReason ev) (ic_auditEventId c) (Some (ic_approvalId c)) (Some expiresAt)
          None None (Some approval_needed)).

(** What a dry run answers. *)
Definition dry_run_result (r : request) (ev : AccessEvaluation) : list (string * json) :=
  fields_of [("dryRun", Some (JBool true)); ("toolName", prop "toolName" r);
             ("policy", Some (JObject [("allowed", JBool (ev_allowed ev)); ("requiresApproval", JBool (ev_requiresApproval ev));
                                       ("riskLevel", JString (risk_word (ev_riskLevel ev)));
                                       ("reasonCodes", strings_json (ev_reasonCodes ev))]))].

(** A caller's approval stamp is dropped; a request that names a verified approval
    runs as the approved action. *)
Definition invoke (callerRequest : request) : engine ToolInvokeResult :=
  let r := withoutEngineOwnedApproval callerRequest in
  needs_owner (ic_options c) r ;;
  lift (thrown (assertNoRawRemoteApprovalBearer (JObject (toPendingApprovalRequestRecord r)))) ;;
  direct ← (if bool_decide (rq_toolName (typed r) = CODE_MODE_REQUEST_TOOL_NAME) then mret None
            else λ s, (thrown (verified_id r s), s));
  approved ← match direct with
             | Some approval =>
                 if truthy approval
                 then executeApprovedAction approval (is_true "externalRuntime" r) false (ic_options c <| mcpApprovalRelief := None |>)
                 else mret None
             | None => mret None
             end;
  match approved with
  | Some result => mret result
  | None =>
      ev ← evaluate r (ic_options c) false;
      if negb (ev_allowed ev) then
        let reason := "blocked: " +:+ ev_policyReason ev in
        recordBlocked r reason (Some ev) (ev_matchedGrantId ev) None false ;;
        mret (blocked_result c reason None policy_block)
      else
        recordNetworkUse r ev ;;
        if ev_requiresApproval ev then requestApproval r ev
        else if truthy_json (prop "dryRun" r) then
          let reason := ev_policyReason ev +:+ "; dry-run" in
          recordInvocation r outcome_executed reason None ev ;;
          mret (executed_result c reason (dry_run_result r ev) (ev_wardEffect ev))
        else
          executeAllowedRequest (withExecutionGrantContext r ev)
            (if truthy_json (prop "externalRuntime" r) then ev_policyReason ev +:+ "; external runtime" else ev_policyReason ev)
            None ev
  end.
End engine.
