(* ===== verification/InvocationTheorems.v ===== *)
(** * What invocations guarantee

    A tool runs only as the access decision admitted it, at most once in a call,
    and once for an approval or a one-time grant over every history of calls;
    what a call returns is recorded.  At the end, invocations at work. *)
From S2P Require Import Prelude.
From S2P Require Import JsString.
From S2P Require Import JsJson.
From S2P Require Import JsJsonText.
From S2P Require Import JsObject.
From S2P Require Import Errors.
From S2P Require Import ToolPolicy.
From S2P Require Import NetworkGuard.
From S2P Require Import FileSystem.
From S2P Require Import OutsideRootWrite.
From S2P Require Import ShellRisk.
From S2P Require Import Approvals.
From S2P Require Import ApprovalTheorems.
From S2P Require Import PendingActions.
From S2P Require Import ToolRequests.
From S2P Require Import ApprovalBypass.
From S2P Require Import ToolGrants.
From S2P Require Import AccessLog.
From S2P Require Import AccessDecision.
From S2P Require Import FolderGrants.
From S2P Require Import AccessTheorems.
From S2P Require Import ApprovalBypassTheorems.
From S2P Require Import GuardedFetch.
From S2P Require Import PathJail.
From S2P Require Import Invocation.

(** ** What the steps of a call leave alone *)

(** The decisions, the grants and the outside as they were, and the pending
    actions after some calls of their repository. *)
Record keeps (s s' : EngineTables) : Prop := mkKeeps {
  kept_outside : et_outside s' = et_outside s;
  kept_grants : et_grants s' = et_grants s;
  kept_decisions : et_decisions s' = et_decisions s;
  kept_pending : ∃ ps, et_pending s' = run_pendings ps (et_pending s);
}.
#[export] Instance keeps_preorder : PreOrder keeps.
Proof.
  split; [intros s; split; try done; by exists []|]. intros s1 s2 s3 [E1 E2 E3 (ps & E4)] [F1 F2 F3 (qs & F4)].
  split; [congruence..|]. exists (ps ++ qs). unfold run_pendings in *. by rewrite F4, E4, foldl_app.
Qed.

Lemma keeps_approvals {A} (m : approvals A) : moves keeps (in_approvals m).
Proof. intros s. unfold in_approvals, zoom, throwing. destruct (m _) as [r t]. split; try done. by exists []. Qed.
Lemma keeps_events {A} (m : M js_error event_table A) : moves keeps (in_events m).
Proof. intros s. unfold in_events, zoom, throwing. destruct (m _) as [r t]. split; try done. by exists []. Qed.
Lemma keeps_pending {A} (m : pendings A) (p : pending_call) : (∀ t, (m t).2 = run_pending p t) → moves keeps (in_pending m).
Proof.
  intros Hm s. unfold in_pending, zoom, throwing. specialize (Hm (et_pending s)). destruct (m _) as [r t].
  split; try done. exists [p]. exact Hm.
Qed.

(** The same without the decisions. *)
Record calm (s s' : EngineTables) : Prop := mkCalm {
  calm_outside : et_outside s' = et_outside s;
  calm_grants : et_grants s' = et_grants s;
  calm_pending : ∃ ps, et_pending s' = run_pendings ps (et_pending s);
}.
#[export] Instance calm_preorder : PreOrder calm.
Proof.
  split; [intros s; split; try done; by exists []|]. intros s1 s2 s3 [E1 E2 (ps & E3)] [F1 F2 (qs & F3)].
  split; [congruence..|]. exists (ps ++ qs). unfold run_pendings in *. by rewrite F3, E3, foldl_app.
Qed.
Lemma keeps_calm s s' : keeps s s' → calm s s'.
Proof. by intros [? ? _ ?]. Qed.

(** Which tool runs a list of events has. *)
Definition is_run (ev : outside_event) : bool := match ev with ToolRan _ _ _ _ => true | _ => false end.
Definition run_under (approval : string) (ev : outside_event) : bool :=
  match ev with ToolRan _ _ under _ => bool_decide (under = Some approval) | _ => false end.
Definition run_with (grantId : string) (ev : outside_event) : bool :=
  match ev with ToolRan _ _ _ used => bool_decide (used = Some grantId) | _ => false end.
Definition times (f : outside_event → bool) (l : list outside_event) : nat := length (List.filter f l).
Lemma times_app f l k : times f (l ++ k) = (times f l + times f k)%nat.
Proof. unfold times. by rewrite List.filter_app, length_app. Qed.

(** A step that only lets the outside see something. *)
Record sees (seen : list outside_event) (s s' : EngineTables) : Prop := mkSees {
  seen_outside : et_outside s' = et_outside s ++ seen;
  seen_grants : et_grants s' = et_grants s;
  seen_decisions : et_decisions s' = et_decisions s;
  seen_pending : ∃ ps, et_pending s' = run_pendings ps (et_pending s);
}.
Lemma keeps_sees s s' : keeps s s' → sees [] s s'.
Proof. intros [? ? ? ?]. split; try done. by rewrite app_nil_r. Qed.
Lemma sees_trans a b s1 s2 s3 : sees a s1 s2 → sees b s2 s3 → sees (a ++ b) s1 s3.
Proof.
  intros [E1 E2 E3 (ps & E4)] [F1 F2 F3 (qs & F4)]. split; [by rewrite F1, E1, app_assoc|congruence..|].
  exists (ps ++ qs). unfold run_pendings in *. by rewrite F4, E4, foldl_app.
Qed.

(** Steps without a run of a tool. *)
Definition norun (s s' : EngineTables) : Prop := ∃ seen, sees seen s s' ∧ times is_run seen = 0%nat.
#[export] Instance norun_preorder : PreOrder norun.
Proof.
  split; [intros s; exists []; split; [by apply keeps_sees|done]|].
  intros s1 s2 s3 (a & Ha & Na) (b & Hb & Nb). exists (a ++ b). split; [by eapply sees_trans|]. rewrite times_app. lia.
Qed.
Lemma keeps_norun {A} (m : engine A) : moves keeps m → moves norun m.
Proof. intros Hm s. exists []. split; [apply keeps_sees, Hm|done]. Qed.
Lemma see_norun l : times is_run l = 0%nat → moves norun (see l).
Proof. intros Hl s. exists l. split; [|done]. split; try done. by exists []. Qed.

(** What follows the first step, whether it throws or not. *)
Lemma moves_tail {A B} R `{!PreOrder R} (m : engine A) (k : A → engine B) h s :
  (∀ a, moves R (k a)) → (∀ err, moves R (h err)) → R (m s).2 (try_catch (m ≫= k) h s).2.
Proof.
  intros Hk Hh. unfold try_catch, mbind, M_bind. destruct (m s) as [[a|err] s1]; cbn; [|apply Hh].
  specialize (Hk a s1). destruct (k a s1) as [[b|err] s2]; [exact Hk|]. etrans; [exact Hk|apply Hh].
Qed.

Section engine.
Context `{Platform} `{Host} `{NodeBuffer} (fs : FileSystem) (sha256_hex : string → string) (fs_message : FsError → string).
Context (e : ToolPolicyEngine) (localeCompare : string → string → Z) (typed : request → ToolAccessEvaluateRequest) (c : InvokeCall).

Lemma keeps_insert_block r reason ev grant : moves keeps (insert_block typed c r reason ev grant).
Proof. intros s. unfold insert_block. destruct (et_blocks s !! _); [reflexivity|]. split; try done. by exists []. Qed.
Lemma keeps_invocation_row r outcome reason approval ev : moves keeps (recordInvocationRow typed c r outcome reason approval ev).
Proof. intros s. unfold recordInvocationRow. destruct (et_invocations s !! _); [reflexivity|]. split; try done. by exists []. Qed.
Lemma keeps_invocation r outcome reason approval ev : moves keeps (recordInvocation typed c r outcome reason approval ev).
Proof. unfold recordInvocation. moves. apply keeps_invocation_row. Qed.
Lemma keeps_blocked r reason ev grant commit tolerate : (∀ m, commit = Some m → moves keeps m) →
  moves keeps (recordBlocked typed c r reason ev grant commit tolerate).
Proof.
  intros Hc. unfold recordBlocked. apply moves_bind; [apply _| |intros _].
  - destruct commit as [m|]; [|apply keeps_insert_block].
    apply moves_transaction; [apply _|]. apply moves_bind; [apply _|apply keeps_insert_block|]. intros _. by apply Hc.
  - apply moves_catch; [apply _|apply moves_lift; apply _|]. intros err. destruct tolerate; moves.
Qed.
Lemma keeps_network r ev : moves keeps (recordNetworkUse typed c r ev).
Proof. unfold recordNetworkUse. cbv zeta. destruct (_ || _); moves. Qed.
Lemma keeps_resolved approval st result : moves keeps (resolved c approval st result).
Proof.
  unfold resolved. moves. by apply (keeps_pending _ (MarkResolvedCall (ic_nowIso c) approval st (Some (JObject (fields_of result))))).
Qed.
Lemma keeps_event id approval kind actor payload : moves keeps (event c id approval kind actor payload).
Proof. unfold event. moves. apply keeps_events. Qed.
Lemma keeps_owner options r : moves keeps (needs_owner e typed options r).
Proof. unfold needs_owner. moves. Qed.
Lemma keeps_read {A} (f : EngineTables → outcome engine_error A) : moves keeps (λ s, (f s, s)).
Proof. intros s. reflexivity. Qed.

(** Reduces [moves keeps] of a call to its steps, known ones first. *)
Ltac keep := repeat first
  [ apply keeps_resolved | apply keeps_event | apply keeps_invocation_row | apply keeps_approvals | apply keeps_read
  | apply moves_transaction; [apply _|] | apply moves_bind; [apply _| |intros ?] | apply moves_ret; apply _
  | apply moves_lift; apply _ | apply moves_throw; apply _ | apply moves_gets; apply _ | apply moves_guard; apply _ ].

Lemma keeps_approved_action approval defer : moves keeps (approved_action localeCompare c approval defer).
Proof.
  unfold approved_action. keep. destruct a as [pending|]; [|keep]. destruct (negb (bool_decide (resolutionStatus _ = _))); [keep|].
  destruct (negb _); [keep; destruct defer; keep|]. keep. cbv zeta. keep. destruct a1; [keep|]. keep. destruct defer; keep.
Qed.

Lemma keeps_request_approval r ev : moves keeps (requestApproval typed c r ev).
Proof.
  unfold requestApproval. cbv zeta. keep.
  by apply (keeps_pending _ (UpsertPendingCall (ic_nowIso c) (approvalId a) tool_invoke (JObject (toPendingApprovalRequestRecord r)) None (Some a1))).
Qed.

Lemma norun_caught r reason approval ev started err : moves norun (caught typed c r reason approval ev started err).
Proof.
  unfold caught. apply moves_bind; [apply _| |intros _].
  - destruct (_ && _); [by apply see_norun|apply moves_ret; apply _].
  - apply moves_bind; [apply _|apply moves_lift; apply _|]. intros err'. apply keeps_norun.
    destruct err'; cbv zeta; unfold failure_of; (apply moves_bind; [apply _| |intros _; apply moves_ret; apply _]);
      first [apply keeps_invocation|by apply keeps_blocked].
Qed.

Lemma norun_mark : moves norun (mark_started c).
Proof. unfold mark_started. destruct (ic_markStarted c); moves. by apply see_norun. Qed.

(** The run itself: one event, perhaps with the mark that the executor made. *)
Lemma tool_run r started under used s :
  norun s (executeTool c r started under used s).2 ∨
  ∃ pre, sees (pre ++ [ToolRan (ic_auditEventId c) r under used]) s (executeTool c r started under used s).2 ∧ times is_run pre = 0%nat.
Proof.
  unfold executeTool. destruct (ic_execute c r) as [announced ended]. set (mark := if announced && _ && _ then _ else _).
  assert (times is_run mark = 0%nat) as Hmark by (subst mark; by destruct (announced && _ && _)).
  assert (∀ err, ended = Err err → (∃ b cause, err = ToolBeforeProcessSpawnError b cause) ∨
    match ended with Err (ToolBeforeProcessSpawnError _ _) => False | _ => True end) as Hcase.
  { intros err ->. destruct err; [by right..|]. left. by eexists _, _. }
  destruct ended as [result|err].
  - right. exists mark. split; [|done]. split; try done. by exists [].
  - destruct (Hcase err eq_refl) as [(b & cause & ->)|Hno].
    + left. exists []. split; [|done]. split; try done; [by rewrite app_nil_r|by exists []].
    + right. exists mark. split; [|done]. destruct err; try done; (split; try done; by exists []).
Qed.

Definition consume_calls (ev : AccessEvaluation) : list grant_call :=
  match used_grant ev with Some g => [ConsumeGrantCall (ic_clock c) g] | None => [] end.

Lemma consume_step_run ev s :
  (consume_step c ev s).2 = s <| et_grants := run_grants (consume_calls ev) (et_grants s) |> ∧
  ((consume_step c ev s).1 = Ok true → ∀ g, used_grant ev = Some g → call_spends g (ConsumeGrantCall (ic_clock c) g) (et_grants s) = true).
Proof.
  unfold consume_step, consume_calls. destruct (used_grant ev) as [g|]; [|split; [by destruct s|done]].
  unfold in_grants, zoom, throwing. cbn [run_grants foldl run_grant call_spends].
  destruct (consumeOne (ic_clock c) g (et_grants s)) as [o t] eqn:E. split; [done|]. intros Ho g' [= <-]. rewrite E.
  rewrite bool_decide_eq_true_2 by done. cbn in *. destruct o; [|done]. by injection Ho.
Qed.

(** The run after the grant was consumed: at most one run, after the mark of a
    tool that may not be repeated. *)
Definition one_run (r : request) (approval : option string) (ev : AccessEvaluation) (s s' : EngineTables) : Prop :=
  norun s s' ∨
  ∃ pre post, sees (pre ++ ToolRan (ic_auditEventId c) (execution_request r approval ev) approval (used_grant ev) :: post) s s' ∧
    times is_run pre = 0%nat ∧ times is_run post = 0%nat ∧ truthy_json (prop "externalRuntime" r) = false ∧
    (conservative_mark e typed c (execution_request r approval ev) = true → EffectStarted (ic_auditEventId c) ∈ pre).

Lemma norun_then_one r approval ev s s1 s' : norun s s1 → one_run r approval ev s1 s' → one_run r approval ev s s'.
Proof.
  intros Ha [Hb|(pre & post & Hb & Npre & Hrest)]; [left; by etrans|]. destruct Ha as (a & Ha & Na). right. exists (a ++ pre), post.
  rewrite <-app_assoc. split; [by eapply sees_trans|]. split; [rewrite times_app; lia|]. destruct Hrest as (? & ? & Hmark).
  split_and!; try done. intros Hc. apply elem_of_app. right. by apply Hmark.
Qed.

(** What is seen of a run with what follows it. *)
Definition tool_seen (r : request) (under used : option string) (s s' : EngineTables) : Prop :=
  norun s s' ∨
  ∃ pre post, sees (pre ++ ToolRan (ic_auditEventId c) r under used :: post) s s' ∧ times is_run pre = 0%nat ∧ times is_run post = 0%nat.

Lemma tool_then r under used s s1 s' started :
  s1 = (executeTool c r started under used s).2 → norun s1 s' → tool_seen r under used s s'.
Proof.
  intros -> Hafter. destruct (tool_run r started under used s) as [Hn|(pre & Hs & Npre)]; [left; by etrans|].
  destruct Hafter as (post & Hpost & Npost). right. exists pre, post. split; [|done].
  change (pre ++ ToolRan (ic_auditEventId c) r under used :: post) with (pre ++ [ToolRan (ic_auditEventId c) r under used] ++ post).
  rewrite app_assoc. by eapply sees_trans.
Qed.

Lemma mark_run s : marks c = true →
  (∃ err, mark_started c s = (Err err, s)) ∨ (∃ s1, mark_started c s = (Ok tt, s1) ∧ sees [EffectStarted (ic_auditEventId c)] s s1).
Proof.
  unfold marks, mark_started. destruct (ic_markStarted c) as [[[]|err]|]; [|left; by exists err|by intros ?%bool_decide_eq_true%is_Some_None].
  intros _. right. eexists. split; [reflexivity|]. split; try done. by exists [].
Qed.

Lemma allowed_body_run r reason approval ev s :
  one_run r approval ev s (allowed_body e typed c r reason approval ev s).2.
Proof.
  unfold allowed_body. set (q := execution_request r approval ev). cbv zeta.
  destruct (truthy_json (prop "externalRuntime" r)) eqn:Hext.
  { left. apply (keeps_norun (recordInvocation typed c r outcome_executed reason approval ev ;; _)).
    apply moves_bind; [apply _|apply keeps_invocation|intros _; apply moves_ret; apply _]. }

  assert (∀ s0, tool_seen q approval (used_grant ev) s0 (tool_body e typed c r q reason approval ev s0).2) as Hrun.
  { intros s0. eapply tool_then; [reflexivity|]. unfold tool_body. fold (conservative_mark e typed c q). fold (used_grant ev).
    apply moves_tail; [apply _| |intros err; apply norun_caught]. intros result.
    apply moves_bind; [apply _|destruct (_ && _); [by apply see_norun|apply moves_ret; apply _]|intros _].
    apply keeps_norun. apply moves_bind; [apply _|apply keeps_invocation|intros _; apply moves_ret; apply _]. }
  match goal with |- one_run _ _ _ _ ((?m ≫= _) _).2 => set (before := m) end.
  assert (∀ o s1, before s = (o, s1) → s1 = s) as Hbefore
    by (intros o s1; subst before; destruct (isDeepProcessBoundaryTool _); by intros [= _ <-]).
  unfold mbind at 1, M_bind at 1. destruct (before s) as [[[]|err] s1] eqn:E1; specialize (Hbefore _ _ eq_refl) as ->; [|left; reflexivity].
  unfold mbind at 1, M_bind at 1. destruct (conservative_mark e typed c q) eqn:Hc.
  - destruct (mark_run s) as [(err & ->)|(s2 & -> & Hs2)]; [by apply andb_true_iff in Hc as [[? _]%andb_true_iff _]|left; reflexivity|].
    destruct (Hrun s2) as [Hn|(pre & post & Hs & Npre & Npost)].
    + left. etrans; [|exact Hn]. by exists [EffectStarted (ic_auditEventId c)].
    + right. exists (EffectStarted (ic_auditEventId c) :: pre), post. split; [exact (sees_trans _ _ _ _ _ Hs2 Hs)|].
      split_and!; try done. intros _. by left.
  - destruct (Hrun s) as [Hn|(pre & post & Hs & Npre & Npost)]; [by left|]. right. exists pre, post. split_and!; try done. by fold q; rewrite Hc.
Qed.

Lemma allowed_run r reason approval ev s :
  let s1 := s <| et_grants := run_grants (consume_calls ev) (et_grants s) |> in
  let s' := (executeAllowedRequest e typed c r reason approval ev s).2 in
  norun s1 s' ∨
  (one_run r approval ev s1 s' ∧ ∀ g, used_grant ev = Some g → call_spends g (ConsumeGrantCall (ic_clock c) g) (et_grants s) = true).
Proof.
  cbv zeta. destruct (executeAllowedRequest _ _ _ _ _ _ _ s) as [o s'] eqn:E. cbn [snd]. destruct (consume_step_run ev s) as [<- Hspend].
  unfold executeAllowedRequest in E. apply M_bind_any in E as [([|] & s1 & Hc & E)|(err & -> & _)].
  - right. rewrite Hc in *. cbn in *. pose proof (allowed_body_run r reason approval ev s1) as Hb. rewrite E in Hb. split; [exact Hb|by apply Hspend].
  - left. rewrite Hc. cbn [negb] in E. cbv zeta in E. match type of E with ?m _ = _ => pose proof (keeps_norun m) as Hm end.
    specialize (Hm ltac:(apply moves_bind; [apply _|by apply keeps_blocked|intros _; apply moves_ret; apply _]) s1). by rewrite E in Hm.
  - left. reflexivity.
Qed.

(** ** The decision of a call *)

Definition evaluates (s : EngineTables) (r : request) (options : ToolPolicyEvaluateOptions) (verified : option string)
    (ev : AccessEvaluation) : Prop :=
  verified_id localeCompare c r s = Ok verified ∧
  evaluateAccessInternal fs sha256_hex fs_message e (world_of c s verified) (typed r) options None false = Ok ev.
Definition decided_row (r : request) (ip : InvocationPolicy) (ev : AccessEvaluation) (approved counts : bool) : ToolAccessDecisionRow :=
  decision_row (ic_nowIso c) (logged (typed r) ip ev (if approved then false else ev_requiresApproval ev) counts).

Lemma evaluate_run r options approved s o s' :
  evaluate fs sha256_hex fs_message e localeCompare typed c r options approved s = (o, s') →
  (∃ err, o = Err err ∧ s' = s) ∨
  ∃ ev verified ip, o = Ok ev ∧ evaluates s r options verified ev ∧ resolveInvocationPolicy e (typed r) options = Ok ip ∧
    et_decisions s !! ic_decisionId c = None ∧
    s' = s <| et_decisions := <[ic_decisionId c := decided_row r ip ev approved
                (ev_allowed ev && (approved || (negb (ev_requiresApproval ev) && negb (is_true "dryRun" r))))]> (et_decisions s) |>.
Proof.
  unfold evaluate, evaluates. unfold mbind at 1, M_bind at 1. destruct (verified_id localeCompare c r s) as [verified|err] eqn:Ev; cbn [thrown].
  2:{ intros [= <- <-]. left. by exists (Thrown err). }
  unfold mbind at 1, M_bind at 1. unfold gets at 1. unfold in_decisions, zoom, throwing.
  destruct (evaluateInvocationAccess _ _ _ _ _ _ _ _ _ _ _ (et_decisions s)) as [[ev|err] t] eqn:E.
  - apply invocation_run in E as (ip & rec & Hip & Hev & Hrec). unfold record in Hrec.
    destruct (et_decisions s !! ic_decisionId c) eqn:Hd; [done|]. injection Hrec as _ <-.
    intros [= <- <-]. right. by exists ev, verified, ip.
  - intros [= <- <-]. left. exists (Thrown err). split; [done|].
    unfold evaluateInvocationAccess in E. apply M_bind_any in E as [(ip & t1 & [= _ <-] & Htx)|(err' & [= _ <-] & _)]; [|by destruct s].
    apply transaction_rollback in Htx as ->. by destruct s.
Qed.

(** A decision on which a request goes on to run, made on the tables [s0]. *)
Record admitted (s0 s1 : EngineTables) (r : request) (approval : option string) (ev : AccessEvaluation) : Prop := mkAdmitted {
  admitted_by : ∃ options verified ip, evaluates s0 r options verified ev ∧ resolveInvocationPolicy e (typed r) options = Ok ip ∧
    s1 = s0 <| et_decisions := <[ic_decisionId c := decided_row r ip ev (bool_decide (is_Some approval)) true]> (et_decisions s0) |>;
  admitted_allowed : ev_allowed ev = true;
  admitted_unasked : approval = None → ev_requiresApproval ev = false ∧ truthy_json (prop "dryRun" r) = false;
}.
Lemma admitted_calm s0 s1 r approval ev : admitted s0 s1 r approval ev → calm s0 s1.
Proof. intros [(? & ? & ? & _ & _ & ->) _ _]. split; try done. by exists []. Qed.

(** The request that an approval stands for, verified on the tables. *)
Definition stands_verified (s : EngineTables) (approval : string) (q : request) : Prop :=
  ∃ pending stored, PendingActions.find approval (et_pending s) = Some pending ∧ resolutionStatus pending = action_pending ∧
    actionType pending = tool_invoke ∧ asToolInvokeRequest (object_fields (pa_request pending)) = Ok stored ∧
    q = approved_request approval stored ∧
    hasVerifiedApprovalBypass localeCompare (ic_clock c) q (et_pending s) (et_approvals s) = Ok true.

Lemma approved_action_run approval defer s q s' :
  approved_action localeCompare c approval defer s = (Ok (Some q), s') → s' = s ∧ stands_verified s approval q.
Proof.
  unfold approved_action, stands_verified. rewrite M_gets_bind.
  destruct (PendingActions.find approval (et_pending s)) as [pending|]; [|done].
  destruct (bool_decide_reflect (resolutionStatus pending = action_pending)) as [Hs|]; [|done]. cbn [negb].
  destruct (bool_decide_reflect (actionType pending = tool_invoke)) as [Ht|]; cbn [negb].
  2:{ intros ([] & ? & _ & [=])%M_bind_ok. }
  intros ([] & s1 & [_ <-]%pair_equal_spec & Hm)%M_bind_ok.
  apply M_bind_ok in Hm as (stored & s1 & [Hr <-]%pair_equal_spec & Hm).
  apply M_bind_ok in Hm as (verified & s1 & [Hv <-]%pair_equal_spec & Hm). destruct verified.
  - injection Hm as <- <-. split; [done|]. exists pending, stored. unfold thrown in Hr, Hv.
    destruct (asToolInvokeRequest _) as [x|]; [|done]. injection Hr as <-. destruct (hasVerifiedApprovalBypass _ _ _ _ _) as [x'|]; [|done].
    injection Hv as ->. by split_and!.
  - apply M_bind_ok in Hm as ([] & ? & _ & [=]).
Qed.

Lemma needs_owner_run options r s o s' : needs_owner e typed options r s = (o, s') → s' = s.
Proof.
  unfold needs_owner. intros [(ip & s1 & [_ <-]%pair_equal_spec & Hg)|(err & [_ <-]%pair_equal_spec & _)]%M_bind_any; [|done].
  by apply pair_equal_spec in Hg as [_ <-].
Qed.

Lemma network_run r ev s : (recordNetworkUse typed c r ev s).2 = s.
Proof. unfold recordNetworkUse. cbv zeta. by destruct (_ || _). Qed.

Lemma resolved_settled approval st result s s' : st ≠ action_pending → resolved c approval st result s = (Ok tt, s') →
  ∃ row, et_pending s' !! approval = Some row ∧ pr_resolution_status row ≠ action_pending.
Proof.
  intros Hst (action & s1 & Hr & [_ <-]%pair_equal_spec)%M_bind_ok. unfold in_pending, zoom, throwing in Hr.
  destruct (markResolved _ _ _ _ _) as [[a|] t] eqn:E; [|done]. injection Hr as _ <-. by eapply resolved_settles.
Qed.
Lemma event_pending id approval kind actor payload s o s' : event c id approval kind actor payload s = (o, s') → et_pending s' = et_pending s.
Proof.
  unfold event. intros [(a & s1 & Hr & [_ <-]%pair_equal_spec)|(err & Hr & _)]%M_bind_any;
    unfold in_events, zoom, throwing in Hr; destruct (FolderGrants.append _ _ _ _ _ _ _ _) as [o' t]; injection Hr as _ <-; done.
Qed.

Definition replayed_request (replay : bool) (q : request) : request :=
  if replay then set_field_json "externalRuntime" (JBool true) (delete_field "dryRun" q) else q.

(** After a call that was not deferred and returned, the action is settled. *)
Definition settled_in (approval : string) (s : EngineTables) : Prop :=
  ∃ row, et_pending s !! approval = Some row ∧ pr_resolution_status row ≠ action_pending.

(** An approved action goes on to run once, if at all. *)
Definition approved_passes (approval : string) (defer replay : bool) (s s' : EngineTables) (returned : bool) : Prop :=
  ∃ q ev s1 reason s2, stands_verified s approval q ∧ admitted s s1 (replayed_request replay q) (Some approval) ev ∧
    s2 = (executeAllowedRequest e typed c (replayed_request replay q) reason (Some approval) ev s1).2 ∧ keeps s2 s' ∧
    (returned = true → defer = false → settled_in approval s').

Lemma approved_trace approval defer replay options s o s' :
  executeApprovedAction fs sha256_hex fs_message e localeCompare typed c approval defer replay options s = (o, s') →
  calm s s' ∨ (approved_passes approval defer replay s s' (is_ok o) ∧ o ≠ Ok None).
Proof.
  unfold executeApprovedAction. intros [([q|] & s0 & Hq & Hm)|(err & Hq & ->)]%M_bind_any.
  2:{ injection Hm as _ <-. left. apply keeps_calm. pose proof (keeps_approved_action approval defer s) as Hk. by rewrite Hq in Hk. }
  2:{ left. apply keeps_calm. pose proof (keeps_approved_action approval defer s) as Hk. by rewrite Hq in Hk. }
  apply approved_action_run in Hq as [-> Hq]. fold (replayed_request replay q) in Hm. cbv zeta in Hm.
  apply M_bind_any in Hm as [([] & s1 & ->%needs_owner_run & Hm)|(err & ->%needs_owner_run & ->)]; [|by left].
  rewrite M_gets_bind in Hm. apply M_bind_any in Hm as [(ev & s1 & Hev & Hm)|(err & Hev & ->)].
  2:{ apply evaluate_run in Hev as [(? & _ & ->)|(? & ? & ? & [=] & _)]. by left. }
  apply evaluate_run in Hev as [(? & [=] & _)|(? & verified & ip & [= <-] & Hev & Hip & _ & ->)].
  destruct (ev_allowed ev) eqn:Ha; cbn [negb] in Hm; cbv zeta in Hm.
  - match type of Hm with _ ?s1 = _ => assert (admitted s s1 (replayed_request replay q) (Some approval) ev) as Hadm by
      (split; [by eexists _, verified, ip|done|done]) end.
    right. apply M_bind_any in Hm as [(result & s2 & Hrun & Hm)|(err & Hrun & ->)].
    2:{ split; [|done]. exists q, ev. do 3 eexists. split; [done|]. split; [exact Hadm|]. split; [by rewrite Hrun|]. split; [reflexivity|done]. }
    split; [|by apply M_bind_any in Hm as [(? & ? & _ & [= <- _])|(? & _ & ->)]].
    exists q, ev. do 2 eexists. exists s2. split; [done|]. split; [exact Hadm|]. split; [by rewrite Hrun|].
    apply M_bind_any in Hm as [([] & s3 & Hres & [= <- <-])|(err & Hres & ->)].
    + split.
      * destruct defer; [by injection Hres as <-|]. match type of Hres with ?m _ = _ => assert (moves keeps m) as Hk by keep end.
        specialize (Hk s2). by rewrite Hres in Hk.
      * intros _ ->. apply M_bind_any in Hres as [([] & s4 & Hr & He)|(err & _ & [=])].
        apply resolved_settled in Hr as (row & Hrow & Hs); [|by destruct (bool_decide _)].
        exists row. split; [|done]. apply event_pending in He. by rewrite He.
    + split; [|done]. destruct defer; [done|]. match type of Hres with ?m _ = _ => assert (moves keeps m) as Hk by keep end.
      specialize (Hk s2). by rewrite Hres in Hk.
  - left. etrans; [|match type of Hm with ?m ?s1 = _ => assert (moves keeps m) as Hk; [|specialize (Hk s1); rewrite Hm in Hk; apply keeps_calm, Hk] end].
    + split; try done. by exists [].
    + apply moves_bind; [apply _| |intros _; apply moves_ret; apply _]. apply keeps_blocked. intros m. destruct defer; [done|].
      intros [= <-]. keep.
Qed.

(** A request goes on to run by itself. *)
Definition direct_passes (r : request) (s s' : EngineTables) : Prop :=
  ∃ ev s0 s1 reason, calm s s0 ∧ admitted s0 s1 r None ev ∧
    s' = (executeAllowedRequest e typed c (withExecutionGrantContext r ev) reason None ev s1).2.

Lemma invoke_evaluated r s o s' :
  (ev ← evaluate fs sha256_hex fs_message e localeCompare typed c r (ic_options c) false;
   if negb (ev_allowed ev) then
     let reason := "blocked: " +:+ ev_policyReason ev in
     recordBlocked typed c r reason (Some ev) (ev_matchedGrantId ev) None false ;;
     mret (blocked_result c reason None policy_block)
   else
     recordNetworkUse typed c r ev ;;
     if ev_requiresApproval ev then requestApproval typed c r ev
     else if truthy_json (prop "dryRun" r) then
       let reason := ev_policyReason ev +:+ "; dry-run" in
       recordInvocation typed c r outcome_executed reason None ev ;;
       mret (executed_result c reason (dry_run_result r ev) (ev_wardEffect ev))
     else
       executeAllowedRequest e typed c (withExecutionGrantContext r ev)
         (if truthy_json (prop "externalRuntime" r) then ev_policyReason ev +:+ "; external runtime" else ev_policyReason ev)
         None ev) s = (o, s') →
  calm s s' ∨ direct_passes r s s'.
Proof.
  intros [(ev & s1 & Hev & Hm)|(err & Hev & ->)]%M_bind_any.
  2:{ apply evaluate_run in Hev as [(? & _ & ->)|(? & ? & ? & [=] & _)]. by left. }
  apply evaluate_run in Hev as [(? & [=] & _)|(? & verified & ip & [= <-] & Hev & Hip & _ & ->)].
  match type of Hm with _ ?s1 = _ => assert (calm s s1) as Hcalm by (split; try done; by exists []) end.
  destruct (ev_allowed ev) eqn:Ha; cbn [negb] in Hm; cbv zeta in Hm.
  2:{ left. etrans; [exact Hcalm|]. match type of Hm with ?m ?s1 = _ => assert (moves keeps m) as Hk;
        [|specialize (Hk s1); rewrite Hm in Hk; by apply keeps_calm] end.
      apply moves_bind; [apply _|by apply keeps_blocked|intros _; apply moves_ret; apply _]. }
  unfold mbind at 1, M_bind at 1 in Hm. match type of Hm with context [recordNetworkUse typed c r ev ?s1] => pose proof (network_run r ev s1) as Hn end.
  destruct (recordNetworkUse _ _ _ _ _) as [[[]|err] s1]; cbn in Hn; subst s1; [|injection Hm as _ <-; by left].
  destruct (ev_requiresApproval ev) eqn:Hr; [|destruct (truthy_json (prop "dryRun" r)) eqn:Hd].
  - left. etrans; [exact Hcalm|]. match type of Hm with ?m ?s1 = _ => pose proof (keeps_request_approval r ev s1) as Hk end.
    rewrite Hm in Hk. by apply keeps_calm.
  - left. etrans; [exact Hcalm|]. match type of Hm with ?m ?s1 = _ => assert (moves keeps m) as Hk;
      [|specialize (Hk s1); rewrite Hm in Hk; by apply keeps_calm] end.
    apply moves_bind; [apply _|apply keeps_invocation|intros _; apply moves_ret; apply _].
  - right. exists ev, s. do 2 eexists. split; [reflexivity|]. split; [|by rewrite Hm].
    split; [|done|done]. exists (ic_options c), verified, ip. split_and!; try done. do 3 f_equal. unfold decided_row. f_equal. f_equal.
    unfold is_true. revert Hd. destruct (prop "dryRun" r) as [[]|]; try done. by destruct b.
Qed.

Lemma invoke_trace caller s o s' : let r := withoutEngineOwnedApproval caller in
  invoke fs sha256_hex fs_message e localeCompare typed c caller s = (o, s') →
  calm s s' ∨ direct_passes r s s' ∨
  ∃ approval, verified_id localeCompare c r s = Ok (Some approval) ∧
    approved_passes approval (is_true "externalRuntime" r) false s s' (is_ok o).
Proof.
  intros r. unfold invoke. fold r. cbv zeta. intros [([] & s1 & ->%needs_owner_run & Hm)|(err & ->%needs_owner_run & ->)]%M_bind_any; [|by left].
  apply M_bind_any in Hm as [([] & s1 & [_ <-]%pair_equal_spec & Hm)|(err & [_ <-]%pair_equal_spec & ->)]; [|by left].
  apply M_bind_any in Hm as [(direct & s1 & Hd & Hm)|(err & Hd & ->)].
  2:{ destruct (bool_decide _); [done|]. apply pair_equal_spec in Hd as [_ <-]. by left. }
  assert (s1 = s ∧ ∀ approval, direct = Some approval → verified_id localeCompare c r s = Ok (Some approval)) as [-> Hv].
  { destruct (bool_decide _); [by injection Hd as <- <-|]. apply pair_equal_spec in Hd as [Hd <-]. split; [done|]. intros approval ->.
    destruct (verified_id _ _ _ _); [|done]. by injection Hd as ->. }
  apply M_bind_any in Hm as [([result|] & s1 & Ha & Hm)|(err & Ha & ->)].
  - injection Hm as <- <-. destruct direct as [approval|]; [|done]. destruct (truthy approval); [|done].
    apply approved_trace in Ha as [?|[Hp _]]; [by left|right; right]. exists approval. split; [by apply Hv|done].
  - assert (calm s s1) as Hcalm.
    { destruct direct as [approval|]; [|by injection Ha as <-]. destruct (truthy approval); [|by injection Ha as <-].
      by apply approved_trace in Ha as [?|[_ ?]]. }
    apply invoke_evaluated in Hm as [?|(ev & s0 & s2 & reason & Hc & Hadm & ->)]; [left; by etrans|right; left].
    exists ev, s0, s2, reason. split; [by etrans|done].
  - destruct direct as [approval|]; [|done]. destruct (truthy approval); [|done].
    apply approved_trace in Ha as [?|[Hp _]]; [by left|right; right]. exists approval. split; [by apply Hv|done].
Qed.

(** ** One run, as it was admitted *)

Lemma grant_context_other r ev k : k ≠ "policyContext" → prop k (withExecutionGrantContext r ev) = prop k r.
Proof. intros Hk. unfold withExecutionGrantContext. cbv zeta. destruct (_ && _); [done|]. by apply lookup_set_field_ne. Qed.
Lemma unstamped_other r k : k ≠ "approvedByApprovalId" → prop k (withoutEngineOwnedApproval r) = prop k r.
Proof. intros Hk. by apply lookup_delete_field_ne. Qed.
Lemma execution_request_other r under ev k : k ≠ "policyContext" → k ≠ "approvedByApprovalId" →
  prop k (execution_request r under ev) = prop k r.
Proof.
  intros Hpolicy Hstamp. unfold execution_request. cbv zeta. unfold prop. destruct under; [rewrite lookup_set_field_ne by done|];
    fold (prop k (withExecutionGrantContext (withoutEngineOwnedApproval r) ev)); rewrite grant_context_other by done; by apply unstamped_other.
Qed.

(** How a run followed from a decision made on the tables [s0]. *)
Definition decided_run (s0 s' : EngineTables) (seen : list outside_event) (r q : request) (under used : option string) : Prop :=
  ∃ options verified ip ev, evaluates s0 r options verified ev ∧ resolveInvocationPolicy e (typed r) options = Ok ip ∧
    ev_allowed ev = true ∧ (under = None → ev_requiresApproval ev = false ∧ truthy_json (prop "dryRun" r) = false) ∧
    et_decisions s' !! ic_decisionId c = Some (decided_row r ip ev (bool_decide (is_Some under)) true) ∧
    truthy_json (prop "externalRuntime" r) = false ∧
    (∀ k, k ≠ "policyContext" → k ≠ "approvedByApprovalId" → prop k q = prop k r) ∧
    used = used_grant ev ∧
    (∀ g, used = Some g → ∃ row, et_grants s0 !! g = Some row ∧ consumable (ic_clock c) row = true ∧
                                 et_grants s' !! g = Some (consumed row)) ∧
    (conservative_mark e typed c q = true →
       ∃ pre post, seen = pre ++ ToolRan (ic_auditEventId c) q under used :: post ∧ EffectStarted (ic_auditEventId c) ∈ pre).

Lemma spent_row clock g t : call_spends g (ConsumeGrantCall clock g) t = true →
  ∃ row, t !! g = Some row ∧ consumable clock row = true ∧ run_grants [ConsumeGrantCall clock g] t !! g = Some (consumed row).
Proof.
  cbn [call_spends run_grants foldl run_grant]. rewrite bool_decide_eq_true_2 by done. rewrite consume_run. cbn [andb].
  destruct (t !! g) as [row|]; [|done]. destruct (consumable clock row) eqn:Hc; [|done]. intros _. exists row.
  cbn. by rewrite lookup_insert_eq.
Qed.

Lemma no_run seen x : times is_run seen = 0%nat → x ∈ seen → is_run x = true → False.
Proof.
  intros Hn%length_zero_iff_nil Hin Hx. assert (x ∈ List.filter is_run seen) as Hf by (by rewrite list_elem_of_In, filter_In, <-list_elem_of_In).
  rewrite Hn in Hf. by apply elem_of_nil in Hf.
Qed.
Lemma run_of_one pre post id q under used x : times is_run pre = 0%nat → times is_run post = 0%nat → is_run x = true →
  x ∈ pre ++ ToolRan id q under used :: post → x = ToolRan id q under used.
Proof.
  intros Npre Npost Hx. rewrite elem_of_app, elem_of_cons. intros [Hin|[->|Hin]]; [destruct (no_run _ _ Npre Hin Hx)|done|destruct (no_run _ _ Npost Hin Hx)].
Qed.

(** The effect of an allowed request on the tables and the outside. *)
Lemma passed_run s0 s1 r r' under ev reason :
  admitted s0 s1 r under ev → (∀ k, k ≠ "policyContext" → prop k r' = prop k r) →
  let s' := (executeAllowedRequest e typed c r' reason under ev s1).2 in
  ∃ seen, et_outside s' = et_outside s1 ++ seen ∧ et_grants s' = run_grants (consume_calls ev) (et_grants s1) ∧
    (∃ ps, et_pending s' = run_pendings ps (et_pending s1)) ∧ (times is_run seen ≤ 1)%nat ∧
    (∀ x, x ∈ seen → is_run x = true → ∃ q, x = ToolRan (ic_auditEventId c) q under (used_grant ev) ∧
       (∀ g, used_grant ev = Some g → call_spends g (ConsumeGrantCall (ic_clock c) g) (et_grants s0) = true) ∧
       decided_run s0 s' seen r q under (used_grant ev)).
Proof.
  intros [(options & verified & ip & Hev & Hip & ->) Hallowed Hunasked] Hr s'. subst s'.
  pose proof (allowed_run r' reason under ev (s0 <| et_decisions := <[ic_decisionId c := decided_row r ip ev (bool_decide (is_Some under)) true]> (et_decisions s0) |>)) as Hrun.
  cbv zeta in Hrun. set (s' := (executeAllowedRequest _ _ _ _ _ _ _ _).2) in *. cbn in Hrun |- *.
  assert (norun (s0 <| et_decisions := <[ic_decisionId c := decided_row r ip ev (bool_decide (is_Some under)) true]> (et_decisions s0) |>
                   <| et_grants := run_grants (consume_calls ev) (et_grants s0) |>) s' ∨ ∃ pre post, _) as Hcase
    by (destruct Hrun as [?|[[?|Hrun] Hspend]]; [by left|by left|right; destruct Hrun as (pre & post & Hrun); exists pre, post; exact (conj Hrun Hspend)]).
  clear Hrun. destruct Hcase as [(seen & [Ho Hg Hd Hp] & Hn)|(pre & post & ([Ho Hg Hd Hp] & Npre & Npost & Hext & Hmark) & Hspend)]; cbn in *;
    eexists; (split; [exact Ho|]).
  - split_and!; try done; [lia|]. intros x Hin Hx. destruct (no_run _ _ Hn Hin Hx).
  - split_and!; try done.
    { unfold times in *. rewrite List.filter_app, length_app. cbn. lia. }
    intros x Hin Hx. eapply run_of_one in Hin as ->; [|done..]. eexists. split; [done|]. split; [done|].
    exists options, verified, ip, ev. split_and!; try done.
    + rewrite Hd. by rewrite lookup_insert_eq.
    + by rewrite <-Hr.
    + intros k ? ?. by rewrite execution_request_other, Hr.
    + intros g Hused. specialize (Hspend g Hused). apply spent_row in Hspend as (row & ? & ? & Hrow). exists row.
      unfold consume_calls in Hg. rewrite Hused in Hg. by rewrite Hg.
    + intros Hc. exists pre, post. split; [done|by apply Hmark].
Qed.

Lemma decided_keeps s0 s2 s' seen r q under used : keeps s2 s' → decided_run s0 s2 seen r q under used → decided_run s0 s' seen r q under used.
Proof. intros [_ Hg Hd _]. unfold decided_run. by rewrite Hg, Hd. Qed.

(** Both ways to a run have their tables, their request and their approval. *)
Definition ran_from (caller : request) (s s0 : EngineTables) (r : request) (under : option string) : Prop :=
  match under with
  | None => calm s s0 ∧ r = withoutEngineOwnedApproval caller
  | Some approval => s0 = s ∧ stands_verified s approval r ∧
      verified_id localeCompare c (withoutEngineOwnedApproval caller) s = Ok (Some approval)
  end.

(** C1. A tool runs only as it was admitted: whatever an invocation returns or throws,
    it runs a tool at most once.  What runs is the caller's request, which the
    access decision allowed with nothing left to ask and which is no dry run, or
    the stored request of an approval that was verified on the same tables.  The
    decision was made on those tables and is recorded as a call that counts, the
    grant to be used up was still usable and is used up, and before a tool whose
    effects cannot be told apart later the caller's mark has been set. *)
Theorem run_is_admitted caller s o s' :
  invoke fs sha256_hex fs_message e localeCompare typed c caller s = (o, s') →
  ∃ seen, et_outside s' = et_outside s ++ seen ∧ (times is_run seen ≤ 1)%nat ∧
    ∀ id q under used, ToolRan id q under used ∈ seen →
      id = ic_auditEventId c ∧ ∃ s0 r, ran_from caller s s0 r under ∧ decided_run s0 s' seen r q under used.
Proof.
  intros [[Ho _ _]|[(ev & s0 & s1 & reason & Hcalm & Hadm & ->)|(approval & Hv & q & ev & s1 & reason & s2 & Hst & Hadm & -> & Hk & _)]]%invoke_trace.
  - exists []. rewrite app_nil_r. split_and!; [done|cbn; lia|]. by intros ? ? ? ? ?%elem_of_nil.
  - pose proof (admitted_calm _ _ _ _ _ Hadm) as Hc1.
    destruct (passed_run _ _ _ (withExecutionGrantContext (withoutEngineOwnedApproval caller) ev) _ _ reason Hadm) as (seen & Ho & _ & _ & Hle & Hrun);
      [intros k; apply grant_context_other|].
    exists seen. split; [by rewrite Ho, (calm_outside _ _ Hc1), (calm_outside _ _ Hcalm)|]. split; [done|].
    intros id q under used Hin. destruct (Hrun _ Hin eq_refl) as (q' & [= -> <- -> ->] & _ & Hd). split; [done|]. by exists s0, (withoutEngineOwnedApproval caller).
  - change (replayed_request false q) with q in *. pose proof (admitted_calm _ _ _ _ _ Hadm) as Hc1.
    destruct (passed_run _ _ _ q _ _ reason Hadm ltac:(done)) as (seen & Ho & _ & _ & Hle & Hrun).
    exists seen. split; [by rewrite (kept_outside _ _ Hk), Ho, (calm_outside _ _ Hc1)|]. split; [done|].
    intros id q' under used Hin. destruct (Hrun _ Hin eq_refl) as (q2 & [= -> <- -> ->] & _ & Hd). split; [done|].
    exists s, q. split; [done|]. by eapply decided_keeps.
Qed.

(** An action whose resolution is left to the external runtime is not run here. *)
Lemma matches_runtime r stored : requestMatchesPendingApproval localeCompare r stored = Ok true → is_true "externalRuntime" r = true →
  prop "externalRuntime" stored = Some (JBool true).
Proof.
  unfold requestMatchesPendingApproval. destruct (negb _); [done|]. intros (l1 & _ & (l2 & _ & [= Hm])%outcome_bind_ok)%outcome_bind_ok Ht.
  do 4 (apply andb_true_iff in Hm as [Hm _]). apply andb_true_iff in Hm as [_ Hm]. unfold same_optional in Hm. unfold is_true in Ht.
  destruct (prop "externalRuntime" r) as [[]|]; try done. destruct b; [|done]. cbn [present] in Hm.
  destruct (prop "externalRuntime" stored) as [[]|]; try done. by destruct b.
Qed.
Lemma verified_runtime r s a q : verified_id localeCompare c r s = Ok (Some a) → stands_verified s a q →
  is_true "externalRuntime" r = true → truthy_json (prop "externalRuntime" q) = true.
Proof.
  intros (_ & row & arow & Hp & _ & _ & _ & _ & Hm)%bypass_spec (pending & stored & Hf & _ & _ & Hs%as_request_ok & -> & _) Ht.
  unfold PendingActions.find in Hf. rewrite Hp in Hf. injection Hf as <-. change (object_fields (pa_request (mapPendingRow a row))) with (stored_request row) in Hs.
  pose proof (matches_runtime _ _ Hm Ht) as Hx. unfold approved_request. cbv zeta.
  unfold prop. rewrite lookup_set_field_ne by done. fold (prop "externalRuntime" stored). rewrite Hs, rebuilt_prop.
  change (literal_field "externalRuntime" (rebuilt_literal (stored_request row)))
    with (keep is_boolean (prop "externalRuntime" (stored_request row))). by rewrite Hx.
Qed.

(** ** What one call does to the accounts *)

(** The runs of a call, each paid for by the grant it uses; under an approval, only
    while its action is open, which it is no longer behind a call that settles. *)
Definition call_effect (s s' : EngineTables) (settles : bool) : Prop :=
  ∃ seen calls, et_outside s' = et_outside s ++ seen ∧ et_grants s' = run_grants calls (et_grants s) ∧
    (∃ ps, et_pending s' = run_pendings ps (et_pending s)) ∧
    (∀ g, (times (run_with g) seen ≤ times_spent g calls (et_grants s))%nat) ∧
    (∀ a, (times (run_under a) seen ≤ 1)%nat ∧
       (times (run_under a) seen = 0%nat ∨ (¬ settled_in a s ∧ (settles = true → settled_in a s')))).

Lemma times_le f l : (∀ x, f x = true → is_run x = true) → (times f l ≤ times is_run l)%nat.
Proof.
  intros Hf. induction l as [|x l IH]; [done|]. unfold times in *. cbn. destruct (f x) eqn:E; [rewrite (Hf x E); cbn; lia|].
  destruct (is_run x); cbn; lia.
Qed.
Lemma run_with_run g x : run_with g x = true → is_run x = true. Proof. by destruct x. Qed.
Lemma run_under_run a x : run_under a x = true → is_run x = true. Proof. by destruct x. Qed.
Lemma times_pos f l : (0 < times f l)%nat → ∃ x, x ∈ l ∧ f x = true.
Proof.
  unfold times. destruct (List.filter f l) as [|x k] eqn:E; [cbn; lia|]. intros _. exists x.
  rewrite list_elem_of_In. apply filter_In. rewrite E. by left.
Qed.

Lemma calm_effect s s' returned : calm s s' → call_effect s s' returned.
Proof.
  intros [Ho Hg Hp]. exists [], []. rewrite app_nil_r. split_and!; try done. intros a. split; [cbn; lia|by left].
Qed.

Lemma stands_open s a q : stands_verified s a q → ¬ settled_in a s.
Proof.
  intros (pending & _ & Hf & Hs & _) (row & Hrow & Hn). unfold PendingActions.find in Hf. rewrite Hrow in Hf. injection Hf as <-. done.
Qed.

(** A run that was let through, followed by records. *)
Lemma pass_effect s s0 s1 r r' under ev reason s' returned :
  calm s s0 → admitted s0 s1 r under ev → (∀ k, k ≠ "policyContext" → prop k r' = prop k r) →
  keeps (executeAllowedRequest e typed c r' reason under ev s1).2 s' →
  (∀ a, under = Some a → truthy_json (prop "externalRuntime" r) = false → ¬ settled_in a s ∧ (returned = true → settled_in a s')) →
  call_effect s s' returned.
Proof.
  intros Hc Hadm Hr Hk Hunder. pose proof (admitted_calm _ _ _ _ _ Hadm) as Hc1.
  destruct (passed_run _ _ _ _ _ _ reason Hadm Hr) as (seen & Ho & Hg & (ps & Hp) & Hle & Hrun).
  exists seen, (consume_calls ev). rewrite (kept_outside _ _ Hk), Ho, (kept_grants _ _ Hk), Hg, (calm_outside _ _ Hc1), (calm_grants _ _ Hc1),
    (calm_outside _ _ Hc), (calm_grants _ _ Hc). split_and!; [done..| | |].
  - destruct (kept_pending _ _ Hk) as (ps1 & ->). rewrite Hp. destruct (calm_pending _ _ Hc1) as (ps2 & ->).
    destruct (calm_pending _ _ Hc) as (ps3 & ->). exists (ps3 ++ ps2 ++ ps ++ ps1). unfold run_pendings. by rewrite !foldl_app.
  - intros g. destruct (times (run_with g) seen) as [|n] eqn:E; [lia|].
    destruct (times_pos (run_with g) seen ltac:(lia)) as (x & Hin & Hx). destruct (Hrun x Hin (run_with_run g x Hx)) as (q & -> & Hspend & _).
    cbn in Hx. apply bool_decide_eq_true in Hx. unfold consume_calls. rewrite Hx. cbn [times_spent].
    rewrite <-(calm_grants _ _ Hc), (Hspend g Hx). pose proof (times_le (run_with g) seen (run_with_run g)). lia.
  - intros a. pose proof (times_le (run_under a) seen (run_under_run a)). split; [lia|].
    destruct (times (run_under a) seen) as [|n] eqn:E; [by left|right].
    destruct (times_pos (run_under a) seen ltac:(lia)) as (x & Hin & Hx). destruct (Hrun x Hin (run_under_run a x Hx)) as (q & -> & _ & Hd).
    cbn in Hx. apply bool_decide_eq_true in Hx. apply Hunder; [done|]. by destruct Hd as (? & ? & ? & ? & _ & _ & _ & _ & _ & ? & _).
Qed.

Lemma replay_runtime q : truthy_json (prop "externalRuntime" (replayed_request true q)) = true.
Proof. unfold replayed_request, prop. by rewrite lookup_set_field. Qed.

Lemma invoke_effect caller s o s' :
  invoke fs sha256_hex fs_message e localeCompare typed c caller s = (o, s') → call_effect s s' (is_ok o).
Proof.
  intros [?|[(ev & s0 & s1 & reason & Hcalm & Hadm & ->)|(approval & Hv & q & ev & s1 & reason & s2 & Hst & Hadm & -> & Hk & Hset)]]%invoke_trace;
    [by apply calm_effect| |].
  - eapply (pass_effect s s0 s1); [done..|intros k; apply grant_context_other|reflexivity|done].
  - change (replayed_request false q) with q in *. eapply (pass_effect s s s1); [reflexivity|done|done|done|]. intros a [= <-] Hext.
    split; [by eapply stands_open|]. intros Hret. apply Hset; [done|].
    destruct (is_true _ _) eqn:E; [|done]. rewrite (verified_runtime _ _ _ _ Hv Hst E) in Hext. done.
Qed.

Lemma approved_effect approval defer replay options s o s' :
  executeApprovedAction fs sha256_hex fs_message e localeCompare typed c approval defer replay options s = (o, s') →
  call_effect s s' (is_ok o && negb defer).
Proof.
  intros [?|[(q & ev & s1 & reason & s2 & Hst & Hadm & -> & Hk & Hset) _]]%approved_trace; [by apply calm_effect|].
  eapply (pass_effect s s s1); [reflexivity|done|done|done|]. intros a [= <-] _. split; [by eapply stands_open|].
  intros [Hret Hdefer%negb_true_iff]%andb_true_iff. by apply Hset.
Qed.

(** ** What a call returns is recorded *)

Definition recorded_as (res : ToolInvokeResult) (s : EngineTables) : Prop :=
  ir_auditEventId res = ic_auditEventId c ∧
  match ir_outcome res with
  | outcome_executed =>
      ∃ row, et_invocations s !! ic_auditEventId c = Some row ∧ in_outcome row = "executed" ∧ in_policy_reason row = ir_policyReason res
  | outcome_blocked => ∃ row, et_blocks s !! ic_auditEventId c = Some row ∧ bl_reason row = ir_policyReason res
  | outcome_approval_required =>
      (∃ row, et_invocations s !! ic_auditEventId c = Some row ∧ in_outcome row = "approval_required" ∧
              in_approval_id row = Some (ic_approvalId c)) ∧
      ir_approvalId res = Some (ic_approvalId c) ∧ (∃ row, et_approvals s !! ic_approvalId c = Some row ∧ ap_status row = approval_pending) ∧
      is_Some (et_pending s !! ic_approvalId c)
  end.

(** What holds whenever a step returns. *)
Definition yields {A} (m : engine A) (P : A → EngineTables → Prop) : Prop := ∀ s x s', m s = (Ok x, s') → P x s'.
Lemma yields_bind {A B} (m : engine A) (f : A → engine B) P : (∀ a, yields (f a) P) → yields (m ≫= f) P.
Proof. intros Hf s x s' (a & s1 & _ & Hm)%M_bind_ok. by eapply Hf. Qed.

Lemma invocation_row_ok r outcome reason approval ev s u s' : recordInvocationRow typed c r outcome reason approval ev s = (Ok u, s') →
  ∃ row, s' = s <| et_invocations := <[ic_auditEventId c := row]> (et_invocations s) |> ∧
    in_outcome row = outcome_word outcome ∧ in_policy_reason row = reason ∧ in_approval_id row = approval.
Proof. unfold recordInvocationRow. destruct (et_invocations s !! _); [done|]. intros [= <- <-]. eexists. by split. Qed.

Lemma yields_executed r reason approval ev result ward :
  yields (recordInvocation typed c r outcome_executed reason approval ev ;; mret (executed_result c reason result ward)) recorded_as.
Proof.
  intros s x s' (u & s1 & Hr & [= <- <-])%M_bind_ok. unfold recordInvocation in Hr.
  apply M_bind_ok in Hr as (u' & s2 & (row & -> & Ho & Hreason & _)%invocation_row_ok & [_ <-]%pair_equal_spec).
  split; [done|]. exists row. cbn. by rewrite lookup_insert_eq.
Qed.

Lemma block_row_ok r reason ev grant s u s' : insert_block typed c r reason ev grant s = (Ok u, s') →
  ∃ row, et_blocks s' !! ic_auditEventId c = Some row ∧ bl_reason row = reason.
Proof.
  unfold insert_block. destruct (et_blocks s !! _); [done|]. cbv zeta. intros [= <- <-]. cbn. eexists. by rewrite lookup_insert_eq.
Qed.

Definition same_rows (s s' : EngineTables) : Prop := et_blocks s' = et_blocks s ∧ et_invocations s' = et_invocations s.
#[local] Instance same_rows_preorder : PreOrder same_rows.
Proof. split; [by intros s|]. intros a b d [] []. split; congruence. Qed.
Lemma rows_resolved approval st result : moves same_rows (resolved c approval st result).
Proof. unfold resolved. moves. intros s. unfold in_pending, zoom, throwing. by destruct (markResolved _ _ _ _ _) as [o t]. Qed.
Lemma rows_event id approval kind actor payload : moves same_rows (event c id approval kind actor payload).
Proof. unfold event. moves. intros s. unfold in_events, zoom, throwing. by destruct (FolderGrants.append _ _ _ _ _ _ _ _) as [o t]. Qed.

Lemma blocked_ok r reason ev grant commit tolerate s u s' : (∀ m, commit = Some m → moves same_rows m) →
  recordBlocked typed c r reason ev grant commit tolerate s = (Ok u, s') →
  ∃ row, et_blocks s' !! ic_auditEventId c = Some row ∧ bl_reason row = reason.
Proof.
  intros Hc (u1 & s1 & Hi & Ha)%M_bind_ok.
  assert (s' = s1) as -> by (unfold try_catch, lift in Ha; destruct (ic_audit c BlockLine), tolerate; by injection Ha).
  destruct commit as [m|]; [|by eapply block_row_ok]. apply transaction_ok, M_bind_ok in Hi as (u2 & s2 & Hb%block_row_ok & Hm).
  pose proof (Hc m eq_refl s2) as [Hsame _]. rewrite Hm in Hsame. cbn in Hsame. by rewrite Hsame.
Qed.
Lemma yields_blocked r reason ev grant commit tolerate result kind : (∀ m, commit = Some m → moves same_rows m) →
  yields (recordBlocked typed c r reason ev grant commit tolerate ;; mret (blocked_result c reason result kind)) recorded_as.
Proof. intros Hc s x s' (u & s1 & Hb & [= <- <-])%M_bind_ok. split; [done|]. cbn. by eapply blocked_ok. Qed.

Lemma yields_caught r reason approval ev started err : yields (caught typed c r reason approval ev started err) recorded_as.
Proof.
  unfold caught. apply yields_bind. intros _. apply yields_bind. intros err'.
  destruct err'; cbv zeta; unfold failure_of; first [by apply yields_blocked|apply yields_executed].
Qed.

Lemma yields_allowed r reason approval ev : yields (executeAllowedRequest e typed c r reason approval ev) recorded_as.
Proof.
  unfold executeAllowedRequest. apply yields_bind. intros [|]; cbn [negb]; [|by apply yields_blocked].
  unfold allowed_body. cbv zeta. destruct (truthy_json _); [apply yields_executed|]. do 2 (apply yields_bind; intros _).
  unfold tool_body. cbv zeta. intros s x s'. unfold try_catch at 1.
  match goal with |- context [match ?m s with _ => _ end] => destruct (m s) as [[y|err] s1] eqn:E end.
  - intros [= -> ->]. revert E. apply yields_bind. intros result. apply yields_bind. intros _. apply yields_executed.
  - apply yields_caught.
Qed.

Lemma recorded_rows res s s' : ir_outcome res ≠ outcome_approval_required → same_rows s s' → recorded_as res s → recorded_as res s'.
Proof. intros Ho [Hb Hi] [? Hr]. split; [done|]. by destruct (ir_outcome res); rewrite ?Hb, ?Hi. Qed.

(** An allowed request is run or refused; it asks nothing more. *)
Lemma allowed_no_question r reason approval ev :
  yields (executeAllowedRequest e typed c r reason approval ev) (λ res _, ir_outcome res ≠ outcome_approval_required).
Proof.
  assert (∀ (m : engine unit) res (P : ToolInvokeResult → EngineTables → Prop), (∀ s, P res s) → yields (m ;; mret res) P) as Hret.
  { intros m res P HP s x s' (u & s1 & _ & [= <- <-])%M_bind_ok. apply HP. }
  unfold executeAllowedRequest. apply yields_bind. intros [|]; cbn [negb]; [|by apply Hret].
  unfold allowed_body. cbv zeta. destruct (truthy_json _); [by apply Hret|]. do 2 (apply yields_bind; intros _).
  unfold tool_body. cbv zeta. intros s x s'. unfold try_catch at 1.
  match goal with |- context [match ?m s with _ => _ end] => destruct (m s) as [[y|err] s1] eqn:E end.
  - intros [= -> ->]. revert E. apply (yields_bind _ _ (λ res _, ir_outcome res ≠ outcome_approval_required)). intros result.
    apply yields_bind. intros _. by apply Hret.
  - revert s1 x s' E. intros s1 x s' _. unfold caught. apply (yields_bind _ _ (λ res _, ir_outcome res ≠ outcome_approval_required)). intros _.
    apply yields_bind. intros err'. destruct err'; cbv zeta; unfold failure_of; by apply Hret.
Qed.

Lemma yields_approved approval defer replay options :
  yields (executeApprovedAction fs sha256_hex fs_message e localeCompare typed c approval defer replay options)
    (λ res s, match res with Some res => recorded_as res s | None => True end).
Proof.
  unfold executeApprovedAction. apply yields_bind. intros [q|]; [|by intros s x s' [= <- _]]. cbv zeta.
  apply yields_bind. intros _. apply yields_bind. intros own. apply yields_bind. intros ev. destruct (ev_allowed ev); cbn [negb].
  - intros s x s' (result & s1 & Hrun & (u & s2 & Hres & [= <- <-])%M_bind_ok)%M_bind_ok.
    pose proof (allowed_no_question _ _ _ _ _ _ _ Hrun) as Hno. apply yields_allowed in Hrun.
    eapply recorded_rows; [done| |exact Hrun]. destruct defer; [by injection Hres as _ <-|].
    match type of Hres with ?m s1 = _ => assert (moves same_rows m) as Hm by
      (apply moves_bind; [apply _|apply rows_resolved|intros _; apply rows_event]) end.
    specialize (Hm s1). by rewrite Hres in Hm.
  - intros s x s' (u & s1 & Hb & [= <- <-])%M_bind_ok. split; [done|]. cbn. eapply blocked_ok; [|exact Hb].
    intros m. destruct defer; [done|]. intros [= <-]. apply moves_bind; [apply _|apply rows_resolved|intros _; apply rows_event].
Qed.

Lemma upsert_kept now id kind request created expires t : is_Some ((upsertPending now id kind request created expires t).2 !! id).
Proof. rewrite upsert_pending_run. cbn. rewrite lookup_insert_eq. by eexists. Qed.

Lemma question_created uuid clock input ttlMs t approval t' : createWithTtlDuration uuid clock input ttlMs t = (Ok approval, t') →
  approvalId approval = uuid ∧ ∃ row, t' !! uuid = Some row ∧ ap_status row = approval_pending.
Proof.
  rewrite create_ttl_run. destruct (_ ≫= _) as [window|]; [|done]. rewrite create_at_run. cbv zeta.
  destruct (t !! uuid); [done|]. intros [= <- <-]. split; [done|]. eexists. by rewrite lookup_insert_eq.
Qed.
Lemma event_approvals id approval kind actor payload s o s' :
  event c id approval kind actor payload s = (o, s') → et_approvals s' = et_approvals s.
Proof.
  unfold event. intros [(a & s1 & Hr & [_ <-]%pair_equal_spec)|(err & Hr & _)]%M_bind_any;
    unfold in_events, zoom, throwing in Hr; destruct (FolderGrants.append _ _ _ _ _ _ _ _) as [o' t]; injection Hr as _ <-; done.
Qed.

Lemma yields_question r ev : yields (requestApproval typed c r ev) recorded_as.
Proof.
  unfold requestApproval. cbv zeta. intros s x s' (expiresAt & s1 & Htx & [= <- <-])%M_bind_ok.
  apply transaction_ok, M_bind_ok in Htx as (approval & s2 & Hcreate & Htx). unfold in_approvals, zoom, throwing in Hcreate.
  destruct (createWithTtlDuration _ _ _ _ _) as [[approval'|] t] eqn:E; [|done]. injection Hcreate as -> <-.
  apply question_created in E as (Hid & arow & Harow & Hpending).
  apply M_bind_ok in Htx as (u & s3 & [_ ->]%guard_throw_ok & Htx). apply M_bind_ok in Htx as (at_ & s3 & [_ <-]%pair_equal_spec & Htx).
  apply M_bind_ok in Htx as (pending & s3 & Hp & Htx). apply M_bind_ok in Htx as (u2 & s4 & [_ <-]%pair_equal_spec & Htx).
  apply M_bind_ok in Htx as (u3 & s5 & He & Htx). apply M_bind_ok in Htx as (u4 & s6 & (row & -> & Ho & _ & Ha)%invocation_row_ok & [= <- <-]).
  rewrite Hid in Hp, He, Ha. unfold in_pending, zoom, throwing in Hp.
  pose proof (upsert_kept (ic_nowIso c) (ic_approvalId c) tool_invoke (JObject (toPendingApprovalRequestRecord r)) None (Some at_) (et_pending s)) as Hkept.
  cbn [et_pending] in Hp.
  destruct (upsertPending _ _ _ _ _ _ (et_pending s)) as [o t2] eqn:Eu. rewrite ?Eu in Hp; rewrite ?Eu in Hkept. injection Hp as _ <-. cbn [snd] in Hkept.
  pose proof (event_pending _ _ _ _ _ _ _ _ He) as Hpend. apply event_approvals in He. cbn in Hpend, He.
  split; [done|]. cbn. rewrite lookup_insert_eq, Hpend, He. split_and!; [by exists row|done|by exists arow|exact Hkept].
Qed.

(** C9. What an invocation returns is on record under the id it returns: a row of
    the run with its reason; a row of the refusal with its reason; or a pending
    approval with its action and the row that refers to it. *)
Theorem returned_is_recorded caller s res s' :
  invoke fs sha256_hex fs_message e localeCompare typed c caller s = (Ok res, s') → recorded_as res s'.
Proof.
  revert s res s'. change (yields (invoke fs sha256_hex fs_message e localeCompare typed c caller) recorded_as). unfold invoke. cbv zeta.
  do 2 (apply yields_bind; intros _). apply yields_bind. intros direct.
  intros s x s' ([result|] & s1 & Hdirect & Hm)%M_bind_ok.
  - injection Hm as <- <-. destruct direct as [approval|]; [|done]. destruct (truthy approval); [|done].
    by apply yields_approved in Hdirect.
  - revert Hm. apply yields_bind. intros ev. destruct (ev_allowed ev); cbn [negb]; [|by apply yields_blocked].
    apply yields_bind. intros _. destruct (ev_requiresApproval ev); [apply yields_question|].
    destruct (truthy_json _); [apply yields_executed|apply yields_allowed].
Qed.
End engine.

(** ** Histories of calls *)

(** The calls of an engine, between calls of others to the grants and the pending
    actions, and any change of the other tables. *)
Inductive engine_step :=
  | InvokeStep (c : InvokeCall) (caller : request)
  | ApprovedStep (c : InvokeCall) (approval : string) (deferResolution replay : bool) (options : ToolPolicyEvaluateOptions)
  | GrantCallStep (g : grant_call)
  | PendingCallStep (p : pending_call)
  | OtherStep (decided : decision_table) (asked : approval_table) (told : event_table).

Section history.
Context `{Platform} `{Host} `{NodeBuffer} (fs : FileSystem) (sha256_hex : string → string) (fs_message : FsError → string).
Context (e : ToolPolicyEngine) (localeCompare : string → string → Z) (typed : request → ToolAccessEvaluateRequest).

(** Whether the call settles what it ran (it returned, and was not told to leave
    that to its caller), and the tables after it. *)
Definition run_engine_step (st : engine_step) (s : EngineTables) : bool * EngineTables :=
  match st with
  | InvokeStep c caller => let '(o, s') := invoke fs sha256_hex fs_message e localeCompare typed c caller s in (is_ok o, s')
  | ApprovedStep c approval defer replay options =>
      let '(o, s') := executeApprovedAction fs sha256_hex fs_message e localeCompare typed c approval defer replay options s in
      (is_ok o && negb defer, s')
  | GrantCallStep g => (true, s <| et_grants := run_grant g (et_grants s) |>)
  | PendingCallStep p => (true, s <| et_pending := run_pending p (et_pending s) |>)
  | OtherStep d a t => (true, s <| et_decisions := d |> <| et_approvals := a |> <| et_events := t |>)
  end.
Definition run_engine (steps : list engine_step) (s : EngineTables) : EngineTables := foldl (λ s st, (run_engine_step st s).2) s steps.

(** The runs of tools so far, and the calls that ran one under an approval and left
    its action open: they threw, or were told to defer its resolution. *)
Definition runs_under (approval : string) (s : EngineTables) : nat := times (run_under approval) (et_outside s).
Definition runs_with (grantId : string) (s : EngineTables) : nat := times (run_with grantId) (et_outside s).
Fixpoint open_calls (approval : string) (steps : list engine_step) (s : EngineTables) : nat :=
  match steps with
  | [] => 0
  | st :: steps =>
      let '(settles, s') := run_engine_step st s in
      (if negb settles && bool_decide (runs_under approval s < runs_under approval s')%nat then 1 else 0) + open_calls approval steps s'
  end.

Lemma step_effect st s : call_effect s (run_engine_step st s).2 (run_engine_step st s).1.
Proof.
  destruct st as [c caller|c approval defer replay options|g|p|d a t]; cbn [run_engine_step].
  - destruct (invoke _ _ _ _ _ _ _ _ _) as [o s'] eqn:E. by eapply invoke_effect.
  - destruct (executeApprovedAction _ _ _ _ _ _ _ _ _ _ _ _) as [o s'] eqn:E. by eapply approved_effect.
  - exists [], [g]. rewrite app_nil_r. split_and!; try done; [by exists []|intros g'; cbn; lia|]. intros a. split; [cbn; lia|by left].
  - exists [], []. rewrite app_nil_r. split_and!; try done; [by exists [p]|]. intros a. split; [cbn; lia|by left].
  - exists [], []. rewrite app_nil_r. split_and!; try done; [by exists []|]. intros a'. split; [cbn; lia|by left].
Qed.

Lemma settled_stays a s s' returned : call_effect s s' returned → settled_in a s → settled_in a s'.
Proof.
  intros (seen & calls & _ & _ & (ps & Hp) & _) (row & Hrow & Hn). destruct (settled_run ps (et_pending s) a row Hrow Hn) as (row' & Hrow' & Hs).
  exists row'. rewrite Hp. split; [done|by eapply settled_not_pending].
Qed.

Lemma settled_runs a steps : ∀ s, settled_in a s → runs_under a (run_engine steps s) = runs_under a s.
Proof.
  induction steps as [|st steps IH]; intros s Hs; [done|]. cbn. pose proof (step_effect st s) as He.
  fold (run_engine steps (run_engine_step st s).2). rewrite (IH _ (settled_stays _ _ _ _ He Hs)).
  destruct He as (seen & calls & Ho & _ & _ & _ & Ha). destruct (Ha a) as [_ [Hz|[Hn _]]]; [|done].
  unfold runs_under. rewrite Ho, times_app, Hz. lia.
Qed.

Lemma runs_bounded a steps : ∀ s, (runs_under a (run_engine steps s) ≤ runs_under a s + 1 + open_calls a steps s)%nat.
Proof.
  induction steps as [|st steps IH]; intros s; [cbn; lia|]. cbn [open_calls]. cbn [run_engine foldl].
  pose proof (step_effect st s) as He. destruct (run_engine_step st s) as [returned s'] eqn:E. cbn [fst snd] in *.
  fold (run_engine steps s'). destruct He as (seen & calls & Ho & _ & _ & _ & Ha). destruct (Ha a) as [Hle Hcase].
  assert (runs_under a s' = runs_under a s + times (run_under a) seen)%nat as Hruns by (unfold runs_under; by rewrite Ho, times_app).
  specialize (IH s'). destruct Hcase as [Hz|[_ Hset]]; [lia|]. destruct returned.
  - rewrite (settled_runs a steps s') by auto. cbn. lia.
  - cbn [negb andb]. destruct (bool_decide_reflect (runs_under a s < runs_under a s')%nat); lia.
Qed.

(** C2. An approved action that is settled never runs again, and one that is not runs
    once and then only again if the call before left it open: over every history of
    invocations and approved executions, deferred or not, between any calls of
    others, the runs under an approval exceed one by no more than the calls that
    ran its tool and then threw or were told to leave the resolution to their
    caller; and behind any part of the history with the action settled, by the
    engine or by its caller, there is no further run.  (The Gateway defers the
    resolution of every approved tool call and settles it in its own transaction;
    what keeps two of its calls from running the tool in between is its record of
    external side effects, which is not part of this function.) *)
Theorem approved_action_runs_once approval steps :
  (runs_under approval (run_engine steps no_tables) ≤ 1 + open_calls approval steps no_tables)%nat ∧
  ∀ before after, steps = before ++ after → settled_in approval (run_engine before no_tables) →
    runs_under approval (run_engine steps no_tables) = runs_under approval (run_engine before no_tables).
Proof.
  split; [pose proof (runs_bounded approval steps no_tables); by cbn in *|].
  intros before after -> Hs. unfold run_engine at 1. rewrite foldl_app. by apply settled_runs.
Qed.

Lemma times_spent_app g cs ds : ∀ t, times_spent g (cs ++ ds) t = (times_spent g cs t + times_spent g ds (run_grants cs t))%nat.
Proof. induction cs as [|c cs IH]; intros t; [done|]. cbn. rewrite IH. unfold run_grants. lia. Qed.

Lemma runs_paid g steps : ∀ s, ∃ calls, et_grants (run_engine steps s) = run_grants calls (et_grants s) ∧
  (runs_with g (run_engine steps s) ≤ runs_with g s + times_spent g calls (et_grants s))%nat.
Proof.
  induction steps as [|st steps IH]; intros s; [exists []; split; [done|cbn; lia]|].
  destruct (step_effect st s) as (seen & calls & Ho & Hg & _ & Hw & _). cbn [run_engine foldl].
  fold (run_engine steps (run_engine_step st s).2). destruct (IH (run_engine_step st s).2) as (later & Hl & Hle).
  exists (calls ++ later). rewrite Hl, Hg in *. split; [unfold run_grants; by rewrite foldl_app|]. rewrite times_spent_app.
  specialize (Hw g). unfold runs_with in *. rewrite Ho, times_app in Hle. lia.
Qed.

(** C3. A one-time grant runs one tool: over every history of invocations, approved
    executions and calls to the grants, no more than one run was admitted by a
    grant for one use, even if the run failed or its call threw. *)
Theorem one_time_grant_runs_once grantId steps row :
  et_grants (run_engine steps no_tables) !! grantId = Some row → gr_grant_type row = "one_time" →
  (runs_with grantId (run_engine steps no_tables) ≤ 1)%nat.
Proof.
  intros Hrow Htype. destruct (runs_paid grantId steps no_tables) as (calls & Hg & Hle). cbn in Hg, Hle.
  pose proof (account_history grantId calls ∅ 0 eq_refl) as Ha. rewrite Hg in Hrow. rewrite Hrow in Ha.
  destruct Ha as [_ Ha]. specialize (Ha ltac:(by apply bool_decide_eq_true)) as [Hspent _]. lia.
Qed.
End history.

(** ** Invocations at work *)

Module InvocationExamples.
Import PathJailExamples AccessExamples.
#[local] Instance plain_buffer : NodeBuffer := Build_NodeBuffer id id id.

Definition by_units (a b : string) : Z := if string_ltb a b then -1 else if string_ltb b a then 1 else 0.
Definition fields_view (r : request) : ToolAccessEvaluateRequest :=
  let text k := match prop k r with Some (JString s) => Some s | _ => None end in
  mkAccessRequest (default "" (text "toolName")) (default "" (text "agentId")) (default "" (text "sessionId")) (text "workspaceId")
    (text "citadelId") None (text "taskId") (text "runId") (object_fields <$> prop "args" r) (prop "trustLevel" r)
    (prop "sourceAttribution" r) (Some (context_of "operator" None)).

(** A call with ids of its own; [audit] says whether the audit log can be written. *)
Definition call_of (n : string) (audit : bool) : InvokeCall :=
  mkInvokeCall quiet noon_iso ("audit-" +:+ n) ("decision-" +:+ n) ("approval-" +:+ n) ("event-" +:+ n) ("registration-" +:+ n) no_options
    "channel_reply" [] None (Ok tt) false (λ _, if audit then Ok tt else Err (Thrown (JsError "disk full"))) (Ok tt)
    (Some (Ok tt)) (λ _, (false, Ok [("written", JBool true)])).
Definition write_args : list (string * json) := [("path", JString "./workspace/a.txt"); ("content", JString "hello")].
Definition write : request :=
  [("toolName", JString "fs.write"); ("args", JObject write_args); ("agentId", JString "agent"); ("sessionId", JString "s1")].
Abbreviation engine_run steps := (run_engine tree id (λ _, "io error") (engine_in approve_risky) by_units fields_view steps no_tables).
Abbreviation invoked c r s := (Invocation.invoke tree id (λ _, "io error") (engine_in approve_risky) by_units fields_view c r s).

Definition one_write : ToolGrantCreateInput :=
  mkGrantInput "fs.write" "allow" "session" (Some "s1") (Some "one_time")
    (Some (mkConstraints [] [] [] None (Some 2) None None None)) "ana" None None.
Definition granted : EngineTables := engine_run [OtherStep {[ "d0" := made_call ]} ∅ ∅; GrantCallStep (CreateGrantCall "g1" noon_iso noon one_write)].

(** The run under the grant, and the refusal of the next one. *)
Definition ran := invoked (call_of "1" true) write granted.
Definition after_run : EngineTables := snd ran.
Definition run_result : ToolInvokeResult := mkInvokeResult outcome_executed "allowed" "audit-1" None None (Some [("written", JBool true)]) None None.
Lemma granted_write_runs : invoked (call_of "1" true) write granted = (Ok run_result, after_run).
Proof. by vm_compute. Qed.

Definition executed_write : request := write ++ [("policyContext", JObject [("matchedGrantId", JString "g1")])].
Lemma seen_run : et_outside after_run = [EffectStarted "audit-1"; ToolRan "audit-1" executed_write None (Some "g1")].
Proof. by vm_compute. Qed.

Lemma run_is_admitted_witness :
  ∃ r ev, r = write ∧ ev_allowed ev = true ∧ ev_requiresApproval ev = false ∧ used_grant ev = Some "g1".
Proof.
  destruct (run_is_admitted tree id (λ _, "io error") (engine_in approve_risky) by_units fields_view (call_of "1" true) write granted
    (Ok run_result) after_run granted_write_runs) as (seen & Hseen & _ & Hrun).
  rewrite seen_run in Hseen. change (et_outside granted) with (@nil outside_event) in Hseen. cbn in Hseen. subst seen.
  destruct (Hrun "audit-1" executed_write None (Some "g1")) as (_ & s0 & r & [_ Hr] & options & verified & ip & ev & _ & _ & Ha & Hask & _ & _ & _ & Hused & _).
  - right. left.
  - exists r, ev. split; [exact Hr|]. split; [exact Ha|]. split; [exact (proj1 (Hask eq_refl))|]. symmetry. exact Hused.
Defined.

Lemma returned_is_recorded_witness :
  ∃ row, et_invocations after_run !! "audit-1" = Some row ∧ in_outcome row = "executed" ∧ in_policy_reason row = "allowed".
Proof.
  exact (proj2 (returned_is_recorded tree id (λ _, "io error") (engine_in approve_risky) by_units fields_view (call_of "1" true) write granted
    run_result after_run granted_write_runs)).
Defined.

Definition two_writes_steps : list engine_step := [
  OtherStep {[ "d0" := made_call ]} ∅ ∅; GrantCallStep (CreateGrantCall "g1" noon_iso noon one_write);
  InvokeStep (call_of "1" true) write; InvokeStep (call_of "2" true) write].
Lemma one_time_grant_runs_once_witness :
  ∃ row, et_grants (engine_run two_writes_steps) !! "g1" = Some row ∧ gr_uses_remaining row = Some 0 ∧
    (times (run_with "g1") (et_outside (engine_run two_writes_steps)) ≤ 1)%nat.
Proof.
  destruct (et_grants (engine_run two_writes_steps) !! "g1") as [row|] eqn:Hrow; [|exfalso; vm_compute in Hrow; discriminate Hrow].
  assert (gr_grant_type row = "one_time" ∧ gr_uses_remaining row = Some 0) as [Htype Huses].
  { vm_compute in Hrow. injection Hrow as <-. split; reflexivity. }
  exists row. split; [reflexivity|]. split; [exact Huses|].
  exact (one_time_grant_runs_once tree id (λ _, "io error") (engine_in approve_risky) by_units fields_view "g1" two_writes_steps row Hrow Htype).
Defined.

(** ** Approved actions *)

(** A request that asks, the operator's answer, and the execution of what was asked. *)
Definition asked (r : request) : EngineTables := engine_run [InvokeStep (call_of "1" true) r].
Definition answered (r : request) (calls : list engine_step) : list engine_step :=
  [InvokeStep (call_of "1" true) r;
   OtherStep ∅ (run_calls [ResolveCall noon "approval-1" (mkResolve decide_approve None "operator" None) false] (et_approvals (asked r))) ∅] ++ calls.
Definition execute (n : string) (audit : bool) : engine_step := ApprovedStep (call_of n audit) "approval-1" false false no_options.

Example approved_twice_runs_once :
  runs_under "approval-1" (engine_run (answered write [execute "2" true; execute "3" true])) = 1%nat.
Proof. by vm_compute. Qed.

(** When neither the row of the run nor the row of its failure reaches the audit
    log, the call throws with the action still open, and the tool runs again. *)
Example lost_call_runs_again : let steps := answered write [execute "2" false; execute "3" true] in
  runs_under "approval-1" (engine_run steps) = 2%nat ∧
  open_calls tree id (λ _, "io error") (engine_in approve_risky) by_units fields_view "approval-1" steps no_tables = 1%nat.
Proof. by vm_compute. Qed.

(** Told to leave the resolution to its caller, the engine runs the tool as often as
    it is asked, until the caller settles the action. *)
Definition deferred (n : string) : engine_step := ApprovedStep (call_of n true) "approval-1" true false no_options.
Definition settle : engine_step := PendingCallStep (MarkResolvedCall noon_iso "approval-1" action_executed None).
Example deferred_runs_until_settled :
  runs_under "approval-1" (engine_run (answered write [deferred "2"; deferred "3"; settle; deferred "4"])) = 2%nat ∧
  runs_under "approval-1" (engine_run (answered write [deferred "2"; settle; deferred "3"; execute "4" true])) = 1%nat.
Proof. by vm_compute. Qed.

(** When only the line of the run is lost, the tool has run and its row says so,
    while the caller is told that it was blocked. *)
Definition half_audit (n : string) : InvokeCall :=
  mkInvokeCall quiet noon_iso ("audit-" +:+ n) ("decision-" +:+ n) ("approval-" +:+ n) ("event-" +:+ n) ("registration-" +:+ n) no_options
    "channel_reply" [] None (Ok tt) false (λ line, match line with InvocationLine => Err (Thrown (JsError "disk full")) | _ => Ok tt end)
    (Ok tt) None (λ _, (false, Ok [("written", JBool true)])).
Example run_told_as_blocked : let '(o, s) := invoked (half_audit "1") write granted in
  (λ res, (ir_outcome res, ir_policyReason res)) <$> (match o with Ok res => Some res | Err _ => None end) =
    Some (outcome_blocked, "execution error: disk full") ∧
  times is_run (et_outside s) = 1%nat ∧ in_outcome <$> et_invocations s !! "audit-1" = Some "executed".
Proof. by vm_compute. Qed.

(** A dry run that asks: once it is approved, the tool runs. *)
Definition dry : request := write ++ [("dryRun", JBool true)].
Example approved_dry_run_runs :
  runs_under "approval-1" (engine_run (answered dry [execute "2" true])) = 1%nat.
Proof. by vm_compute. Qed.
End InvocationExamples.
